(* ===== verification/_CoqProject ===== *)
-Q . S2P
Prelude.v
LinkedList.v
RingBuffer.v
Bits.v
Capability.v
Calendar.v
Arith64.v
Memory.v
Strings.v
Strtol.v
Machine.v
FlagLock.v
EventGroup.v
RecursiveMutex.v
TicketLock.v
Semaphore.v
Rendezvous.v
MessageQueue.v
QueueCounters.v
QueueFifo.v
QueueSpec.v
Thread.v
ThreadQueues.v
ThreadInv.v
ThreadOps.v
ThreadSchedule.v
Scheduler.v
Timer.v
Timeouts.v
MultiWaiter.v
Futex.v
SchedulerEntry.v
Walks.v
WakeSpec.v
FutexSpec.v
KernelEntry.v
MultiSpec.v
KernelCalls.v
SystemSpec.v
KernelDemo.v
KernelTheorems.v
MultiTheorems.v
AllocSizes.v
ChunkHeader.v
MState.v
Bins.v
SmallBins.v
TreeBins.v
TreeUnlink.v
FreeLists.v
TreeSelect.v
Allocator.v
Heap.v
Release.v
Malloc.v
Accounts.v
Quarantine.v
Dequeue.v
FreeOp.v
Hazard.v
MallocOp.v
Memalign.v
Sanity.v
Label.v
Dispatch.v
Reach.v
Owns.v
HeapApi.v
Ledger.v
Claims.v
Books.v
ClaimApi.v
FreeApi.v
EntryPoints.v
AllocCalls.v
ApiReach.v
Demo.v
ApiSpec.v
AllocatorSpec.v
