(* ===== verification/Prelude.v ===== *)
(** * Croc and CHERIoT-RTOS: a verification development

    The repository is the Croc system-on-chip with the software that runs on it: the
    real-time operating system CHERIoT-RTOS under [src/cheriot-rtos/].  The development models
    the parts of that operating system that every compartment depends on, as they are written
    in C++, by shallow embedding: pure functions are Rocq functions, stateful code passes its
    state explicitly, and code that can stop returns an [outcome] (below) whose errors are a
    failed debug assertion, the allocator's abort, a capability fault, a processor trap,
    arithmetic that C leaves undefined, and exhausted fuel.  Paths are relative to
    [src/cheriot-rtos/sdk/].

    ** The parts

    - Data structures ([include/ds/]): [LinkedList] ([linked_list.h], rings of cells over an
      abstract cell interface), [RingBuffer] ([ring_buffer.h]), [Bits] ([bits.h],
      [xoroshiro.h]).  [Capability] is the part of [include/cheri.hh] that sets of permissions
      and [lib/compartment_helpers/check_pointer.cc] use.
    - Libraries without state: [Calendar] ([lib/time/timegm.cc]), [Arith64]
      ([lib/crt/arith64.c], 64-bit arithmetic on 32-bit words), [Memory] ([lib/freestanding/]:
      [memcpy], [memset], [memcmp]), [Strings] ([lib/string/]) over the memory of [Memory], and
      [Strtol] ([lib/strtol/]).
    - The scheduler ([core/scheduler/]): [Thread] is [thread.h] (the priority lists, the
      sleeping list, boosting), [Timer] is [timer.h] with [tick-conversion.h], [timeout.h] and
      the timer driver, [Timeouts] the blocking part of [thread.h] with [TimeoutArgument],
      [MultiWaiter] is [multiwait.h], [Futex] the futex calls of [main.cc] with their priority
      inheritance, and [SchedulerEntry] the rest of [main.cc]: start-up, exceptions,
      interrupts, sleeping, interrupt capabilities, the multiwaiter calls.
    - Proofs about the scheduler's queues: [ThreadQueues], [ThreadInv], [ThreadOps] and
      [ThreadSchedule] hold the invariant of the queues and the operations that keep it,
      [Scheduler] the states that single operations reach and the theorems about them.
    - Proofs about its entry points: [Walks] (a walk over a sleep queue that wakes threads is a
      pure scan), [WakeSpec] (which threads a wake chooses), [FutexSpec] (writes of what a thread
      waits for), [KernelEntry], [MultiSpec] and [KernelCalls] (each entry point keeps
      [kernel_ok]), [SystemSpec] (the threads that call the scheduler, as a state machine with
      the frames of the calls under way and the deletion of a multiwaiter, whose pieces other
      threads interrupt), [KernelDemo] (runs that are evaluated),
      [KernelTheorems] and [MultiTheorems].
    - The allocator's heap ([core/allocator/alloc.h], [alloc_config.h]): [AllocSizes] (sizes and
      bins), [ChunkHeader] (headers and the tiling of the heap), [MState] (the state, its monad
      [M], the revoker and the hazard list), [Bins] (small bins, tree bins and the debug
      checks), [Allocator] (freeing, quarantine, allocation, [mspace_dispatch]).
    - The allocator's entry points ([core/allocator/main.cc]): [HeapApi] (quotas, claims,
      [heap_allocate], [heap_free], [heap_claim], [heap_free_all]), in the monad [C] over the
      state of the compartment.  Its operations call those of [Allocator] on the heap.
    - The synchronisation libraries ([lib/locks/], [lib/queue/]): [Machine] is the frame, threads
      that interleave at the granularity of single atomic accesses and sleep in futex calls.
      [FlagLock], [RecursiveMutex] (which embeds it), [TicketLock] and [Semaphore] are the locks;
      [Rendezvous] holds run-once functions, barriers and condition variables, each in a
      [Module]; [MessageQueue] is [queue.cc], with the arithmetic of its counters in
      [QueueCounters], the invariant for one sender and one receiver in [QueueFifo] and the
      theorems and counterexamples in [QueueSpec].  [EventGroup] ([lib/event_group/]) is a
      machine of the same kind over the futex words of the waiters of an event group.

    ** The invariants

    The queues of the scheduler are lists of threads that share their links: [wf] ([ThreadInv])
    says which thread is in which queue.  [kernel_ok] ([WakeSpec]) adds the futex fields and
    the multiwaiters, and [system_ok] ([SystemSpec]) the frames of the threads that gave up the
    processor inside of a call and that nobody sleeps on a multiwaiter whose destructor has run;
    [after_but] ([KernelCalls]) is what each call leaves.

    The heap is a list of chunks [l] ([ChunkHeader]); [heap_ok] ([Heap]) says that the headers in
    memory are those of [l], that no two free chunks are adjacent, that the last chunk is the
    footer, and that the bins hold exactly the free chunks.  [SmallBins], [TreeBins],
    [TreeUnlink], [FreeLists] and [TreeSelect] prove the operations on bins, [Release] and
    [Malloc] merging and carving.  [state_inv] ([Quarantine]) adds the quarantine, with the epoch
    each chunk waits for as ghost state, and the byte counts ([Accounts]); [Dequeue],
    [FreeOp], [Hazard], [MallocOp], [Memalign], [Sanity], [Label] and [Dispatch] prove
    the operations; [alloc_ok] ([Hazard]) is the invariant between two calls.  [Reach] is
    [mstate_init] and the reachable states.  [Owns] forgets everything but the list of
    allocated chunks, and is the interface that the entry points are proved against: [Ledger]
    divides these chunks into objects with their chains of claims, the hazard quarantine and the
    footer; [Claims] and [Books] are its steps and the accounts of the quotas.
    [ClaimApi], [FreeApi], [EntryPoints] and [AllocCalls] prove the entry points against it, on
    the invariant [api_ok] ([EntryPoints]) of the compartment; [ApiReach] is the first call and
    the states that sequences of calls reach.

    ** What the theorems show

    Functional behaviour of each operation on every branch, preservation of the invariants,
    absence of aborts, faults and failed assertions, termination with the fuel the definitions
    compute, temporal safety (memory leaves the quarantine only after a whole revocation pass,
    and not while a hazard pointer covers it), conservation of quotas, fairness and progress of
    the scheduler, priority inheritance and where it fails, absence of lost wake-ups, round trips
    of the encodings, equivalence of the library routines with the arithmetic, the calendar and
    the lists they stand for, and behaviour at the limits of the machine words.  The allocator's
    theorems are in [AllocatorSpec] and those of the entry points in [ApiSpec], each with an
    application to the concrete allocator of [Demo]; those of the scheduler's entry points are in
    [SystemSpec], [KernelTheorems] and [MultiTheorems], with runs of [KernelDemo]; the others are
    at the end of their component's file.  Examples beside them evaluate runs in which the code
    does not do what it means to.

    ** Bounds and fuel

    Integers are [Z] with their wrap-around written out ([wrap], [u32], [s32]).  Loops without a
    structural bound take fuel computed from the state (the number of cells of a list, of tree
    nodes or of headers) and theorems show that it is enough, or they take as fuel the number
    of iterations that the code's own bound gives.  The loop of [malloc_internal] turns at most
    once for each byte of the heap between two waits ([turns], [AllocCalls]), since every turn
    but the last takes a chunk out of the quarantine.

    ** Hypotheses

    [EnvOk] ([SmallBins]) is the layout of the heap's region; [Configured] ([Reach]) how [main.cc]
    computes it; [Epochs] ([Quarantine]) that the revoker's epoch only grows and does not
    reach half of its range; [Cheri] ([Dispatch]) the laws of the instructions CRRL and CRAM,
    which round lengths to what a capability's bounds can express (its section [Cheriot] has an
    instance).  [enabled] ([SystemSpec]) is what the hardware and the callers of the scheduler
    guarantee: a thread runs code, and an exception that ends it is raised outside of a call; the
    words and arrays that a call reads can be read, handles are of live objects, nobody starts to
    wait on a multiwaiter between its destructor and its release, and no thread is away for 2^32
    ticks.  [boosts_followed] ([SystemSpec]) is what nobody guarantees, since [priority_boost]
    does not raise [highestPriority]: a ready thread that is boosted is not raised above the
    highest ready priority, or has no peers ([followed], [FutexSpec]).  The theorems about single
    calls name the boosts for which they need it, and [KernelDemo] decides it for its runs.
    Hazard pointers and the epoch are read from the environment at each reading, so that all
    interleavings with other threads and the revoker are covered.

    ** Not modelled

    The contents of memory in use by the allocator's clients, and the tags of the capabilities
    that [memcpy] copies; locks around an operation (each operation of the allocator holds the
    lock throughout, and where [malloc_internal] drops it, what the others do is an argument; a
    thread that finds the lock of multiwaiter deletions taken makes futex calls like any
    other); the scheduler's cycle accounting, its panic and the set-up of the interrupt
    controller and the timer; sealing and sealed objects; the switcher and the token library
    (assembly); the loader; the software revoker; the clock, formatted output and thread pools; drivers other than the timer and the
    hardware revoker; third-party code; and the hardware, which is SystemVerilog. *)

From Stdlib Require Export ZArith Lia Sorting.Sorted.
From stdpp Require Export gmap.

#[global] Open Scope Z_scope.

(** ** Machine integers

    A w-bit unsigned integer is a [Z] in [0, 2^w); [wrap w] is the conversion C
    applies on every unsigned operation, [signed w] the two's complement reading
    of the same bits. *)

Definition wrap (w z : Z) : Z := z mod 2 ^ w.
Definition u8 (z : Z) : Z := wrap 8 z.
Definition u16 (z : Z) : Z := wrap 16 z.
Definition u32 (z : Z) : Z := wrap 32 z.
Definition u64 (z : Z) : Z := wrap 64 z.

Definition signed (w z : Z) : Z :=
  let u := wrap w z in
  if u <? 2 ^ (w - 1) then u else u - 2 ^ w.
Definition s32 (z : Z) : Z := signed 32 z.
Definition s64 (z : Z) : Z := signed 64 z.

(** Count leading zeros in a w-bit word, and count trailing zeros; the
    hardware result for 0 is the word size. *)
Definition clz (w x : Z) : Z := if x =? 0 then w else w - 1 - Z.log2 x.
Definition ctz (w x : Z) : Z := if x =? 0 then w else Z.log2 (Z.land x (- x)).

(** C's truth value of an integer and the integer of a truth value. *)
Definition truth (z : Z) : bool := negb (z =? 0).
Definition b2z (b : bool) : Z := if b then 1 else 0.

(** ** Outcomes

    Code that can stop does so with one of these errors: a failed debug
    assertion, the allocator's corruption abort, a capability fault (the model
    reads a location that was never constructed), a processor trap, and, for
    loops with no bound of their own, fuel. *)

Inductive error : Type :=
| EAssert
| EAbort
| EFault
| ETrap
| EUndefined
| EFuel.

Inductive outcome (A : Type) : Type :=
| Ok (a : A)
| Err (e : error).
Arguments Ok {A} a.
Arguments Err {A} e.

#[export] Instance outcome_ret : MRet outcome := fun A a => Ok a.
#[export] Instance outcome_bind : MBind outcome :=
  fun A B k m => match m with Ok a => k a | Err e => Err e end.

(** A pointer dereference: the model's stores are finite maps. *)
Definition deref {A} (o : option A) : outcome A :=
  match o with Some a => Ok a | None => Err EFault end.

(** [Debug::Assert]: checked in debug builds only. *)
Definition dassert (debug b : bool) : outcome unit :=
  if debug && negb b then Err EAssert else Ok tt.

(** The error numbers of [include/errno.h]; calls return them negated. *)
Definition EPERM : Z := 2.
Definition ENOENT : Z := 3.
Definition EAGAIN : Z := 12.
Definition ENOMEM : Z := 13.
Definition EINVAL : Z := 22.
Definition ERANGE : Z := 34.
Definition ETIMEDOUT : Z := 110.
Definition EOVERFLOW : Z := 139.

(** ** Lemmas and automation *)

Declare Scope croc_scope.
Notation "x 'in_u' w" := (0 <= x < 2 ^ w) (at level 70) : croc_scope.
#[global] Open Scope croc_scope.

Create HintDb croc.
Create Rewrite HintDb croc.

Lemma pow2_pos w : 0 <= w -> 0 < 2 ^ w.
Proof. intros. apply Z.pow_pos_nonneg; lia. Qed.

Lemma wrap_bound w z : 0 <= w -> wrap w z in_u w.
Proof. intros Hw. apply Z.mod_pos_bound, pow2_pos, Hw. Qed.

Lemma wrap_small w z : z in_u w -> wrap w z = z.
Proof. intros. by apply Z.mod_small. Qed.

Lemma wrap_wrap w z : 0 <= w -> wrap w (wrap w z) = wrap w z.
Proof. intros. by apply wrap_small, wrap_bound. Qed.

Lemma wrap_land w z : 0 <= w -> wrap w z = Z.land z (Z.ones w).
Proof. intros. unfold wrap. by rewrite Z.land_ones. Qed.

Lemma wrap_testbit w z i :
  0 <= w -> 0 <= i -> Z.testbit (wrap w z) i = Z.testbit z i && (i <? w).
Proof.
  intros Hw Hi. unfold wrap. destruct (Z.ltb_spec i w).
  - rewrite Z.mod_pow2_bits_low by lia. by rewrite andb_true_r.
  - rewrite andb_false_r. apply Z.mod_pow2_bits_high; lia.
Qed.

Lemma testbit_high w z i : z in_u w -> w <= i -> Z.testbit z i = false.
Proof.
  intros Hz Hi. destruct (decide (w < 0)).
  { rewrite Z.pow_neg_r in Hz by lia. lia. }
  rewrite <- (wrap_small w z Hz). unfold wrap. apply Z.mod_pow2_bits_high; lia.
Qed.

Lemma pow2_le a b : 0 <= a <= b -> 2 ^ a <= 2 ^ b.
Proof. intros. apply Z.pow_le_mono_r; lia. Qed.

Lemma land_bound w a b : 0 <= w -> b in_u w -> Z.land a b in_u w.
Proof.
  intros Hw Hb. rewrite <- (wrap_small w b Hb), (wrap_land w b Hw), Z.land_assoc,
    <- wrap_land by done.
  by apply wrap_bound.
Qed.

(** Equality of words is equality of bits. *)
Lemma bits_eq a b :
  (forall i, 0 <= i -> Z.testbit a i = Z.testbit b i) -> a = b.
Proof. intros. by apply Z.bits_inj'. Qed.

Lemma wrap_bits_eq w a b :
  0 <= w ->
  (forall i, 0 <= i < w -> Z.testbit a i = Z.testbit b i) -> wrap w a = wrap w b.
Proof.
  intros Hw H. apply bits_eq. intros i Hi. rewrite !wrap_testbit by done.
  destruct (Z.ltb_spec i w); [|by rewrite !andb_false_r]. by rewrite H by lia.
Qed.

Lemma lor_bound w a b : 0 <= w -> a in_u w -> b in_u w -> Z.lor a b in_u w.
Proof.
  intros Hw Ha Hb.
  replace (Z.lor a b) with (wrap w (Z.lor a b)); [by apply wrap_bound|].
  apply bits_eq. intros i Hi. rewrite wrap_testbit by done.
  destruct (Z.ltb_spec i w); [by rewrite andb_true_r|].
  by rewrite andb_false_r, Z.lor_spec, !(testbit_high w) by (done || lia).
Qed.

Lemma s32_small z : - 2 ^ 31 <= z < 2 ^ 31 -> s32 z = z.
Proof.
  intros Hz. unfold s32, signed, wrap. change (32 - 1) with 31. destruct (Z.ltb_spec z 0).
  - rewrite <- (Z.mod_unique z (2 ^ 32) (-1) (z + 2 ^ 32)) by lia.
    rewrite (proj2 (Z.ltb_ge _ _)) by lia. lia.
  - rewrite Z.mod_small by lia. by rewrite (proj2 (Z.ltb_lt _ _)) by lia.
Qed.

Lemma signed_cases w z :
  0 < w -> z in_u w ->
  signed w z = if z <? 2 ^ (w - 1) then z else z - 2 ^ w.
Proof. intros Hw Hz. unfold signed. by rewrite wrap_small. Qed.

Lemma wrap_signed w z : 0 < w -> wrap w (signed w z) = wrap w z.
Proof.
  intros Hw. unfold signed. case_match; [by apply wrap_wrap; lia|].
  unfold wrap. rewrite Zminus_mod, Z_mod_same_full, Z.sub_0_r, !Z.mod_mod; [done|..];
    pose proof (pow2_pos w); lia.
Qed.

#[export] Hint Resolve wrap_bound land_bound lor_bound : croc.
#[export] Hint Rewrite wrap_small using (assumption || lia) : croc.

(** Split a conjunction as it is written, unfolding nothing. *)
Ltac splits := repeat match goal with |- _ /\ _ => split end.

(** Case analysis on the boolean integer comparisons of the model. *)
Ltac zbool :=
  repeat match goal with
  | H : (_ <? _) = true |- _ => apply Z.ltb_lt in H
  | H : (_ <? _) = false |- _ => apply Z.ltb_ge in H
  | H : (_ <=? _) = true |- _ => apply Z.leb_le in H
  | H : (_ <=? _) = false |- _ => apply Z.leb_gt in H
  | H : (_ =? _) = true |- _ => apply Z.eqb_eq in H
  | H : (_ =? _) = false |- _ => apply Z.eqb_neq in H
  | H : negb _ = true |- _ => apply negb_true_iff in H
  | H : negb _ = false |- _ => apply negb_false_iff in H
  | H : _ && _ = true |- _ => apply andb_true_iff in H; destruct H
  | H : _ || _ = false |- _ => apply orb_false_iff in H; destruct H
  end.

Lemma outcome_bind_ok {A B} (m : outcome A) (k : A -> outcome B) b :
  (m ≫= k) = Ok b <-> exists a, m = Ok a /\ k a = Ok b.
Proof. destruct m; cbn; naive_solver. Qed.

Lemma ok_bind {A B} (a : A) (k : A -> outcome B) : (Ok a ≫= k) = k a.
Proof. done. Qed.

Lemma deref_ok {A} (o : option A) a : o = Some a -> deref o = Ok a.
Proof. by intros ->. Qed.

Lemma dassert_true debug b : b = true -> dassert debug b = Ok tt.
Proof. intros ->. unfold dassert. by rewrite andb_false_r. Qed.

Lemma dassert_holds debug (P : Prop) `{Decision P} :
  P -> dassert debug (bool_decide P) = Ok tt.
Proof. intros. by apply dassert_true, bool_decide_eq_true. Qed.

(** Run one step of a monadic definition whose result is the equation [E]. *)
Tactic Notation "run" uconstr(E) := rewrite E, ok_bind; cbn beta.
