(* ===== verification/LinkedList.v ===== *)
(** * [ds::linked_list]: circular doubly linked lists over abstract cells

    [src/cheriot-rtos/sdk/include/ds/linked_list.h].  The header is generic over
    the representation of a cons cell; so is this file: [CellOps] is the C++
    concept [HasCellOperations] (a cell's links are read and written through
    proxies, here partial functions on a store), [CellReset] is [HasReset], and
    [CellLaws] states what the operations rely on.  The operations are in the
    Section [Ops] (one definition per function template, each proxy re-read where
    the code re-reads it), [PtrAddr] is the representation the allocator uses.
    [ring s l] says that the store [s] holds a well-formed ring through the cells
    [l]; the theorems give the effect of every operation on rings. *)

From S2P Require Import Prelude.

(** ** The cell interface *)

Class CellOps (S : Type) := {
  cell_prev : S -> Z -> option Z;
  cell_next : S -> Z -> option Z;
  set_cell_prev : S -> Z -> Z -> option S;
  set_cell_next : S -> Z -> Z -> option S;
}.

Class CellReset (S : Type) := cell_reset : S -> Z -> option S.

(** What an implementation of cells promises: [cell_valid] are the addresses that
    hold a cell; links of valid cells can be written, a write changes only the
    link it names. *)
Class CellLaws (S : Type) `{CellOps S} := {
  cell_valid : S -> Z -> Prop;
  next_valid s p q : cell_next s p = Some q -> cell_valid s p;
  prev_valid s p q : cell_prev s p = Some q -> cell_valid s p;
  set_next_ok s p v : cell_valid s p -> exists s', set_cell_next s p v = Some s';
  set_prev_ok s p v : cell_valid s p -> exists s', set_cell_prev s p v = Some s';
  set_next_valid s p v s' q :
    set_cell_next s p v = Some s' -> cell_valid s' q <-> cell_valid s q;
  set_prev_valid s p v s' q :
    set_cell_prev s p v = Some s' -> cell_valid s' q <-> cell_valid s q;
  next_set_next s p v s' q :
    set_cell_next s p v = Some s' ->
    cell_next s' q = if decide (q = p) then Some v else cell_next s q;
  prev_set_next s p v s' q :
    set_cell_next s p v = Some s' -> cell_prev s' q = cell_prev s q;
  next_set_prev s p v s' q :
    set_cell_prev s p v = Some s' -> cell_next s' q = cell_next s q;
  prev_set_prev s p v s' q :
    set_cell_prev s p v = Some s' ->
    cell_prev s' q = if decide (q = p) then Some v else cell_prev s q;
}.

(** ** The operations *)

Section Ops.
Context {S : Type} `{CellOps S}.

Definition is_singleton (s : S) (e : Z) : option bool :=
  p ← cell_prev s e; Some (bool_decide (e = p)).

Definition is_singleton_check (s : S) (e : Z) : option bool :=
  n ← cell_next s e; p ← cell_prev s e;
  Some (bool_decide (e = n) && bool_decide (e = p)).

Definition is_doubleton (s : S) (e : Z) : option bool :=
  p ← cell_prev s e; n ← cell_next s e; Some (bool_decide (p = n)).

Definition is_well_formed (s : S) (e : Z) : option bool :=
  p ← cell_prev s e; pn ← cell_next s p;
  if bool_decide (e = pn) then
    n ← cell_next s e; np ← cell_prev s n; Some (bool_decide (e = np))
  else Some false.

Definition insert_before (s : S) (curr elem : Z) : option S :=
  en ← cell_next s elem; cp ← cell_prev s curr;
  s1 ← set_cell_next s cp en;
  cp1 ← cell_prev s1 curr; en1 ← cell_next s1 elem;
  s2 ← set_cell_prev s1 en1 cp1;
  s3 ← set_cell_prev s2 curr elem;
  set_cell_next s3 elem curr.

(** [prev] is a proxy for [curr]'s link: reading it reads the store. *)
Definition emplace_before (s : S) (curr elem : Z) : option S :=
  s1 ← set_cell_next s elem curr;
  p1 ← cell_prev s1 curr;
  s2 ← set_cell_prev s1 elem p1;
  p2 ← cell_prev s2 curr;
  s3 ← set_cell_next s2 p2 elem;
  set_cell_prev s3 curr elem.

Definition emplace_after (s : S) (curr elem : Z) : option S :=
  s1 ← set_cell_prev s elem curr;
  n1 ← cell_next s1 curr;
  s2 ← set_cell_next s1 elem n1;
  n2 ← cell_next s2 curr;
  s3 ← set_cell_prev s2 n2 elem;
  set_cell_next s3 curr elem.

Definition unsafe_remove_span (s : S) (el er : Z) : option (Z * S) :=
  n ← cell_next s er; p ← cell_prev s el;
  s1 ← set_cell_prev s n p;
  p1 ← cell_prev s1 el; n1 ← cell_next s1 er;
  s2 ← set_cell_next s1 p1 n1;
  p2 ← cell_prev s2 el;
  Some (p2, s2).

Definition unsafe_remove (s : S) (e : Z) : option (Z * S) :=
  unsafe_remove_span s e e.

Definition unsafe_remove_link (s : S) (prv rem : Z) : option S :=
  n ← cell_next s rem;
  s1 ← set_cell_next s prv n;
  n1 ← cell_next s1 rem;
  set_cell_prev s1 n1 prv.

Definition remove_span (s : S) (el er : Z) : option (Z * S) :=
  '(p, s1) ← unsafe_remove_span s el er;
  s2 ← set_cell_prev s1 el er;
  s3 ← set_cell_next s2 er el;
  Some (p, s3).

Definition remove (s : S) (e : Z) : option (Z * S) := remove_span s e e.

(** [search from to f]: a ring has no bound of its own, hence the fuel; [f] may
    not change the store (the visitors that do are modelled where they are). *)
Fixpoint search_span (fuel : nat) (s : S) (from to : Z) (f : Z -> bool)
  : option bool :=
  match fuel with
  | O => None
  | Datatypes.S fuel =>
      if bool_decide (from = to) then Some false
      else if f from then Some true
      else n ← cell_next s from; search_span fuel s n to f
  end.

Definition search (fuel : nat) (s : S) (elem : Z) (f : Z -> bool) : option bool :=
  n ← cell_next s elem; search_span fuel s n elem f.

(** *** [Sentinel] *)

Definition sentinel_is_empty (s : S) (sen : Z) : option bool := is_singleton s sen.

Definition sentinel_append (s : S) (sen elem : Z) : option S :=
  insert_before s sen elem.

Definition sentinel_append_emplace (s : S) (sen elem : Z) : option S :=
  emplace_before s sen elem.

Definition sentinel_prepend (s : S) (sen elem : Z) : option S :=
  insert_before s elem sen.

Definition sentinel_first (s : S) (sen : Z) : option Z := cell_next s sen.

Definition sentinel_last (s : S) (sen : Z) : option Z := cell_prev s sen.

Definition sentinel_unsafe_take_first (s : S) (sen : Z) : option (Z * S) :=
  f ← cell_next s sen;
  s1 ← unsafe_remove_link s sen f;
  Some (f, s1).

Definition sentinel_reset `{CellReset S} (s : S) (sen : Z) : option S :=
  cell_reset s sen.

Definition sentinel_take_all `{CellReset S} (s : S) (sen : Z) : option (Z * S) :=
  '(p, s1) ← unsafe_remove s sen;
  s2 ← cell_reset s1 sen;
  Some (p, s2).

Definition sentinel_search (fuel : nat) (s : S) (sen : Z) (f : Z -> bool)
  : option bool :=
  search fuel s sen f.
End Ops.

(** ** [cell::PtrAddr]: a pair of addresses in memory *)

Module PtrAddr.
Record cell := mk { prev : Z; next : Z }.

(** The store: the addresses at which a [PtrAddr] has been constructed. *)
Notation store := (gmap Z cell).

#[global] Instance ops : CellOps store := {|
  cell_prev s p := prev <$> s !! p;
  cell_next s p := next <$> s !! p;
  set_cell_prev s p v := c ← s !! p; Some (<[p := mk v (next c)]> s);
  set_cell_next s p v := c ← s !! p; Some (<[p := mk (prev c) v]> s);
|}.

#[global] Instance reset : CellReset store := fun s p =>
  _ ← s !! p; Some (<[p := mk p p]> s).

(** The constructor, placed at [p]: a singleton ring. *)
Definition construct (s : store) (p : Z) : store := <[p := mk p p]> s.

(** The specialised [cell_is_singleton] and [cell_is_doubleton]. *)
Definition cell_is_singleton (s : store) (p : Z) : option bool :=
  c ← s !! p; Some (bool_decide (prev c = p)).

Definition cell_is_doubleton (s : store) (p : Z) : option bool :=
  c ← s !! p; Some (bool_decide (prev c = next c)).
End PtrAddr.

(** ** Rings *)

Section Rings.
Context {S : Type} `{CellLaws S}.

Definition linked (s : S) (x y : Z) : Prop :=
  cell_next s x = Some y /\ cell_prev s y = Some x.

(** Consecutive elements of [l] are linked in both directions. *)
Fixpoint chain (s : S) (l : list Z) : Prop :=
  match l with
  | x :: ((y :: _) as t) => linked s x y /\ chain s t
  | _ => True
  end.

Definition ring (s : S) (l : list Z) : Prop :=
  match l with
  | [] => False
  | x :: _ => NoDup l /\ chain s (l ++ [x])
  end.

(** [keeps s s' P]: the links of the cells in [P] are the same in both stores. *)
Definition keeps (s s' : S) (P : Z -> Prop) : Prop :=
  forall q, P q -> cell_next s' q = cell_next s q /\ cell_prev s' q = cell_prev s q.
End Rings.

(** ** The theory of chains and rings *)

Section RingTheory.
Context {S : Type} `{CellLaws S}.
Implicit Types (s : S) (l : list Z).

Lemma linked_valid s x y : linked s x y -> cell_valid s x /\ cell_valid s y.
Proof. intros [Hn Hp]. eauto using next_valid, prev_valid. Qed.

Lemma chain_cons s x y l : chain s (x :: y :: l) <-> linked s x y /\ chain s (y :: l).
Proof. done. Qed.

Lemma chain_app s l1 x y l2 :
  chain s (l1 ++ x :: y :: l2) <->
  chain s (l1 ++ [x]) /\ linked s x y /\ chain s (y :: l2).
Proof.
  induction l1 as [|z [|w l1] IH]; cbn [app] in *.
  - rewrite chain_cons. cbn. tauto.
  - rewrite !chain_cons. cbn in *. tauto.
  - rewrite !chain_cons, IH. tauto.
Qed.

Lemma chain_app_l s l1 l2 : chain s (l1 ++ l2) -> chain s l1.
Proof.
  revert l2. induction l1 as [|z [|w l1] IH]; intros l2 Hc; [done|done|].
  destruct Hc as [Hl Hc]. split; [done|]. exact (IH _ Hc).
Qed.

Lemma chain_app_r s l1 l2 : chain s (l1 ++ l2) -> chain s l2.
Proof.
  induction l1 as [|z l1 IH]; [done|]. intros Hc. apply IH.
  cbn [app] in Hc. destruct (l1 ++ l2); [done|]. apply Hc.
Qed.

Lemma chain_link s l1 x y l2 : chain s (l1 ++ x :: y :: l2) -> linked s x y.
Proof. rewrite chain_app. tauto. Qed.

(** The links a chain depends on: [next] of all but its last element and
    [prev] of all but its first. *)
Lemma chain_frame s s' l :
  NoDup l -> chain s l ->
  (forall q, q ∈ l -> last l <> Some q -> cell_next s' q = cell_next s q) ->
  (forall q, q ∈ l -> head l <> Some q -> cell_prev s' q = cell_prev s q) ->
  chain s' l.
Proof.
  induction l as [|x [|y l] IH]; [done|done|]. intros Hnd [[Hn Hp] Hc] Fn Fp.
  apply NoDup_cons in Hnd as [Hx Hnd]. split.
  - split.
    + rewrite Fn; [done|set_solver|]. rewrite last_cons_cons.
      intros Hlast%last_Some_elem_of. done.
    + rewrite Fp; [done|set_solver|]. cbn. set_solver.
  - apply IH; [done|done| |].
    + intros q Hq Hl. apply Fn; [set_solver|done].
    + intros q Hq Hh. apply Fp; [set_solver|]. cbn. set_solver.
Qed.

Lemma ring_NoDup s l : ring s l -> NoDup l.
Proof. destruct l; [done|]. by intros [? _]. Qed.

Lemma ring_cons_snoc s x l y :
  ring s (x :: l ++ [y]) <->
  NoDup (x :: l ++ [y]) /\ chain s (x :: l ++ [y]) /\ linked s y x.
Proof.
  cbn -[chain]. rewrite <- app_assoc. cbn [app].
  change (x :: l ++ [y; x]) with ((x :: l) ++ y :: [x]).
  rewrite (chain_app s (x :: l) y x []). cbn. tauto.
Qed.

Lemma ring_singleton s x : ring s [x] <-> linked s x x.
Proof. cbn. split; [tauto|]. intros. split; [apply NoDup_singleton|tauto]. Qed.

Lemma ring_rotate s l1 l2 : ring s (l1 ++ l2) -> ring s (l2 ++ l1).
Proof.
  destruct l1 as [|x l1]; [by rewrite app_nil_r|].
  destruct l2 as [|y l2]; [by rewrite app_nil_r|].
  intros [Hnd Hc]. split.
  { by rewrite (Permutation_app_comm (y :: l2) (x :: l1)). }
  cbn [app] in *. rewrite <- app_assoc in Hc. cbn [app] in Hc.
  rewrite <- (app_assoc l2 (x :: l1) [y]). cbn [app].
  change (x :: l1 ++ y :: l2 ++ [x]) with ((x :: l1) ++ (y :: l2 ++ [x])) in Hc.
  pose proof (chain_app_r _ _ _ Hc) as Hr.
  rewrite cons_middle, app_assoc in Hc. apply chain_app_l in Hc.
  change (y :: l2 ++ x :: l1 ++ [y]) with ((y :: l2) ++ x :: (l1 ++ [y])).
  change (y :: l2 ++ [x]) with ((y :: l2) ++ [x]) in Hr.
  cbn [app] in Hc. destruct (l1 ++ [y]) as [|z t] eqn:E; [by destruct l1|].
  apply chain_app. rewrite chain_cons in Hc. tauto.
Qed.

(** The last element of a ring is linked to the first. *)
Lemma ring_prev s x l : ring s (x :: l) ->
  exists t, last (x :: l) = Some t /\ linked s t x.
Proof.
  intros Hr. destruct l as [|y l _] using rev_ind.
  - exists x. split; [done|]. exact (proj1 (ring_singleton s x) Hr).
  - apply ring_cons_snoc in Hr. exists y. split; [|tauto].
    change (x :: l ++ [y]) with ((x :: l) ++ [y]). apply last_snoc.
Qed.

Lemma ring_next s x l : ring s (x :: l) ->
  exists h, head (l ++ [x]) = Some h /\ linked s x h.
Proof.
  intros [Hnd Hc]. destruct l as [|y l]; cbn in *.
  - exists x. tauto.
  - exists y. tauto.
Qed.

Lemma ring_valid s l x : ring s l -> x ∈ l -> cell_valid s x.
Proof.
  intros Hr Hx. apply list_elem_of_split in Hx as (l1 & l2 & ->).
  apply ring_rotate in Hr. cbn [app] in Hr.
  destruct (ring_next _ _ _ Hr) as (h & _ & Hl). by apply linked_valid in Hl as [? _].
Qed.

Lemma chain_unique s x l l' y :
  chain s (y :: l ++ [x]) -> chain s (y :: l' ++ [x]) -> x ∉ l -> x ∉ l' -> l = l'.
Proof.
  revert y l'. induction l as [|z l IH]; intros y l' Hc Hc' Hx Hx'.
  - destruct l' as [|z' l']; [done|]. destruct Hc as [[Hn _] _], Hc' as [[Hn' _] _].
    exfalso. apply Hx'. assert (z' = x) as -> by congruence. left.
  - destruct l' as [|z' l']; destruct Hc as [[Hn _] Hc], Hc' as [[Hn' _] Hc'].
    { exfalso. apply Hx. assert (z = x) as -> by congruence. left. }
    assert (z' = z) as -> by congruence. f_equal. apply (IH z); [done|done|set_solver..].
Qed.

(** A ring is determined by the store and its first cell. *)
Lemma ring_unique s x l l' : ring s (x :: l) -> ring s (x :: l') -> l = l'.
Proof.
  intros [Hnd Hc] [Hnd' Hc']. apply NoDup_cons in Hnd as [Hx _], Hnd' as [Hx' _].
  by apply (chain_unique s x l l' x).
Qed.

Lemma ring_frame s s' l :
  ring s l -> keeps s s' (fun q => q ∈ l) -> ring s' l.
Proof.
  destruct l as [|x l]; [done|]. intros Hr Hk.
  destruct l as [|y l _] using rev_ind.
  - apply ring_singleton in Hr as [Hn Hp]. apply ring_singleton.
    destruct (Hk x) as [En Ep]; [set_solver|]. split; congruence.
  - apply ring_cons_snoc in Hr as (Hnd & Hc & Hn & Hp).
    apply ring_cons_snoc. split_and!; [done| |].
    + eapply chain_frame; [done|done| |]; intros q Hq _; by apply Hk.
    + destruct (Hk x) as [_ Ep], (Hk y) as [En _]; [set_solver..|]. split; congruence.
Qed.
End RingTheory.

(** *** Symbolic execution of the operations

    [cell_run] executes the next access of an operation: a write of a valid cell
    succeeds, a read goes back through the writes before it. *)

Ltac cell_valid_tac :=
  repeat match goal with
  | E : set_cell_next ?s ?p ?v = Some ?s' |- cell_valid ?s' ?q =>
      rewrite (set_next_valid _ _ _ _ q E)
  | E : set_cell_prev ?s ?p ?v = Some ?s' |- cell_valid ?s' ?q =>
      rewrite (set_prev_valid _ _ _ _ q E)
  end;
  eauto using next_valid, prev_valid.

Ltac cell_reads :=
  repeat match goal with
  | E : set_cell_next ?s ?p ?v = Some ?s' |- context [cell_next ?s' ?q] =>
      rewrite (next_set_next _ _ _ _ q E)
  | E : set_cell_next ?s ?p ?v = Some ?s' |- context [cell_prev ?s' ?q] =>
      rewrite (prev_set_next _ _ _ _ q E)
  | E : set_cell_prev ?s ?p ?v = Some ?s' |- context [cell_next ?s' ?q] =>
      rewrite (next_set_prev _ _ _ _ q E)
  | E : set_cell_prev ?s ?p ?v = Some ?s' |- context [cell_prev ?s' ?q] =>
      rewrite (prev_set_prev _ _ _ _ q E)
  end.

Ltac cell_run :=
  match goal with
  | |- context [set_cell_next ?s ?p ?v] =>
      let s' := fresh "s" in let E := fresh "E" in
      destruct (set_next_ok s p v) as [s' E]; [cell_valid_tac|rewrite E; cbn [mbind option_bind]]
  | |- context [set_cell_prev ?s ?p ?v] =>
      let s' := fresh "s" in let E := fresh "E" in
      destruct (set_prev_ok s p v) as [s' E]; [cell_valid_tac|rewrite E; cbn [mbind option_bind]]
  end.

Ltac decide_done :=
  repeat (case_decide; subst; try congruence; try done); try congruence; try done.

Section RingOps.
Context {S : Type} `{CellLaws S}.
Implicit Types (s : S) (l : list Z).

(** The links an insertion leaves, whatever the order of its writes: [e] closes
    the ring at [c], and the old last cell [cp] of the one ring is joined to
    the first cell [en] of the other. *)
Definition spliced s s' (c cp e en : Z) : Prop := forall q,
  cell_next s' q = (if decide (q = e) then Some c
                    else if decide (q = cp) then Some en else cell_next s q) /\
  cell_prev s' q = (if decide (q = c) then Some e
                    else if decide (q = en) then Some cp else cell_prev s q).

Lemma spliced_ring s s' c cs cp e es en :
  NoDup (c :: cs ++ es ++ [e]) ->
  chain s (c :: cs) -> chain s (es ++ [e]) ->
  last (c :: cs) = Some cp -> head (es ++ [e]) = Some en ->
  spliced s s' c cp e en ->
  ring s' (c :: cs ++ es ++ [e]).
Proof.
  intros Hnd Hc He Hcp Hen Hs. rewrite app_assoc in Hnd |- *.
  rewrite ring_cons_snoc. split_and!; [done| |].
  - rewrite <- app_assoc in Hnd |- *. rewrite app_comm_cons in Hnd |- *.
    apply NoDup_app in Hnd as (NdA & Hdis & NdB).
    destruct (proj1 (last_Some _ _) Hcp) as [A EA].
    destruct (es ++ [e]) as [|en' B] eqn:EB; [by destruct es|].
    cbn in Hen. injection Hen as ->.
    assert (He' : last (en :: B) = Some e) by (rewrite <- EB; apply last_snoc).
    rewrite EA in *. rewrite <- app_assoc. cbn [app]. apply chain_app.
    assert (Hcpin : cp ∈ A ++ [cp]) by set_solver.
    assert (Henin : en ∈ en :: B) by set_solver.
    assert (Hein : e ∈ en :: B) by (by apply last_Some_elem_of).
    assert (Hhd : head (A ++ [cp]) = Some c) by (by rewrite <- EA).
    assert (Hcin : c ∈ A ++ [cp]).
    { destruct A; cbn in *; set_solver. }
    split_and!.
    + eapply chain_frame; [done|done| |]; intros q Hq Hne.
      * rewrite (proj1 (Hs q)). rewrite last_snoc in Hne.
        rewrite !decide_False; [done|congruence|]. intros ->. by apply (Hdis e).
      * rewrite (proj2 (Hs q)). rewrite Hhd in Hne.
        rewrite !decide_False; [done| |congruence]. intros ->. by apply (Hdis en).
    + split.
      * rewrite (proj1 (Hs cp)), decide_False, decide_True; [done..|].
        intros ->. by apply (Hdis e).
      * rewrite (proj2 (Hs en)), decide_False, decide_True; [done..|].
        intros <-. by apply (Hdis en).
    + eapply chain_frame; [done|done| |]; intros q Hq Hne.
      * rewrite (proj1 (Hs q)). rewrite He' in Hne.
        rewrite !decide_False; [done| |congruence]. intros ->. by apply (Hdis cp).
      * rewrite (proj2 (Hs q)). cbn in Hne.
        rewrite !decide_False; [done|congruence|]. intros ->. by apply (Hdis c).
  - split.
    + by rewrite (proj1 (Hs e)), decide_True.
    + by rewrite (proj2 (Hs c)), decide_True.
Qed.

Lemma spliced_keeps s s' c cp e en P :
  spliced s s' c cp e en -> ~ P e -> ~ P cp -> ~ P c -> ~ P en -> keeps s s' P.
Proof.
  intros Hs ???? q Hq. destruct (Hs q) as [-> ->].
  by rewrite !decide_False by (by intros ->).
Qed.

Lemma insert_before_spliced s c cp e en :
  cell_prev s c = Some cp -> cell_next s e = Some en ->
  cell_valid s cp -> cell_valid s en ->
  exists s', insert_before s c e = Some s' /\ spliced s s' c cp e en.
Proof.
  intros Hcp Hen Vcp Ven. unfold insert_before. rewrite Hen, Hcp. cbn.
  cell_run. cell_reads. rewrite Hcp. cbn.
  replace (if decide (e = cp) then Some en else cell_next s e) with (Some en)
    by (by case_decide).
  cbn. cell_run. cell_run. cell_run. eexists; split; [done|].
  intros q. cell_reads. split; decide_done.
Qed.

Lemma emplace_before_spliced s c cp e :
  cell_prev s c = Some cp -> c <> e -> cp <> e -> cell_valid s cp -> cell_valid s e ->
  exists s', emplace_before s c e = Some s' /\ spliced s s' c cp e e.
Proof.
  intros Hcp Hne Hne' Vcp Ve. unfold emplace_before.
  cell_run. cell_reads. rewrite Hcp. cbn. cell_run. cell_reads.
  rewrite decide_False by done. rewrite Hcp. cbn. cell_run. cell_run.
  eexists; split; [done|]. intros q. cell_reads. split; decide_done.
Qed.

(** [insert_before curr elem]: the ring of [elem] is spliced into the ring of
    [curr], before [curr]. *)
Lemma insert_before_ring s c cs e es :
  ring s (c :: cs) -> ring s (e :: es) -> (forall q, q ∈ c :: cs -> q ∉ e :: es) ->
  exists s', insert_before s c e = Some s' /\
    ring s' (c :: cs ++ es ++ [e]) /\
    keeps s s' (fun q => q ∉ (c :: cs) ++ e :: es).
Proof.
  intros Hc He Hdis.
  destruct (ring_prev _ _ _ Hc) as (cp & Hlast & Hlc).
  destruct (ring_next _ _ _ He) as (en & Hhead & Hle).
  destruct (linked_valid _ _ _ Hlc), (linked_valid _ _ _ Hle).
  destruct (insert_before_spliced s c cp e en) as (s' & Hs' & Hsp);
    [apply Hlc|apply Hle|done|done|].
  exists s'. split; [done|].
  assert (en ∈ e :: es) by (destruct es; cbn in *; set_solver).
  pose proof (last_Some_elem_of _ _ Hlast).
  split.
  - eapply spliced_ring; eauto.
    + rewrite app_comm_cons. apply NoDup_app. split_and!.
      * by eapply ring_NoDup.
      * intros q Hq Hq'. apply (Hdis q); set_solver.
      * rewrite Permutation_app_comm. by eapply (ring_NoDup s).
    + eapply chain_app_l. apply (proj2 Hc).
    + eapply (chain_app_r s [e]). apply (proj2 He).
  - eapply spliced_keeps; [done|set_solver..].
Qed.

Lemma emplace_before_ring s c cs e :
  ring s (c :: cs) -> cell_valid s e -> e ∉ c :: cs ->
  exists s', emplace_before s c e = Some s' /\
    ring s' (c :: cs ++ [e]) /\
    keeps s s' (fun q => q ∉ c :: cs ++ [e]).
Proof.
  intros Hc Ve Hdis.
  destruct (ring_prev _ _ _ Hc) as (cp & Hlast & Hlc).
  destruct (linked_valid _ _ _ Hlc).
  pose proof (last_Some_elem_of _ _ Hlast).
  destruct (emplace_before_spliced s c cp e) as (s' & Hs' & Hsp);
    [apply Hlc|set_solver|set_solver|done|done|].
  exists s'. split; [done|]. split.
  - eapply (spliced_ring s s' c cs cp e [] e); eauto.
    + cbn. rewrite app_comm_cons. apply NoDup_app. split_and!.
      * by eapply ring_NoDup.
      * set_solver.
      * apply NoDup_singleton.
    + eapply chain_app_l. apply (proj2 Hc).
    + done.
  - eapply spliced_keeps; [done|set_solver..].
Qed.
End RingOps.

Section RingRemoval.
Context {S : Type} `{CellLaws S}.
Implicit Types (s : S) (l : list Z).

(** Removing the span [l] from the ring [l ++ r] re-links its neighbours. *)
Lemma chain_bridge s s' l a b :
  NoDup l -> chain s l -> head l = Some a -> last l = Some b ->
  (forall q, cell_next s' q = if decide (q = b) then Some a else cell_next s q) ->
  (forall q, cell_prev s' q = if decide (q = a) then Some b else cell_prev s q) ->
  ring s' l.
Proof.
  intros Hnd Hc Ha Hb Hn Hp.
  assert (chain s' l) as Hc'.
  { eapply chain_frame; [done|done| |]; intros q Hq Hne.
    - rewrite Hn, decide_False; [done|congruence].
    - rewrite Hp, decide_False; [done|congruence]. }
  destruct l as [|x l]; [done|]. cbn in Ha. injection Ha as ->.
  assert (linked s' b a) as Hl.
  { split; [by rewrite Hn, decide_True|by rewrite Hp, decide_True]. }
  destruct l as [|y l _] using rev_ind.
  - cbn in Hb. injection Hb as <-. by apply ring_singleton.
  - rewrite app_comm_cons, last_snoc in Hb. injection Hb as ->.
    by rewrite ring_cons_snoc.
Qed.

Lemma ring_split s el l a r :
  ring s (el :: l ++ a :: r) ->
  exists er p, last (el :: l) = Some er /\ last (a :: r) = Some p /\
    linked s er a /\ linked s p el /\
    chain s (el :: l) /\ chain s (a :: r) /\
    NoDup (el :: l) /\ NoDup (a :: r) /\
    (forall q, q ∈ el :: l -> q ∉ a :: r).
Proof.
  intros Hr. pose proof (ring_NoDup _ _ Hr) as Hnd.
  rewrite app_comm_cons in Hnd. apply NoDup_app in Hnd as (Nl & Hdis & Nr).
  destruct (ring_prev _ _ _ Hr) as (p & Hp & Hlp).
  assert (Hc : chain s ((el :: l) ++ a :: r)).
  { destruct Hr as [_ Hc]. rewrite app_comm_cons in Hc. by eapply chain_app_l. }
  rewrite app_comm_cons, last_app_cons in Hp.
  destruct (last (el :: l)) as [er|] eqn:Her; [|by apply last_None in Her].
  exists er, p. splits; try done.
  - apply last_Some in Her as [l' Her]. rewrite Her, <- app_assoc in Hc.
    eapply chain_link, Hc.
  - by eapply chain_app_l.
  - by eapply chain_app_r.
Qed.

Lemma unsafe_remove_span_ring s el l er r :
  ring s (el :: l ++ r) -> r <> [] -> last (el :: l) = Some er ->
  exists p s', unsafe_remove_span s el er = Some (p, s') /\
    last r = Some p /\ ring s' r /\ chain s' (el :: l) /\
    cell_prev s' el = cell_prev s el /\ cell_next s' er = cell_next s er /\
    (forall q, cell_valid s' q <-> cell_valid s q) /\
    keeps s s' (fun q => q ∉ r).
Proof.
  intros Hr Hnil Her. destruct r as [|a r]; [done|].
  destruct (ring_split _ _ _ _ _ Hr) as
    (er' & p & Her' & Hp & Hla & Hlp & Hcl & Hcr & Nl & Nr & Hdis).
  rewrite Her in Her'. injection Her' as <-.
  destruct (linked_valid _ _ _ Hla), (linked_valid _ _ _ Hlp).
  pose proof (last_Some_elem_of _ _ Her). pose proof (last_Some_elem_of _ _ Hp).
  assert (Hane : el <> a) by set_solver.
  assert (Hpne : er <> p) by (intros ->; by apply (Hdis p)).
  unfold unsafe_remove_span. rewrite (proj1 Hla), (proj2 Hlp). cbn [mbind option_bind]. cell_run. cell_reads. rewrite decide_False by done.
  rewrite (proj1 Hla), (proj2 Hlp). cbn [mbind option_bind]. cell_run. cell_reads.
  rewrite decide_False, (proj2 Hlp) by done. cbn [mbind option_bind].
  eexists _, _; split; [done|]. splits; [done| | | | | |].
  - eapply (chain_bridge s); [done|done|done|exact Hp| |]; intros q; by cell_reads.
  - eapply chain_frame; [done|done| |]; intros q Hq _; cell_reads;
      rewrite decide_False; try done; intros ->.
    + by apply (Hdis p).
    + by apply (Hdis a); [|left].
  - cell_reads. rewrite decide_False by done. apply Hlp.
  - cell_reads. rewrite decide_False by done. apply Hla.
  - intros q. by rewrite (set_next_valid _ _ _ _ _ E0), (set_prev_valid _ _ _ _ _ E).
  - intros q Hq. cell_reads. rewrite !decide_False; [done|set_solver..].
Qed.

(** [remove el er]: the ring is cleaved into the span and the rest. *)
Lemma remove_span_ring s el l er r :
  ring s (el :: l ++ r) -> r <> [] -> last (el :: l) = Some er ->
  exists p s', remove_span s el er = Some (p, s') /\
    last r = Some p /\ ring s' r /\ ring s' (el :: l) /\
    keeps s s' (fun q => q ∉ el :: l ++ r).
Proof.
  intros Hr Hnil Her.
  destruct (unsafe_remove_span_ring _ _ _ _ _ Hr Hnil Her) as
    (p & s' & E & Hp & Hr' & Hc' & Ep & En & Hv & Hk).
  assert (Hnd := ring_NoDup _ _ Hr). rewrite app_comm_cons in Hnd.
  apply NoDup_app in Hnd as (Nl & Hdis & Nr).
  pose proof (last_Some_elem_of _ _ Her) as Herin.
  assert (Vl : forall q, q ∈ el :: l -> cell_valid s' q).
  { intros q Hq. apply Hv. eapply ring_valid; [done|].
    rewrite app_comm_cons. set_solver. }
  pose proof (Vl er Herin). assert (cell_valid s' el) by (apply Vl; left).
  unfold remove_span. rewrite E. cbn [mbind option_bind]. cell_run. cell_run.
  eexists _, _; split; [done|]. splits; [done| | |].
  - eapply ring_frame; [done|]. intros q Hq. cell_reads.
    rewrite !decide_False; [done| |].
    + intros ->. by apply (Hdis el); [left|].
    + intros ->. by apply (Hdis er).
  - eapply (chain_bridge s'); [done|done|done|done| |]; intros q; by cell_reads.
  - intros q Hq. destruct (Hk q) as [Eqn Eqp]; [set_solver|]. cell_reads.
    rewrite !decide_False; [done|set_solver..].
Qed.

(** Removing everything leaves the ring as it was. *)
Lemma remove_span_all s el l er :
  ring s (el :: l) -> last (el :: l) = Some er ->
  exists s', remove_span s el er = Some (er, s') /\
    ring s' (el :: l) /\ keeps s s' (fun _ => True).
Proof.
  intros Hr Her. destruct (ring_prev _ _ _ Hr) as (t & Ht & Hl).
  rewrite Her in Ht. injection Ht as <-. destruct (linked_valid _ _ _ Hl).
  destruct Hl as [Hn Hp].
  unfold remove_span, unsafe_remove_span. rewrite Hn, Hp. cbn [mbind option_bind].
  cell_run. cell_reads. rewrite decide_True, Hn by done. cbn [mbind option_bind].
  cell_run. cell_reads. rewrite decide_True by done. cbn [mbind option_bind]. cell_run. cell_run.
  eexists; split; [done|].
  assert (keeps s s3 (fun _ => True)) as Hk.
  { intros q _. cell_reads. split; decide_done. }
  split; [|done]. eapply ring_frame; [done|]. intros q _. by apply Hk.
Qed.

Lemma unsafe_remove_link_ring s p r t :
  ring s (p :: r :: t) ->
  exists s', unsafe_remove_link s p r = Some s' /\ ring s' (p :: t) /\
    keeps s s' (fun q => q ∉ p :: t) /\
    (forall q, cell_valid s' q <-> cell_valid s q).
Proof.
  intros Hr. apply (ring_rotate s [p] (r :: t)) in Hr. cbn [app] in Hr.
  assert (exists a t', t ++ [p] = a :: t') as (a & t' & Ea).
  { destruct t; cbn; eauto. }
  rewrite Ea in Hr. destruct (ring_split s r [] a t' Hr) as
    (er & q & Her & Hq & Hla & Hlp & _ & Hcr & _ & Nr & Hdis).
  cbn in Her. injection Her as <-. rewrite <- Ea, last_snoc in Hq. injection Hq as <-.
  destruct (linked_valid _ _ _ Hla), (linked_valid _ _ _ Hlp).
  assert (p ∈ a :: t') by (rewrite <- Ea; set_solver).
  assert (r <> p) by (intros <-; by apply (Hdis r); [left|]).
  unfold unsafe_remove_link. rewrite (proj1 Hla). cbn [mbind option_bind]. cell_run. cell_reads.
  rewrite decide_False, (proj1 Hla) by done. cbn [mbind option_bind]. cell_run.
  eexists; split; [done|]. splits.
  - change (p :: t) with ([p] ++ t). apply ring_rotate. rewrite Ea.
    eapply (chain_bridge s); [done|done|done|rewrite <- Ea; apply last_snoc| |];
      intros z; by cell_reads.
  - assert (Hpt : forall z, z ∈ p :: t <-> z ∈ a :: t')
      by (intros z; rewrite <- Ea; set_solver).
    intros z Hz. rewrite Hpt in Hz. cell_reads.
    rewrite !decide_False; [done|set_solver..].
  - intros z. by rewrite (set_prev_valid _ _ _ _ _ E0), (set_next_valid _ _ _ _ _ E).
Qed.

(** Reading a ring. *)
Lemma search_span_chain s f z x l fuel :
  chain s (x :: l ++ [z]) -> z ∉ x :: l -> (length (x :: l) < fuel)%nat ->
  search_span fuel s x z f = Some (existsb f (x :: l)).
Proof.
  revert fuel x. induction l as [|y l IH]; intros fuel x Hc Hz Hf.
  - destruct fuel as [|[|fuel]]; [cbn in Hf; lia..|].
    destruct Hc as [[Hn _] _]. cbn [search_span].
    rewrite bool_decide_eq_false_2 by set_solver. cbn. destruct (f x); [done|].
    rewrite Hn. cbn. by rewrite bool_decide_eq_true_2.
  - destruct fuel as [|fuel]; [cbn in Hf; lia|].
    destruct Hc as [[Hn _] Hc]. cbn [search_span].
    rewrite bool_decide_eq_false_2 by set_solver. cbn [existsb].
    destruct (f x); [done|]. rewrite Hn. cbn.
    apply (IH fuel y); [done|set_solver|cbn in *; lia].
Qed.

Lemma search_ring s x l f fuel :
  ring s (x :: l) -> (length l < fuel)%nat ->
  search fuel s x f = Some (existsb f l).
Proof.
  intros Hr Hf. unfold search. destruct Hr as [Hnd Hc].
  destruct l as [|y l]; cbn [app] in Hc; destruct Hc as [[Hn _] Hc]; rewrite Hn; cbn.
  - destruct fuel; [cbn in Hf; lia|]. cbn. by rewrite bool_decide_eq_true_2.
  - apply search_span_chain; [done| |done].
    by apply NoDup_cons in Hnd as [? _].
Qed.

Lemma is_singleton_ring s x l :
  ring s (x :: l) -> is_singleton s x = Some (bool_decide (l = [])).
Proof.
  intros Hr. unfold is_singleton. destruct (ring_prev _ _ _ Hr) as (t & Ht & _ & Hp).
  rewrite Hp. cbn. f_equal. apply bool_decide_ext.
  apply ring_NoDup, NoDup_cons in Hr as [Hx _]. split.
  - intros <-. destruct l; [done|]. rewrite last_cons_cons in Ht.
    by apply last_Some_elem_of in Ht.
  - intros ->. cbn in Ht. congruence.
Qed.

Lemma is_well_formed_ring s l e :
  ring s l -> e ∈ l -> is_well_formed s e = Some true.
Proof.
  intros Hr He. apply list_elem_of_split in He as (l1 & l2 & ->).
  apply ring_rotate in Hr. cbn [app] in Hr.
  destruct (ring_prev _ _ _ Hr) as (t & _ & Hn & Hp).
  destruct (ring_next _ _ _ Hr) as (h & _ & Hn' & Hp').
  unfold is_well_formed. rewrite Hp. cbn. rewrite Hn. cbn.
  rewrite bool_decide_eq_true_2 by done. rewrite Hn'. cbn. rewrite Hp'. cbn.
  by rewrite bool_decide_eq_true_2.
Qed.
End RingRemoval.

(** ** The [PtrAddr] cells keep the promise *)

Module PtrAddrLaws.
Import PtrAddr.

#[global] Instance laws : CellLaws store.
Proof.
  refine {| cell_valid := fun (s : store) p => is_Some (s !! p) |}; cbn.
  - intros s p q. destruct (s !! p); naive_solver.
  - intros s p q. destruct (s !! p); naive_solver.
  - intros s p v [c ->]. cbn. eauto.
  - intros s p v [c ->]. cbn. eauto.
  - intros s p v s' q. destruct (s !! p) eqn:E; cbn; intros; simplify_eq.
    rewrite lookup_insert. case_decide; subst; [rewrite E|]; naive_solver.
  - intros s p v s' q. destruct (s !! p) eqn:E; cbn; intros; simplify_eq.
    rewrite lookup_insert. case_decide; subst; [rewrite E|]; naive_solver.
  - intros s p v s' q. destruct (s !! p) eqn:E; cbn; intros; simplify_eq.
    rewrite lookup_insert. repeat case_decide; subst; try done; congruence.
  - intros s p v s' q. destruct (s !! p) eqn:E; cbn; intros; simplify_eq.
    rewrite lookup_insert. case_decide; subst; [by rewrite E|done].
  - intros s p v s' q. destruct (s !! p) eqn:E; cbn; intros; simplify_eq.
    rewrite lookup_insert. case_decide; subst; [by rewrite E|done].
  - intros s p v s' q. destruct (s !! p) eqn:E; cbn; intros; simplify_eq.
    rewrite lookup_insert. repeat case_decide; subst; try done; congruence.
Defined.

Lemma construct_ring (s : store) p : ring (construct s p) [p].
Proof.
  apply ring_singleton. unfold construct. split; cbn; by rewrite lookup_insert_eq.
Qed.

Lemma construct_keeps (s : store) p : keeps s (construct s p) (fun q => q <> p).
Proof.
  intros q Hq. unfold construct. cbn. by rewrite lookup_insert_ne by congruence.
Qed.

Lemma reset_ring (s : store) p :
  is_Some (s !! p) ->
  exists s', cell_reset s p = Some s' /\ ring s' [p] /\ keeps s s' (fun q => q <> p).
Proof.
  intros [c Hc]. unfold cell_reset, reset. rewrite Hc. cbn.
  eexists; split; [done|]. split; [apply construct_ring|apply construct_keeps].
Qed.

(** A ring [sen :: l] whose sentinel is detached: the elements, in order, form a
    ring of their own and the sentinel is an empty list. *)
Lemma take_all_ring_aux (s : store) sen l :
  ring s (sen :: l) -> l <> [] ->
  exists p s', sentinel_take_all s sen = Some (p, s') /\ last l = Some p /\
    ring s' [sen] /\ ring s' l /\ keeps s s' (fun q => q ∉ sen :: l).
Proof.
  intros Hr Hl.
  destruct (unsafe_remove_span_ring s sen [] sen l) as
    (p & s1 & E & Hp & Hr1 & _ & _ & _ & Hv & Hk); [done|done|done|].
  assert (Hsen : is_Some (s1 !! sen)) by (apply Hv; eapply ring_valid; [done|left]).
  destruct (reset_ring s1 sen Hsen) as (s2 & E2 & Hr2 & Hk2).
  apply ring_NoDup, NoDup_cons in Hr as [Hnin _].
  exists p, s2. splits; [|done|done| |].
  - unfold sentinel_take_all, unsafe_remove. rewrite E. cbn. by rewrite E2.
  - eapply ring_frame; [done|]. intros q Hq. apply Hk2. by intros ->.
  - intros q Hq. destruct (Hk q) as [En Ep]; [set_solver|].
    destruct (Hk2 q) as [En2 Ep2]; [set_solver|]. split; congruence.
Qed.
End PtrAddrLaws.

(** ** What the lists promise *)

Section Promises.
Context {S : Type} `{CellLaws S}.
Implicit Types (s : S).

(** [Sentinel::append] splices a whole ring: if the list of the sentinel
    [sen] is [l] and [e] is in a ring of its own whose other cells are [es], then
    the list becomes [l ++ es ++ [e]], and no other cell's links change. *)
Theorem append_splices s sen l e es :
  ring s (sen :: l) -> ring s (e :: es) -> (forall q, q ∈ sen :: l -> q ∉ e :: es) ->
  exists s', sentinel_append s sen e = Some s' /\
    ring s' (sen :: l ++ es ++ [e]) /\
    keeps s s' (fun q => q ∉ (sen :: l) ++ e :: es).
Proof. apply insert_before_ring. Qed.

(** [remove el er] cleaves the ring [el .. er ++ r] into the two well-formed
    rings [el .. er] and [r], returns [el]'s predecessor (the last cell of [r]) as
    the handle of the rest, and changes no cell outside the ring. *)
Theorem remove_cleaves s el l er r :
  ring s (el :: l ++ r) -> r <> [] -> last (el :: l) = Some er ->
  exists p s', remove_span s el er = Some (p, s') /\
    last r = Some p /\ ring s' r /\ ring s' (el :: l) /\
    keeps s s' (fun q => q ∉ el :: l ++ r).
Proof. apply remove_span_ring. Qed.

(** [Sentinel::unsafe_take_first] returns the first element of a non-empty
    list and leaves the list of the others in order; cells outside the rest of the
    ring keep their links. *)
Theorem take_first_pops s sen f l :
  ring s (sen :: f :: l) ->
  exists s', sentinel_unsafe_take_first s sen = Some (f, s') /\
    ring s' (sen :: l) /\ keeps s s' (fun q => q ∉ sen :: l).
Proof.
  intros Hr. destruct (unsafe_remove_link_ring _ _ _ _ Hr) as (s' & E & Hr' & Hk & _).
  exists s'. split; [|done]. unfold sentinel_unsafe_take_first.
  destruct (ring_next _ _ _ Hr) as (h & Hh & Hn & _). cbn in Hh. injection Hh as <-.
  rewrite Hn. cbn. by rewrite E.
Qed.

(** [search] from a sentinel terminates (fuel beyond the length of the list
    is enough) and answers whether some element satisfies the predicate; and the
    ring predicates agree: every cell of a ring is well formed and [is_empty] is
    true exactly of the empty list. *)
Theorem search_visits_all s sen l f fuel :
  ring s (sen :: l) -> (length l < fuel)%nat ->
  sentinel_search fuel s sen f = Some (existsb f l) /\
  sentinel_is_empty s sen = Some (bool_decide (l = [])) /\
  (forall e, e ∈ sen :: l -> is_well_formed s e = Some true).
Proof.
  intros Hr Hf. splits.
  - by apply search_ring.
  - by apply is_singleton_ring.
  - intros e He. by eapply is_well_formed_ring.
Qed.
End Promises.

(** Emptying one list onto the end of another. *)
Lemma take_all_append_ring (s : PtrAddr.store) sen l sen' l' :
  ring s (sen :: l) -> l <> [] -> ring s (sen' :: l') ->
  (forall q, q ∈ sen :: l -> q ∉ sen' :: l') ->
  exists p s1 s2, sentinel_take_all s sen = Some (p, s1) /\
    sentinel_append s1 sen' p = Some s2 /\
    ring s2 [sen] /\ ring s2 (sen' :: l' ++ l) /\
    keeps s s2 (fun q => q ∉ (sen :: l) ++ sen' :: l').
Proof.
  intros Hr Hl Hr' Hdis.
  destruct (PtrAddrLaws.take_all_ring_aux s sen l Hr Hl) as (p & s1 & E & Hp & Hs & Hrl & Hk).
  apply last_Some in Hp as [l0 ->].
  assert (Hr1 : ring s1 (sen' :: l')).
  { eapply ring_frame; [done|]. intros q Hq. apply Hk. intros Hq'. by apply (Hdis q). }
  apply ring_rotate in Hrl. cbn [app] in Hrl.
  assert (Hnd : NoDup (sen :: l0 ++ [p])) by (by eapply ring_NoDup).
  apply NoDup_cons in Hnd as [Hnin _].
  destruct (insert_before_ring s1 sen' l' p l0 Hr1 Hrl) as (s2 & E2 & Hr2 & Hk2).
  { intros q Hq Hq'. apply (Hdis q); set_solver. }
  exists p, s1, s2. splits; [done|done| |done|].
  { eapply ring_frame; [exact Hs|]. intros q Hq. apply list_elem_of_singleton in Hq as ->.
  apply Hk2. intros Hin. apply (Hdis sen); set_solver. }
  intros q Hq. destruct (Hk q) as [K1 K2]; [set_solver|]. destruct (Hk2 q) as [K3 K4]; [set_solver|].
  split; congruence.
Qed.

(** [Sentinel::take_all] on a non-empty list leaves the sentinel empty and the
    elements as a ring in their order, and returns its last element, which is what
    [append] takes to put the elements, in order, at the end of another list. *)
Theorem take_all_then_append (s : PtrAddr.store) sen l sen' l' :
  ring s (sen :: l) -> l <> [] -> ring s (sen' :: l') ->
  (forall q, q ∈ sen :: l -> q ∉ sen' :: l') ->
  exists p s1 s2, sentinel_take_all s sen = Some (p, s1) /\
    sentinel_append s1 sen' p = Some s2 /\
    ring s2 [sen] /\ ring s2 (sen' :: l' ++ l).
Proof.
  intros Hr Hl Hr' Hdis.
  destruct (take_all_append_ring s sen l sen' l') as (p & s1 & s2 & ? & ? & ? & ? & _); [done..|].
  by exists p, s1, s2.
Qed.

(** [emplace_before c e] is [e->cell_reset(); insert_before(c, e)], exactly,
    for a constructed cell [e] that is not already next to [c]. *)
Theorem emplace_before_is_reset_insert (s : PtrAddr.store) c e cp :
  cell_prev s c = Some cp -> is_Some (s !! cp) -> is_Some (s !! e) ->
  c <> e -> cp <> e ->
  emplace_before s c e = (s1 ← cell_reset s e; insert_before s1 c e).
Proof.
  intros Hcp [ccp Ecp] [ce Ee] Hce Hcpe.
  assert (exists cc, s !! c = Some cc /\ PtrAddr.prev cc = cp) as (cc & Ec & Ep).
  { cbn in Hcp. destruct (s !! c) eqn:E; [|done]. cbn in Hcp. injection Hcp. eauto. }
  unfold emplace_before, insert_before, cell_reset, PtrAddr.reset. cbn.
  destruct (decide (c = cp)) as [->|Hcc]; simplify_eq;
    repeat (simplify_map_eq; cbn).
  - f_equal. apply map_eq. intros q.
    destruct (decide (q = e)) as [->|]; [by simplify_map_eq|].
    destruct (decide (q = PtrAddr.prev cc)) as [->|]; by simplify_map_eq.
  - f_equal. apply map_eq. intros q.
    destruct (decide (q = e)) as [->|]; [by simplify_map_eq|].
    destruct (decide (q = PtrAddr.prev cc)) as [->|]; [by simplify_map_eq|].
    destruct (decide (q = c)) as [->|]; by simplify_map_eq.
Qed.

(** ** Witnesses: the theorems at a concrete store

    Two rings: the list [2; 3] of the sentinel 1, and the ring of 4, 5. *)

Definition demo : PtrAddr.store :=
  list_to_map [(1, PtrAddr.mk 3 2); (2, PtrAddr.mk 1 3); (3, PtrAddr.mk 2 1);
               (4, PtrAddr.mk 5 5); (5, PtrAddr.mk 4 4)].

Ltac ring_concrete :=
  split; [apply (bool_decide_unpack _); vm_compute; exact I|
          repeat split; vm_compute; reflexivity].

Ltac disjoint_concrete :=
  let q := fresh in let Hq := fresh in
  intros q Hq; repeat (apply elem_of_cons in Hq as [->|Hq]);
  [apply (bool_decide_unpack _); vm_compute; exact I..|by apply not_elem_of_nil in Hq].

Lemma append_splices_witness :
  exists s', sentinel_append demo 1 4 = Some s' /\
    ring s' (1 :: [2; 3] ++ [5] ++ [4]) /\
    keeps demo s' (fun q => q ∉ [1; 2; 3] ++ [4; 5]).
Proof.
  apply (append_splices demo 1 [2; 3] 4 [5]); [ring_concrete|ring_concrete|].
  disjoint_concrete.
Defined.

Lemma remove_cleaves_witness :
  exists p s', remove_span demo 2 3 = Some (p, s') /\
    last [1] = Some p /\ ring s' [1] /\ ring s' [2; 3] /\
    keeps demo s' (fun q => q ∉ [2; 3; 1]).
Proof.
  apply (remove_cleaves demo 2 [3] 3 [1]); [ring_concrete|discriminate|reflexivity].
Defined.

Lemma take_first_pops_witness :
  exists s', sentinel_unsafe_take_first demo 1 = Some (2, s') /\
    ring s' [1; 3] /\ keeps demo s' (fun q => q ∉ [1; 3]).
Proof. apply (take_first_pops demo 1 2 [3]); ring_concrete. Defined.

Lemma search_visits_all_witness :
  sentinel_search 5 demo 1 (Z.eqb 3) = Some true /\
  sentinel_is_empty demo 1 = Some false /\
  (forall e, e ∈ [1; 2; 3] -> is_well_formed demo e = Some true).
Proof.
  apply (search_visits_all demo 1 [2; 3] (Z.eqb 3) 5); [ring_concrete|cbn; lia].
Defined.

Lemma take_all_then_append_witness :
  exists p s1 s2, sentinel_take_all demo 1 = Some (p, s1) /\
    sentinel_append s1 4 p = Some s2 /\ ring s2 [1] /\ ring s2 (4 :: [5] ++ [2; 3]).
Proof.
  apply (take_all_then_append demo 1 [2; 3] 4 [5]);
    [ring_concrete|discriminate|ring_concrete|disjoint_concrete].
Defined.

Lemma emplace_before_is_reset_insert_witness :
  emplace_before demo 1 4 = (s1 ← cell_reset demo 4; insert_before s1 1 4).
Proof.
  apply (emplace_before_is_reset_insert demo 1 4 3);
    [reflexivity|eexists; reflexivity|eexists; reflexivity|lia|lia].
Defined.
