(* ===== verification/RingBuffer.v ===== *)
(** * [ds::ring_buffer::Cursors]: a ring buffer state machine

    [src/cheriot-rtos/sdk/include/ds/ring_buffer.h].  The state is two cursors of
    [w] bits and an empty flag; the elements are stored by the user.  [live c l]
    says which slots are in use, from the head to the tail: the operations refine
    a bounded FIFO queue of slots. *)

From S2P Require Import Prelude.

Record Cursors : Type := mkCursors { head : Z; tail : Z; empty : bool }.

Section RingBuffer.
Context (w Capacity : Z) (debug : bool).

Definition advance (v : Z) : Z :=
  if Z.land Capacity (Capacity - 1) =? 0 then Z.land (v - 1) (Capacity - 1)
  else
    let next := wrap w (v - 1) in
    let mask := wrap w (Z.shiftr (signed w next) (w - 1)) in
    Z.lor (Z.land mask (Capacity - 1)) (Z.land (wrap w (Z.lnot mask)) next).

Definition reset : Cursors := mkCursors (advance 0) 0 true.

Definition is_empty (c : Cursors) : bool := empty c.

Definition head_get (c : Cursors) : option Z := if is_empty c then None else Some (head c).

Definition head_get_unsafe (c : Cursors) : Z := head c.

Definition head_advance (c : Cursors) : outcome Cursors :=
  _ ← dassert debug (negb (empty c));
  Ok (mkCursors (advance (head c)) (tail c) (if head c =? tail c then true else empty c)).

Definition tail_get (c : Cursors) : option Z := if is_empty c then None else Some (tail c).

Definition tail_next (c : Cursors) : option Z :=
  let nt := advance (tail c) in
  if negb (empty c) && (head c =? nt) then None else Some nt.

Definition tail_advance (c : Cursors) : outcome Cursors :=
  _ ← dassert debug (empty c || negb (head c =? advance (tail c)));
  Ok (mkCursors (head c) (advance (tail c)) false).

(** ** The slots in use *)

(** The slot [k] steps behind [h]. *)
Definition slot (h : Z) (k : nat) : Z := (h - Z.of_nat k) mod Capacity.

Definition live (c : Cursors) (l : list Z) : Prop :=
  0 <= head c < Capacity /\ 0 <= tail c < Capacity /\
  l = slot (head c) <$> seq 0 (length l) /\ Z.of_nat (length l) <= Capacity /\
  if empty c then l = [] /\ head c = (tail c - 1) mod Capacity
  else exists n, length l = S n /\ tail c = slot (head c) n.

(** The capacities the cursor type can serve. *)
Definition fits : Prop :=
  0 < w /\ 0 < Capacity /\
  (Z.land Capacity (Capacity - 1) = 0 /\ Capacity <= 2 ^ w \/ Capacity <= 2 ^ (w - 1)).

Context (Hfits : fits).

Lemma pow2_ones c : 0 < c -> Z.land c (c - 1) = 0 -> c - 1 = Z.ones (Z.log2 c).
Proof.
  intros Hc Hl. pose proof (Z.log2_spec c Hc) as [H1 H2]. rewrite Z.pow_succ_r in H2
    by apply Z.log2_nonneg.
  set (k := Z.log2 c) in *. assert (0 <= k) by apply Z.log2_nonneg.
  rewrite Z.ones_equiv. destruct (Z.eq_dec c (2 ^ k)) as [E|Hne]; [lia|].
  exfalso. assert (Z.testbit (Z.land c (c - 1)) k = true) as Ht.
  { rewrite Z.land_spec. apply andb_true_iff.
    assert (forall v, 2 ^ k <= v < 2 * 2 ^ k -> Z.testbit v k = true) as Hb.
    { intros v Hv. rewrite Z.testbit_true by lia.
      replace (v / 2 ^ k) with 1; [done|].
      apply Z.div_unique with (r := v - 2 ^ k); lia. }
    split; apply Hb; lia. }
  by rewrite Hl, Z.bits_0 in Ht.
Qed.

(** Advancing steps backwards around the buffer. *)
Lemma advance_spec v : 0 <= v < Capacity -> advance v = (v - 1) mod Capacity.
Proof.
  intros Hv. destruct Hfits as (Hw & Hc & Hcap). unfold advance.
  destruct (Z.eqb_spec (Z.land Capacity (Capacity - 1)) 0) as [E|E].
  - rewrite (pow2_ones Capacity Hc E), Z.land_ones by apply Z.log2_nonneg.
    f_equal. pose proof (pow2_ones Capacity Hc E) as Ho. rewrite Z.ones_equiv in Ho. lia.
  - destruct Hcap as [[? _]|Hcap]; [done|].
    assert (2 ^ w = 2 * 2 ^ (w - 1)) as Ew.
    { rewrite <- Z.pow_succ_r by lia. f_equal. lia. }
    assert (0 < 2 ^ (w - 1)) by (apply pow2_pos; lia).
    destruct (decide (v = 0)) as [->|Hne].
    + replace (wrap w (0 - 1)) with (2 ^ w - 1).
      2: { unfold wrap. apply Z.mod_unique with (q := -1); lia. }
      rewrite signed_cases by lia. rewrite (proj2 (Z.ltb_ge _ _)) by lia.
      replace (2 ^ w - 1 - 2 ^ w) with (-1) by lia.
      rewrite Z.shiftr_div_pow2 by lia.
      replace (-1 / 2 ^ (w - 1)) with (-1).
      2: { apply Z.div_unique with (r := 2 ^ (w - 1) - 1); lia. }
      replace (wrap w (-1)) with (Z.ones w).
      2: { rewrite wrap_land by lia. by rewrite Z.land_m1_l. }
      rewrite (Z.land_comm (Z.ones w)), Z.land_ones, Z.mod_small by lia.
      replace (wrap w (Z.lnot (Z.ones w))) with 0.
      2: { apply bits_eq. intros i Hi. rewrite Z.bits_0, wrap_testbit, Z.lnot_spec by lia.
           destruct (Z.ltb_spec i w); [|by rewrite andb_false_r].
           by rewrite Z.ones_spec_low by lia. }
      rewrite Z.land_0_l, Z.lor_0_r.
      apply Z.mod_unique with (q := -1); lia.
    + rewrite (wrap_small w (v - 1)) by lia. rewrite signed_cases by lia.
      rewrite (proj2 (Z.ltb_lt _ _)) by lia.
      rewrite Z.shiftr_div_pow2, Z.div_small by lia.
      replace (wrap w 0) with 0 by (unfold wrap; by rewrite Zmod_0_l).
      rewrite Z.land_0_l, Z.lor_0_l. change (Z.lnot 0) with (-1).
      rewrite wrap_land, Z.land_m1_l, Z.land_comm, Z.land_ones, !Z.mod_small by lia. done.
Qed.

Lemma slot_0 h : 0 <= h < Capacity -> slot h 0 = h.
Proof. intros. unfold slot. rewrite Z.sub_0_r. by apply Z.mod_small. Qed.

Lemma slot_S h k : slot ((h - 1) mod Capacity) k = slot h (S k).
Proof.
  unfold slot. rewrite Zminus_mod_idemp_l. f_equal. lia.
Qed.

Lemma slot_pred h k : (slot h k - 1) mod Capacity = slot h (S k).
Proof. unfold slot. rewrite Zminus_mod_idemp_l. f_equal. lia. Qed.

Lemma slot_inj h i j :
  Z.of_nat i < Capacity -> Z.of_nat j < Capacity -> slot h i = slot h j -> i = j.
Proof.
  intros Hi Hj E. unfold slot in E.
  pose proof (Z.div_mod (h - Z.of_nat i) Capacity ltac:(lia)).
  pose proof (Z.div_mod (h - Z.of_nat j) Capacity ltac:(lia)).
  assert (Z.of_nat j - Z.of_nat i =
    Capacity * ((h - Z.of_nat i) / Capacity - (h - Z.of_nat j) / Capacity)) by lia.
  assert ((h - Z.of_nat i) / Capacity - (h - Z.of_nat j) / Capacity = 0) by nia. lia.
Qed.

Lemma slot_range h k : 0 <= slot h k < Capacity.
Proof. apply Z.mod_pos_bound. apply Hfits. Qed.

Lemma live_reset : live reset [].
Proof.
  destruct Hfits as (Hw & Hc & _). unfold live, reset. cbn [head tail empty length].
  rewrite advance_spec by lia. splits; try done; try lia; apply Z.mod_pos_bound; lia.
Qed.

Lemma live_head c l : live c l -> head_get c = list.head l /\ is_empty c = bool_decide (l = []).
Proof.
  intros (Hh & Ht & El & Hl & Hc). unfold head_get, is_empty. destruct (empty c).
  - destruct Hc as [-> _]. done.
  - destruct Hc as (n & En & _). rewrite En in El. cbn in El. rewrite slot_0 in El by lia.
    rewrite El. done.
Qed.

Lemma live_tail c l : live c l -> tail_get c = last l.
Proof.
  intros (Hh & Ht & El & Hl & Hc). unfold tail_get, is_empty. destruct (empty c).
  - destruct Hc as [-> _]. done.
  - destruct Hc as (n & En & ->). rewrite El, En, seq_S, fmap_app. cbn [fmap list_fmap]. by rewrite last_snoc.
Qed.

(** The next slot: behind the tail, and not in use, if there is one. *)
Lemma live_next c l : live c l ->
  (Z.of_nat (length l) < Capacity -> tail_next c = Some (slot (head c) (length l)) /\
     slot (head c) (length l) ∉ l) /\
  (Z.of_nat (length l) = Capacity -> tail_next c = None).
Proof.
  intros (Hh & Ht & El & Hl & Hc). unfold tail_next. rewrite advance_spec by lia.
  assert (Hnin : Z.of_nat (length l) < Capacity -> slot (head c) (length l) ∉ l).
  { intros Hlt Hin. rewrite El in Hin at 2. apply list_elem_of_fmap in Hin as (k & Ek & Hk).
    apply elem_of_seq in Hk. apply slot_inj in Ek; lia. }
  destruct (empty c); cbn [negb andb].
  - destruct Hc as [-> Eh]. split; [|cbn; lia]. intros Hlt. split; [|by apply Hnin].
    rewrite slot_0 by done. by rewrite Eh.
  - destruct Hc as (n & En & ->). rewrite slot_pred, <- En. split.
    + intros Hlt. split; [|by apply Hnin].
      destruct (Z.eqb_spec (head c) (slot (head c) (length l))) as [E|E]; [|done].
      exfalso. rewrite <- (slot_0 (head c)) in E at 1 by done. apply slot_inj in E; lia.
    + intros Heq. rewrite Heq in *. rewrite (proj2 (Z.eqb_eq _ _)); [done|].
      unfold slot. rewrite Heq. replace (head c - Capacity) with (head c + (-1) * Capacity) by lia.
      rewrite Z.mod_add by lia. by rewrite Z.mod_small.
Qed.

Lemma live_push c l : live c l -> Z.of_nat (length l) < Capacity ->
  exists c', tail_advance c = Ok c' /\ live c' (l ++ [slot (head c) (length l)]).
Proof.
  intros Hlive Hlt. destruct (live_next c l Hlive) as [Hn _]. destruct (Hn Hlt) as [Hnext _].
  destruct Hlive as (Hh & Ht & El & Hl & Hc). unfold tail_next in Hnext.
  unfold tail_advance. run (dassert_true debug).
  2: { destruct (empty c); [done|]. cbn in Hnext |- *. by destruct (head c =? advance (tail c)). }
  eexists; split; [done|].
  assert (advance (tail c) = slot (head c) (length l)) as Ea.
  { destruct (_ && _) in Hnext; by simplify_eq. }
  unfold live. cbn [head tail empty]. rewrite length_app, Ea. cbn [length].
  splits; try lia; try apply slot_range.
  - rewrite Nat.add_1_r, seq_S, fmap_app. cbn. by rewrite <- El.
  - exists (length l). split; [lia|done].
Qed.

Lemma live_pop c x l : live c (x :: l) ->
  exists c', head_advance c = Ok c' /\ live c' l.
Proof.
  intros (Hh & Ht & El & Hl & Hc). destruct (empty c) eqn:Ee; [by destruct Hc|].
  destruct Hc as (n & En & Etl). cbn [length] in *. injection En as En.
  unfold head_advance. run (dassert_true debug); [|by rewrite Ee].
  eexists; split; [done|]. unfold live. cbn [head tail empty].
  rewrite advance_spec by done.
  assert (El' : l = slot ((head c - 1) mod Capacity) <$> seq 0 (length l)).
  { cbn in El. injection El as _ El. rewrite El at 1. rewrite <- fmap_S_seq.
    rewrite <- list_fmap_compose. apply list_fmap_ext. intros k i _. cbn.
    by rewrite slot_S. }
  splits; try done; try lia; try (apply Z.mod_pos_bound; lia).
  destruct (Z.eqb_spec (head c) (tail c)) as [E|E].
  - destruct l as [|y l]; [by rewrite E|]. exfalso.
    rewrite <- (slot_0 (head c)) in E at 1 by done. rewrite Etl in E.
    cbn [length] in En, Hl. apply slot_inj in E; lia.
  - rewrite Ee. destruct n as [|n].
    + exfalso. apply E. by rewrite Etl, slot_0.
    + exists n. split; [done|]. by rewrite slot_S.
Qed.
End RingBuffer.

(** ** What the buffer promises *)

(** The cursors refine a bounded FIFO queue of slots: reset gives the empty
    queue; while there is room the next slot is one that is not in use and
    [tail_advance] appends it; when the buffer is full there is none; the head and the
    tail are the first and the last slot in use and [head_advance] drops the first.
    No assertion fails. *)
Theorem ring_buffer_is_fifo w Capacity debug :
  fits w Capacity ->
  live Capacity (reset w Capacity) [] /\
  forall c l, live Capacity c l ->
    head_get c = list.head l /\ tail_get c = last l /\ is_empty c = bool_decide (l = []) /\
    (Z.of_nat (length l) < Capacity -> exists v c', tail_next w Capacity c = Some v /\
       v ∉ l /\ 0 <= v < Capacity /\ tail_advance w Capacity debug c = Ok c' /\
       live Capacity c' (l ++ [v])) /\
    (Z.of_nat (length l) = Capacity -> tail_next w Capacity c = None) /\
    (forall x r, l = x :: r -> exists c', head_advance w Capacity debug c = Ok c' /\
       live Capacity c' r).
Proof.
  intros Hf. split; [by apply live_reset|]. intros c l Hl.
  destruct (live_head Capacity c l Hl) as [Hh He].
  destruct (live_next w Capacity Hf c l Hl) as [Hn Hfull].
  splits; [done|by eapply live_tail|done| |done|].
  - intros Hlt. destruct (Hn Hlt) as [En Hnin].
    destruct (live_push w Capacity debug Hf c l Hl Hlt) as (c' & E & Hl').
    eexists _, c'. split; [exact En|]. split; [done|]. split; [|done].
    by eapply slot_range.
  - intros x r ->. by apply (live_pop w Capacity debug Hf c x r).
Qed.

Lemma ring_buffer_is_fifo_witness :
  live 2 (reset 8 2) [] /\
  exists v c', tail_next 8 2 (reset 8 2) = Some v /\ live 2 c' [v].
Proof.
  destruct (ring_buffer_is_fifo 8 2 true) as [Hr Hl].
  - unfold fits. splits; [lia|lia|left; split; [reflexivity|lia]].
  - split; [exact Hr|]. destruct (Hl _ _ Hr) as (_ & _ & _ & Hn & _).
    destruct Hn as (v & c' & E & _ & _ & _ & Hl'); [cbn; lia|].
    exists v, c'. split; [exact E|exact Hl'].
Defined.

(** The arithmetic of [advance] for a capacity that is not a power of two takes
    the sign of the cursor for an underflow: with 8-bit cursors and 200 elements, it
    steps from 150 to 199, not to 149.  Such a capacity is not rejected. *)
Theorem advance_large_capacity_jumps :
  advance 8 200 150 = 199 /\ (150 - 1) mod 200 = 149 /\ ~ fits 8 200.
Proof. splits; [done|done|]. unfold fits. intros (_ & _ & [[? _]|?]); [done|lia]. Qed.
