(* ===== verification/Bits.v ===== *)
(** * [ds::bits] and [ds::xoroshiro]: bit masks and the random number generator

    [src/cheriot-rtos/sdk/include/ds/bits.h] and [include/ds/xoroshiro.h], for words
    of any width [w]. *)

From S2P Require Import Prelude.

(** ** [ds::bits] *)

Section Bits.
Context (w : Z).

Definition isolate_least (v : Z) : Z := Z.land v (wrap w (- v)).
Definition above_or_least (v : Z) : Z := Z.lor v (wrap w (- v)).
Definition above_least (v : Z) : Z := above_or_least (wrap w (Z.shiftl v 1)).
End Bits.

(** ** [ds::xoroshiro] *)

Record XorOshiro : Type := mkState { x : Z; y : Z }.

Section Xoroshiro.
Context (StateBits ResultBits A B C : Z).
Let sw := wrap StateBits.

Definition rotl (v k : Z) : Z := sw (Z.lor (Z.shiftl v k) (Z.shiftr v (StateBits - k))).

Definition next (s : XorOshiro) : Z * XorOshiro :=
  let r := sw (x s + y s) in
  let y1 := Z.lxor (y s) (x s) in
  let x1 := sw (Z.lxor (Z.lxor (rotl (x s) A) y1) (Z.shiftl y1 B)) in
  let y2 := rotl y1 C in
  (Z.shiftr r (StateBits - ResultBits), mkState x1 y2).

(** The constructor and [set_state]: the state is advanced once. *)
Definition set_state (nx ny : Z) : XorOshiro := snd (next (mkState nx ny)).

(** [jump]: [for (int i : {0, 1}) for (int b = 0; b < 64; b++)]. *)
Fixpoint jump_bits (n : nat) (b : Z) (mask : Z) (acc : Z * Z) (s : XorOshiro)
  : (Z * Z) * XorOshiro :=
  match n with
  | O => (acc, s)
  | S n =>
      let acc := if Z.testbit mask b
                 then (Z.lxor (fst acc) (x s), Z.lxor (snd acc) (y s)) else acc in
      jump_bits n (b + 1) mask acc (snd (next s))
  end.

Definition jump (jump0 jump1 : Z) (s : XorOshiro) : XorOshiro :=
  let '(acc, s) := jump_bits 64 0 jump0 (0, 0) s in
  let '(acc, s) := jump_bits 64 0 jump1 acc s in
  mkState (sw (fst acc)) (sw (snd acc)).
End Xoroshiro.

Definition P128R64_next := next 64 64 24 16 37.
Definition P128R64_jump := jump 64 64 24 16 37 0xdf900294d8f554a5 0x170865df4b3201fc.
Definition P128R64_long_jump := jump 64 64 24 16 37 0xd2a98b26625eee7b 0xdddf9b1090aa7ac1.
Definition P128R32_next := next 64 32 24 16 37.
Definition P64R32_next := next 32 32 27 7 20.
Definition P64R16_next := next 32 16 27 7 20.
Definition P32R16_next := next 16 16 13 5 10.
Definition P32R8_next := next 16 8 13 5 10.
Definition P16R8_next := next 8 8 4 7 3.

(** ** The masks *)

Section BitsFacts.
Context (w : Z) (Hw : 0 < w).

(** [i] is the least bit of [v]. *)
Definition least (v i : Z) : Prop :=
  0 <= i /\ Z.testbit v i = true /\ forall j, 0 <= j < i -> Z.testbit v j = false.

Lemma least_exists v : 0 < v -> exists i, least v i.
Proof.
  intros Hv. assert (forall n : nat, forall k, 0 <= k -> Z.testbit v (k + Z.of_nat n) = true ->
    (forall j, 0 <= j < k -> Z.testbit v j = false) -> exists i, least v i) as H.
  { induction n as [|n IH]; intros k Hk Ht Hlow.
    - exists k. rewrite Z.add_0_r in Ht. by split_and!.
    - destruct (Z.testbit v k) eqn:E; [exists k; by split_and!|].
      apply (IH (k + 1)); [lia|rewrite <- Ht; f_equal; lia|].
      intros j Hj. destruct (decide (j = k)) as [->|]; [done|]. apply Hlow. lia. }
  apply (H (Z.to_nat (Z.log2 v)) 0); [done| |lia].
  rewrite Z2Nat.id by apply Z.log2_nonneg. by apply Z.bit_log2.
Qed.

Lemma least_bound v i : v in_u w -> least v i -> i < w.
Proof.
  intros Hv (Hi & Ht & _). destruct (Z.ltb_spec i w); [done|].
  by rewrite (testbit_high w v i) in Ht.
Qed.

(** Negation keeps the bits up to the least one and flips those above it. *)
Lemma neg_bits v i j : least v i -> 0 <= j ->
  Z.testbit (- v) j = if j <? i then false else if j =? i then true else negb (Z.testbit v j).
Proof.
  intros (Hi & Ht & Hlow) Hj.
  assert (v = 2 ^ i * (v / 2 ^ i)) as Ev.
  { assert (v mod 2 ^ i = 0) as Hm.
    { apply bits_eq. intros k Hk. rewrite Z.bits_0. destruct (Z.ltb_spec k i).
      - rewrite Z.mod_pow2_bits_low by lia. apply Hlow. lia.
      - apply Z.mod_pow2_bits_high. lia. }
    pose proof (Z.div_mod v (2 ^ i) ltac:(apply Z.pow_nonzero; lia)). lia. }
  set (q := v / 2 ^ i) in *.
  assert (Z.testbit q 0 = true) as Hq.
  { unfold q. rewrite <- Z.shiftr_div_pow2, Z.shiftr_spec by lia. by rewrite Z.add_0_l. }
  assert (- q = Z.lnot (q - 1)) as En by (unfold Z.lnot; lia).
  assert (forall k, 0 < k -> Z.testbit (q - 1) k = Z.testbit q k) as Hqm.
  { intros k Hk. assert (q - 1 = 2 * (q / 2)) as E2.
    { rewrite Z.bit0_odd, Z.odd_spec in Hq. destruct Hq as [m ->].
      replace ((2 * m + 1) / 2) with m; [lia|]. apply Z.div_unique with (r := 1); lia. }
    rewrite E2. replace k with (Z.succ (Z.pred k)) by lia.
    rewrite Z.testbit_even_succ by lia. symmetry.
    replace (q / 2) with (Z.div2 q) by (by rewrite Z.div2_div). by rewrite Z.div2_spec, Z.shiftr_spec by lia. }
  replace (- v) with (Z.shiftl (- q) i) by (rewrite Z.shiftl_mul_pow2 by lia; lia).
  rewrite Z.shiftl_spec by lia. destruct (Z.ltb_spec j i); [by rewrite Z.testbit_neg_r by lia|].
  destruct (Z.eqb_spec j i) as [->|].
  - rewrite Z.sub_diag, Z.bit0_odd, Z.odd_opp, <- Z.bit0_odd. done.
  - rewrite En, Z.lnot_spec, Hqm by lia. f_equal.
    unfold q. rewrite <- Z.shiftr_div_pow2, Z.shiftr_spec by lia. f_equal. lia.
Qed.

Lemma isolate_least_pow2 v i : v in_u w -> least v i -> isolate_least w v = 2 ^ i.
Proof.
  intros Hv Hl. pose proof (least_bound v i Hv Hl). pose proof Hl as (Hi & Ht & Hlow).
  apply bits_eq. intros j Hj. unfold isolate_least.
  rewrite Z.land_spec, wrap_testbit, (neg_bits v i j Hl), Z.pow2_bits_eqb by lia.
  destruct (Z.ltb_spec j i).
  - rewrite (proj2 (Z.eqb_neq i j)) by lia. by rewrite andb_false_r.
  - destruct (Z.eqb_spec j i) as [->|].
    + rewrite Ht, Z.eqb_refl. cbn. apply Z.ltb_lt. lia.
    + rewrite (proj2 (Z.eqb_neq i j)) by lia. destruct (Z.testbit v j); done.
Qed.

Lemma above_or_least_bits v i j : v in_u w -> least v i -> 0 <= j ->
  Z.testbit (above_or_least w v) j = (i <=? j) && (j <? w).
Proof.
  intros Hv Hl Hj. pose proof Hl as (Hi & Ht & Hlow). unfold above_or_least.
  rewrite Z.lor_spec, wrap_testbit, (neg_bits v i j Hl) by lia.
  destruct (Z.ltb_spec j i).
  - rewrite Hlow by lia. by rewrite (proj2 (Z.leb_gt i j)) by lia.
  - rewrite (proj2 (Z.leb_le i j)) by lia. destruct (Z.eqb_spec j i) as [->|].
    + rewrite Ht. cbn. symmetry. apply Z.ltb_lt. by eapply least_bound.
    + destruct (Z.testbit v j) eqn:E; cbn; [|done]. symmetry. apply Z.ltb_lt.
      destruct (Z.ltb_spec j w); [done|]. by rewrite (testbit_high w v j) in E.
Qed.

(** [above_least (1 << i)]: the bits above [i]. *)
Lemma above_least_bits i j : 0 <= i < w -> 0 <= j ->
  Z.testbit (above_least w (2 ^ i)) j = (i <? j) && (j <? w).
Proof.
  intros Hi Hj. unfold above_least. rewrite Z.shiftl_mul_pow2, <- Z.pow_add_r by lia.
  destruct (decide (i + 1 = w)) as [E|E].
  - rewrite E. unfold wrap at 1. rewrite Z_mod_same_full. unfold above_or_least. cbn.
    unfold wrap. rewrite Zmod_0_l, Z.testbit_0_l.
    destruct (Z.ltb_spec i j), (Z.ltb_spec j w); try done; lia.
  - assert (2 ^ (i + 1) in_u w) as Hr.
    { split; [apply Z.pow_nonneg; lia|apply Z.pow_lt_mono_r; lia]. }
    rewrite (wrap_small w (2 ^ (i + 1))) by done.
    rewrite (above_or_least_bits _ (i + 1) j Hr); [|split_and!|done].
    + destruct (Z.leb_spec (i + 1) j), (Z.ltb_spec i j); try done; lia.
    + lia.
    + by rewrite Z.pow2_bits_true by lia.
    + intros k Hk. rewrite Z.pow2_bits_eqb by lia. apply Z.eqb_neq. lia.
Qed.
End BitsFacts.

(** ** The generator is a permutation of its non-zero states *)

Section XoroshiroFacts.
Context (w rb A B C : Z) (Hw : 0 < w) (HA : 0 <= A <= w) (HB : 0 <= B) (HC : 0 <= C <= w).

Definition rotr (v k : Z) : Z := rotl w v (w - k).

(** The inverse of [next] on states. *)
Definition unnext (s : XorOshiro) : XorOshiro :=
  let y1 := rotr (y s) C in
  let x0 := rotr (Z.lxor (Z.lxor (x s) y1) (wrap w (Z.shiftl y1 B))) A in
  mkState x0 (Z.lxor y1 x0).

Definition state_ok (s : XorOshiro) : Prop := x s in_u w /\ y s in_u w.

Lemma rotl_bits v k i : v in_u w -> 0 <= k <= w -> 0 <= i < w ->
  Z.testbit (rotl w v k) i = Z.testbit v (if i <? k then i - k + w else i - k).
Proof.
  intros Hv Hk Hi. unfold rotl. rewrite wrap_testbit, Z.lor_spec by lia.
  rewrite Z.shiftl_spec, Z.shiftr_spec by lia.
  rewrite (proj2 (Z.ltb_lt i w)), andb_true_r by lia.
  destruct (Z.ltb_spec i k).
  - rewrite (Z.testbit_neg_r v (i - k)) by lia. cbn. f_equal. lia.
  - rewrite (testbit_high w v (i + (w - k))) by (done || lia). by rewrite orb_false_r.
Qed.

Lemma rotl_range v k : rotl w v k in_u w.
Proof. apply wrap_bound. lia. Qed.

Lemma word_eq a b : a in_u w -> b in_u w ->
  (forall i, 0 <= i < w -> Z.testbit a i = Z.testbit b i) -> a = b.
Proof.
  intros Ha Hb H. rewrite <- (wrap_small w a Ha), <- (wrap_small w b Hb).
  apply wrap_bits_eq; [lia|done].
Qed.

Lemma rotr_rotl v k : v in_u w -> 0 <= k <= w -> rotr (rotl w v k) k = v.
Proof.
  intros Hv Hk. apply word_eq; [apply rotl_range|done|]. intros i Hi. unfold rotr.
  rewrite rotl_bits by (try apply rotl_range; lia).
  destruct (Z.ltb_spec i (w - k)).
  - rewrite rotl_bits by (done || lia).
    rewrite (proj2 (Z.ltb_ge (i - (w - k) + w) k)) by lia. f_equal. lia.
  - rewrite rotl_bits by (done || lia). destruct (Z.ltb_spec (i - (w - k)) k).
    + f_equal. lia.
    + lia.
Qed.

Lemma lxor_range a b : a in_u w -> b in_u w -> Z.lxor a b in_u w.
Proof.
  intros Ha Hb. replace (Z.lxor a b) with (wrap w (Z.lxor a b)); [apply wrap_bound; lia|].
  apply bits_eq. intros i Hi. rewrite wrap_testbit by lia.
  destruct (Z.ltb_spec i w); [by rewrite andb_true_r|].
  by rewrite andb_false_r, Z.lxor_spec, !(testbit_high w) by (done || lia).
Qed.

Lemma next_ok s : state_ok s -> state_ok (snd (next w rb A B C s)).
Proof. intros _. split; cbn; [apply wrap_bound; lia|apply rotl_range]. Qed.

Lemma wrap_lxor a b : wrap w (Z.lxor a b) = Z.lxor (wrap w a) (wrap w b).
Proof.
  apply bits_eq. intros i Hi. rewrite Z.lxor_spec, !wrap_testbit, Z.lxor_spec by lia.
  by destruct (Z.testbit a i), (Z.testbit b i), (i <? w).
Qed.

Lemma unnext_next s : state_ok s -> unnext (snd (next w rb A B C s)) = s.
Proof.
  intros [Hx Hy]. destruct s as [x0 y0]. cbn in *. unfold unnext, next. cbn [snd x y].
  assert (Hxy : Z.lxor y0 x0 in_u w) by (by apply lxor_range).
  rewrite rotr_rotl by done. set (t := Z.lxor y0 x0) in *.
  rewrite !wrap_lxor, (wrap_small w t) by done.
  rewrite (wrap_small w (rotl w x0 A)) by apply rotl_range. set (u := wrap w (Z.shiftl t B)).
  replace (Z.lxor (Z.lxor (Z.lxor (Z.lxor (rotl w x0 A) t) u) t) u) with (rotl w x0 A).
  2: { apply bits_eq. intros i Hi. rewrite !Z.lxor_spec.
       by destruct (Z.testbit (rotl w x0 A) i), (Z.testbit t i), (Z.testbit u i). }
  rewrite rotr_rotl by done. f_equal. unfold t. apply bits_eq. intros i Hi.
  rewrite !Z.lxor_spec. by destruct (Z.testbit y0 i), (Z.testbit x0 i).
Qed.

Lemma next_zero : snd (next w rb A B C (mkState 0 0)) = mkState 0 0.
Proof.
  assert (forall k, rotl w 0 k = 0) as Hr.
  { intros k. unfold rotl. by rewrite Z.shiftl_0_l, Z.shiftr_0_l. }
  unfold next. cbn [snd x y]. rewrite Z.lxor_0_l, !Hr, Z.shiftl_0_l. done.
Qed.
End XoroshiroFacts.

(** ** What the masks and the generator promise *)

(** On a non-zero word [isolate_least] is the power of two of its least bit, so
    that [ctz] of it is that bit, and [above_least] of one bit is the mask of the bits
    above it, also when there are none. *)
Theorem masks_of_least_bit w v i :
  0 < w -> v in_u w -> least v i -> 
  isolate_least w v = 2 ^ i /\ i < w /\
  forall j, 0 <= j -> Z.testbit (above_least w (isolate_least w v)) j = (i <? j) && (j <? w).
Proof.
  intros Hw Hv Hl. rewrite (isolate_least_pow2 w Hw v i Hv Hl).
  pose proof (least_bound w v i Hv Hl). splits; [done|done|].
  intros j Hj. apply above_least_bits; [done| |done]. split; [apply Hl|done].
Qed.

Lemma masks_of_least_bit_witness :
  isolate_least 8 40 = 2 ^ 3 /\ 3 < 8 /\
  forall j, 0 <= j -> Z.testbit (above_least 8 (isolate_least 8 40)) j = (3 <? j) && (j <? 8).
Proof.
  apply (masks_of_least_bit 8 40 3); [lia|lia|].
  split; [lia|split; [reflexivity|]]. intros j Hj.
  assert (j = 0 \/ j = 1 \/ j = 2) as [-> | [-> | ->]] by lia; reflexivity.
Defined.

(** For every state width and every rotation the source admits, the step of the
    generator can be undone, so that it permutes the states, and it maps no other state
    to the all-zero state: the invariant that the source asserts after every step. *)
Theorem xoroshiro_step_is_permutation w rb A B C s :
  0 < w -> 0 <= A <= w -> 0 <= B -> 0 <= C <= w -> state_ok w s ->
  state_ok w (snd (next w rb A B C s)) /\ unnext w A B C (snd (next w rb A B C s)) = s /\
  (snd (next w rb A B C s) = mkState 0 0 -> s = mkState 0 0).
Proof.
  intros Hw HA HB HC Hs. splits; [by apply next_ok|by apply unnext_next|].
  intros E. pose proof (unnext_next w rb A B C Hw HA HC s Hs) as U. rewrite E in U.
  rewrite <- U. rewrite <- (next_zero w rb A B C) at 1.
  apply (unnext_next w rb A B C Hw HA HC).
  split; cbn; (split; [done|apply pow2_pos; lia]).
Qed.

Lemma xoroshiro_step_is_permutation_witness :
  state_ok 64 (snd (P128R64_next (mkState 5489 0))) /\
  unnext 64 24 16 37 (snd (P128R64_next (mkState 5489 0))) = mkState 5489 0 /\
  (snd (P128R64_next (mkState 5489 0)) = mkState 0 0 -> mkState 5489 0 = mkState 0 0).
Proof.
  apply (xoroshiro_step_is_permutation 64 64 24 16 37 (mkState 5489 0)); try lia.
  split; cbn; lia.
Defined.
