(* ===== verification/Capability.v ===== *)
(** * Capabilities: permission sets and pointer checks

    [include/cheri.hh] (class [PermissionSet], the queries of [Capability]), [include/cheri.h]
    (the numbers of the permissions), [include/stdlib.h] ([heap_address_is_valid]) and
    [lib/compartment_helpers/check_pointer.cc].  A capability is the record of what the
    processor's query instructions return for it; [can_access] is what the processor checks
    when the capability authorises an access. *)

From S2P Require Import Prelude.

(** ** [PermissionSet] *)

Inductive Permission : Type :=
| Global | LoadGlobal | Store | LoadMutable | StoreLocal | Load | LoadStoreCapability
| AccessSystemRegisters | Execute | Unseal | Seal | User0.

#[export] Instance Permission_eq_dec : EqDecision Permission.
Proof. solve_decision. Defined.

Definition permission_number (p : Permission) : Z :=
  match p with
  | Global => 0 | LoadGlobal => 1 | Store => 2 | LoadMutable => 3 | StoreLocal => 4 | Load => 5
  | LoadStoreCapability => 6 | AccessSystemRegisters => 7 | Execute => 8 | Unseal => 9
  | Seal => 10 | User0 => 11
  end.

(** [magic_enum::enum_values<Permission>()]: the enumerators in the order of their values. *)
Definition all_permissions : list Permission :=
  [Global; LoadGlobal; Store; LoadMutable; StoreLocal; Load; LoadStoreCapability;
   AccessSystemRegisters; Execute; Unseal; Seal; User0].

Definition permission_bit (p : Permission) : Z := Z.shiftl 1 (permission_number p).
Definition add_permission (raw : Z) (p : Permission) : Z := Z.lor raw (permission_bit p).
Definition permission_set (ps : list Permission) : Z := foldl add_permission 0 ps.
Definition valid_permissions_mask : Z := foldl add_permission 0 all_permissions.
Definition from_raw (raw : Z) : Z := Z.land raw valid_permissions_mask.
Definition omnipotent : Z := valid_permissions_mask.
Definition permissions_and (a b : Z) : Z := Z.land a b.
Definition without (raw : Z) (p : Permission) : Z := Z.land raw (u32 (Z.lnot (permission_bit p))).
Definition without_all (raw : Z) (ps : list Permission) : Z := foldl without raw ps.
Definition can_derive_from (this other : Z) : bool := Z.land this other =? this.
Definition contains (raw : Z) (p : Permission) : bool :=
  Z.land (permission_bit p) raw =? permission_bit p.
Definition contains_all (raw : Z) (ps : list Permission) : bool := forallb (contains raw) ps.

(** [operator<=>]: [None] is [unordered]. *)
Definition permissions_compare (this other : Z) : option comparison :=
  if this =? other then Some Eq
  else if can_derive_from this other then Some Lt
  else if can_derive_from other this then Some Gt
  else None.

(** The iterator: [__builtin_ffs] is one more than the number of the lowest bit set.
    [visit_permissions] is [for (auto p : set)], whose end is the iterator of the empty set. *)
Definition ffs (x : Z) : Z := if x =? 0 then 0 else ctz 32 x + 1.
Definition iterator_permission (permissions : Z) : Z := ffs permissions - 1.
Definition iterator_next (permissions : Z) : Z :=
  Z.land permissions (u32 (Z.lnot (Z.shiftl 1 (ffs permissions - 1)))).
Fixpoint visit_permissions (fuel : nat) (permissions : Z) : outcome (list Z) :=
  match fuel with
  | O => Err EFuel
  | S fuel =>
      if permissions =? 0 then Ok []
      else ps ← visit_permissions fuel (iterator_next permissions);
           Ok (iterator_permission permissions :: ps)
  end.

(** ** [Capability] *)

Record Capability : Type := mkCapability {
  address : Z;
  base : Z;
  top : Z;
  tag : bool;
  type : Z;
  permissions : Z;
}.

Definition is_valid (c : Capability) : bool := tag c.
Definition is_sealed (c : Capability) : bool := negb (type c =? 0).

(** [BoundsProxy::operator ptrdiff_t]. *)
Definition bounds (c : Capability) : Z := s32 (top c - address c).

(** What the processor checks before it lets [c] authorise an access to [space] bytes at its
    address that needs the permissions [ps]. *)
Definition can_access (c : Capability) (space : Z) (ps : list Permission) : Prop :=
  tag c = true /\ type c = 0 /\ base c <= address c /\ address c + space <= top c /\
  contains_all (permissions c) ps = true.

#[export] Instance can_access_decision c space ps : Decision (can_access c space ps).
Proof. unfold can_access. apply _. Defined.

(** A capability as the processor keeps it: 32-bit bounds, and an address that is not below
    the base while the tag is set; it may be above the top. *)
Definition encoded (c : Capability) : Prop :=
  0 <= base c <= top c /\ top c < 2 ^ 32 /\ address c in_u 32 /\
  (tag c = true -> base c <= address c).

(** ** [check_pointer] *)

(** [stack] is the capability to the caller's stack.  The comparison with [space], which is
    unsigned, converts the signed [bounds]. *)
Definition check_pointer (stack : Capability) (c : Capability) (space rawPermissions : Z)
    (checkStackNeeded : bool) : bool :=
  let isValid := is_valid c && negb (is_sealed c) in
  let isValid :=
    if checkStackNeeded then isValid && ((top c <=? base stack) || (top stack <=? base c))
    else isValid in
  let isValid := isValid && (space <=? u32 (bounds c)) in
  isValid && can_derive_from (from_raw rawPermissions) (from_raw (permissions c)).

(** The template [CHERI::check_pointer]: the stack is checked unless [Global] is asked for. *)
Definition check_pointer_for (stack : Capability) (ps : list Permission) (checkStack : bool)
    (c : Capability) (space : Z) : bool :=
  check_pointer stack c space (permission_set ps)
    (checkStack && negb (contains (permission_set ps) Global)).

(** The default argument is [sizeof(std::remove_pointer<T *>)], the size of an empty class. *)
Definition default_space : Z := 1.

Section Heap.
Context (heap_start heap_end : Z).

Definition heap_address_is_valid (c : Capability) : bool :=
  (heap_start <=? base c) && (base c <? heap_end).

Definition sizeof_Timeout : Z := 8.

Definition check_timeout_pointer (stack timeout : Capability) : bool :=
  negb (heap_address_is_valid timeout) &&
  check_pointer stack timeout sizeof_Timeout (permission_set [Load; Store]) false.
End Heap.

(** ** Permission sets are sets *)

Lemma derive_subset a b :
  can_derive_from a b = true <->
  forall i, 0 <= i -> Z.testbit a i = true -> Z.testbit b i = true.
Proof.
  unfold can_derive_from. rewrite Z.eqb_eq. split.
  - intros E i Hi Ha. rewrite <- E, Z.land_spec in Ha. by apply andb_true_iff in Ha as [_ ?].
  - intros H. apply bits_eq. intros i Hi. rewrite Z.land_spec.
    destruct (Z.testbit a i) eqn:Ea; [by rewrite (H i Hi Ea)|done].
Qed.

Lemma permission_number_range p : 0 <= permission_number p < 12.
Proof. by destruct p. Qed.

Lemma contains_testbit raw p : contains raw p = Z.testbit raw (permission_number p).
Proof.
  pose proof (permission_number_range p) as Hn. unfold contains, permission_bit.
  rewrite Z.shiftl_mul_pow2, Z.mul_1_l by lia.
  destruct (Z.testbit raw (permission_number p)) eqn:E; [apply Z.eqb_eq|apply Z.eqb_neq].
  - apply bits_eq. intros i Hi. rewrite Z.land_spec, Z.pow2_bits_eqb by lia.
    destruct (Z.eqb_spec (permission_number p) i) as [<-|]; [by rewrite E|done].
  - intros H. assert (Z.testbit (Z.land (2 ^ permission_number p) raw) (permission_number p) = true)
      as H' by (by rewrite H, Z.pow2_bits_true by lia).
    by rewrite Z.land_spec, E, andb_false_r in H'.
Qed.

Lemma from_raw_bound raw : from_raw raw in_u 12.
Proof. apply land_bound; [lia|]. by vm_compute. Qed.

Lemma bit_is_permission i : 0 <= i < 12 -> exists p, permission_number p = i.
Proof.
  intros Hi. exists (nth (Z.to_nat i) all_permissions Global).
  rewrite <- (Z2Nat.id i) at 2 by lia. assert (Z.to_nat i < 12)%nat as H by lia.
  generalize dependent (Z.to_nat i). intros n H. do 12 (destruct n; [done|]). lia.
Qed.

(** Two valid sets that contain the same permissions are the same word. *)
Lemma permissions_ext a b : a in_u 12 -> b in_u 12 ->
  (forall p, contains a p = contains b p) -> a = b.
Proof.
  intros Ha Hb H. apply bits_eq. intros i Hi.
  destruct (Z.lt_ge_cases i 12) as [Hl|Hl]; [|by rewrite !(testbit_high 12)].
  destruct (bit_is_permission i ltac:(lia)) as [p <-]. by rewrite <- !contains_testbit.
Qed.

Lemma derive_contains a b : a in_u 12 ->
  can_derive_from a b = true <-> forall p, contains a p = true -> contains b p = true.
Proof.
  intros Ha. rewrite derive_subset. split.
  - intros H p. rewrite !contains_testbit. apply H. pose proof (permission_number_range p). lia.
  - intros H i Hi Hai. destruct (Z.lt_ge_cases i 12) as [Hl|Hl].
    + destruct (bit_is_permission i ltac:(lia)) as [p <-].
      rewrite <- contains_testbit in *. by apply H.
    + by rewrite (testbit_high 12) in Hai.
Qed.

(** A property of every valid set, by looking at the 4096 of them. *)
Definition every_set (f : Z -> bool) : bool := forallb f (Z.of_nat <$> seq 0 4096).

Lemma every_set_spec f raw : every_set f = true -> raw in_u 12 -> f raw = true.
Proof.
  intros H Hr. unfold every_set in H. rewrite forallb_forall in H. apply H.
  apply list_elem_of_In, list_elem_of_fmap. exists (Z.to_nat raw). split; [lia|].
  apply elem_of_seq. lia.
Qed.

Definition outcome_eqb (o : outcome (list Z)) (l : list Z) : bool :=
  match o with Ok l' => bool_decide (l' = l) | Err _ => false end.

Lemma visits_all : every_set (fun raw => outcome_eqb (visit_permissions 13 raw)
  (permission_number <$> filter (fun p => contains raw p = true) all_permissions)) = true.
Proof. by vm_compute. Qed.

Lemma builds_all : every_set (fun raw =>
  permission_set (filter (fun p => contains raw p = true) all_permissions) =? raw) = true.
Proof. by vm_compute. Qed.

Lemma without_testbit raw p i : raw in_u 32 -> 0 <= i ->
  Z.testbit (without raw p) i = Z.testbit raw i && negb (i =? permission_number p).
Proof.
  intros Hr Hi. pose proof (permission_number_range p) as Hp. unfold without, permission_bit, u32.
  rewrite Z.land_spec, wrap_testbit, Z.lnot_spec by lia.
  rewrite Z.shiftl_mul_pow2, Z.mul_1_l, Z.pow2_bits_eqb by lia. rewrite Z.eqb_sym.
  destruct (Z.ltb_spec i 32); [by rewrite andb_true_r|].
  by rewrite (testbit_high 32) by (done || lia).
Qed.

Lemma without_contains raw p q : raw in_u 32 ->
  contains (without raw p) q = contains raw q && bool_decide (q <> p).
Proof.
  intros Hr. pose proof (permission_number_range q) as Hq.
  rewrite !contains_testbit, without_testbit by (done || lia). f_equal. by destruct p, q.
Qed.

Lemma from_raw_contains raw p : contains (from_raw raw) p = contains raw p.
Proof.
  rewrite !contains_testbit. unfold from_raw. rewrite Z.land_spec.
  enough (Z.testbit valid_permissions_mask (permission_number p) = true) as ->
    by apply andb_true_r. by destruct p.
Qed.

Lemma and_contains a b q : contains (permissions_and a b) q = contains a q && contains b q.
Proof. unfold permissions_and. by rewrite !contains_testbit, Z.land_spec. Qed.

Lemma derive_antisym a b : can_derive_from a b = true -> can_derive_from b a = true -> a = b.
Proof.
  unfold can_derive_from. rewrite !Z.eqb_eq. intros Ha Hb. by rewrite <- Ha, Z.land_comm.
Qed.

(** A permission set is what its iterator enumerates: [from_raw] keeps exactly the
    architectural permissions of a word, the loop over the set ends after at most thirteen
    tests and visits each of its permissions once, lowest number first, and a set built from
    what the loop visited is the same set. *)
Theorem permission_set_iterates raw :
  let set := from_raw raw in
  let members := filter (fun p => contains set p = true) all_permissions in
  (forall p, contains set p = contains raw p) /\
  visit_permissions 13 set = Ok (permission_number <$> members) /\
  permission_set members = set.
Proof.
  intros set members. pose proof (from_raw_bound raw) as Hb. split; [|split].
  - intros p. apply from_raw_contains.
  - pose proof (every_set_spec _ _ visits_all Hb) as H. cbv beta in H. fold set members in H.
    destruct (visit_permissions 13 set); [|done]. by apply bool_decide_eq_true in H as ->.
  - pose proof (every_set_spec _ _ builds_all Hb) as H. by apply Z.eqb_eq in H.
Qed.

(** [can_derive_from], [operator<=>] and [operator&] on valid sets are inclusion, the
    partial order of inclusion, and intersection; [without] removes one permission. *)
Theorem permission_order_is_inclusion a b p :
  a in_u 12 -> b in_u 12 ->
  let subset x y := forall q, contains x q = true -> contains y q = true in
  (can_derive_from a b = true <-> subset a b) /\
  (permissions_compare a b = Some Eq <-> a = b) /\
  (permissions_compare a b = Some Lt <-> subset a b /\ a <> b) /\
  (permissions_compare a b = Some Gt <-> subset b a /\ a <> b) /\
  (permissions_compare a b = None <-> ~ subset a b /\ ~ subset b a) /\
  (forall q, contains (permissions_and a b) q = contains a q && contains b q) /\
  (forall q, contains (without a p) q = contains a q && bool_decide (q <> p)).
Proof.
  intros Ha Hb subset. assert (a in_u 32) as Ha32 by lia.
  pose proof (derive_contains a b Ha : _ <-> subset a b) as Hab.
  pose proof (derive_contains b a Hb : _ <-> subset b a) as Hba.
  pose proof (derive_antisym a b) as Hanti.
  assert (a = b -> can_derive_from a b = true /\ can_derive_from b a = true) as Heq.
  { intros ->. split; by apply Z.eqb_eq, Z.land_diag. }
  rewrite <- Hab, <- Hba. unfold permissions_compare.
  splits; [done|..|apply and_contains|intros q; by apply without_contains].
  all: destruct (Z.eqb_spec a b), (can_derive_from a b), (can_derive_from b a); intuition congruence.
Qed.

Lemma permission_order_is_inclusion_witness :
  permissions_compare (permission_set [Load]) (permission_set [Load; Store]) = Some Lt /\
  permissions_compare (permission_set [Load]) (permission_set [Store]) = None.
Proof.
  split.
  - apply (permission_order_is_inclusion 32 36 Load); [lia|lia|]. split; [|lia].
    apply (derive_contains 32 36); [lia|reflexivity].
  - reflexivity.
Defined.

(** ** What a checked pointer gives *)

Lemma contains_set ps p : contains (permission_set ps) p = bool_decide (p ∈ ps).
Proof.
  rewrite contains_testbit. unfold permission_set.
  enough (forall raw, Z.testbit (foldl add_permission raw ps) (permission_number p) =
    Z.testbit raw (permission_number p) || bool_decide (p ∈ ps)) as ->
    by (by rewrite Z.bits_0).
  pose proof (permission_number_range p) as Hp. induction ps as [|q ps IH]; intros raw; cbn [foldl].
  { rewrite bool_decide_eq_false_2 by apply not_elem_of_nil. by rewrite orb_false_r. }
  rewrite IH. unfold add_permission, permission_bit. rewrite Z.lor_spec, <- orb_assoc. f_equal.
  pose proof (permission_number_range q). rewrite Z.shiftl_mul_pow2, Z.mul_1_l, Z.pow2_bits_eqb by lia.
  destruct (decide (p = q)) as [->|Hne].
  - rewrite Z.eqb_refl, (bool_decide_eq_true_2 (q ∈ q :: ps)) by set_solver. done.
  - assert (permission_number q =? permission_number p = false) as -> by (by destruct p, q).
    cbn. apply bool_decide_ext. set_solver.
Qed.

Lemma permissions_derive ps raw :
  can_derive_from (from_raw (permission_set ps)) (from_raw raw) = true <->
  contains_all raw ps = true.
Proof.
  rewrite derive_contains by apply from_raw_bound. unfold contains_all. rewrite forallb_forall.
  split.
  - intros H p Hp%list_elem_of_In. rewrite <- from_raw_contains. apply H.
    rewrite from_raw_contains, contains_set. by apply bool_decide_eq_true.
  - intros H p. rewrite !from_raw_contains, contains_set. intros Hp%bool_decide_eq_true.
    by apply H, list_elem_of_In.
Qed.

Lemma bounds_unsigned c : u32 (bounds c) = u32 (top c - address c).
Proof. by apply wrap_signed. Qed.

(** C25.  For a capability whose address is not above its top, [check_pointer] accepts exactly
    the pointers through which the processor allows an access to that many bytes with those
    permissions and which, when the stack is checked, do not overlap the caller's stack. *)
Theorem check_pointer_is_access stack c ps checkStack space :
  encoded c -> address c <= top c -> 0 <= space ->
  check_pointer_for stack ps checkStack c space = true <->
  can_access c space ps /\
  (checkStack = true -> Global ∉ ps -> top c <= base stack \/ top stack <= base c).
Proof.
  intros ((Hb & Ht) & Ht32 & Ha & Hab) Hat Hs. unfold check_pointer_for, check_pointer, can_access.
  rewrite !andb_true_iff, permissions_derive, bounds_unsigned, contains_set.
  unfold u32. rewrite wrap_small, Z.leb_le by lia. unfold is_valid, is_sealed. rewrite negb_involutive.
  assert (forall b : bool, (if b then tag c && (type c =? 0) &&
      ((top c <=? base stack) || (top stack <=? base c)) else tag c && (type c =? 0)) = true <->
    tag c = true /\ type c = 0 /\ (b = true -> top c <= base stack \/ top stack <= base c)) as ->.
  { intros []; rewrite ?andb_true_iff, ?orb_true_iff, ?Z.leb_le, Z.eqb_eq; intuition congruence. }
  rewrite andb_true_iff, negb_true_iff, bool_decide_eq_false. intuition lia.
Qed.

Lemma check_pointer_is_access_witness :
  check_pointer_for (mkCapability 900 800 1000 true 0 0) [Load] true
    (mkCapability 100 96 112 true 0 (permission_set [Load; Store])) 12 = true.
Proof.
  apply check_pointer_is_access; [|cbn; lia..|].
  - split; [cbn; lia|]. cbn. lia.
  - split; [|cbn; lia]. split; [reflexivity|]. split; [reflexivity|].
    split; [cbn; lia|]. split; [cbn; lia|reflexivity].
Defined.

(** The signed distance to the top is compared as an unsigned number: a tagged capability whose
    address is above its top passes the check for nearly every length, although no byte at its
    address may be accessed. *)
Theorem check_pointer_beyond_top stack c ps space :
  encoded c -> top c < address c -> is_valid c = true -> is_sealed c = false ->
  contains_all (permissions c) ps = true ->
  0 < space <= 2 ^ 32 - (address c - top c) ->
  check_pointer_for stack ps false c space = true /\ ~ can_access c space ps.
Proof.
  intros ((Hb & Ht) & Ht32 & Ha & _) Hat Hv Hs Hp Hsp. split; [|unfold can_access; lia].
  unfold check_pointer_for, check_pointer. rewrite Hv, Hs, bounds_unsigned. cbn.
  rewrite andb_true_iff, permissions_derive. split; [|done]. apply Z.leb_le. unfold u32, wrap.
  rewrite <- (Z_mod_plus_full _ 1), Z.mod_small; lia.
Qed.

Lemma check_pointer_beyond_top_witness :
  let c := mkCapability 120 96 112 true 0 (permission_set [Load]) in
  check_pointer_for c [Load] false c 4 = true /\ ~ can_access c 4 [Load].
Proof.
  intros c. apply check_pointer_beyond_top; [|reflexivity..|].
  - split; [cbn; lia|]. cbn. lia.
  - cbn. lia.
Defined.

(** The default length is one byte: a word may not be readable through a checked pointer. *)
Example default_space_one_byte :
  let c := mkCapability 100 96 101 true 0 (permission_set [Load]) in
  check_pointer_for (mkCapability 900 800 1000 true 0 0) [Load] true c default_space = true /\
  ~ can_access c 4 [Load].
Proof. split; [reflexivity|]. unfold can_access. cbn. lia. Qed.
