(* ===== verification/Calendar.v ===== *)
(** * Calendar time

    [lib/time/timegm.cc]: the conversions between a UNIX timestamp and a date of the Gregorian
    calendar.  [int] is 32 bits wide and [time_t] 64; arithmetic on [int] outside of its range is
    [EUndefined].  [day_number] is the reference, the number of a date's day counted from the
    epoch. *)

From S2P Require Import Prelude.

(** ** Machine integers *)

Definition int (z : Z) : outcome Z :=
  if (- 2 ^ 31 <=? z) && (z <? 2 ^ 31) then Ok z else Err EUndefined.

Lemma int_ok z : - 2 ^ 31 <= z < 2 ^ 31 -> int z = Ok z.
Proof.
  intros H. unfold int. destruct (Z.leb_spec (- 2 ^ 31) z), (Z.ltb_spec z (2 ^ 31)); [done|lia..].
Qed.

(** ** The code *)

Definition SecondsPerMinute : Z := 60.
Definition MinutesPerHour : Z := 60.
Definition SecondsPerHour : Z := MinutesPerHour * SecondsPerMinute.
Definition HoursPerDay : Z := 24.
Definition SecondsPerDay : Z := HoursPerDay * SecondsPerHour.
Definition MonthsPerYear : Z := 12.
Definition ZeroYear : Z := 1900.
Definition UnixEpochYear : Z := 1970.

Record tm : Type := mkTm {
  tm_sec : Z; tm_min : Z; tm_hour : Z; tm_mday : Z; tm_mon : Z; tm_year : Z;
  tm_wday : Z; tm_yday : Z; tm_isdst : Z;
}.

(** The remainder of C has the sign of the dividend. *)
Definition year_is_leapyear (year : Z) : bool :=
  (Z.rem year 4 =? 0) && (negb (Z.rem year 100 =? 0) || (Z.rem year 400 =? 0)).

Definition DaysInEachMonth : list Z := [31; 28; 31; 30; 31; 30; 31; 31; 30; 31; 30; 31].

Definition days_in_month (month year : Z) : outcome Z :=
  _ ← dassert true (0 <=? month);
  _ ← dassert true (month <? Z.of_nat (length DaysInEachMonth));
  days ← deref (DaysInEachMonth !! Z.to_nat month);
  Ok (if (month =? 1) && year_is_leapyear year then days + 1 else days).

Definition days_in_year (year : Z) : Z := if year_is_leapyear year then 366 else 365.
Definition seconds_in_year (year : Z) : Z := days_in_year year * SecondsPerDay.
Definition seconds_in_month (month year : Z) : outcome Z :=
  d ← days_in_month month year; Ok (d * SecondsPerDay).

Definition MonthCodes : list Z := [0; 3; 3; 6; 1; 4; 6; 2; 5; 0; 3; 5].
Definition CenturyCodes : list Z := [4; 2; 0; 6; 4; 2; 0].

Definition day_of_the_week (day month year : Z) : outcome Z :=
  let yearInCentury := Z.rem year 100 in
  let yearCode := Z.rem (yearInCentury + Z.quot yearInCentury 4) 7 in
  monthCode ← deref (MonthCodes !! Z.to_nat month);
  let century := Z.quot year 100 in
  if (century <? 17) || (23 <? century) then Ok 0
  else
    centuryCode ← deref (CenturyCodes !! Z.to_nat (century - 17));
    let leapYearCorrection := if year_is_leapyear year && (month <? 2) then -1 else 0 in
    Ok (Z.rem (yearCode + monthCode + centuryCode + day + leapYearCorrection) 7).

(** [Normalise] of [timegm], as the new [value] and [next]. *)
Definition Normalise (value next base : Z) : outcome (Z * Z) :=
  next ← int (next + Z.quot value base);
  if base <=? value then Ok (Z.rem value base, next)
  else if value <? 0 then
    let remainder := Z.rem value base in
    if remainder =? 0 then Ok (0, next)
    else next ← int (next - 1); Ok (base + Z.rem value base, next)
  else Ok (value, next).

Definition full_year (year : Z) : outcome Z := int (year + ZeroYear).

Fixpoint walk_backwards (fuel : nat) (mon year dayOfMonth : Z) : outcome (Z * Z * Z) :=
  match fuel with
  | O => Err EFuel
  | S fuel =>
      if dayOfMonth <? 0 then
        mon ← int (mon - 1);
        '(mon, year) ← Normalise mon year MonthsPerYear;
        y ← full_year year;
        d ← days_in_month mon y;
        dayOfMonth ← int (dayOfMonth + d);
        walk_backwards fuel mon year dayOfMonth
      else Ok (mon, year, dayOfMonth)
  end.

Fixpoint walk_forwards (fuel : nat) (mon year dayOfMonth : Z) : outcome (Z * Z * Z) :=
  match fuel with
  | O => Err EFuel
  | S fuel =>
      y ← full_year year;
      d ← days_in_month mon y;
      if d <=? dayOfMonth then
        dayOfMonth ← int (dayOfMonth - d);
        mon ← int (mon + 1);
        '(mon, year) ← Normalise mon year MonthsPerYear;
        walk_forwards fuel mon year dayOfMonth
      else Ok (mon, year, dayOfMonth)
  end.

(** The loops that sum whole years, downwards from [y] and upwards to [y + n - 1]. *)
Fixpoint years_before (n : nat) (y result : Z) : Z :=
  match n with O => result | S n => years_before n (y - 1) (result - seconds_in_year y) end.
Fixpoint years_after (n : nat) (y result : Z) : Z :=
  match n with O => result | S n => years_after n (y + 1) (result + seconds_in_year y) end.

Fixpoint prior_months (n : nat) (m year result yday : Z) : outcome (Z * Z) :=
  match n with
  | O => Ok (result, yday)
  | S n =>
      s ← seconds_in_month m year;
      d ← days_in_month m year;
      prior_months n (m + 1) year (result + s) (yday + d)
  end.

(** A month has at least 28 days. *)
Definition month_fuel (days : Z) : nat := Z.to_nat (Z.abs days / 28 + 2).

Definition timegm (time : tm) : outcome (Z * tm) :=
  '(sec, min) ← Normalise (tm_sec time) (tm_min time) SecondsPerMinute;
  '(min, hour) ← Normalise min (tm_hour time) MinutesPerHour;
  '(hour, mday) ← Normalise hour (tm_mday time) HoursPerDay;
  '(mon, year) ← Normalise (tm_mon time) (tm_year time) MonthsPerYear;
  dayOfMonth ← int (mday - 1);
  '(mon, year, dayOfMonth) ← walk_backwards (month_fuel dayOfMonth) mon year dayOfMonth;
  '(mon, year, dayOfMonth) ← walk_forwards (month_fuel dayOfMonth) mon year dayOfMonth;
  let mday := dayOfMonth + 1 in
  y ← full_year year;
  let result :=
    if y <? UnixEpochYear then years_before (Z.to_nat (UnixEpochYear - y)) (UnixEpochYear - 1) 0
    else if UnixEpochYear <? y then years_after (Z.to_nat (y - UnixEpochYear)) UnixEpochYear 0
    else 0 in
  '(result, yday) ← prior_months (Z.to_nat mon) 0 y result dayOfMonth;
  wday ← day_of_the_week mday mon y;
  Ok (result + dayOfMonth * SecondsPerDay + hour * SecondsPerHour + min * SecondsPerMinute + sec,
      mkTm sec min hour mday mon year wday yday (tm_isdst time)).

(** The loops of [gmtime_r]. *)
Fixpoint gm_backwards (fuel : nat) (time year : Z) : outcome (Z * Z) :=
  match fuel with
  | O => Err EFuel
  | S fuel =>
      if time <? 0 then year' ← int (year - 1); gm_backwards fuel (time + seconds_in_year year) year'
      else Ok (time, year)
  end.

Fixpoint gm_forwards (fuel : nat) (time year : Z) : outcome (Z * Z) :=
  match fuel with
  | O => Err EFuel
  | S fuel =>
      if seconds_in_year year <? time then
        year' ← int (year + 1); gm_forwards fuel (time - seconds_in_year year) year'
      else Ok (time, year)
  end.

Fixpoint gm_months (fuel : nat) (time mon yday year : Z) : outcome (Z * Z * Z) :=
  match fuel with
  | O => Err EFuel
  | S fuel =>
      s ← seconds_in_month mon year;
      if s <? time then
        d ← days_in_month mon year;
        gm_months fuel (time - s) (mon + 1) (yday + d) year
      else Ok (time, mon, yday)
  end.

(** A year has at least 365 days. *)
Definition year_fuel (time : Z) : nat := Z.to_nat (Z.abs time / (365 * SecondsPerDay) + 2).

Definition gmtime_r (timer : Z) (result : tm) : outcome tm :=
  '(time, year) ← gm_backwards (year_fuel timer) timer UnixEpochYear;
  '(time, year) ← gm_forwards (year_fuel time) time year;
  '(time, mon, yday) ← gm_months 13 time 0 0 year;
  let mday := 1 + Z.quot time SecondsPerDay in
  let time := Z.rem time SecondsPerDay in
  let hour := Z.quot time SecondsPerHour in
  let time := Z.rem time SecondsPerHour in
  let min := Z.quot time SecondsPerMinute in
  let sec := Z.rem time SecondsPerMinute in
  wday ← day_of_the_week mday mon year;
  tm_year ← int (year - ZeroYear);
  Ok (mkTm sec min hour mday mon tm_year wday (yday + mday) (tm_isdst result)).

(** ** The reference *)

Definition leap (y : Z) : bool :=
  (y mod 4 =? 0) && (negb (y mod 100 =? 0) || (y mod 400 =? 0)).
Definition year_length (y : Z) : Z := 365 + b2z (leap y).
Definition month_length (l : bool) (m : Z) : Z :=
  nth (Z.to_nat m) DaysInEachMonth 0 + b2z ((m =? 1) && l).
Definition month_start (l : bool) (m : Z) : Z :=
  nth (Z.to_nat m) [0; 31; 59; 90; 120; 151; 181; 212; 243; 273; 304; 334] 0 + b2z ((1 <? m) && l).

(** The days before the year [y], of those since the beginning of year 0. *)
Definition year_start (y : Z) : Z := 365 * y + (y - 1) / 4 - (y - 1) / 100 + (y - 1) / 400.

(** The number of the day [d], counted from 0, of month [m] of year [y]; 0 is the epoch. *)
Definition day_number (y m d : Z) : Z :=
  year_start y - year_start UnixEpochYear + month_start (leap y) m + d.

(** The instant that the fields of [t] denote, in or out of range. *)
Definition instant (t : tm) : Z :=
  let y := tm_year t + ZeroYear + tm_mon t / 12 in
  86400 * day_number y (tm_mon t mod 12) (tm_mday t - 1)
  + 3600 * tm_hour t + 60 * tm_min t + tm_sec t.

Lemma leap_eq y : year_is_leapyear y = leap y.
Proof.
  assert (forall k, 0 < k -> (Z.rem y k =? 0) = (y mod k =? 0)) as E.
  { intros k Hk. destruct (Z.eqb_spec (Z.rem y k) 0) as [H|H], (Z.eqb_spec (y mod k) 0) as [H'|H']; try done.
    - apply Z.rem_divide, Z.mod_divide in H; lia.
    - apply Z.mod_divide, Z.rem_divide in H'; lia. }
  unfold year_is_leapyear, leap. by rewrite !E by lia.
Qed.

Lemma year_next y : year_start (y + 1) = year_start y + year_length y.
Proof.
  assert (forall k, 0 < k -> y / k = (y - 1) / k + b2z (y mod k =? 0)) as E.
  { intros k Hk. destruct (Z.eqb_spec (y mod k) 0); cbn [b2z]; Z.div_mod_to_equations; nia. }
  unfold year_start, year_length, leap. rewrite Z.add_simpl_r.
  pose proof (E 4 ltac:(lia)). pose proof (E 100 ltac:(lia)). pose proof (E 400 ltac:(lia)).
  assert (y mod 400 = 0 -> y mod 100 = 0) by (Z.div_mod_to_equations; lia).
  assert (y mod 100 = 0 -> y mod 4 = 0) by (Z.div_mod_to_equations; lia).
  destruct (Z.eqb_spec (y mod 4) 0), (Z.eqb_spec (y mod 100) 0), (Z.eqb_spec (y mod 400) 0);
    cbn [b2z andb orb negb] in *; lia.
Qed.

Lemma year_length_range y : 365 <= year_length y <= 366.
Proof. unfold year_length. destruct (leap y); cbn [b2z]; lia. Qed.

Lemma days_in_year_eq y : days_in_year y = year_length y.
Proof. unfold days_in_year, year_length. rewrite leap_eq. by destruct (leap y). Qed.

Lemma month_cases (P : Z -> Prop) : P 0 -> P 1 -> P 2 -> P 3 -> P 4 -> P 5 -> P 6 -> P 7 -> P 8 -> P 9 ->
  P 10 -> P 11 -> forall m, 0 <= m < 12 -> P m.
Proof.
  intros. assert (m = 0 \/ m = 1 \/ m = 2 \/ m = 3 \/ m = 4 \/ m = 5 \/ m = 6 \/ m = 7 \/ m = 8 \/ m = 9
    \/ m = 10 \/ m = 11) as Hm by lia. by destruct_or!; subst.
Qed.

Lemma days_in_month_ok m y : 0 <= m < 12 -> days_in_month m y = Ok (month_length (leap y) m).
Proof.
  unfold days_in_month. rewrite leap_eq. revert m. apply month_cases; by destruct (leap y).
Qed.

Lemma month_length_range l m : 0 <= m < 12 -> 28 <= month_length l m <= 31.
Proof. revert m. apply month_cases; by destruct l. Qed.

Lemma month_next l m : 0 <= m < 11 -> month_start l (m + 1) = month_start l m + month_length l m.
Proof.
  intros Hm. assert (0 <= m < 12) as H12 by lia. revert m H12 Hm.
  apply (month_cases (fun m => 0 <= m < 11 -> _)); intros; try lia; by destruct l.
Qed.

Lemma month_last l : month_start l 11 + month_length l 11 = 365 + b2z l.
Proof. by destruct l. Qed.

Lemma month_start_range l m : 0 <= m < 12 -> 0 <= month_start l m <= 335.
Proof. revert m. apply month_cases; by destruct l. Qed.

Lemma seconds_in_month_ok m y : 0 <= m < 12 -> seconds_in_month m y = Ok (month_length (leap y) m * 86400).
Proof. intros Hm. unfold seconds_in_month. by rewrite days_in_month_ok. Qed.

(** ** Normalising *)

Lemma Normalise_ok value next base : 0 < base -> - 2 ^ 31 <= next + Z.quot value base < 2 ^ 31 ->
  - 2 ^ 31 <= next + value / base < 2 ^ 31 ->
  Normalise value next base = Ok (value mod base, next + value / base).
Proof.
  intros Hb H1 H2. unfold Normalise. rewrite (int_ok _ H1), ok_bind.
  destruct (Z.leb_spec base value).
  { by rewrite Z.rem_mod_nonneg, Z.quot_div_nonneg by lia. }
  destruct (Z.ltb_spec value 0).
  2: { rewrite Z.quot_div_nonneg, Z.mod_small, Z.div_small by lia. f_equal. }
  assert (value = base * Z.quot value base + Z.rem value base) as E by (apply Z.quot_rem'; lia).
  pose proof (Z.rem_bound_pos_neg value base ltac:(lia) ltac:(lia)) as Hr.
  destruct (Z.eqb_spec (Z.rem value base) 0) as [E0|E0].
  - rewrite <- (Z.mod_unique value base (Z.quot value base) 0) by lia.
    by rewrite <- (Z.div_unique value base (Z.quot value base) 0) by lia.
  - assert (value / base = Z.quot value base - 1) as Ed.
    { symmetry. apply (Z.div_unique value base _ (base + Z.rem value base)); lia. }
    rewrite Ed in *. rewrite int_ok, ok_bind by lia.
    rewrite <- (Z.mod_unique value base (Z.quot value base - 1) (base + Z.rem value base)) by lia.
    do 2 f_equal. lia.
Qed.

(** With fields of at most 2^30, a carry out of [value] is at most 2^30 too. *)
Lemma carry_range value base c : 0 < base -> - c * base <= value <= c * base ->
  - c <= value / base <= c /\ - c <= Z.quot value base <= c.
Proof.
  intros Hb Hv. assert (0 <= c) as Hc by nia. split.
  - split; [apply Z.div_le_lower_bound; lia|]. apply Z.div_le_upper_bound; lia.
  - destruct (Z.le_gt_cases 0 value).
    + rewrite Z.quot_div_nonneg by lia. pose proof (Z.div_pos value base ltac:(lia) ltac:(lia)).
      pose proof (Z.div_le_upper_bound value base c ltac:(lia) ltac:(lia)). lia.
    + rewrite <- (Z.opp_involutive value), Z.quot_opp_l, Z.quot_div_nonneg by lia.
      pose proof (Z.div_pos (- value) base ltac:(lia) ltac:(lia)).
      pose proof (Z.div_le_upper_bound (- value) base c ltac:(lia) ltac:(lia)). lia.
Qed.

Lemma carry_ok value next base c : 0 < base -> - c * base <= value <= c * base ->
  - 2 ^ 31 + c <= next < 2 ^ 31 - c ->
  Normalise value next base = Ok (value mod base, next + value / base).
Proof.
  intros Hb Hv Hn. destruct (carry_range value base c Hb Hv). apply Normalise_ok; lia.
Qed.

(** ** Walking to the right month *)

Lemma next_month y m d : 0 <= m < 12 ->
  day_number y m (month_length (leap y) m + d) = day_number (y + (m + 1) / 12) ((m + 1) mod 12) d.
Proof.
  intros Hm. unfold day_number. destruct (Z.eq_dec m 11) as [->|].
  - change ((11 + 1) / 12) with 1. change ((11 + 1) mod 12) with 0. rewrite year_next.
    pose proof (month_last (leap y)). unfold year_length.
    assert (month_start (leap (y + 1)) 0 = 0) as -> by by destruct (leap (y + 1)). lia.
  - rewrite Z.div_small, Z.mod_small, Z.add_0_r, month_next by lia. lia.
Qed.

Lemma previous_month y m d : 0 <= m < 12 ->
  let y' := y + (m - 1) / 12 in let m' := (m - 1) mod 12 in
  day_number y m d = day_number y' m' (month_length (leap y') m' + d).
Proof.
  intros Hm y' m'. assert (0 <= m' < 12) as Hm' by (apply Z.mod_pos_bound; lia).
  rewrite next_month by done. assert ((m' + 1) mod 12 = m /\ y' + (m' + 1) / 12 = y) as [-> ->]; [|done].
  unfold m', y'. destruct (Z.eq_dec m 0) as [->|].
  - change ((0 - 1) mod 12) with 11. change ((0 - 1) / 12) with (-1). change ((11 + 1) mod 12) with 0.
    change ((11 + 1) / 12) with 1. lia.
  - rewrite (Z.mod_small (m - 1)), (Z.div_small (m - 1)) by lia. rewrite Z.sub_add, Z.mod_small, Z.div_small by lia. lia.
Qed.

Definition max_year : Z := 2 ^ 31 - 3000.

Lemma full_year_ok y : Z.abs y <= max_year -> full_year y = Ok (y + 1900).
Proof. unfold max_year. intros H. unfold full_year, ZeroYear. by rewrite int_ok by lia. Qed.

(** Where a walk ends: the same day. *)
Definition same_day (mon year day mon' year' day' : Z) : Prop :=
  0 <= mon' < 12 /\ day_number (year' + 1900) mon' day' = day_number (year + 1900) mon day.

Lemma month_step m : 0 <= m < 12 -> - 1 <= (m - 1) / 12 <= 0 /\ 0 <= (m + 1) / 12 <= 1.
Proof. intros Hm. Z.div_mod_to_equations. lia. Qed.

Lemma walk_backwards_ok fuel : forall mon year day, 0 <= mon < 12 -> - 28 * Z.of_nat fuel + 28 < day ->
  (0 < fuel)%nat -> 28 * Z.abs year + Z.max 0 (- day) <= 28 * (max_year - 1) -> - 2 ^ 31 <= day ->
  exists mon' year' day', walk_backwards fuel mon year day = Ok (mon', year', day') /\
    same_day mon year day mon' year' day' /\ 0 <= day' /\ (day < 0 -> day' < 31) /\
    (0 <= day -> day' = day /\ year' = year) /\ Z.abs year' <= Z.abs year + Z.max 0 (- day) / 28 + 1.
Proof.
  induction fuel as [|fuel IH]; intros mon year day Hm Hf H0 Hy Hd; [lia|]. cbn [walk_backwards].
  pose proof (Z.div_pos (Z.max 0 (- day)) 28 ltac:(lia) ltac:(lia)) as Hp.
  destruct (Z.ltb_spec day 0) as [Hneg|]; [|exists mon, year, day; by unfold same_day; splits; first [done|lia]].
  destruct (month_step mon Hm) as (Hq & _). rewrite int_ok, ok_bind by lia.
  rewrite (carry_ok (mon - 1) year MonthsPerYear 1), ok_bind by (unfold MonthsPerYear, max_year in *; lia).
  unfold MonthsPerYear. set (mon1 := (mon - 1) mod 12). set (year1 := year + (mon - 1) / 12).
  assert (0 <= mon1 < 12) as Hm1 by (apply Z.mod_pos_bound; lia).
  assert (Z.abs year1 <= Z.abs year + 1) as Hy1 by (unfold year1; lia).
  rewrite full_year_ok, ok_bind by lia. rewrite days_in_month_ok, ok_bind by done.
  pose proof (month_length_range (leap (year1 + 1900)) mon1 Hm1) as Hl. set (len := month_length _ _) in *.
  rewrite int_ok, ok_bind by lia.
  assert (day_number (year1 + 1900) mon1 (day + len) = day_number (year + 1900) mon day) as Esame.
  { rewrite (previous_month (year + 1900) mon day Hm). fold mon1.
    replace (year + 1900 + (mon - 1) / 12) with (year1 + 1900) by (unfold year1; lia). f_equal. unfold len. lia. }
  assert (Z.max 0 (- day) / 28 >= 0 /\ (day + len < 0 -> Z.max 0 (- (day + len)) / 28 + 1 <= Z.max 0 (- day) / 28))
    as [_ Hdiv].
  { split; [lia|]. intros Hn. rewrite <- Z.div_add by lia. apply Z.div_le_mono; lia. }
  destruct (IH mon1 year1 (day + len)) as (mon' & year' & day' & E & [Hm' Es] & Hd' & H1 & H2 & Hy');
    [done|lia|destruct fuel; lia| |lia|].
  { destruct (Z.lt_ge_cases (day + len) 0); lia. }
  exists mon', year', day'. splits; [done|split; [done|congruence]|done|lia|lia|].
  destruct (Z.lt_ge_cases (day + len) 0) as [Hn|Hn].
  - specialize (Hdiv Hn). lia.
  - destruct (H2 Hn) as [_ ->]. lia.
Qed.

Lemma walk_forwards_ok fuel : forall mon year day, 0 <= mon < 12 -> day < 28 * Z.of_nat fuel -> 0 <= day < 2 ^ 31 ->
  28 * Z.abs year + day <= 28 * (max_year - 1) ->
  exists mon' year' day', walk_forwards fuel mon year day = Ok (mon', year', day') /\
    same_day mon year day mon' year' day' /\ 0 <= day' < month_length (leap (year' + 1900)) mon' /\
    28 * Z.abs year' <= 28 * (max_year - 1).
Proof.
  induction fuel as [|fuel IH]; intros mon year day Hm Hf Hd Hy; [lia|]. cbn [walk_forwards].
  rewrite full_year_ok, ok_bind by lia. rewrite days_in_month_ok, ok_bind by done.
  pose proof (month_length_range (leap (year + 1900)) mon Hm) as Hl. set (len := month_length _ _) in *.
  destruct (Z.leb_spec len day) as [Hle|Hlt].
  2: { exists mon, year, day. unfold same_day. splits; first [done|lia]. }
  destruct (month_step mon Hm) as (_ & Hq). rewrite !int_ok, !ok_bind by lia.
  rewrite (carry_ok (mon + 1) year MonthsPerYear 1), ok_bind by (unfold MonthsPerYear, max_year in *; lia).
  unfold MonthsPerYear. set (mon1 := (mon + 1) mod 12). set (year1 := year + (mon + 1) / 12).
  assert (0 <= mon1 < 12) as Hm1 by (apply Z.mod_pos_bound; lia).
  assert (Z.abs year1 <= Z.abs year + 1) as Hy1 by (unfold year1; lia).
  destruct (IH mon1 year1 (day - len)) as (mon' & year' & day' & E & [Hm' Es] & Hd' & Hy');
    [done|lia|lia|lia|].
  exists mon', year', day'. splits; [done|split; [done|]|lia|lia|done].
  rewrite Es. replace day with (len + (day - len)) at 2 by lia. unfold len. rewrite next_month by done.
  by replace (year1 + 1900) with (year + 1900 + (mon + 1) / 12) by (unfold year1; lia).
Qed.

(** ** Summing years and months *)

Lemma seconds_in_year_eq y : seconds_in_year y = 86400 * (year_start (y + 1) - year_start y).
Proof. unfold seconds_in_year. rewrite days_in_year_eq, year_next. change SecondsPerDay with 86400. lia. Qed.

Lemma years_before_eq n : forall y r,
  years_before n y r = r - 86400 * (year_start (y + 1) - year_start (y + 1 - Z.of_nat n)).
Proof.
  induction n as [|n IH]; intros y r; [cbn; rewrite Z.sub_0_r; lia|]. cbn [years_before].
  rewrite IH, seconds_in_year_eq. replace (y - 1 + 1) with y by lia.
  replace (y + 1 - Z.of_nat (S n)) with (y - Z.of_nat n) by lia. lia.
Qed.

Lemma years_after_eq n : forall y r,
  years_after n y r = r + 86400 * (year_start (y + Z.of_nat n) - year_start y).
Proof.
  induction n as [|n IH]; intros y r; [cbn; rewrite Z.add_0_r; lia|]. cbn [years_after].
  rewrite IH, seconds_in_year_eq. replace (y + Z.of_nat (S n)) with (y + 1 + Z.of_nat n) by lia. lia.
Qed.

Lemma prior_months_ok n y : forall m r d, 0 <= m -> m + Z.of_nat n < 12 ->
  prior_months n m y r d =
    Ok (r + 86400 * (month_start (leap y) (m + Z.of_nat n) - month_start (leap y) m),
        d + (month_start (leap y) (m + Z.of_nat n) - month_start (leap y) m)).
Proof.
  induction n as [|n IH]; intros m r d Hm Hn.
  { cbn [prior_months]. rewrite Z.add_0_r. do 2 f_equal; lia. }
  cbn [prior_months]. rewrite seconds_in_month_ok, days_in_month_ok, !ok_bind by lia.
  rewrite IH by lia. replace (m + Z.of_nat (S n)) with (m + 1 + Z.of_nat n) by lia.
  rewrite month_next by lia. do 2 f_equal; lia.
Qed.

(** ** The day of the week *)

(** What [day_of_the_week] adds to the day of the month. *)
Definition week_code (m y : Z) : Z :=
  Z.rem (Z.rem y 100 + Z.quot (Z.rem y 100) 4) 7 + nth (Z.to_nat m) MonthCodes 0
  + nth (Z.to_nat (Z.quot y 100 - 17)) CenturyCodes 0 + (if year_is_leapyear y && (m <? 2) then -1 else 0).

Lemma nth_lookup_Z (l : list Z) i : 0 <= i < Z.of_nat (length l) -> l !! Z.to_nat i = Some (nth (Z.to_nat i) l 0).
Proof.
  intros Hi. rewrite nth_lookup. destruct (lookup_lt_is_Some_2 l (Z.to_nat i)) as [x ->]; [lia|done].
Qed.

Lemma day_of_the_week_total d m y : 0 <= m < 12 ->
  day_of_the_week d m y = Ok (if (Z.quot y 100 <? 17) || (23 <? Z.quot y 100) then 0
                              else Z.rem (week_code m y + d) 7).
Proof.
  intros Hm. unfold day_of_the_week. rewrite (nth_lookup_Z MonthCodes) by (cbn; lia). cbn [deref]. rewrite ok_bind.
  destruct ((_ <? _) || _) eqn:E; [done|]. apply orb_false_iff in E as [H1%Z.ltb_ge H2%Z.ltb_ge].
  rewrite (nth_lookup_Z CenturyCodes) by (cbn; lia). cbn [deref]. rewrite ok_bind. unfold week_code.
  do 2 f_equal. lia.
Qed.

Definition week_code_right (m y : Z) : bool :=
  (0 <=? week_code m y + 1) && ((week_code m y + 1) mod 7 =? (day_number y m 0 + 4) mod 7).

Lemma week_codes_right : forallb (fun y => forallb (fun m => week_code_right (Z.of_nat m) (Z.of_nat y)) (seq 0 12))
  (seq 1700 700) = true.
Proof. by vm_compute. Qed.

(** The epoch was a Thursday. *)
Definition weekday (n : Z) : Z := (n + 4) mod 7.

Lemma day_of_the_week_right d m y : 1 <= d -> 0 <= m < 12 -> 1700 <= y < 2400 ->
  day_of_the_week d m y = Ok (weekday (day_number y m (d - 1))).
Proof.
  intros Hd Hm Hy. rewrite day_of_the_week_total by done.
  pose proof (Z.quot_div_nonneg y 100 ltac:(lia) ltac:(lia)) as Eq.
  assert (17 <= Z.quot y 100 <= 23) as Hc by (rewrite Eq; Z.div_mod_to_equations; lia).
  destruct (Z.ltb_spec (Z.quot y 100) 17), (Z.ltb_spec 23 (Z.quot y 100)); try lia. cbn [orb].
  pose proof week_codes_right as Hw. rewrite forallb_forall in Hw. specialize (Hw (Z.to_nat y)).
  rewrite forallb_forall in Hw. specialize (Hw ltac:(apply in_seq; lia) (Z.to_nat m) ltac:(apply in_seq; lia)).
  rewrite !Z2Nat.id in Hw by lia. apply andb_true_iff in Hw as [H1%Z.leb_le H2%Z.eqb_eq].
  rewrite Z.rem_mod_nonneg by lia. f_equal. unfold weekday.
  replace (week_code m y + d) with (week_code m y + 1 + (d - 1)) by lia.
  rewrite Zplus_mod, H2, <- Zplus_mod. f_equal. unfold day_number. lia.
Qed.

(** ** [timegm] *)

Definition field_ok (z : Z) : Prop := Z.abs z <= 2 ^ 30.

Record fields_ok (t : tm) : Prop := {
  fo_sec : field_ok (tm_sec t); fo_min : field_ok (tm_min t); fo_hour : field_ok (tm_hour t);
  fo_mday : field_ok (tm_mday t); fo_mon : field_ok (tm_mon t); fo_year : field_ok (tm_year t);
}.

(** A date of the calendar and a time of the day. *)
Record normal (t : tm) : Prop := {
  no_sec : 0 <= tm_sec t < 60; no_min : 0 <= tm_min t < 60; no_hour : 0 <= tm_hour t < 24;
  no_mday : 1 <= tm_mday t <= month_length (leap (tm_year t + 1900)) (tm_mon t); no_mon : 0 <= tm_mon t < 12;
}.

(** The fields that are computed from the date. *)
Definition derived (t : tm) : Prop :=
  let y := tm_year t + 1900 in
  tm_yday t = month_start (leap y) (tm_mon t) + tm_mday t - 1 /\
  (1700 <= y < 2400 -> tm_wday t = weekday (day_number y (tm_mon t) (tm_mday t - 1))).

Lemma month_fuel_enough d : Z.abs d < 28 * Z.of_nat (month_fuel d) - 28 + 28 /\ Z.abs d + 28 < 28 * Z.of_nat (month_fuel d).
Proof.
  unfold month_fuel. pose proof (Z.div_pos (Z.abs d) 28 ltac:(lia) ltac:(lia)).
  rewrite Z2Nat.id by lia. pose proof (Z.mod_pos_bound (Z.abs d) 28 ltac:(lia)).
  pose proof (Z.div_mod (Z.abs d) 28 ltac:(lia)). lia.
Qed.

Lemma day_number_add y m d k : day_number y m (d + k) = day_number y m d + k.
Proof. unfold day_number. lia. Qed.

(** The sums over years and months give the number of the day. *)
Lemma sums_ok mon y day : 0 <= mon < 12 ->
  prior_months (Z.to_nat mon) 0 y
    (if y <? UnixEpochYear then years_before (Z.to_nat (UnixEpochYear - y)) (UnixEpochYear - 1) 0
     else if UnixEpochYear <? y then years_after (Z.to_nat (y - UnixEpochYear)) UnixEpochYear 0 else 0) day =
  Ok (86400 * day_number y mon 0, day + month_start (leap y) mon).
Proof.
  intros Hm. rewrite prior_months_ok by lia. rewrite Z2Nat.id, Z.add_0_l by lia.
  assert (month_start (leap y) 0 = 0) as -> by by destruct (leap y). unfold UnixEpochYear.
  destruct (Z.ltb_spec y 1970); [|destruct (Z.ltb_spec 1970 y)].
  - rewrite years_before_eq, Z2Nat.id by lia. replace (1970 - 1 + 1 - (1970 - y)) with y by lia.
    change (1970 - 1 + 1) with 1970. unfold day_number, UnixEpochYear. do 2 f_equal; lia.
  - rewrite years_after_eq, Z2Nat.id by lia. replace (1970 + (y - 1970)) with y by lia.
    unfold day_number, UnixEpochYear. do 2 f_equal; lia.
  - replace y with 1970 by lia. unfold day_number, UnixEpochYear. do 2 f_equal; lia.
Qed.

(** From normalised fields to a date. *)
Lemma date_walk_ok mon year day : 0 <= mon < 12 -> Z.abs year <= 1200000000 -> Z.abs day <= 1200000000 ->
  exists mon1 year1 day1 mon' year' day',
    walk_backwards (month_fuel day) mon year day = Ok (mon1, year1, day1) /\
    walk_forwards (month_fuel day1) mon1 year1 day1 = Ok (mon', year', day') /\
    same_day mon year day mon' year' day' /\ 0 <= day' < month_length (leap (year' + 1900)) mon' /\
    Z.abs year' < max_year.
Proof.
  intros Hm Hy Hd. destruct (month_fuel_enough day) as [_ Hf].
  destruct (walk_backwards_ok (month_fuel day) mon year day) as (mon1 & year1 & day1 & E & [Hm1 Es] & H0 & H1 & H2 & Hy1);
    [done|lia|lia|unfold max_year; lia|lia|].
  pose proof (Z.div_le_upper_bound (Z.max 0 (- day)) 28 50000000 ltac:(lia) ltac:(lia)).
  destruct (month_fuel_enough day1) as [_ Hf1].
  assert (day1 <= 1200000000) as Hd1 by (destruct (Z.lt_ge_cases day 0); lia).
  destruct (walk_forwards_ok (month_fuel day1) mon1 year1 day1) as (mon2 & year2 & day2 & E2 & [Hm2 Es2] & Hd2 & Hy2);
    [done|lia|lia|unfold max_year; lia|].
  exists mon1, year1, day1, mon2, year2, day2. splits; [done|done|split; [done|congruence]|lia|lia|].
  unfold max_year in *. lia.
Qed.

Lemma timegm_ok t : fields_ok t ->
  exists t', timegm t = Ok (instant t, t') /\ normal t' /\ derived t' /\ instant t' = instant t /\
    tm_isdst t' = tm_isdst t.
Proof.
  intros [Hs Hmi Hh Hd Hmo Hy]. unfold field_ok in *. unfold timegm.
  unfold SecondsPerMinute, MinutesPerHour, HoursPerDay, MonthsPerYear.
  set (min1 := tm_min t + tm_sec t / 60). set (hour1 := tm_hour t + min1 / 60).
  set (mday1 := tm_mday t + hour1 / 24). set (mon1 := tm_mon t mod 12). set (year1 := tm_year t + tm_mon t / 12).
  destruct (carry_range (tm_sec t) 60 18000000 ltac:(lia) ltac:(lia)) as [R1 _].
  rewrite (carry_ok (tm_sec t) (tm_min t) 60 18000000), ok_bind by lia. fold min1. cbv beta iota.
  destruct (carry_range min1 60 19000000 ltac:(lia) ltac:(unfold min1; lia)) as [R2 _].
  rewrite (carry_ok min1 (tm_hour t) 60 19000000), ok_bind by (unfold min1; lia). fold hour1. cbv beta iota.
  destruct (carry_range hour1 24 46000000 ltac:(lia) ltac:(unfold hour1; lia)) as [R3 _].
  rewrite (carry_ok hour1 (tm_mday t) 24 46000000), ok_bind by (unfold hour1; lia). fold mday1. cbv beta iota.
  destruct (carry_range (tm_mon t) 12 90000000 ltac:(lia) ltac:(lia)) as [R4 _].
  rewrite (carry_ok (tm_mon t) (tm_year t) 12 90000000), ok_bind by lia. fold mon1 year1. cbv beta iota.
  rewrite int_ok, ok_bind by (unfold mday1; lia).
  assert (0 <= mon1 < 12) as Hm1 by (apply Z.mod_pos_bound; lia).
  destruct (date_walk_ok mon1 year1 (mday1 - 1)) 
    as (mon2 & year2 & day2 & mon & year & day & E1 & E2 & [Hm Es] & Hday & Hyear);
    [done|unfold year1; lia|unfold mday1; lia|].
  rewrite E1, ok_bind. cbv beta iota. rewrite E2, ok_bind. cbv beta iota.
  rewrite full_year_ok, ok_bind by lia. rewrite sums_ok, ok_bind by done. cbv beta iota.
  assert (86400 * day_number (year + 1900) mon day + 3600 * (hour1 mod 24) + 60 * (min1 mod 60)
    + tm_sec t mod 60 = instant t) as Einst.
  { rewrite Es. unfold instant, ZeroYear. fold mon1.
    replace (tm_year t + 1900 + tm_mon t / 12) with (year1 + 1900) by (unfold year1; lia).
    replace (mday1 - 1) with (tm_mday t - 1 + hour1 / 24) by (unfold mday1; lia). rewrite day_number_add.
    pose proof (Z.div_mod hour1 24 ltac:(lia)). pose proof (Z.div_mod min1 60 ltac:(lia)).
    pose proof (Z.div_mod (tm_sec t) 60 ltac:(lia)). unfold hour1, min1 in *. lia. }
  pose proof (day_number_add (year + 1900) mon 0 day) as Eday. rewrite Z.add_0_l in Eday.
  pose proof (Z.mod_pos_bound (tm_sec t) 60 ltac:(lia)). pose proof (Z.mod_pos_bound min1 60 ltac:(lia)).
  pose proof (Z.mod_pos_bound hour1 24 ltac:(lia)).
  assert (exists wday, day_of_the_week (day + 1) mon (year + 1900) = Ok wday /\
    (1700 <= year + 1900 < 2400 -> wday = weekday (day_number (year + 1900) mon day))) as (wday & Ew & Hw).
  { eexists. split; [by apply day_of_the_week_total|]. intros Hr.
    pose proof (day_of_the_week_right (day + 1) mon (year + 1900) ltac:(lia) Hm Hr) as Ew.
    rewrite day_of_the_week_total in Ew by done. injection Ew as ->. by rewrite Z.add_simpl_r. }
  rewrite Ew, ok_bind. eexists. split; [|split; [|split; [|split]]].
  - do 2 f_equal. unfold SecondsPerDay, SecondsPerHour, HoursPerDay, MinutesPerHour, SecondsPerMinute. lia.
  - split; cbn; lia.
  - split; cbn; [lia|]. rewrite Z.add_simpl_r. done.
  - unfold instant, ZeroYear in *. cbn [tm_sec tm_min tm_hour tm_mday tm_mon tm_year] in *.
    rewrite Z.div_small, Z.mod_small, Z.add_0_r, Z.add_simpl_r by lia. lia.
  - done.
Qed.

(** C38.  [timegm] is exact: for all fields up to 2^30 in size, in or out of their ranges, it
    returns without overflow the number of seconds between the epoch and the instant that the
    fields denote, by the rules of the Gregorian calendar, and leaves the date and the time of
    that instant in range in the structure, with the day of the year and, for the years 1700 to
    2399, the day of the week. *)
Theorem timegm_exact t : fields_ok t ->
  exists t', timegm t = Ok (instant t, t') /\ normal t' /\ derived t' /\ instant t' = instant t /\
    tm_isdst t' = tm_isdst t.
Proof. apply timegm_ok. Qed.

Definition demo_date : tm := mkTm (-5) 100 (-1000) 400 (-7) 120 0 0 0.

Lemma timegm_exact_witness : exists t', timegm demo_date = Ok (1590226795, t') /\ normal t'.
Proof.
  destruct (timegm_exact demo_date) as (t' & E & Hn & _).
  - split; unfold field_ok; cbn; lia.
  - exists t'. split; [exact E|exact Hn].
Defined.

(** ** [gmtime_r] *)

Definition year_seconds : Z := 365 * 86400.

Lemma gm_forwards_ok fuel : forall time year, 0 <= time < year_seconds * Z.of_nat fuel ->
  0 <= year -> year_seconds * year + time < year_seconds * (2 ^ 31 - 1) ->
  exists time' year', gm_forwards fuel time year = Ok (time', year') /\
    0 <= time' <= 86400 * year_length year' /\ year <= year' /\ year_seconds * (year' - year) <= time /\
    86400 * year_start year' + time' = 86400 * year_start year + time.
Proof.
  unfold year_seconds. induction fuel as [|fuel IH]; intros time year Ht Hy Hb; [lia|]. cbn [gm_forwards].
  rewrite seconds_in_year_eq, year_next. pose proof (year_length_range year) as Hl.
  destruct (Z.ltb_spec (86400 * (year_start year + year_length year - year_start year)) time) as [Hlt|Hge].
  2: { exists time, year. splits; try lia. done. }
  rewrite int_ok, ok_bind by lia.
  destruct (IH (time - 86400 * (year_start year + year_length year - year_start year)) (year + 1))
    as (time' & year' & E & Hr & Hy' & Hyt & Es); [lia..|].
  exists time', year'. splits; [done|lia|lia|lia|lia|]. rewrite Es, year_next. lia.
Qed.

Lemma gm_months_ok fuel y : forall time mon yday, 0 <= mon < 12 -> 12 - mon <= Z.of_nat fuel ->
  0 <= time <= 86400 * (year_length y - month_start (leap y) mon) ->
  exists time' mon' yday', gm_months fuel time mon yday y = Ok (time', mon', yday') /\
    0 <= mon' < 12 /\ 0 <= time' <= 86400 * month_length (leap y) mon' /\
    86400 * month_start (leap y) mon' + time' = 86400 * month_start (leap y) mon + time /\
    yday' - month_start (leap y) mon' = yday - month_start (leap y) mon.
Proof.
  induction fuel as [|fuel IH]; intros time mon yday Hm Hf Ht; [lia|]. cbn [gm_months].
  rewrite seconds_in_month_ok, ok_bind by done. destruct (Z.ltb_spec (month_length (leap y) mon * 86400) time) as [Hlt|].
  2: { exists time, mon, yday. splits; first [done|lia]. }
  rewrite days_in_month_ok, ok_bind by done.
  destruct (Z.eq_dec mon 11) as [->|Hne].
  { pose proof (month_last (leap y)). unfold year_length in Ht. lia. }
  pose proof (month_next (leap y) mon ltac:(lia)) as Hn. pose proof (month_length_range (leap y) mon Hm).
  destruct (IH (time - month_length (leap y) mon * 86400) (mon + 1) (yday + month_length (leap y) mon))
    as (time' & mon' & yday' & E & Hm' & Ht' & Es & Ed); [lia..|].
  exists time', mon', yday'. splits; first [done|lia].
Qed.

Lemma year_fuel_enough t : 0 <= t -> t < year_seconds * Z.of_nat (year_fuel t) /\ (2 <= year_fuel t)%nat.
Proof.
  intros Ht. unfold year_fuel. change (365 * SecondsPerDay) with year_seconds.
  assert (0 < year_seconds) by (unfold year_seconds; lia). rewrite Z.abs_eq by done.
  pose proof (Z.div_pos t year_seconds ltac:(lia) ltac:(lia)). pose proof (Z.mod_pos_bound t year_seconds ltac:(lia)).
  pose proof (Z.div_mod t year_seconds ltac:(lia)). rewrite Z2Nat.id by lia. lia.
Qed.

Lemma clock_ok x : 0 <= x ->
  let x1 := Z.rem x 86400 in let x2 := Z.rem x1 3600 in
  Z.quot x 86400 = x / 86400 /\ 0 <= Z.quot x1 3600 < 24 /\ 0 <= Z.quot x2 60 < 60 /\ 0 <= Z.rem x2 60 < 60 /\
  x = 86400 * Z.quot x 86400 + 3600 * Z.quot x1 3600 + 60 * Z.quot x2 60 + Z.rem x2 60.
Proof.
  intros Hx. split; [by apply Z.quot_div_nonneg; lia|].
  pose proof (Z.quot_rem' x 86400). pose proof (Z.rem_bound_pos x 86400 Hx ltac:(lia)).
  pose proof (Z.quot_rem' (Z.rem x 86400) 3600). pose proof (Z.rem_bound_pos (Z.rem x 86400) 3600 ltac:(lia) ltac:(lia)).
  set (x2 := Z.rem (Z.rem x 86400) 3600) in *.
  pose proof (Z.quot_rem' x2 60). pose proof (Z.rem_bound_pos x2 60 ltac:(lia) ltac:(lia)). lia.
Qed.

(** A date whose day of the month may be one too large, at midnight. *)
Definition nearly_normal (t : tm) : Prop :=
  let last := month_length (leap (tm_year t + 1900)) (tm_mon t) in
  0 <= tm_sec t < 60 /\ 0 <= tm_min t < 60 /\ 0 <= tm_hour t < 24 /\ 0 <= tm_mon t < 12 /\
  1 <= tm_mday t <= last + 1 /\
  (tm_mday t = last + 1 -> tm_hour t = 0 /\ tm_min t = 0 /\ tm_sec t = 0).

Lemma gmtime_ok time r : 0 <= time < 2 ^ 54 ->
  exists t t', gmtime_r time r = Ok t /\ instant t = time /\ nearly_normal t /\
    timegm t = Ok (time, t') /\ normal t' /\ instant t' = time /\
    tm_yday t = month_start (leap (tm_year t + 1900)) (tm_mon t) + tm_mday t /\
    (1700 <= tm_year t + 1900 < 2400 ->
       tm_wday t = weekday (day_number (tm_year t + 1900) (tm_mon t) (tm_mday t - 1))).
Proof.
  intros Ht. unfold gmtime_r. destruct (year_fuel_enough time ltac:(lia)) as [Hf H2].
  assert (gm_backwards (year_fuel time) time UnixEpochYear = Ok (time, 1970)) as Eb.
  { destruct (year_fuel time) as [|n]; [lia|]. cbn [gm_backwards]. by destruct (Z.ltb_spec time 0); [lia|]. }
  rewrite Eb, ok_bind. cbv beta iota.
  destruct (gm_forwards_ok (year_fuel time) time 1970) as (time1 & year & E1 & Ht1 & Hy & Hyt & Es1);
    [lia|lia|unfold year_seconds; lia|].
  rewrite E1, ok_bind. cbv beta iota.
  destruct (gm_months_ok 13 year time1 0 0) as (time2 & mon & yday & E2 & Hm & Ht2 & Es2 & Ed); [lia|cbn; lia| |].
  { assert (month_start (leap year) 0 = 0) as -> by by destruct (leap year). lia. }
  rewrite E2, ok_bind. cbv beta iota. assert (month_start (leap year) 0 = 0) as E0 by by destruct (leap year).
  rewrite E0 in *.
  assert (0 <= time2 / 86400 <= month_length (leap year) mon) as Hq.
  { split; [apply Z.div_pos; lia|]. apply Z.div_le_upper_bound; lia. }
  change SecondsPerDay with 86400. change SecondsPerHour with 3600. change SecondsPerMinute with 60.
  destruct (clock_ok time2 ltac:(lia)) as (Eq & Hh & Hmi & Hs & Hx).
  set (h := Z.quot (Z.rem time2 86400) 3600) in *. set (mi := Z.quot (Z.rem (Z.rem time2 86400) 3600) 60) in *.
  set (s := Z.rem (Z.rem (Z.rem time2 86400) 3600) 60) in *. set (d := Z.quot time2 86400) in *.
  rewrite <- Eq in Hq. assert (day_number year mon d * 86400 + 3600 * h + 60 * mi + s = time) as Hi.
  { unfold day_number, UnixEpochYear. lia. }
  rewrite day_of_the_week_total, ok_bind by done. unfold year_seconds in Hyt.
  rewrite int_ok, ok_bind by (unfold ZeroYear; lia). unfold ZeroYear.
  match goal with |- exists t t', Ok ?u = Ok t /\ _ => set (u0 := u) end.
  assert (instant u0 = time) as Hu.
  { unfold instant, ZeroYear, u0. cbn [tm_sec tm_min tm_hour tm_mday tm_mon tm_year].
    rewrite Z.div_small, Z.mod_small by lia. rewrite Z.sub_add, Z.add_0_r, Z.add_simpl_l. lia. }
  assert (fields_ok u0) as Hok.
  { pose proof (month_length_range (leap year) mon Hm). split; unfold field_ok; cbn; lia. }
  destruct (timegm_ok u0 Hok) as (t' & Et & Hn & _ & Hi' & _). rewrite Hu in Et, Hi'.
  exists u0, t'. splits; try done.
  - unfold nearly_normal. cbn [tm_sec tm_min tm_hour tm_mday tm_mon tm_year u0].
    rewrite Z.sub_add. splits; lia.
  - unfold u0; cbn [tm_sec tm_min tm_hour tm_mday tm_mon tm_year tm_yday]. rewrite Z.sub_add. lia.
  - unfold u0; cbn [tm_sec tm_min tm_hour tm_mday tm_mon tm_year tm_wday]. rewrite Z.sub_add. intros Hr.
    pose proof (day_of_the_week_right (1 + d) mon year ltac:(lia) Hm Hr) as Ew.
    rewrite day_of_the_week_total in Ew by done. by injection Ew as ->.
Qed.

(** The first second of a month. *)
Definition month_begins (time : Z) : Prop := exists y m, 0 <= m < 12 /\ time = 86400 * day_number y m 0.

Lemma instant_day t : 0 <= tm_mon t < 12 -> 0 <= tm_hour t < 24 -> 0 <= tm_min t < 60 -> 0 <= tm_sec t < 60 ->
  instant t / 86400 = day_number (tm_year t + 1900) (tm_mon t) (tm_mday t - 1).
Proof.
  intros Hm Hh Hi Hs. unfold instant, ZeroYear. rewrite (Z.div_small (tm_mon t)), (Z.mod_small (tm_mon t)), Z.add_0_r by lia.
  symmetry. apply Z.div_unique with (r := 3600 * tm_hour t + 60 * tm_min t + tm_sec t); lia.
Qed.

(** Only at the first second of a month is the day of the month one too large. *)
Lemma nearly_normal_normal t : nearly_normal t -> ~ month_begins (instant t) -> normal t.
Proof.
  intros (Hs & Hi & Hh & Hm & Hd & Hlast) Hno.
  destruct (Z.eq_dec (tm_mday t) (month_length (leap (tm_year t + 1900)) (tm_mon t) + 1)) as [E|Hne].
  2: { split; lia. }
  exfalso. apply Hno. destruct (Hlast E) as (Eh & Ei & Es).
  exists (tm_year t + 1900 + (tm_mon t + 1) / 12), ((tm_mon t + 1) mod 12).
  split; [by apply Z.mod_pos_bound|]. rewrite <- (next_month _ _ 0) by done.
  unfold instant, ZeroYear. rewrite (Z.div_small (tm_mon t)), (Z.mod_small (tm_mon t)), E, Eh, Ei, Es by lia.
  rewrite !Z.add_0_r, Z.add_simpl_r. lia.
Qed.

(** C40.  For every time from the epoch on that 2^54 seconds can express, [timegm] gives back the
    time from what [gmtime_r] makes of it, without overflow, and leaves a date in range.  Unless
    the time is the first second of a month, the second, minute, hour, day, month and year
    that [gmtime_r] returns are themselves in the ranges of [time.h] and denote this time; its day
    of the week is right for the years 1700 to 2399.  (At the first second of a month the code
    returns the day after the last of the month before, see [gmtime_day_32], and it counts
    [tm_yday] from 1, see [gmtime_yday_from_one]; [time.h] says otherwise.) *)
Theorem gmtime_round_trip time r : 0 <= time < 2 ^ 54 ->
  exists t t', gmtime_r time r = Ok t /\ timegm t = Ok (time, t') /\ normal t' /\ instant t' = time /\
    (~ month_begins time -> normal t /\ instant t = time) /\
    (1700 <= tm_year t + 1900 < 2400 -> tm_wday t = weekday (time / 86400)).
Proof.
  intros Ht. destruct (gmtime_ok time r Ht) as (t & t' & E & Ei & Hn & E' & Hn' & Ei' & _ & Hw).
  exists t, t'. splits; [done..| |].
  - intros Hno. split; [|done]. apply nearly_normal_normal; [done|by rewrite Ei].
  - intros Hy. rewrite Hw, <- Ei by done. by rewrite instant_day by apply Hn.
Qed.

Lemma gmtime_round_trip_witness : exists t t',
  gmtime_r 1590226795 demo_date = Ok t /\ timegm t = Ok (1590226795, t') /\
  t = mkTm 55 39 9 23 4 120 6 144 0.
Proof.
  destruct (gmtime_round_trip 1590226795 demo_date) as (t & t' & E & E' & _); [lia|].
  exists t, t'. splits; [exact E|exact E'|]. vm_compute in E. by injection E as <-.
Defined.

(** [tm_yday] counts from 1, one more than [time.h] says. *)
Lemma gmtime_yday_from_one time r t : 0 <= time < 2 ^ 54 -> gmtime_r time r = Ok t ->
  tm_yday t = month_start (leap (tm_year t + 1900)) (tm_mon t) + tm_mday t.
Proof. intros Ht E. destruct (gmtime_ok time r Ht) as (u & _ & E' & _ & _ & _ & _ & _ & Hy & _). congruence. Qed.

(** The first second of February 1970 becomes the 32nd of January.  Before the epoch the loop adds
    the length of the year after the one it goes back to, so that the days of a leap year but its
    first come out one day early: 1 February 1968 becomes 31 January. *)
Example gmtime_day_32 : gmtime_r (31 * 86400) demo_date = Ok (mkTm 0 0 0 32 0 70 0 32 0).
Proof. by vm_compute. Qed.

Example gmtime_before_epoch : exists t t', gmtime_r (- 700 * 86400) demo_date = Ok t /\ timegm t = Ok (- 701 * 86400, t').
Proof. eexists _, _. split; [by vm_compute|by vm_compute]. Qed.
