(* ===== verification/Arith64.v ===== *)
(** * 64-bit arithmetic

    [lib/crt/arith64.c]: the calls that the compiler makes for 64-bit arithmetic on a 32-bit
    processor.  Words are [Z] in their range; signed arithmetic that overflows, and division by
    zero, is [EUndefined].  The compiler's built-in [clz] is [Prelude.clz]. *)

From S2P Require Import Prelude.

(** ** The code *)

Definition arith64_hi (n : Z) : Z := u32 (Z.shiftr (u64 n) 32).
Definition arith64_lo (n : Z) : Z := u32 n.

(** The [arith64_word] with two halves. *)
Definition arith64_word (hi lo : Z) : Z := Z.lor (Z.shiftl (u32 hi) 32) (u32 lo).

(** A signed 64-bit result. *)
Definition int64 (z : Z) : outcome Z := if (- 2 ^ 63 <=? z) && (z <? 2 ^ 63) then Ok z else Err EUndefined.

(** [arith64_neg(a, b)], on a signed [a] and on an unsigned one. *)
Definition arith64_neg (a b : Z) : outcome Z :=
  int64 (Z.lxor a (b2z (0 <=? b) - 1) + b2z (b <? 0)).
Definition arith64_neg_unsigned (a b : Z) : Z :=
  u64 (Z.lxor a (u64 (b2z (0 <=? b) - 1)) + b2z (b <? 0)).

Definition arith64_abs (a : Z) : outcome Z := arith64_neg a a.

Definition __absvdi2 (a : Z) : outcome Z := arith64_abs a.

Definition __ashldi3 (a b : Z) : Z :=
  let hi := arith64_hi a in
  let lo := arith64_lo a in
  let b := Z.land b 63 in
  s64 (if 32 <=? b then arith64_word (Z.shiftl lo (b - 32)) 0
       else if negb (b =? 0) then arith64_word (Z.lor (Z.shiftr lo (32 - b)) (u32 (Z.shiftl hi b))) (Z.shiftl lo b)
       else arith64_word hi lo).

Definition __ashrdi3 (a b : Z) : Z :=
  let hi := arith64_hi a in
  let lo := arith64_lo a in
  let b := Z.land b 63 in
  s64 (if 32 <=? b then arith64_word (Z.shiftr (s32 hi) 31) (Z.shiftr (s32 hi) (b - 32))
       else if negb (b =? 0) then arith64_word (Z.shiftr (s32 hi) b) (Z.lor (u32 (Z.shiftl hi (32 - b))) (Z.shiftr lo b))
       else arith64_word hi lo).

Definition __lshrdi3 (a b : Z) : Z :=
  let hi := arith64_hi a in
  let lo := arith64_lo a in
  let b := Z.land b 63 in
  if 32 <=? b then arith64_word 0 (Z.shiftr hi (b - 32))
  else if negb (b =? 0) then arith64_word (Z.shiftr hi b) (Z.lor (u32 (Z.shiftl hi (32 - b))) (Z.shiftr lo b))
  else arith64_word hi lo.

(** The long division: [bits] more steps. *)
Fixpoint divmod_loop (bits : nat) (rem a wrap b : Z) : Z * Z * Z :=
  match bits with
  | O => (rem, a, wrap)
  | S bits =>
      let rem := Z.lor (u64 (Z.shiftl rem 1)) (Z.shiftr a 63) in
      let a := Z.lor (u64 (Z.shiftl a 1)) (Z.land wrap 1) in
      let wrap := u64 (Z.shiftr (s64 (b - rem - 1)) 63) in
      let rem := u64 (rem - Z.land b wrap) in
      divmod_loop bits rem a wrap b
  end.

(** A shift by a number of bits outside of 0 to 63 is undefined. *)
Definition shift64 (shift : Z -> Z -> Z) (a n : Z) : outcome Z :=
  if (0 <=? n) && (n <? 64) then Ok (u64 (shift a n)) else Err EUndefined.

(** The quotient and the remainder. *)
Definition __divmoddi4 (a b : Z) : outcome (Z * Z) :=
  if a <? b then Ok (0, a)
  else if (arith64_hi b =? 0) && (b =? 0) then Err EUndefined
  else if (arith64_hi b =? 0) && (b =? 1) then Ok (a, 0)
  else if (arith64_hi b =? 0) && (arith64_hi a =? 0)
  then Ok (arith64_lo a / arith64_lo b, arith64_lo a mod arith64_lo b)
  else
    let bits := u8 (clz 64 b - clz 64 a + 1) in
    rem ← shift64 Z.shiftr a bits;
    a ← shift64 Z.shiftl a (64 - bits);
    let '(rem, a, wrap) := divmod_loop (Z.to_nat bits) rem a 0 b in
    Ok (Z.lor (u64 (Z.shiftl a 1)) (Z.land wrap 1), rem).

Definition __divdi3 (a b : Z) : outcome Z :=
  a' ← arith64_abs a;
  b' ← arith64_abs b;
  '(q, _) ← __divmoddi4 a' b';
  Ok (s64 (arith64_neg_unsigned q (Z.lxor a b))).

Definition __ffsdi2 (a : Z) : Z := if a =? 0 then 0 else ctz 64 a + 1.

Definition __moddi3 (a b : Z) : outcome Z :=
  a' ← arith64_abs a;
  b' ← arith64_abs b;
  '(_, r) ← __divmoddi4 a' b';
  Ok (s64 (arith64_neg_unsigned r a)).

Definition __udivdi3 (a b : Z) : outcome Z := '(q, _) ← __divmoddi4 a b; Ok q.
Definition __umoddi3 (a b : Z) : outcome Z := '(_, r) ← __divmoddi4 a b; Ok r.

Definition __multi3 (a b : Z) : outcome Z := int64 (a * b).

Definition __clzdi2 (a : Z) : Z := clz 64 a.
Definition __clzsi2 (a : Z) : Z := clz 32 a.
Definition __ctzdi2 (a : Z) : Z := ctz 64 a.
Definition __ctzsi2 (a : Z) : Z := ctz 32 a.

(** ** Division *)

Lemma lor_bit x y : 0 <= y <= 1 -> Z.lor (2 * x) y = 2 * x + y.
Proof.
  intros Hy. symmetry. rewrite Z.add_nocarry_lxor; [|].
  - apply Z.bits_inj'. intros i Hi. rewrite Z.lxor_spec, Z.lor_spec.
    destruct (Z.eq_dec i 0) as [->|]; [by rewrite Z.testbit_even_0|].
    assert (Z.testbit y i = false) as ->; [|by rewrite xorb_false_r, orb_false_r].
    apply (testbit_high 1); lia.
  - apply Z.bits_inj'. intros i Hi. rewrite Z.land_spec, Z.bits_0.
    destruct (Z.eq_dec i 0) as [->|]; [by rewrite Z.testbit_even_0|].
    assert (Z.testbit y i = false) as ->; [|by rewrite andb_false_r]. apply (testbit_high 1); lia.
Qed.

Lemma u64_bit x y : 0 <= y <= 1 -> Z.lor (u64 (Z.shiftl x 1)) y = u64 (2 * x + y).
Proof.
  intros Hy. rewrite Z.shiftl_mul_pow2 by lia. change (2 ^ 1) with 2. rewrite Z.mul_comm.
  assert (u64 (2 * x) = 2 * (x mod 2 ^ 63)) as ->.
  { unfold u64, wrap. change (2 ^ 64) with (2 * 2 ^ 63). by rewrite Z.mul_mod_distr_l by lia. }
  rewrite lor_bit by done. unfold u64, wrap. change (2 ^ 64) with (2 * 2 ^ 63).
  pose proof (Z.div_mod x (2 ^ 63) ltac:(lia)). pose proof (Z.mod_pos_bound x (2 ^ 63) ltac:(lia)).
  apply (Z.mod_unique _ _ (x / 2 ^ 63)); lia.
Qed.

(** The word of the comparison: all bits if [b <= rem]. *)
Lemma wrap_ok b rem : 0 <= rem < 2 ^ 64 -> rem < 2 * b -> b < 2 ^ 64 -> b <= 2 ^ 63 \/ b <= rem ->
  u64 (Z.shiftr (s64 (b - rem - 1)) 63) = if b <=? rem then 2 ^ 64 - 1 else 0.
Proof.
  intros Hr Hrb Hb Hc. destruct (Z.leb_spec b rem).
  - assert (s64 (b - rem - 1) = b - rem - 1) as ->.
    { unfold s64, signed, wrap. rewrite <- (Z.mod_unique (b - rem - 1) (2 ^ 64) (-1) (2 ^ 64 + (b - rem - 1))) by lia.
      change (64 - 1) with 63. rewrite (proj2 (Z.ltb_ge _ _)) by lia. lia. }
    rewrite Z.shiftr_div_pow2 by lia. by rewrite <- (Z.div_unique (b - rem - 1) (2 ^ 63) (-1) (2 ^ 63 + (b - rem - 1))) by lia.
  - unfold s64, signed, wrap. rewrite Z.mod_small by lia. change (64 - 1) with 63.
    rewrite (proj2 (Z.ltb_lt _ _)) by lia. rewrite Z.shiftr_div_pow2, Z.div_small by lia. done.
Qed.

(** With [n] steps to go the top bits of the numerator [N] are divided: the quotient has the bits
    [q] and the last bit, that of [wrap]; the rest of the numerator is in the high bits of [a]. *)
Record dividing (N b : Z) (n : nat) (rem a wrap q : Z) : Prop := {
  di_a : a = N mod 2 ^ Z.of_nat n * 2 ^ (64 - Z.of_nat n) + q;
  di_q : 0 <= q; di_bits : 2 * q + Z.land wrap 1 < 2 ^ (64 - Z.of_nat n);
  di_rem : 0 <= rem < b;
  di_div : (2 * q + Z.land wrap 1) * b + rem = N / 2 ^ Z.of_nat n;
}.

Lemma land_one z : Z.land z 1 = z mod 2.
Proof. exact (Z.land_ones z 1 ltac:(done)). Qed.

(** One step, on a numerator whose top bit in [a] is the next one. *)
Lemma divmod_step N b n rem a wr q :
  0 <= N < 2 ^ 64 -> 0 < b < 2 ^ 64 -> (n < 64)%nat -> b <= 2 ^ 63 \/ (n = 0%nat /\ b <= N) ->
  dividing N b (S n) rem a wr q ->
  let rem1 := Z.lor (u64 (Z.shiftl rem 1)) (Z.shiftr a 63) in
  let a1 := Z.lor (u64 (Z.shiftl a 1)) (Z.land wr 1) in
  let wrap1 := u64 (Z.shiftr (s64 (b - rem1 - 1)) 63) in
  dividing N b n (u64 (rem1 - Z.land b wrap1)) a1 wrap1 (2 * q + Z.land wr 1).
Proof.
  intros HN Hb Hn Hc [Ha Hq Hbits Hrem Hdiv] rem1 a1 wrap1.
  assert (2 ^ Z.of_nat (S n) = 2 * 2 ^ Z.of_nat n) as E2 by (rewrite Nat2Z.inj_succ, Z.pow_succ_r; lia).
  assert (2 ^ (64 - Z.of_nat n) = 2 * 2 ^ (64 - Z.of_nat (S n))) as E3
    by (rewrite <- Z.pow_succ_r by lia; f_equal; lia).
  set (P := 2 ^ Z.of_nat n) in *. set (R := 2 ^ (64 - Z.of_nat (S n))) in *.
  assert (P * R = 2 ^ 63) as EPR by (unfold P, R; rewrite <- Z.pow_add_r by lia; f_equal; lia).
  assert (0 < P) by (apply Z.pow_pos_nonneg; lia). assert (0 < R) by (apply Z.pow_pos_nonneg; lia).
  rewrite E2 in *. rewrite land_one in *. pose proof (Z.mod_pos_bound wr 2 ltac:(lia)) as Hw.
  (* the next bit *)
  set (t := N / P) in *. pose proof (Z.div_mod N P ltac:(lia)) as HNP. fold t in HNP.
  pose proof (Z.mod_pos_bound N P ltac:(lia)) as Hlow.
  assert (N / (2 * P) = t / 2) as E4 by (unfold t; rewrite Z.mul_comm, Z.div_div by lia; done).
  assert (N mod (2 * P) = P * (t mod 2) + N mod P) as E5.
  { unfold t. rewrite Z.mul_comm at 1. rewrite Z.rem_mul_r by lia. lia. }
  pose proof (Z.div_mod t 2 ltac:(lia)) as Ht. pose proof (Z.mod_pos_bound t 2 ltac:(lia)) as Ht2.
  set (bit := t mod 2) in *. rewrite E4 in Hdiv. rewrite E5 in Ha.
  assert (Z.shiftr a 63 = bit) as Ebit.
  { rewrite Z.shiftr_div_pow2 by lia. symmetry. apply (Z.div_unique _ _ bit (N mod P * R + q)); [left; nia|]. nia. }
  assert (0 <= t < 2 ^ 64) as Htb by (split; [apply Z.div_pos; lia|]; apply Z.div_lt_upper_bound; nia).
  assert (0 <= 2 * q + wr mod 2) as Hq0 by lia.
  assert (rem1 = 2 * rem + bit) as Erem1.
  { unfold rem1. rewrite Ebit, u64_bit by lia. apply wrap_small. nia. }
  assert (a1 = N mod P * (2 * R) + (2 * q + wr mod 2)) as Ea1.
  { unfold a1. rewrite land_one, u64_bit by lia. unfold u64, wrap. symmetry. apply (Z.mod_unique _ _ bit); [left; nia|]. nia. }
  assert (wrap1 = if b <=? rem1 then 2 ^ 64 - 1 else 0) as Ew.
  { apply wrap_ok; [rewrite Erem1; nia|rewrite Erem1; lia|lia|]. destruct Hc as [|[-> HbN]]; [by left|].
    destruct (Z.le_gt_cases b (2 ^ 63)); [by left|]. right. assert (t = N) as EtN by (unfold t, P; apply Z.div_1_r).
    assert (t / 2 < 2 ^ 63) by (apply Z.div_lt_upper_bound; lia).
    assert (2 * q + wr mod 2 = 0) by nia. nia. }
  assert (u64 (rem1 - Z.land b wrap1) = (if b <=? rem1 then rem1 - b else rem1) /\
    wrap1 mod 2 = b2z (b <=? rem1)) as [Er Ew2].
  { rewrite Ew. destruct (Z.leb_spec b rem1).
    - change (2 ^ 64 - 1) with (Z.ones 64). rewrite Z.land_ones, Z.mod_small by lia. split; [apply wrap_small; nia|done].
    - rewrite Z.land_0_r, Z.sub_0_r. split; [apply wrap_small; nia|done]. }
  split; rewrite ?land_one, ?Er, ?Ew2.
  - fold P. by rewrite E3.
  - done.
  - rewrite E3. destruct (b <=? rem1); cbn [b2z]; lia.
  - destruct (Z.leb_spec b rem1); lia.
  - fold P t. destruct (Z.leb_spec b rem1); cbn [b2z]; nia.
Qed.

Lemma divmod_loop_ok n : forall N b rem a wrap q,
  0 <= N < 2 ^ 64 -> 0 < b < 2 ^ 64 -> (n <= 64)%nat -> b <= 2 ^ 63 \/ ((n <= 1)%nat /\ b <= N) ->
  dividing N b n rem a wrap q ->
  exists rem' a' wrap' q', divmod_loop n rem a wrap b = (rem', a', wrap') /\ dividing N b 0 rem' a' wrap' q'.
Proof.
  induction n as [|n IH]; intros N b rem a wrap q HN Hb Hn Hc Hd; [by exists rem, a, wrap, q|].
  cbn [divmod_loop]. eapply IH; [done|done|lia| |apply divmod_step; [done|done|lia| |exact Hd]].
  - destruct Hc as [|[]]; [by left|right; split; [lia|done]].
  - destruct Hc as [|[]]; [by left|right; split; [lia|done]].
Qed.

Lemma arith64_hi_zero z : z in_u 64 -> arith64_hi z =? 0 = (z <? 2 ^ 32).
Proof.
  intros Hz. unfold arith64_hi. rewrite Z.shiftr_div_pow2 by lia. unfold u64, u32. rewrite (wrap_small 64) by done.
  rewrite wrap_small by (split; [apply Z.div_pos; lia|apply Z.div_lt_upper_bound; lia]).
  destruct (Z.ltb_spec z (2 ^ 32)); [by rewrite Z.div_small by lia|].
  apply Z.eqb_neq. pose proof (Z.div_le_lower_bound z (2 ^ 32) 1 ltac:(lia) ltac:(lia)). lia.
Qed.

(** The long division, for a divisor other than 1. *)
Lemma long_division_ok a b : a in_u 64 -> 1 < b < 2 ^ 64 -> b <= a ->
  (let bits := u8 (clz 64 b - clz 64 a + 1) in
   rem ← shift64 Z.shiftr a bits;
   a ← shift64 Z.shiftl a (64 - bits);
   let '(rem, a, wr) := divmod_loop (Z.to_nat bits) rem a 0 b in
   Ok (Z.lor (u64 (Z.shiftl a 1)) (Z.land wr 1), rem)) = Ok (a / b, a mod b).
Proof.
  intros Ha Hb Hab. unfold clz. rewrite (proj2 (Z.eqb_neq b 0)), (proj2 (Z.eqb_neq a 0)) by lia.
  pose proof (Z.log2_spec a ltac:(lia)) as [La1 La2]. pose proof (Z.log2_spec b ltac:(lia)) as [Lb1 Lb2].
  assert (1 <= Z.log2 b) by (apply Z.log2_le_pow2; lia). pose proof (Z.log2_le_mono b a Hab).
  assert (Z.log2 a < 64) by (apply Z.log2_lt_pow2; lia).
  assert (u8 (64 - 1 - Z.log2 b - (64 - 1 - Z.log2 a) + 1) = Z.log2 a - Z.log2 b + 1) as ->.
  { unfold u8. rewrite wrap_small; lia. }
  set (bits := Z.log2 a - Z.log2 b + 1) in *. cbv zeta. unfold shift64.
  assert (1 <= bits <= 63) as Hbits by lia.
  destruct (Z.leb_spec 0 bits), (Z.ltb_spec bits 64), (Z.leb_spec 0 (64 - bits)), (Z.ltb_spec (64 - bits) 64); try lia.
  cbn [andb]. rewrite !ok_bind. rewrite Z.shiftr_div_pow2, Z.shiftl_mul_pow2 by lia.
  assert (0 < 2 ^ bits) as Hp by (apply Z.pow_pos_nonneg; lia).
  assert (2 ^ bits * 2 ^ (64 - bits) = 2 ^ 64) as Epow by (rewrite <- Z.pow_add_r by lia; f_equal; lia).
  assert (0 <= a / 2 ^ bits < b) as Hrem.
  { split; [apply Z.div_pos; lia|]. apply Z.div_lt_upper_bound; [done|].
    assert (2 ^ Z.succ (Z.log2 a) = 2 ^ bits * 2 ^ Z.log2 b) by (rewrite <- Z.pow_add_r by lia; f_equal; lia). nia. }
  destruct (divmod_loop_ok (Z.to_nat bits) a b (u64 (a / 2 ^ bits)) (u64 (a * 2 ^ (64 - bits))) 0 0)
    as (rem' & a' & wr' & q' & E & [Ea Eq Eb Er Ed]); [done|lia|lia| | |].
  - destruct (Z.le_gt_cases b (2 ^ 63)); [by left|right]. split; [|done].
    assert (63 <= Z.log2 b) by (apply Z.log2_le_pow2; lia). lia.
  - split; rewrite ?Z2Nat.id by lia; change (Z.land 0 1) with 0; rewrite ?Z.add_0_r.
    + pose proof (Z.div_mod a (2 ^ bits) ltac:(lia)). pose proof (Z.mod_pos_bound a (2 ^ bits) Hp).
      assert (0 < 2 ^ (64 - bits)) by (apply Z.pow_pos_nonneg; lia).
      unfold u64, wrap. symmetry. apply (Z.mod_unique _ _ (a / 2 ^ bits)); [left; nia|]. rewrite <- Epow. nia.
    + done.
    + apply Z.pow_pos_nonneg; lia.
    + unfold u64. rewrite wrap_small; lia.
    + unfold u64. rewrite wrap_small by lia. lia.
  - rewrite E. cbv beta iota. rewrite land_one in *. change (2 ^ Z.of_nat 0) with 1 in *. rewrite Z.div_1_r in Ed.
    rewrite Z.mod_1_r in Ea. pose proof (Z.mod_pos_bound wr' 2 ltac:(lia)).
    rewrite u64_bit by lia. unfold u64. rewrite wrap_small by (rewrite Ea; change (2 ^ (64 - Z.of_nat 0)) with (2 ^ 64) in Eb; lia).
    rewrite Ea, Z.mul_0_l, Z.add_0_l. do 2 f_equal; [apply (Z.div_unique a b _ rem')|apply (Z.mod_unique a b (2 * q' + wr' mod 2))]; lia.
Qed.

Lemma divmod_ok a b : a in_u 64 -> 0 < b < 2 ^ 64 -> __divmoddi4 a b = Ok (a / b, a mod b).
Proof.
  intros Ha Hb. unfold __divmoddi4. destruct (Z.ltb_spec a b); [by rewrite Z.div_small, Z.mod_small by lia|].
  rewrite !arith64_hi_zero by lia. rewrite (proj2 (Z.eqb_neq b 0)), andb_false_r by lia.
  destruct (Z.ltb_spec b (2 ^ 32)) as [Hb32|Hb32]; cbn [andb].
  - destruct (Z.eqb_spec b 1) as [->|Hb1]; [by rewrite Z.div_1_r, Z.mod_1_r|]. unfold arith64_lo.
    destruct (Z.ltb_spec a (2 ^ 32)); [by unfold u32; rewrite !wrap_small by lia|]. apply long_division_ok; lia.
  - apply long_division_ok; lia.
Qed.

(** ** Signed division *)

Lemma int64_ok z : - 2 ^ 63 <= z < 2 ^ 63 -> int64 z = Ok z.
Proof.
  intros H. unfold int64. destruct (Z.leb_spec (- 2 ^ 63) z), (Z.ltb_spec z (2 ^ 63)); [done|lia..].
Qed.

Lemma lxor_m1 a : Z.lxor a (-1) = - a - 1.
Proof. rewrite Z.lxor_m1_r. unfold Z.lnot. lia. Qed.

Lemma abs_ok a : - 2 ^ 63 < a < 2 ^ 63 -> arith64_abs a = Ok (Z.abs a).
Proof.
  intros Ha. unfold arith64_abs, arith64_neg. destruct (Z.leb_spec 0 a), (Z.ltb_spec a 0); try lia; cbn [b2z Z.sub].
  - change (1 - 1) with 0. rewrite Z.lxor_0_r, Z.add_0_r, Z.abs_eq by done. apply int64_ok. lia.
  - rewrite lxor_m1, Z.abs_neq by lia. rewrite <- (int64_ok (- a)) by lia. f_equal. lia.
Qed.

Lemma s64_small z : - 2 ^ 63 <= z < 2 ^ 63 -> s64 (u64 z) = z.
Proof.
  intros Hz. unfold s64, signed, u64. rewrite wrap_wrap by lia. unfold wrap. change (64 - 1) with 63. destruct (Z.ltb_spec z 0).
  - rewrite <- (Z.mod_unique z (2 ^ 64) (-1) (z + 2 ^ 64)) by lia. rewrite (proj2 (Z.ltb_ge _ _)) by lia. lia.
  - rewrite Z.mod_small by lia. by rewrite (proj2 (Z.ltb_lt _ _)) by lia.
Qed.

Lemma neg_unsigned_ok q b : 0 <= q < 2 ^ 63 -> s64 (arith64_neg_unsigned q b) = if b <? 0 then - q else q.
Proof.
  intros Hq. unfold arith64_neg_unsigned. destruct (Z.leb_spec 0 b), (Z.ltb_spec b 0); try lia; cbn [b2z Z.sub].
  - change (u64 (1 - 1)) with 0. rewrite Z.lxor_0_r, Z.add_0_r. by apply s64_small; lia.
  - change (u64 (0 - 1)) with (Z.ones 64).
    assert (Z.lxor q (Z.ones 64) = Z.ones 64 - q) as ->.
    { assert (Z.log2 q < 64) by (destruct (Z.eq_dec q 0) as [->|]; [done|apply Z.log2_lt_pow2; lia]).
      rewrite Z.sub_nocarry_ldiff; [symmetry; apply Z.ldiff_ones_l_low; lia|]. apply Z.ldiff_ones_r_low; lia. }
    rewrite <- (s64_small (- q)) by lia. f_equal. unfold u64, wrap. rewrite <- (Z_mod_plus_full (- q) 1). f_equal.
    change (Z.ones 64) with (2 ^ 64 - 1). lia.
Qed.

Lemma lxor_sign a b : (Z.lxor a b <? 0) = xorb (a <? 0) (b <? 0).
Proof.
  pose proof (Z.lxor_nonneg a b) as Hs.
  destruct (Z.ltb_spec (Z.lxor a b) 0), (Z.ltb_spec a 0), (Z.ltb_spec b 0); cbn; try done; exfalso; lia.
Qed.

Lemma divdi_ok a b : - 2 ^ 63 < a < 2 ^ 63 -> - 2 ^ 63 < b < 2 ^ 63 -> b <> 0 ->
  __divdi3 a b = Ok (Z.quot a b) /\ __moddi3 a b = Ok (Z.rem a b).
Proof.
  intros Ha Hb H0. unfold __divdi3, __moddi3. rewrite !abs_ok, !ok_bind, divmod_ok, !ok_bind by lia. cbv beta iota.
  assert (0 <= Z.abs a / Z.abs b < 2 ^ 63) as Hq.
  { split; [apply Z.div_pos; lia|]. apply Z.div_lt_upper_bound; nia. }
  pose proof (Z.mod_pos_bound (Z.abs a) (Z.abs b) ltac:(lia)) as Hr.
  rewrite !neg_unsigned_ok by lia. rewrite Z.quot_div, Z.rem_mod by done. split; f_equal.
  - rewrite lxor_sign. set (q := Z.abs a / Z.abs b) in *.
    assert (a = 0 -> q = 0) as Hq0 by (intros ->; apply Z.div_0_l; lia). clearbody q.
    destruct (Z.ltb_spec a 0), (Z.ltb_spec b 0); cbn [xorb];
      rewrite ?(Z.sgn_neg a), ?(Z.sgn_neg b), ?(Z.sgn_pos b) by lia; lia.
  - destruct (Z.ltb_spec a 0); [rewrite Z.sgn_neg by lia; lia|].
    destruct (Z.eq_dec a 0) as [->|]; [by rewrite Z.mod_0_l by lia|]. rewrite Z.sgn_pos by lia. lia.
Qed.

(** ** Shifts *)

Lemma word_bits hi lo i : 0 <= i < 64 ->
  Z.testbit (arith64_word hi lo) i = if i <? 32 then Z.testbit lo i else Z.testbit hi (i - 32).
Proof.
  intros Hi. unfold arith64_word, u32. rewrite Z.lor_spec, Z.shiftl_spec by lia.
  rewrite (wrap_testbit 32 lo i) by lia. destruct (Z.ltb_spec i 32).
  - rewrite Z.testbit_neg_r by lia. by rewrite andb_true_r.
  - rewrite wrap_testbit by lia. rewrite (proj2 (Z.ltb_lt (i - 32) 32)) by lia. by rewrite andb_true_r, andb_false_r, orb_false_r.
Qed.

Lemma hi_bits a i : Z.testbit (arith64_hi a) i = (0 <=? i) && (i <? 32) && Z.testbit a (i + 32).
Proof.
  destruct (Z.leb_spec 0 i); [|by rewrite Z.testbit_neg_r by lia]. unfold arith64_hi, u32, u64.
  rewrite wrap_testbit, Z.shiftr_spec, wrap_testbit by lia.
  destruct (Z.ltb_spec i 32), (Z.ltb_spec (i + 32) 64); try lia; by rewrite ?andb_true_r, ?andb_false_r.
Qed.

Lemma lo_bits a i : Z.testbit (arith64_lo a) i = (0 <=? i) && (i <? 32) && Z.testbit a i.
Proof.
  destruct (Z.leb_spec 0 i); [|by rewrite Z.testbit_neg_r by lia]. unfold arith64_lo, u32.
  rewrite wrap_testbit by lia. by rewrite andb_comm.
Qed.

Lemma word_bound hi lo : arith64_word hi lo in_u 64.
Proof.
  unfold arith64_word. apply lor_bound; [lia| |].
  - rewrite Z.shiftl_mul_pow2 by lia. pose proof (wrap_bound 32 hi ltac:(lia)). unfold u32. lia.
  - pose proof (wrap_bound 32 lo ltac:(lia)). unfold u32. lia.
Qed.

Lemma shift_count b : Z.land b 63 = b mod 64.
Proof. exact (Z.land_ones b 6 ltac:(done)). Qed.

Lemma s32_bits z i : 0 <= i -> Z.testbit (s32 z) i = Z.testbit z (Z.min i 31).
Proof.
  intros Hi. destruct (Z.lt_ge_cases i 32) as [Hl|Hl].
  - assert (Z.testbit (wrap 32 (s32 z)) (Z.min i 31) = Z.testbit (wrap 32 z) (Z.min i 31)) as E by (unfold s32; by rewrite wrap_signed).
    rewrite !wrap_testbit in E by lia. rewrite (proj2 (Z.ltb_lt (Z.min i 31) 32)), !andb_true_r in E by lia.
    by rewrite (Z.min_l i 31) in * by lia.
  - rewrite Z.min_r by lia. assert (Z.testbit z 31 = Z.testbit (wrap 32 z) 31) as -> by by rewrite wrap_testbit, andb_true_r by lia.
    unfold s32, signed. pose proof (wrap_bound 32 z ltac:(lia)) as Hu. change (32 - 1) with 31. set (u := wrap 32 z) in *.
    destruct (Z.ltb_spec u (2 ^ 31)).
    + rewrite (testbit_high 31 u i), (testbit_high 31 u 31) by lia. done.
    + assert (Z.testbit u 31 = true) as ->.
      { apply Z.testbit_true; [done|]. rewrite <- (Z.div_unique u (2 ^ 31) 1 (u - 2 ^ 31)) by lia. done. }
      rewrite <- (negb_involutive (Z.testbit _ i)), <- Z.lnot_spec by done.
      rewrite (testbit_high 31) by (unfold Z.lnot; lia). done.
Qed.

Lemma sign_bits a i : - 2 ^ 63 <= a < 2 ^ 63 -> 0 <= i -> Z.testbit a i = Z.testbit a (Z.min i 63).
Proof.
  intros Ha Hi. destruct (Z.le_gt_cases i 63); [by rewrite Z.min_l|]. rewrite Z.min_r by lia.
  destruct (Z.le_gt_cases 0 a); [by rewrite !(testbit_high 63) by lia|].
  rewrite <- (Z.lnot_involutive a), !(Z.lnot_spec (Z.lnot a)) by lia.
  by rewrite !(testbit_high 63) by (unfold Z.lnot; lia).
Qed.

(** Each bit of a shifted word. *)
Ltac case_ltb :=
  repeat match goal with
  | |- context [?x <? ?y] => destruct (Z.ltb_spec x y); try lia
  | |- context [?x <=? ?y] => destruct (Z.leb_spec x y); try lia
  end.

Ltac same_bit :=
  rewrite ?Z.bits_0, ?andb_true_r, ?andb_false_r, ?orb_false_r; cbn [andb orb];
  first [done | by f_equal; lia | by rewrite Z.testbit_neg_r by lia | by rewrite ?(testbit_high 64) by lia
  | match goal with |- Z.testbit ?a ?x = Z.testbit ?a ?y =>
      rewrite (sign_bits a x), (sign_bits a y) by lia; f_equal; lia end].

Ltac shift_bits :=
  intros; rewrite word_bits by lia; case_ltb;
  unfold u32; rewrite ?Z.lor_spec, ?wrap_testbit, ?Z.shiftr_spec, ?Z.shiftl_spec by lia;
  rewrite ?s32_bits by lia; rewrite ?hi_bits, ?lo_bits; case_ltb; same_bit.

(** The shifts by less than 32, by none and by more. *)
Ltac shift_cases n :=
  destruct (Z.leb_spec 32 n); [|destruct (Z.eqb_spec n 0) as [E|]; cbn [negb]; [rewrite ?E|]].

Lemma lshr_ok a b : a in_u 64 -> __lshrdi3 a b = Z.shiftr a (b mod 64).
Proof.
  intros Ha. unfold __lshrdi3. rewrite shift_count. pose proof (Z.mod_pos_bound b 64 ltac:(lia)) as Hn. set (n := b mod 64) in *.
  assert (Z.shiftr a n in_u 64) as Hs.
  { rewrite Z.shiftr_div_pow2 by lia. assert (0 < 2 ^ n) by (apply Z.pow_pos_nonneg; lia).
    split; [apply Z.div_pos; lia|]. apply Z.div_lt_upper_bound; nia. }
  rewrite <- (wrap_small 64 _ Hs). clearbody n.
  shift_cases n; match goal with |- ?l = _ => rewrite <- (wrap_small 64 l (word_bound _ _)) end; apply wrap_bits_eq; try lia; shift_bits.
Qed.

Lemma s64_eq x y : wrap 64 x = wrap 64 y -> s64 x = s64 y.
Proof. intros E. unfold s64, signed. by rewrite E. Qed.

Lemma ashl_ok a b : __ashldi3 a b = s64 (Z.shiftl a (b mod 64)).
Proof.
  unfold __ashldi3. rewrite shift_count. pose proof (Z.mod_pos_bound b 64 ltac:(lia)) as Hn. set (n := b mod 64) in *.
  clearbody n. apply s64_eq. shift_cases n; apply wrap_bits_eq; try lia; shift_bits.
Qed.

Lemma ashr_ok a b : - 2 ^ 63 <= a < 2 ^ 63 -> __ashrdi3 a b = Z.shiftr a (b mod 64).
Proof.
  intros Ha. unfold __ashrdi3. rewrite shift_count. pose proof (Z.mod_pos_bound b 64 ltac:(lia)) as Hn. set (n := b mod 64) in *.
  assert (- 2 ^ 63 <= Z.shiftr a n < 2 ^ 63) as Hs.
  { rewrite Z.shiftr_div_pow2 by lia. assert (0 < 2 ^ n) by (apply Z.pow_pos_nonneg; lia).
    split; [apply Z.div_le_lower_bound; nia|apply Z.div_lt_upper_bound; nia]. }
  clearbody n. rewrite <- (s64_small _ Hs). apply s64_eq. unfold u64. rewrite wrap_wrap by lia.
  shift_cases n; apply wrap_bits_eq; try lia; shift_bits.
Qed.

(** C36.  The 64-bit arithmetic of the compiler's calls is exact.  The long division gives the
    quotient and the remainder of all unsigned 64-bit numbers with a divisor other than 0; the
    signed division truncates towards zero as C asks, for all numbers but the least, whose
    absolute value overflows; and the three shifts shift by the low six bits of the count. *)
Theorem arith64_exact a b :
  (a in_u 64 -> 0 < b < 2 ^ 64 ->
     __divmoddi4 a b = Ok (a / b, a mod b) /\ __udivdi3 a b = Ok (a / b) /\ __umoddi3 a b = Ok (a mod b)) /\
  (- 2 ^ 63 < a < 2 ^ 63 -> - 2 ^ 63 < b < 2 ^ 63 -> b <> 0 ->
     __divdi3 a b = Ok (Z.quot a b) /\ __moddi3 a b = Ok (Z.rem a b)) /\
  __ashldi3 a b = s64 (a * 2 ^ (b mod 64)) /\
  (- 2 ^ 63 <= a < 2 ^ 63 -> __ashrdi3 a b = a / 2 ^ (b mod 64)) /\
  (a in_u 64 -> __lshrdi3 a b = a / 2 ^ (b mod 64)).
Proof.
  pose proof (Z.mod_pos_bound b 64 ltac:(lia)). splits.
  - intros Ha Hb. unfold __udivdi3, __umoddi3. by rewrite divmod_ok.
  - apply divdi_ok.
  - by rewrite ashl_ok, Z.shiftl_mul_pow2 by lia.
  - intros Ha. by rewrite ashr_ok, Z.shiftr_div_pow2 by lia.
  - intros Ha. by rewrite lshr_ok, Z.shiftr_div_pow2 by lia.
Qed.

Lemma arith64_exact_witness :
  __divmoddi4 (10 ^ 18) (2 ^ 40) = Ok (909494, 771607494656) /\ __divdi3 (10 ^ 18) (2 ^ 40) = Ok 909494 /\
  __ashrdi3 (10 ^ 18) (2 ^ 40) = 10 ^ 18.
Proof.
  destruct (arith64_exact (10 ^ 18) (2 ^ 40)) as (H1 & H2 & _ & H4 & _).
  split; [|split].
  - exact (proj1 (H1 ltac:(lia) ltac:(lia))).
  - exact (proj1 (H2 ltac:(lia) ltac:(lia) ltac:(lia))).
  - exact (H4 ltac:(lia)).
Defined.

(** The least number, and 0 as a divisor: the behaviour is undefined. *)
Example div_least : __divdi3 (- 2 ^ 63) 1 = Err EUndefined.
Proof. by vm_compute. Qed.

Example div_zero : __udivdi3 7 0 = Err EUndefined.
Proof. by vm_compute. Qed.
