(* ===== verification/Memory.v ===== *)
(** * Memory functions

    [lib/freestanding/memcpy.c], [memset.c] and [memcmp.c].  Memory is a finite map from addresses
    to bytes; an access of an address that is not mapped is the capability fault [EFault], one of a
    word that is not aligned the trap [ETrap].  Pointer arithmetic within an object does not wrap;
    [size_t] is 32 bits wide.  A word of [memcpy] is a capability, of 8 bytes. *)

From S2P Require Import Prelude.

Notation memory := (gmap Z Z).

(** ** Accesses *)

Definition load (m : memory) (a : Z) : outcome Z := deref (m !! a).
Definition store (m : memory) (a v : Z) : outcome memory := _ ← deref (m !! a); Ok (<[a := v]> m).

(** The bytes of a word, from its lowest address. *)
Fixpoint load_bytes (m : memory) (a : Z) (n : nat) : outcome (list Z) :=
  match n with
  | O => Ok []
  | S n => b ← load m a; bs ← load_bytes m (a + 1) n; Ok (b :: bs)
  end.

Fixpoint store_bytes (m : memory) (a : Z) (bs : list Z) : outcome memory :=
  match bs with
  | [] => Ok m
  | b :: bs => m ← store m a b; store_bytes m (a + 1) bs
  end.

Definition aligned (a size : Z) : outcome unit := if a mod size =? 0 then Ok tt else Err ETrap.

(** ** [memcpy] and [memmove] *)

Definition wsize : Z := 8.
Definition wmask : Z := wsize - 1.

(** The copy of one word. *)
Definition copy_word (m : memory) (dst src : Z) : outcome memory :=
  _ ← aligned src wsize;
  bs ← load_bytes m src (Z.to_nat wsize);
  _ ← aligned dst wsize;
  store_bytes m dst bs.

Definition copy_byte (m : memory) (dst src : Z) : outcome memory := b ← load m src; store m dst b.

(** The state of the loops: the memory and the two pointers. *)
Definition pointers : Type := memory * Z * Z.

Definition byte_up (p : pointers) : outcome pointers :=
  let '(m, dst, src) := p in m ← copy_byte m dst src; Ok (m, dst + 1, src + 1).
Definition word_up (p : pointers) : outcome pointers :=
  let '(m, dst, src) := p in m ← copy_word m dst src; Ok (m, dst + wsize, src + wsize).
Definition byte_down (p : pointers) : outcome pointers :=
  let '(m, dst, src) := p in m ← copy_byte m (dst - 1) (src - 1); Ok (m, dst - 1, src - 1).
Definition word_down (p : pointers) : outcome pointers :=
  let '(m, dst, src) := p in m ← copy_word m (dst - wsize) (src - wsize); Ok (m, dst - wsize, src - wsize).

Fixpoint repeat_n (n : nat) (s : pointers -> outcome pointers) (p : pointers) : outcome pointers :=
  match n with O => Ok p | S n => p ← s p; repeat_n n s p end.

(** [TLOOP1(s)]: [do s; while (--t)], which runs 2^32 times from 0. *)
Definition TLOOP1 (t : Z) (s : pointers -> outcome pointers) (p : pointers) : outcome pointers :=
  repeat_n (Z.to_nat (if t =? 0 then 2 ^ 32 else t)) s p.
Definition TLOOP (t : Z) (s : pointers -> outcome pointers) (p : pointers) : outcome pointers :=
  if negb (t =? 0) then TLOOP1 t s p else Ok p.

Definition memcpy (m : memory) (dst0 src0 length : Z) : outcome memory :=
  if (length =? 0) || (dst0 =? src0) then Ok m
  else if dst0 <? src0 then
    '(p, length) ←
      (if negb (Z.land (Z.lor src0 dst0) wmask =? 0) then
         let t := if negb (Z.land (Z.lxor src0 dst0) wmask =? 0) || (length <? wsize) then length
                  else u32 (wsize - Z.land src0 wmask) in
         p ← TLOOP1 t byte_up (m, dst0, src0);
         Ok (p, u32 (length - t))
       else Ok (m, dst0, src0, length));
    p ← TLOOP (length / wsize) word_up p;
    '(m, _, _) ← TLOOP (Z.land length wmask) byte_up p;
    Ok m
  else
    let src := src0 + length in
    let dst := dst0 + length in
    '(p, length) ←
      (if negb (Z.land (Z.lor src dst) wmask =? 0) then
         let t := if negb (Z.land (Z.lxor src dst) wmask =? 0) || (length <=? wsize) then length
                  else Z.land src wmask in
         p ← TLOOP1 t byte_down (m, dst, src);
         Ok (p, u32 (length - t))
       else Ok (m, dst, src, length));
    p ← TLOOP (length / wsize) word_down p;
    '(m, _, _) ← TLOOP (Z.land length wmask) byte_down p;
    Ok m.

Definition memmove : memory -> Z -> Z -> Z -> outcome memory := memcpy.

(** ** [memset] *)

Definition usize : Z := 4.
Definition umask : Z := usize - 1.

(** The bytes of an [unsigned int], in little-endian order. *)
Definition word_bytes (c : Z) : list Z := map (fun i => u8 (Z.shiftr c (8 * i))) [0; 1; 2; 3].

Fixpoint fill_bytes (n : nat) (m : memory) (dst c0 : Z) : outcome (memory * Z) :=
  match n with
  | O => Ok (m, dst)
  | S n => m ← store m dst (u8 c0); fill_bytes n m (dst + 1) c0
  end.

Fixpoint fill_words (n : nat) (m : memory) (dst c : Z) : outcome (memory * Z) :=
  match n with
  | O => Ok (m, dst)
  | S n => _ ← aligned dst usize; m ← store_bytes m dst (word_bytes c); fill_words n m (dst + usize) c
  end.

(** The number of turns of [do ... while (--t != 0)]. *)
Definition do_while (t : Z) : nat := Z.to_nat (if t =? 0 then 2 ^ 32 else t).

Definition memset (m : memory) (dst0 c0 length : Z) : outcome memory :=
  if length <? 3 * usize then '(m, _) ← fill_bytes (Z.to_nat length) m dst0 c0; Ok m
  else
    let c := u8 c0 in
    let c :=
      if negb (c =? 0) then
        let c := Z.lor (u32 (Z.shiftl c 8)) c in
        Z.lor (u32 (Z.shiftl c 16)) c
      else c in
    let t := Z.land dst0 umask in
    '(m, dst, length) ←
      (if negb (t =? 0) then
         let t := u32 (usize - t) in
         '(m, dst) ← fill_bytes (do_while t) m dst0 c0;
         Ok (m, dst, u32 (length - t))
       else Ok (m, dst0, length));
    '(m, dst) ← fill_words (do_while (length / usize)) m dst c;
    let t := Z.land length umask in
    '(m, _) ← (if negb (t =? 0) then fill_bytes (do_while t) m dst c0 else Ok (m, dst));
    Ok m.

Definition explicit_bzero (m : memory) (s n : Z) : outcome memory := memset m s 0 n.

(** ** [memcmp] *)

Fixpoint memcmp_loop (n : nat) (m : memory) (p1 p2 : Z) : outcome Z :=
  match n with
  | O => Ok 0
  | S n =>
      a ← load m p1;
      b ← load m p2;
      if negb (a =? b) then Ok (a - b) else memcmp_loop n m (p1 + 1) (p2 + 1)
  end.

Definition memcmp (m : memory) (s1 s2 n : Z) : outcome Z :=
  if negb (n =? 0) then memcmp_loop (do_while n) m s1 s2 else Ok 0.

(** ** Copied memory *)

Definition within (a n x : Z) : bool := (a <=? x) && (x <? a + n).

Lemma within_spec a n x : within a n x = true <-> a <= x < a + n.
Proof. unfold within. rewrite andb_true_iff, Z.leb_le, Z.ltb_lt. done. Qed.

Lemma within_cases a n x : (a <= x < a + n /\ within a n x = true) \/ (~ a <= x < a + n /\ within a n x = false).
Proof.
  destruct (within a n x) eqn:E; [left|right]; split; try done; [by apply within_spec|].
  intros H%within_spec. congruence.
Qed.

Definition mapped (m : memory) (a n : Z) : Prop := forall x, a <= x < a + n -> is_Some (m !! x).

(** The [n] bytes at [dst] are those that were at [src], and no others changed. *)
Definition copied (m m' : memory) (dst src n : Z) : Prop :=
  forall x, m' !! x = if within dst n x then m !! (x - dst + src) else m !! x.

Lemma mapped_part m a n b k : mapped m a n -> a <= b -> b + k <= a + n -> mapped m b k.
Proof. intros Hm H1 H2 x Hx. apply Hm. lia. Qed.

Lemma copied_mapped m m' dst src n a k : copied m m' dst src n -> mapped m src n -> mapped m a k -> mapped m' a k.
Proof.
  intros Hc Hs Ha x Hx. rewrite Hc. destruct (within_cases dst n x) as [[Hw ->]|[_ ->]]; [apply Hs; lia|by apply Ha].
Qed.

Lemma copied_zero m dst src : copied m m dst src 0.
Proof. intros x. destruct (within_cases dst 0 x) as [[Hw ->]|[_ ->]]; [lia|done]. Qed.

Lemma copied_self m a n : copied m m a a n.
Proof. intros x. destruct (within a n x); [f_equal; lia|done]. Qed.

Lemma copied_up m m1 m2 dst src a b : dst <= src -> 0 <= a -> 0 <= b ->
  copied m m1 dst src a -> copied m1 m2 (dst + a) (src + a) b -> copied m m2 dst src (a + b).
Proof.
  intros Hds Ha Hb H1 H2 x. rewrite H2.
  destruct (within_cases (dst + a) b x) as [[Hx ->]|[Hx ->]]; rewrite H1.
  - destruct (within_cases dst a (x - (dst + a) + (src + a))) as [[Hy _]|[_ ->]]; [lia|].
    destruct (within_cases dst (a + b) x) as [[_ ->]|[Hy _]]; [f_equal; lia|lia].
  - destruct (within_cases dst a x) as [[Hy ->]|[Hy ->]], (within_cases dst (a + b) x) as [[Hz ->]|[Hz ->]]; try done; lia.
Qed.

Lemma copied_down m m1 m2 dst src a b : src <= dst -> 0 <= a -> 0 <= b ->
  copied m m1 (dst + b) (src + b) a -> copied m1 m2 dst src b -> copied m m2 dst src (a + b).
Proof.
  intros Hds Ha Hb H1 H2 x. rewrite H2.
  destruct (within_cases dst b x) as [[Hx ->]|[Hx ->]]; rewrite H1.
  - destruct (within_cases (dst + b) a (x - dst + src)) as [[Hy _]|[_ ->]]; [lia|].
    by destruct (within_cases dst (a + b) x) as [[_ ->]|[Hy _]]; [|lia].
  - destruct (within_cases (dst + b) a x) as [[Hy ->]|[Hy ->]], (within_cases dst (a + b) x) as [[Hz ->]|[Hz ->]];
      first [done | by f_equal; lia | lia].
Qed.

(** ** Bytes and words *)

Lemma load_bytes_ok m n : forall a, mapped m a (Z.of_nat n) ->
  exists bs, load_bytes m a n = Ok bs /\ length bs = n /\
    forall x, a <= x < a + Z.of_nat n -> m !! x = bs !! Z.to_nat (x - a).
Proof.
  induction n as [|n IH]; intros a Hm; [exists []; splits; [done|done|lia]|]. cbn [load_bytes].
  destruct (Hm a ltac:(lia)) as [b Hb]. unfold load. rewrite Hb. cbn [deref]. rewrite ok_bind.
  destruct (IH (a + 1)) as (bs & E & Hl & Hx); [eapply mapped_part; [done|lia|lia]|].
  rewrite E, ok_bind. exists (b :: bs). splits; [done|cbn; lia|]. intros x Hr.
  destruct (Z.eq_dec x a) as [->|]; [by rewrite Z.sub_diag|]. rewrite Hx by lia.
  replace (Z.to_nat (x - a)) with (S (Z.to_nat (x - (a + 1)))) by lia. done.
Qed.

Lemma store_bytes_ok bs : forall m a, mapped m a (Z.of_nat (length bs)) ->
  exists m', store_bytes m a bs = Ok m' /\
    forall x, m' !! x = if within a (Z.of_nat (length bs)) x then bs !! Z.to_nat (x - a) else m !! x.
Proof.
  induction bs as [|b bs IH]; intros m a Hm; cbn [store_bytes length].
  { exists m. split; [done|]. intros x. destruct (within_cases a (Z.of_nat 0) x) as [[Hx ->]|[_ ->]]; [lia|done]. }
  cbn [length] in Hm. destruct (Hm a ltac:(lia)) as [v Hv]. unfold store. rewrite Hv. cbn [deref]. rewrite !ok_bind.
  destruct (IH (<[a := b]> m) (a + 1)) as (m' & E & Hx).
  { intros x Hx. destruct (decide (a = x)) as [->|]; [by rewrite lookup_insert_eq|].
    rewrite lookup_insert_ne by done. apply Hm. lia. }
  exists m'. split; [done|]. intros x. rewrite Hx.
  destruct (within_cases (a + 1) (Z.of_nat (length bs)) x) as [[Hy ->]|[Hy ->]],
    (within_cases a (Z.of_nat (S (length bs))) x) as [[Hz ->]|[Hz ->]]; try lia.
  - replace (Z.to_nat (x - a)) with (S (Z.to_nat (x - (a + 1)))) by lia. done.
  - assert (x = a) as -> by lia. by rewrite lookup_insert_eq, Z.sub_diag.
  - rewrite lookup_insert_ne by lia. done.
Qed.

Lemma copy_byte_ok m dst src : mapped m src 1 -> mapped m dst 1 ->
  exists m', copy_byte m dst src = Ok m' /\ copied m m' dst src 1.
Proof.
  intros Hs Hd. destruct (Hs src ltac:(lia)) as [b Hb], (Hd dst ltac:(lia)) as [v Hv].
  unfold copy_byte, load, store. rewrite Hb. cbn [deref]. rewrite ok_bind, Hv. cbn [deref]. rewrite ok_bind.
  eexists. split; [done|]. intros x. destruct (within_cases dst 1 x) as [[Hx ->]|[Hx ->]].
  - assert (x = dst) as -> by lia. by rewrite lookup_insert_eq, Z.sub_diag, Z.add_0_l, Hb.
  - rewrite lookup_insert_ne by lia. done.
Qed.

Lemma copy_word_ok m dst src : dst mod wsize = 0 -> src mod wsize = 0 -> mapped m src wsize -> mapped m dst wsize ->
  exists m', copy_word m dst src = Ok m' /\ copied m m' dst src wsize.
Proof.
  intros Ad As Hs Hd. unfold copy_word, aligned. rewrite Ad, As, Z.eqb_refl, !ok_bind.
  destruct (load_bytes_ok m 8 src Hs) as (bs & E & Hl & Hx). change (Z.to_nat wsize) with 8%nat. rewrite E, !ok_bind.
  destruct (store_bytes_ok bs m dst) as (m' & E' & Hx'); [by rewrite Hl|]. exists m'. split; [done|].
  intros x. rewrite Hx', Hl. change (Z.of_nat 8) with wsize in *.
  destruct (within_cases dst wsize x) as [[Hy ->]|[_ ->]]; [|done]. rewrite Hx by lia. do 2 f_equal. lia.
Qed.

(** ** The loops *)

Lemma repeat_up (step : pointers -> outcome pointers) (P : Z -> Z -> Prop) k n :
  (forall m d s, P d s -> mapped m s k -> mapped m d k ->
     exists m', step (m, d, s) = Ok (m', d + k, s + k) /\ copied m m' d s k) ->
  (forall d s, P d s -> P (d + k) (s + k)) -> 0 <= k ->
  forall m d s, P d s -> d <= s -> mapped m s (Z.of_nat n * k) -> mapped m d (Z.of_nat n * k) ->
  exists m', repeat_n n step (m, d, s) = Ok (m', d + Z.of_nat n * k, s + Z.of_nat n * k) /\
    copied m m' d s (Z.of_nat n * k).
Proof.
  intros Hstep Hnext Hk. induction n as [|n IH]; intros m d s HP Hds Hs Hd; cbn [repeat_n].
  { exists m. rewrite !Z.mul_0_l, !Z.add_0_r. split; [done|apply copied_zero]. }
  rewrite Nat2Z.inj_succ, Z.mul_succ_l in *. set (l := Z.of_nat n * k) in *. assert (0 <= l) by (unfold l; nia).
  destruct (Hstep m d s HP) as (m1 & -> & H1); [eapply mapped_part; [exact Hs|lia|lia]|eapply mapped_part; [exact Hd|lia|lia]|]. rewrite ok_bind.
  destruct (IH m1 (d + k) (s + k)) as (m2 & E2 & H2); [by apply Hnext|lia| | |].
  - eapply copied_mapped; [done| |]; (eapply mapped_part; [exact Hs|lia|lia]).
  - eapply copied_mapped; [done|eapply mapped_part; [exact Hs|lia|lia]|eapply mapped_part; [exact Hd|lia|lia]].
  - exists m2. rewrite E2. replace (d + k + l) with (d + (l + k)) by lia. replace (s + k + l) with (s + (l + k)) by lia.
    split; [done|]. rewrite Z.add_comm. by eapply copied_up.
Qed.

Lemma repeat_down (step : pointers -> outcome pointers) (P : Z -> Z -> Prop) k n :
  (forall m d s, P d s -> mapped m (s - k) k -> mapped m (d - k) k ->
     exists m', step (m, d, s) = Ok (m', d - k, s - k) /\ copied m m' (d - k) (s - k) k) ->
  (forall d s, P d s -> P (d - k) (s - k)) -> 0 <= k ->
  forall m d s, P d s -> s <= d ->
  mapped m (s - Z.of_nat n * k) (Z.of_nat n * k) -> mapped m (d - Z.of_nat n * k) (Z.of_nat n * k) ->
  exists m', repeat_n n step (m, d, s) = Ok (m', d - Z.of_nat n * k, s - Z.of_nat n * k) /\
    copied m m' (d - Z.of_nat n * k) (s - Z.of_nat n * k) (Z.of_nat n * k).
Proof.
  intros Hstep Hnext Hk. induction n as [|n IH]; intros m d s HP Hds Hs Hd; cbn [repeat_n].
  { exists m. rewrite !Z.mul_0_l, !Z.sub_0_r. split; [done|apply copied_zero]. }
  rewrite Nat2Z.inj_succ, Z.mul_succ_l in *. set (l := Z.of_nat n * k) in *. assert (0 <= l) by (unfold l; nia).
  destruct (Hstep m d s HP) as (m1 & -> & H1);
    [eapply mapped_part; [exact Hs|lia|lia]|eapply mapped_part; [exact Hd|lia|lia]|]. rewrite ok_bind.
  destruct (IH m1 (d - k) (s - k)) as (m2 & E2 & H2); [by apply Hnext|lia| | |].
  - eapply copied_mapped; [done| |]; (eapply mapped_part; [exact Hs|lia|lia]).
  - eapply copied_mapped; [done|eapply mapped_part; [exact Hs|lia|lia]|eapply mapped_part; [exact Hd|lia|lia]].
  - exists m2. rewrite E2. replace (d - k - l) with (d - (l + k)) in * by lia. replace (s - k - l) with (s - (l + k)) in * by lia.
    split; [done|]. rewrite (Z.add_comm l k) at 3. eapply copied_down; [lia|lia|lia| |exact H2].
    replace (d - (l + k) + l) with (d - k) by lia. by replace (s - (l + k) + l) with (s - k) by lia.
Qed.

Lemma byte_up_ok n m d s : d <= s -> mapped m s (Z.of_nat n) -> mapped m d (Z.of_nat n) ->
  exists m', repeat_n n byte_up (m, d, s) = Ok (m', d + Z.of_nat n, s + Z.of_nat n) /\ copied m m' d s (Z.of_nat n).
Proof.
  intros Hds Hs Hd. rewrite <- (Z.mul_1_r (Z.of_nat n)) in *.
  apply (repeat_up byte_up (fun _ _ => True)); try done. clear. intros m d s _ Hs Hd. unfold byte_up.
  destruct (copy_byte_ok m d s Hs Hd) as (m' & -> & Hc). by exists m'.
Qed.

Lemma byte_down_ok n m d s : s <= d -> mapped m (s - Z.of_nat n) (Z.of_nat n) -> mapped m (d - Z.of_nat n) (Z.of_nat n) ->
  exists m', repeat_n n byte_down (m, d, s) = Ok (m', d - Z.of_nat n, s - Z.of_nat n) /\
    copied m m' (d - Z.of_nat n) (s - Z.of_nat n) (Z.of_nat n).
Proof.
  intros Hds Hs Hd. rewrite <- (Z.mul_1_r (Z.of_nat n)) in *.
  apply (repeat_down byte_down (fun _ _ => True)); try done. clear. intros m d s _ Hs Hd. unfold byte_down.
  destruct (copy_byte_ok m (d - 1) (s - 1) Hs Hd) as (m' & -> & Hc). by exists m'.
Qed.

Definition both_aligned (d s : Z) : Prop := d mod wsize = 0 /\ s mod wsize = 0.

Lemma mod_add_size a : (a + wsize) mod wsize = a mod wsize.
Proof. rewrite <- (Z.mul_1_l wsize) at 1. apply Z_mod_plus_full. Qed.

Lemma mod_sub_size a : (a - wsize) mod wsize = a mod wsize.
Proof. rewrite <- (mod_add_size (a - wsize)). f_equal. lia. Qed.

Lemma word_up_ok n m d s : both_aligned d s -> d <= s ->
  mapped m s (Z.of_nat n * wsize) -> mapped m d (Z.of_nat n * wsize) ->
  exists m', repeat_n n word_up (m, d, s) = Ok (m', d + Z.of_nat n * wsize, s + Z.of_nat n * wsize) /\
    copied m m' d s (Z.of_nat n * wsize).
Proof.
  intros Ha Hds. revert Ha Hds. intros Ha Hds Hs Hd. apply (repeat_up word_up both_aligned); try done; clear.
  - intros m d s [Ad As] Hs Hd. unfold word_up. destruct (copy_word_ok m d s Ad As Hs Hd) as (m' & -> & Hc). by exists m'.
  - intros d s [Ad As]. split; by rewrite mod_add_size.
Qed.

Lemma word_down_ok n m d s : both_aligned d s -> s <= d ->
  mapped m (s - Z.of_nat n * wsize) (Z.of_nat n * wsize) -> mapped m (d - Z.of_nat n * wsize) (Z.of_nat n * wsize) ->
  exists m', repeat_n n word_down (m, d, s) = Ok (m', d - Z.of_nat n * wsize, s - Z.of_nat n * wsize) /\
    copied m m' (d - Z.of_nat n * wsize) (s - Z.of_nat n * wsize) (Z.of_nat n * wsize).
Proof.
  intros Ha Hds Hs Hd. apply (repeat_down word_down both_aligned); try done; clear.
  - intros m d s [Ad As] Hs Hd. unfold word_down.
    destruct (copy_word_ok m (d - wsize) (s - wsize)) as (m' & -> & Hc); [by rewrite mod_sub_size..|done|done|]. by exists m'.
  - intros d s [Ad As]. split; by rewrite mod_sub_size.
Qed.

(** A loop that is not entered with 0. *)
Lemma TLOOP_eq t s p : 0 <= t -> TLOOP t s p = repeat_n (Z.to_nat t) s p.
Proof. intros Ht. unfold TLOOP, TLOOP1. by destruct (Z.eqb_spec t 0) as [->|]. Qed.

Lemma TLOOP1_eq t s p : 0 < t -> TLOOP1 t s p = repeat_n (Z.to_nat t) s p.
Proof. intros Ht. unfold TLOOP1. by rewrite (proj2 (Z.eqb_neq t 0)) by lia. Qed.

Lemma land_wmask x : Z.land x wmask = x mod wsize.
Proof. exact (Z.land_ones x 3 ltac:(done)). Qed.

(** The words and the bytes after them, upwards. *)
Lemma tail_up m d s l : 0 <= l -> d <= s -> l < wsize \/ both_aligned d s -> mapped m s l -> mapped m d l ->
  exists m', (p ← TLOOP (l / wsize) word_up (m, d, s);
              '(m, _, _) ← TLOOP (Z.land l wmask) byte_up p;
              Ok m) = Ok m' /\ copied m m' d s l.
Proof.
  intros Hl Hds Ha Hs Hd. rewrite land_wmask. pose proof (Z.div_mod l wsize ltac:(done)) as El.
  pose proof (Z.mod_pos_bound l wsize ltac:(done)) as Hr. pose proof (Z.div_pos l wsize Hl ltac:(done)) as Hq.
  rewrite TLOOP_eq by done. set (q := l / wsize) in *. set (r := l mod wsize) in *.
  assert (exists m1, repeat_n (Z.to_nat q) word_up (m, d, s) = Ok (m1, d + q * wsize, s + q * wsize) /\
    copied m m1 d s (q * wsize)) as (m1 & -> & H1).
  { destruct Ha as [Hsmall|Ha].
    - assert (q = 0) as -> by (apply Z.div_small; lia). exists m. cbn. rewrite !Z.add_0_r. split; [done|apply copied_zero].
    - pose proof (word_up_ok (Z.to_nat q) m d s Ha Hds) as Hw. rewrite Z2Nat.id in Hw by done. apply Hw.
      + eapply mapped_part; [exact Hs|lia|lia].
      + eapply mapped_part; [exact Hd|lia|lia]. }
  rewrite ok_bind, TLOOP_eq by lia. clearbody q r. assert (q * wsize + r = l) as El' by lia. clear El.
  assert (0 <= q * wsize) by (unfold wsize; lia).
  destruct (byte_up_ok (Z.to_nat r) m1 (d + q * wsize) (s + q * wsize)) as (m2 & -> & H2); rewrite ?Z2Nat.id in * by lia.
  - lia.
  - eapply copied_mapped; [exact H1|eapply mapped_part; [exact Hs|lia|lia]|eapply mapped_part; [exact Hs|lia|lia]].
  - eapply copied_mapped; [exact H1|eapply mapped_part; [exact Hs|lia|lia]|eapply mapped_part; [exact Hd|lia|lia]].
  - exists m2. split; [done|]. replace l with (q * wsize + r) by lia. apply (copied_up _ m1); [done|lia|lia|done|done].
Qed.

(** The same downwards. *)
Lemma tail_down m d s l : 0 <= l -> s <= d -> l < wsize \/ both_aligned d s -> mapped m (s - l) l -> mapped m (d - l) l ->
  exists m', (p ← TLOOP (l / wsize) word_down (m, d, s);
              '(m, _, _) ← TLOOP (Z.land l wmask) byte_down p;
              Ok m) = Ok m' /\ copied m m' (d - l) (s - l) l.
Proof.
  intros Hl Hds Ha Hs Hd. rewrite land_wmask. pose proof (Z.div_mod l wsize ltac:(done)) as El.
  pose proof (Z.mod_pos_bound l wsize ltac:(done)) as Hr. pose proof (Z.div_pos l wsize Hl ltac:(done)) as Hq.
  rewrite TLOOP_eq by done. set (q := l / wsize) in *. set (r := l mod wsize) in *.
  assert (exists m1, repeat_n (Z.to_nat q) word_down (m, d, s) = Ok (m1, d - q * wsize, s - q * wsize) /\
    copied m m1 (d - q * wsize) (s - q * wsize) (q * wsize)) as (m1 & -> & H1).
  { destruct Ha as [Hsmall|Ha].
    - assert (q = 0) as -> by (apply Z.div_small; lia). exists m. cbn. rewrite !Z.sub_0_r. split; [done|apply copied_zero].
    - pose proof (word_down_ok (Z.to_nat q) m d s Ha Hds) as Hw. rewrite Z2Nat.id in Hw by done. apply Hw.
      + eapply mapped_part; [exact Hs|lia|lia].
      + eapply mapped_part; [exact Hd|lia|lia]. }
  rewrite ok_bind, TLOOP_eq by lia. clearbody q r. assert (q * wsize + r = l) as El' by lia. clear El.
  assert (0 <= q * wsize) by (unfold wsize; lia).
  destruct (byte_down_ok (Z.to_nat r) m1 (d - q * wsize) (s - q * wsize)) as (m2 & -> & H2); rewrite ?Z2Nat.id in * by lia.
  - lia.
  - eapply copied_mapped; [exact H1|eapply mapped_part; [exact Hs|lia|lia]|eapply mapped_part; [exact Hs|lia|lia]].
  - eapply copied_mapped; [exact H1|eapply mapped_part; [exact Hs|lia|lia]|eapply mapped_part; [exact Hd|lia|lia]].
  - exists m2. split; [done|]. replace (d - q * wsize - r) with (d - l) in H2 by lia.
    replace (s - q * wsize - r) with (s - l) in H2 by lia. replace l with (q * wsize + r) by lia.
    apply (copied_down _ m1); [lia|lia|lia| |by replace (q * wsize + r) with l by lia].
    replace (d - (q * wsize + r) + r) with (d - q * wsize) by lia. by replace (s - (q * wsize + r) + r) with (s - q * wsize) by lia.
Qed.

(** ** Alignment *)

Lemma or_aligned s d : Z.land (Z.lor s d) wmask = 0 <-> both_aligned d s.
Proof.
  rewrite Z.land_lor_distr_l, !land_wmask, Z.lor_eq_0_iff. unfold both_aligned. tauto.
Qed.

Lemma xor_aligned s d : Z.land (Z.lxor s d) wmask = 0 <-> s mod wsize = d mod wsize.
Proof.
  assert (Z.land (Z.lxor s d) wmask = Z.lxor (s mod wsize) (d mod wsize)) as ->.
  { rewrite <- !land_wmask. apply bits_eq. intros i Hi. rewrite !Z.land_spec, !Z.lxor_spec, !Z.land_spec.
    by destruct (Z.testbit s i), (Z.testbit d i), (Z.testbit wmask i). }
  apply Z.lxor_eq_0_iff.
Qed.

(** Stepping to the next word, and to the one before. *)
Lemma align_up d s : s mod wsize = d mod wsize -> let t := wsize - s mod wsize in both_aligned (d + t) (s + t).
Proof.
  intros E. cbv zeta. assert (forall a, a mod wsize = s mod wsize -> (a + (wsize - s mod wsize)) mod wsize = 0) as H.
  { intros a <-. pose proof (Z.div_mod a wsize ltac:(done)) as Ea.
    replace (a + (wsize - a mod wsize)) with (0 + (a / wsize + 1) * wsize) by lia. by rewrite Z_mod_plus_full. }
  split; apply H; congruence.
Qed.

Lemma align_down d s : s mod wsize = d mod wsize -> both_aligned (d - s mod wsize) (s - s mod wsize).
Proof.
  intros E. assert (forall a, a mod wsize = s mod wsize -> (a - s mod wsize) mod wsize = 0) as H.
  { intros a <-. pose proof (Z.div_mod a wsize ltac:(done)) as Ea.
    replace (a - a mod wsize) with (0 + a / wsize * wsize) by lia. by rewrite Z_mod_plus_full. }
  split; apply H; congruence.
Qed.

Lemma memcpy_ok m dst src n : 0 <= n < 2 ^ 32 -> mapped m src n -> mapped m dst n ->
  exists m', memcpy m dst src n = Ok m' /\ copied m m' dst src n.
Proof.
  intros Hn Hs Hd. unfold memcpy. destruct (Z.eqb_spec n 0) as [->|Hn0]; [exists m; split; [done|apply copied_zero]|].
  destruct (Z.eqb_spec dst src) as [->|Hne]; [exists m; split; [done|apply copied_self]|]. cbn [orb].
  pose proof (Z.mod_pos_bound src wsize ltac:(done)) as Hsm. pose proof (Z.mod_pos_bound (src + n) wsize ltac:(done)) as Hsn.
  assert (wsize = 8) as Ew by done.
  destruct (Z.ltb_spec dst src) as [Hlt|Hge].
  - destruct (Z.eqb_spec (Z.land (Z.lor src dst) wmask) 0) as [Ha|Ha]; cbn [negb].
    { rewrite ok_bind. apply tail_up; [lia|lia|right; by apply or_aligned|done|done]. }
    match goal with |- context [TLOOP1 ?x _ _] => set (t := x) end.
    assert (0 < t <= n /\ (n - t < wsize \/ both_aligned (dst + t) (src + t))) as [Ht Hal].
    { unfold t. rewrite (land_wmask src). destruct (Z.eqb_spec (Z.land (Z.lxor src dst) wmask) 0) as [Hx|Hx]; cbn [negb orb]; [|lia].
      destruct (Z.ltb_spec n wsize); [lia|]. unfold u32. rewrite wrap_small by lia. split; [lia|].
      right. apply align_up. by apply xor_aligned. }
    rewrite TLOOP1_eq by lia. destruct (byte_up_ok (Z.to_nat t) m dst src) as (m1 & -> & H1); rewrite ?Z2Nat.id in * by lia; [lia|..].
    { eapply mapped_part; [exact Hs|lia|lia]. } { eapply mapped_part; [exact Hd|lia|lia]. }
    rewrite !ok_bind. unfold u32. rewrite (wrap_small 32 (n - t)) by lia. assert (mapped m src t) as Hst by (eapply mapped_part; [exact Hs|lia|lia]).
    destruct (tail_up m1 (dst + t) (src + t) (n - t)) as (m2 & E2 & H2); [lia|lia|done| | |].
    + eapply copied_mapped; [exact H1|done|eapply mapped_part; [exact Hs|lia|lia]].
    + eapply copied_mapped; [exact H1|done|eapply mapped_part; [exact Hd|lia|lia]].
    + exists m2. split; [exact E2|]. replace n with (t + (n - t)) by lia. eapply copied_up; [| | |exact H1|exact H2]; lia.
  - destruct (Z.eqb_spec (Z.land (Z.lor (src + n) (dst + n)) wmask) 0) as [Ha|Ha]; cbn [negb].
    { rewrite ok_bind. destruct (tail_down m (dst + n) (src + n) n) as (m' & E & H);
        rewrite ?Z.add_simpl_r in *; [lia|lia|right; by apply or_aligned|done|done|]. by exists m'. }
    match goal with |- context [TLOOP1 ?x _ _] => set (t := x) end.
    assert (0 < t <= n /\ (n - t < wsize \/ both_aligned (dst + n - t) (src + n - t))) as [Ht Hal].
    { unfold t. rewrite (land_wmask (src + n)).
      destruct (Z.eqb_spec (Z.land (Z.lxor (src + n) (dst + n)) wmask) 0) as [Hx|Hx]; cbn [negb orb]; [|lia].
      destruct (Z.leb_spec n wsize); [lia|]. apply xor_aligned in Hx. split; [|right; by apply align_down].
      assert ((src + n) mod wsize <> 0); [|lia]. intros H0. apply Ha, or_aligned. split; congruence. }
    rewrite TLOOP1_eq by lia.
    destruct (byte_down_ok (Z.to_nat t) m (dst + n) (src + n)) as (m1 & -> & H1); rewrite ?Z2Nat.id in * by lia; [lia|..].
    { eapply mapped_part; [exact Hs|lia|lia]. } { eapply mapped_part; [exact Hd|lia|lia]. }
    rewrite !ok_bind. unfold u32. rewrite (wrap_small 32 (n - t)) by lia.
    assert (mapped m (src + n - t) t) as Hst by (eapply mapped_part; [exact Hs|lia|lia]).
    destruct (tail_down m1 (dst + n - t) (src + n - t) (n - t)) as (m2 & E2 & H2); [lia|lia|done| | |].
    + eapply copied_mapped; [exact H1|done|eapply mapped_part; [exact Hs|lia|lia]].
    + eapply copied_mapped; [exact H1|done|eapply mapped_part; [exact Hd|lia|lia]].
    + exists m2. split; [exact E2|]. replace (dst + n - t - (n - t)) with dst in H2 by lia.
      replace (src + n - t - (n - t)) with src in H2 by lia. replace n with (t + (n - t)) by lia.
      apply (copied_down _ m1); [lia|lia|lia| |done].
      replace (dst + (n - t)) with (dst + n - t) by lia. by replace (src + (n - t)) with (src + n - t) by lia.
Qed.

(** ** [memset] *)

Definition filled (m m' : memory) (dst n v : Z) : Prop :=
  forall x, m' !! x = if within dst n x then Some v else m !! x.

Lemma filled_zero m dst v : filled m m dst 0 v.
Proof. intros x. destruct (within_cases dst 0 x) as [[Hw ->]|[_ ->]]; [lia|done]. Qed.

Lemma filled_app m m1 m2 dst a b v : 0 <= a -> 0 <= b ->
  filled m m1 dst a v -> filled m1 m2 (dst + a) b v -> filled m m2 dst (a + b) v.
Proof.
  intros Ha Hb H1 H2 x. rewrite H2, H1.
  destruct (within_cases (dst + a) b x) as [[Hx Ex]|[Hx Ex]], (within_cases dst a x) as [[Hy Ey]|[Hy Ey]],
    (within_cases dst (a + b) x) as [[Hz Ez]|[Hz Ez]]; rewrite ?Ex, ?Ey, ?Ez; first [done|lia].
Qed.

Lemma filled_mapped m m' dst n v a k : filled m m' dst n v -> mapped m a k -> mapped m' a k.
Proof. intros Hf Ha x Hx. rewrite Hf. destruct (within dst n x); [done|by apply Ha]. Qed.

Lemma fill_bytes_ok n : forall m d c0, mapped m d (Z.of_nat n) ->
  exists m', fill_bytes n m d c0 = Ok (m', d + Z.of_nat n) /\ filled m m' d (Z.of_nat n) (u8 c0).
Proof.
  induction n as [|n IH]; intros m d c0 Hm; cbn [fill_bytes].
  { exists m. rewrite Z.add_0_r. split; [done|apply filled_zero]. }
  destruct (Hm d ltac:(lia)) as [v Hv]. unfold store. rewrite Hv. cbn [deref]. rewrite !ok_bind.
  assert (filled m (<[d := u8 c0]> m) d 1 (u8 c0)) as H1.
  { intros x. destruct (within_cases d 1 x) as [[Hx ->]|[Hx ->]].
    - assert (x = d) as -> by lia. apply lookup_insert_eq.
    - apply lookup_insert_ne. lia. }
  destruct (IH (<[d := u8 c0]> m) (d + 1) c0) as (m' & E & H2).
  { eapply filled_mapped; [exact H1|]. eapply mapped_part; [exact Hm|lia|lia]. }
  exists m'. rewrite E, Nat2Z.inj_succ. split; [do 2 f_equal; lia|]. rewrite <- Z.add_1_l.
  eapply filled_app; [| |exact H1|exact H2]; lia.
Qed.

Lemma fill_words_ok c v n : word_bytes c = [v; v; v; v] -> forall m d, d mod usize = 0 -> mapped m d (Z.of_nat n * usize) ->
  exists m', fill_words n m d c = Ok (m', d + Z.of_nat n * usize) /\ filled m m' d (Z.of_nat n * usize) v.
Proof.
  intros Hc. induction n as [|n IH]; intros m d Ha Hm; cbn [fill_words].
  { exists m. rewrite Z.mul_0_l, Z.add_0_r. split; [done|apply filled_zero]. }
  unfold aligned. rewrite Ha, Z.eqb_refl, ok_bind, Hc. rewrite Nat2Z.inj_succ, Z.mul_succ_l in *.
  assert (0 <= Z.of_nat n * usize) by (unfold usize; lia). assert (usize = 4) as Eu by done.
  destruct (store_bytes_ok [v; v; v; v] m d) as (m1 & E1 & H1); [eapply mapped_part; [exact Hm|lia|cbn; lia]|].
  rewrite E1, ok_bind. assert (filled m m1 d usize v) as Hf1.
  { intros x. rewrite H1. cbn [length]. change (Z.of_nat 4) with usize.
    destruct (within_cases d usize x) as [[Hx ->]|[Hx ->]]; [|done].
    assert (x - d = 0 \/ x - d = 1 \/ x - d = 2 \/ x - d = 3) as Hd by lia. by destruct Hd as [->|[->|[->| ->]]]. }
  destruct (IH m1 (d + usize)) as (m2 & E2 & H2).
  - rewrite <- (Z.mul_1_l usize) at 1. by rewrite Z_mod_plus_full.
  - eapply filled_mapped; [exact Hf1|]. eapply mapped_part; [exact Hm|lia|lia].
  - exists m2. rewrite E2. split; [do 2 f_equal; lia|]. rewrite Z.add_comm. eapply filled_app; [| |exact Hf1|exact H2]; lia.
Qed.

(** The word that [memset] builds has the byte four times. *)
Definition set_word (c : Z) : Z :=
  if negb (c =? 0) then
    let c := Z.lor (u32 (Z.shiftl c 8)) c in
    Z.lor (u32 (Z.shiftl c 16)) c
  else c.

Definition list_eqb (l1 l2 : list Z) : bool := bool_decide (l1 = l2).

Lemma set_words : forallb (fun n => let v := Z.of_nat n in list_eqb (word_bytes (set_word v)) [v; v; v; v]) (seq 0 256) = true.
Proof. by vm_compute. Qed.

Lemma set_word_ok v : v in_u 8 -> word_bytes (set_word v) = [v; v; v; v].
Proof.
  intros Hv. pose proof set_words as H. rewrite forallb_forall in H.
  specialize (H (Z.to_nat v) ltac:(apply in_seq; lia)). cbv zeta in H. rewrite Z2Nat.id in H by lia.
  by apply bool_decide_eq_true in H.
Qed.

Lemma do_while_eq t : 0 < t -> do_while t = Z.to_nat t.
Proof. intros Ht. unfold do_while. by rewrite (proj2 (Z.eqb_neq t 0)) by lia. Qed.

Lemma land_umask x : Z.land x umask = x mod usize.
Proof. exact (Z.land_ones x 2 ltac:(done)). Qed.

Lemma memset_ok m dst c0 n : 0 <= n < 2 ^ 32 -> mapped m dst n ->
  exists m', memset m dst c0 n = Ok m' /\ filled m m' dst n (u8 c0).
Proof.
  intros Hn Hm. unfold memset. assert (usize = 4) as Eu by done.
  destruct (Z.ltb_spec n (3 * usize)).
  { destruct (fill_bytes_ok (Z.to_nat n) m dst c0) as (m' & -> & Hf); rewrite ?Z2Nat.id in * by lia; [done|]. by exists m'. }
  cbv zeta. fold (set_word (u8 c0)). rewrite !land_umask.
  pose proof (Z.mod_pos_bound dst usize ltac:(done)) as Hd. pose proof (Z.div_mod dst usize ltac:(done)) as Ed.
  set (t := if dst mod usize =? 0 then 0 else usize - dst mod usize).
  assert (0 <= t < usize /\ (dst + t) mod usize = 0) as [Ht Ha].
  { unfold t. destruct (Z.eqb_spec (dst mod usize) 0) as [E|E]; [by rewrite Z.add_0_r|]. split; [lia|].
    replace (dst + (usize - dst mod usize)) with (0 + (dst / usize + 1) * usize) by lia. by rewrite Z_mod_plus_full. }
  assert (exists m1, (if negb (dst mod usize =? 0) then
      '(m, d) ← fill_bytes (do_while (u32 (usize - dst mod usize))) m dst c0;
      Ok (m, d, u32 (n - u32 (usize - dst mod usize))) else Ok (m, dst, n)) = Ok (m1, dst + t, n - t) /\
    filled m m1 dst t (u8 c0)) as (m1 & E1 & H1).
  { unfold t. destruct (Z.eqb_spec (dst mod usize) 0) as [E|E]; cbn [negb].
    - exists m. rewrite Z.add_0_r, Z.sub_0_r. split; [done|apply filled_zero].
    - unfold u32. rewrite (wrap_small 32 (usize - _)) by lia. rewrite do_while_eq by lia.
      destruct (fill_bytes_ok (Z.to_nat (usize - dst mod usize)) m dst c0) as (m1 & -> & H1); rewrite ?Z2Nat.id in * by lia.
      + eapply mapped_part; [exact Hm|lia|lia].
      + exists m1. rewrite ok_bind, wrap_small by lia. done. }
  rewrite E1, ok_bind. cbv beta iota. clearbody t. rewrite land_umask.
  pose proof (Z.div_mod (n - t) usize ltac:(done)) as En. pose proof (Z.mod_pos_bound (n - t) usize ltac:(done)) as Hr.
  assert (1 <= (n - t) / usize) as Hq by (apply Z.div_le_lower_bound; lia).
  set (q := (n - t) / usize) in *. set (r := (n - t) mod usize) in *. clearbody q r.
  assert (0 <= q * usize) as Hq0 by (unfold usize; lia). rewrite (do_while_eq q) by lia.
  destruct (fill_words_ok (set_word (u8 c0)) (u8 c0) (Z.to_nat q) (set_word_ok _ (wrap_bound 8 c0 ltac:(lia))) m1 (dst + t) Ha)
    as (m2 & -> & H2); rewrite ?Z2Nat.id in * by lia.
  { eapply filled_mapped; [exact H1|]. eapply mapped_part; [exact Hm|lia|lia]. }
  rewrite ok_bind. pose proof (filled_app m m1 m2 dst t (q * usize) _ ltac:(lia) Hq0 H1 H2) as H12.
  destruct (Z.eqb_spec r 0) as [Er|Er]; cbn [negb].
  { exists m2. split; [done|]. by replace n with (t + q * usize) by lia. }
  rewrite (do_while_eq r) by lia.
  destruct (fill_bytes_ok (Z.to_nat r) m2 (dst + t + q * usize) c0) as (m3 & -> & H3); rewrite ?Z2Nat.id in * by lia.
  { eapply filled_mapped; [exact H12|]. eapply mapped_part; [exact Hm|lia|lia]. }
  exists m3. split; [done|]. replace n with (t + q * usize + r) by lia.
  eapply filled_app; [| |exact H12|]; [lia|lia|]. by rewrite Z.add_assoc.
Qed.

(** ** [memcmp] *)

Lemma memcmp_loop_ok n : forall m a b, mapped m a (Z.of_nat n) -> mapped m b (Z.of_nat n) ->
  (memcmp_loop n m a b = Ok 0 /\ forall i, 0 <= i < Z.of_nat n -> m !! (a + i) = m !! (b + i)) \/
  exists i x y, 0 <= i < Z.of_nat n /\ (forall j, 0 <= j < i -> m !! (a + j) = m !! (b + j)) /\
    m !! (a + i) = Some x /\ m !! (b + i) = Some y /\ x <> y /\ memcmp_loop n m a b = Ok (x - y).
Proof.
  induction n as [|n IH]; intros m a b Ha Hb; cbn [memcmp_loop]; [left; split; [done|lia]|].
  destruct (Ha a ltac:(lia)) as [x Hx], (Hb b ltac:(lia)) as [y Hy]. unfold load. rewrite Hx, Hy. cbn [deref]. rewrite !ok_bind.
  assert (forall i, a + i = a + 1 + (i - 1)) as Sa by lia. assert (forall i, b + i = b + 1 + (i - 1)) as Sb by lia.
  destruct (Z.eqb_spec x y) as [<-|Hne]; cbn [negb].
  - destruct (IH m (a + 1) (b + 1)) as [[-> Heq]|(i & x' & y' & Hi & Hj & Hx' & Hy' & Hn & ->)];
      [eapply mapped_part; [exact Ha|lia|lia]|eapply mapped_part; [exact Hb|lia|lia]|left|right].
    + split; [done|]. intros i Hi. destruct (Z.eq_dec i 0) as [->|]; [by rewrite !Z.add_0_r, Hx, Hy|].
      rewrite Sa, Sb. apply Heq. lia.
    + exists (i + 1), x', y'. rewrite (Sa (i + 1)), (Sb (i + 1)), Z.add_simpl_r. splits; [lia|lia| |done..].
      intros j Hjj. destruct (Z.eq_dec j 0) as [->|]; [by rewrite !Z.add_0_r, Hx, Hy|]. rewrite Sa, Sb. apply Hj. lia.
  - right. exists 0, x, y. rewrite !Z.add_0_r. splits; first [done|lia].
Qed.

Lemma memcmp_ok m a b n : 0 <= n < 2 ^ 32 -> mapped m a n -> mapped m b n ->
  (memcmp m a b n = Ok 0 /\ forall i, 0 <= i < n -> m !! (a + i) = m !! (b + i)) \/
  exists i x y, 0 <= i < n /\ (forall j, 0 <= j < i -> m !! (a + j) = m !! (b + j)) /\
    m !! (a + i) = Some x /\ m !! (b + i) = Some y /\ x <> y /\ memcmp m a b n = Ok (x - y).
Proof.
  intros Hn Ha Hb. unfold memcmp. destruct (Z.eqb_spec n 0) as [->|Hne]; cbn [negb]; [left; split; [done|lia]|].
  rewrite do_while_eq by lia. rewrite <- (Z2Nat.id n) in Ha, Hb by lia.
  pose proof (memcmp_loop_ok (Z.to_nat n) m a b Ha Hb) as H. by rewrite Z2Nat.id in H by lia.
Qed.

(** ** The functions *)

(** C34.  The memory functions do what they are for, whatever the alignment of their arguments:
    on memory that they may access they return without a fault, without an access of a word that is
    not aligned and without an endless loop; [memcpy], which is also [memmove], leaves at the
    destination the bytes that were at the source, though the two overlap, and changes no other;
    [memset] fills the destination with the low byte of its argument and changes no other; and
    [memcmp] returns 0 for equal bytes and else the difference of the first two that differ. *)
Theorem memory_functions_exact m a b n c :
  0 <= n < 2 ^ 32 -> mapped m a n -> mapped m b n ->
  (exists m', memcpy m a b n = Ok m' /\
     forall x, m' !! x = if within a n x then m !! (x - a + b) else m !! x) /\
  (exists m', memset m a c n = Ok m' /\
     forall x, m' !! x = if within a n x then Some (c mod 256) else m !! x) /\
  ((memcmp m a b n = Ok 0 /\ forall i, 0 <= i < n -> m !! (a + i) = m !! (b + i)) \/
   exists i x y, 0 <= i < n /\ (forall j, 0 <= j < i -> m !! (a + j) = m !! (b + j)) /\
     m !! (a + i) = Some x /\ m !! (b + i) = Some y /\ x <> y /\ memcmp m a b n = Ok (x - y)).
Proof.
  intros Hn Ha Hb. splits; [by apply memcpy_ok|by apply memset_ok|by apply memcmp_ok].
Qed.

(** Memory from address 0 with given bytes. *)
Definition memory_of (bs : list Z) : memory := list_to_map (zip (seqZ 0 (Z.of_nat (length bs))) bs).

Definition bytes_of (m : memory) (a : Z) (n : nat) : list (option Z) := map (fun i => m !! (a + Z.of_nat i)) (seq 0 n).

Definition demo_memory : memory := memory_of (seqZ 100 40).

(** An overlapping copy of 20 bytes downwards by 8: words, with bytes before and after. *)
Lemma memory_functions_exact_witness : exists m',
  memcpy demo_memory 3 11 20 = Ok m' /\ bytes_of m' 0 40 =
  map Some (seqZ 100 3 ++ seqZ 111 20 ++ seqZ 123 17).
Proof.
  destruct (memory_functions_exact demo_memory 3 11 20 0) as [(m' & E & _) _]; [lia|..].
  - intros x Hx. assert (x ∈ seqZ 3 20) as Hin by (apply elem_of_seqZ; lia). revert x Hin Hx.
    apply (proj1 (Forall_forall (fun x => 3 <= x < 3 + 20 -> is_Some (demo_memory !! x)) (seqZ 3 20))).
    repeat constructor; intros _; vm_compute; eauto.
  - intros x Hx. assert (x ∈ seqZ 11 20) as Hin by (apply elem_of_seqZ; lia). revert x Hin Hx.
    apply (proj1 (Forall_forall (fun x => 11 <= x < 11 + 20 -> is_Some (demo_memory !! x)) (seqZ 11 20))).
    repeat constructor; intros _; vm_compute; eauto.
  - exists m'. split; [exact E|]. assert (Ok m' = memcpy demo_memory 3 11 20) as E' by (symmetry; exact E).
    vm_compute in E'. injection E' as ->. by vm_compute.
Defined.
