(* ===== verification/Strings.v ===== *)
(** * Strings

    [lib/string/] and the inline functions of [include/string.h], over the memory of [Memory].
    Pointers are addresses, [None] is the null pointer.  A search for the end of a string stops at
    an address that is not mapped, so that more turns than there are bytes are never needed. *)

From S2P Require Import Prelude Memory.

(** ** The code *)

Definition string_fuel (m : memory) : nat := S (size m).

Fixpoint strlen_loop (fuel : nat) (m : memory) (s : Z) : outcome Z :=
  match fuel with
  | O => Err EFuel
  | S fuel => c ← load m s; if c =? 0 then Ok s else strlen_loop fuel m (s + 1)
  end.

Definition strlen (m : memory) (str : Z) : outcome Z :=
  s ← strlen_loop (string_fuel m) m str; Ok (s - str).

Fixpoint strnlen_loop (maxlen : nat) (m : memory) (str : Z) : outcome nat :=
  match maxlen with
  | O => Ok O
  | S maxlen' => c ← load m str; if negb (c =? 0) then strnlen_loop maxlen' m (str + 1) else Ok maxlen
  end.

Definition strnlen (m : memory) (str maxlen : Z) : outcome Z :=
  rest ← strnlen_loop (Z.to_nat maxlen) m str; Ok (maxlen - Z.of_nat rest).

Fixpoint strcmp_loop (fuel : nat) (m : memory) (s1 s2 : Z) : outcome Z :=
  match fuel with
  | O => Err EFuel
  | S fuel =>
      a ← load m s1;
      b ← load m s2;
      if a =? b then (if a =? 0 then Ok 0 else strcmp_loop fuel m (s1 + 1) (s2 + 1)) else Ok (a - b)
  end.

Definition strcmp (m : memory) (s1 s2 : Z) : outcome Z := strcmp_loop (string_fuel m) m s1 s2.

Fixpoint strncmp_loop (n : nat) (m : memory) (s1 s2 : Z) : outcome Z :=
  match n with
  | O => Ok 0
  | S n =>
      a ← load m s1;
      b ← load m s2;
      if negb (a =? b) then Ok (a - b)
      else if a =? 0 then Ok 0
      else strncmp_loop n m (s1 + 1) (s2 + 1)
  end.

Definition strncmp (m : memory) (s1 s2 n : Z) : outcome Z :=
  if n =? 0 then Ok 0 else strncmp_loop (Z.to_nat n) m s1 s2.

Fixpoint strchr_loop (fuel : nat) (m : memory) (s c : Z) : outcome (option Z) :=
  match fuel with
  | O => Err EFuel
  | S fuel =>
      x ← load m s;
      if negb (x =? c) then (if x =? 0 then Ok None else strchr_loop fuel m (s + 1) c)
      else Ok (Some s)
  end.

Definition strchr (m : memory) (s intChar : Z) : outcome (option Z) := strchr_loop (string_fuel m) m s (u8 intChar).

Fixpoint memchr_loop (n : nat) (m : memory) (s c : Z) : outcome (option Z) :=
  match n with
  | O => Ok None
  | S n => x ← load m s; if x =? c then Ok (Some s) else memchr_loop n m (s + 1) c
  end.

Definition memchr (m : memory) (s intChar n : Z) : outcome (option Z) := memchr_loop (Z.to_nat n) m s (u8 intChar).

Fixpoint memrchr_loop (n : nat) (m : memory) (s c : Z) : outcome (option Z) :=
  match n with
  | O => Ok None
  | S n => x ← load m (s - 1); if x =? c then Ok (Some (s - 1)) else memrchr_loop n m (s - 1) c
  end.

Definition memrchr (m : memory) (s intChar n : Z) : outcome (option Z) := memrchr_loop (Z.to_nat n) m (s + n) (u8 intChar).

Fixpoint memccpy_loop (n : nat) (m : memory) (d s c : Z) : outcome (memory * option Z) :=
  match n with
  | O => Ok (m, None)
  | S n =>
      x ← load m s;
      m ← store m d x;
      x ← load m s;
      if x =? c then Ok (m, Some (d + 1)) else memccpy_loop n m (d + 1) (s + 1) c
  end.

Definition memccpy (m : memory) (dest src cInt n : Z) : outcome (memory * option Z) :=
  memccpy_loop (Z.to_nat n) m dest src (u8 cInt).

(** [for (i = 0; i < n && src[i] != '\0'; i++) dest[i] = src[i];], from an index on. *)
Fixpoint copy_string (n : nat) (m : memory) (dest src i : Z) : outcome (memory * Z) :=
  match n with
  | O => Ok (m, i)
  | S n =>
      c ← load m (src + i);
      if c =? 0 then Ok (m, i)
      else m ← store m (dest + i) c; copy_string n m dest src (i + 1)
  end.

Definition strlcpy (m : memory) (dest src n : Z) : outcome (memory * Z) :=
  let copySize := if n =? 0 then 0 else n - 1 in
  '(m, i) ← copy_string (Z.to_nat copySize) m dest src 0;
  m ← (if negb (n =? 0) then store m (dest + i) 0 else Ok m);
  Ok (m, i).

Definition strncpy (m : memory) (dest src n : Z) : outcome (memory * Z) :=
  '(m, i) ← copy_string (Z.to_nat n) m dest src 0;
  '(m, _) ← fill_bytes (Z.to_nat (n - i)) m (dest + i) 0;
  Ok (m, dest).

Definition SIZE_MAX : Z := 2 ^ 32 - 1.

Fixpoint strnstr_loop (fuel : nat) (m : memory) (haystack needle needleLen haystackLength : Z) : outcome (option Z) :=
  match fuel with
  | O => Err EFuel
  | S fuel =>
      if needleLen <? haystackLength then
        c ← load m haystack;
        if negb (c =? 0) then
          r ← strncmp m haystack needle needleLen;
          if r =? 0 then Ok (Some haystack)
          else strnstr_loop fuel m (haystack + 1) needle needleLen (haystackLength - 1)
        else Ok None
      else Ok None
  end.

Definition strnstr (m : memory) (haystack needle haystackLength : Z) : outcome (option Z) :=
  needleLen ← strlen m needle;
  strnstr_loop (string_fuel m) m haystack needle needleLen haystackLength.

Definition strstr (m : memory) (haystack needle : Z) : outcome (option Z) := strnstr m haystack needle SIZE_MAX.

Definition strcpy (m : memory) (dst src : Z) : outcome (memory * Z) :=
  '(m, n) ← strlcpy m dst src SIZE_MAX; Ok (m, dst + n).

(** ** Strings in memory *)

(** The bytes of the string [s], none of them 0, and a 0 after them. *)
Fixpoint string_at (m : memory) (a : Z) (s : list Z) : Prop :=
  match s with
  | [] => m !! a = Some 0
  | c :: s => m !! a = Some c /\ c <> 0 /\ string_at m (a + 1) s
  end.

(** The difference of the first two bytes that differ, where a string ends with a 0. *)
Fixpoint compare (s t : list Z) : Z :=
  match s, t with
  | [], [] => 0
  | x :: _, [] => x
  | [], y :: _ => - y
  | x :: s, y :: t => if x =? y then compare s t else x - y
  end.

Lemma string_mapped m s : forall a, string_at m a s -> mapped m a (Z.of_nat (length s) + 1).
Proof.
  induction s as [|c s IH]; intros a H x Hx; cbn [length string_at] in *.
  - assert (x = a) as -> by lia. by rewrite H.
  - destruct H as (Hc & _ & H). destruct (Z.eq_dec x a) as [->|]; [by rewrite Hc|]. apply (IH (a + 1) H). lia.
Qed.

(** A string is shorter than memory is large. *)
Lemma mapped_size m a n : mapped m a (Z.of_nat n) -> (n <= size m)%nat.
Proof.
  intros Hm. assert (list_to_set (seqZ a (Z.of_nat n)) ⊆@{gset Z} dom m) as Hsub.
  { intros x Hx%elem_of_list_to_set. apply elem_of_seqZ in Hx. apply elem_of_dom, Hm. lia. }
  apply subseteq_size in Hsub. rewrite size_list_to_set in Hsub by apply NoDup_seqZ.
  rewrite length_seqZ in Hsub. rewrite size_dom in Hsub. lia.
Qed.

Lemma string_fuel_enough m a s : string_at m a s -> (length s < string_fuel m)%nat.
Proof.
  intros H%string_mapped. unfold string_fuel. pose proof (mapped_size m a (S (length s))) as Hs.
  rewrite Nat2Z.inj_succ in Hs. apply Hs in H. lia.
Qed.

Lemma strlen_loop_ok s : forall fuel m a, string_at m a s -> (length s < fuel)%nat ->
  strlen_loop fuel m a = Ok (a + Z.of_nat (length s)).
Proof.
  induction s as [|c s IH]; intros [|fuel] m a H Hf; cbn [length string_at strlen_loop] in *; try lia; unfold load.
  - rewrite H. cbn. f_equal. lia.
  - destruct H as (-> & Hc & H). cbn [deref]. rewrite ok_bind, (proj2 (Z.eqb_neq c 0)) by done. rewrite IH by (done || lia).
    f_equal. lia.
Qed.

Lemma strlen_ok m a s : string_at m a s -> strlen m a = Ok (Z.of_nat (length s)).
Proof.
  intros H. unfold strlen. rewrite (strlen_loop_ok s) by (done || by eapply string_fuel_enough). rewrite ok_bind. f_equal. lia.
Qed.

Lemma strnlen_loop_ok s : forall n m a, string_at m a s -> strnlen_loop n m a = Ok (n - length s)%nat.
Proof.
  induction s as [|c s IH]; intros [|n] m a H; cbn [length string_at strnlen_loop] in *; try done; unfold load.
  - by rewrite H.
  - destruct H as (-> & Hc & H). cbn [deref]. rewrite ok_bind, (proj2 (Z.eqb_neq c 0)) by done. cbn [negb]. by apply IH.
Qed.

Lemma strnlen_ok m a s n : 0 <= n -> string_at m a s -> strnlen m a n = Ok (Z.min n (Z.of_nat (length s))).
Proof. intros Hn H. unfold strnlen. rewrite (strnlen_loop_ok s) by done. rewrite ok_bind. f_equal. lia. Qed.

Lemma strcmp_loop_ok s : forall t fuel m a b, string_at m a s -> string_at m b t -> (length s < fuel)%nat ->
  strcmp_loop fuel m a b = Ok (compare s t).
Proof.
  induction s as [|x s IH]; intros t [|fuel] m a b Hs Ht Hf; cbn [length string_at strcmp_loop] in *; try lia; unfold load.
  - rewrite Hs. cbn [deref]. rewrite ok_bind. destruct t as [|y t]; cbn [string_at] in Ht; [by rewrite Ht|].
    destruct Ht as (-> & Hy & _). cbn [deref]. rewrite ok_bind, (proj2 (Z.eqb_neq 0 y)) by done. done.
  - destruct Hs as (-> & Hx & Hs). cbn [deref]. rewrite ok_bind.
    destruct t as [|y t]; cbn [string_at] in Ht.
    + rewrite Ht. cbn [deref]. rewrite ok_bind, (proj2 (Z.eqb_neq x 0)) by done. cbn. f_equal. lia.
    + destruct Ht as (-> & Hy & Ht). cbn [deref compare]. rewrite ok_bind.
      destruct (Z.eqb_spec x y) as [<-|]; [|done]. rewrite (proj2 (Z.eqb_neq x 0)) by done. apply IH; [done|done|lia].
Qed.

Lemma strcmp_ok m a b s t : string_at m a s -> string_at m b t -> strcmp m a b = Ok (compare s t).
Proof. intros Hs Ht. apply strcmp_loop_ok; [done|done|by eapply string_fuel_enough]. Qed.

Lemma strncmp_loop_ok s : forall t n m a b, string_at m a s -> string_at m b t ->
  strncmp_loop n m a b = Ok (compare (take n s) (take n t)).
Proof.
  induction s as [|x s IH]; intros t [|n] m a b Hs Ht; cbn [length string_at strncmp_loop take] in *; try done; unfold load.
  - rewrite Hs. cbn [deref]. rewrite ok_bind. destruct t as [|y t]; cbn [string_at] in Ht; [by rewrite Ht|].
    destruct Ht as (-> & Hy & _). cbn [deref]. rewrite ok_bind, (proj2 (Z.eqb_neq 0 y)) by done. done.
  - destruct Hs as (-> & Hx & Hs). cbn [deref]. rewrite ok_bind.
    destruct t as [|y t]; cbn [string_at] in Ht.
    + rewrite Ht. cbn [deref]. rewrite ok_bind, (proj2 (Z.eqb_neq x 0)) by done. cbn. f_equal. lia.
    + destruct Ht as (-> & Hy & Ht). cbn [deref take]. rewrite ok_bind. cbn [compare].
      destruct (Z.eqb_spec x y) as [<-|]; cbn [negb]; [|done]. rewrite (proj2 (Z.eqb_neq x 0)) by done. by apply IH.
Qed.

Lemma strncmp_ok m a b n s t : 0 <= n -> string_at m a s -> string_at m b t ->
  strncmp m a b n = Ok (compare (take (Z.to_nat n) s) (take (Z.to_nat n) t)).
Proof.
  intros Hn Hs Ht. unfold strncmp. destruct (Z.eqb_spec n 0) as [->|]; [done|]. by apply strncmp_loop_ok.
Qed.

Lemma compare_eq s : forall t, Forall (fun c => c <> 0) s -> Forall (fun c => c <> 0) t -> compare s t = 0 <-> s = t.
Proof.
  induction s as [|x s IH]; intros [|y t] Hs Ht; cbn [compare].
  - done.
  - apply Forall_cons in Ht as [Hy _]. split; [intros; lia|done].
  - apply Forall_cons in Hs as [Hx _]. split; [done|done].
  - apply Forall_cons in Hs as [Hx Hs]. apply Forall_cons in Ht as [Hy Ht]. destruct (Z.eqb_spec x y) as [<-|Hne].
    + rewrite IH by done. split; [by intros ->|by intros [=]].
    + split; [lia|by intros [= ->]].
Qed.

Lemma string_nonzero m s : forall a, string_at m a s -> Forall (fun c => c <> 0) s.
Proof. induction s as [|c s IH]; intros a H; [done|]. destruct H as (_ & Hc & H). constructor; eauto. Qed.

Lemma string_tail m a s i : string_at m a s -> (i <= length s)%nat -> string_at m (a + Z.of_nat i) (drop i s).
Proof.
  revert a i. induction s as [|c s IH]; intros a [|i] H Hi; cbn [length] in *; try lia; rewrite ?Z.add_0_r; try done.
  destruct H as (_ & _ & H). cbn [drop]. replace (a + Z.of_nat (S i)) with (a + 1 + Z.of_nat i) by lia. apply IH; [done|lia].
Qed.

(** ** Searches *)

Lemma strchr_loop_ok s c : forall fuel m a, string_at m a s -> (length s < fuel)%nat ->
  strchr_loop fuel m a c = Ok ((fun i => a + Z.of_nat i) <$> (fst <$> list_find (fun x => x = c) (s ++ [0]))).
Proof.
  induction s as [|x s IH]; intros [|fuel] m a H Hf; cbn [length string_at strchr_loop app] in *; try lia; unfold load.
  - rewrite H. cbn [deref]. rewrite ok_bind. cbn [list_find]. destruct (Z.eqb_spec 0 c); cbn [negb].
    + rewrite decide_True by done. cbn. do 2 f_equal. lia.
    + by rewrite decide_False by done.
  - destruct H as (-> & Hx & H). cbn [deref]. rewrite ok_bind. cbn [list_find]. destruct (Z.eqb_spec x c); cbn [negb].
    + rewrite decide_True by done. cbn. do 2 f_equal. lia.
    + rewrite decide_False by done. rewrite (proj2 (Z.eqb_neq x 0)) by done. rewrite IH by (done || lia). f_equal.
      destruct (list_find _ _) as [[i y]|]; cbn; [f_equal; lia|done].
Qed.

Lemma strchr_ok m a s c : string_at m a s ->
  strchr m a c = Ok ((fun i => a + Z.of_nat i) <$> (fst <$> list_find (fun x => x = u8 c) (s ++ [0]))).
Proof. intros H. apply strchr_loop_ok; [done|by eapply string_fuel_enough]. Qed.

(** [t] is in [s] at [i]. *)
Definition occurs (t s : list Z) (i : nat) : Prop := take (length t) (drop i s) = t.

Lemma occurs_test m a b s t : string_at m a s -> string_at m b t ->
  exists r, strncmp m a b (Z.of_nat (length t)) = Ok r /\ (r = 0 <-> occurs t s 0).
Proof.
  intros Hs Ht. eexists. split; [by apply strncmp_ok; [lia|..]|]. rewrite Nat2Z.id. unfold occurs. rewrite drop_0.
  rewrite (take_ge t) by done. apply compare_eq; [apply Forall_take|]; by eapply string_nonzero.
Qed.

Lemma strnstr_loop_ok s t b : forall fuel m a n, string_at m a s -> string_at m b t -> (length s < fuel)%nat ->
  Z.of_nat (length s) + Z.of_nat (length t) < n ->
  exists r, strnstr_loop fuel m a b (Z.of_nat (length t)) n = Ok r /\
    match r with
    | Some p => exists i, p = a + Z.of_nat i /\ (i < length s)%nat /\ occurs t s i /\ forall j, (j < i)%nat -> ~ occurs t s j
    | None => forall i, (i < length s)%nat -> ~ occurs t s i
    end.
Proof.
  induction s as [|x s IH]; intros [|fuel] m a n Hs Ht Hf Hn; cbn [length strnstr_loop] in *; try lia.
  - rewrite (proj2 (Z.ltb_lt _ _)) by lia. cbn [string_at] in Hs. unfold load. rewrite Hs. cbn. exists None. split; [done|lia].
  - rewrite (proj2 (Z.ltb_lt _ _)) by lia. pose proof Hs as (Hx & Hx0 & Hs'). unfold load. rewrite Hx. cbn [deref]. rewrite ok_bind.
    rewrite (proj2 (Z.eqb_neq x 0)) by done. cbn [negb]. destruct (occurs_test m a b (x :: s) t Hs Ht) as (r & -> & Hr).
    rewrite ok_bind. destruct (Z.eqb_spec r 0) as [E|E].
    + exists (Some a). split; [done|]. exists 0%nat. splits; [lia|lia|by apply Hr|lia].
    + destruct (IH fuel m (a + 1) (n - 1) Hs' Ht ltac:(lia) ltac:(lia)) as (res & -> & Hres). exists res. split; [done|].
      assert (forall j, occurs t (x :: s) (S j) <-> occurs t s j) as HS by done.
      assert (~ occurs t (x :: s) 0) as H0 by tauto. destruct res as [p|].
      * destruct Hres as (i & -> & Hi & Ho & Hj). exists (S i). splits; [lia|lia|done|].
        intros [|j] Hjj; [done|]. apply Hj. lia.
      * intros [|i] Hi; [done|]. apply Hres. lia.
Qed.

(** ** Copies *)

Lemma string_at_ext m m' s : forall a, (forall x, a <= x < a + Z.of_nat (length s) + 1 -> m' !! x = m !! x) ->
  string_at m a s -> string_at m' a s.
Proof.
  induction s as [|c s IH]; intros a Hx H; cbn [length string_at] in *; [by rewrite Hx by lia|].
  destruct H as (Hc & H0 & H). splits; [by rewrite Hx by lia|done|]. apply IH; [|done]. intros x Hr. apply Hx. lia.
Qed.

Definition disjoint (a n b k : Z) : Prop := a + n <= b \/ b + k <= a.

Lemma copy_string_ok n : forall m dest src i s, let k := Nat.min n (length s) in
  string_at m (src + i) s -> mapped m (dest + i) (Z.of_nat k) ->
  disjoint (dest + i) (Z.of_nat k) (src + i) (Z.of_nat (length s) + 1) ->
  exists m', copy_string n m dest src i = Ok (m', i + Z.of_nat k) /\
    forall x, m' !! x = if within (dest + i) (Z.of_nat k) x then s !! Z.to_nat (x - (dest + i)) else m !! x.
Proof.
  assert (forall (m m0 : memory) d (s : list Z), (forall x : Z, m0 !! x = m !! x) -> forall x, m0 !! x =
    if within d (Z.of_nat 0) x then s !! Z.to_nat (x - d) else m !! x) as Hz.
  { intros m m0 d s H x. destruct (within_cases d (Z.of_nat 0) x) as [[Hx _]|[_ ->]]; [lia|done]. }
  induction n as [|n IH]; intros m dest src i s k Hs Hd Hdis; cbn [copy_string].
  { exists m. unfold k. cbn. rewrite Z.add_0_r. split; [done|]. by apply (Hz m m (dest + i)). }
  unfold load. destruct s as [|c s]; cbn [string_at length] in *.
  { rewrite Hs. cbn. exists m. rewrite Z.add_0_r. split; [done|]. by apply (Hz m m (dest + i)). }
  destruct Hs as (Hc & Hc0 & Hs). rewrite Hc. cbn [deref]. rewrite ok_bind, (proj2 (Z.eqb_neq c 0)) by done.
  destruct (Hd (dest + i) ltac:(unfold k; lia)) as [v Hv]. unfold store. rewrite Hv. cbn [deref]. rewrite !ok_bind.
  unfold disjoint, k in *. cbn [Nat.min] in *.
  destruct (IH (<[dest + i := c]> m) dest src (i + 1) s) as (m' & E & Hx).
  - rewrite Z.add_assoc. eapply string_at_ext; [|exact Hs]. intros x Hx. rewrite lookup_insert_ne by lia. done.
  - intros x Hx. rewrite lookup_insert_ne by lia. apply Hd. lia.
  - lia.
  - exists m'. rewrite E. split; [do 2 f_equal; lia|]. intros x. rewrite Hx.
    destruct (within_cases (dest + (i + 1)) (Z.of_nat (Nat.min n (length s))) x) as [[Hy Ey]|[Hy Ey]],
      (within_cases (dest + i) (Z.of_nat (S (Nat.min n (length s)))) x) as [[Hz' Ez]|[Hz' Ez]]; rewrite Ey, Ez; try lia.
    + replace (Z.to_nat (x - (dest + i))) with (S (Z.to_nat (x - (dest + (i + 1))))) by lia. done.
    + assert (x = dest + i) as -> by lia. by rewrite lookup_insert_eq, Z.sub_diag.
    + rewrite lookup_insert_ne by lia. done.
Qed.

Lemma strlcpy_ok m dest src n s : 0 < n ->
  let t := take (Z.to_nat (n - 1)) s in
  string_at m src s -> mapped m dest (Z.of_nat (length t) + 1) ->
  disjoint dest (Z.of_nat (length t) + 1) src (Z.of_nat (length s) + 1) ->
  exists m', strlcpy m dest src n = Ok (m', Z.of_nat (length t)) /\ string_at m' dest t /\
    forall x, ~ dest <= x <= dest + Z.of_nat (length t) -> m' !! x = m !! x.
Proof.
  intros Hn t Hs Hd Hdis. unfold strlcpy. rewrite (proj2 (Z.eqb_neq n 0)) by lia. cbn [negb]. unfold disjoint in Hdis.
  assert (Nat.min (Z.to_nat (n - 1)) (length s) = length t) as Ek by (unfold t; by rewrite length_take).
  destruct (copy_string_ok (Z.to_nat (n - 1)) m dest src 0 s) as (m1 & E & Hx); rewrite ?Z.add_0_r, ?Ek; [done|..].
  { eapply mapped_part; [exact Hd|lia|lia]. } { unfold disjoint. lia. }
  rewrite E, ok_bind. cbv beta iota. rewrite Z.add_0_l. rewrite Z.add_0_r in Hx. rewrite Ek in *.
  assert (is_Some (m1 !! (dest + Z.of_nat (length t)))) as [v Hv].
  { rewrite Hx. destruct (within_cases dest (Z.of_nat (length t)) (dest + Z.of_nat (length t))) as [[Hy _]|[_ ->]]; [lia|]. apply Hd. lia. }
  unfold store. rewrite Hv. cbn [deref]. rewrite !ok_bind. eexists. split; [done|]. split.
  - assert (forall i c, t !! i = Some c -> c <> 0 /\ m1 !! (dest + Z.of_nat i) = Some c) as Ht.
    { intros i c Hi. assert (s !! i = Some c) as Hsi by (unfold t in Hi; by apply lookup_take_Some in Hi as [? _]).
      pose proof (string_nonzero m s src Hs) as Hnz. rewrite Forall_lookup in Hnz. split; [by eapply Hnz|].
      apply lookup_lt_Some in Hi. rewrite Hx.
      destruct (within_cases dest (Z.of_nat (length t)) (dest + Z.of_nat i)) as [[_ ->]|[Hy _]]; [|lia].
      by rewrite Z.add_simpl_l, Nat2Z.id. }
    clear -Ht. revert dest Ht. generalize m1. induction t as [|c t IH]; intros m dest Ht; cbn [string_at length].
    + rewrite Z.add_0_r. by rewrite lookup_insert_eq.
    + destruct (Ht 0%nat c eq_refl) as [Hc Hm]. rewrite Z.add_0_r in Hm. splits; [|done|].
      * rewrite lookup_insert_ne by lia. done.
      * replace (dest + Z.of_nat (S (length t))) with (dest + 1 + Z.of_nat (length t)) by lia. apply IH.
        intros i c' Hi. destruct (Ht (S i) c' Hi) as [? Hm']. split; [done|].
        by replace (dest + 1 + Z.of_nat i) with (dest + Z.of_nat (S i)) by lia.
  - intros x Hn'. rewrite lookup_insert_ne by lia. rewrite Hx.
    by destruct (within_cases dest (Z.of_nat (length t)) x) as [[Hy _]|[_ ->]]; [lia|].
Qed.

(** ** The functions *)

(** C37.  The string functions compute on the bytes in memory what they are for on the strings: for
    two strings [s] and [t] that end with a 0, [strlen] and [strnlen] give the length, [strcmp] and
    [strncmp] the difference of the first bytes that differ, which is 0 exactly for equal strings;
    [strchr] finds the first occurrence of a byte, the final 0 included, and [strstr] the first
    position in [s] where [t] occurs; and [strlcpy] leaves at its destination, if that does not
    overlap the source, the string cut to [n - 1] bytes, changing nothing else.  None reads past
    the end of a string. *)
Theorem string_functions_exact m a b d c n s t :
  string_at m a s -> string_at m b t -> 0 < n ->
  let cut := take (Z.to_nat (n - 1)) s in
  mapped m d (Z.of_nat (length cut) + 1) -> disjoint d (Z.of_nat (length cut) + 1) a (Z.of_nat (length s) + 1) ->
  Z.of_nat (length s) + Z.of_nat (length t) < SIZE_MAX ->
  strlen m a = Ok (Z.of_nat (length s)) /\ strnlen m a n = Ok (Z.min n (Z.of_nat (length s))) /\
  strcmp m a b = Ok (compare s t) /\ (compare s t = 0 <-> s = t) /\
  strncmp m a b n = Ok (compare (take (Z.to_nat n) s) (take (Z.to_nat n) t)) /\
  strchr m a c = Ok ((fun i => a + Z.of_nat i) <$> (fst <$> list_find (fun x => x = u8 c) (s ++ [0]))) /\
  (exists r, strstr m a b = Ok r /\
     match r with
     | Some p => exists i, p = a + Z.of_nat i /\ (i < length s)%nat /\ occurs t s i /\ forall j, (j < i)%nat -> ~ occurs t s j
     | None => forall i, (i < length s)%nat -> ~ occurs t s i
     end) /\
  (exists m', strlcpy m d a n = Ok (m', Z.of_nat (length cut)) /\ string_at m' d cut /\
     forall x, ~ d <= x <= d + Z.of_nat (length cut) -> m' !! x = m !! x).
Proof.
  intros Hs Ht Hn cut Hd Hdis Hlen. splits.
  - by apply strlen_ok.
  - apply strnlen_ok; [lia|done].
  - by apply strcmp_ok.
  - apply compare_eq; by eapply string_nonzero.
  - apply strncmp_ok; [lia|done|done].
  - by apply strchr_ok.
  - unfold strstr, strnstr. rewrite (strlen_ok m b t), ok_bind by done.
    apply strnstr_loop_ok; [done|done|by eapply string_fuel_enough|done].
  - by apply strlcpy_ok.
Qed.

(** "banana", "nan" and room for five bytes. *)
Definition string_memory : memory := memory_of ([98; 97; 110; 97; 110; 97; 0] ++ [110; 97; 110; 0] ++ [1; 1; 1; 1; 1]).

Lemma string_functions_exact_witness : exists r m',
  strstr string_memory 0 7 = Ok r /\ r = Some 2 /\
  strlcpy string_memory 11 0 5 = Ok (m', 4) /\ bytes_of m' 11 5 = map Some [98; 97; 110; 97; 0].
Proof.
  destruct (string_functions_exact string_memory 0 7 11 97 5 [98; 97; 110; 97; 110; 97] [110; 97; 110])
    as (_ & _ & _ & _ & _ & _ & (r & Er & _) & (m' & Em & _)).
  - by vm_compute.
  - by vm_compute.
  - done.
  - intros x Hx. change (11 <= x < 11 + 5) in Hx. assert (x ∈ seqZ 11 5) as Hin by (apply elem_of_seqZ; lia). revert x Hin Hx.
    apply (proj1 (Forall_forall (fun x => 11 <= x < 11 + 5 -> is_Some (string_memory !! x)) (seqZ 11 5))).
    repeat constructor; intros _; vm_compute; eauto.
  - right. cbn. lia.
  - done.
  - exists r, m'. split; [exact Er|]. split; [|split; [exact Em|]].
    + assert (Ok r = strstr string_memory 0 7) as E by (symmetry; exact Er). vm_compute in E. by injection E as ->.
    + assert (Ok (m', 4) = strlcpy string_memory 11 0 5) as E by (symmetry; exact Em). vm_compute in E.
      injection E as ->. by vm_compute.
Defined.

(** [strnstr] misses a needle that ends where the haystack does; an empty haystack does not contain
    the empty needle; and [strcpy] returns the end of the destination. *)
Example strnstr_misses_the_end : strnstr string_memory 7 7 3 = Ok None.
Proof. by vm_compute. Qed.

Example strstr_of_empty : strstr string_memory 6 6 = Ok None.
Proof. by vm_compute. Qed.

Lemma strcpy_returns_end m dst src s : string_at m src s -> Z.of_nat (length s) < SIZE_MAX ->
  mapped m dst (Z.of_nat (length s) + 1) -> disjoint dst (Z.of_nat (length s) + 1) src (Z.of_nat (length s) + 1) ->
  exists m', strcpy m dst src = Ok (m', dst + Z.of_nat (length s)) /\ string_at m' dst s.
Proof.
  intros Hs Hl Hd Hdis. assert (take (Z.to_nat (SIZE_MAX - 1)) s = s) as Et by (apply take_ge; lia).
  destruct (strlcpy_ok m dst src SIZE_MAX s) as (m' & E & Hm & _); rewrite ?Et in *; [done..|].
  exists m'. unfold strcpy. by rewrite E.
Qed.
