(* ===== verification/Strtol.v ===== *)
(** * Reading numbers

    [lib/strtol/strtol.cc] and [strtoul.cc] with the character classes of [include/ctype.h], over
    the strings of [Strings].  A [long] has 32 bits.  The two functions share all but the limits
    and the last lines; [scan_number] is what they share. *)

From S2P Require Import Prelude Memory Strings.

(** ** Characters *)

Definition isascii (c : Z) : bool := Z.land c (Z.lnot 0x7f) =? 0.
Definition isdigit (c : Z) : bool := (48 <=? c) && (c <=? 57).
Definition islower (c : Z) : bool := (97 <=? c) && (c <=? 122).
Definition isupper (c : Z) : bool := (65 <=? c) && (c <=? 90).
Definition isalpha (c : Z) : bool := islower c || isupper c.
Definition isspace (c : Z) : bool := bool_decide (c ∈ [9; 10; 11; 12; 13; 32]).
Definition isprint (c : Z) : bool := (32 <=? c) && (c <=? 126).
Definition isxdigit (c : Z) : bool := isdigit c || ((65 <=? c) && (c <=? 70)) || ((97 <=? c) && (c <=? 102)).
Definition tolower (c : Z) : Z := c + (if isupper c then c else 0).
Definition toupper (c : Z) : Z := c - (if islower c then c else 0).

(** ** The code *)

(** [do { c = *s++; } while (isspace(c))]: the pointer and the character. *)
Fixpoint skip_space (fuel : nat) (m : memory) (s : Z) : outcome (Z * Z) :=
  match fuel with
  | O => Err EFuel
  | S fuel => c ← load m s; if isspace c then skip_space fuel m (s + 1) else Ok (s + 1, c)
  end.

(** The body of the loop up to [if (c >= base)]: the digit, [None] for a [break]. *)
Definition digit_of (c : Z) : option Z :=
  if negb (isascii c) then None
  else if isdigit c then Some (u8 (c - 48))
  else if isalpha c then Some (u8 (c - (if isupper c then 65 - 10 else 97 - 10)))
  else None.

(** The loop: the pointer [s], which is one past [c], and the variables [acc] and [any]. *)
Fixpoint digits_loop (fuel : nat) (m : memory) (s c base cutoff cutlim acc any : Z) : outcome (Z * Z * Z) :=
  match fuel with
  | O => Err EFuel
  | S fuel =>
      match digit_of c with
      | None => Ok (s, acc, any)
      | Some d =>
          if base <=? d then Ok (s, acc, any)
          else
            let '(acc, any) :=
              if (any <? 0) || (cutoff <? acc) || ((acc =? cutoff) && (cutlim <? d)) then (acc, -1)
              else (u32 (u32 (acc * base) + d), 1) in
            c ← load m s;
            digits_loop fuel m (s + 1) c base cutoff cutlim acc any
      end
  end.

(** Spaces, the sign, the prefix and the digits; [limit neg] is the largest value.  The results are
    the sign, [acc], [any] and [*endptr]. *)
Definition scan_number (limit : bool -> Z) (m : memory) (nptr base : Z) : outcome (bool * Z * Z * Z) :=
  '(s, c) ← skip_space (string_fuel m) m nptr;
  '(s, c, neg) ←
    (if c =? 45 then c ← load m s; Ok (s + 1, c, true)
     else if c =? 43 then c ← load m s; Ok (s + 1, c, false)
     else Ok (s, c, false));
  '(s, c, base) ←
    (if ((base =? 0) || (base =? 16)) && (c =? 48) then
       x ← load m s;
       if (x =? 120) || (x =? 88) then c ← load m (s + 1); Ok (s + 2, c, 16) else Ok (s, c, base)
     else Ok (s, c, base));
  let base := if base =? 0 then (if c =? 48 then 8 else 10) else base in
  let cutlim := limit neg mod u32 base in
  let cutoff := limit neg / u32 base in
  '(s, acc, any) ← digits_loop (string_fuel m) m s c base cutoff cutlim 0 0;
  Ok (neg, acc, any, if any =? 0 then nptr else s - 1).

Definition LONG_MAX : Z := 2 ^ 31 - 1.
Definition LONG_MIN : Z := - LONG_MAX - 1.
Definition ULONG_MAX : Z := 2 ^ 32 - 1.

Definition strtol (m : memory) (nptr base : Z) : outcome (Z * Z) :=
  '(neg, acc, any, endptr) ← scan_number (fun neg => if neg : bool then u32 (- LONG_MIN) else LONG_MAX) m nptr base;
  let acc := if any <? 0 then u32 (if neg : bool then LONG_MIN else LONG_MAX)
             else if neg : bool then u32 (- acc) else acc in
  Ok (s32 acc, endptr).

Definition strtoul (m : memory) (nptr base : Z) : outcome (Z * Z) :=
  '(neg, acc, any, endptr) ← scan_number (fun _ => ULONG_MAX) m nptr base;
  let acc := if any <? 0 then ULONG_MAX else if neg : bool then u32 (- acc) else acc in
  Ok (acc, endptr).

(** ** The number that a string denotes *)

Definition is_digit (base c : Z) : Prop := exists d, digit_of c = Some d /\ d < base.
Definition digit (c : Z) : Z := default 0 (digit_of c).

(** The value of digits, after those of value [a]. *)
Fixpoint value_from (base a : Z) (ds : list Z) : Z :=
  match ds with [] => a | c :: ds => value_from base (a * base + digit c) ds end.
Definition value (base : Z) (ds : list Z) : Z := value_from base 0 ds.

(** A number: spaces, an optional sign, digits of the base, and a rest that no digit begins. *)
Inductive sign : Type := NoSign | Plus | Minus.
Definition sign_chars (sg : sign) : list Z := match sg with NoSign => [] | Plus => [43] | Minus => [45] end.
Definition negative (sg : sign) : bool := match sg with Minus => true | _ => false end.

(** The character after a prefix of a string, the final 0 included. *)
Definition next_char (s : list Z) : Z := hd 0 s.

Lemma digit_of_bound c d : 0 <= c -> digit_of c = Some d -> 0 <= d < 36.
Proof.
  intros Hc. unfold digit_of, isdigit, isalpha, islower, isupper.
  destruct (negb _); [done|]. destruct (Z.leb_spec 48 c), (Z.leb_spec c 57), (Z.leb_spec 97 c), (Z.leb_spec c 122),
    (Z.leb_spec 65 c), (Z.leb_spec c 90); cbn; try done; try lia; intros [= <-]; unfold u8; rewrite wrap_small; lia.
Qed.

Lemma string_app m s t : forall a, string_at m a (s ++ t) -> string_at m (a + Z.of_nat (length s)) t.
Proof.
  intros a H. rewrite <- (drop_app_length s t). apply string_tail; [done|]. rewrite length_app. lia.
Qed.

Lemma load_next m a s : string_at m a s -> load m a = Ok (next_char s).
Proof. intros H. unfold load. destruct s as [|c s]; [by rewrite H|]. by destruct H as (-> & _). Qed.

Lemma skip_space_ok m sp s : forall fuel a, string_at m a (sp ++ s) -> Forall (fun c => isspace c = true) sp ->
  isspace (next_char s) = false -> (length sp < fuel)%nat ->
  skip_space fuel m a = Ok (a + Z.of_nat (length sp) + 1, next_char s).
Proof.
  induction sp as [|c sp IH]; intros [|fuel] a H Hsp Hs Hf; cbn [length app skip_space] in *; try lia;
    rewrite (load_next _ _ _ H), ok_bind.
  - rewrite Hs. do 2 f_equal. lia.
  - apply Forall_cons in Hsp as [Hc Hsp]. cbn [next_char hd]. rewrite Hc. destruct H as (_ & _ & H).
    rewrite (IH fuel (a + 1)) by (done || lia). do 2 f_equal. lia.
Qed.

Section Digits.
Context (m : memory) (base limit : Z) (Hbase : 2 <= base <= 36) (Hlimit : 0 <= limit < 2 ^ 32).

#[local] Notation cutoff := (limit / base).
#[local] Notation cutlim := (limit mod base).

Lemma next_stop rest : ~ is_digit base (next_char rest) ->
  match digit_of (next_char rest) with Some d => (base <=? d) = true | None => True end.
Proof.
  intros H. destruct (digit_of _) as [d|] eqn:E; [|done]. apply Z.leb_le.
  destruct (Z.le_gt_cases base d); [done|]. destruct H. by exists d.
Qed.

(** The test of the loop is that of the next value against the limit. *)
Lemma over_limit acc d : 0 <= acc -> 0 <= d < base ->
  (cutoff <? acc) || ((acc =? cutoff) && (cutlim <? d)) = (limit <? acc * base + d).
Proof.
  intros Ha Hd. pose proof (Z.div_mod limit base ltac:(lia)) as E. pose proof (Z.mod_pos_bound limit base ltac:(lia)) as Hr.
  set (q := cutoff) in *. set (r := cutlim) in *. clearbody q r.
  destruct (Z.eqb_spec acc q) as [->|Hne].
  - rewrite Z.ltb_irrefl. cbn [orb andb]. destruct (Z.ltb_spec r d), (Z.ltb_spec limit (q * base + d)); done || lia.
  - rewrite andb_false_l, orb_false_r. destruct (Z.ltb_spec q acc) as [Hl|Hl].
    + assert ((q + 1) * base <= acc * base) by (apply Z.mul_le_mono_nonneg_r; lia). symmetry. apply Z.ltb_lt. lia.
    + assert (acc * base <= (q - 1) * base) by (apply Z.mul_le_mono_nonneg_r; lia). symmetry. apply Z.ltb_ge. lia.
Qed.

Lemma value_from_ge ds : forall a, 0 <= a -> Forall (is_digit base) ds -> Forall (fun c => 0 <= c) ds -> a <= value_from base a ds.
Proof.
  induction ds as [|c ds IH]; intros a Ha Hds Hc; cbn [value_from]; [lia|].
  apply Forall_cons in Hds as [(d & Ed & Hd) Hds]. apply Forall_cons in Hc as [Hc0 Hc].
  pose proof (digit_of_bound c d Hc0 Ed). assert (digit c = d) as -> by (unfold digit; by rewrite Ed).
  specialize (IH (a * base + d) ltac:(nia) Hds Hc). nia.
Qed.

(** After an overflow the loop only passes the digits. *)
Lemma digits_over rest ds : ~ is_digit base (next_char rest) -> forall fuel a acc, string_at m a (ds ++ rest) ->
  Forall (is_digit base) ds -> (length ds < fuel)%nat ->
  digits_loop fuel m (a + 1) (next_char (ds ++ rest)) base cutoff cutlim acc (-1) = Ok (a + Z.of_nat (length ds) + 1, acc, -1).
Proof.
  intros Hrest%next_stop. induction ds as [|c ds IH]; intros [|fuel] a acc H Hds Hf; cbn [length app digits_loop] in *; try lia.
  - destruct (digit_of _) as [d|]; [rewrite Hrest|]; do 3 f_equal; lia.
  - apply Forall_cons in Hds as [(d & Ed & Hd) Hds]. cbn [next_char hd]. rewrite Ed, (proj2 (Z.leb_gt base d)) by done.
    destruct H as (_ & _ & H). cbn [Z.ltb Z.compare orb]. rewrite (load_next _ _ _ H), ok_bind.
    rewrite IH by (done || lia). do 3 f_equal. lia.
Qed.

Lemma digits_ok rest ds : ~ is_digit base (next_char rest) -> forall fuel a acc any, string_at m a (ds ++ rest) ->
  Forall (is_digit base) ds -> Forall (fun c => 0 <= c) ds -> (length ds < fuel)%nat -> 0 <= acc <= limit -> 0 <= any ->
  exists acc' any', digits_loop fuel m (a + 1) (next_char (ds ++ rest)) base cutoff cutlim acc any =
    Ok (a + Z.of_nat (length ds) + 1, acc', any') /\
    let v := value_from base acc ds in
    if limit <? v then any' = -1 else acc' = v /\ any' = if ds is [] then any else 1.
Proof.
  intros Hrest. pose proof (next_stop _ Hrest) as Hstop.
  induction ds as [|c ds IH]; intros [|fuel] a acc any H Hds Hc Hf Hacc Hany; cbn [length app digits_loop] in *; try lia.
  - exists acc, any. cbn [value_from]. rewrite (proj2 (Z.ltb_ge limit acc)) by lia. split; [|done].
    destruct (digit_of _) as [d|]; [rewrite Hstop|]; do 3 f_equal; lia.
  - apply Forall_cons in Hds as [(d & Ed & Hd) Hds]. apply Forall_cons in Hc as [Hc0 Hc].
    pose proof (digit_of_bound c d Hc0 Ed). cbn [next_char hd]. rewrite Ed, (proj2 (Z.leb_gt base d)) by done.
    destruct H as (_ & _ & H). rewrite (proj2 (Z.ltb_ge any 0)) by done. cbn [orb]. rewrite over_limit by lia.
    cbn [value_from]. assert (digit c = d) as -> by (unfold digit; by rewrite Ed).
    destruct (Z.ltb_spec limit (acc * base + d)) as [Ho|Hi]; rewrite (load_next _ _ _ H), ok_bind.
    + rewrite digits_over by (done || lia). exists acc, (-1). split; [do 3 f_equal; lia|].
      pose proof (value_from_ge ds (acc * base + d) ltac:(nia) Hds Hc). cbv zeta. by rewrite (proj2 (Z.ltb_lt _ _)) by lia.
    + assert (u32 (u32 (acc * base) + d) = acc * base + d) as ->.
      { unfold u32. rewrite (wrap_small 32 (acc * base)) by nia. apply wrap_small. nia. }
      destruct (IH fuel (a + 1) (acc * base + d) 1 H Hds Hc ltac:(lia) ltac:(nia) ltac:(lia)) as (acc' & any' & E & Hv).
      exists acc', any'. rewrite E. split; [do 3 f_equal; lia|]. cbv zeta in *.
      destruct (_ <? _); [done|]. destruct Hv as [-> ->]. by destruct ds.
Qed.
End Digits.

(** ** Prefixes *)

Definition hex_prefix (body : list Z) : Prop := exists x tl, body = 48 :: x :: tl /\ (x = 120 \/ x = 88).

(** The base of the digits and the length of the prefix, for the argument [base] and what comes
    after the sign. *)
Inductive based (body : list Z) : Z -> nat -> Z -> Prop :=
  | based_plain b : 2 <= b <= 36 -> (b = 16 -> ~ hex_prefix body) -> based body b 0 b
  | based_hex b : b = 0 \/ b = 16 -> hex_prefix body -> based body b 2 16
  | based_octal : next_char body = 48 -> ~ hex_prefix body -> based body 0 0 8
  | based_decimal : next_char body <> 48 -> based body 0 0 10.

Lemma based_range body b n b' : based body b n b' -> 2 <= b' <= 36.
Proof. destruct 1; lia. Qed.

Record number (s : list Z) (base0 : Z) (sp : list Z) (sg : sign) (skip : nat) (base : Z) (ds rest : list Z) : Prop := {
  nu_string : exists pre, s = sp ++ sign_chars sg ++ pre ++ ds ++ rest /\ length pre = skip /\
    based (pre ++ ds ++ rest) base0 skip base /\
    (sg = NoSign -> next_char (pre ++ ds ++ rest) <> 43 /\ next_char (pre ++ ds ++ rest) <> 45 /\
       isspace (next_char (pre ++ ds ++ rest)) = false);
  nu_space : Forall (fun c => isspace c = true) sp;
  nu_digits : Forall (is_digit base) ds;
  nu_stop : ~ is_digit base (next_char rest);
  nu_bytes : Forall (fun c => 0 <= c) s;
}.

Lemma scan_ok limit m a s base0 sp sg skip base ds rest :
  string_at m a s -> number s base0 sp sg skip base ds rest -> (forall neg, 0 <= limit neg < 2 ^ 32) ->
  exists acc any, scan_number limit m a base0 = Ok (negative sg, acc, any,
      if ds is [] then a else a + Z.of_nat (length sp + length (sign_chars sg) + skip + length ds)) /\
    if limit (negative sg) <? value base ds then any = -1 else acc = value base ds /\ 0 <= any.
Proof.
  intros Hs [(pre & -> & Hskip & Hb & Hsg) Hsp Hds Hstop Hby] Hlim. unfold scan_number.
  pose proof (string_fuel_enough m a _ Hs) as Hfuel. rewrite !length_app in Hfuel.
  set (body := pre ++ ds ++ rest) in *. pose proof (based_range _ _ _ _ Hb) as Hrange.
  assert (string_at m (a + Z.of_nat (length sp)) (sign_chars sg ++ body)) as H1 by (by apply string_app).
  rewrite (skip_space_ok m sp (sign_chars sg ++ body)); [|done|done|destruct sg; [by apply Hsg|done..]|lia].
  rewrite ok_bind. cbv beta iota. set (b := a + Z.of_nat (length sp)) in *.
  assert (string_at m (b + Z.of_nat (length (sign_chars sg))) body) as H2 by (by apply string_app).
  set (e := b + Z.of_nat (length (sign_chars sg))) in *.
  match goal with |- context [?x ≫= _] =>
    assert (x = Ok (e + 1, next_char body, negative sg)) as -> end.
  { unfold e. destruct sg; cbn [sign_chars app next_char hd length negative] in *.
    - destruct (Hsg eq_refl) as (N1 & N2 & _). rewrite (proj2 (Z.eqb_neq _ 45)), (proj2 (Z.eqb_neq _ 43)) by done.
      by rewrite Z.add_0_r.
    - cbn [Z.eqb Pos.eqb]. destruct H1 as (_ & _ & H1). by rewrite (load_next _ _ _ H1).
    - cbn [Z.eqb Pos.eqb]. destruct H1 as (_ & _ & H1). by rewrite (load_next _ _ _ H1). }
  rewrite ok_bind. cbv beta iota.
  assert (string_at m (e + Z.of_nat skip) (ds ++ rest)) as H3 by (rewrite <- Hskip; by apply string_app).
  set (f := e + Z.of_nat skip) in *.
  match goal with |- context [?x ≫= _] =>
    assert (exists b1, x = Ok (f + 1, next_char (ds ++ rest), b1) /\
      (if b1 =? 0 then (if next_char (ds ++ rest) =? 48 then 8 else 10) else b1) = base) as (b1 & -> & Eb) end.
  { assert (skip = 0%nat -> f + 1 = e + 1 /\ next_char (ds ++ rest) = next_char body) as H0.
    { intros ->. unfold f, body. apply nil_length_inv in Hskip as ->. split; [lia|done]. }
    assert (forall b0, ~ hex_prefix body -> skip = 0%nat ->
      (if ((b0 =? 0) || (b0 =? 16)) && (next_char body =? 48) then
         x ← load m (e + 1); if (x =? 120) || (x =? 88) then c ← load m (e + 1 + 1); Ok (e + 1 + 2, c, 16)
         else Ok (e + 1, next_char body, b0)
       else Ok (e + 1, next_char body, b0)) = Ok (f + 1, next_char (ds ++ rest), b0)) as Hplain.
    { intros b0 Hx Hsk. destruct (H0 Hsk) as [-> ->]. destruct (_ && _) eqn:Ec; [|done].
      apply andb_true_iff in Ec as [_ Ec%Z.eqb_eq]. destruct body as [|c body']; [discriminate Ec|].
      cbn [next_char hd] in Ec. subst c. pose proof H2 as (_ & _ & H2'). rewrite (load_next _ _ _ H2'), ok_bind.
      destruct ((_ =? 120) || _) eqn:Ex; [|done]. destruct Hx. destruct body' as [|x tl]; [discriminate Ex|].
      exists x, tl. split; [done|]. apply orb_true_iff in Ex as [E%Z.eqb_eq|E%Z.eqb_eq]; [by left|by right]. }
    destruct Hb as [b0 Hr Hx|b0 Hr (x & tl & Eb & Hx)|Hc Hx|Hc].
    - exists b0. destruct (decide (b0 = 16)) as [->|Hn16]; [split; [by apply Hplain; [apply Hx|]|done]|].
      rewrite (proj2 (Z.eqb_neq b0 0)), (proj2 (Z.eqb_neq b0 16)) by lia. cbn [orb andb].
      destruct (H0 eq_refl) as [-> ->]. done.
    - exists 16. split; [|done]. rewrite Eb in H2 |- *. cbn [next_char hd]. rewrite Z.eqb_refl, andb_true_r.
      assert ((b0 =? 0) || (b0 =? 16) = true) as -> by (by destruct Hr as [->| ->]).
      destruct H2 as (_ & _ & H2). rewrite (load_next _ _ _ H2), ok_bind. cbn [next_char hd].
      assert ((x =? 120) || (x =? 88) = true) as -> by (by destruct Hx as [->| ->]).
      replace (e + 1 + 1) with f by (unfold f; lia). rewrite (load_next _ _ _ H3), ok_bind. do 3 f_equal; unfold f; lia.
    - exists 0. split; [by apply Hplain|]. destruct (H0 eq_refl) as [_ ->]. by rewrite Hc.
    - exists 0. destruct (H0 eq_refl) as [-> ->]. rewrite (proj2 (Z.eqb_neq _ 48)), andb_false_r by done. done. }
  rewrite ok_bind. cbv beta iota zeta. rewrite Eb. assert (u32 base = base) as -> by (apply wrap_small; lia).
  unfold body in Hby. rewrite !Forall_app in Hby. destruct Hby as (_ & _ & _ & Hby & _).
  destruct (digits_ok m base (limit (negative sg)) Hrange (Hlim _) rest ds Hstop
    (string_fuel m) f 0 0 H3 Hds Hby) as (acc & any & -> & Hv); [lia|
    specialize (Hlim (negative sg)); lia|lia|].
  rewrite ok_bind. cbv beta iota. exists acc, any. cbv zeta in Hv. fold (value base ds) in Hv. split.
  - do 2 f_equal. destruct ds as [|c ds].
    + unfold value in Hv. cbn [value_from] in Hv. specialize (Hlim (negative sg)). rewrite (proj2 (Z.ltb_ge _ 0)) in Hv by lia.
      by destruct Hv as [_ ->].
    + rewrite (proj2 (Z.eqb_neq any 0)); [unfold f, e, b; cbn [length]; lia|]. destruct (_ <? _); [lia|]. destruct Hv. lia.
  - destruct (_ <? _); [done|]. destruct Hv as [-> ->]. split; [done|]. by destruct ds.
Qed.

(** C39.  [strtol] and [strtoul] read the number at the start of a string: after spaces, a sign and
    for the bases 0 and 16 a prefix that tells the base, the digits of the base as far as they go.
    [strtol] returns the number, or the largest or the least [long] if it is out of range;
    [strtoul] returns the number modulo 2^32, or the largest [unsigned long] if its digits are out
    of range; and [*endptr] is the position after the digits, or the start if there are none. *)
Theorem strtol_reads_number m a s base0 sp sg skip base ds rest :
  string_at m a s -> number s base0 sp sg skip base ds rest ->
  let v := value base ds in
  let endptr := if ds is [] then a else a + Z.of_nat (length sp + length (sign_chars sg) + skip + length ds) in
  strtol m a base0 = Ok (if negative sg then Z.max LONG_MIN (- v) else Z.min LONG_MAX v, endptr) /\
  strtoul m a base0 = Ok (if ULONG_MAX <? v then ULONG_MAX else u32 (if negative sg then - v else v), endptr).
Proof.
  intros Hs Hn v endptr. assert (0 <= v) as Hv0.
  { pose proof Hn as [(pre & -> & _ & Hb & _) _ Hds _ Hby]. apply based_range in Hb. rewrite !Forall_app in Hby.
    apply (value_from_ge base Hb); [done|done|naive_solver]. }
  assert (u32 (- LONG_MIN) = 2 ^ 31) as El by done. split.
  - unfold strtol. destruct (scan_ok (fun neg => if neg : bool then u32 (- LONG_MIN) else LONG_MAX) m a s base0 sp sg skip base ds rest)
      as (acc & any & -> & H); [done|done|intros []; done|]. rewrite ok_bind. cbv beta iota zeta. fold v in H.
    destruct (negative sg).
    + rewrite El in H. destruct (Z.ltb_spec (2 ^ 31) v).
      * subst any. cbn [Z.ltb Z.compare]. rewrite Z.max_l by (unfold LONG_MIN, LONG_MAX; lia). done.
      * destruct H as [-> Hany]. rewrite (proj2 (Z.ltb_ge any 0)) by done. rewrite Z.max_r by (unfold LONG_MIN, LONG_MAX; lia).
        rewrite <- (s32_small (- v)) at 2 by lia. unfold s32, signed, u32. by rewrite wrap_wrap.
    + unfold LONG_MAX in H. destruct (Z.ltb_spec (2 ^ 31 - 1) v).
      * subst any. cbn [Z.ltb Z.compare]. rewrite Z.min_l by (unfold LONG_MAX; lia). done.
      * destruct H as [-> Hany]. rewrite (proj2 (Z.ltb_ge any 0)) by done. rewrite Z.min_r by (unfold LONG_MAX; lia).
        by rewrite s32_small by lia.
  - unfold strtoul. destruct (scan_ok (fun _ => ULONG_MAX) m a s base0 sp sg skip base ds rest)
      as (acc & any & -> & H); [done|done|intros _; done|]. rewrite ok_bind. cbv beta iota zeta. fold v in H.
    destruct (Z.ltb_spec ULONG_MAX v).
    + subst any. done.
    + destruct H as [-> Hany]. rewrite (proj2 (Z.ltb_ge any 0)) by done. destruct (negative sg); [done|].
      unfold u32. by rewrite wrap_small by (unfold ULONG_MAX in *; lia).
Qed.

(** " -0x2Ag" *)
Definition hex_number : list Z := [32; 45; 48; 120; 50; 65; 103].

Lemma strtol_reads_number_witness :
  strtol (memory_of (hex_number ++ [0])) 0 0 = Ok (-42, 6) /\ strtoul (memory_of (hex_number ++ [0])) 0 0 = Ok (2 ^ 32 - 42, 6).
Proof.
  apply (strtol_reads_number (memory_of (hex_number ++ [0])) 0 hex_number 0 [32] Minus 2 16 [50; 65] [103]).
  - by vm_compute.
  - split.
    + exists [48; 120]. splits; [done|done| |done]. apply based_hex; [by left|]. exists 120, [50; 65; 103]. split; [done|by left].
    + by repeat constructor.
    + constructor; [by exists 2|]. constructor; [by exists 10|done].
    + intros (d & E & Hd). cbn in E. injection E as <-. by vm_compute in Hd.
    + by repeat constructor.
Defined.

(** After a prefix without digits the number is the 0 of the prefix, by the C standard, and ends
    before the x; the code reports that there is no number. *)
Example prefix_without_digits : strtol (memory_of ([48; 120; 103] ++ [0])) 0 16 = Ok (0, 0).
Proof. by vm_compute. Qed.

(** The case conversions double a letter, or take it from itself. *)
Example case_conversions : tolower 65 = 130 /\ toupper 97 = 0.
Proof. done. Qed.
