(* ===== verification/Machine.v ===== *)
(** * Threads that share futex words

    The synchronisation libraries ([src/cheriot-rtos/sdk/lib/locks/], [lib/queue/]) are
    modelled as machines: each thread is at a point of the code, a point performs one
    atomic access of the shared state, and the threads' steps interleave in any order.
    The futex calls of [include/futex.h] are actions of the machine: [Wait] is
    [futex_timed_wait] (return at once if the word differs, else sleep until a wake or the
    end of the timeout), [Notify] is [futex_wake].  A run is a list of events, so that
    concrete interleavings are executable. *)

From S2P Require Import Prelude.

Section Machine.
Context {S L K : Type} `{EqDecision K}.

(** What a thread does next at a point of its code. *)
Inductive action : Type :=
  | Go (s : S) (l : L)                    (* one atomic access of the shared state *)
  | Wait (k : K) (expected : Z) (l : L)   (* futex_timed_wait on word [k] *)
  | Notify (k : K) (n : Z) (l : L)        (* futex_wake of at most [n] threads *)
  | Idle.                                 (* between two calls *)

Inductive status : Type := Running (l : L) | Asleep (k : K) (l : L).

Record machine : Type := mkMachine {
  word : S -> K -> Z;
  (* the action at a point; the boolean answers [timeout.may_block()] *)
  program : nat -> bool -> S -> L -> action;
  (* where a thread goes on when a futex call made at a point returns *)
  resume : L -> Z -> L;
  (* which calls a client may make *)
  may_call : nat -> L -> L -> bool;
  (* results of a futex wait that is not woken: a timeout or an error *)
  may_end : Z -> bool }.

Record config : Type := mkConfig { shared : S; threads : list status }.

Inductive event : Type :=
  | Step (t : nat) (may_block : bool) (woken : list nat)
  | Call (t : nat) (l : L)
  | End (t : nat) (r : Z).

Context (m : machine).

Definition asleep_on (k : K) (ths : list status) (t : nat) : bool :=
  match ths !! t with Some (Asleep k' _) => bool_decide (k = k') | _ => false end.

Definition sleepers (k : K) (ths : list status) : list nat :=
  filter (fun t => asleep_on k ths t = true) (seq 0 (length ths)).

(** The threads a wake chooses: sleepers of that word, as many as asked for. *)
Definition chosen (k : K) (n : Z) (w : list nat) (ths : list status) : bool :=
  bool_decide (NoDup w) && forallb (asleep_on k ths) w
  && (Z.of_nat (length w) =? Z.min n (Z.of_nat (length (sleepers k ths)))).

Definition rouse (w : list nat) (t : nat) (st : status) : status :=
  match st with
  | Asleep k l => if bool_decide (t ∈ w) then Running (resume m l 0) else st
  | _ => st
  end.

Definition wake (w : list nat) (ths : list status) : list status := imap (rouse w) ths.

Definition exec (e : event) (c : config) : option config :=
  let ths := threads c in
  match e with
  | Step t b w =>
      match ths !! t with
      | Some (Running l) =>
          match program m t b (shared c) l with
          | Go s l' => Some (mkConfig s (<[t := Running l']> ths))
          | Wait k v l' =>
              Some (mkConfig (shared c)
                (<[t := if word m (shared c) k =? v then Asleep k l'
                        else Running (resume m l' 0)]> ths))
          | Notify k n l' =>
              if chosen k n w ths
              then Some (mkConfig (shared c)
                     (<[t := Running (resume m l' (Z.of_nat (length w)))]> (wake w ths)))
              else None
          | Idle => None
          end
      | _ => None
      end
  | Call t l =>
      match ths !! t with
      | Some (Running l0) =>
          if may_call m t l0 l then Some (mkConfig (shared c) (<[t := Running l]> ths)) else None
      | _ => None
      end
  | End t r =>
      if may_end m r then
        match ths !! t with
        | Some (Asleep k l) => Some (mkConfig (shared c) (<[t := Running (resume m l r)]> ths))
        | Some (Running l) =>
            match program m t true (shared c) l with
            | Wait _ _ l' => Some (mkConfig (shared c) (<[t := Running (resume m l' r)]> ths))
            | _ => None
            end
        | None => None
        end
      else None
  end.

Fixpoint run (es : list event) (c : config) : option config :=
  match es with [] => Some c | e :: es => exec e c ≫= run es end.

(** A property of single configurations that every event preserves holds after any run. *)
Lemma run_invariant (P : config -> Prop) :
  (forall e c c', P c -> exec e c = Some c' -> P c') ->
  forall es c c', P c -> run es c = Some c' -> P c'.
Proof.
  intros Hs es. induction es as [|e es IH]; cbn; intros c c' Hc Hr; [naive_solver|].
  destruct (exec e c) as [c1|] eqn:He; [|discriminate]. eauto.
Qed.

(** The events as a relation, one rule per kind of move. *)
Inductive move (c : config) : config -> Prop :=
  | move_go t b l s l' :
      threads c !! t = Some (Running l) -> program m t b (shared c) l = Go s l' ->
      move c (mkConfig s (<[t := Running l']> (threads c)))
  | move_sleep t b l k v l' :
      threads c !! t = Some (Running l) -> program m t b (shared c) l = Wait k v l' ->
      word m (shared c) k = v ->
      move c (mkConfig (shared c) (<[t := Asleep k l']> (threads c)))
  | move_pass t b l k v l' :
      threads c !! t = Some (Running l) -> program m t b (shared c) l = Wait k v l' ->
      word m (shared c) k <> v ->
      move c (mkConfig (shared c) (<[t := Running (resume m l' 0)]> (threads c)))
  | move_notify t b l k n l' w :
      threads c !! t = Some (Running l) -> program m t b (shared c) l = Notify k n l' ->
      chosen k n w (threads c) = true ->
      move c (mkConfig (shared c)
        (<[t := Running (resume m l' (Z.of_nat (length w)))]> (wake w (threads c))))
  | move_call t l0 l :
      threads c !! t = Some (Running l0) -> may_call m t l0 l = true ->
      move c (mkConfig (shared c) (<[t := Running l]> (threads c)))
  | move_timeout t k l r :
      threads c !! t = Some (Asleep k l) -> may_end m r = true ->
      move c (mkConfig (shared c) (<[t := Running (resume m l r)]> (threads c)))
  | move_refused t l k v l' r :
      threads c !! t = Some (Running l) -> program m t true (shared c) l = Wait k v l' ->
      may_end m r = true ->
      move c (mkConfig (shared c) (<[t := Running (resume m l' r)]> (threads c))).

Lemma exec_move e c c' : exec e c = Some c' -> move c c'.
Proof.
  destruct e as [t b w|t l|t r]; cbn.
  - destruct (threads c !! t) as [[l|]|] eqn:Ht; try discriminate.
    destruct (program m t b (shared c) l) eqn:Hp; try discriminate.
    + intros [= <-]. eauto using move.
    + destruct (_ =? _) eqn:He; intros [= <-].
      * apply Z.eqb_eq in He. eauto using move.
      * apply Z.eqb_neq in He. eauto using move.
    + destruct (chosen _ _ _ _) eqn:He; [|discriminate]. intros [= <-]. eauto using move.
  - destruct (threads c !! t) as [[l0|]|] eqn:Ht; try discriminate.
    destruct (may_call _ _ _ _) eqn:He; [|discriminate]. intros [= <-]. eauto using move.
  - destruct (may_end m r) eqn:He; [|discriminate].
    destruct (threads c !! t) as [[l|k l]|] eqn:Ht; try discriminate.
    + destruct (program m t true (shared c) l) eqn:Hp; try discriminate.
      intros [= <-]. eauto using move.
    + intros [= <-]. eauto using move.
Qed.

Lemma move_invariant (P : config -> Prop) :
  (forall c c', P c -> move c c' -> P c') ->
  forall es c c', P c -> run es c = Some c' -> P c'.
Proof. intros Hs. apply run_invariant. eauto using exec_move. Qed.

(** ** Waking *)

Lemma lookup_wake w ths t : wake w ths !! t = rouse w t <$> ths !! t.
Proof. apply list_lookup_imap. Qed.

Lemma length_wake w ths : length (wake w ths) = length ths.
Proof. apply length_imap. Qed.

Lemma elem_sleepers k ths t : t ∈ sleepers k ths <-> asleep_on k ths t = true.
Proof.
  unfold sleepers. rewrite list_elem_of_filter, elem_of_seq.
  split; [tauto|]. intros Ha. split; [done|]. unfold asleep_on in Ha.
  destruct (ths !! t) eqn:Ht; [|discriminate]. apply lookup_lt_Some in Ht. lia.
Qed.

(** A wake with a count no smaller than the number of threads wakes every sleeper. *)
Lemma chosen_all k n w ths :
  chosen k n w ths = true -> Z.of_nat (length ths) <= n ->
  forall t, asleep_on k ths t = true -> t ∈ w.
Proof.
  unfold chosen. rewrite !andb_true_iff, bool_decide_eq_true, forallb_forall, Z.eqb_eq.
  intros [[Hnd Hall] Hlen] Hn t Ht.
  assert (length (sleepers k ths) <= length ths)%nat as Hle.
  { unfold sleepers. etrans; [apply length_filter|]. by rewrite length_seq. }
  assert (incl w (sleepers k ths)) as Hinc.
  { intros u Hu. apply list_elem_of_In, elem_sleepers. auto. }
  assert (incl (sleepers k ths) w) as Hinc'.
  { apply NoDup_length_incl; [by apply NoDup_ListNoDup|lia|done]. }
  apply list_elem_of_In, Hinc', list_elem_of_In, elem_sleepers, Ht.
Qed.

(** What a thread is after a move of another thread: as before, or woken. *)
Lemma lookup_moved t u st w ths st' :
  <[t := st]> (wake w ths) !! u = Some st' ->
  (u = t /\ st' = st) \/ (u <> t /\ exists st0, ths !! u = Some st0 /\ st' = rouse w u st0).
Proof.
  rewrite list_lookup_insert_Some, lookup_wake.
  intros [(-> & -> & _)|(Hn & Hu)]; [by left|right].
  apply fmap_Some in Hu as (st0 & Hu & ->). eauto.
Qed.

Lemma lookup_stepped t u st (ths : list status) st' :
  <[t := st]> ths !! u = Some st' ->
  (u = t /\ st' = st) \/ (u <> t /\ ths !! u = Some st').
Proof. rewrite list_lookup_insert_Some. naive_solver. Qed.

(** Some thread is in a status that satisfies [P]. *)
Definition someone (P : status -> Prop) (ths : list status) : Prop :=
  exists t st, ths !! t = Some st /\ P st.

Lemma someone_step P t st ths : someone P (<[t := st]> ths) -> P st \/ someone P ths.
Proof. intros (u & st' & [[-> ->]|[_ Hu]]%lookup_stepped & HP); [by left|right; by exists u, st']. Qed.

Lemma someone_here (P : status -> Prop) t st0 st ths :
  ths !! t = Some st0 -> P st -> someone P (<[t := st]> ths).
Proof.
  intros Ht HP. exists t, st. split; [|done].
  apply list_lookup_insert_eq. eauto using lookup_lt_Some.
Qed.

Lemma someone_keep (P : status -> Prop) t st0 st ths :
  ths !! t = Some st0 -> (P st0 -> P st) -> someone P ths -> someone P (<[t := st]> ths).
Proof.
  intros Ht HP (u & st' & Hu & Hst). destruct (decide (u = t)) as [->|Hne].
  - simplify_eq. eauto using someone_here.
  - exists u, st'. by rewrite list_lookup_insert_ne.
Qed.

End Machine.

Arguments action : clear implicits.
Arguments status : clear implicits.
Arguments machine : clear implicits.
Arguments config : clear implicits.
Arguments event : clear implicits.

(** Discard the points whose action is not the one of [H]. *)
Ltac other_action H :=
  try discriminate H;
  try match type of H with context [if ?b then _ else _] => destruct b; discriminate H end.
