(* ===== verification/FlagLock.v ===== *)
(** * Flag locks

    [src/cheriot-rtos/sdk/lib/locks/locks.cc], [InternalFlagLock] and its entry points, and
    the wrappers of [include/locks.h] and [include/locks.hh].  The lock word is the shared
    state; the points of [try_lock], [unlock] and [upgrade_for_destruction] are those
    between two atomic accesses.  A thread that ends [try_lock] with 0 is at [Held], and
    only from there may it call [unlock]; any thread may put the lock in destruction mode. *)

From S2P Require Import Prelude Machine.

(** ** The lock word *)

Definition Unlocked : Z := 0.
Definition Locked : Z := Z.shiftl 1 16.
Definition LockedWithWaiters : Z := Z.shiftl 1 17.
Definition LockedInDestructMode : Z := Z.shiftl 1 18.

Definition UINT32_MAX : Z := 2 ^ 32 - 1.

Inductive point : Type :=
  | Out (r : Z)                (* outside, the last call returned [r] *)
  | Held                       (* [try_lock] returned 0 *)
  | TryLock                    (* the first compare-and-exchange *)
  | CasFailed (old : Z)        (* the tests of its failure *)
  | AddWaiters (old : Z)       (* the second compare-and-exchange *)
  | WaitOn (old : Z)           (* the futex wait *)
  | Waiting                    (* inside the futex wait *)
  | Unlock                     (* the fetch_and of [unlock] *)
  | WakeAll                    (* its notify_all *)
  | Upgrade (held : bool)      (* the [|=] of [upgrade_for_destruction] *)
  | Reread (held : bool)       (* its test of the waiters *)
  | WakeDestroyed (held : bool) (* its notify_all *)
  | AssertFailed.              (* a debug assertion failed *)

Definition owner (word : Z) : Z := Z.land word 0xffff.

Section FlagLock.
(* DEBUG_LOCKS, the priority-inheriting variant, and the identifiers of the threads *)
Context (DebugLocks isPriorityInherited : bool) (thread_id_get : nat -> Z).

Definition threadID (t : nat) : Z :=
  if isPriorityInherited || DebugLocks then thread_id_get t else 0.

Definition back (held : bool) : point := if held then Held else Out 0.

Definition try_lock_test (may_block : bool) (old : Z) : point :=
  if negb (Z.land old LockedInDestructMode =? 0) then Out (- ENOENT)
  else if negb may_block then Out (- ETIMEDOUT)
  else if Z.land old LockedWithWaiters =? 0 then
    if DebugLocks && negb (Z.land old 0xffff0000 =? Locked) then AssertFailed
    else AddWaiters old
  else WaitOn old.

Definition unlock_test (t : nat) (old : Z) : point :=
  if DebugLocks && ((old =? Unlocked) || negb (Z.land old 0xffff =? thread_id_get t))
  then AssertFailed
  else if negb (Z.land old LockedWithWaiters =? 0) then WakeAll else Out 0.

Definition flaglock_step (t : nat) (may_block : bool) (word : Z) (p : point)
    : action Z point unit :=
  match p with
  | Out _ | Held | Waiting | AssertFailed => Idle
  | TryLock =>
      if word =? Unlocked then Go (Z.lor Locked (threadID t)) Held else Go word (CasFailed word)
  | CasFailed old => Go word (try_lock_test may_block old)
  | AddWaiters old =>
      let addedWaiters := Z.lor LockedWithWaiters (Z.land old 0xffff) in
      if word =? old then Go addedWaiters (WaitOn addedWaiters) else Go word TryLock
  | WaitOn old => Wait tt old Waiting
  | Unlock => Go (Z.land word LockedInDestructMode) (unlock_test t word)
  | WakeAll => Notify tt UINT32_MAX (Out 0)
  | Upgrade held => Go (Z.lor word LockedInDestructMode) (Reread held)
  | Reread held =>
      Go word (if negb (Z.land word LockedWithWaiters =? 0) then WakeDestroyed held else back held)
  | WakeDestroyed held => Notify tt UINT32_MAX (back held)
  end.

Definition flaglock_resume (p : point) (r : Z) : point :=
  match p with Waiting => if r =? 0 then TryLock else Out r | _ => p end.

Definition flaglock_may_call (t : nat) (p p' : point) : bool :=
  match p, p' with
  | Out _, TryLock | Out _, Upgrade false => true
  | Held, Unlock | Held, Upgrade true => true
  | _, _ => false
  end.

(** A wait may end by itself with any result: with 0 it is a spurious wake. *)
Definition flaglock : machine Z point unit :=
  mkMachine (fun word _ => word) flaglock_step flaglock_resume flaglock_may_call (fun _ => true).

Definition flaglock_init (n : nat) : config Z point unit :=
  mkConfig 0 (replicate n (Running (Out 0))).

(** ** The invariant *)

Definition holds_at (p : point) : bool :=
  match p with
  | Held | Unlock | Upgrade true | Reread true | WakeDestroyed true => true
  | _ => false
  end.

Definition holds (st : status point unit) : bool :=
  match st with Running p => holds_at p | Asleep _ _ => false end.

Definition sleeps (st : status point unit) : bool :=
  match st with Asleep _ _ => true | _ => false end.

Definition wakes (st : status point unit) : bool :=
  match st with Running WakeAll => true | _ => false end.

Definition notifies (st : status point unit) : bool :=
  match st with
  | Running (WakeAll | Reread _ | WakeDestroyed _) => true
  | _ => false
  end.

(** The lock word for an owner, a waiters flag and the destruction flag. *)
Definition encoding (o : option nat) (w d : bool) : Z :=
  match o with
  | None => 0
  | Some t => (if w then LockedWithWaiters else Locked) + threadID t
  end + (if d then LockedInDestructMode else 0).

Definition fine (st : status point unit) : Prop :=
  match st with
  | Running (CasFailed old) => exists o w d, old = encoding o w d /\ old <> 0 /\ (o = None -> w = false)
  | Running (AddWaiters old) => exists t, old = encoding (Some t) false false
  | Running (WaitOn old) => exists t, old = encoding (Some t) true false
  | Running Waiting => False
  | Running AssertFailed => False
  | Running _ => True
  | Asleep _ p => p = Waiting
  end.

Context (ids : forall t, thread_id_get t in_u 16).

Lemma threadID_bound t : threadID t in_u 16.
Proof. unfold threadID. case_match; [apply ids|lia]. Qed.

(** Flags are multiples of 2^16 and identifiers are below: bit operations act on each. *)
Lemma flags_and_id g i : i in_u 16 -> 2 ^ 16 * g + i = Z.lor (Z.shiftl g 16) i.
Proof.
  intros Hi.
  assert (Z.land (Z.shiftl g 16) i = 0) as Hd.
  { apply bits_eq. intros k Hk. rewrite Z.land_spec, Z.shiftl_spec, Z.bits_0 by done.
    destruct (Z.ltb_spec k 16); [by rewrite Z.testbit_neg_r by lia|].
    by rewrite (testbit_high 16 i), andb_false_r by (done || lia). }
  rewrite <- Z.lxor_lor, <- Z.add_nocarry_lxor, Z.shiftl_mul_pow2 by done. lia.
Qed.

Lemma land_flags g i m : i in_u 16 -> Z.land (2 ^ 16 * g + i) (2 ^ 16 * m) = 2 ^ 16 * Z.land g m.
Proof.
  intros Hi. rewrite <- (Z.add_0_r (2 ^ 16 * m)), !flags_and_id by (done || lia).
  rewrite Z.lor_0_r, Z.land_lor_distr_l, <- Z.shiftl_land.
  replace (Z.land i (Z.shiftl m 16)) with 0.
  { by rewrite Z.lor_0_r, Z.shiftl_mul_pow2, Z.mul_comm by done. }
  apply bits_eq. intros k Hk. rewrite Z.land_spec, Z.shiftl_spec, Z.bits_0 by done.
  destruct (Z.ltb_spec k 16); [by rewrite (Z.testbit_neg_r m), andb_false_r by lia|].
  by rewrite (testbit_high 16 i) by (done || lia).
Qed.

Lemma lor_flags g i m : i in_u 16 -> Z.lor (2 ^ 16 * g + i) (2 ^ 16 * m) = 2 ^ 16 * Z.lor g m + i.
Proof.
  intros Hi. rewrite <- (Z.add_0_r (2 ^ 16 * m)), !flags_and_id by (done || lia).
  by rewrite Z.lor_0_r, Z.shiftl_lor, <- !Z.lor_assoc, (Z.lor_comm i).
Qed.

Lemma land_id g i : i in_u 16 -> Z.land (2 ^ 16 * g + i) 0xffff = i.
Proof.
  intros Hi. change 0xffff with (Z.ones 16). rewrite Z.land_ones by lia.
  rewrite Z.add_comm, Z.mul_comm, Z_mod_plus_full. by apply Z.mod_small.
Qed.

Definition flag_bits (o : option nat) (w d : bool) : Z :=
  (match o with None => 0 | Some _ => if w then 2 else 1 end) + (if d then 4 else 0).

Definition id_bits (o : option nat) : Z := match o with None => 0 | Some t => threadID t end.

Lemma id_bound o : id_bits o in_u 16.
Proof. destruct o; [apply threadID_bound|done]. Qed.

Lemma encoding_split o w d : encoding o w d = 2 ^ 16 * flag_bits o w d + id_bits o.
Proof.
  unfold encoding. change LockedInDestructMode with (2 ^ 16 * 4).
  change LockedWithWaiters with (2 ^ 16 * 2). change Locked with (2 ^ 16 * 1).
  unfold flag_bits, id_bits. destruct o, w, d; lia.
Qed.

Lemma encoding_zero o w d : encoding o w d = 0 <-> o = None /\ d = false.
Proof.
  rewrite encoding_split. pose proof (id_bound o).
  unfold flag_bits, id_bits in *. destruct o, w, d; split; naive_solver lia.
Qed.

Lemma encoding_destruct o w d : Z.land (encoding o w d) LockedInDestructMode = encoding None false d.
Proof.
  rewrite encoding_split. change LockedInDestructMode with (2 ^ 16 * 4).
  rewrite land_flags by apply id_bound. by destruct o, w, d.
Qed.

Lemma encoding_destruct_zero o w d :
  (Z.land (encoding o w d) LockedInDestructMode =? 0) = negb d.
Proof. rewrite encoding_destruct. by destruct d. Qed.

Lemma encoding_waiters_zero o w d :
  (o = None -> w = false) -> (Z.land (encoding o w d) LockedWithWaiters =? 0) = negb w.
Proof.
  intros Hw. rewrite encoding_split. change LockedWithWaiters with (2 ^ 16 * 2).
  rewrite land_flags by apply id_bound. destruct o, w, d; try done; discriminate (Hw eq_refl).
Qed.

Lemma encoding_flags t : Z.land (encoding (Some t) false false) 0xffff0000 = Locked.
Proof.
  rewrite encoding_split. change 0xffff0000 with (2 ^ 16 * 0xffff).
  by rewrite land_flags by apply id_bound.
Qed.

Lemma encoding_id o w d : Z.land (encoding o w d) 0xffff = id_bits o.
Proof. rewrite encoding_split. apply land_id, id_bound. Qed.

Lemma encoding_destroyed o w d : Z.lor (encoding o w d) LockedInDestructMode = encoding o w true.
Proof.
  rewrite !encoding_split. change LockedInDestructMode with (2 ^ 16 * 4).
  rewrite lor_flags by apply id_bound. by destruct o, w, d.
Qed.

Lemma encoding_new t : Z.lor Locked (threadID t) = encoding (Some t) false false.
Proof.
  rewrite encoding_split. change (flag_bits (Some t) false false) with 1.
  by rewrite flags_and_id by apply id_bound.
Qed.

Lemma encoding_add_waiters t w d :
  Z.lor LockedWithWaiters (Z.land (encoding (Some t) w d) 0xffff) = encoding (Some t) true false.
Proof.
  rewrite encoding_id, encoding_split. change (flag_bits (Some t) true false) with 2.
  by rewrite flags_and_id by apply id_bound.
Qed.

Record lock_ok (o : option nat) (w d : bool) (c : config Z point unit) : Prop := mkLockOk {
  lo_word : shared c = encoding o w d;
  lo_waiters : o = None -> w = false;
  lo_holder t st : threads c !! t = Some st -> holds st = true <-> o = Some t;
  lo_owner t : o = Some t -> is_Some (threads c !! t);
  lo_fine t st : threads c !! t = Some st -> fine st;
  lo_asleep : someone (fun st => sleeps st = true) (threads c) ->
    w = true \/ someone (fun st => wakes st = true) (threads c);
  lo_destroyed : d = true -> someone (fun st => sleeps st = true) (threads c) ->
    someone (fun st => notifies st = true) (threads c);
  lo_threads : Z.of_nat (length (threads c)) <= UINT32_MAX }.

Lemma lock_update o w d o' w' d' c t st0 st s' :
  lock_ok o w d c -> threads c !! t = Some st0 ->
  s' = encoding o' w' d' -> (o' = None -> w' = false) ->
  (o' = o \/ (o = None /\ o' = Some t) \/ (o = Some t /\ o' = None)) ->
  (holds st = true <-> o' = Some t) -> fine st ->
  (sleeps st = true -> w' = true /\ d' = false) ->
  (w = true -> w' = true \/ wakes st = true) ->
  (wakes st0 = true -> wakes st = true) ->
  (d' = true -> d = true \/ notifies st = true) ->
  (notifies st0 = true -> notifies st = true \/ w = false) ->
  lock_ok o' w' d' (mkConfig s' (<[t := st]> (threads c))).
Proof.
  intros [_ _ Hh Ho Hf Ha Hd Hn] Ht Hs Hw' Hoo Hht Hfine Hsl Hw Hwk Hd' Hnt.
  assert (someone (fun st => wakes st = true) (threads c) ->
          someone (fun st => wakes st = true) (<[t := st]> (threads c))) as Hkeep.
  { apply someone_keep with st0; [done|]. intros Hx. apply Hwk, Hx. }
  assert (forall st, wakes st = true -> notifies st = true) as Hwn by (by intros [[] | ]).
  assert (someone (fun st => wakes st = true) (<[t := st]> (threads c)) ->
          someone (fun st => notifies st = true) (<[t := st]> (threads c))) as Hmore.
  { intros (u & st1 & ? & ?). exists u, st1. auto. }
  constructor; cbn; [done|done| | | | | |by rewrite length_insert].
  - intros u st1 [[-> ->]|[Hne Hu]]%lookup_stepped; [done|].
    rewrite (Hh u st1 Hu). naive_solver.
  - intros u Hu. destruct (decide (u = t)) as [->|Hne].
    + exists st. apply list_lookup_insert_eq. eauto using lookup_lt_Some.
    + rewrite list_lookup_insert_ne by done. apply Ho. naive_solver.
  - intros u st1 [[-> ->]|[_ Hu]]%lookup_stepped; eauto.
  - intros [Hst|Hth]%someone_step; [naive_solver|].
    destruct (Ha Hth) as [->|?]; [|auto].
    destruct (Hw eq_refl); [by left|right]. by eapply someone_here.
  - intros Hdt Hsome. destruct (notifies st) eqn:Hns; [by eapply someone_here|].
    destruct (Hd' Hdt) as [->|?]; [|discriminate].
    apply someone_step in Hsome as [Hst|Hth]; [naive_solver congruence|].
    destruct (notifies st0) eqn:Hn0.
    + destruct (Hnt eq_refl) as [? | ->]; [discriminate|].
      destruct (Ha Hth) as [?|?]; [discriminate|]. auto.
    + apply someone_keep with st0; [done|by rewrite Hn0|auto].
Qed.

(** A [notify_all] leaves nobody asleep. *)
Lemma lock_wake o w d c t p p' ws :
  lock_ok o w d c -> threads c !! t = Some (Running p) ->
  chosen tt UINT32_MAX ws (threads c) = true ->
  holds_at p' = holds_at p -> fine (Running p') ->
  lock_ok o w d (mkConfig (shared c)
    (<[t := Running p']> (wake flaglock ws (threads c)))).
Proof.
  intros [Hs Hw Hh Ho Hf Ha Hd Hn] Ht Hch Hp Hfp.
  assert (forall u st, threads c !! u = Some st -> sleeps (rouse flaglock ws u st) = false /\
            holds (rouse flaglock ws u st) = holds st /\ fine (rouse flaglock ws u st)) as Hr.
  { intros u st Hu. pose proof (Hf u st Hu) as Hfu. destruct st as [q|[] q]; cbn in *; [done|].
    subst q. rewrite bool_decide_eq_true_2; [done|].
    eapply chosen_all; [done|done|]. unfold asleep_on. by rewrite Hu. }
  assert (~ someone (fun st => sleeps st = true)
            (<[t := Running p']> (wake flaglock ws (threads c)))) as Hno.
  { intros (u & st & [[-> ->]|(_ & st0 & Hu & ->)]%lookup_moved & Hst); [done|].
    destruct (Hr u st0 Hu) as [Hx _]. congruence. }
  constructor; cbn; [done|done| | | |by intros ?%Hno|by intros _ ?%Hno|].
  - intros u st [[-> ->]|(Hne & st0 & Hu & ->)]%lookup_moved.
    + cbn. rewrite Hp. exact (Hh t _ Ht).
    + destruct (Hr u st0 Hu) as (_ & -> & _). auto.
  - intros u Hu. destruct (Ho u Hu) as [st Hst].
    destruct (decide (u = t)) as [->|Hne].
    + exists (Running p'). apply list_lookup_insert_eq. rewrite length_wake.
      eauto using lookup_lt_Some.
    + rewrite list_lookup_insert_ne, lookup_wake, Hst by done. by eexists.
  - intros u st [[-> ->]|(Hne & st0 & Hu & ->)]%lookup_moved; [done|].
    by destruct (Hr u st0 Hu) as (_ & _ & ?).
  - by rewrite length_insert, length_wake.
Qed.

Lemma lock_init n : Z.of_nat n <= UINT32_MAX -> lock_ok None false false (flaglock_init n).
Proof.
  intros Hn.
  assert (forall P, someone P (threads (flaglock_init n)) -> P (Running (Out 0))) as Hp.
  { intros P (t & st & [-> _]%lookup_replicate & HP). done. }
  constructor; cbn; try done.
  - by intros t st [-> _]%lookup_replicate.
  - by intros t st [-> _]%lookup_replicate.
  - by intros ?%Hp.
  - by rewrite length_replicate.
Qed.

Definition flag_ok (c : config Z point unit) : Prop := exists o w d, lock_ok o w d c.

(** The thread moves within the code, and the word stays. *)
Lemma lock_stay o w d c t st0 st :
  lock_ok o w d c -> threads c !! t = Some st0 -> holds st = holds st0 -> fine st ->
  (sleeps st = true -> w = true /\ d = false) -> wakes st0 = false ->
  (notifies st0 = true -> notifies st = true \/ w = false) ->
  flag_ok (mkConfig (shared c) (<[t := st]> (threads c))).
Proof.
  intros Hok Ht Hho Hf Hs Hw Hn. exists o, w, d.
  eapply lock_update; try done; [apply Hok|apply Hok|by left| |by auto|by rewrite Hw|by auto].
  rewrite Hho. by eapply lo_holder.
Qed.

Lemma encoding_some o t w d : encoding o w d = encoding (Some t) w d -> o <> None.
Proof. intros He ->. rewrite !encoding_split in He. pose proof (threadID_bound t).
  unfold flag_bits, id_bits in He. destruct w, d; lia. Qed.

Lemma encoding_flags_inj o w d o' w' d' :
  encoding o w d = encoding o' w' d' -> (o = None -> w = false) -> (o' = None -> w' = false) ->
  w = w' /\ d = d' /\ (o = None <-> o' = None) /\ id_bits o = id_bits o'.
Proof.
  rewrite !encoding_split. intros He Hw Hw'. pose proof (id_bound o). pose proof (id_bound o').
  assert (flag_bits o w d = flag_bits o' w' d' /\ id_bits o = id_bits o') as [Hf ->] by lia.
  unfold flag_bits in Hf. destruct o, o', w, d, w', d'; naive_solver.
Qed.

Lemma flag_step c t b p s p' :
  flag_ok c -> threads c !! t = Some (Running p) ->
  flaglock_step t b (shared c) p = Go s p' ->
  flag_ok (mkConfig s (<[t := Running p']> (threads c))).
Proof.
  intros (o & w & d & Hok) Ht. pose proof (lo_word _ _ _ _ Hok) as Hs.
  pose proof (lo_waiters _ _ _ _ Hok) as Hw. pose proof (lo_fine _ _ _ _ Hok _ _ Ht) as Hf.
  pose proof (lo_holder _ _ _ _ Hok _ _ Ht) as Hh.
  destruct p as [r| | |old|old|old| | | |held|held|held|]; cbn [flaglock_step]; try discriminate.
  - destruct (Z.eqb_spec (shared c) Unlocked) as [Hz|Hz]; intros [= <- <-].
    + rewrite Hs in Hz. apply encoding_zero in Hz as [-> ->]. rewrite (Hw eq_refl) in Hok.
      exists (Some t), false, false. rewrite encoding_new.
      eapply lock_update; [exact Hok|exact Ht|try done..]; auto.
    + eapply lock_stay; try done. cbn. rewrite Hs in *. exists o, w, d. done.
  - intros [= <- <-]. destruct Hf as (o' & w' & d' & -> & Hnz & Hw').
    unfold try_lock_test. rewrite encoding_destruct_zero, encoding_waiters_zero by done.
    destruct d'; cbn [negb]; [by eapply lock_stay|].
    destruct b; cbn [negb]; [|by eapply lock_stay].
    destruct o' as [t'|]; [|by destruct Hnz; rewrite (Hw' eq_refl)].
    destruct w'; cbn [negb]; [eapply lock_stay; try done; by exists t'|].
    rewrite encoding_flags, Z.eqb_refl, andb_false_r.
    eapply lock_stay; try done. by exists t'.
  - destruct Hf as (t' & ->). rewrite encoding_add_waiters, Hs.
    destruct (Z.eqb_spec (encoding o w d) (encoding (Some t') false false)) as [He|He];
      intros [= <- <-]; [|rewrite <- Hs; by eapply lock_stay].
    apply encoding_flags_inj in He as (-> & -> & Ho & Hid); [|done..].
    destruct o as [t1|]; [|naive_solver]. exists (Some t1), true, false.
    eapply lock_update; try done; [|by left|by eexists].
    rewrite !encoding_split. by f_equal.
  - intros [= <- <-]. assert (o = Some t) as -> by (by apply Hh).
    rewrite Hs, encoding_destruct. exists None, false, d. unfold unlock_test.
    rewrite encoding_waiters_zero, encoding_id by done.
    replace (encoding (Some t) w d =? Unlocked) with false; cycle 1.
    { symmetry. apply Z.eqb_neq. intros [? _]%encoding_zero. discriminate. }
    replace (DebugLocks && _) with false; cycle 1.
    { destruct DebugLocks eqn:HD; [|done]. cbn. unfold threadID.
      by rewrite HD, orb_true_r, Z.eqb_refl. }
    destruct w; cbn [negb]; (eapply lock_update; [exact Hok|exact Ht|try done..]; naive_solver).
  - intros [= <- <-]. rewrite Hs, encoding_destroyed. exists o, w, true.
    eapply lock_update; try done; auto.
  - intros [= <- <-]. rewrite Hs, encoding_waiters_zero, <- Hs by done.
    assert (holds_at (back held) = holds_at (Reread held)) as Hb by (by destruct held).
    destruct w; cbn [negb].
    + eapply lock_stay; try done. by left.
    + eapply lock_stay; try done; [by destruct held|by right].
Qed.

Lemma flag_wait o w d c t b p p' v :
  lock_ok o w d c -> threads c !! t = Some (Running p) ->
  flaglock_step t b (shared c) p = Wait tt v p' ->
  p' = Waiting /\ holds (Running p) = false /\
  (shared c = v -> w = true /\ d = false) /\ wakes (Running p) = false /\
  notifies (Running p) = false.
Proof.
  intros Hok Ht. pose proof (lo_fine _ _ _ _ Hok _ _ Ht) as Hf.
  destruct p as [| | |old|old|old| | | |held|held|held|]; cbn; repeat case_match; try discriminate.
  intros [= <- <-]. destruct Hf as [t' ->]. splits; try done.
  rewrite (lo_word _ _ _ _ Hok). intros He.
  apply encoding_flags_inj in He as (-> & -> & _); [done|apply Hok|done].
Qed.

Lemma resumed r :
  holds (Running (flaglock_resume Waiting r)) = false /\ fine (Running (flaglock_resume Waiting r)).
Proof. cbn. by case_match. Qed.

Lemma flag_move c c' : flag_ok c -> move flaglock c c' -> flag_ok c'.
Proof.
  intros Hc Hm. pose proof Hc as (o & w & d & Hok).
  destruct Hm as [t b p s p' Ht Hp|t b p [] v p' Ht Hp He|t b p [] v p' Ht Hp He|t b p [] n p' ws Ht Hp Hch
    |t p0 p Ht Hc0|t [] p r Ht _|t p [] v p' r Ht Hp _]; cbn in *.
  - by eapply flag_step.
  - destruct (flag_wait _ _ _ _ _ _ _ _ _ Hok Ht Hp) as (-> & ? & ? & ? & ?).
    eapply lock_stay; try done; [by auto|congruence].
  - destruct (flag_wait _ _ _ _ _ _ _ _ _ Hok Ht Hp) as (-> & ? & ? & ? & ?).
    eapply lock_stay; try done; congruence.
  - exists o, w, d. destruct p as [| | |old|old|old| | | |held|held|held|]; cbn in Hp;
      repeat case_match; try discriminate; injection Hp as <- <-;
      (eapply lock_wake; [done..|by try destruct held|by try destruct held]).
  - destruct p0, p; try discriminate; try (by eapply lock_stay);
      (destruct held; try discriminate; eapply lock_stay; done).
  - pose proof (lo_fine _ _ _ _ Hok _ _ Ht) as Hf. cbn in Hf. subst p.
    destruct (resumed r). eapply lock_stay; done.
  - destruct (flag_wait _ _ _ _ _ _ _ _ _ Hok Ht Hp) as (-> & ? & ? & ? & ?).
    destruct (resumed r). eapply lock_stay; try done; congruence.
Qed.

Lemma flag_reach es n c :
  Z.of_nat n <= UINT32_MAX -> run flaglock es (flaglock_init n) = Some c -> flag_ok c.
Proof.
  intros Hn. apply move_invariant; [apply flag_move|]. eexists _, _, _. by apply lock_init.
Qed.

Definition holding (c : config Z point unit) (t : nat) : bool :=
  match threads c !! t with Some st => holds st | None => false end.

Definition destroyed (c : config Z point unit) : bool :=
  negb (Z.land (shared c) LockedInDestructMode =? 0).

Lemma holding_inv c t : holding c t = true -> exists st, threads c !! t = Some st /\ holds st = true.
Proof. unfold holding. destruct (threads c !! t); [eauto|discriminate]. Qed.

Lemma destroyed_flag o w d c : lock_ok o w d c -> destroyed c = d.
Proof.
  intros Hok. unfold destroyed. rewrite (lo_word _ _ _ _ Hok), encoding_destruct_zero.
  apply negb_involutive.
Qed.

(** A step in destruction mode: no acquisition, and the mode stays. *)
Lemma destroyed_step c t b p s p' :
  flag_ok c -> destroyed c = true -> threads c !! t = Some (Running p) ->
  flaglock_step t b (shared c) p = Go s p' ->
  Z.land s LockedInDestructMode <> 0 /\ (holds_at p' = true -> holds_at p = true).
Proof.
  intros (o & w & d & Hok) Hd Ht. rewrite (destroyed_flag _ _ _ _ Hok) in Hd. subst d.
  pose proof (lo_word _ _ _ _ Hok) as Hs. pose proof (lo_fine _ _ _ _ Hok _ _ Ht) as Hf.
  assert (Z.land (shared c) LockedInDestructMode <> 0) as Hnz.
  { rewrite Hs, encoding_destruct. done. }
  destruct p as [| | |old|old|old| | | |held|held|held|]; cbn [flaglock_step]; try discriminate.
  - destruct (Z.eqb_spec (shared c) Unlocked) as [Hz|Hz]; intros [= <- <-]; [|done].
    rewrite Hs in Hz. apply encoding_zero in Hz as [_ ?]. discriminate.
  - intros [= <- <-]. split; [done|]. unfold try_lock_test. by repeat case_match.
  - destruct Hf as (t' & ->). rewrite Hs.
    destruct (Z.eqb_spec (encoding o w true) (encoding (Some t') false false)) as [He|_].
    + apply encoding_flags_inj in He as (_ & ? & _); [discriminate|apply Hok|done].
    + intros [= <- <-]. by rewrite <- Hs.
  - intros [= <- <-]. by rewrite Hs, !encoding_destruct.
  - intros [= <- <-]. rewrite Hs, encoding_destroyed, encoding_destruct. by destruct held.
  - intros [= <- <-]. split; [done|]. case_match; by destruct held.
Qed.

Lemma holds_resumed p r : holds_at (flaglock_resume p r) = holds_at p.
Proof. destruct p; try done. cbn. by case_match. Qed.

Lemma destroyed_move c c' :
  flag_ok c -> destroyed c = true -> move flaglock c c' ->
  destroyed c' = true /\ forall t, holding c' t = true -> holding c t = true.
Proof.
  intros Hok Hd Hm.
  assert (forall t st0 st, threads c !! t = Some st0 -> (holds st = true -> holds st0 = true) ->
    forall u, holding (mkConfig (shared c') (<[t := st]> (threads c))) u = true ->
    holding c u = true) as Hst.
  { intros t st0 st Ht Hi u (st1 & [[-> ->]|[_ Hu]]%lookup_stepped & Hh)%holding_inv;
      unfold holding; [rewrite Ht; auto|by rewrite Hu]. }
  destruct Hm as [t b p s p' Ht Hp|t b p [] v p' Ht Hp He|t b p [] v p' Ht Hp He|t b p [] n p' ws Ht Hp Hch
    |t p0 p Ht Hc0|t [] p r Ht _|t p [] v p' r Ht Hp _]; cbn in *.
  - destruct (destroyed_step _ _ _ _ _ _ Hok Hd Ht Hp) as [Hnz Hh]. split.
    + by apply negb_true_iff, Z.eqb_neq.
    + by eapply Hst.
  - split; [done|]. by eapply Hst.
  - split; [done|]. eapply Hst; [done|]. cbn. rewrite holds_resumed.
    by destruct Hok as (?&?&?&(->&_)%(fun H => flag_wait _ _ _ _ _ _ _ _ _ H Ht Hp)).
  - split; [done|]. intros u (st & [[-> ->]|(Hne & st0 & Hu & ->)]%lookup_moved & Hh)%holding_inv;
      unfold holding; [rewrite Ht|rewrite Hu].
    + cbn in *. rewrite holds_resumed in Hh. revert Hp.
      destruct p; cbn; repeat case_match; try discriminate; intros [= <- <-]; try done.
      all: by destruct held.
    + destruct st0 as [|[] q]; [done|]. cbn in Hh. case_match; [|done]. cbn in Hh.
      destruct Hok as (?&?&?&Hok). pose proof (lo_fine _ _ _ _ Hok _ _ Hu) as Hq. cbn in Hq.
      by subst q.
  - split; [done|]. eapply Hst; [done|]. destruct p0, p; try discriminate; cbn; try done;
      by destruct held.
  - split; [done|]. eapply Hst; [done|]. cbn. rewrite holds_resumed.
    destruct Hok as (?&?&?&Hok). pose proof (lo_fine _ _ _ _ Hok _ _ Ht) as Hq. cbn in Hq.
    by subst p.
  - split; [done|]. eapply Hst; [done|]. cbn. rewrite holds_resumed.
    by destruct Hok as (?&?&?&(->&_)%(fun H => flag_wait _ _ _ _ _ _ _ _ _ H Ht Hp)).
Qed.

(** ** The properties *)

(** C27. The flag lock excludes: whatever the interleaving of any number of threads that lock
    with any timeouts, unlock, and put the lock in destruction mode, and even if the scheduler
    wakes sleeping threads for no reason, at most one thread holds the lock, the lock word is
    then not [Unlocked] and records that thread's identifier, and the assertions of [try_lock]
    and [unlock] do not fail. *)
Theorem flaglock_excludes es n c :
  Z.of_nat n <= UINT32_MAX -> run flaglock es (flaglock_init n) = Some c ->
  (forall t u, holding c t = true -> holding c u = true -> t = u) /\
  (forall t, holding c t = true -> shared c <> Unlocked /\ owner (shared c) = threadID t) /\
  (forall t, threads c !! t <> Some (Running AssertFailed)).
Proof.
  intros Hn (o & w & d & Hok)%flag_reach; [|done].
  assert (forall t, holding c t = true -> o = Some t) as Ho.
  { intros t (st & Hst & Hh)%holding_inv. by eapply lo_holder. }
  splits.
  - intros t u Ht%Ho Hu%Ho. congruence.
  - intros t ->%Ho. rewrite (lo_word _ _ _ _ Hok). split; [|apply encoding_id].
    intros [? _]%encoding_zero. discriminate.
  - intros t Ht. exact (lo_fine _ _ _ _ Hok _ _ Ht).
Qed.

(** C29. No wake-up is lost: while a thread sleeps on the lock word, some thread holds the lock
    with the waiters flag set (so that its [unlock] will wake the sleeper), or a [notify_all] of
    an [unlock] is about to be made. *)
Theorem flaglock_no_lost_wakeup es n c t k p :
  Z.of_nat n <= UINT32_MAX -> run flaglock es (flaglock_init n) = Some c ->
  threads c !! t = Some (Asleep k p) ->
  ((exists u, holding c u = true) /\ Z.land (shared c) LockedWithWaiters <> 0) \/
  (exists u, threads c !! u = Some (Running WakeAll)).
Proof.
  intros Hn (o & w & d & Hok)%flag_reach Ht; [|done].
  destruct (lo_asleep _ _ _ _ Hok) as [->|(u & st & Hu & Hw)]; [by exists t, (Asleep k p)| |].
  - left. pose proof (lo_waiters _ _ _ _ Hok) as Hw. destruct o as [u|]; [|naive_solver].
    destruct (lo_owner _ _ _ _ Hok u eq_refl) as [st Hst]. split.
    + exists u. unfold holding. rewrite Hst. by eapply lo_holder.
    + rewrite (lo_word _ _ _ _ Hok). intros Hz%Z.eqb_eq.
      by rewrite encoding_waiters_zero in Hz.
  - right. exists u. by destruct st as [[]|].
Qed.

(** Destruction mode is final: once its bit is in the lock word it stays there, no thread
    acquires the lock any more, and when the [upgrade_for_destruction] and the [unlock] calls
    under way have returned nobody sleeps on the lock. *)
Theorem flaglock_destruction es es' n c c' :
  Z.of_nat n <= UINT32_MAX -> run flaglock es (flaglock_init n) = Some c ->
  destroyed c = true -> run flaglock es' c = Some c' ->
  destroyed c' = true /\ (forall t, holding c' t = true -> holding c t = true) /\
  ((forall t st, threads c' !! t = Some st -> notifies st = false) ->
   forall t st, threads c' !! t = Some st -> sleeps st = false).
Proof.
  intros Hn Hok%flag_reach Hd Hr; [|done].
  assert (flag_ok c' /\ destroyed c' = true /\
    forall t, holding c' t = true -> holding c t = true) as (Hok' & Hd' & Hh).
  { revert Hr. apply (move_invariant flaglock (fun c1 => flag_ok c1 /\ destroyed c1 = true /\
      forall t, holding c1 t = true -> holding c t = true)); [|done].
    intros c1 c2 (Hok1 & Hd1 & Hh1) Hm. split; [by eapply flag_move|].
    destruct (destroyed_move _ _ Hok1 Hd1 Hm). auto. }
  splits; [done..|]. intros Hq t st Ht. destruct (sleeps st) eqn:Hst; [|done].
  destruct Hok' as (o & w & d & Hok'). rewrite (destroyed_flag _ _ _ _ Hok') in Hd'.
  destruct (lo_destroyed _ _ _ _ Hok' Hd') as (u & st' & Hu & Hn'); [by exists t, st|].
  by rewrite (Hq u st' Hu) in Hn'.
Qed.

(** A [try_lock] that may not block returns after two steps of its own: 0, holding the lock,
    if the lock was free, [-ENOENT] in destruction mode and [-ETIMEDOUT] if it was held. *)
Theorem flaglock_trylock_returns es n c t :
  Z.of_nat n <= UINT32_MAX -> run flaglock es (flaglock_init n) = Some c ->
  threads c !! t = Some (Running TryLock) ->
  (shared c = Unlocked ->
   run flaglock [Step t false []] c =
   Some (mkConfig (Z.lor Locked (threadID t)) (<[t := Running Held]> (threads c)))) /\
  (shared c <> Unlocked ->
   run flaglock [Step t false []; Step t false []] c =
   Some (mkConfig (shared c)
     (<[t := Running (Out (if destroyed c then - ENOENT else - ETIMEDOUT))]> (threads c)))).
Proof.
  intros Hn (o & w & d & Hok)%flag_reach Ht; [|done]. split; intros Hs; cbn; rewrite Ht; cbn.
  - by rewrite Hs.
  - rewrite (proj2 (Z.eqb_neq _ _) Hs). cbn.
    rewrite list_lookup_insert_eq by eauto using lookup_lt_Some. cbn.
    rewrite list_insert_insert_eq. unfold try_lock_test, destroyed. cbn.
    by case_match.
Qed.

End FlagLock.

(** ** Three threads *)

Definition three_ids (t : nat) : Z := (Z.of_nat t + 1) mod 2 ^ 16.

Lemma three_ids_ok t : three_ids t in_u 16.
Proof. by apply Z.mod_pos_bound. Qed.

(** The first thread locks, the second goes to sleep. *)
Definition contended : list (event point) :=
  [Call 0 TryLock; Step 0 true []; Call 1 TryLock; Step 1 true []; Step 1 true [];
   Step 1 true []; Step 1 true []].

Definition demo (es : list (event point)) : config Z point unit :=
  default (mkConfig 0 []) (run (flaglock true true three_ids) es (flaglock_init 3)).

Lemma flaglock_excludes_witness :
  holding (demo contended) 0 = true /\ owner (shared (demo contended)) = 1.
Proof.
  destruct (flaglock_excludes true true three_ids three_ids_ok contended 3 (demo contended))
    as (_ & H & _); [done|by vm_compute|].
  assert (holding (demo contended) 0 = true) as Hh by by vm_compute.
  split; [exact Hh|]. exact (proj2 (H 0%nat Hh)).
Defined.

Lemma flaglock_no_lost_wakeup_witness :
  threads (demo contended) !! 1%nat = Some (Asleep tt Waiting) /\
  (((exists u, holding (demo contended) u = true) /\
    Z.land (shared (demo contended)) LockedWithWaiters <> 0) \/
   (exists u, threads (demo contended) !! u = Some (Running WakeAll))).
Proof.
  split; [by vm_compute|].
  apply (flaglock_no_lost_wakeup true true three_ids three_ids_ok contended 3 _ 1 tt Waiting);
    [done|by vm_compute..].
Defined.

(** The third thread puts the contended lock in destruction mode and wakes the second. *)
Definition destroyed_late : list (event point) :=
  contended ++ [Call 2 (Upgrade false); Step 2 true []].
Definition woken_late : list (event point) :=
  [Step 2 true []; Step 2 true [1%nat]; Step 1 true []; Step 1 true []].

Lemma flaglock_destruction_witness :
  exists c', run (flaglock true true three_ids) woken_late (demo destroyed_late) = Some c' /\
    threads c' !! 1%nat = Some (Running (Out (- ENOENT))) /\ destroyed c' = true.
Proof.
  eexists. split; [by vm_compute|]. split; [by vm_compute|].
  apply (flaglock_destruction true true three_ids three_ids_ok destroyed_late woken_late 3
    (demo destroyed_late)); by vm_compute.
Defined.

Lemma flaglock_trylock_returns_witness :
  run (flaglock true true three_ids) [Step 2 false []; Step 2 false []]
    (demo (contended ++ [Call 2 TryLock])) =
  Some (mkConfig (shared (demo contended))
    [Running Held; Asleep tt Waiting; Running (Out (- ETIMEDOUT))]).
Proof.
  refine (proj2 (flaglock_trylock_returns true true three_ids three_ids_ok
    (contended ++ [Call 2 TryLock]) 3 _ 2 _ _ _) _); [done|by vm_compute..].
Defined.
