(* ===== verification/EventGroup.v ===== *)
(** * Event groups

    [src/cheriot-rtos/sdk/lib/event_group/event_group.cc]: a set of event bits, and an
    [EventWaiter] per thread.  The machine's shared state is the group; a thread sleeps on the
    [bitsSeen] word of its own waiter.  The flag lock of the group is the thread that holds it
    ([FlagLock.flaglock_excludes]); code that holds it and makes at most one access that a thread
    without the lock could see is one step. *)

From S2P Require Import Prelude Machine.

(** ** The code *)

Record EventWaiter : Type := mkWaiter { bitsSeen : Z; waitForAll : bool; clearOnExit : bool; bitsWanted : Z }.

Record EventGroup : Type := mkGroup {
  lock : option nat;      (* the holder of the lock *)
  destructing : bool;     (* it is in destruction mode *)
  bits : Z;
  waiters : list EventWaiter;
  freed : bool;
}.

Definition triggered (all : bool) (wanted bits : Z) : bool :=
  if all then Z.land wanted bits =? wanted else negb (Z.land wanted bits =? 0).

Definition is_triggered (w : EventWaiter) (bits : Z) : bool := triggered (waitForAll w) (bitsWanted w) bits.

(** The arguments of [eventgroup_wait]. *)
Record wait_call : Type := mkWait { wanted : Z; for_all : bool; on_exit : bool }.

Definition isTriggered (k : wait_call) (bits : Z) : bool := triggered (for_all k) (wanted k) bits.

(** Where [eventgroup_set] is with a waiter. *)
Inductive phase : Type :=
  | PVisit     (* the test of [bitsWanted] *)
  | PTest      (* [is_triggered] *)
  | PClear     (* the update of [bitsToClear] *)
  | PUnwant    (* [bitsWanted = 0] *)
  | PMark      (* [bitsSeen = bits] *)
  | PNotify.   (* the wake *)

Inductive event_point : Type :=
  | EOut (r : Z) (outBits : option Z)              (* outside; the last call's results *)
  | EWait (k : wait_call)                          (* [eventgroup_wait], up to the release of the lock *)
  | EFutex (k : wait_call) (seen : Z)              (* the futex wait *)
  | EWaiting (k : wait_call) (seen : Z)
  | ELoad (k : wait_call)                          (* the load of [bitsSeen] after it *)
  | EForget                                        (* [bitsWanted = 0] after a timeout *)
  | EReadBits (r : Z)                              (* [*outBits = group->bits; return r] *)
  | EClear (mask : Z)                              (* [eventgroup_clear] *)
  | ESet (mask : Z)                                (* [eventgroup_set] *)
  | EVisit (p : phase) (bits clear : Z) (i : nat)  (* its loop *)
  | EDestroy                                       (* [eventgroup_destroy] *)
  | EForce                                         (* [eventgroup_destroy_force] *)
  | EDestroyVisit (p : phase) (bits : Z) (i : nat) (* its loop *)
  | EFree                                          (* its [heap_free] *)
  | EStopped.                                      (* a trap: memory was freed, or the lock in destruction mode *)

Definition with_bits (b : Z) (g : EventGroup) : EventGroup := mkGroup (lock g) (destructing g) b (waiters g) (freed g).
Definition with_lock (l : option nat) (g : EventGroup) : EventGroup := mkGroup l (destructing g) (bits g) (waiters g) (freed g).
Definition with_waiter (i : nat) (w : EventWaiter) (g : EventGroup) : EventGroup :=
  mkGroup (lock g) (destructing g) (bits g) (<[i := w]> (waiters g)) (freed g).

Definition unwant (w : EventWaiter) : EventWaiter := mkWaiter (bitsSeen w) (waitForAll w) (clearOnExit w) 0.
Definition mark_seen (b : Z) (w : EventWaiter) : EventWaiter := mkWaiter b (waitForAll w) (clearOnExit w) (bitsWanted w).
Definition register (k : wait_call) (seen : Z) : EventWaiter := mkWaiter seen (for_all k) (on_exit k) (wanted k).

Definition event_action : Type := action EventGroup event_point nat.

(** An access of the waiter [i]. *)
Definition at_waiter (g : EventGroup) (i : nat) (f : EventWaiter -> event_action) : event_action :=
  match waiters g !! i with Some w => f w | None => Go g EStopped end.

(** [LockGuard g{group->lock, timeout}]: with [b] it acquires the lock, once that is free, and runs
    [body]; otherwise the call fails, because the timeout expires or of destruction mode. *)
Definition guarded (g : EventGroup) (b : bool) (body failure : event_action) : event_action :=
  if b then (if destructing g then Idle else if lock g is Some _ then Idle else body) else failure.

Definition set_step (g : EventGroup) (p : phase) (b clear : Z) (i : nat) : event_action :=
  match p with
  | PVisit =>
      if (i <? length (waiters g))%nat then
        at_waiter g i (fun w => Go g (if bitsWanted w =? 0 then EVisit PVisit b clear (S i) else EVisit PTest b clear i))
      else
        let g := with_bits (Z.ldiff (bits g) clear) g in
        Go (with_lock None g) (EOut 0 (Some (bits g)))
  | PTest => at_waiter g i (fun w => Go g (if is_triggered w b then EVisit PClear b clear i else EVisit PVisit b clear (S i)))
  | PClear =>
      at_waiter g i (fun w =>
        Go g (EVisit PUnwant b (if clearOnExit w then Z.lor clear (Z.land (bitsWanted w) b) else clear) i))
  | PUnwant => at_waiter g i (fun w => Go (with_waiter i (unwant w) g) (EVisit PMark b clear i))
  | PMark => at_waiter g i (fun w => Go (with_waiter i (mark_seen b w) g) (EVisit PNotify b clear i))
  | PNotify => Notify i 1 (EVisit PVisit b clear (S i))
  end.

Definition destroy_step (g : EventGroup) (p : phase) (b : Z) (i : nat) : event_action :=
  match p with
  | PUnwant => at_waiter g i (fun w => Go (with_waiter i (unwant w) g) (EDestroyVisit PMark b i))
  | PMark => at_waiter g i (fun w => Go (with_waiter i (mark_seen b w) g) (EDestroyVisit PNotify b i))
  | PNotify => Notify i 1 (EDestroyVisit PVisit b (S i))
  | _ =>
      if (i <? length (waiters g))%nat
      then at_waiter g i (fun w => Go g (EDestroyVisit PUnwant (bitsWanted w) i))
      else Go g EFree
  end.

Section EventGroup.
(** The result of [heap_free], and whether clients destroy the group. *)
Context (heap_free : Z) (destroys : bool).

Definition eventgroup_step (t : nat) (b : bool) (g : EventGroup) (p : event_point) : event_action :=
  match p with
  | EOut _ _ | EWaiting _ _ | EStopped => Idle
  | EWait k =>
      if negb (Z.land (wanted k) 0xff000000 =? 0) then Go g (EOut (- ERANGE) None)
      else if freed g then Go g EStopped
      else
        guarded g b
          (if isTriggered k (bits g) then
             Go (if on_exit k then with_bits (Z.ldiff (bits g) (wanted k)) g else g) (EOut 0 (Some (bits g)))
           else
             at_waiter g t (fun _ => Go (with_waiter t (register k (bits g)) g) (EFutex k (bits g))))
          (Go g (EOut (- ETIMEDOUT) None))
  | _ =>
      if freed g then Go g EStopped
      else
        match p with
        | EFutex k seen => Wait t seen (EWaiting k seen)
        | ELoad k =>
            at_waiter g t (fun w =>
              Go g (if isTriggered k (bitsSeen w) then EOut 0 (Some (bitsSeen w)) else EFutex k (bitsSeen w)))
        | EForget => at_waiter g t (fun w => Go (with_waiter t (unwant w) g) (EReadBits (- ETIMEDOUT)))
        | EReadBits r => Go g (EOut r (Some (bits g)))
        | EClear mask =>
            guarded g b
              (let g := with_bits (Z.ldiff (bits g) mask) g in Go g (EOut 0 (Some (bits g))))
              (Go g (EReadBits (- ETIMEDOUT)))
        | ESet mask =>
            guarded g b
              (let g := with_lock (Some t) (with_bits (Z.lor (bits g) mask) g) in
               Go g (EVisit PVisit (bits g) 0 0))
              (Go g (EReadBits (- ETIMEDOUT)))
        | EVisit p b clear i => set_step g p b clear i
        | EDestroy =>
            if destructing g then Go g EStopped else guarded g true (Go (with_lock (Some t) g) EForce) Idle
        | EForce => Go (mkGroup (lock g) true (bits g) (waiters g) (freed g)) (EDestroyVisit PVisit 0 0)
        | EDestroyVisit p b i => destroy_step g p b i
        | _ =>
            Go (mkGroup (lock g) (destructing g) (bits g) (waiters g) (heap_free =? 0)) (EOut heap_free None)
        end
  end.

(** [while (wait(...) != -ETIMEDOUT)]. *)
Definition eventgroup_resume (p : event_point) (r : Z) : event_point :=
  match p with EWaiting k _ => if r =? - ETIMEDOUT then EForget else ELoad k | _ => p end.

(** The calls of a client; [event.h] asks that it wants at least one bit.  [EReadBits 0] is
    [eventgroup_get]. *)
Definition eventgroup_may_call (t : nat) (p p' : event_point) : bool :=
  match p, p' with
  | EOut _ _, EWait k => negb (wanted k =? 0)
  | EOut _ _, EClear _ | EOut _ _, ESet _ | EOut _ _, EReadBits 0 => true
  | EOut _ _, EDestroy | EOut _ _, EForce => destroys
  | _, _ => false
  end.

Definition seen_word (g : EventGroup) (i : nat) : Z := default 0 (bitsSeen <$> waiters g !! i).

Definition eventgroup : machine EventGroup event_point nat :=
  mkMachine seen_word eventgroup_step eventgroup_resume eventgroup_may_call (fun _ => true).
End EventGroup.

(** The memory that [heap_allocate] returns is zero. *)
Definition new_group (threads : nat) : EventGroup :=
  mkGroup None false 0 (replicate threads (mkWaiter 0 false false 0)) false.

Definition sizeof_EventGroup : Z := 12.
Definition sizeof_EventWaiter : Z := 8.

(** [eventgroup_create], from the result of [thread_count] and the allocator. *)
Definition eventgroup_create (heap_allocate : Z -> bool) (threads : Z) : Z * option EventGroup :=
  if threads =? u16 (-1) then (- ERANGE, None)
  else if heap_allocate (u32 (sizeof_EventGroup + u32 (threads * sizeof_EventWaiter)))
  then (0, Some (new_group (Z.to_nat threads)))
  else (- ENOMEM, None).

Definition eventgroup_init (n : nat) : config EventGroup event_point nat :=
  mkConfig (new_group n) (replicate n (Running (EOut 0 None))).

(** ** The invariant *)

#[local] Notation estatus := (status event_point nat).
#[local] Notation econfig := (config EventGroup event_point nat).

#[export] Instance phase_eq_dec : EqDecision phase.
Proof. solve_decision. Defined.

(** The call of [eventgroup_wait] whose loop a thread is in, and the value it waits on. *)
Definition wait_of (st : estatus) : option wait_call :=
  match st with Running p | Asleep _ p =>
    match p with EFutex k _ | EWaiting k _ | ELoad k => Some k | _ => None end
  end.

Definition seen_of (st : estatus) : option Z :=
  match st with Running p | Asleep _ p =>
    match p with EFutex _ s | EWaiting _ s => Some s | _ => None end
  end.

Definition sleeping (st : estatus) : bool := match st with Asleep _ _ => true | _ => false end.

(** Where the holder of the lock is: a phase of the loop of [eventgroup_set] and a waiter. *)
Definition position : Type := option (phase * nat).

(** A waiter that the loop has still to reach, or has not to wake. *)
Definition registered_at (h : position) (now : Z) (t : nat) (k : wait_call) : Prop :=
  match h with
  | None => isTriggered k now = false
  | Some (p, i) =>
      if (i <? t)%nat then True
      else if (i =? t)%nat then
        match p with
        | PVisit | PTest => True
        | PClear | PUnwant => isTriggered k now = true
        | PMark | PNotify => False
        end
      else isTriggered k now = false
  end.

(** The stages of a waiting thread [t]: registered, being marked, marked. *)
Inductive stage (h : position) (now : Z) (t : nat) (k : wait_call) (st : estatus) (w : EventWaiter) : Prop :=
  | stage_registered :
      w = register k (bitsSeen w) -> isTriggered k (bitsSeen w) = false ->
      (forall s, seen_of st = Some s -> bitsSeen w = s) -> registered_at h now t k -> stage h now t k st w
  | stage_marking :
      bitsWanted w = 0 -> isTriggered k (bitsSeen w) = false ->
      (forall s, seen_of st = Some s -> bitsSeen w = s) ->
      h = Some (PMark, t) -> isTriggered k now = true -> stage h now t k st w
  | stage_marked :
      bitsWanted w = 0 -> isTriggered k (bitsSeen w) = true ->
      (sleeping st = true -> h = Some (PNotify, t)) ->
      (forall p, h = Some (p, t) -> p = PVisit \/ p = PNotify) -> stage h now t k st w.

(** The points that threads reach when nobody destroys the group. *)
Definition event_fine (t : nat) (st : estatus) : Prop :=
  match st with
  | Running (EWait k) => wanted k <> 0
  | Running (EWaiting _ _ | EDestroy | EForce | EDestroyVisit _ _ _ | EFree | EStopped) => False
  | Running _ => True
  | Asleep i p => i = t /\ match p with EWaiting _ _ => True | _ => False end
  end.

Record event_ok (h : option (nat * (phase * nat))) (c : econfig) : Prop := mkEventOk {
  eo_length : length (waiters (shared c)) = length (threads c);
  eo_alive : freed (shared c) = false;
  eo_lock : lock (shared c) = fst <$> h;
  eo_setting u p b cl i : threads c !! u = Some (Running (EVisit p b cl i)) ->
    h = Some (u, (p, i)) /\ b = bits (shared c) /\ (p <> PVisit -> (i < length (waiters (shared c)))%nat);
  eo_holder u p i : h = Some (u, (p, i)) -> exists b cl, threads c !! u = Some (Running (EVisit p b cl i));
  eo_fine t st : threads c !! t = Some st -> event_fine t st;
  eo_wait t st k : threads c !! t = Some st -> wait_of st = Some k ->
    wanted k <> 0 /\ (forall s, seen_of st = Some s -> isTriggered k s = false) /\
    exists w, waiters (shared c) !! t = Some w /\ stage (snd <$> h) (bits (shared c)) t k st w;
}.

Lemma is_triggered_register k s b : is_triggered (register k s) b = isTriggered k b.
Proof. done. Qed.

(** Clearing bits triggers nobody. *)
Lemma triggered_ldiff k b m : isTriggered k b = false -> isTriggered k (Z.ldiff b m) = false.
Proof.
  unfold isTriggered, triggered. intros H. destruct (for_all k).
  - apply Z.eqb_neq. apply Z.eqb_neq in H. intros E. apply H. apply bits_eq. intros i Hi.
    apply (f_equal (fun z => Z.testbit z i)) in E. rewrite Z.land_spec, Z.ldiff_spec in *.
    destruct (Z.testbit (wanted k) i), (Z.testbit b i); cbn in *; congruence.
  - apply negb_false_iff, Z.eqb_eq. apply negb_false_iff, Z.eqb_eq in H. apply bits_eq. intros i Hi.
    apply (f_equal (fun z => Z.testbit z i)) in H. rewrite Z.bits_0 in *. rewrite Z.land_spec, Z.ldiff_spec in *.
    by destruct (Z.testbit (wanted k) i), (Z.testbit b i).
Qed.

Lemma stage_far now t k st w p i p' i' :
  stage (Some (p, i)) now t k st w -> t <> i -> i' = i \/ (i' = S i /\ p' = PVisit) ->
  stage (Some (p', i')) now t k st w.
Proof.
  intros [Hw Hs Hseen Hr|? ? ? [= -> ->]|Hw Hs Ha Hp] Hne Hi; [|done|].
  - apply stage_registered; [done..|]. unfold registered_at in *.
    assert (i' = i \/ i' = S i) by naive_solver.
    destruct (Nat.ltb_spec i t), (Nat.eqb_spec i t), (Nat.ltb_spec i' t), (Nat.eqb_spec i' t); try done; try lia.
    destruct Hi as [->|[_ ->]]; [lia|done].
  - apply stage_marked; [done..| |].
    + intros H%Ha. congruence.
    + intros q [= -> ->]. destruct Hi as [->|[_ ->]]; [done|auto].
Qed.

(** A move of the thread [u], to the group [g'] and the status [st]. *)
Lemma event_update h h' c u st0 st g' :
  event_ok h c -> threads c !! u = Some st0 ->
  length (waiters g') = length (waiters (shared c)) -> freed g' = false -> lock g' = fst <$> h' ->
  (forall v q, v <> u -> h = Some (v, q) \/ h' = Some (v, q) -> h' = h /\ bits g' = bits (shared c)) ->
  (forall p b cl i, st = Running (EVisit p b cl i) ->
     h' = Some (u, (p, i)) /\ b = bits g' /\ (p <> PVisit -> (i < length (waiters g'))%nat)) ->
  (forall p i, h' = Some (u, (p, i)) -> exists b cl, st = Running (EVisit p b cl i)) ->
  event_fine u st ->
  (forall t stt k w, t <> u -> threads c !! t = Some stt -> wait_of stt = Some k -> wanted k <> 0 ->
     waiters (shared c) !! t = Some w -> stage (snd <$> h) (bits (shared c)) t k stt w ->
     exists w', waiters g' !! t = Some w' /\ stage (snd <$> h') (bits g') t k stt w') ->
  (forall k, wait_of st = Some k -> wanted k <> 0 /\ (forall s, seen_of st = Some s -> isTriggered k s = false) /\
     exists w, waiters g' !! u = Some w /\ stage (snd <$> h') (bits g') u k st w) ->
  event_ok h' (mkConfig g' (<[u := st]> (threads c))).
Proof.
  intros Hok Hu Hlen Hf Hl Hoth Hset Hhold Hfine Hrest Hown. split; cbn [shared threads].
  - rewrite Hlen, (eo_length _ _ Hok). by rewrite length_insert.
  - done.
  - done.
  - intros v p b cl i [[-> <-]|[Hne Hv]]%lookup_stepped; [by eapply Hset|].
    apply (eo_setting _ _ Hok) in Hv as (Hh & -> & Hi). destruct (Hoth v (p, i) Hne) as [-> ->]; [by left|].
    by rewrite Hlen.
  - intros v p i Hh. destruct (decide (v = u)) as [->|Hne].
    + apply Hhold in Hh as (b & cl & ->). exists b, cl. apply list_lookup_insert_eq. eauto using lookup_lt_Some.
    + rewrite list_lookup_insert_ne by done. destruct (Hoth v (p, i) Hne) as [E _]; [by right|]. rewrite E in Hh.
      by eapply eo_holder.
  - intros t stt [[-> ->]|[_ Ht]]%lookup_stepped; [done|]. by eapply eo_fine.
  - intros t stt k [[-> ->]|[Hne Ht]]%lookup_stepped Hk; [by apply Hown|].
    destruct (eo_wait _ _ Hok t stt k Ht Hk) as (Hw & Hs & w & Hlw & Hst). splits; [done..|]. eauto.
Qed.

(** A move that concerns the waiter of its own thread at most. *)
Lemma event_local h c u st0 st g' :
  event_ok h c -> threads c !! u = Some st0 ->
  (forall p b cl i, st0 <> Running (EVisit p b cl i)) -> (forall p b cl i, st <> Running (EVisit p b cl i)) ->
  length (waiters g') = length (waiters (shared c)) -> freed g' = false -> lock g' = lock (shared c) ->
  bits g' = bits (shared c) -> (forall t, t <> u -> waiters g' !! t = waiters (shared c) !! t) ->
  event_fine u st ->
  (forall k, wait_of st = Some k -> wanted k <> 0 /\ (forall s, seen_of st = Some s -> isTriggered k s = false) /\
     exists w, waiters g' !! u = Some w /\ stage (snd <$> h) (bits (shared c)) u k st w) ->
  event_ok h (mkConfig g' (<[u := st]> (threads c))).
Proof.
  intros Hok Hu H0 H1 Hlen Hf Hl Hb Hw Hfine Hown. eapply event_update; try done.
  - by rewrite Hl, (eo_lock _ _ Hok).
  - intros p b cl i ->. by destruct (H1 p b cl i).
  - intros p i Hh. destruct (eo_holder _ _ Hok _ _ _ Hh) as (b & cl & Hx). rewrite Hu in Hx.
    injection Hx as ->. by destruct (H0 p b cl i).
  - intros t stt k w Hne Ht Hk Hwk Hlw Hst. exists w. rewrite Hw, Hb by done. done.
  - rewrite Hb. exact Hown.
Qed.

(** A move that clears bits while nobody holds the lock. *)
Lemma event_clear c u st0 st m :
  event_ok None c -> threads c !! u = Some st0 -> wait_of st = None -> event_fine u st ->
  (forall p b cl i, st <> Running (EVisit p b cl i)) ->
  event_ok None (mkConfig (with_bits (Z.ldiff (bits (shared c)) m) (shared c)) (<[u := st]> (threads c))).
Proof.
  intros Hok Hu Hn Hf Hv. eapply event_update; try done.
  - apply (eo_alive _ _ Hok).
  - cbn. apply (eo_lock _ _ Hok).
  - intros v q _ [H|H]; discriminate H.
  - intros p b cl i ->. by destruct (Hv p b cl i).
  - intros t stt k w Hne Ht Hk Hwk Hlw Hst. exists w. split; [done|]. cbn in *.
    destruct Hst as [H1 H2 H3 H4|H1 H2 H3 H4|H1 H2 H3 H4]; [|discriminate H4|].
    + apply stage_registered; [done..|]. by apply triggered_ldiff.
    + by apply stage_marked.
  - rewrite Hn. done.
Qed.

Lemma event_init n : event_ok None (eventgroup_init n).
Proof.
  assert (forall t st, threads (eventgroup_init n) !! t = Some st -> st = Running (EOut 0 None)) as Ht.
  { intros t st [H _]%lookup_replicate_1. done. }
  split; cbn [shared].
  - cbn. by rewrite !length_replicate.
  - done.
  - done.
  - intros u p b cl i H%Ht. discriminate H.
  - discriminate.
  - intros t st ->%Ht. done.
  - intros t st k ->%Ht. discriminate.
Qed.

(** A move of the loop of [eventgroup_set] that concerns the waiter [i]. *)
Lemma event_visit c u p i b cl p' i' cl' g' :
  event_ok (Some (u, (p, i))) c -> threads c !! u = Some (Running (EVisit p b cl i)) ->
  length (waiters g') = length (waiters (shared c)) -> freed g' = false -> lock g' = lock (shared c) ->
  bits g' = bits (shared c) -> (forall t, t <> i -> waiters g' !! t = waiters (shared c) !! t) ->
  i' = i \/ (i' = S i /\ p' = PVisit) -> (p' <> PVisit -> (i' < length (waiters (shared c)))%nat) ->
  (forall stt k w, threads c !! i = Some stt -> wait_of stt = Some k -> wanted k <> 0 ->
     waiters (shared c) !! i = Some w -> stage (Some (p, i)) (bits (shared c)) i k stt w ->
     exists w', waiters g' !! i = Some w' /\ stage (Some (p', i')) (bits (shared c)) i k stt w') ->
  event_ok (Some (u, (p', i'))) (mkConfig g' (<[u := Running (EVisit p' b cl' i')]> (threads c))).
Proof.
  intros Hok Hu Hlen Hf Hl Hb Hw Hi Hlt Hown. destruct (eo_setting _ _ Hok _ _ _ _ _ Hu) as (_ & Hbb & _).
  eapply event_update; try done.
  - by rewrite Hl, (eo_lock _ _ Hok).
  - intros v q Hne [[=]|[=]]; congruence.
  - intros q b' cl1 j [= <- <- <- <-]. splits; [done|congruence|by rewrite Hlen].
  - intros q j [= <- <-]. eauto.
  - intros t stt k w Hne Ht Hk Hwk Hlw Hst. rewrite Hb. destruct (decide (t = i)) as [->|Hti]; [by eapply Hown|].
    exists w. rewrite Hw by done. split; [done|]. by eapply stage_far.
Qed.

(** The stage of the waiter that the loop is at. *)
Lemma stage_here p i now k stt w : stage (Some (p, i)) now i k stt w ->
  (isTriggered k (bitsSeen w) = false /\ (forall s, seen_of stt = Some s -> bitsSeen w = s) /\
   match p with
   | PVisit | PTest => w = register k (bitsSeen w)
   | PClear | PUnwant => w = register k (bitsSeen w) /\ isTriggered k now = true
   | PMark => bitsWanted w = 0 /\ isTriggered k now = true
   | PNotify => False
   end) \/
  (isTriggered k (bitsSeen w) = true /\ bitsWanted w = 0 /\ (sleeping stt = true -> p = PNotify) /\
   (p = PVisit \/ p = PNotify)).
Proof.
  intros [H1 H2 H3 H4|H1 H2 H3 [= ->] H4|H1 H2 H3 H4].
  - left. unfold registered_at in H4. rewrite (proj2 (Nat.ltb_ge _ _) (le_n i)), Nat.eqb_refl in H4.
    by destruct p.
  - by left.
  - right. splits; [done|done| |by apply H4]. intros Hs. by injection (H3 Hs).
Qed.

Lemma registered_here p i now k stt w : w = register k (bitsSeen w) -> isTriggered k (bitsSeen w) = false ->
  (forall s, seen_of stt = Some s -> bitsSeen w = s) ->
  match p with PVisit | PTest => True | PClear | PUnwant => isTriggered k now = true | _ => False end ->
  stage (Some (p, i)) now i k stt w.
Proof.
  intros. apply stage_registered; [done..|]. unfold registered_at.
  by rewrite (proj2 (Nat.ltb_ge _ _) (le_n i)), Nat.eqb_refl.
Qed.

Lemma registered_after p i now k stt w : w = register k (bitsSeen w) -> isTriggered k (bitsSeen w) = false ->
  (forall s, seen_of stt = Some s -> bitsSeen w = s) -> isTriggered k now = false ->
  stage (Some (p, S i)) now i k stt w.
Proof.
  intros. apply stage_registered; [done..|]. unfold registered_at.
  by rewrite (proj2 (Nat.ltb_ge _ _)), (proj2 (Nat.eqb_neq _ _)) by lia.
Qed.

Lemma set_go c u p b cl i h g' p' :
  event_ok h c -> threads c !! u = Some (Running (EVisit p b cl i)) ->
  set_step (shared c) p b cl i = Go g' p' ->
  exists h', event_ok h' (mkConfig g' (<[u := Running p']> (threads c))).
Proof.
  intros Hok Hu Hgo. destruct (eo_setting _ _ Hok _ _ _ _ _ Hu) as (-> & Hbb & Hlt).
  pose proof (eo_alive _ _ Hok) as Hf.
  destruct p; cbn [set_step] in Hgo; unfold at_waiter in Hgo; try discriminate Hgo.
  - destruct (Nat.ltb_spec i (length (waiters (shared c)))) as [Hi|Hi].
    + destruct (lookup_lt_is_Some_2 _ _ Hi) as [w Hw]. rewrite Hw in Hgo.
      destruct (Z.eqb_spec (bitsWanted w) 0) as [H0|H0]; injection Hgo as <- <-; eexists; eapply event_visit; try done; auto.
      * intros stt k w0 Ht Hk Hwk Hlw Hst. assert (w0 = w) as -> by congruence. exists w. split; [done|].
        apply stage_here in Hst as [(H1 & H2 & H3)|(H1 & H2 & H3 & H4)].
        { rewrite H3 in H0. by cbn in H0. }
        apply stage_marked; [done..| |].
        -- intros Hs. discriminate (H3 Hs).
        -- intros q [= -> Hq]. lia.
      * intros stt k w0 Ht Hk Hwk Hlw Hst. assert (w0 = w) as -> by congruence. exists w. split; [done|].
        apply stage_here in Hst as [(H1 & H2 & H3)|(H1 & H2 & H3 & H4)]; [|done]. by apply registered_here.
    + injection Hgo as <- <-. exists None. eapply event_update; try done.
      * intros v q Hne [[=]|[=]]; congruence.
      * intros t stt k w Hne Ht Hk Hwk Hlw Hst. exists w. split; [done|]. cbn.
        apply lookup_lt_Some in Hlw. destruct Hst as [H1 H2 H3 H4|H1 H2 H3 H4|H1 H2 H3 H4]; [|discriminate H4|].
        -- apply stage_registered; [done..|]. apply triggered_ldiff. cbn [snd fmap option_fmap option_map] in H4.
           unfold registered_at in H4.
           by rewrite (proj2 (Nat.ltb_ge _ _)), (proj2 (Nat.eqb_neq _ _)) in H4 by lia.
        -- apply stage_marked; [done..| |done]. by intros [= ->]%H3.
  - destruct (lookup_lt_is_Some_2 _ _ (Hlt ltac:(done))) as [w Hw]. rewrite Hw in Hgo.
    destruct (is_triggered w b) eqn:Ht; injection Hgo as <- <-; eexists; eapply event_visit; try done; auto.
    + intros stt k w0 Hth Hk Hwk Hlw Hst. assert (w0 = w) as -> by congruence. exists w. split; [done|].
      apply stage_here in Hst as [(H1 & H2 & H3)|(_ & _ & _ & [|])]; [|done..].
      apply registered_here; [done..|]. by rewrite H3, Hbb in Ht.
    + intros stt k w0 Hth Hk Hwk Hlw Hst. assert (w0 = w) as -> by congruence. exists w. split; [done|].
      apply stage_here in Hst as [(H1 & H2 & H3)|(_ & _ & _ & [|])]; [|done..].
      apply registered_after; [done..|]. by rewrite H3, Hbb in Ht.
  - destruct (lookup_lt_is_Some_2 _ _ (Hlt ltac:(done))) as [w Hw]. rewrite Hw in Hgo.
    injection Hgo as <- <-; eexists; eapply event_visit; try done; auto.
    intros stt k w0 Hth Hk Hwk Hlw Hst. exists w0. split; [done|].
    apply stage_here in Hst as [(H1 & H2 & H3 & H4)|(_ & _ & _ & [|])]; [|done..]. by apply registered_here.
  - destruct (lookup_lt_is_Some_2 _ _ (Hlt ltac:(done))) as [w Hw]. rewrite Hw in Hgo.
    injection Hgo as <- <-; eexists; eapply event_visit; try done; auto.
    + cbn. by rewrite length_insert.
    + intros t Hne. cbn. by rewrite list_lookup_insert_ne.
    + intros stt k w0 Hth Hk Hwk Hlw Hst. assert (w0 = w) as -> by congruence. exists (unwant w).
      split; [apply list_lookup_insert_eq; eauto using lookup_lt_Some|].
      apply stage_here in Hst as [(H1 & H2 & H3 & H4)|(_ & _ & _ & [|])]; [|done..]. by apply stage_marking.
  - destruct (lookup_lt_is_Some_2 _ _ (Hlt ltac:(done))) as [w Hw]. rewrite Hw in Hgo.
    injection Hgo as <- <-; eexists; eapply event_visit; try done; auto.
    + cbn. by rewrite length_insert.
    + intros t Hne. cbn. by rewrite list_lookup_insert_ne.
    + intros stt k w0 Hth Hk Hwk Hlw Hst. assert (w0 = w) as -> by congruence. exists (mark_seen b w).
      split; [apply list_lookup_insert_eq; eauto using lookup_lt_Some|].
      apply stage_here in Hst as [(H1 & H2 & H3 & H4)|(_ & _ & _ & [|])]; [|done..].
      apply stage_marked; [done|by rewrite Hbb|done|]. intros q [= ->]. auto.
Qed.

Lemma guarded_go g b body failure g' p' : guarded g b body failure = Go g' p' ->
  failure = Go g' p' \/ (lock g = None /\ body = Go g' p').
Proof. unfold guarded. destruct b; [|by left]. destruct (destructing g); [done|]. destruct (lock g); [done|by right]. Qed.

Lemma unlocked h c : event_ok h c -> lock (shared c) = None -> h = None.
Proof. intros Hok Hl. rewrite (eo_lock _ _ Hok) in Hl. by destruct h. Qed.

Section Run.
Context (heap_free : Z).

#[local] Notation m := (eventgroup heap_free false).

(** The moves of a thread outside of the loop of [eventgroup_set]. *)
Lemma event_go h c t b p g' p' :
  event_ok h c -> threads c !! t = Some (Running p) -> (forall q b cl i, p <> EVisit q b cl i) ->
  eventgroup_step heap_free t b (shared c) p = Go g' p' ->
  exists h', event_ok h' (mkConfig g' (<[t := Running p']> (threads c))).
Proof.
  intros Hok Ht Hnv Hgo. pose proof (eo_fine _ _ Hok _ _ Ht) as Hfine. pose proof (eo_alive _ _ Hok) as Hf.
  pose proof (eo_lock _ _ Hok) as Hl. pose proof (fun k => eo_wait _ _ Hok t (Running p) k Ht) as Hwait.
  assert (t < length (waiters (shared c)))%nat as Hlt by (rewrite (eo_length _ _ Hok); eauto using lookup_lt_Some).
  destruct (lookup_lt_is_Some_2 _ _ Hlt) as [w Hw].
  assert (forall q, wait_of (Running q) = None -> event_fine t (Running q) -> (forall p b cl i, q <> EVisit p b cl i) ->
    event_ok h (mkConfig (shared c) (<[t := Running q]> (threads c)))) as Hstay.
  { intros q Hn Hq Hv. eapply event_local; try done.
    - intros p0 b0 cl i [= E]. by destruct (Hnv p0 b0 cl i).
    - intros p0 b0 cl i [= E]. by destruct (Hv p0 b0 cl i).
    - rewrite Hn. done. }
  destruct p; cbn [eventgroup_step event_fine] in *; rewrite ?Hf in Hgo; try done; unfold at_waiter in Hgo;
    rewrite ?Hw in Hgo; try discriminate Hgo.
  - destruct (negb _); [injection Hgo as <- <-; exists h; by apply Hstay|].
    apply guarded_go in Hgo as [Hgo|[Hn Hgo]]; [injection Hgo as <- <-; exists h; by apply Hstay|].
    pose proof (unlocked _ _ Hok Hn) as ->. exists None.
    destruct (isTriggered k (bits (shared c))) eqn:Htr.
    + destruct (on_exit k); injection Hgo as <- <-; [by eapply event_clear|by apply Hstay].
    + injection Hgo as <- <-. eapply event_local; try done.
      * cbn. by rewrite length_insert.
      * intros u Hne. cbn. by rewrite list_lookup_insert_ne.
      * intros k' [= <-]. splits; [done|by intros s [= <-]|]. eexists. split; [by apply list_lookup_insert_eq|].
        apply stage_registered; [done|done|by intros s [= <-]|done].
  - destruct (isTriggered k (bitsSeen w)) eqn:Htr; injection Hgo as <- <-; exists h; [by apply Hstay|].
    destruct (Hwait k eq_refl) as (Hk & _ & w' & Hw' & Hst). assert (w' = w) as -> by congruence.
    eapply event_local; try done. intros k' [= <-]. splits; [done|by intros s [= <-]|]. exists w. split; [done|].
    destruct Hst as [H1 H2 H3 H4|H1 H2 H3 H4|H1 H2 H3 H4].
    + apply stage_registered; [done|done|by intros s [= <-]|done].
    + apply stage_marking; [done|done|by intros s [= <-]|done|done].
    + congruence.
  - injection Hgo as <- <-. exists h. eapply event_local; try done.
    + cbn. by rewrite length_insert.
    + intros u Hne. cbn. by rewrite list_lookup_insert_ne.
  - injection Hgo as <- <-. exists h. by apply Hstay.
  - apply guarded_go in Hgo as [Hgo|[Hn Hgo]]; injection Hgo as <- <-; [exists h; by apply Hstay|].
    pose proof (unlocked _ _ Hok Hn) as ->. exists None. by eapply event_clear.
  - apply guarded_go in Hgo as [Hgo|[Hn Hgo]]; injection Hgo as <- <-; [exists h; by apply Hstay|].
    pose proof (unlocked _ _ Hok Hn) as ->. exists (Some (t, (PVisit, 0%nat))). eapply event_update; try done.
    + intros v q Hne [[=]|[=]]. congruence.
    + intros q b1 cl i [= <- <- <- <-]. done.
    + intros q i [= <- <-]. eauto.
    + intros u stt k w' Hne Hu Hk Hwk Hlw Hst. exists w'. split; [done|]. cbn in Hst.
      destruct Hst as [H1 H2 H3 H4|H1 H2 H3 H4|H1 H2 H3 H4]; [|discriminate H4|].
      * apply stage_registered; [done..|]. cbn. by destruct u.
      * apply stage_marked; [done..| |]; [by intros [=]%H3|]. intros q [= <- _]. auto.
  - by destruct (Hnv p bits0 clear i).
Qed.

(** The wake of a waiter's word wakes its thread. *)
Lemma event_wake h c i ws : event_ok h c -> chosen i 1 ws (threads c) = true ->
  event_ok h (mkConfig (shared c) (wake m ws (threads c))) /\
  (forall st, wake m ws (threads c) !! i = Some st -> sleeping st = false).
Proof.
  intros Hok Hch.
  assert (forall t st, wake m ws (threads c) !! t = Some st -> exists st0, threads c !! t = Some st0 /\
    (st = st0 \/ exists k s, st0 = Asleep t (EWaiting k s) /\ st = Running (ELoad k))) as Hc.
  { intros t st. rewrite lookup_wake. intros (st0 & Ht & ->)%fmap_Some. exists st0. split; [done|].
    destruct st0 as [l|j l]; [by left|]. cbn [rouse]. case_bool_decide; [right|by left].
    destruct (eo_fine _ _ Hok _ _ Ht) as [-> Hf]. destruct l; try done. eauto. }
  split; [split; cbn [shared threads]|].
  - rewrite length_wake. apply (eo_length _ _ Hok).
  - apply (eo_alive _ _ Hok).
  - apply (eo_lock _ _ Hok).
  - intros u p b cl j (st0 & Hu & [<-|(k & s & _ & [=])])%Hc. by eapply eo_setting.
  - intros u p j (b & cl & Hu)%(eo_holder _ _ Hok). exists b, cl. by rewrite lookup_wake, Hu.
  - intros t st (st0 & Ht & [->|(k & s & _ & ->)])%Hc; [by eapply eo_fine|done].
  - intros t st k (st0 & Ht & [->|(k' & s & -> & ->)])%Hc Hk; [by eapply eo_wait|]. injection Hk as <-.
    destruct (eo_wait _ _ Hok t _ k' Ht eq_refl) as (Hk & _ & w & Hw & Hst). splits; [done|done|].
    exists w. split; [done|]. destruct Hst; [by apply stage_registered|by apply stage_marking|by apply stage_marked].
  - intros st. rewrite lookup_wake. intros (st0 & Ht & ->)%fmap_Some. destruct st0 as [l|j l]; [done|]. cbn [rouse].
    case_bool_decide as Hin; [done|]. destruct Hin. destruct (eo_fine _ _ Hok _ _ Ht) as [-> _].
    unfold chosen in Hch. apply andb_true_iff in Hch as [[_ Hall]%andb_true_iff Hlen%Z.eqb_eq].
    assert (i ∈ sleepers i (threads c)) as Hs.
    { apply elem_sleepers. unfold asleep_on. rewrite Ht. by apply bool_decide_eq_true. }
    destruct ws as [|v ws].
    { apply list_elem_of_In, in_split in Hs as (l1 & l2 & E). rewrite E, length_app in Hlen. cbn in Hlen. lia. }
    cbn in Hall. apply andb_true_iff in Hall as [Hv _]. unfold asleep_on in Hv.
    destruct (threads c !! v) as [[|j l']|] eqn:Htv; try done. apply bool_decide_eq_true in Hv as <-.
    destruct (eo_fine _ _ Hok _ _ Htv) as [-> _]. apply list_elem_of_here.
Qed.

Lemma notify_shape t b g p i n p' :
  eventgroup_step heap_free t b g p = Notify i n p' -> event_fine t (Running p) -> freed g = false ->
  exists b cl, p = EVisit PNotify b cl i /\ n = 1 /\ p' = EVisit PVisit b cl (S i).
Proof.
  intros Hgo Hfine Hf. destruct p as [| | | | | | | | |ph bb cl j| | | | |];
    cbn [eventgroup_step event_fine] in Hgo, Hfine; rewrite ?Hf in Hgo; try done; unfold guarded, at_waiter in Hgo.
  all: try (repeat case_match; discriminate Hgo).
  destruct ph; cbn in Hgo; unfold at_waiter in Hgo; repeat case_match; try discriminate Hgo.
  injection Hgo as -> <- <-. eauto.
Qed.

Lemma event_notify h c t b p i n p' ws :
  event_ok h c -> threads c !! t = Some (Running p) -> eventgroup_step heap_free t b (shared c) p = Notify i n p' ->
  chosen i n ws (threads c) = true ->
  exists h', event_ok h' (mkConfig (shared c) (<[t := Running p']> (wake m ws (threads c)))).
Proof.
  intros Hok Ht Hgo Hch. pose proof (eo_alive _ _ Hok) as Hf. pose proof (eo_fine _ _ Hok _ _ Ht) as Hfine.
  destruct (notify_shape _ _ _ _ _ _ _ Hgo Hfine Hf) as (b0 & cl & -> & -> & ->).
  destruct (eo_setting _ _ Hok _ _ _ _ _ Ht) as (-> & Hb & _).
  destruct (event_wake _ _ _ _ Hok Hch) as [Hok' Hs].
  assert (wake m ws (threads c) !! t = Some (Running (EVisit PNotify b0 cl i))) as Ht' by by rewrite lookup_wake, Ht.
  exists (Some (t, (PVisit, S i))).
  apply (event_visit _ _ _ _ _ _ PVisit (S i) cl (shared c) Hok' Ht'); try done; auto.
  intros stt k w Hi Hk Hwk Hlw Hst. exists w. split; [done|].
  apply stage_here in Hst as [(_ & _ & [])|(H1 & H2 & H3 & H4)]. apply stage_marked; [done|done| |].
  - by rewrite (Hs _ Hi).
  - intros q [= -> Hq]. lia.
Qed.

Lemma event_resume h c t p i l r :
  event_ok h c -> threads c !! t = Some p ->
  p = Asleep i l \/ (exists q b v, p = Running q /\ eventgroup_step heap_free t b (shared c) q = Wait i v l) ->
  event_ok h (mkConfig (shared c) (<[t := Running (eventgroup_resume l r)]> (threads c))) /\
  (forall v, (exists q b, p = Running q /\ eventgroup_step heap_free t b (shared c) q = Wait i v l) ->
     seen_word (shared c) i = v -> event_ok h (mkConfig (shared c) (<[t := Asleep i l]> (threads c)))).
Proof.
  intros Hok Ht Hp. pose proof (eo_alive _ _ Hok) as Hf.
  assert (exists k s, l = EWaiting k s /\ (p = Asleep i l \/ p = Running (EFutex k s) /\ i = t) /\
    (forall v, (exists q b, p = Running q /\ eventgroup_step heap_free t b (shared c) q = Wait i v l) -> v = s /\ i = t))
    as (k & s & -> & Hps & Hv).
  { destruct Hp as [->|(q & b & v & -> & Hq)].
    - destruct (eo_fine _ _ Hok _ _ Ht) as [-> Hl]. destruct l; try done. eexists _, _. splits; [done|by left|].
      intros v (q & b & [=] & _).
    - assert (forall b v, eventgroup_step heap_free t b (shared c) q = Wait i v l ->
        exists k s, q = EFutex k s /\ i = t /\ v = s /\ l = EWaiting k s) as Hw.
      { pose proof (eo_fine _ _ Hok _ _ Ht) as Hfine. clear -Hf Hfine. intros b v Hq.
        destruct q as [| |k s| | | | | | |ph bb cl j| | | | |]; cbn [eventgroup_step event_fine] in Hq, Hfine;
          rewrite ?Hf in Hq; try done; unfold guarded, at_waiter in Hq.
        all: try (repeat case_match; discriminate Hq).
        - injection Hq as <- <- <-. eauto 6.
        - destruct ph; cbn in Hq; unfold at_waiter in Hq; repeat case_match; discriminate Hq. }
      destruct (Hw b v Hq) as (k & s & -> & -> & -> & ->). exists k, s. splits; [done|by right|].
      intros v1 (q & b1 & [= <-] & Hq1). by destruct (Hw b1 v1 Hq1) as (k1 & s1 & [= <- <-] & _ & -> & _). }
  assert (exists k', wait_of p = Some k' /\ k' = k /\ seen_of p = Some s) as (k' & Hw & -> & Hs)
    by (destruct Hps as [->|[-> _]]; eauto).
  destruct (eo_wait _ _ Hok t p k Ht Hw) as (Hk & Hsn & w & Hlw & Hst).
  assert (forall q b cl j r, p <> Running (EVisit q b cl j) /\ (Running (eventgroup_resume (EWaiting k s) r) : estatus) <> Running (EVisit q b cl j)) as Hnv.
  { intros. destruct Hps as [->|[-> _]]; (split; [done|]); cbn; by destruct (_ =? _). }
  split.
  - eapply event_local; try done; [intros; by apply Hnv..| |].
    + cbn. by destruct (_ =? _).
    + intros k' Hk'. cbn in Hk' |- *. destruct (r =? - ETIMEDOUT); [discriminate Hk'|]. injection Hk' as <-.
      splits; [done|done|]. exists w. split; [done|].
      destruct Hst; [by apply stage_registered|by apply stage_marking|by apply stage_marked].
  - intros v Hq Hword. destruct (Hv v Hq) as [-> ->]. unfold seen_word in Hword. rewrite Hlw in Hword. cbn in Hword.
    eapply event_local; try done; [intros; by apply Hnv|].
    intros k' [= <-]. splits; [done|by intros s' [= <-]; apply Hsn|]. exists w. split; [done|]. destruct Hst.
    + apply stage_registered; [done|done|by intros s' [= <-]|done].
    + apply stage_marking; [done|done|by intros s' [= <-]|done|done].
    + specialize (Hsn s Hs). congruence.
Qed.

Lemma event_move c c' : (exists h, event_ok h c) -> move m c c' -> exists h, event_ok h c'.
Proof.
  intros [h Hok] [t b l g l' Ht Hp|t b l k v l' Ht Hp Hw|t b l k v l' Ht Hp Hw|t b l k n l' ws Ht Hp Hc|
    t l0 l Ht Hc|t k l r Ht _|t l k v l' r Ht Hp _].
  - destruct l as [| | | | | | | | |p bb cl i| | | | |];
      try (by apply (event_go h c t b _ g l' Hok Ht); [|exact Hp]).
    cbn [program eventgroup eventgroup_step] in Hp. rewrite (eo_alive _ _ Hok) in Hp.
    by apply (set_go c t p bb cl i h g l' Hok Ht).
  - exists h. destruct (event_resume h c t _ k l' 0 Hok Ht) as [_ Hz]; [right; by exists l, b, v|].
    apply (Hz v); [by exists l, b|exact Hw].
  - exists h. apply (event_resume h c t (Running l) k l' 0 Hok Ht). right. by exists l, b, v.
  - destruct (notify_shape _ _ _ _ _ _ _ Hp (eo_fine _ _ Hok _ _ Ht) (eo_alive _ _ Hok)) as (b0 & cl & -> & -> & ->).
    exact (event_notify h c t b _ k 1 _ ws Hok Ht Hp Hc).
  - exists h. eapply event_local; try done.
    + intros q b cl i [= ->]. discriminate Hc.
    + intros q b cl i [= ->]. by destruct l0.
    + apply (eo_alive _ _ Hok).
    + destruct l0, l; try discriminate Hc; try done. cbn in Hc |- *. by apply negb_true_iff, Z.eqb_neq in Hc.
    + intros k Hk. by destruct l0, l.
  - exists h. apply (event_resume h c t (Asleep k l) k l r Hok Ht). by left.
  - exists h. apply (event_resume h c t (Running l) k l' r Hok Ht). right. by exists l, true, v.
Qed.

Lemma event_reach es n c : run m es (eventgroup_init n) = Some c -> exists h, event_ok h c.
Proof. apply (move_invariant m (fun c => exists h, event_ok h c)); [apply event_move|]. exists None. apply event_init. Qed.

(** A call of [eventgroup_set] that has still to come to the waiter of [t], or is at it: the waiter
    is registered and passes the test, or it is marked and about to be woken. *)
Definition wake_pending (c : econfig) (t : nat) (k : wait_call) (seen : Z) : Prop :=
  exists u p b cl j, lock (shared c) = Some u /\ threads c !! u = Some (Running (EVisit p b cl j)) /\ (j <= t)%nat /\
    (waiters (shared c) !! t = Some (register k seen) /\
       (j = t -> p = PVisit \/ p = PTest \/ isTriggered k b = true) \/
     j = t /\ (p = PMark /\ isTriggered k b = true \/ p = PNotify /\ isTriggered k (seen_word (shared c) t) = true)).

(** C35.  No event is missed by a waiting thread: whatever the interleaving of the waits (with any
    conditions and timeouts), sets, clears and reads of any number of threads, a thread sleeps in
    [eventgroup_wait] only while it will be woken if it has to be: either its waiter is registered
    with what it asked for and the bits do not meet its condition, or a call of [eventgroup_set]
    is under way that has still to come to this waiter, or is marking it, or is about to wake it.
    No access is out of bounds. *)
Theorem eventgroup_no_missed_event es n c :
  run m es (eventgroup_init n) = Some c ->
  (forall t, threads c !! t <> Some (Running EStopped)) /\
  forall t i k seen, threads c !! t = Some (Asleep i (EWaiting k seen)) ->
    i = t /\
    (waiters (shared c) !! t = Some (register k seen) /\ isTriggered k (bits (shared c)) = false \/
     wake_pending c t k seen).
Proof.
  intros [h Hok]%event_reach. split.
  { intros t Ht. apply (eo_fine _ _ Hok _ _ Ht). }
  intros t i k seen Ht. split; [apply (eo_fine _ _ Hok _ _ Ht)|].
  destruct (eo_wait _ _ Hok t _ k Ht eq_refl) as (Hk & Hs & w & Hw & Hst). unfold wake_pending. rewrite Hw.
  assert (forall u p j, h = Some (u, (p, j)) -> exists b cl, lock (shared c) = Some u /\
    threads c !! u = Some (Running (EVisit p b cl j)) /\ b = bits (shared c)) as Hh.
  { intros u p j ->. destruct (eo_holder _ _ Hok u p j eq_refl) as (b & cl & Hu).
    destruct (eo_setting _ _ Hok _ _ _ _ _ Hu) as (_ & Hb & _). rewrite (eo_lock _ _ Hok). eauto. }
  destruct Hst as [H1 H2 H3 H4|H1 H2 H3 H4 H5|H1 H2 H3 H4].
  - assert (w = register k seen) as -> by (rewrite H1; f_equal; by apply H3).
    destruct h as [[u [p j]]|]; [|by left]. destruct (Hh u p j eq_refl) as (b & cl & Hl & Hu & ->).
    cbn [snd fmap option_fmap option_map] in H4. unfold registered_at in H4.
    destruct (Nat.ltb_spec j t); [|destruct (Nat.eqb_spec j t); [|by left]].
    + right. exists u, p, (bits (shared c)), cl, j. splits; [done|done|lia|]. left. split; [done|lia].
    + right. exists u, p, (bits (shared c)), cl, j. splits; [done|done|lia|]. left. split; [done|]. destruct p; auto.
  - destruct h as [[u [p j]]|]; [|discriminate H4]. injection H4 as -> ->.
    destruct (Hh u PMark t eq_refl) as (b & cl & Hl & Hu & ->). right. do 5 eexists. splits; [done|done|lia|]. right. auto.
  - destruct h as [[u [p j]]|]; [|discriminate (H3 eq_refl)]. injection (H3 eq_refl) as -> ->.
    destruct (Hh u PNotify t eq_refl) as (b & cl & Hl & Hu & ->). right. do 5 eexists. splits; [done|done|lia|].
    right. split; [done|]. right. split; [done|]. unfold seen_word. by rewrite Hw.
Qed.
End Run.

(** ** Three threads *)

Definition esteps (t n : nat) : list (event event_point) := replicate n (Step t true []).

Definition demo_group (destroys : bool) (es : list (event event_point)) : option econfig :=
  run (eventgroup 0 destroys) es (eventgroup_init 3).

(** Thread 0 waits for the event 1 and clears it on exit; thread 1 sets it, up to its wake. *)
Definition waiting_for (k : wait_call) : list (event event_point) := Call 0 (EWait k) :: esteps 0 2.
Definition setting (mask : Z) : list (event event_point) := [Call 1 (ESet mask)].

Lemma eventgroup_no_missed_event_witness :
  exists c, demo_group false (waiting_for (mkWait 3 true true) ++ setting 1 ++ esteps 1 6) = Some c /\
    threads c !! 0%nat = Some (Asleep 0%nat (EWaiting (mkWait 3 true true) 0)) /\
    waiters (shared c) !! 0%nat = Some (register (mkWait 3 true true) 0) /\ bits (shared c) = 1.
Proof.
  eexists. split; [vm_compute; reflexivity|].
  pose proof (eventgroup_no_missed_event 0 (waiting_for (mkWait 3 true true) ++ setting 1 ++ esteps 1 6) 3 _
    ltac:(vm_compute; reflexivity)) as [_ H].
  split; [reflexivity|]. destruct (H 0%nat 0%nat (mkWait 3 true true) 0 eq_refl) as [_ [[Hw _]|Hp]].
  - split; [exact Hw|reflexivity].
  - destruct Hp as (u & p & b & cl & j & [=] & _).
Defined.

(** A thread whose timeout expires while [eventgroup_set] marks it returns [-ETIMEDOUT], and the
    event that was meant for it is cleared: nobody sees it. *)
Example event_lost_at_timeout :
  (fun c => (threads c, bits (shared c))) <$>
    demo_group false (waiting_for (mkWait 1 false true) ++ setting 1 ++ esteps 1 6 ++ [End 0 (- ETIMEDOUT)] ++
      esteps 1 4 ++ esteps 0 2) =
  Some ([Running (EOut (- ETIMEDOUT) (Some 0)); Running (EOut 0 (Some 0)); Running (EOut 0 None)], 0).
Proof. by vm_compute. Qed.

(** A woken thread can return before the bits that it asked to clear are cleared. *)
Example event_returned_before_clear :
  (fun c => (take 1 (threads c), bits (shared c))) <$>
    demo_group false (waiting_for (mkWait 1 false true) ++ setting 1 ++ esteps 1 6 ++ [Step 1 true [0%nat]] ++ esteps 0 1) =
  Some ([Running (EOut 0 (Some 1))], 1).
Proof. by vm_compute. Qed.

(** A thread that [eventgroup_destroy] wakes reads the freed group. *)
Example destroyed_under_waiter :
  (fun c => take 2 (threads c)) <$>
    demo_group true (waiting_for (mkWait 1 false true) ++ [Call 1 EDestroy] ++ esteps 1 5 ++ [Step 1 true [0%nat]] ++
      esteps 1 10 ++ esteps 0 1) =
  Some [Running EStopped; Running (EOut 0 None)].
Proof. by vm_compute. Qed.
