(* ===== verification/RecursiveMutex.v ===== *)
(** * Recursive mutexes

    [src/cheriot-rtos/sdk/lib/locks/locks.cc], [recursivemutex_trylock] and
    [recursivemutex_unlock]: a priority-inheriting flag lock with a depth counter of 16 bits that
    only its owner touches.  The machine embeds the points of [FlagLock]; forgetting the depth
    maps each of its moves to a move of the flag lock, or to none. *)

From S2P Require Import Prelude Machine FlagLock.

Record RecursiveMutexState : Type := mkMutex { lock : Z; depth : Z }.

(** A point carries, as ghost state, how many times the client has acquired the mutex, and the
    result of the inner lock's last call. *)
Inductive mutex_point : Type :=
  | MOut (inner r : Z)            (* outside; the last call returned [r] *)
  | MOwn (k : Z) (r : Z)          (* owned [k] times; the last call returned [r] *)
  | MTryOut (inner : Z)           (* [recursivemutex_trylock] by a thread that does not own it *)
  | MTryOwn (k : Z)               (* and by one that does *)
  | MLock (p : point)             (* its [try_lock] of the flag lock *)
  | MUnlock (k : Z)               (* [recursivemutex_unlock]: the decrement *)
  | MRelease (p : point).         (* its [unlock] of the flag lock *)

Section RecursiveMutex.
Context (DebugLocks : bool) (thread_id_get : nat -> Z).

#[local] Notation fstep := (flaglock_step DebugLocks true thread_id_get).

(** An action of the inner lock, on the state of the mutex. *)
Definition inner_action (s : RecursiveMutexState) (f : point -> mutex_point)
    (a : action Z point unit) : action RecursiveMutexState mutex_point unit :=
  match a with
  | Go w p => Go (mkMutex w (depth s)) (f p)
  | Wait k v p => Wait k v (f p)
  | Notify k n p => Notify k n (f p)
  | Idle => Idle
  end.

(** The start of [recursivemutex_trylock]: the caller's own acquisitions [k], and where it goes
    if it is not the owner. *)
Definition trylock_start (t : nat) (s : RecursiveMutexState) (k : Z) :
    action RecursiveMutexState mutex_point unit :=
  if owner (lock s) =? thread_id_get t then
    if depth s =? 2 ^ 16 - 1 then Go s (MOwn k (- EOVERFLOW))
    else Go (mkMutex (lock s) (u16 (depth s + 1))) (MOwn (k + 1) 0)
  else Go s (MLock TryLock).

Definition mutex_step (t : nat) (may_block : bool) (s : RecursiveMutexState) (p : mutex_point)
    : action RecursiveMutexState mutex_point unit :=
  match p with
  | MOut _ _ | MOwn _ _ => Idle
  | MTryOut _ => trylock_start t s 0
  | MTryOwn k => trylock_start t s k
  | MLock Held => Go (mkMutex (lock s) 1) (MOwn 1 0)
  | MLock (Out r) => Go s (MOut r (- ETIMEDOUT))
  | MLock p => inner_action s MLock (fstep t may_block (lock s) p)
  | MUnlock k =>
      let depth' := u16 (depth s - 1) in
      Go (mkMutex (lock s) depth') (if 0 <? depth' then MOwn (k - 1) 0 else MRelease Unlock)
  | MRelease (Out r) => Go s (MOut r 0)
  | MRelease p => inner_action s MRelease (fstep t may_block (lock s) p)
  end.

Definition mutex_resume (p : mutex_point) (r : Z) : mutex_point :=
  match p with
  | MLock p => MLock (flaglock_resume p r)
  | MRelease p => MRelease (flaglock_resume p r)
  | _ => p
  end.

Definition mutex_may_call (t : nat) (p p' : mutex_point) : bool :=
  match p, p' with
  | MOut i _, MTryOut i' => i =? i'
  | MOwn k _, MTryOwn k' | MOwn k _, MUnlock k' => k =? k'
  | _, _ => false
  end.

Definition recursivemutex : machine RecursiveMutexState mutex_point unit :=
  mkMachine (fun s _ => lock s) mutex_step mutex_resume mutex_may_call (fun _ => true).

Definition mutex_init (n : nat) : config RecursiveMutexState mutex_point unit :=
  mkConfig (mkMutex 0 0) (replicate n (Running (MOut 0 0))).

(** ** The flag lock inside *)

Definition inner_point (p : mutex_point) : point :=
  match p with
  | MOut i _ | MTryOut i => Out i
  | MOwn _ _ | MTryOwn _ | MUnlock _ => Held
  | MLock p | MRelease p => p
  end.

Definition inner_status (st : status mutex_point unit) : status point unit :=
  match st with
  | Running p => Running (inner_point p)
  | Asleep k p => Asleep k (inner_point p)
  end.

Definition inner (c : config RecursiveMutexState mutex_point unit) : config Z point unit :=
  mkConfig (lock (shared c)) (inner_status <$> threads c).

(** The acquisitions a thread counts. *)
Definition nesting (st : status mutex_point unit) : option Z :=
  match st with
  | Running (MOwn k _ | MTryOwn k | MUnlock k) => Some k
  | _ => None
  end.

#[local] Notation flag_machine := (flaglock DebugLocks true thread_id_get).

Context (ids : forall t, 1 <= thread_id_get t < 2 ^ 16)
  (n : nat) (ids_inj : forall t u, (t < n)%nat -> (u < n)%nat -> thread_id_get t = thread_id_get u -> t = u).

Definition mutex_ok (c : config RecursiveMutexState mutex_point unit) : Prop :=
  (flag_ok DebugLocks true thread_id_get (inner c) /\ length (threads c) = n) /\
  forall t st k, threads c !! t = Some st -> nesting st = Some k ->
    depth (shared c) = k /\ 1 <= k < 2 ^ 16.

Lemma ids_u16 t : thread_id_get t in_u 16.
Proof. specialize (ids t). lia. Qed.

Lemma inner_owner c t p :
  mutex_ok c -> threads c !! t = Some (Running p) ->
  (holds_at (inner_point p) = true <-> owner (lock (shared c)) = thread_id_get t).
Proof.
  intros [[(o & w & d & Hok) Hn] _] Ht. pose proof (lo_word _ _ _ _ _ _ _ Hok) as Hw. cbn in Hw.
  assert (threads (inner c) !! t = Some (Running (inner_point p))) as Hi
    by (cbn; by rewrite list_lookup_fmap, Ht).
  pose proof (lo_holder _ _ _ _ _ _ _ Hok t _ Hi) as Hh. cbn in Hh.
  rewrite Hh, Hw. unfold owner. rewrite (encoding_id _ _ _ ids_u16). specialize (ids t) as Hid.
  split; [by intros ->|]. destruct o as [u|]; cbn; [|lia].
  intros Hu. f_equal. destruct (lo_owner _ _ _ _ _ _ _ Hok u eq_refl) as [st Hst].
  apply lookup_lt_Some in Hst, Ht. cbn in Hst. rewrite length_fmap in Hst.
  apply ids_inj; [lia|lia|done].
Qed.

(** A thread that counts acquisitions holds the flag lock, so that there is only one. *)
Lemma nesting_unique c t u st st' k :
  mutex_ok c -> threads c !! t = Some st -> nesting st = Some k ->
  threads c !! u = Some st' -> holds (inner_status st') = true -> t = u.
Proof.
  intros [[(o & w & d & Hok) _] _] Ht Hk Hu Hh.
  assert (holds (inner_status st) = true) as Hh' by (by destruct st as [[]|]).
  assert (forall v s, threads c !! v = Some s -> holds (inner_status s) = true -> o = Some v) as Ho.
  { intros v s Hv Hs. apply (lo_holder _ _ _ _ _ _ _ Hok v (inner_status s)); [|done].
    cbn. by rewrite list_lookup_fmap, Hv. }
  pose proof (Ho t st Ht Hh'). pose proof (Ho u st' Hu Hh). congruence.
Qed.

Lemma inner_insert c t st s :
  inner (mkConfig s (<[t := st]> (threads c))) =
  mkConfig (lock s) (<[t := inner_status st]> (threads (inner c))).
Proof. unfold inner. cbn. by rewrite list_fmap_insert. Qed.

Lemma inner_stay c t st0 st s :
  threads c !! t = Some st0 -> lock s = lock (shared c) -> inner_status st = inner_status st0 ->
  inner (mkConfig s (<[t := st]> (threads c))) = inner c.
Proof.
  intros Ht Hs Hst. rewrite inner_insert, Hs, Hst. unfold inner. f_equal.
  apply list_insert_id. cbn. by rewrite list_lookup_fmap, Ht.
Qed.

Lemma inner_asleep_on c k t : asleep_on k (threads (inner c)) t = asleep_on k (threads c) t.
Proof.
  unfold asleep_on. cbn. rewrite list_lookup_fmap. by destruct (threads c !! t) as [[]|].
Qed.

Lemma inner_chosen c k num ws : chosen k num ws (threads c) = chosen k num ws (threads (inner c)).
Proof.
  assert (forallb (asleep_on k (threads c)) ws = forallb (asleep_on k (threads (inner c))) ws) as Hf.
  { induction ws as [|t ws IH]; [done|]. cbn [forallb]. by rewrite IH, inner_asleep_on. }
  assert (sleepers k (threads c) = sleepers k (threads (inner c))) as Hs.
  { unfold sleepers. replace (length (threads (inner c))) with (length (threads c))
      by (cbn; by rewrite length_fmap).
    apply list_filter_iff. intros t. by rewrite inner_asleep_on. }
  unfold chosen. by rewrite Hf, Hs.
Qed.

Lemma inner_wake c ws :
  inner_status <$> wake recursivemutex ws (threads c) = wake flag_machine ws (threads (inner c)).
Proof.
  apply list_eq. intros t. rewrite list_lookup_fmap, !lookup_wake. cbn. rewrite list_lookup_fmap.
  destruct (threads c !! t) as [[p|k p]|]; [done| |done]. cbn.
  case_match; [|done]. destruct p; done.
Qed.

#[local] Notation fmove := (flag_move DebugLocks true thread_id_get ids_u16).

Lemma inner_lookup c t st : threads c !! t = Some st -> threads (inner c) !! t = Some (inner_status st).
Proof. intros Ht. cbn. by rewrite list_lookup_fmap, Ht. Qed.

(** The inner lock's part of the invariant: [t] makes a move of the flag lock. *)
Lemma inner_go c t b p s p' q w :
  flag_ok DebugLocks true thread_id_get (inner c) -> threads c !! t = Some (Running p) ->
  fstep t b (lock (shared c)) (inner_point p) = Go w q ->
  lock s = w -> inner_point p' = q ->
  flag_ok DebugLocks true thread_id_get (inner (mkConfig s (<[t := Running p']> (threads c)))).
Proof.
  intros Hok Ht Hs <- <-. rewrite inner_insert. eapply fmove; [exact Hok|].
  eapply (move_go _ (inner c)); [exact (inner_lookup _ _ _ Ht)|done].
Qed.

Lemma inner_call c t p s p' :
  flag_ok DebugLocks true thread_id_get (inner c) -> threads c !! t = Some (Running p) ->
  flaglock_may_call t (inner_point p) (inner_point p') = true -> lock s = lock (shared c) ->
  flag_ok DebugLocks true thread_id_get (inner (mkConfig s (<[t := Running p']> (threads c)))).
Proof.
  intros Hok Ht Hs Hl. rewrite inner_insert, Hl. eapply fmove; [exact Hok|].
  eapply (move_call _ (inner c)); [exact (inner_lookup _ _ _ Ht)|done].
Qed.

Lemma inner_same c t st0 st s :
  flag_ok DebugLocks true thread_id_get (inner c) -> threads c !! t = Some st0 ->
  lock s = lock (shared c) -> inner_status st = inner_status st0 ->
  flag_ok DebugLocks true thread_id_get (inner (mkConfig s (<[t := st]> (threads c)))).
Proof. intros. by erewrite inner_stay. Qed.

(** The depth's part: nobody else counts acquisitions when [t] holds the flag lock. *)
Lemma depth_keep c t st0 st s :
  mutex_ok c -> threads c !! t = Some st0 ->
  (depth s = depth (shared c) \/ holds (inner_status st0) = true) ->
  (forall k, nesting st = Some k -> depth s = k /\ 1 <= k < 2 ^ 16) ->
  forall u st' k, <[t := st]> (threads c) !! u = Some st' -> nesting st' = Some k ->
    depth s = k /\ 1 <= k < 2 ^ 16.
Proof.
  intros Hok Ht Hd Hst u st' k [[-> ->]|[Hne Hu]]%lookup_stepped Hk; [auto|].
  destruct Hd as [->|Hh]; [by eapply Hok|].
  destruct Hne. by eapply nesting_unique.
Qed.

Lemma mutex_mk c t st s :
  mutex_ok c -> flag_ok DebugLocks true thread_id_get (inner (mkConfig s (<[t := st]> (threads c)))) ->
  (forall u st' k, <[t := st]> (threads c) !! u = Some st' -> nesting st' = Some k ->
    depth s = k /\ 1 <= k < 2 ^ 16) ->
  mutex_ok (mkConfig s (<[t := st]> (threads c))).
Proof.
  intros [[_ Hn] _] Hf Hd. split; [split; [exact Hf|]|exact Hd]. cbn. by rewrite length_insert.
Qed.

(** [recursivemutex_trylock] by a thread that has acquired the mutex [k] times. *)
Lemma trylock_start_ok c t p k s p' :
  mutex_ok c -> threads c !! t = Some (Running p) ->
  (p = MTryOwn k \/ k = 0 /\ exists i, p = MTryOut i) ->
  trylock_start t (shared c) k = Go s p' ->
  mutex_ok (mkConfig s (<[t := Running p']> (threads c))).
Proof.
  intros Hok Ht Hp. pose proof (inner_owner _ _ _ Hok Ht) as Ho. unfold trylock_start.
  destruct (Z.eqb_spec (owner (lock (shared c))) (thread_id_get t)) as [He|He].
  - destruct Hp as [->|(_ & i & ->)]; [|by apply Ho in He].
    destruct (proj2 Hok _ _ _ Ht eq_refl) as [Hd Hk].
    destruct (Z.eqb_spec (depth (shared c)) (2 ^ 16 - 1)) as [Hm|Hm]; intros [= <- <-].
    + apply mutex_mk; [done|by eapply inner_same; [apply Hok|..]|].
      eapply (depth_keep c); try done; [by left|]. by intros ? [= <-].
    + unfold u16. rewrite wrap_small by lia.
      apply mutex_mk; [done|by eapply inner_same; [apply Hok|..]|].
      eapply (depth_keep c); try done; [by right|]. cbn. intros ? [= <-]. lia.
  - intros [= <- <-]. destruct Hp as [->|(_ & i & ->)]; [by destruct He; apply Ho|].
    apply mutex_mk; [done|by eapply inner_call; [apply Hok|..]|].
    eapply (depth_keep c); try done. by left.
Qed.

Lemma mutex_go c t b p s p' :
  mutex_ok c -> threads c !! t = Some (Running p) -> mutex_step t b (shared c) p = Go s p' ->
  mutex_ok (mkConfig s (<[t := Running p']> (threads c))).
Proof.
  intros Hok Ht Hs.
  assert (forall q f, p = f q -> (f = MLock \/ f = MRelease) ->
    inner_action (shared c) f (fstep t b (lock (shared c)) q) = Go s p' ->
    mutex_ok (mkConfig s (<[t := Running p']> (threads c)))) as Hin.
  { intros q f -> Hf Ha.
    destruct (fstep t b (lock (shared c)) q) as [w q'| | |] eqn:Hq; try discriminate.
    injection Ha as <- <-. apply mutex_mk; [done|..].
    - eapply inner_go; [apply Hok|done| |done|by destruct Hf as [-> | ->]].
      by destruct Hf as [-> | ->].
    - eapply (depth_keep c); try done; [by left|]. by destruct Hf as [-> | ->]. }
  destruct p as [i r|k r|i|k|q|k|q]; cbn [mutex_step] in Hs; try discriminate.
  - eapply trylock_start_ok; [done|done|right; by eauto|done].
  - eapply trylock_start_ok; [done|done|by left|done].
  - destruct q; try (by eapply (Hin _ MLock); [done|by left|]).
    + injection Hs as <- <-. apply mutex_mk; [done|by eapply inner_same; [apply Hok|..]|].
      eapply (depth_keep c); try done. by left.
    + injection Hs as <- <-. apply mutex_mk; [done|by eapply inner_same; [apply Hok|..]|].
      eapply (depth_keep c); try done; [by right|]. by intros ? [= <-].
  - destruct (proj2 Hok _ _ _ Ht eq_refl) as [Hd Hk]. revert Hs.
    unfold u16. rewrite wrap_small by lia. intros [= <- <-].
    destruct (Z.ltb_spec 0 (depth (shared c) - 1)).
    + apply mutex_mk; [done|by eapply inner_same; [apply Hok|..]|].
      eapply (depth_keep c); try done; [by right|]. cbn. intros ? [= <-]. lia.
    + apply mutex_mk; [done|by eapply inner_call; [apply Hok|..]|].
      eapply (depth_keep c); try done. by right.
  - destruct q; try (by eapply (Hin _ MRelease); [done|by right|]).
    injection Hs as <- <-. apply mutex_mk; [done|by eapply inner_same; [apply Hok|..]|].
    eapply (depth_keep c); try done. by left.
Qed.

(** The points at which the inner lock calls the futex. *)
Lemma mutex_futex t b s p a :
  mutex_step t b s p = a -> (forall s' p', a <> Go s' p') -> a <> Idle ->
  exists q f, p = f q /\ (f = MLock \/ f = MRelease) /\
    a = inner_action s f (fstep t b (lock s) q).
Proof.
  intros <- Hg Hi. destruct p as [i r|k r|i|k|q|k|q]; cbn [mutex_step] in *; try done.
  - unfold trylock_start in *. repeat case_match; by destruct (Hg _ _ eq_refl).
  - unfold trylock_start in *. repeat case_match; by destruct (Hg _ _ eq_refl).
  - exists q, MLock. destruct q; try by auto. all: by destruct (Hg _ _ eq_refl).
  - by destruct (Hg _ _ eq_refl).
  - exists q, MRelease. destruct q; try by auto. by destruct (Hg _ _ eq_refl).
Qed.

Lemma inner_resume f q r :
  f = MLock \/ f = MRelease ->
  inner_status (Running (mutex_resume (f q) r)) = Running (flaglock_resume q r) /\
  nesting (Running (mutex_resume (f q) r)) = None /\ inner_point (f q) = q.
Proof. by intros [-> | ->]. Qed.

(** After a futex call of the inner lock the caller counts no acquisitions, and the depth stays. *)
Lemma futex_depth c t st0 st :
  mutex_ok c -> threads c !! t = Some st0 -> nesting st = None ->
  forall u st' k, <[t := st]> (threads c) !! u = Some st' -> nesting st' = Some k ->
    depth (shared c) = k /\ 1 <= k < 2 ^ 16.
Proof. intros Hok Ht Hn. eapply (depth_keep c); [done|done|by left|]. by rewrite Hn. Qed.

Lemma mutex_move c c' : mutex_ok c -> move recursivemutex c c' -> mutex_ok c'.
Proof.
  intros Hok Hm. pose proof (proj1 (proj1 Hok)) as Hfl.
  destruct Hm as [t b p s p' Ht Hp|t b p k v p' Ht Hp He|t b p k v p' Ht Hp He|t b p k num p' ws Ht Hp Hch
    |t p0 p Ht Hc0|t k p r Ht _|t p k v p' r Ht Hp _]; cbn [recursivemutex program] in *.
  - by eapply mutex_go.
  - destruct (mutex_futex _ _ _ _ _ Hp) as (q & f & -> & Hf & Ha); [done..|].
    destruct (fstep t b (lock (shared c)) q) as [|k' v' q'| |] eqn:Hq; try discriminate.
    injection Ha as <- <- ->. pose proof (inner_resume f q 0 Hf) as (_ & _ & Hip).
    apply mutex_mk; [done| |by eapply (futex_depth c); [done|done|destruct Hf as [-> | ->]]].
    rewrite inner_insert. cbn [inner_status]. rewrite (proj2 (proj2 (inner_resume f q' 0 Hf))).
    eapply fmove; [exact Hfl|].
    eapply (move_sleep flag_machine (inner c)); [rewrite (inner_lookup _ _ _ Ht); cbn; by rewrite Hip| |].
    + exact Hq.
    + exact He.
  - destruct (mutex_futex _ _ _ _ _ Hp) as (q & f & -> & Hf & Ha); [done..|].
    destruct (fstep t b (lock (shared c)) q) as [|k' v' q'| |] eqn:Hq; try discriminate.
    injection Ha as <- <- ->. pose proof (inner_resume f q 0 Hf) as (_ & _ & Hip).
    destruct (inner_resume f q' 0 Hf) as (Hr & Hn & _).
    apply mutex_mk; [done| |by eapply (futex_depth c)].
    rewrite inner_insert. cbn [recursivemutex resume]. rewrite Hr. eapply fmove; [exact Hfl|].
    eapply (move_pass flag_machine (inner c)); [rewrite (inner_lookup _ _ _ Ht); cbn; by rewrite Hip| |].
    + exact Hq.
    + exact He.
  - destruct (mutex_futex _ _ _ _ _ Hp) as (q & f & -> & Hf & Ha); [done..|].
    destruct (fstep t b (lock (shared c)) q) as [| |k' n' q'|] eqn:Hq; try discriminate.
    injection Ha as <- <- ->. pose proof (inner_resume f q 0 Hf) as (_ & _ & Hip).
    destruct (inner_resume f q' (Z.of_nat (length ws)) Hf) as (Hr & Hn & _).
    split; [split; [|cbn; rewrite length_insert, length_wake; apply Hok]|].
    + unfold inner. cbn [shared threads]. rewrite list_fmap_insert, inner_wake.
      cbn [recursivemutex resume]. rewrite Hr.
      eapply fmove; [exact Hfl|]. rewrite inner_chosen in Hch.
      eapply (move_notify flag_machine (inner c));
        [rewrite (inner_lookup _ _ _ Ht); cbn; by rewrite Hip|exact Hq|exact Hch].
    + intros u st k' [[-> ->]|(_ & st0 & Hu & ->)]%lookup_moved Hk.
      * cbn [recursivemutex resume] in Hk. by rewrite Hn in Hk.
      * eapply (proj2 Hok u st0); [done|]. destruct st0 as [|k0 q0]; [done|].
        cbn in Hk. case_match; [|done]. pose proof Hfl as (o & w & d & Hlo).
        pose proof (lo_fine _ _ _ _ _ _ _ Hlo _ _ (inner_lookup _ _ _ Hu)) as Hfi.
        cbn in Hfi. by destruct q0.
  - apply mutex_mk; [done|..].
    + destruct p0, p; try discriminate; cbn in Hc0; apply Z.eqb_eq in Hc0 as ->;
        by eapply inner_same.
    + eapply (depth_keep c); try done; [by left|].
      destruct p0, p; try discriminate; cbn in Hc0; apply Z.eqb_eq in Hc0 as ->; try done;
        intros ? [= <-]; by eapply (proj2 Hok).
  - pose proof Hfl as (o & w & d & Hlo).
    pose proof (lo_fine _ _ _ _ _ _ _ Hlo _ _ (inner_lookup _ _ _ Ht)) as Hfi. cbn in Hfi.
    assert (exists f, p = f Waiting /\ (f = MLock \/ f = MRelease)) as (f & -> & Hf).
    { destruct p; try discriminate; cbn in Hfi; subst; by eauto. }
    destruct (inner_resume f Waiting r Hf) as (Hr & Hn & Hip). apply mutex_mk; [done| |by eapply (futex_depth c)].
    rewrite inner_insert. cbn [recursivemutex resume]. rewrite Hr. eapply fmove; [exact Hfl|].
    eapply (move_timeout flag_machine (inner c)); [rewrite (inner_lookup _ _ _ Ht); cbn; by rewrite Hip|done].
  - destruct (mutex_futex _ _ _ _ _ Hp) as (q & f & -> & Hf & Ha); [done..|].
    destruct (fstep t true (lock (shared c)) q) as [|k' v' q'| |] eqn:Hq; try discriminate.
    injection Ha as <- <- ->. pose proof (inner_resume f q 0 Hf) as (_ & _ & Hip).
    destruct (inner_resume f q' r Hf) as (Hr & Hn & _).
    apply mutex_mk; [done| |by eapply (futex_depth c)].
    rewrite inner_insert. cbn [recursivemutex resume]. rewrite Hr. eapply fmove; [exact Hfl|].
    eapply (move_refused flag_machine (inner c)); [rewrite (inner_lookup _ _ _ Ht); cbn; by rewrite Hip|exact Hq|done].
Qed.

Lemma mutex_reach es c :
  Z.of_nat n <= UINT32_MAX -> run recursivemutex es (mutex_init n) = Some c -> mutex_ok c.
Proof.
  intros Hn. apply move_invariant; [apply mutex_move|].
  split; [split; [|cbn; by rewrite length_replicate]|].
  - exists None, false, false. unfold inner, mutex_init. cbn.
    rewrite fmap_replicate. by apply lock_init.
  - by intros t st k [-> _]%lookup_replicate.
Qed.

(** ** The property *)

(** The recursive mutex nests: whatever the interleaving, only one thread owns it at a time;
    [depth] is the number of times that thread has acquired it and not yet released it; acquiring
    it again adds one, or fails with [-EOVERFLOW] and changes nothing when [depth] is 65535; and
    a release keeps it owned until the last one. *)
Theorem recursivemutex_nests es c t k r :
  Z.of_nat n <= UINT32_MAX -> run recursivemutex es (mutex_init n) = Some c ->
  threads c !! t = Some (Running (MOwn k r)) ->
  (forall u k' r', threads c !! u = Some (Running (MOwn k' r')) -> u = t) /\
  depth (shared c) = k /\
  run recursivemutex [Call t (MTryOwn k); Step t false []] c =
    Some (if k =? 2 ^ 16 - 1
          then mkConfig (shared c) (<[t := Running (MOwn k (- EOVERFLOW))]> (threads c))
          else mkConfig (mkMutex (lock (shared c)) (k + 1)) (<[t := Running (MOwn (k + 1) 0)]> (threads c))) /\
  run recursivemutex [Call t (MUnlock k); Step t false []] c =
    Some (mkConfig (mkMutex (lock (shared c)) (k - 1))
      (<[t := Running (if 1 <? k then MOwn (k - 1) 0 else MRelease Unlock)]> (threads c))).
Proof.
  intros Hn Hok%mutex_reach Ht; [|done].
  destruct (proj2 Hok t _ k Ht eq_refl) as [Hd Hk].
  pose proof (proj1 (inner_owner _ _ _ Hok Ht) eq_refl) as Ho.
  assert (t < length (threads c))%nat as Hlt by eauto using lookup_lt_Some.
  split; [|split; [done|split]].
  - intros u k' r' Hu. symmetry. eapply nesting_unique; [done|exact Ht|done|exact Hu|done].
  - cbn. rewrite Ht. cbn. rewrite Z.eqb_refl. cbn. rewrite list_lookup_insert_eq by done. cbn.
    unfold trylock_start. rewrite Ho, Z.eqb_refl, Hd.
    destruct (k =? 2 ^ 16 - 1) eqn:Hm; cbn; rewrite list_insert_insert_eq; [done|].
    unfold u16. rewrite wrap_small by lia. done.
  - cbn. rewrite Ht. cbn. rewrite Z.eqb_refl. cbn. rewrite list_lookup_insert_eq by done. cbn.
    rewrite list_insert_insert_eq, Hd. unfold u16. rewrite wrap_small by lia.
    by replace (0 <? k - 1) with (1 <? k) by lia.
Qed.

End RecursiveMutex.

(** A thread that has acquired the mutex twice. *)
Definition own_ids (t : nat) : Z := Z.of_nat t mod (2 ^ 16 - 1) + 1.

Lemma own_ids_ok t : 1 <= own_ids t < 2 ^ 16.
Proof. unfold own_ids. pose proof (Z.mod_pos_bound (Z.of_nat t) (2 ^ 16 - 1)). lia. Qed.

Lemma own_ids_inj t u : (t < 2)%nat -> (u < 2)%nat -> own_ids t = own_ids u -> t = u.
Proof. unfold own_ids. intros. rewrite !Z.mod_small in * by lia. lia. Qed.

Definition acquired_twice : list (event mutex_point) :=
  [Call 0 (MTryOut 0); Step 0 true []; Step 0 true []; Step 0 true []; Call 0 (MTryOwn 1);
   Step 0 true []].

Lemma recursivemutex_nests_witness :
  exists c, run (recursivemutex true own_ids) acquired_twice (mutex_init 2) = Some c /\
    depth (shared c) = 2 /\ owner (lock (shared c)) = 1.
Proof.
  eexists. split; [by vm_compute|]. split; [|done].
  refine (proj1 (proj2 (recursivemutex_nests true own_ids own_ids_ok 2 own_ids_inj acquired_twice
    _ 0 2 0 _ _ _))); [done|by vm_compute|done].
Defined.
