(* ===== verification/TicketLock.v ===== *)
(** * Ticket locks

    [src/cheriot-rtos/sdk/lib/locks/locks.cc], [InternalTicketLock].  The shared state is the
    two counters of 32 bits; the model's theorems are about threads that take the lock and
    release it any number of times, so that the counters wrap around. *)

From S2P Require Import Prelude Machine.

Record TicketLockState : Type := mkTicket { current : Z; next : Z }.

Inductive ticket_point : Type :=
  | TOut                            (* outside *)
  | TTake                           (* [next++] of [lock] *)
  | TRead (ticket : Z)              (* the load of [current] *)
  | TWait (ticket snapshot : Z)     (* [current.wait] *)
  | TWaiting (ticket : Z)           (* inside the wait *)
  | THeld (ticket : Z)              (* [lock] returned *)
  | TUnlock (ticket : Z)            (* [current++] of [unlock] *)
  | TTest (snapshot : Z)            (* the load of [next] *)
  | TWake.                          (* [current.notify_all] *)

Definition all_threads : Z := 2 ^ 32 - 1.

Definition ticketlock_step (t : nat) (may_block : bool) (s : TicketLockState) (p : ticket_point)
    : action TicketLockState ticket_point unit :=
  match p with
  | TOut | TWaiting _ | THeld _ => Idle
  | TTake => Go (mkTicket (current s) (u32 (next s + 1))) (TRead (next s))
  | TRead ticket =>
      Go s (if current s =? ticket then THeld ticket else TWait ticket (current s))
  | TWait ticket snapshot => Wait tt snapshot (TWaiting ticket)
  | TUnlock _ => Go (mkTicket (u32 (current s + 1)) (next s)) (TTest (current s))
  | TTest snapshot => Go s (if negb (next s =? snapshot) then TWake else TOut)
  | TWake => Notify tt all_threads TOut
  end.

Definition ticketlock_resume (p : ticket_point) (r : Z) : ticket_point :=
  match p with TWaiting ticket => TRead ticket | _ => p end.

Definition ticketlock_may_call (t : nat) (p p' : ticket_point) : bool :=
  match p, p' with
  | TOut, TTake => true
  | THeld ticket, TUnlock ticket' => ticket =? ticket'
  | _, _ => false
  end.

(** The wait has no timeout; ending it by itself is a spurious wake. *)
Definition ticketlock : machine TicketLockState ticket_point unit :=
  mkMachine (fun s _ => current s) ticketlock_step ticketlock_resume ticketlock_may_call
    (fun _ => true).

Definition ticketlock_init (n : nat) : config TicketLockState ticket_point unit :=
  mkConfig (mkTicket 0 0) (replicate n (Running TOut)).

(** ** The order of arrival and the order of entry *)

#[local] Notation tstatus := (status ticket_point unit).

Definition ticket_of (st : tstatus) : option Z :=
  match st with
  | Running (TRead k | TWait k _ | THeld k | TUnlock k) => Some k
  | Asleep _ (TWaiting k) => Some k
  | _ => None
  end.

Definition inside (st : tstatus) : bool :=
  match st with Running (THeld _ | TUnlock _) => true | _ => false end.

(** What a step appends to the lists of arrivals (a ticket was taken) and of entries. *)
Definition arrival (e : event ticket_point) (c : config TicketLockState ticket_point unit)
    : list nat :=
  match e with
  | Step t _ _ => match threads c !! t with Some (Running TTake) => [t] | _ => [] end
  | _ => []
  end.

Definition entry (e : event ticket_point) (c : config TicketLockState ticket_point unit)
    : list nat :=
  match e with
  | Step t _ _ =>
      match threads c !! t with
      | Some (Running (TRead k)) => if current (shared c) =? k then [t] else []
      | _ => []
      end
  | _ => []
  end.

Fixpoint history (es : list (event ticket_point)) (c : config TicketLockState ticket_point unit)
    : list nat * list nat :=
  match es with
  | [] => ([], [])
  | e :: es =>
      match exec ticketlock e c with
      | Some c' => let '(a, b) := history es c' in (arrival e c ++ a, entry e c ++ b)
      | None => ([], [])
      end
  end.

(** ** The invariant *)

Definition asleep (st : tstatus) : bool := match st with Asleep _ _ => true | _ => false end.

(** The thread is about to wake the sleepers. *)
Definition waker (s : TicketLockState) (st : tstatus) : Prop :=
  match st with
  | Running TWake => True
  | Running (TTest snapshot) => current s = u32 (snapshot + 1) /\ snapshot in_u 32
  | _ => False
  end.

Definition place_ok (s : TicketLockState) (q : list nat) (t : nat) (st : tstatus) : Prop :=
  match ticket_of st with
  | None => t ∉ q /\ asleep st = false
  | Some k => exists i, q !! i = Some t /\ k = u32 (current s + Z.of_nat i) /\
      (inside st = true -> i = 0%nat) /\
      (forall snapshot, st = Running (TWait k snapshot) -> k <> snapshot)
  end.

Record ticket_ok (q : list nat) (c : config TicketLockState ticket_point unit) : Prop := mkTicketOk {
  tk_threads : Z.of_nat (length (threads c)) < all_threads;
  tk_nodup : NoDup q;
  tk_range t : t ∈ q -> is_Some (threads c !! t);
  tk_current : current (shared c) in_u 32;
  tk_next : next (shared c) = u32 (current (shared c) + Z.of_nat (length q));
  tk_place t st : threads c !! t = Some st -> place_ok (shared c) q t st;
  tk_wake t st : q !! 0%nat = Some t -> threads c !! t = Some st -> asleep st = true ->
    someone (waker (shared c)) (threads c) }.

Definition front (q : list nat) (c : config TicketLockState ticket_point unit) : list nat :=
  match q with
  | t :: _ => match threads c !! t with Some st => if inside st then [t] else [] | None => [] end
  | [] => []
  end.

Lemma u32_shift a i j :
  a in_u 32 -> u32 (a + i) = u32 (a + j) -> 0 <= i < 2 ^ 32 -> 0 <= j < 2 ^ 32 -> i = j.
Proof.
  unfold u32, wrap. intros Ha He Hi Hj.
  assert ((i - j) mod 2 ^ 32 = 0) as Hz.
  { replace (i - j) with ((a + i) - (a + j)) by lia. by rewrite Zminus_mod, He, Z.sub_diag. }
  apply Z.mod_divide in Hz as [z Hz]; [|done]. assert (z = 0) by nia. lia.
Qed.

Lemma queue_short q c : ticket_ok q c -> Z.of_nat (length q) < all_threads.
Proof.
  intros Hok. pose proof (tk_threads _ _ Hok).
  assert (length q <= length (seq 0 (length (threads c))))%nat as Hl.
  { apply NoDup_incl_length; [apply NoDup_ListNoDup, Hok|]. intros t Ht%list_elem_of_In.
    destruct (tk_range _ _ Hok t Ht) as [st Hst%lookup_lt_Some].
    apply list_elem_of_In, elem_of_seq. lia. }
  rewrite length_seq in Hl. lia.
Qed.

(** The holder of the ticket that [current] shows is at the front of the queue. *)
Lemma ticket_front q c i :
  ticket_ok q c -> (i < length q)%nat ->
  current (shared c) = u32 (current (shared c) + Z.of_nat i) -> i = 0%nat.
Proof.
  intros Hok Hi He. pose proof (queue_short _ _ Hok). pose proof (tk_current _ _ Hok) as Hc.
  unfold all_threads in *.
  assert (Z.of_nat i = 0); [|lia]. apply (u32_shift (current (shared c))); [done| |lia..].
  by rewrite Z.add_0_r, <- He, (wrap_small 32).
Qed.

Lemma ticket_stay q c t st0 st :
  ticket_ok q c -> threads c !! t = Some st0 -> place_ok (shared c) q t st ->
  (asleep st = true -> asleep st0 = true \/ q !! 0%nat <> Some t) ->
  (waker (shared c) st0 -> waker (shared c) st) ->
  ticket_ok q (mkConfig (shared c) (<[t := st]> (threads c))).
Proof.
  intros Hok Ht Hp Ha Hw. destruct Hok as [Hn Hd Hr Hc Hx Hpl Hwk].
  constructor; cbn; try done.
  - by rewrite length_insert.
  - intros u Hu. destruct (decide (u = t)) as [->|Hne].
    + rewrite list_lookup_insert_eq; [by eexists|]. eauto using lookup_lt_Some.
    + rewrite list_lookup_insert_ne by done. auto.
  - intros u st1 [[-> ->]|[_ Hu]]%lookup_stepped; auto.
  - intros u st1 Hq [[-> ->]|[_ Hu]]%lookup_stepped Hs.
    + destruct (Ha Hs) as [Hs0|]; [|done]. eapply someone_keep; [done|done|by eapply Hwk].
    + eapply someone_keep; [done|done|by eapply Hwk].
Qed.

Lemma front_stay q c t st0 st :
  threads c !! t = Some st0 -> inside st = inside st0 ->
  front q (mkConfig (shared c) (<[t := st]> (threads c))) = front q c.
Proof.
  intros Ht Hi. destruct q as [|u q]; [done|]. cbn. destruct (decide (u = t)) as [->|Hne].
  - rewrite list_lookup_insert_eq, Ht, Hi; [done|]. eauto using lookup_lt_Some.
  - by rewrite list_lookup_insert_ne.
Qed.

Lemma ticket_wake q c t p p' ws :
  ticket_ok q c -> threads c !! t = Some (Running p) -> place_ok (shared c) q t (Running p') ->
  chosen tt all_threads ws (threads c) = true ->
  ticket_ok q (mkConfig (shared c) (<[t := Running p']> (wake ticketlock ws (threads c)))).
Proof.
  intros Hok Ht Hp Hch. destruct Hok as [Hn Hd Hr Hc Hx Hpl Hwk].
  assert (forall u st, threads c !! u = Some st -> asleep (rouse ticketlock ws u st) = false /\
            place_ok (shared c) q u (rouse ticketlock ws u st)) as Hrs.
  { intros u st Hu. pose proof (Hpl u st Hu) as Hpu. destruct st as [l|[] l]; [done|]. cbn.
    rewrite bool_decide_eq_true_2.
    - split; [done|]. destruct l; cbn in *; try by destruct Hpu.
      destruct Hpu as (i & ? & ? & ? & ?). by exists i.
    - eapply chosen_all; [done|lia|]. unfold asleep_on. by rewrite Hu. }
  constructor; cbn; try done.
  - by rewrite length_insert, length_wake.
  - intros u Hu. destruct (Hr u Hu) as [st Hst]. destruct (decide (u = t)) as [->|Hne].
    + rewrite list_lookup_insert_eq; [by eexists|]. rewrite length_wake.
      eauto using lookup_lt_Some.
    + rewrite list_lookup_insert_ne, lookup_wake, Hst by done. by eexists.
  - intros u st1 [[-> ->]|(_ & st & Hu & ->)]%lookup_moved; [done|]. by apply Hrs.
  - intros u st1 _ [[-> ->]|(_ & st & Hu & ->)]%lookup_moved; [done|].
    destruct (Hrs u st Hu) as [-> _]. done.
Qed.

(** Taking a ticket puts the thread at the end of the queue. *)
Lemma ticket_take q c t :
  ticket_ok q c -> threads c !! t = Some (Running TTake) ->
  let c' := mkConfig (mkTicket (current (shared c)) (u32 (next (shared c) + 1)))
              (<[t := Running (TRead (next (shared c)))]> (threads c)) in
  ticket_ok (q ++ [t]) c' /\ front (q ++ [t]) c' = front q c.
Proof.
  intros Hok Ht c'. pose proof Hok as [Hn Hd Hr Hc Hx Hpl Hwk].
  destruct (Hpl t _ Ht) as [Hnot _].
  assert (forall u st, u <> t -> threads c !! u = Some st ->
            place_ok (shared c') (q ++ [t]) u st) as Hold.
  { intros u st Hne Hu. pose proof (Hpl u st Hu) as Hp. unfold place_ok in *. cbn.
    destruct (ticket_of st) as [k|]; [|set_solver].
    destruct Hp as (i & Hi & ?). exists i. split; [|done]. by apply lookup_app_l_Some. }
  assert (forall P : tstatus -> Prop, ~ P (Running TTake) -> someone P (threads c) ->
    someone P (threads c')) as Hsome.
  { intros P HP. by apply (someone_keep P t (Running TTake)). }
  split; [constructor|].
  - cbn. by rewrite length_insert.
  - apply NoDup_app. set_solver by (apply NoDup_singleton || done).
  - intros u Hu. destruct (decide (u = t)) as [->|Hne].
    + cbn. rewrite list_lookup_insert_eq; [by eexists|]. eauto using lookup_lt_Some.
    + cbn. rewrite list_lookup_insert_ne by done. set_solver.
  - done.
  - cbn. rewrite Hx, length_app. cbn. unfold u32, wrap. rewrite Zplus_mod_idemp_l. f_equal. lia.
  - intros u st [[-> ->]|[Hne Hu]]%lookup_stepped; [|by apply Hold].
    exists (length q). split_and!; [by apply list_lookup_middle|done|done|done].
  - intros u st Hq [[-> ->]|[Hne Hu]]%lookup_stepped Hs; [done|].
    apply Hsome; [by intros []|]. destruct q as [|v q]; cbn in Hq; [congruence|].
    by apply (Hwk u st).
  - cbn. destruct q as [|u q]; cbn.
    + rewrite list_lookup_insert_eq; [done|]. eauto using lookup_lt_Some.
    + rewrite list_lookup_insert_ne; [done|]. set_solver.
Qed.

(** Releasing removes the front of the queue. *)
Lemma ticket_release q c t k :
  ticket_ok q c -> threads c !! t = Some (Running (TUnlock k)) ->
  let c' := mkConfig (mkTicket (u32 (current (shared c) + 1)) (next (shared c)))
              (<[t := Running (TTest (current (shared c)))]> (threads c)) in
  exists q', q = t :: q' /\ ticket_ok q' c' /\ front q c = [t] /\ front q' c' = [].
Proof.
  intros Hok Ht c'. pose proof Hok as [Hn Hd Hr Hc Hx Hpl Hwk].
  destruct (Hpl t _ Ht) as (i & Hi & Hk & Hin & _). rewrite (Hin eq_refl) in *.
  destruct q as [|t' q]; [done|]. cbn in Hi. injection Hi as ->. exists q.
  apply NoDup_cons in Hd as [Hnt Hd].
  assert (forall u st, u <> t -> threads c !! u = Some st ->
            place_ok (shared c') q u st /\ inside st = false) as Hold.
  { intros u st Hne Hu. pose proof (Hpl u st Hu) as Hp. unfold place_ok in *. cbn.
    destruct (ticket_of st) as [j|] eqn:Hj; [|split; [set_solver|by destruct st as [[]|? []]]].
    destruct Hp as ([|i'] & Hi' & -> & Hz & Hw); [cbn in Hi'; congruence|].
    assert (inside st = false) as Hf by (destruct (inside st); [by discriminate Hz|done]).
    split; [|done]. exists i'. split_and!; [done| |by rewrite Hf|done].
    unfold u32, wrap. rewrite Zplus_mod_idemp_l. f_equal. lia. }
  split; [done|]. split; [constructor|].
  - cbn. by rewrite length_insert.
  - done.
  - intros u Hu. cbn. rewrite list_lookup_insert_ne by set_solver. set_solver.
  - by apply wrap_bound.
  - cbn. rewrite Hx. cbn [length]. unfold u32, wrap. rewrite Zplus_mod_idemp_l. f_equal. lia.
  - intros u st [[-> ->]|[Hne Hu]]%lookup_stepped; [done|by apply Hold].
  - intros u st Hq _ _. eapply someone_here; [done|]. done.
  - split.
    + unfold front. by rewrite Ht.
    + destruct q as [|u q]; [done|]. unfold front, c'. cbn [threads]. rewrite list_lookup_insert_ne by set_solver.
      destruct (threads c !! u) as [st|] eqn:Hu; [|done].
      destruct (Hold u st) as [_ ->]; [set_solver|done|done].
Qed.

Lemma ticket_go q c t b p s p' :
  ticket_ok q c -> threads c !! t = Some (Running p) ->
  ticketlock_step t b (shared c) p = Go s p' ->
  exists q' out, ticket_ok q' (mkConfig s (<[t := Running p']> (threads c))) /\
    q ++ arrival (Step t b []) c = out ++ q' /\
    front q c ++ entry (Step t b []) c =
      out ++ front q' (mkConfig s (<[t := Running p']> (threads c))).
Proof.
  intros Hok Ht. pose proof (tk_place _ _ Hok t _ Ht) as Hp. unfold arrival, entry. rewrite Ht.
  destruct p as [| |k|k v|k|k|k|v|]; cbn [ticketlock_step]; try discriminate.
  - intros [= <- <-]. destruct (ticket_take q c t Hok Ht) as [Hok' Hf].
    exists (q ++ [t]), []. rewrite Hf, app_nil_r. done.
  - intros [= <- <-]. exists q, []. rewrite app_nil_r.
    destruct Hp as (i & Hi & -> & _ & _).
    destruct (Z.eqb_spec (current (shared c)) (u32 (current (shared c) + Z.of_nat i))) as [He|He].
    + assert (i = 0%nat) as -> by (eapply ticket_front; eauto using lookup_lt_Some).
      split; [|split; [done|]].
      * eapply ticket_stay; try done. exists 0%nat. done.
      * destruct q as [|u q]; [done|]. cbn in Hi. injection Hi as ->. unfold front. cbn [threads].
        rewrite Ht, list_lookup_insert_eq; [done|]. eauto using lookup_lt_Some.
    + split; [|split; [done|]].
      * eapply ticket_stay; try done. exists i. split_and!; try done. by intros v [= <-].
      * rewrite app_nil_r. symmetry. by eapply front_stay.
  - intros [= <- <-]. destruct (ticket_release q c t k Hok Ht) as (q' & -> & Hok' & -> & Hf).
    exists q', [t]. by rewrite Hf, !app_nil_r.
  - intros [= <- <-]. exists q, []. rewrite !app_nil_r. split; [|split; [done|]].
    + eapply ticket_stay; try done; [by case_match|]. intros [Hv Hb].
      destruct (Z.eqb_spec (next (shared c)) v) as [He|He]; [|done].
      pose proof (queue_short _ _ Hok) as Hl. rewrite (tk_next _ _ Hok), Hv in He.
      unfold u32, wrap in He. rewrite Zplus_mod_idemp_l in He.
      assert (u32 (v + (1 + Z.of_nat (length q))) = u32 (v + 0)) as He'.
      { unfold u32, wrap. rewrite Z.add_0_r, (Z.mod_small v) by done. by rewrite Z.add_assoc. }
      apply u32_shift in He'; unfold all_threads in *; lia.
    + symmetry. eapply front_stay; [done|]. by case_match.
Qed.

Lemma place_call q c t p0 p :
  ticket_ok q c -> threads c !! t = Some (Running p0) -> ticketlock_may_call t p0 p = true ->
  place_ok (shared c) q t (Running p) /\ inside (Running p) = inside (Running p0) /\
  (waker (shared c) (Running p0) -> False).
Proof.
  intros Hok Ht. pose proof (tk_place _ _ Hok t _ Ht) as Hp. destruct p0, p; try discriminate.
  - done.
  - cbn. intros <-%Z.eqb_eq. destruct Hp as (i & ? & ? & ? & ?). split_and!; [|done|done].
    by exists i.
Qed.

Lemma place_wait q c t b p v p' :
  ticket_ok q c -> threads c !! t = Some (Running p) ->
  ticketlock_step t b (shared c) p = Wait tt v p' ->
  exists k i, p = TWait k v /\ p' = TWaiting k /\ q !! i = Some t /\
    k = u32 (current (shared c) + Z.of_nat i) /\ k <> v.
Proof.
  intros Hok Ht. pose proof (tk_place _ _ Hok t _ Ht) as Hp.
  destruct p as [| |k|k w|k|k|k|w|]; cbn; repeat case_match; try discriminate.
  intros [= <- <-]. destruct Hp as (i & ? & ? & _ & Hne). exists k, i. split_and!; auto.
Qed.

Lemma ticket_event q c e c' :
  ticket_ok q c -> exec ticketlock e c = Some c' ->
  exists q' out, ticket_ok q' c' /\ q ++ arrival e c = out ++ q' /\
    front q c ++ entry e c = out ++ front q' c'.
Proof.
  intros Hok He.
  assert (forall t st0 st, threads c !! t = Some st0 -> inside st = inside st0 ->
    ticket_ok q (mkConfig (shared c) (<[t := st]> (threads c))) ->
    exists q' out, ticket_ok q' (mkConfig (shared c) (<[t := st]> (threads c))) /\
      q ++ [] = out ++ q' /\
      front q c ++ [] = out ++ front q' (mkConfig (shared c) (<[t := st]> (threads c)))) as Hstay.
  { intros t st0 st Ht Hi Hok'. exists q, []. rewrite !app_nil_r. split; [done|]. split; [done|].
    symmetry. by eapply front_stay. }
  destruct e as [t b ws|t p|t r]; cbn in He.
  - destruct (threads c !! t) as [[p|]|] eqn:Ht; try discriminate.
    destruct (ticketlock_step t b (shared c) p) as [s p'|[] v p'|[] n p'|] eqn:Hp; try discriminate.
    + injection He as <-. by eapply ticket_go.
    + destruct (place_wait _ _ _ _ _ _ _ Hok Ht Hp) as (k & i & -> & -> & Hi & Hk & Hne).
      unfold arrival, entry. rewrite Ht. injection He as <-.
      destruct (Z.eqb_spec (current (shared c)) v) as [Hv|Hv].
      * eapply Hstay; try done. eapply ticket_stay; try done; [exists i; by split_and!|].
        intros _. right. intros Hq. assert (i = 0%nat) as ->.
        { eapply NoDup_lookup; [apply Hok|done|done]. }
        rewrite Z.add_0_r, (wrap_small 32) in Hk; [congruence|apply Hok].
      * eapply Hstay; try done. eapply ticket_stay; try done. exists i. by split_and!.
    + destruct (chosen _ _ _ _) eqn:Hch; [|discriminate]. injection He as <-.
      destruct p; cbn in Hp; other_action Hp. injection Hp as <- <-.
      unfold arrival, entry. rewrite Ht.
      pose proof (tk_place _ _ Hok t _ Ht) as Hpl. exists q, []. rewrite !app_nil_r.
      split; [by eapply ticket_wake|]. split; [done|].
      destruct q as [|u q]; [done|]. unfold front. cbn [threads].
      destruct (decide (u = t)) as [->|Hne]; [destruct Hpl; set_solver|].
      rewrite list_lookup_insert_ne, lookup_wake by done.
      destruct (threads c !! u) as [[l|[] l]|] eqn:Hu; [done| |done].
      unfold fmap, option_fmap, option_map, rouse. destruct (bool_decide _); [|done].
      destruct l; try done; pose proof (tk_place _ _ Hok u _ Hu) as Hpu; by destruct Hpu.
  - destruct (threads c !! t) as [[p0|]|] eqn:Ht; try discriminate.
    destruct (ticketlock_may_call t p0 p) eqn:Hc; [|discriminate]. injection He as <-.
    destruct (place_call _ _ _ _ _ Hok Ht Hc) as (Hp & Hi & Hw).
    eapply Hstay; [done|done|]. by eapply ticket_stay.
  - destruct (threads c !! t) as [[p|[] p]|] eqn:Ht; try discriminate.
    + destruct (ticketlock_step t true (shared c) p) as [s p'|[] v p'|[] n p'|] eqn:Hp;
        try discriminate.
      destruct (place_wait _ _ _ _ _ _ _ Hok Ht Hp) as (k & i & -> & -> & Hi & Hk & Hne).
      injection He as <-. eapply Hstay; try done. eapply ticket_stay; try done.
      exists i. by split_and!.
    + injection He as <-. pose proof (tk_place _ _ Hok t _ Ht) as Hp.
      destruct p; try by destruct Hp. destruct Hp as (i & ? & ? & ? & ?).
      eapply Hstay; try done. eapply ticket_stay; try done. by exists i.
Qed.

Lemma ticket_init n : Z.of_nat n < all_threads -> ticket_ok [] (ticketlock_init n).
Proof.
  intros Hn. constructor; cbn; try done.
  - by rewrite length_replicate.
  - constructor.
  - by intros t ?%not_elem_of_nil.
  - intros t st [-> _]%lookup_replicate. split; [apply not_elem_of_nil|done].
Qed.

Lemma ticket_history es : forall q c c' A B,
  ticket_ok q c -> run ticketlock es c = Some c' -> history es c = (A, B) ->
  exists q' out, ticket_ok q' c' /\ q ++ A = out ++ q' /\ front q c ++ B = out ++ front q' c'.
Proof.
  induction es as [|e es IH]; cbn; intros q c c' A B Hok Hr Hh.
  { injection Hr as <-. injection Hh as <- <-. exists q, []. by rewrite !app_nil_r. }
  destruct (exec ticketlock e c) as [c1|] eqn:He; [|discriminate]. cbn in Hr.
  destruct (history es c1) as [A1 B1] eqn:Hh1. injection Hh as <- <-.
  destruct (ticket_event q c e c1 Hok He) as (q1 & out1 & Hok1 & Ha & Hb).
  destruct (IH q1 c1 c' A1 B1 Hok1 Hr Hh1) as (q2 & out2 & Hok2 & Ha2 & Hb2).
  exists q2, (out1 ++ out2). split; [done|].
  by rewrite !app_assoc, Ha, Hb, <- !app_assoc, Ha2, Hb2.
Qed.

Definition ticket_inside (c : config TicketLockState ticket_point unit) (t : nat) : bool :=
  match threads c !! t with Some st => inside st | None => false end.

Lemma ticket_reach es n c :
  Z.of_nat n < all_threads -> run ticketlock es (ticketlock_init n) = Some c ->
  exists q out, ticket_ok q c /\ fst (history es (ticketlock_init n)) = out ++ q /\
    snd (history es (ticketlock_init n)) = out ++ front q c.
Proof.
  intros Hn Hr. destruct (history es (ticketlock_init n)) as [A B] eqn:Hh.
  by apply (ticket_history es [] _ c A B (ticket_init n Hn) Hr Hh).
Qed.

Lemma ticket_inside_front q c t :
  ticket_ok q c -> ticket_inside c t = true -> q !! 0%nat = Some t.
Proof.
  unfold ticket_inside. intros Hok Hi. destruct (threads c !! t) as [st|] eqn:Ht; [|done].
  pose proof (tk_place _ _ Hok t st Ht) as Hp. unfold place_ok in Hp.
  destruct (ticket_of st) as [k|] eqn:Hk.
  - destruct Hp as (i & Hq & _ & Hz & _). by rewrite (Hz Hi) in Hq.
  - destruct st as [[]|? []]; discriminate.
Qed.

(** ** The properties *)

(** C30. The ticket lock is fair and excludes: threads enter in the order in which they took
    their tickets (the entries are a prefix of the arrivals), at most one thread is inside, and
    while one is inside it is the last to have entered.  This holds for any number of
    acquisitions, although the counters wrap around, as long as there are fewer than 2^32 - 1
    threads. *)
Theorem ticketlock_fifo es n c :
  Z.of_nat n < all_threads -> run ticketlock es (ticketlock_init n) = Some c ->
  let '(arrivals, entries) := history es (ticketlock_init n) in
  entries `prefix_of` arrivals /\
  (forall t u, ticket_inside c t = true -> ticket_inside c u = true -> t = u) /\
  (forall t, ticket_inside c t = true -> last entries = Some t).
Proof.
  intros Hn Hr. destruct (ticket_reach es n c Hn Hr) as (q & out & Hok & Ha & Hb).
  destruct (history es (ticketlock_init n)) as [A B]. cbn in Ha, Hb. subst A B.
  pose proof (ticket_inside_front q c) as Hf. splits.
  - apply prefix_app. destruct q as [|t q]; [apply prefix_nil|]. unfold front.
    destruct (threads c !! t) as [st|]; [|apply prefix_nil].
    destruct (inside st); [by exists q|apply prefix_nil].
  - intros t u Ht%Hf Hu%Hf; [congruence|done..].
  - intros t Ht. pose proof (Hf t Hok Ht) as Hq. destruct q as [|u q]; [done|].
    cbn in Hq. injection Hq as ->. unfold ticket_inside in Ht. unfold front.
    destruct (threads c !! t); [|discriminate]. rewrite Ht. apply last_snoc.
Qed.

(** Nobody is left behind: if no thread is inside and no [unlock] is under way, then either
    nobody holds a ticket, or the thread whose turn it is is awake and enters after at most two
    steps of its own. *)
Theorem ticketlock_progress es n c :
  Z.of_nat n < all_threads -> run ticketlock es (ticketlock_init n) = Some c ->
  (forall t st, threads c !! t = Some st -> inside st = false /\ ~ waker (shared c) st) ->
  (forall t st, threads c !! t = Some st -> ticket_of st = None) \/
  (exists t i c', (i <= 2)%nat /\ run ticketlock (replicate i (Step t true [])) c = Some c' /\
    threads c' !! t = Some (Running (THeld (current (shared c))))).
Proof.
  intros Hn Hr Hq. destruct (ticket_reach es n c Hn Hr) as (q & out & Hok & _ & _).
  destruct q as [|t q].
  { left. intros t st Ht. pose proof (tk_place _ _ Hok t st Ht) as Hp. unfold place_ok in Hp.
    destruct (ticket_of st); [|done]. by destruct Hp as (i & ? & _). }
  right. destruct (tk_range _ _ Hok t) as [st Ht]; [set_solver|].
  pose proof (tk_place _ _ Hok t st Ht) as Hp. unfold place_ok in Hp.
  destruct (Hq t st Ht) as [Hi Hw].
  destruct (ticket_of st) as [k|] eqn:Hk; [|set_solver].
  destruct Hp as (i & Hqi & Hki & _ & Hne).
  assert (i = 0%nat) as -> by (eapply NoDup_lookup; [apply Hok|done|done]).
  rewrite Z.add_0_r, (wrap_small 32) in Hki by apply Hok. subst k.
  assert (asleep st = false) as Ha.
  { destruct (asleep st) eqn:Ha; [|done]. exfalso.
    destruct (tk_wake _ _ Hok t st eq_refl Ht Ha) as (u & st' & Hu & Hwu).
    by destruct (Hq u st' Hu). }
  assert (t < length (threads c))%nat as Hlt by eauto using lookup_lt_Some.
  exists t. destruct st as [[| |k|k v| |k|k| |]|]; try discriminate; injection Hk as ->.
  - exists 1%nat. eexists. split; [lia|]. cbn. rewrite Ht. cbn. rewrite Z.eqb_refl. cbn.
    split; [done|]. by apply list_lookup_insert_eq.
  - exists 2%nat. eexists. split; [lia|]. cbn. rewrite Ht. cbn.
    rewrite (proj2 (Z.eqb_neq _ _) (Hne v eq_refl)). cbn.
    rewrite list_lookup_insert_eq by done. cbn. rewrite Z.eqb_refl. cbn.
    split; [done|]. apply list_lookup_insert_eq. by rewrite length_insert.
Qed.

(** ** Two threads at the end of the counters' range *)

(** The first thread is inside, the second arrives and sleeps. *)
Definition queueing : list (event ticket_point) :=
  [Call 0 TTake; Step 0 true []; Call 1 TTake; Step 0 true []; Step 1 true []; Step 1 true [];
   Step 1 true []].

Definition ticket_demo (es : list (event ticket_point)) : config TicketLockState ticket_point unit :=
  default (mkConfig (mkTicket 0 0) []) (run ticketlock es (ticketlock_init 2)).

Lemma ticketlock_fifo_witness :
  history queueing (ticketlock_init 2) = ([0%nat; 1%nat], [0%nat]) /\
  (forall t, ticket_inside (ticket_demo queueing) t = true -> t = 0%nat).
Proof.
  pose proof (ticketlock_fifo queueing 2 (ticket_demo queueing)) as H.
  change (history queueing (ticketlock_init 2)) with ([0%nat; 1%nat], [0%nat]) in *.
  split; [reflexivity|]. destruct H as (_ & _ & H); [done|by vm_compute|].
  intros t Ht. specialize (H t Ht). injection H as ->. reflexivity.
Defined.

(** The first thread leaves and wakes the second. *)
Definition handed_over : list (event ticket_point) :=
  queueing ++ [Call 0 (TUnlock 0); Step 0 true []; Step 0 true []; Step 0 true [1%nat]].

Lemma ticketlock_progress_witness :
  exists i c', (i <= 2)%nat /\
    run ticketlock (replicate i (Step 1 true [])) (ticket_demo handed_over) = Some c' /\
    threads c' !! 1%nat = Some (Running (THeld 1)).
Proof.
  destruct (ticketlock_progress handed_over 2 (ticket_demo handed_over))
    as [H|(t & i & c' & Hi & Hr & Ht)]; [done|by vm_compute| | |].
  - intros [|[|t]] st Ht; vm_compute in Ht; try discriminate; injection Ht as <-; (split; [done|intros []]).
  - specialize (H 1%nat (Running (TRead 1)) eq_refl). discriminate.
  - exists i, c'. split; [exact Hi|].
    destruct t as [|[|t]]; [exfalso|split; [exact Hr|exact Ht]|exfalso].
    + destruct i as [|[|[|i]]]; [| | |lia]; vm_compute in Hr; try discriminate.
      injection Hr as <-. vm_compute in Ht. discriminate.
    + destruct i as [|[|[|i]]]; [| | |lia]; vm_compute in Hr; try discriminate.
      injection Hr as <-. vm_compute in Ht. discriminate.
Defined.
