(* ===== verification/Semaphore.v ===== *)
(** * Counting semaphores

    [src/cheriot-rtos/sdk/lib/locks/semaphore.cc].  The counter is the low 31 bits of the
    shared word; the top bit says that threads wait. *)

From S2P Require Import Prelude Machine.

Definition WaitersBit : Z := 2 ^ 31.

Inductive sem_point : Type :=
  | SOut (r : Z)                 (* outside, the last call returned [r] *)
  | GetLoad                      (* [semaphore_get]: the load *)
  | GetTake (value : Z)          (* the compare-and-exchange that decrements *)
  | GetMark (value : Z)          (* the one that adds the waiters bit *)
  | GetWait (value : Z)          (* the futex wait *)
  | GetWaiting                   (* inside it *)
  | PutLoad                      (* [semaphore_put]: the load *)
  | PutGive (value : Z)          (* the compare-and-exchange that increments *)
  | PutWake.                     (* its notify_all *)

Definition sem_count (value : Z) : Z := Z.land value (u32 (Z.lnot WaitersBit)).
Definition sem_waiters (value : Z) : bool := negb (Z.land value WaitersBit =? 0).

Section Semaphore.
Context (maxCount : Z).

Definition get_test (value : Z) : sem_point :=
  if 0 <? sem_count value then GetTake value
  else if negb (sem_waiters value) then GetMark value
  else GetWait value.

Definition put_test (value : Z) : sem_point :=
  if sem_count value =? maxCount then SOut (- EINVAL) else PutGive value.

Definition semaphore_step (t : nat) (may_block : bool) (word : Z) (p : sem_point)
    : action Z sem_point unit :=
  match p with
  | SOut _ | GetWaiting => Idle
  | GetLoad => Go word (get_test word)
  | GetTake value =>
      if word =? value then Go (u32 (value - 1)) (SOut 0) else Go word GetLoad
  | GetMark value =>
      if word =? value then Go (Z.lor value WaitersBit) (GetWait value) else Go word GetLoad
  | GetWait value => Wait tt (Z.lor value WaitersBit) GetWaiting
  | PutLoad => Go word (put_test word)
  | PutGive value =>
      if word =? value
      then Go (u32 (sem_count value + 1)) (if sem_waiters value then PutWake else SOut 0)
      else Go word PutLoad
  | PutWake => Notify tt (2 ^ 32 - 1) (SOut 0)
  end.

Definition semaphore_resume (p : sem_point) (r : Z) : sem_point :=
  match p with GetWaiting => if r =? 0 then GetLoad else SOut r | _ => p end.

Definition semaphore_may_call (t : nat) (p p' : sem_point) : bool :=
  match p, p' with SOut _, GetLoad | SOut _, PutLoad => true | _, _ => false end.

Definition semaphore : machine Z sem_point unit :=
  mkMachine (fun word _ => word) semaphore_step semaphore_resume semaphore_may_call (fun _ => true).

Definition semaphore_init (start : Z) (n : nat) : config Z sem_point unit :=
  mkConfig start (replicate n (Running (SOut 0))).

(** ** What a run takes and gives *)

Definition taken (e : event sem_point) (c : config Z sem_point unit) : Z :=
  match e with
  | Step t _ _ =>
      match threads c !! t with
      | Some (Running (GetTake value)) => b2z (shared c =? value)
      | _ => 0
      end
  | _ => 0
  end.

Definition given (e : event sem_point) (c : config Z sem_point unit) : Z :=
  match e with
  | Step t _ _ =>
      match threads c !! t with
      | Some (Running (PutGive value)) => b2z (shared c =? value)
      | _ => 0
      end
  | _ => 0
  end.

Fixpoint balance (es : list (event sem_point)) (c : config Z sem_point unit) : Z :=
  match es with
  | [] => 0
  | e :: es =>
      given e c - taken e c +
      match exec semaphore e c with Some c' => balance es c' | None => 0 end
  end.

(** ** The invariant *)

#[local] Notation sstatus := (status sem_point unit).

Definition sem_asleep (st : sstatus) : bool := match st with Asleep _ _ => true | _ => false end.
Definition sem_waker (st : sstatus) : bool :=
  match st with Running PutWake => true | _ => false end.

(** The values of the word: a count, or no count and the waiters bit. *)
Definition sem_value (v : Z) : Prop := 0 <= v <= maxCount \/ v = WaitersBit.

Definition sem_fine (st : sstatus) : Prop :=
  match st with
  | Running (GetTake value) => 0 < value <= maxCount
  | Running (GetMark value) => value = 0
  | Running (GetWait value) => value = 0 \/ value = WaitersBit
  | Running (PutGive value) => sem_value value /\ sem_count value < maxCount
  | Running GetWaiting => False
  | Asleep _ p => p = GetWaiting
  | _ => True
  end.

Record sem_ok (c : config Z sem_point unit) : Prop := mkSemOk {
  so_threads : Z.of_nat (length (threads c)) < 2 ^ 32;
  so_value : sem_value (shared c);
  so_fine t st : threads c !! t = Some st -> sem_fine st;
  so_asleep : someone (fun st => sem_asleep st = true) (threads c) ->
    shared c = WaitersBit \/ someone (fun st => sem_waker st = true) (threads c) }.

Context (Hmax : 0 <= maxCount < 2 ^ 31).

Lemma sem_count_mod v : sem_count v = v mod 2 ^ 31.
Proof. unfold sem_count. change (u32 (Z.lnot WaitersBit)) with (Z.ones 31). by apply Z.land_ones. Qed.

Lemma sem_count_small v : 0 <= v <= maxCount -> sem_count v = v.
Proof. intros. rewrite sem_count_mod. apply Z.mod_small. lia. Qed.

Lemma sem_waiters_small v : 0 <= v <= maxCount -> sem_waiters v = false.
Proof.
  intros Hv. unfold sem_waiters. replace (Z.land v WaitersBit) with 0; [done|].
  apply bits_eq. intros i Hi. rewrite Z.land_spec, Z.bits_0. unfold WaitersBit.
  rewrite Z.pow2_bits_eqb by done. destruct (Z.eqb_spec 31 i) as [<-|]; [|by rewrite andb_false_r].
  by rewrite (testbit_high 31 v) by lia.
Qed.

Lemma sem_update c t st0 st s :
  sem_ok c -> threads c !! t = Some st0 -> sem_value s -> sem_fine st ->
  (sem_asleep st = true -> s = WaitersBit) ->
  (shared c = WaitersBit -> s = WaitersBit \/ sem_waker st = true) ->
  (sem_waker st0 = true -> sem_waker st = true) ->
  sem_ok (mkConfig s (<[t := st]> (threads c))).
Proof.
  intros [Hn Hv Hf Ha] Ht Hs Hst Hsl Hw Hwk. constructor; cbn; [by rewrite length_insert|done| |].
  - intros u st1 [[-> ->]|[_ Hu]]%lookup_stepped; eauto.
  - intros [Hx|Hx]%someone_step; [by left; auto|].
    destruct (Ha Hx) as [He|He].
    + destruct (Hw He); [by left|right; by eapply someone_here].
    + right. by eapply someone_keep.
Qed.

Lemma sem_stay c t st0 st :
  sem_ok c -> threads c !! t = Some st0 -> sem_fine st ->
  (sem_asleep st = true -> shared c = WaitersBit) -> sem_waker st0 = false ->
  sem_ok (mkConfig (shared c) (<[t := st]> (threads c))).
Proof.
  intros Hok Ht Hf Ha Hw. eapply sem_update; try done; [apply Hok|by left|by rewrite Hw].
Qed.

Definition permits (c : config Z sem_point unit) : Z := sem_count (shared c).

Lemma sem_go c t b p s p' :
  sem_ok c -> threads c !! t = Some (Running p) -> semaphore_step t b (shared c) p = Go s p' ->
  sem_ok (mkConfig s (<[t := Running p']> (threads c))) /\
  sem_count s = permits c + given (Step t b []) c - taken (Step t b []) c.
Proof.
  intros Hok Ht. pose proof (so_fine _ Hok _ _ Ht) as Hf. pose proof (so_value _ Hok) as Hv.
  unfold given, taken, permits. rewrite Ht.
  destruct p as [r| |v|v|v| | |v|]; cbn [semaphore_step]; try discriminate.
  - intros [= <- <-]. split; [|lia]. apply sem_stay with (Running GetLoad); try done.
    unfold get_test. destruct Hv as [Hv| ->]; [|by right].
    rewrite sem_count_small, sem_waiters_small by done.
    destruct (Z.ltb_spec 0 (shared c)); cbn; lia.
  - destruct (Z.eqb_spec (shared c) v) as [He|He]; intros [= <- <-]; cbn [b2z].
    + cbn in Hf. unfold u32. rewrite wrap_small by lia. split.
      * eapply sem_update; try done; [left; lia|]. unfold WaitersBit. lia.
      * rewrite !sem_count_small; lia.
    + split; [by eapply sem_stay|lia].
  - destruct (Z.eqb_spec (shared c) v) as [He|He]; intros [= <- <-].
    + cbn in Hf. rewrite Hf in *. split; [|by rewrite He].
      eapply sem_update; try done; [by right|by left|by left].
    + split; [by eapply sem_stay|lia].
  - intros [= <- <-]. split; [|lia]. apply sem_stay with (Running PutLoad); try done.
    unfold put_test. destruct (Z.eqb_spec (sem_count (shared c)) maxCount); [done|]. cbn.
    split; [done|]. destruct Hv as [Hv|Hv].
    + rewrite sem_count_small in * by done. lia.
    + rewrite Hv in *. change (sem_count WaitersBit) with 0 in *. lia.
  - destruct Hf as [Hfv Hfc].
    destruct (Z.eqb_spec (shared c) v) as [He|He]; intros [= <- <-]; cbn [b2z].
    + subst v. assert (0 <= sem_count (shared c)) as Hc.
      { rewrite sem_count_mod. by apply Z.mod_pos_bound. }
      unfold u32. rewrite wrap_small by lia. split.
      * eapply sem_update; try done; [left; lia|by case_match|].
        intros ->. by right.
      * rewrite (sem_count_small (_ + 1)); lia.
    + split; [by eapply sem_stay|lia].
Qed.

Lemma sem_event c e c' :
  sem_ok c -> exec semaphore e c = Some c' ->
  sem_ok c' /\ permits c' = permits c + given e c - taken e c.
Proof.
  intros Hok He. destruct e as [t b ws|t p|t r]; cbn in He.
  - destruct (threads c !! t) as [[p|]|] eqn:Ht; try discriminate.
    pose proof (so_fine _ Hok _ _ Ht) as Hf.
    destruct (semaphore_step t b (shared c) p) as [s p'|[] v p'|[] n p'|] eqn:Hp; try discriminate.
    + injection He as <-. by eapply sem_go.
    + destruct p; cbn in Hp; other_action Hp. injection Hp as <- <-.
      injection He as <-. unfold given, taken. rewrite Ht. split; [|unfold permits; cbn [shared given taken]; lia].
      cbn [word semaphore].
      destruct (Z.eqb_spec (shared c) (Z.lor value WaitersBit)) as [Hv|Hv]; eapply sem_stay; try done.
      intros _. rewrite Hv. by destruct Hf as [-> | ->].
    + destruct (chosen _ _ _ _) eqn:Hch; [|discriminate]. injection He as <-.
      destruct p; cbn in Hp; other_action Hp. injection Hp as <- <-.
      unfold given, taken. rewrite Ht. split; [|unfold permits; cbn [shared given taken]; lia].
      destruct Hok as [Hn Hv Hfs Ha].
      assert (forall u st, threads c !! u = Some st -> sem_asleep (rouse semaphore ws u st) = false /\
                sem_fine (rouse semaphore ws u st)) as Hr.
      { intros u st Hu. pose proof (Hfs u st Hu) as Hfu. destruct st as [q|[] q]; [done|].
        cbn in *. subst q. rewrite bool_decide_eq_true_2; [done|].
        eapply chosen_all; [done|lia|]. unfold asleep_on. by rewrite Hu. }
      constructor; cbn; [by rewrite length_insert, length_wake|done| |].
      * intros u st [[-> ->]|(_ & st0 & Hu & ->)]%lookup_moved; [done|by apply Hr].
      * intros (u & st & [[-> ->]|(_ & st0 & Hu & ->)]%lookup_moved & Hst); [done|].
        destruct (Hr u st0 Hu) as [Hx _]. congruence.
  - destruct (threads c !! t) as [[p0|]|] eqn:Ht; try discriminate.
    destruct (semaphore_may_call t p0 p) eqn:Hc; [|discriminate]. injection He as <-.
    split; [|unfold permits; cbn [shared given taken]; lia].
    destruct p0, p; try discriminate; (eapply sem_stay; [done..|by intros [=]|done]).
  - destruct (threads c !! t) as [[p|[] p]|] eqn:Ht; try discriminate.
    + destruct (semaphore_step t true (shared c) p) as [s p'|[] v p'|[] n p'|] eqn:Hp;
        try discriminate.
      injection He as <-. split; [|unfold permits; cbn [shared given taken]; lia]. destruct p; cbn in Hp; other_action Hp.
      injection Hp as <- <-. eapply sem_stay; try done. cbn. by destruct (r =? 0).
    + injection He as <-. split; [|unfold permits; cbn [shared given taken]; lia]. pose proof (so_fine _ Hok _ _ Ht) as Hf.
      cbn in Hf. subst p. eapply sem_stay; try done. cbn. by destruct (r =? 0).
Qed.

Lemma sem_init start n :
  0 <= start <= maxCount -> Z.of_nat n < 2 ^ 32 -> sem_ok (semaphore_init start n).
Proof.
  intros Hs Hn. constructor; cbn.
  - by rewrite length_replicate.
  - by left.
  - by intros t st [-> _]%lookup_replicate.
  - intros (t & st & [-> _]%lookup_replicate & ?). done.
Qed.

Lemma sem_run es : forall c c',
  sem_ok c -> run semaphore es c = Some c' ->
  sem_ok c' /\ permits c' = permits c + balance es c.
Proof.
  induction es as [|e es IH]; cbn; intros c c' Hok Hr.
  { injection Hr as <-. split; [done|lia]. }
  destruct (exec semaphore e c) as [c1|] eqn:He; [|discriminate]. cbn in Hr.
  destruct (sem_event c e c1 Hok He) as [Hok1 Hp1].
  destruct (IH c1 c' Hok1 Hr) as [Hok2 Hp2]. split; [done|lia].
Qed.

(** ** The property *)

(** C31. The semaphore counts: whatever the interleaving, the count is the initial count plus the
    successful puts less the successful gets, it is never negative and never above [maxCount],
    and no wake-up is lost: a thread sleeps in [semaphore_get] only while the count is 0 and the
    word says that threads wait, or while the [notify_all] of a put is about to be made. *)
Theorem semaphore_counts es start n c :
  0 <= start <= maxCount -> Z.of_nat n < 2 ^ 32 ->
  run semaphore es (semaphore_init start n) = Some c ->
  permits c = start + balance es (semaphore_init start n) /\
  0 <= permits c <= maxCount /\
  (forall t k p, threads c !! t = Some (Asleep k p) ->
     (permits c = 0 /\ sem_waiters (shared c) = true) \/
     exists u, threads c !! u = Some (Running PutWake)).
Proof.
  intros Hs Hn Hr. destruct (sem_run es _ c (sem_init start n Hs Hn) Hr) as [Hok Hp].
  split; [|split].
  - rewrite Hp. unfold permits at 1. cbn. by rewrite sem_count_small.
  - unfold permits. destruct (so_value _ Hok) as [Hv| ->]; [by rewrite sem_count_small|].
    change (sem_count WaitersBit) with 0. lia.
  - intros t k p Ht. destruct (so_asleep _ Hok) as [He|(u & st & Hu & Hw)].
    + by exists t, (Asleep k p).
    + left. unfold permits. rewrite He. done.
    + right. exists u. by destruct st as [[]|].
Qed.

End Semaphore.

(** ** Two threads and one permit *)

(** The first thread takes the permit, the second sleeps. *)
Definition starved : list (event sem_point) :=
  [Call 0 GetLoad; Step 0 true []; Step 0 true []; Call 1 GetLoad; Step 1 true [];
   Step 1 true []; Step 1 true []].

Lemma semaphore_counts_witness :
  exists c, run (semaphore 1) starved (semaphore_init 1 2) = Some c /\
    threads c = [Running (SOut 0); Asleep tt GetWaiting] /\ permits c = 0 /\
    balance 1 starved (semaphore_init 1 2) = -1.
Proof.
  eexists. split; [by vm_compute|]. split; [done|].
  assert (balance 1 starved (semaphore_init 1 2) = -1) as Hb by by vm_compute.
  split; [|exact Hb].
  destruct (semaphore_counts 1 ltac:(lia) starved 1 2
    (mkConfig WaitersBit [Running (SOut 0); Asleep tt GetWaiting])) as (Hp & _);
    [lia|lia|by vm_compute|]. rewrite Hb in Hp. exact Hp.
Defined.
