(* ===== verification/Rendezvous.v ===== *)
(** * Run-once functions, barriers and condition variables

    [src/cheriot-rtos/sdk/lib/locks/once.cc], [barrier.cc], [condition_variable.cc] and
    [run_once] of [include/locks.h], as machines over one word each. *)

From S2P Require Import Prelude Machine.

(** ** Counting threads *)

Section Count.
Context {L K : Type} `{EqDecision K} (P : status L K -> bool).

Definition count (ths : list (status L K)) : nat := length (filter (fun st => P st = true) ths).

Lemma count_insert t st0 st ths :
  ths !! t = Some st0 ->
  (count (<[t := st]> ths) + (if P st0 then 1 else 0) = count ths + (if P st then 1 else 0))%nat.
Proof.
  intros Ht. unfold count. rewrite insert_take_drop by eauto using lookup_lt_Some.
  rewrite <- (take_drop_middle ths t st0 Ht) at 3. rewrite !filter_app, !length_app, !filter_cons.
  destruct (P st0), (P st); simpl; lia.
Qed.

Lemma count_same t st0 st ths :
  ths !! t = Some st0 -> P st = P st0 -> count (<[t := st]> ths) = count ths.
Proof. intros Ht Hp. pose proof (count_insert t st0 st ths Ht). rewrite Hp in *. lia. Qed.

Lemma count_wake {S : Type} (m : machine S L K) ws ths :
  (forall t st, ths !! t = Some st -> P (rouse m ws t st) = P st) -> count (wake m ws ths) = count ths.
Proof.
  unfold wake, count. generalize (rouse m ws). intros f.
  revert f. induction ths as [|st ths IH]; intros f Hf; [done|].
  rewrite imap_cons, !filter_cons. rewrite (Hf 0%nat st eq_refl).
  pose proof (IH (f ∘ Datatypes.S) (fun t st Ht => Hf (Datatypes.S t) st Ht)).
  destruct (P st); simpl; lia.
Qed.

Lemma count_pos t st ths : ths !! t = Some st -> P st = true -> (0 < count ths)%nat.
Proof.
  intros Ht HP. unfold count. rewrite <- (take_drop_middle ths t st Ht), filter_app, length_app,
    filter_cons, decide_True by done. simpl. lia.
Qed.

Lemma count_zero t st ths : count ths = 0%nat -> ths !! t = Some st -> P st = false.
Proof.
  intros Hc Ht. destruct (P st) eqn:HP; [|done].
  pose proof (count_pos t st ths Ht HP). lia.
Qed.

Lemma count_replicate n st : count (replicate n st) = if P st then n else 0%nat.
Proof.
  unfold count. induction n as [|n IH]; [by destruct (P st)|]. simpl replicate.
  rewrite filter_cons. destruct (P st) eqn:HP; simpl; [by rewrite IH|exact IH].
Qed.
End Count.

Arguments count {L K} P ths : simpl never.

(** ** Run-once functions *)

Module Once.

Definition OnceStateNotRun : Z := 0.
Definition OnceStateRunning : Z := 1.
Definition OnceStateRun : Z := 2.

Inductive once_point : Type :=
  | OnOut                     (* outside *)
  | OnFast                    (* the load of [run_once] *)
  | OnEnter                   (* the compare-and-exchange of [run_once_slow_path] *)
  | OnCallback                (* the winner calls [callback] *)
  | OnPublish                 (* and stores [OnceStateRun] *)
  | OnNotify                  (* and wakes *)
  | OnWait (expected : Z)     (* a loser waits *)
  | OnWaiting
  | OnCheck                   (* its assertion *)
  | OnReturned                (* [run_once] returned 0 *)
  | OnAssertFailed.

(** The state word and, as ghost state, how often the callback was called and has returned. *)
Record once : Type := mkOnce { state : Z; calls : nat }.

Definition once_step (t : nat) (may_block : bool) (s : once) (p : once_point)
    : action once once_point unit :=
  match p with
  | OnOut | OnWaiting | OnReturned | OnAssertFailed => Idle
  | OnFast => Go s (if state s =? OnceStateRun then OnReturned else OnEnter)
  | OnEnter =>
      if state s =? OnceStateNotRun then Go (mkOnce OnceStateRunning (calls s)) OnCallback
      else Go s (if state s =? OnceStateRunning then OnWait (state s) else OnCheck)
  | OnCallback => Go (mkOnce (state s) (S (calls s))) OnPublish
  | OnPublish => Go (mkOnce OnceStateRun (calls s)) OnNotify
  | OnNotify => Notify tt (2 ^ 32 - 1) OnReturned
  | OnWait expected => Wait tt expected OnWaiting
  | OnCheck => Go s (if state s =? OnceStateRun then OnReturned else OnAssertFailed)
  end.

Definition once_resume (p : once_point) (r : Z) : once_point :=
  match p with OnWaiting => OnCheck | _ => p end.

Definition once_may_call (t : nat) (p p' : once_point) : bool :=
  match p, p' with OnOut, OnFast | OnReturned, OnFast => true | _, _ => false end.

(** The wait has no timeout and, unlike the locks, [run_once] relies on the scheduler: it does not
    wait again after a wake, so that there are no spurious wakes in this machine. *)
Definition once_machine : machine once once_point unit :=
  mkMachine (fun s _ => state s) once_step once_resume once_may_call (fun _ => false).

Definition once_init (n : nat) : config once once_point unit :=
  mkConfig (mkOnce OnceStateNotRun 0) (replicate n (Running OnOut)).

#[local] Notation ostatus := (status once_point unit).

Definition runs_callback (st : ostatus) : bool :=
  match st with Running (OnCallback | OnPublish) => true | _ => false end.

Definition once_asleep (st : ostatus) : bool := match st with Asleep _ _ => true | _ => false end.

Definition once_fine (s : once) (st : ostatus) : Prop :=
  match st with
  | Running OnCallback => state s = OnceStateRunning /\ calls s = 0%nat
  | Running OnPublish => state s = OnceStateRunning /\ calls s = 1%nat
  | Running (OnNotify | OnCheck | OnReturned) => state s = OnceStateRun
  | Running (OnWait expected) => expected = OnceStateRunning /\ state s <> OnceStateNotRun
  | Running OnEnter => True
  | Running (OnWaiting | OnAssertFailed) => False
  | Asleep _ p => p = OnWaiting /\ state s <> OnceStateNotRun
  | _ => True
  end.

Record once_ok (c : config once once_point unit) : Prop := mkOnceOk {
  oo_threads : Z.of_nat (length (threads c)) < 2 ^ 32;
  oo_state :
    (state (shared c) = OnceStateNotRun /\ calls (shared c) = 0%nat /\
       count runs_callback (threads c) = 0%nat) \/
    (state (shared c) = OnceStateRunning /\ count runs_callback (threads c) = 1%nat) \/
    (state (shared c) = OnceStateRun /\ calls (shared c) = 1%nat /\
       count runs_callback (threads c) = 0%nat);
  oo_fine t st : threads c !! t = Some st -> once_fine (shared c) st;
  oo_asleep t st : threads c !! t = Some st -> once_asleep st = true ->
    state (shared c) = OnceStateRunning \/
    someone (fun st => st = Running OnNotify) (threads c) }.

Lemma once_state_run c t st :
  once_ok c -> threads c !! t = Some st -> runs_callback st = true ->
  state (shared c) = OnceStateRunning.
Proof.
  intros Hok Ht Hr. pose proof (count_pos _ _ _ _ Ht Hr).
  destruct (oo_state _ Hok) as [(_ & _ & ?)|[[? _]|(_ & _ & ?)]]; [lia|done|lia].
Qed.

(** At most one thread runs the callback. *)
Lemma once_alone c t u st st' :
  once_ok c -> threads c !! t = Some st -> runs_callback st = true ->
  threads c !! u = Some st' -> runs_callback st' = true -> t = u.
Proof.
  intros Hok Ht Hr Hu Hr'. destruct (decide (t = u)) as [|Hne]; [done|exfalso].
  assert (count runs_callback (threads c) <= 1)%nat as Hle.
  { destruct (oo_state _ Hok) as [(_ & _ & ?)|[[_ ?]|(_ & _ & ?)]]; lia. }
  pose proof (count_insert runs_callback t st (Running OnOut) (threads c) Ht) as Hc.
  rewrite Hr in Hc. cbn in Hc.
  assert (0 < count runs_callback (<[t := Running OnOut]> (threads c)))%nat; [|lia].
  eapply (count_pos _ u st'); [by rewrite list_lookup_insert_ne|done].
Qed.

(** Changing the point of one thread while the word stays. *)
Lemma once_stay c t st0 st :
  once_ok c -> threads c !! t = Some st0 -> runs_callback st = runs_callback st0 ->
  once_fine (shared c) st ->
  (once_asleep st = true -> state (shared c) = OnceStateRunning) -> st0 <> Running OnNotify ->
  once_ok (mkConfig (shared c) (<[t := st]> (threads c))).
Proof.
  intros [Hn Hs Hf Ha] Ht Hr Hfi Hsl Hnn. constructor; cbn [shared threads].
  - by rewrite length_insert.
  - by rewrite (count_same _ _ _ _ _ Ht Hr).
  - intros u st1 [[-> ->]|[_ Hu]]%lookup_stepped; eauto.
  - intros u st1 [[-> ->]|[_ Hu]]%lookup_stepped Has; [by left; auto|].
    destruct (Ha u st1 Hu Has) as [|Hso]; [by left|right].
    by eapply someone_keep.
Qed.

Lemma once_go c t b p s p' :
  once_ok c -> threads c !! t = Some (Running p) -> once_step t b (shared c) p = Go s p' ->
  once_ok (mkConfig s (<[t := Running p']> (threads c))).
Proof.
  intros Hok Ht. pose proof (oo_fine _ Hok _ _ Ht) as Hf.
  pose proof (oo_state _ Hok) as Hs. pose proof (oo_threads _ Hok) as Hn.
  pose proof (fun st => count_insert runs_callback t _ st _ Ht) as Hc.
  destruct p as [| | | | | |v| | | |]; cbn [once_step]; try discriminate.
  - intros [= <- <-]. destruct (Z.eqb_spec (state (shared c)) OnceStateRun); by eapply once_stay.
  - destruct (Z.eqb_spec (state (shared c)) OnceStateNotRun) as [He|He]; intros [= <- <-].
    + destruct Hs as [(_ & Hz & Hs)|[[Hs _]|(Hs & _)]]; [|by rewrite Hs in He..].
      specialize (Hc (Running OnCallback)). cbn in Hc. constructor; cbn [shared threads].
      * by rewrite length_insert.
      * right; left. split; [done|lia].
      * intros u st [[-> ->]|[_ Hu]]%lookup_stepped; [done|].
        pose proof (oo_fine _ Hok _ _ Hu) as Hfu.
        pose proof (count_zero _ _ _ _ Hs Hu) as Hz'.
        destruct st as [[]|]; cbn in Hfu, Hz' |- *; rewrite ?He in Hfu; try done; by destruct Hfu.
      * intros u st [[-> ->]|[_ Hu]]%lookup_stepped Has; [done|by left].
    + assert (state (shared c) = OnceStateRunning \/ state (shared c) = OnceStateRun) as [Hst|Hst] by
        (destruct Hs as [[? _]|[[? _]|[? _]]]; tauto); rewrite Hst; by eapply once_stay.
  - intros [= <- <-]. destruct Hf as [Hst Hz]. specialize (Hc (Running OnPublish)). cbn in Hc.
    constructor; cbn [shared threads].
    + by rewrite length_insert.
    + right; left. destruct Hs as [[Hx _]|[[_ ?]|[Hx _]]]; [by rewrite Hst in Hx|split; [done|lia]|
        by rewrite Hst in Hx].
    + intros u st [[-> ->]|[Hne Hu]]%lookup_stepped; [cbn; auto|].
      pose proof (oo_fine _ Hok _ _ Hu) as Hfu.
      destruct st as [[]|]; cbn in *; try done;
        (destruct Hne; by eapply once_alone; [done|exact Hu|done|exact Ht|]).
    + intros u st [[-> ->]|[_ Hu]]%lookup_stepped Has; [done|by left].
  - intros [= <- <-]. destruct Hf as [Hst Hz]. specialize (Hc (Running OnNotify)). cbn in Hc.
    constructor; cbn [shared threads].
    + by rewrite length_insert.
    + right; right. destruct Hs as [[Hx _]|[[_ ?]|[Hx _]]]; [by rewrite Hst in Hx| |by rewrite Hst in Hx].
      splits; [done..|lia].
    + intros u st [[-> ->]|[Hne Hu]]%lookup_stepped; [done|].
      pose proof (oo_fine _ Hok _ _ Hu) as Hfu.
      destruct st as [[]|]; cbn in *; try done; try (by destruct Hfu); try (
        destruct Hne; by eapply once_alone; [done|exact Hu|done|exact Ht|]).
    + intros u st [[-> ->]|[_ Hu]]%lookup_stepped Has; [done|].
      right. by eapply someone_here.
  - intros [= <- <-]. cbn in Hf. rewrite Hf. by eapply once_stay.
Qed.

Lemma once_move c c' : once_ok c -> move once_machine c c' -> once_ok c'.
Proof.
  intros Hok Hm. pose proof (oo_threads _ Hok) as Hn.
  destruct Hm as [t b p s p' Ht Hp|t b p [] v p' Ht Hp He|t b p [] v p' Ht Hp He|t b p [] n p' ws Ht Hp Hch
    |t p0 p Ht Hc0|t [] p r Ht Hr|t p [] v p' r Ht Hp Hr]; cbn in *; try discriminate.
  - by eapply once_go.
  - pose proof (oo_fine _ Hok _ _ Ht) as Hf. destruct p; cbn in Hp; other_action Hp.
    injection Hp as <- <-. destruct Hf as [-> Hf]. by eapply once_stay.
  - pose proof (oo_fine _ Hok _ _ Ht) as Hf. destruct p; cbn in Hp; other_action Hp.
    injection Hp as <- <-. destruct Hf as [-> Hf]. eapply once_stay; try done. cbn.
    destruct (oo_state _ Hok) as [[? _]|[[? _]|[? _]]]; congruence.
  - destruct p; cbn in Hp; other_action Hp. injection Hp as <- <-.
    pose proof (oo_fine _ Hok _ _ Ht) as Hf. cbn in Hf.
    assert (forall u st, threads c !! u = Some st ->
      once_asleep (rouse once_machine ws u st) = false /\
      once_fine (shared c) (rouse once_machine ws u st) /\
      runs_callback (rouse once_machine ws u st) = runs_callback st) as Hr.
    { intros u st Hu. pose proof (oo_fine _ Hok _ _ Hu) as Hfu. destruct st as [q|[] q]; [done|].
      cbn in Hfu. destruct Hfu as [-> _]. cbn. rewrite bool_decide_eq_true_2; [done|].
      eapply chosen_all; [done|lia|]. unfold asleep_on. by rewrite Hu. }
    constructor; cbn [shared threads].
    + by rewrite length_insert, length_wake.
    + rewrite (count_same runs_callback t (Running OnNotify)), count_wake; [apply Hok| | |done].
      * intros u st Hu. by apply Hr.
      * by rewrite lookup_wake, Ht.
    + intros u st [[-> ->]|(_ & st0 & Hu & ->)]%lookup_moved; [done|by apply Hr].
    + intros u st [[-> ->]|(_ & st0 & Hu & ->)]%lookup_moved Has; [done|].
      destruct (Hr u st0 Hu) as [Hx _]. congruence.
  - pose proof (oo_fine _ Hok _ _ Ht) as Hf. destruct p0, p; try discriminate; by eapply once_stay.
Qed.

Lemma once_init_ok n : Z.of_nat n < 2 ^ 32 -> once_ok (once_init n).
Proof.
  intros Hn. constructor; cbn [shared threads once_init].
  - by rewrite length_replicate.
  - left. split; [done|]. split; [done|]. by rewrite count_replicate.
  - by intros t st [-> _]%lookup_replicate.
  - by intros t st [-> _]%lookup_replicate.
Qed.

(** [run_once] runs its callback once: whatever the interleaving, the callback is never
    called twice, when [run_once] has returned to any thread the callback has been called and
    has returned, the assertion on the state of the guard does not fail, and nobody sleeps
    once the state is [OnceStateRun] and the wake that follows has been made. *)
Theorem run_once_once es n c :
  Z.of_nat n < 2 ^ 32 -> run once_machine es (once_init n) = Some c ->
  (calls (shared c) <= 1)%nat /\
  (forall t, threads c !! t = Some (Running OnReturned) ->
     calls (shared c) = 1%nat /\ state (shared c) = OnceStateRun /\
     count runs_callback (threads c) = 0%nat) /\
  (forall t, threads c !! t <> Some (Running OnAssertFailed)) /\
  (forall t k p, threads c !! t = Some (Asleep k p) ->
     state (shared c) = OnceStateRunning \/
     exists u, threads c !! u = Some (Running OnNotify)).
Proof.
  intros Hn Hr.
  assert (once_ok c) as Hok.
  { revert Hr. apply move_invariant; [apply once_move|]. by apply once_init_ok. }
  splits.
  - destruct (oo_state _ Hok) as [(_ & -> & _)|[[Hs Hc]|(_ & -> & _)]]; [lia| |lia].
    unfold count in Hc. destruct (filter _ (threads c)) as [|st l] eqn:Hfl; [done|].
    assert (st ∈ filter (fun st => runs_callback st = true) (threads c)) as Hin
      by (rewrite Hfl; set_solver).
    apply list_elem_of_filter in Hin as [Hrc [t Ht]%list_elem_of_lookup].
    pose proof (oo_fine _ Hok _ _ Ht) as Hf.
    destruct st as [[]|]; try discriminate; destruct Hf as [_ ->]; lia.
  - intros t Ht. pose proof (oo_fine _ Hok _ _ Ht) as Hf. cbn in Hf.
    destruct (oo_state _ Hok) as [[Hs _]|[[Hs _]|(Hs & ? & ?)]]; [by rewrite Hf in Hs..|done].
  - intros t Ht. exact (oo_fine _ Hok _ _ Ht).
  - intros t k p Ht. destruct (oo_asleep _ Hok _ _ Ht eq_refl) as [?|(u & st & Hu & ->)]; [by left|].
    right. by exists u.
Qed.

(** The first thread runs the callback while the second waits for it. *)
Definition racing : list (event once_point) :=
  [Call 0 OnFast; Call 1 OnFast; Step 0 true []; Step 1 true []; Step 0 true []; Step 1 true [];
   Step 1 true []; Step 0 true []; Step 0 true []; Step 0 true [1%nat]; Step 1 true []].

Lemma run_once_once_witness :
  exists c, run once_machine racing (once_init 2) = Some c /\
    threads c = [Running OnReturned; Running OnReturned] /\ calls (shared c) = 1%nat.
Proof.
  eexists. split; [by vm_compute|]. split; [done|].
  refine (proj1 (proj1 (proj2 (run_once_once racing 2 _ _ _)) 0%nat _)); [lia|by vm_compute|done].
Defined.

End Once.

(** ** Barriers *)

Module Barrier.

Inductive barrier_point : Type :=
  | BFresh                       (* has not arrived *)
  | BArrive                      (* the decrement of [barrier_timed_wait] *)
  | BNotify                      (* the last thread wakes the others *)
  | BWait (remaining : Z)        (* the others wait *)
  | BWaiting
  | BReload                      (* and read the word again *)
  | BReturned (r : Z)
  | BAssertFailed.

Section Barrier.
Context (DebugLocks : bool).

Definition barrier_arrived (remaining : Z) : barrier_point :=
  if DebugLocks && negb (remaining <? 2 ^ 31 - 1) then BAssertFailed
  else if remaining =? 0 then BNotify else BWait remaining.

Definition barrier_step (t : nat) (may_block : bool) (word : Z) (p : barrier_point)
    : action Z barrier_point unit :=
  match p with
  | BFresh | BWaiting | BReturned _ | BAssertFailed => Idle
  | BArrive => Go (u32 (word - 1)) (barrier_arrived (u32 (word - 1)))
  | BNotify => Notify tt (2 ^ 32 - 1) (BReturned 0)
  | BWait remaining => Wait tt remaining BWaiting
  | BReload => Go word (if negb (word =? 0) then BWait word else BReturned 1)
  end.

(** Only a timeout ends the wait: other results are ignored. *)
Definition barrier_resume (p : barrier_point) (r : Z) : barrier_point :=
  match p with BWaiting => if r =? - ETIMEDOUT then BReturned r else BReload | _ => p end.

(** Each thread arrives once. *)
Definition barrier_may_call (t : nat) (p p' : barrier_point) : bool :=
  match p, p' with BFresh, BArrive => true | _, _ => false end.

Definition barrier : machine Z barrier_point unit :=
  mkMachine (fun word _ => word) barrier_step barrier_resume barrier_may_call (fun _ => true).

Definition barrier_init (start : Z) (n : nat) : config Z barrier_point unit :=
  mkConfig start (replicate n (Running BFresh)).

#[local] Notation bstatus := (status barrier_point unit).

Definition not_arrived (st : bstatus) : bool :=
  match st with Running (BFresh | BArrive) => true | _ => false end.

Definition is_last (st : bstatus) : bool :=
  match st with Running (BNotify | BReturned 0) => true | _ => false end.

Definition barrier_asleep (st : bstatus) : bool :=
  match st with Asleep _ _ => true | _ => false end.

Definition barrier_fine (word : Z) (st : bstatus) : Prop :=
  match st with
  | Running BNotify => word = 0
  | Running (BReturned r) => r = - ETIMEDOUT \/ (word = 0 /\ (r = 0 \/ r = 1))
  | Running (BWaiting | BAssertFailed) => False
  | Running (BWait remaining) => 0 < remaining
  | Asleep _ p => p = BWaiting
  | _ => True
  end.

Record barrier_ok (spare : Z) (c : config Z barrier_point unit) : Prop := mkBarrierOk {
  bo_word : shared c = spare + Z.of_nat (count not_arrived (threads c));
  bo_range : shared c < 2 ^ 31;
  bo_threads : Z.of_nat (length (threads c)) < 2 ^ 31;
  bo_last : count is_last (threads c) = if shared c =? 0 then 1%nat else 0%nat;
  bo_fine t st : threads c !! t = Some st -> barrier_fine (shared c) st;
  bo_asleep t st : threads c !! t = Some st -> barrier_asleep st = true ->
    0 < shared c \/ someone (fun st => st = Running BNotify) (threads c) }.

Lemma barrier_stay spare c t st0 st :
  barrier_ok spare c -> threads c !! t = Some st0 -> not_arrived st = not_arrived st0 ->
  is_last st = is_last st0 -> barrier_fine (shared c) st ->
  (barrier_asleep st = true -> 0 < shared c) -> st0 <> Running BNotify ->
  barrier_ok spare (mkConfig (shared c) (<[t := st]> (threads c))).
Proof.
  intros [Hw Hr Hn Hl Hf Ha] Ht Hna Hla Hfi Hsl Hnn. constructor; cbn [shared threads].
  - by rewrite (count_same not_arrived t st0).
  - done.
  - by rewrite length_insert.
  - by rewrite (count_same is_last t st0).
  - intros u st1 [[-> ->]|[_ Hu]]%lookup_stepped; eauto.
  - intros u st1 [[-> ->]|[_ Hu]]%lookup_stepped Has; [by left; auto|].
    destruct (Ha u st1 Hu Has) as [|Hso]; [by left|right]. by eapply someone_keep.
Qed.

Lemma barrier_arrive spare c t :
  0 <= spare -> barrier_ok spare c -> threads c !! t = Some (Running BArrive) ->
  barrier_ok spare (mkConfig (u32 (shared c - 1))
    (<[t := Running (barrier_arrived (u32 (shared c - 1)))]> (threads c))).
Proof.
  intros Hsp Hok Ht. pose proof Hok as [Hw Hr Hn Hl Hf Ha].
  pose proof (count_pos not_arrived t _ _ Ht eq_refl) as Hp.
  unfold u32. rewrite wrap_small by lia.
  pose proof (fun st => count_insert not_arrived t _ st _ Ht) as Hc.
  pose proof (fun st => count_insert is_last t _ st _ Ht) as Hc'. cbn in Hc, Hc'.
  assert (shared c =? 0 = false) as Hz by lia. rewrite Hz in Hl.
  unfold barrier_arrived. rewrite (proj2 (Z.ltb_lt (shared c - 1) (2 ^ 31 - 1))), andb_false_r by lia.
  set (p := if shared c - 1 =? 0 then BNotify else BWait (shared c - 1)).
  assert (not_arrived (Running p) = false) as Hna by (unfold p; by case_match).
  specialize (Hc (Running p)). specialize (Hc' (Running p)). rewrite Hna in Hc.
  constructor; cbn [shared threads].
  - lia.
  - lia.
  - by rewrite length_insert.
  - unfold p in *. destruct (shared c - 1 =? 0); cbn in Hc'; lia.
  - intros u st [[-> ->]|[_ Hu]]%lookup_stepped.
    + unfold p. destruct (Z.eqb_spec (shared c - 1) 0); cbn; lia.
    + pose proof (Hf u st Hu) as Hfu. destruct st as [[]|]; cbn in *; try done; try lia.
  - intros u st [[-> ->]|[_ Hu]]%lookup_stepped Has; [done|].
    unfold p. destruct (Z.eqb_spec (shared c - 1) 0); [right|left; lia]. by eapply someone_here.
Qed.

Lemma barrier_move spare c c' :
  0 <= spare -> barrier_ok spare c -> move barrier c c' -> barrier_ok spare c'.
Proof.
  intros Hsp Hok Hm. pose proof (bo_threads _ _ Hok) as Hn.
  destruct Hm as [t b p s p' Ht Hp|t b p [] v p' Ht Hp He|t b p [] v p' Ht Hp He|t b p [] n p' ws Ht Hp Hch
    |t p0 p Ht Hc0|t [] p r Ht _|t p [] v p' r Ht Hp _]; cbn in Hp || cbn in *; try discriminate.
  - pose proof (bo_fine _ _ Hok _ _ Ht) as Hf. destruct p; cbn in Hp; try discriminate.
    + injection Hp as <- <-. by apply barrier_arrive.
    + injection Hp as <- <-.
      pose proof (bo_word _ _ Hok) as Hw.
      destruct (Z.eqb_spec (shared c) 0) as [Hz|Hz]; cbn [negb].
      * eapply barrier_stay; try done. cbn. auto.
      * eapply barrier_stay; try done. cbn. lia.
  - pose proof (bo_fine _ _ Hok _ _ Ht) as Hf. destruct p; cbn in Hp; other_action Hp.
    injection Hp as <- <-. cbn in He, Hf. eapply barrier_stay; try done. intros _. lia.
  - destruct p; cbn in Hp; other_action Hp. injection Hp as <- <-. by eapply barrier_stay.
  - destruct p; cbn in Hp; other_action Hp. injection Hp as <- <-.
    pose proof (bo_fine _ _ Hok _ _ Ht) as Hf. cbn in Hf.
    assert (forall u st, threads c !! u = Some st ->
      barrier_asleep (rouse barrier ws u st) = false /\
      barrier_fine (shared c) (rouse barrier ws u st) /\
      not_arrived (rouse barrier ws u st) = not_arrived st /\
      is_last (rouse barrier ws u st) = is_last st) as Hr.
    { intros u st Hu. pose proof (bo_fine _ _ Hok _ _ Hu) as Hfu. destruct st as [q|[] q]; [done|].
      cbn in Hfu. subst q. cbn. rewrite bool_decide_eq_true_2; [done|].
      eapply chosen_all; [done|lia|]. unfold asleep_on. by rewrite Hu. }
    assert (wake barrier ws (threads c) !! t = Some (Running BNotify)) as Ht' by
      (by rewrite lookup_wake, Ht).
    constructor; cbn [shared threads].
    + rewrite (count_same not_arrived t (Running BNotify)), count_wake; [apply Hok| |done..].
      intros u st Hu. by apply Hr.
    + apply Hok.
    + by rewrite length_insert, length_wake.
    + rewrite (count_same is_last t (Running BNotify)), count_wake; [apply Hok| |done..].
      intros u st Hu. by apply Hr.
    + intros u st [[-> ->]|(_ & st0 & Hu & ->)]%lookup_moved; [cbn; auto|by apply Hr].
    + intros u st [[-> ->]|(_ & st0 & Hu & ->)]%lookup_moved Has; [done|].
      destruct (Hr u st0 Hu) as [Hx _]. congruence.
  - pose proof (bo_fine _ _ Hok _ _ Ht) as Hf. destruct p0, p; try discriminate; by eapply barrier_stay.
  - pose proof (bo_fine _ _ Hok _ _ Ht) as Hf. cbn in Hf. subst p. cbn.
    destruct (Z.eqb_spec r (- ETIMEDOUT)) as [->|]; eapply barrier_stay; try done. by left.
  - destruct p; cbn in Hp; other_action Hp. injection Hp as <- <-. cbn.
    destruct (Z.eqb_spec r (- ETIMEDOUT)) as [->|]; eapply barrier_stay; try done. by left.
Qed.

Lemma barrier_init_ok start n :
  0 < start -> Z.of_nat n <= start -> start < 2 ^ 31 ->
  barrier_ok (start - Z.of_nat n) (barrier_init start n).
Proof.
  intros Hs Hn Hr. constructor; cbn [shared threads barrier_init].
  - rewrite count_replicate. cbn. lia.
  - done.
  - rewrite length_replicate. lia.
  - rewrite count_replicate. cbn. by rewrite (proj2 (Z.eqb_neq start 0)) by lia.
  - by intros t st [-> _]%lookup_replicate.
  - by intros t st [-> _]%lookup_replicate.
Qed.

(** The barrier holds: with a barrier for [start] threads of which [n] arrive, the word is
    the number of arrivals that are missing; no thread returns 0 or 1 before the last arrival,
    after which exactly one thread is the last one, which returns 0; the assertion against
    underflow does not fail; and a thread sleeps only while an arrival is missing or the last
    thread's wake is about to be made. *)
Theorem barrier_holds es start n c :
  0 < start -> Z.of_nat n <= start -> start < 2 ^ 31 ->
  run barrier es (barrier_init start n) = Some c ->
  shared c = start - Z.of_nat n + Z.of_nat (count not_arrived (threads c)) /\
  (forall t r, threads c !! t = Some (Running (BReturned r)) -> r <> - ETIMEDOUT ->
     shared c = 0 /\ (r = 0 \/ r = 1)) /\
  count is_last (threads c) = (if shared c =? 0 then 1%nat else 0%nat) /\
  (forall t, threads c !! t <> Some (Running BAssertFailed)) /\
  (forall t k p, threads c !! t = Some (Asleep k p) ->
     0 < shared c \/ exists u, threads c !! u = Some (Running BNotify)).
Proof.
  intros Hs Hn Hr Hrun.
  assert (barrier_ok (start - Z.of_nat n) c) as Hok.
  { revert Hrun. apply move_invariant; [intros; eapply barrier_move; [|done..]; lia|].
    by apply barrier_init_ok. }
  splits.
  - apply Hok.
  - intros t r Ht Hne. by destruct (bo_fine _ _ Hok _ _ Ht).
  - apply Hok.
  - intros t Ht. exact (bo_fine _ _ Hok _ _ Ht).
  - intros t k p Ht. destruct (bo_asleep _ _ Hok _ _ Ht eq_refl) as [?|(u & st & Hu & ->)]; [by left|].
    right. by exists u.
Qed.

End Barrier.

(** Two threads meet: the first sleeps, the second wakes it. *)
Definition meeting : list (event barrier_point) :=
  [Call 0 BArrive; Step 0 true []; Step 0 true []; Call 1 BArrive; Step 1 true [];
   Step 1 true [0%nat]; Step 0 true []].

Lemma barrier_holds_witness :
  exists c, run (barrier true) meeting (barrier_init 2 2) = Some c /\
    threads c = [Running (BReturned 1); Running (BReturned 0)] /\ shared c = 0.
Proof.
  eexists. split; [by vm_compute|]. split; [done|].
  refine (proj1 (proj1 (proj2 (barrier_holds true meeting 2 2 _ _ _ _ _)) 0%nat 1 _ _));
    [lia|lia|lia|by vm_compute|done|done].
Defined.

End Barrier.

(** ** Condition variables *)

Module ConditionVariable.

Inductive cv_point : Type :=
  | CvOut (r : Z)
  | CvLoad                        (* [condition_variable_wait]: the load *)
  | CvUnlock (counter : Z)        (* [mutexUnlock] *)
  | CvWait (counter : Z)          (* the futex wait *)
  | CvWaiting
  | CvLock                        (* [mutexLock] *)
  | CvBump (waiters : Z)          (* [condition_variable_notify]: the increment *)
  | CvWake (waiters : Z)          (* its futex_wake, whose result it returns *)
  | CvWaking.

Section ConditionVariable.
(* the mutex and its callbacks, which return a result; a lock that blocks returns [None] *)
Context {Mutex : Type} (mutexLock : nat -> Mutex -> option (Mutex * Z))
  (mutexUnlock : nat -> Mutex -> Mutex * Z).

Record condition : Type := mkCondition { sequenceCounter : Z; mutex : Mutex }.

Definition cv_step (t : nat) (may_block : bool) (s : condition) (p : cv_point)
    : action condition cv_point unit :=
  match p with
  | CvOut _ | CvWaiting | CvWaking => Idle
  | CvLoad => Go s (CvUnlock (sequenceCounter s))
  | CvUnlock counter =>
      let '(m, result) := mutexUnlock t (mutex s) in
      Go (mkCondition (sequenceCounter s) m)
        (if negb (result =? 0) then CvOut result else CvWait counter)
  | CvWait counter => Wait tt counter CvWaiting
  | CvLock =>
      match mutexLock t (mutex s) with
      | Some (m, result) => Go (mkCondition (sequenceCounter s) m) (CvOut result)
      | None => Idle
      end
  | CvBump waiters =>
      Go (mkCondition (u32 (sequenceCounter s + 1)) (mutex s)) (CvWake waiters)
  | CvWake waiters => Notify tt waiters CvWaking
  end.

Definition cv_resume (p : cv_point) (r : Z) : cv_point :=
  match p with
  | CvWaiting => if negb (r =? 0) then CvOut r else CvLock
  | CvWaking => CvOut r
  | _ => p
  end.

Definition cv_may_call (t : nat) (p p' : cv_point) : bool :=
  match p, p' with CvOut _, CvLoad | CvOut _, CvBump _ => true | _, _ => false end.

Definition condition_variable : machine condition cv_point unit :=
  mkMachine (fun s _ => sequenceCounter s) cv_step cv_resume cv_may_call (fun _ => true).

(** The notifications of a run. *)
Definition bump (e : event cv_point) (c : config condition cv_point unit) : Z :=
  match e with
  | Step t _ _ =>
      match threads c !! t with Some (Running (CvBump _)) => 1 | _ => 0 end
  | _ => 0
  end.

Fixpoint bumps (es : list (event cv_point)) (c : config condition cv_point unit) : Z :=
  match es with
  | [] => 0
  | e :: es =>
      bump e c + match exec condition_variable e c with Some c' => bumps es c' | None => 0 end
  end.

Lemma bump_event e c c' :
  exec condition_variable e c = Some c' ->
  u32 (sequenceCounter (shared c')) = u32 (sequenceCounter (shared c) + bump e c).
Proof.
  destruct e as [t b ws|t p|t r]; cbn; intros He.
  - destruct (threads c !! t) as [[p|]|] eqn:Ht; try discriminate.
    destruct p; cbn in He; rewrite ?Z.add_0_r; repeat case_match; simplify_eq; try done.
    cbn. apply wrap_wrap. lia.
  - rewrite Z.add_0_r. repeat case_match; by simplify_eq.
  - rewrite Z.add_0_r. repeat case_match; by simplify_eq.
Qed.

Lemma bumps_count es : forall c c',
  run condition_variable es c = Some c' ->
  u32 (sequenceCounter (shared c')) = u32 (sequenceCounter (shared c) + bumps es c) /\
  0 <= bumps es c.
Proof.
  induction es as [|e es IH]; cbn; intros c c' Hr.
  { injection Hr as <-. by rewrite Z.add_0_r. }
  destruct (exec condition_variable e c) as [c1|] eqn:He; [|discriminate]. cbn in Hr.
  destruct (IH c1 c' Hr) as [Hc Hp]. pose proof (bump_event e c c1 He) as Hb.
  assert (0 <= bump e c) by (unfold bump; repeat case_match; lia).
  split; [|lia]. rewrite Hc. unfold u32, wrap in *. rewrite Z.add_assoc.
  by rewrite Zplus_mod, Hb, <- Zplus_mod.
Qed.

(** No notification is missed: a thread that has read the counter and then unlocks the mutex
    does not go to sleep if, between the two, other threads made at least one notification
    (and fewer than 2^32, as the comment of [condition_variable_wait] warns); it goes on to
    lock the mutex again. *)
Theorem condition_variable_no_missed_notify es c c' t b ws v :
  v in_u 32 -> sequenceCounter (shared c) = v ->
  run condition_variable es c = Some c' ->
  threads c' !! t = Some (Running (CvWait v)) -> sequenceCounter (shared c') in_u 32 ->
  0 < bumps es c < 2 ^ 32 ->
  exec condition_variable (Step t b ws) c' =
  Some (mkConfig (shared c') (<[t := Running CvLock]> (threads c'))).
Proof.
  intros Hv Hc Hr Ht Hc' Hb. cbn. rewrite Ht. cbn.
  destruct (Z.eqb_spec (sequenceCounter (shared c')) v) as [He|]; [exfalso|done].
  destruct (bumps_count es c c' Hr) as [Hu _]. rewrite Hc, He in Hu.
  unfold u32, wrap in Hu. rewrite Z.mod_small in Hu by done.
  destruct (Z.lt_ge_cases (v + bumps es c) (2 ^ 32)).
  - rewrite Z.mod_small in Hu; lia.
  - rewrite <- (Z_mod_plus_full _ (-1)), Z.mod_small in Hu; lia.
Qed.

End ConditionVariable.

(** A mutex that is a flag: the second thread signals after the first has read the counter. *)
Definition flag_lock (t : nat) (m : bool) : option (bool * Z) := if m then None else Some (true, 0).
Definition flag_unlock (t : nat) (m : bool) : bool * Z := (false, 0).

Definition cv_start : config condition cv_point unit :=
  mkConfig (mkCondition (2 ^ 32 - 1) true) [Running CvLoad; Running (CvBump 1)].
Definition signalled : list (event cv_point) :=
  [Step 0 true []; Step 1 true []; Step 0 true []; Step 1 true []].

Lemma condition_variable_no_missed_notify_witness :
  exists c', run (condition_variable flag_lock flag_unlock) signalled cv_start = Some c' /\
    exec (condition_variable flag_lock flag_unlock) (Step 0 true []) c' =
    Some (mkConfig (shared c') (<[0%nat := Running CvLock]> (threads c'))).
Proof.
  eexists. split; [by vm_compute|].
  apply (condition_variable_no_missed_notify flag_lock flag_unlock signalled cv_start _ 0 true []
    (2 ^ 32 - 1)); [lia|done|by vm_compute|done|cbn; lia|by vm_compute].
Defined.

(** [condition_variable_notify] returns the number of threads it woke, as [futex_wake] does. *)
Example notify_returns_woken :
  run (condition_variable flag_lock flag_unlock) [Step 0 true []; Step 1 true []; Step 1 true [0%nat]]
    (mkConfig (mkCondition 0 false) [Running (CvWait 0); Running (CvBump 1)]) =
  Some (mkConfig (mkCondition 1 false) [Running CvLock; Running (CvOut 1)]).
Proof. reflexivity. Qed.

End ConditionVariable.
