(* ===== verification/MessageQueue.v ===== *)
(** * Message queues

    [src/cheriot-rtos/sdk/lib/queue/queue.cc].  A ring buffer of [queueSize] elements with two
    counters that wrap at twice that size; the three high bits of each counter's word are a
    lock.  Sending and receiving is a machine over the two words and the buffer: the points are
    those between two atomic accesses of the words, or two elements of a copy. *)

From S2P Require Import Prelude Machine.

(** ** Counters *)

Definition increment_and_wrap (size counter : Z) : Z :=
  let counter := u32 (counter + 1) in
  if u32 (2 * size) =? counter then 0 else counter.

Definition add_and_wrap (size counter addend : Z) : Z :=
  let counter := u32 (counter + addend) in
  if u32 (2 * size) <=? counter then u32 (counter - u32 (2 * size)) else counter.

Definition items_remaining (size producer consumer : Z) : Z :=
  if producer <? consumer then u32 (u32 (2 * size) - consumer + producer)
  else u32 (producer - consumer).

Definition is_full (size producer consumer : Z) : bool :=
  items_remaining size producer consumer =? size.

Definition is_empty (producer consumer : Z) : bool := producer =? consumer.

Definition index_at_counter (size counter : Z) : Z :=
  if size <=? counter then counter - size else counter.

(** ** The words *)

Definition LockBit : Z := 2 ^ 31.
Definition WaitersBit : Z := 2 ^ 30.
Definition LockedInDestructModeBit : Z := 2 ^ 29.
Definition reserved_bits : Z := Z.lor (Z.lor LockBit WaitersBit) LockedInDestructModeBit.

(** The value of a counter in a word ([counter_load]), and the word with another counter. *)
Definition counter_of (word : Z) : Z := Z.land word (u32 (Z.lnot reserved_bits)).
Definition with_counter (word counter : Z) : Z := Z.lor (Z.land word reserved_bits) counter.

Definition has (word bit : Z) : bool := negb (Z.land word bit =? 0).

(** ** Sizes *)

Definition sizeof_MessageQueue : Z := 16.

Definition queue_allocation_size (elementSize elementCount : Z) : Z :=
  let product := elementCount * elementSize in
  let allocSize := sizeof_MessageQueue + u32 product in
  if (2 ^ 32 <=? product) || (2 ^ 32 <=? allocSize) then - EINVAL
  else if negb (Z.land (Z.lor elementCount (u32 (elementCount * 2))) reserved_bits =? 0)
  then - EINVAL
  else s32 allocSize.

(** ** Sending and receiving *)

Inductive side : Type := Producer | Consumer.

#[export] Instance side_eq_dec : EqDecision side.
Proof. solve_decision. Defined.

Definition other (s : side) : side := match s with Producer => Consumer | Consumer => Producer end.

Section Queue.
Context {E : Type} (queueSize : Z).

Record MessageQueue : Type := mkQueue { producer : Z; consumer : Z; buffer : list E }.

Definition word_at (q : MessageQueue) (s : side) : Z :=
  match s with Producer => producer q | Consumer => consumer q end.

Definition set_word (q : MessageQueue) (s : side) (w : Z) : MessageQueue :=
  match s with
  | Producer => mkQueue w (consumer q) (buffer q)
  | Consumer => mkQueue (producer q) w (buffer q)
  end.

(** The variables of [queue_send_multiple] ([role] is [Producer]) and
    [queue_receive_multiple] ([Consumer]). *)
Record call : Type := mkCall {
  role : side; src : list E; dst : list E; count : Z; ret : Z; shouldWake : bool }.

Definition failed (k : call) (r : Z) : call :=
  mkCall (role k) (src k) (dst k) (count k) r (shouldWake k).

Definition blocked (r : side) (own others : Z) : bool :=
  match r with
  | Producer => is_full queueSize own others
  | Consumer => is_empty others own
  end.

(** After an update of the own counter: was the other side blocked before it? *)
Definition was_blocked (r : side) (own others : Z) : bool :=
  match r with
  | Producer => is_empty own others
  | Consumer => is_full queueSize others own
  end.

Definition elementsToCopy (own others count : Z) : Z :=
  let startIndex := index_at_counter queueSize own in
  let otherIndex := index_at_counter queueSize others in
  Z.min count ((if otherIndex <=? startIndex then queueSize else otherIndex) - startIndex).

Inductive queue_point : Type :=
  | QOut (r : Z) (received : list E)          (* outside; the last call returned [r] *)
  | QLock (k : call)                          (* [HighBitFlagLock::try_lock]: the load *)
  | QMark (k : call) (value : Z)              (* adding the waiters bit *)
  | QLockWait (k : call) (value : Z)          (* the futex wait on the own word *)
  | QLockWaiting (k : call) (value : Z)
  | QTake (k : call) (value : Z)              (* the condition of the loop: setting the lock bit *)
  | QLoop (k : call)                          (* [while (count > 0)]: the load of the own counter *)
  | QLoadOwn (k : call) (value : Z)           (* receive loads the other word first *)
  | QLoad (k : call) (own : Z)                (* the load of the other word *)
  | QWait (k : call) (own value : Z)          (* the futex wait on the other word *)
  | QWaiting (k : call) (own : Z)
  | QCopy (k : call) (own n i : Z)            (* [memcpy] of [n] elements, [i] are copied *)
  | QStore (k : call) (own n : Z)             (* [counter_store]: the load *)
  | QStoreCas (k : call) (own n old : Z)      (* its compare-and-exchange *)
  | QCheck (k : call) (own : Z)               (* the update of [shouldWake] *)
  | QUnlock (k : call)                        (* [unlock]: the load *)
  | QUnlockSwap (k : call) (value : Z)        (* its exchange *)
  | QUnlockWake (k : call)                    (* its notify_all *)
  | QWake (k : call)                          (* the last [notify_all], if [shouldWake] *)
  | QStop (s : side)                          (* [queue_stop]: the [|=] on a word *)
  | QStopTest (s : side)                      (* its test of the waiters bit *)
  | QStopWake (s : side).                     (* its notify_all *)

Definition qaction : Type := action MessageQueue queue_point side.

(** The test of [while (count > 0)]. *)
Definition loop (k : call) : queue_point := if 0 <? count k then QLoop k else QUnlock k.

(** The tests of the counters read at a point. *)
Definition test_blocked (k : call) (own value : Z) : queue_point :=
  if blocked (role k) own (counter_of value) then QWait k own value
  else QCopy k own (elementsToCopy own (counter_of value) (count k)) 0.

(** One element of [memcpy]; [None] when it faults. *)
Definition copy_one (q : MessageQueue) (k : call) (own i : Z) : option (MessageQueue * call) :=
  let slot := Z.to_nat (index_at_counter queueSize own + i) in
  match role k with
  | Producer =>
      e ← src k !! Z.to_nat (ret k + i);
      Some (mkQueue (producer q) (consumer q) (<[slot := e]> (buffer q)), k)
  | Consumer =>
      e ← buffer q !! slot;
      Some (q, mkCall (role k) (src k) (dst k ++ [e]) (count k) (ret k) (shouldWake k))
  end.

Definition stop_next (s : side) : queue_point :=
  match s with Producer => QStop Consumer | Consumer => QOut 0 [] end.

(** One step.  The boolean is false when [memcpy] faults, because the permissions of a buffer
    are invalid or memory was freed; [on_error] then runs the handler.  In [try_lock] a
    [continue] evaluates the condition of its do-while loop, with the value that the thread has
    in hand: the one it waited on, or the one that the failed compare-and-exchange loaded. *)
Definition queue_step (t : nat) (b : bool) (q : MessageQueue) (p : queue_point) : qaction :=
  match p with
  | QOut _ _ | QLockWaiting _ _ | QWaiting _ _ => Idle
  | QLock k =>
      let value := word_at q (role k) in
      Go q (if has value LockedInDestructModeBit then QOut (- ETIMEDOUT) (dst k)
            else if has value LockBit then
              if has value WaitersBit then QLockWait k value else QMark k value
            else QTake k value)
  | QMark k value =>
      if word_at q (role k) =? value
      then Go (set_word q (role k) (Z.lor value WaitersBit)) (QLockWait k value)
      else Go q (QTake k (word_at q (role k)))
  | QLockWait k value => Wait (role k) value (QLockWaiting k value)
  | QTake k value =>
      if word_at q (role k) =? value
      then Go (set_word q (role k) (Z.lor value LockBit)) (loop k)
      else Go q (QLock k)
  | QLoop k =>
      match role k with
      | Producer => Go q (QLoad k (counter_of (producer q)))
      | Consumer => Go q (QLoadOwn k (producer q))
      end
  | QLoadOwn k value => Go q (test_blocked k (counter_of (word_at q (role k))) value)
  | QLoad k own => Go q (test_blocked k own (word_at q (other (role k))))
  | QWait k own value => Wait (other (role k)) value (QWaiting k own)
  | QCopy k own n i =>
      if i <? n then
        match (if b then copy_one q k own i else None) with
        | Some (q', k') => Go q' (QCopy k' own n (i + 1))
        | None => Go q (QUnlock (failed k (- EPERM)))
        end
      else
        Go q (QStore (mkCall (role k) (src k) (dst k) (count k - n) (ret k + n) (shouldWake k))
                own n)
  | QStore k own n => Go q (QStoreCas k own n (word_at q (role k)))
  | QStoreCas k own n old =>
      if word_at q (role k) =? old
      then Go (set_word q (role k) (with_counter old (add_and_wrap queueSize own n)))
              (QCheck k own)
      else Go q (QStore k own n)
  | QCheck k own =>
      let w := shouldWake k || was_blocked (role k) own (counter_of (word_at q (other (role k)))) in
      Go q (loop (mkCall (role k) (src k) (dst k) (count k) (ret k) w))
  | QUnlock k => Go q (QUnlockSwap k (word_at q (role k)))
  | QUnlockSwap k value =>
      let old := word_at q (role k) in
      Go (set_word q (role k) (Z.land value (u32 (Z.lnot LockBit))))
         (if has old WaitersBit then QUnlockWake k
          else if shouldWake k then QWake k else QOut (ret k) (dst k))
  | QUnlockWake k =>
      Notify (role k) (2 ^ 32 - 1) (if shouldWake k then QWake k else QOut (ret k) (dst k))
  | QWake k => Notify (role k) (2 ^ 32 - 1) (QOut (ret k) (dst k))
  | QStop s =>
      Go (set_word q s (Z.lor (word_at q s) LockedInDestructModeBit)) (QStopTest s)
  | QStopTest s => Go q (if has (word_at q s) WaitersBit then QStopWake s else stop_next s)
  | QStopWake s => Notify s (2 ^ 32 - 1) (stop_next s)
  end.

(** A wait that times out ends the call, other results are ignored.  The loop around the wait on
    the other word loads that word again. *)
Definition queue_resume (p : queue_point) (r : Z) : queue_point :=
  match p with
  | QLockWaiting k value => if r =? - ETIMEDOUT then QOut (- ETIMEDOUT) (dst k) else QTake k value
  | QWaiting k own =>
      if r =? - ETIMEDOUT then QUnlock (if ret k =? 0 then failed k (- ETIMEDOUT) else k)
      else QLoad k own
  | _ => p
  end.

Definition new_call (k : call) : bool :=
  (ret k =? 0) && negb (shouldWake k) && (0 <=? count k) && (count k <? 2 ^ 31)
  && match dst k with [] => true | _ => false end.

(** Which threads send and which receive is up to the clients; anyone may stop the queue. *)
Definition queue_may_call (client : nat -> side -> bool) (t : nat) (p p' : queue_point) : bool :=
  match p, p' with
  | QOut _ _, QLock k => new_call k && client t (role k)
  | QOut _ _, QStop Producer => true
  | _, _ => false
  end.

Definition queue_machine (client : nat -> side -> bool) : machine MessageQueue queue_point side :=
  mkMachine word_at queue_step queue_resume (queue_may_call client) (fun _ => true).

(** The queue as [queue_create] constructs it, in a buffer that held anything. *)
Definition queue_init (slots : list E) (n : nat) : config MessageQueue queue_point side :=
  mkConfig (mkQueue 0 0 slots) (replicate n (Running (QOut 0 []))).

(** [queue_create], given the slots of a successful allocation. *)
Definition queue_create (heap_allocate : Z -> option (list E)) (elementSize elementCount : Z)
    : Z * option MessageQueue :=
  let allocSize := queue_allocation_size elementSize elementCount in
  if allocSize <? 0 then (- EINVAL, None)
  else match heap_allocate allocSize with
       | None => (- ENOMEM, None)
       | Some slots => (0, Some (mkQueue 0 0 slots))
       end.

(** [queue_send] and [queue_receive] report 0 or the error of a call for one element. *)
Definition single_result (r : Z) : Z := Z.min 0 r.

Definition queue_items_remaining (q : MessageQueue) : Z :=
  items_remaining queueSize (counter_of (producer q)) (counter_of (consumer q)).

(** The value a multiwaiter waits on, [-1] if the queue is ready. *)
Definition multiwaiter_queue_send_init (q : MessageQueue) : side * Z :=
  (Consumer,
   if is_full queueSize (counter_of (producer q)) (counter_of (consumer q))
   then counter_of (consumer q) else u32 (-1)).

Definition multiwaiter_queue_receive_init (q : MessageQueue) : side * Z :=
  (Producer,
   if is_empty (counter_of (producer q)) (counter_of (consumer q))
   then counter_of (producer q) else u32 (-1)).

(** [queue_reset], given whether its two guards acquire their locks, and nobody else runs. *)
Definition queue_reset (producerGuard consumerGuard : bool) (q : MessageQueue) : MessageQueue * Z :=
  (if producerGuard && consumerGuard
   then mkQueue (with_counter (producer q) 0) (with_counter (consumer q) 0) (buffer q)
   else q, - ETIMEDOUT).

End Queue.

Arguments MessageQueue E : clear implicits.
Arguments call E : clear implicits.
Arguments queue_point E : clear implicits.
