(* ===== verification/QueueCounters.v ===== *)
(** * The arithmetic of message queues

    The counters of [MessageQueue] and the words that hold them: the counters are the numbers
    of elements sent and received modulo twice the size of the queue, and the operations on the
    high bits of a word leave its counter alone. *)

From S2P Require Import Prelude Machine MessageQueue.

(** ** Words *)

Lemma counter_of_mod w : counter_of w = w mod 2 ^ 29.
Proof. unfold counter_of. change (u32 (Z.lnot reserved_bits)) with (Z.ones 29). by apply Z.land_ones. Qed.

Lemma counter_of_testbit w i :
  0 <= i -> Z.testbit (counter_of w) i = Z.testbit w i && (i <? 29).
Proof. intros Hi. rewrite counter_of_mod. apply (wrap_testbit 29); lia. Qed.

Lemma has_testbit w i : 0 <= i -> has w (2 ^ i) = Z.testbit w i.
Proof.
  intros Hi. unfold has. rewrite <- Z.shiftl_1_l.
  destruct (Z.testbit w i) eqn:Hb.
  - apply negb_true_iff, Z.eqb_neq. intros Hz.
    assert (Z.testbit (Z.land w (Z.shiftl 1 i)) i = false) as Hf by (rewrite Hz; apply Z.bits_0).
    rewrite Z.land_spec, Hb, Z.shiftl_spec, Z.sub_diag in Hf by done. discriminate.
  - apply negb_false_iff, Z.eqb_eq. apply bits_eq. intros j Hj.
    rewrite Z.land_spec, Z.bits_0, Z.shiftl_1_l, Z.pow2_bits_eqb by done.
    destruct (Z.eqb_spec i j) as [<-|]; [by rewrite Hb|by rewrite andb_false_r].
Qed.

Lemma reserved_testbit i : 0 <= i -> Z.testbit reserved_bits i = (29 <=? i) && (i <? 32).
Proof.
  intros Hi. unfold reserved_bits, LockBit, WaitersBit, LockedInDestructModeBit.
  rewrite !Z.lor_spec, !Z.pow2_bits_eqb by done.
  destruct (Z.leb_spec 29 i), (Z.ltb_spec i 32), (Z.eqb_spec 31 i), (Z.eqb_spec 30 i),
    (Z.eqb_spec 29 i); (done || lia).
Qed.

Lemma counter_of_lor w i : 29 <= i -> counter_of (Z.lor w (2 ^ i)) = counter_of w.
Proof.
  intros Hi. apply bits_eq. intros j Hj.
  rewrite !counter_of_testbit, Z.lor_spec, Z.pow2_bits_eqb by lia.
  destruct (Z.eqb_spec i j) as [->|]; [|by rewrite orb_false_r].
  by rewrite (proj2 (Z.ltb_ge j 29)), !andb_false_r by lia.
Qed.

Lemma lock_lor w i : 0 <= i -> i <> 31 -> has (Z.lor w (2 ^ i)) LockBit = has w LockBit.
Proof.
  intros Hi Hne. unfold LockBit. rewrite !(has_testbit _ 31), Z.lor_spec, Z.pow2_bits_eqb by lia.
  by rewrite (proj2 (Z.eqb_neq i 31)), orb_false_r by done.
Qed.

Lemma unlocked_testbit w i : 0 <= i -> 
  Z.testbit (Z.land w (u32 (Z.lnot LockBit))) i = Z.testbit w i && (i <? 31).
Proof.
  intros Hi. change (u32 (Z.lnot LockBit)) with (Z.ones 31). rewrite Z.land_ones by done.
  apply (wrap_testbit 31); lia.
Qed.

Lemma counter_of_unlocked w : counter_of (Z.land w (u32 (Z.lnot LockBit))) = counter_of w.
Proof.
  apply bits_eq. intros j Hj. rewrite !counter_of_testbit, unlocked_testbit by done.
  destruct (Z.testbit w j); [|done]. destruct (Z.ltb_spec j 29); [|by rewrite !andb_false_r].
  by rewrite (proj2 (Z.ltb_lt j 31)) by lia.
Qed.

Lemma lock_unlocked w : has (Z.land w (u32 (Z.lnot LockBit))) LockBit = false.
Proof. unfold LockBit at 2. rewrite (has_testbit _ 31), unlocked_testbit by done. by rewrite andb_false_r. Qed.

Lemma with_counter_testbit w c i :
  c in_u 29 -> 0 <= i ->
  Z.testbit (with_counter w c) i =
  (Z.testbit w i && ((29 <=? i) && (i <? 32))) || (Z.testbit c i && (i <? 29)).
Proof.
  intros Hc Hi. unfold with_counter. rewrite Z.lor_spec, Z.land_spec, reserved_testbit by done.
  f_equal. destruct (Z.ltb_spec i 29); [by rewrite andb_true_r|].
  by rewrite (testbit_high 29 c) by lia.
Qed.

Lemma counter_of_with w c : c in_u 29 -> counter_of (with_counter w c) = c.
Proof.
  intros Hc. apply bits_eq. intros j Hj. rewrite counter_of_testbit, with_counter_testbit by done.
  destruct (Z.ltb_spec j 29).
  - by rewrite (proj2 (Z.leb_gt 29 j)), !andb_false_r, !andb_true_r by lia.
  - by rewrite !andb_false_r, (testbit_high 29 c) by lia.
Qed.

Lemma lock_with w c : c in_u 29 -> has (with_counter w c) LockBit = has w LockBit.
Proof.
  intros Hc. unfold LockBit. rewrite !(has_testbit _ 31), with_counter_testbit by done.
  by rewrite !andb_false_r, andb_true_r, orb_false_r.
Qed.

(** ** Counters *)

Section Counters.
Context (N : Z) (HN : 0 < N < 2 ^ 28).

(** The counter after [a] elements. *)
Definition ctr (a : Z) : Z := a mod (2 * N).

Lemma ctr_bound a : 0 <= ctr a < 2 * N.
Proof. apply Z.mod_pos_bound. lia. Qed.

Lemma ctr_u29 a : ctr a in_u 29.
Proof. pose proof (ctr_bound a). lia. Qed.

(** The counter a distance ahead, wrapped at most once. *)
Lemma ctr_ahead b d :
  0 <= d <= N -> ctr (b + d) = ctr b + d \/ ctr (b + d) = ctr b + d - 2 * N.
Proof.
  intros Hd. unfold ctr. pose proof (ctr_bound b) as Hb. unfold ctr in Hb.
  rewrite Zplus_mod, (Z.mod_small d) by lia.
  destruct (Z.lt_ge_cases (b mod (2 * N) + d) (2 * N)); [left; apply Z.mod_small; lia|right].
  rewrite <- (Z_mod_plus_full _ (-1)). rewrite Z.mod_small; lia.
Qed.

Lemma items_remaining_ctr a b : 0 <= a - b <= N -> items_remaining N (ctr a) (ctr b) = a - b.
Proof.
  intros Hd. pose proof (ctr_bound a). pose proof (ctr_bound b).
  replace a with (b + (a - b)) at 1 by lia. unfold items_remaining, u32.
  destruct (ctr_ahead b (a - b) Hd) as [He|He]; rewrite He in *;
    replace (b + (a - b)) with a in He by lia; rewrite He in *.
  - rewrite (proj2 (Z.ltb_ge _ _)) by lia. rewrite wrap_small; lia.
  - rewrite (proj2 (Z.ltb_lt _ _)) by lia. rewrite !wrap_small; rewrite ?wrap_small; lia.
Qed.

Lemma is_full_ctr a b : 0 <= a - b <= N -> is_full N (ctr a) (ctr b) = (a - b =? N).
Proof. intros Hd. unfold is_full. by rewrite items_remaining_ctr. Qed.

Lemma is_empty_ctr a b : 0 <= a - b <= N -> is_empty (ctr a) (ctr b) = (a =? b).
Proof.
  intros Hd. unfold is_empty. pose proof (ctr_bound b).
  destruct (Z.eqb_spec a b) as [->|Hne]; [apply Z.eqb_refl|]. apply Z.eqb_neq. intros He.
  replace a with (b + (a - b)) in He by lia. destruct (ctr_ahead b (a - b) Hd); lia.
Qed.

Lemma index_ctr a : 0 <= a -> index_at_counter N (ctr a) = a mod N.
Proof.
  intros Ha. unfold index_at_counter. pose proof (ctr_bound a).
  assert (a mod N = ctr a mod N) as ->.
  { unfold ctr. rewrite Z.mul_comm, Z.rem_mul_r by lia. rewrite Z.mul_comm, Z_mod_plus_full.
    by rewrite Z.mod_mod by lia. }
  destruct (Z.leb_spec N (ctr a)); [|by rewrite Z.mod_small by lia].
  rewrite <- (Z_mod_plus_full _ (-1)), Z.mod_small; lia.
Qed.

Lemma add_and_wrap_ctr a n : 0 <= n <= N -> add_and_wrap N (ctr a) n = ctr (a + n).
Proof.
  intros Hn. pose proof (ctr_bound a). pose proof (ctr_bound (a + n)). unfold add_and_wrap, u32.
  rewrite !(wrap_small 32) by (rewrite ?(wrap_small 32); lia).
  destruct (ctr_ahead a n Hn); destruct (Z.leb_spec (2 * N) (ctr a + n));
    rewrite ?(wrap_small 32); lia.
Qed.

Lemma increment_and_wrap_ctr a : increment_and_wrap N (ctr a) = ctr (a + 1).
Proof.
  pose proof (ctr_bound a). pose proof (ctr_bound (a + 1)). unfold increment_and_wrap, u32.
  rewrite !(wrap_small 32) by lia.
  destruct (ctr_ahead a 1 ltac:(lia)); destruct (Z.eqb_spec (2 * N) (ctr a + 1)); lia.
Qed.

(** Slots wrap at most once over the content of the queue. *)
Lemma slot_ahead b d :
  0 <= b -> 0 <= d <= N -> (b + d) mod N = b mod N + d \/ (b + d) mod N = b mod N + d - N \/
    (d = N /\ (b + d) mod N = b mod N).
Proof.
  intros Hb Hd. pose proof (Z.mod_pos_bound b N ltac:(lia)).
  destruct (decide (d = N)) as [->|].
  { right; right. split; [done|]. rewrite <- (Z.mul_1_l N) at 1. apply Z_mod_plus_full. }
  rewrite Zplus_mod, (Z.mod_small d) by lia.
  destruct (Z.lt_ge_cases (b mod N + d) N); [left; apply Z.mod_small; lia|right; left].
  rewrite <- (Z_mod_plus_full _ (-1)). rewrite Z.mod_small; lia.
Qed.

(** What a sender copies fits in the free slots, before the end of the buffer. *)
Lemma elements_to_send a b count :
  0 <= b -> 0 <= a - b < N -> 0 < count ->
  let n := elementsToCopy N (ctr a) (ctr b) count in
  0 < n <= count /\ n <= N - (a - b) /\ a mod N + n <= N.
Proof.
  intros Hb Hd Hc. unfold elementsToCopy. rewrite !index_ctr by lia.
  pose proof (Z.mod_pos_bound b N ltac:(lia)). pose proof (Z.mod_pos_bound a N ltac:(lia)).
  destruct (slot_ahead b (a - b) Hb ltac:(lia)) as [He|[He|[He _]]]; [| |lia];
    replace (b + (a - b)) with a in He by lia; destruct (Z.leb_spec (b mod N) (a mod N)); lia.
Qed.

(** What a receiver copies is in the queue, before the end of the buffer. *)
Lemma elements_to_receive a b count :
  0 <= b -> 0 < a - b <= N -> 0 < count ->
  let n := elementsToCopy N (ctr b) (ctr a) count in
  0 < n <= count /\ n <= a - b /\ b mod N + n <= N.
Proof.
  intros Hb Hd Hc. unfold elementsToCopy. rewrite !index_ctr by lia.
  pose proof (Z.mod_pos_bound b N ltac:(lia)). pose proof (Z.mod_pos_bound a N ltac:(lia)).
  destruct (slot_ahead b (a - b) Hb ltac:(lia)) as [He|[He|[He1 He]]];
    replace (b + (a - b)) with a in He by lia; destruct (Z.leb_spec (a mod N) (b mod N)); lia.
Qed.

Lemma slot_in_chunk a n i : 0 <= a -> 0 <= i < n -> a mod N + n <= N -> (a + i) mod N = a mod N + i.
Proof.
  intros Ha Hi Hn. pose proof (Z.mod_pos_bound a N ltac:(lia)).
  pose proof (Z.mod_pos_bound (a + i) N ltac:(lia)).
  destruct (slot_ahead a i Ha ltac:(lia)) as [|[|[]]]; lia.
Qed.

(** Two positions less than the size apart have different slots. *)
Lemma slot_differs i j : 0 <= i -> 0 < j - i < N -> i mod N <> j mod N.
Proof.
  intros Hi Hd He. pose proof (Z.mod_pos_bound i N ltac:(lia)).
  replace j with (i + (j - i)) in He by lia.
  destruct (slot_ahead i (j - i) Hi ltac:(lia)) as [|[|[]]]; lia.
Qed.

End Counters.

(** ** Sizes *)

Lemma no_reserved_bits n :
  n in_u 32 -> Z.land (Z.lor n (u32 (n * 2))) reserved_bits = 0 -> n < 2 ^ 28.
Proof.
  intros Hn Hz.
  assert (forall i, 28 <= i < 32 -> Z.testbit n i = false) as Hb.
  { intros i Hi.
    assert (forall j, 29 <= j < 32 -> Z.testbit (Z.lor n (u32 (n * 2))) j = false) as Hj.
    { intros j Hj. pose proof (f_equal (fun z => Z.testbit z j) Hz) as Ht. cbn beta in Ht.
      rewrite Z.land_spec, reserved_testbit, Z.bits_0 in Ht by lia.
      rewrite (proj2 (Z.leb_le 29 j)), (proj2 (Z.ltb_lt j 32)), andb_true_r in Ht by lia. exact Ht. }
    destruct (decide (i = 28)) as [->|].
    - specialize (Hj 29 ltac:(lia)). rewrite Z.lor_spec in Hj. apply orb_false_iff in Hj as [_ Hj].
      unfold u32 in Hj. rewrite wrap_testbit, andb_true_r in Hj by lia.
      change 29 with (Z.succ 28) in Hj. by rewrite Z.mul_comm, Z.double_bits_succ in Hj.
    - specialize (Hj i ltac:(lia)). rewrite Z.lor_spec in Hj. by apply orb_false_iff in Hj as [? _]. }
  assert (n = wrap 28 n) as ->; [|apply (wrap_bound 28); lia].
  apply bits_eq. intros i Hi. rewrite wrap_testbit by lia.
  destruct (Z.ltb_spec i 28); [by rewrite andb_true_r|]. rewrite andb_false_r.
  destruct (Z.lt_ge_cases i 32); [by apply Hb; lia|]. by apply (testbit_high 32).
Qed.

(** The sizes that [queue_allocation_size] accepts are those for which the queue works: the
    result is the exact size of the header and the elements, and the counters, which run to
    twice the number of elements, stay below the lock's bits, so that the operations on them
    are exact: with [a] elements sent and [b] received, [items_remaining] is [a - b], the queue
    is full and empty when it should be, the index of a counter is its slot, and adding to a
    counter is sending or receiving that many elements. *)
Theorem queue_size_accepted elementSize elementCount a b n :
  elementSize in_u 32 -> 0 < elementCount < 2 ^ 32 ->
  0 <= queue_allocation_size elementSize elementCount ->
  0 <= b -> 0 <= a - b <= elementCount -> 0 <= n <= elementCount ->
  let c := ctr elementCount in
  queue_allocation_size elementSize elementCount = sizeof_MessageQueue + elementCount * elementSize /\
  c a in_u 29 /\
  items_remaining elementCount (c a) (c b) = a - b /\
  is_full elementCount (c a) (c b) = (a - b =? elementCount) /\
  is_empty (c a) (c b) = (a =? b) /\
  index_at_counter elementCount (c a) = a mod elementCount /\
  add_and_wrap elementCount (c a) n = c (a + n) /\
  increment_and_wrap elementCount (c a) = c (a + 1).
Proof.
  intros Hs Hc Hq Hb Hab Hn c. unfold queue_allocation_size in *.
  destruct (Z.leb_spec (2 ^ 32) (elementCount * elementSize)) as [H1|H1];
    [unfold EINVAL in Hq; cbn [orb] in Hq; lia|].
  destruct (Z.leb_spec (2 ^ 32) (sizeof_MessageQueue + u32 (elementCount * elementSize))) as [H2|H2];
    [unfold EINVAL in Hq; cbn [orb] in Hq; lia|]. cbn [orb] in *.
  destruct (Z.eqb_spec (Z.land (Z.lor elementCount (u32 (elementCount * 2))) reserved_bits) 0)
    as [H3|H3]; [|unfold EINVAL in Hq; cbn [negb] in Hq; lia]. cbn [negb] in *.
  apply no_reserved_bits in H3; [|lia].
  unfold u32 in *. rewrite (wrap_small 32) in * by nia.
  assert (0 < elementCount < 2 ^ 28) as HN by lia.
  split.
  { unfold s32 in *. rewrite signed_cases in * by (unfold sizeof_MessageQueue in *; nia).
    destruct (Z.ltb_spec (sizeof_MessageQueue + elementCount * elementSize) (2 ^ (32 - 1))); [done|].
    unfold sizeof_MessageQueue in *. nia. }
  split; [by apply ctr_u29|]. split; [by apply items_remaining_ctr|].
  split; [by apply is_full_ctr|]. split; [by apply (is_empty_ctr elementCount)|].
  split; [apply index_ctr; lia|]. split; [by apply add_and_wrap_ctr|by apply increment_and_wrap_ctr].
Qed.

Lemma queue_size_accepted_witness :
  queue_allocation_size 4 10 = 56 /\ items_remaining 10 (ctr 10 25) (ctr 10 17) = 8 /\
  add_and_wrap 10 (ctr 10 25) 7 = ctr 10 32.
Proof.
  destruct (queue_size_accepted 4 10 25 17 7) as (H1 & _ & H2 & _ & _ & _ & H3 & _);
    [lia|lia|by vm_compute|lia|lia|lia|].
  split; [exact H1|split; [exact H2|exact H3]].
Defined.
