(* ===== verification/QueueFifo.v ===== *)
(** * Message queues with one sender and one receiver

    The invariant of the machine of [MessageQueue] when at most one thread sends and at most one
    receives: the counters are the numbers of elements sent and received, the slots between
    them hold the elements in transit, and a copy under way touches none of them. *)

From S2P Require Import Prelude Machine MessageQueue QueueCounters.

Section Fifo.
Context {E : Type} (N : Z) (HN : 0 < N < 2 ^ 28) (client : nat -> side -> bool).

#[local] Notation qpoint := (queue_point E).
#[local] Notation qstatus := (status (queue_point E) side).
#[local] Notation qconfig := (config (MessageQueue E) (queue_point E) side).
#[local] Notation machine := (queue_machine N client).
#[local] Notation ctr := (ctr N).

Definition point_of (st : qstatus) : qpoint :=
  match st with Running p => p | Asleep _ p => p end.

Definition call_at (p : qpoint) : option (call E) :=
  match p with
  | QOut _ _ | QStop _ | QStopTest _ | QStopWake _ => None
  | QLock k | QMark k _ | QLockWait k _ | QLockWaiting k _ | QTake k _ | QLoop k | QLoadOwn k _
  | QLoad k _ | QWait k _ _ | QWaiting k _ | QCopy k _ _ _ | QStore k _ _ | QStoreCas k _ _ _
  | QCheck k _ | QUnlock k | QUnlockSwap k _ | QUnlockWake k | QWake k => Some k
  end.

(** The points between the acquisition and the release of the lock. *)
Definition inside (s : side) (p : qpoint) : bool :=
  match p with
  | QLoop k | QLoadOwn k _ | QLoad k _ | QWait k _ _ | QWaiting k _ | QCopy k _ _ _
  | QStore k _ _ | QStoreCas k _ _ _ | QCheck k _ | QUnlock k | QUnlockSwap k _ =>
      bool_decide (role k = s)
  | _ => false
  end.

(** The number of elements sent ([A]) or received ([B]). *)
Definition mark (A B : list E) (r : side) : Z :=
  Z.of_nat (length (match r with Producer => A | Consumer => B end)).

Definition slot (i : Z) : nat := Z.to_nat (i mod N).

Definition good (k : call E) : Prop :=
  0 <= count k /\ 0 <= ret k /\ (role k = Consumer -> Z.of_nat (length (dst k)) = ret k).

Definition room (A B : list E) (r : side) (n : Z) : Prop :=
  n <= match r with
       | Producer => N - (mark A B Producer - mark A B Consumer)
       | Consumer => mark A B Producer - mark A B Consumer
       end.

(** [i] elements are copied, the call having transferred [base] before. *)
Definition copied (A B : list E) (q : MessageQueue E) (k : call E) (base i : Z) : Prop :=
  match role k with
  | Producer => forall j, 0 <= j < i -> exists e,
      src k !! Z.to_nat (base + j) = Some e /\ buffer q !! slot (mark A B Producer + j) = Some e
  | Consumer => exists d, Z.of_nat (length d) = base /\
      dst k = d ++ take (Z.to_nat i) (drop (length B) A)
  end.

Definition local (A B : list E) (q : MessageQueue E) (p : qpoint) : Prop :=
  match p with
  | QMark _ _ | QLockWait _ _ | QLockWaiting _ _ => False
  | QLock k => good k
  | QTake k value => good k /\ has value LockBit = false
  | QLoop k => good k /\ 0 < count k
  | QLoadOwn k value => good k /\ 0 < count k /\ role k = Consumer /\
      exists a, mark A B Consumer <= a <= mark A B Producer /\ counter_of value = ctr a
  | QLoad k own | QWait k own _ | QWaiting k own =>
      good k /\ 0 < count k /\ own = ctr (mark A B (role k))
  | QCopy k own n i =>
      0 <= count k /\ 0 <= ret k /\ own = ctr (mark A B (role k)) /\ 0 < n <= count k /\
      0 <= i <= n /\ room A B (role k) n /\ mark A B (role k) mod N + n <= N /\
      copied A B q k (ret k) i
  | QStore k own n | QStoreCas k own n _ =>
      good k /\ own = ctr (mark A B (role k)) /\ 0 < n <= ret k /\ room A B (role k) n /\
      mark A B (role k) mod N + n <= N /\ copied A B q k (ret k - n) n
  | QCheck k _ => good k
  | QUnlockSwap k value => counter_of value = counter_of (word_at q (role k))
  | _ => True
  end.

Record data_ok (A B : list E) (q : MessageQueue E) : Prop := mkDataOk {
  do_prefix : B `prefix_of` A;
  do_room : mark A B Producer - mark A B Consumer <= N;
  do_counter s : counter_of (word_at q s) = ctr (mark A B s);
  do_buffer : Z.of_nat (length (buffer q)) = N;
  do_live j e : (length B <= j)%nat -> A !! j = Some e -> buffer q !! slot (Z.of_nat j) = Some e }.

Record queue_ok (A B : list E) (c : qconfig) : Prop := mkQueueOk {
  qo_data : data_ok A B (shared c);
  qo_lock s : has (word_at (shared c) s) LockBit = true ->
    someone (fun st => inside s (point_of st) = true) (threads c);
  qo_client t st k : threads c !! t = Some st -> call_at (point_of st) = Some k ->
    client t (role k) = true;
  qo_local t st : threads c !! t = Some st -> local A B (shared c) (point_of st) }.

(** What the other threads in role [r] rely on. *)
Definition keeps (A B : list E) (q : MessageQueue E) (A' B' : list E) (q' : MessageQueue E)
    (r : side) : Prop :=
  counter_of (word_at q' r) = counter_of (word_at q r) /\
  match r with
  | Producer => A' = A /\ buffer q' = buffer q /\ mark A B Consumer <= mark A' B' Consumer
  | Consumer => B' = B /\ A `prefix_of` A'
  end.

Lemma keeps_refl A B q q' :
  buffer q' = buffer q -> (forall s, counter_of (word_at q' s) = counter_of (word_at q s)) ->
  forall r, keeps A B q A B q' r.
Proof. intros Hb Hc [|]; (split; [apply Hc|]); [|by split]. splits; [done|done|lia]. Qed.

Lemma mark_prefix (A B A' B' : list E) : A `prefix_of` A' -> mark A B Producer <= mark A' B' Producer.
Proof. intros Hp%prefix_length. unfold mark. lia. Qed.

Lemma mark_order (A B : list E) : B `prefix_of` A -> 0 <= mark A B Consumer <= mark A B Producer.
Proof. intros Hp%prefix_length. unfold mark. lia. Qed.

Lemma keeps_mark A B q A' B' q' r : keeps A B q A' B' q' r -> mark A' B' r = mark A B r.
Proof. intros [_ Hk]. destruct r; [by destruct Hk as [-> _]|by destruct Hk as [-> _]]. Qed.

Lemma keeps_room A B q A' B' q' r n :
  keeps A B q A' B' q' r -> room A B r n -> room A' B' r n.
Proof.
  intros Hk. unfold room. destruct r.
  - destruct Hk as (_ & -> & _ & Hl). unfold mark in *. lia.
  - destruct Hk as (_ & -> & Hp%prefix_length). unfold mark. lia.
Qed.

Lemma take_prefix (A A' : list E) b i :
  A `prefix_of` A' -> Z.of_nat b + i <= Z.of_nat (length A) -> 0 <= i ->
  take (Z.to_nat i) (drop b A') = take (Z.to_nat i) (drop b A).
Proof.
  intros [R ->] Hi Hi0. rewrite drop_app_le, take_app_le; [done| |lia].
  rewrite length_drop. lia.
Qed.

Lemma keeps_copied A B q A' B' q' k base i :
  keeps A B q A' B' q' (role k) -> 0 <= i -> room A B (role k) i ->
  copied A B q k base i -> copied A' B' q' k base i.
Proof.
  unfold copied, room. intros [_ Hk] Hi Hr. destruct (role k).
  - destruct Hk as (-> & -> & _). done.
  - destruct Hk as (-> & Hp). intros (d & Hd & ->). exists d. split; [done|]. f_equal. symmetry.
    apply take_prefix; [done| |done]. unfold mark in Hr. lia.
Qed.

Lemma keeps_local A B q A' B' q' p :
  B `prefix_of` A ->
  (forall k, call_at p = Some k -> keeps A B q A' B' q' (role k)) ->
  local A B q p -> local A' B' q' p.
Proof.
  intros Hpre Hk. destruct p as [r d|k|k v|k v|k v|k v|k|k v|k own|k own v|k own|k own n i|k own n|k own n old
    |k own|k|k v|k|k|s|s|s]; cbn; try done; specialize (Hk k eq_refl);
    rewrite ?(keeps_mark _ _ _ _ _ _ _ Hk); try done.
  - intros (? & ? & Hr & a & Ha & ?). splits; try done. exists a. split; [|done].
    rewrite Hr in Hk. destruct Hk as (_ & -> & Hp). pose proof (mark_prefix A B A' B Hp).
    unfold mark in *. lia.
  - intros (? & ? & ? & ? & ? & Hr & ? & Hc). splits; try done; try lia.
    + by eapply keeps_room.
    + eapply keeps_copied; [done|lia| |done]. unfold room in *. lia.
  - intros (? & ? & ? & Hr & ? & Hc). splits; try done; try lia.
    + by eapply keeps_room.
    + eapply keeps_copied; [done|lia|done|done].
  - intros (? & ? & ? & Hr & ? & Hc). splits; try done; try lia.
    + by eapply keeps_room.
    + eapply keeps_copied; [done|lia|done|done].
  - intros ->. by destruct Hk as [-> _].
Qed.

Context (client_unique : forall t u s, client t s = true -> client u s = true -> t = u).

Lemma queue_update A B A' B' c q' t st0 st :
  queue_ok A B c -> threads c !! t = Some st0 -> data_ok A' B' q' ->
  (forall k, call_at (point_of st) = Some k -> client t (role k) = true) ->
  (forall r, client t r = true \/ keeps A B (shared c) A' B' q' r) ->
  (forall s, has (word_at q' s) LockBit = true ->
     has (word_at (shared c) s) LockBit = true \/ inside s (point_of st) = true) ->
  (forall s, inside s (point_of st0) = true ->
     inside s (point_of st) = true \/ has (word_at q' s) LockBit = false) ->
  local A' B' q' (point_of st) ->
  queue_ok A' B' (mkConfig q' (<[t := st]> (threads c))).
Proof.
  intros [Hd Hl Hc Hlo] Ht Hd' Hcl Hk Hlk Hin Hst. constructor; cbn [shared threads]; [done|..].
  - intros s Hs. destruct (inside s (point_of st)) eqn:Hi; [by eapply someone_here|].
    destruct (Hlk s Hs) as [Hs'|?]; [|congruence].
    eapply someone_keep; [done| |by apply Hl]. intros H0. destruct (Hin s H0); congruence.
  - intros u st1 k [[-> ->]|[_ Hu]]%lookup_stepped; [apply Hcl|eauto].
  - intros u st1 [[-> ->]|[Hne Hu]]%lookup_stepped; [done|].
    apply (keeps_local A B (shared c)); [apply Hd| |by apply (Hlo u st1)]. intros k Hk1.
    destruct (Hk (role k)) as [Ht1|]; [|done]. destruct Hne.
    apply (client_unique u t (role k)); [by eapply (Hc u st1)|done].
Qed.

(** A step that leaves counters and buffer alone. *)
Lemma queue_silent A B c q' t st0 st :
  queue_ok A B c -> threads c !! t = Some st0 ->
  buffer q' = buffer (shared c) ->
  (forall s, counter_of (word_at q' s) = counter_of (word_at (shared c) s)) ->
  (forall k, call_at (point_of st) = Some k ->
     exists k0, call_at (point_of st0) = Some k0 /\ role k0 = role k) ->
  (forall s, has (word_at q' s) LockBit = true ->
     has (word_at (shared c) s) LockBit = true \/ inside s (point_of st) = true) ->
  (forall s, inside s (point_of st0) = true ->
     inside s (point_of st) = true \/ has (word_at q' s) LockBit = false) ->
  local A B q' (point_of st) ->
  queue_ok A B (mkConfig q' (<[t := st]> (threads c))).
Proof.
  intros Hok Ht Hb Hc Hcl Hlk Hin Hst.
  apply (queue_update A B A B c q' t st0 st); try done.
  - destruct (qo_data _ _ _ Hok) as [H1 H2 H3 H4 H5]. constructor; try done; rewrite ?Hb; try done.
    intros s. by rewrite Hc.
  - intros k Hk. destruct (Hcl k Hk) as (k0 & Hk0 & <-). by eapply qo_client.
  - intros r. right. by apply keeps_refl.
Qed.

(** The same when the words stay as well. *)
Lemma queue_stay A B c t st0 st :
  queue_ok A B c -> threads c !! t = Some st0 ->
  (forall k, call_at (point_of st) = Some k ->
     exists k0, call_at (point_of st0) = Some k0 /\ role k0 = role k) ->
  (forall s, inside s (point_of st0) = true -> inside s (point_of st) = true) ->
  local A B (shared c) (point_of st) ->
  queue_ok A B (mkConfig (shared c) (<[t := st]> (threads c))).
Proof. intros Hok Ht Hcl Hin Hst. eapply queue_silent; try done; by auto. Qed.

(** Nobody else holds the lock of a thread that asks for it. *)
Lemma lock_free A B c t p k :
  queue_ok A B c -> threads c !! t = Some (Running p) -> call_at p = Some k ->
  inside (role k) p = false -> has (word_at (shared c) (role k)) LockBit = false.
Proof.
  intros Hok Ht Hk Hi. destruct (has _ _) eqn:Hl; [|done]. exfalso.
  destruct (qo_lock _ _ _ Hok _ Hl) as (u & st & Hu & Hin).
  assert (exists k', call_at (point_of st) = Some k' /\ role k' = role k) as (k' & Hk' & Hr).
  { destruct (point_of st); try discriminate; apply bool_decide_eq_true in Hin; by eauto. }
  assert (u = t) as ->.
  { apply (client_unique u t (role k)); [rewrite <- Hr|]; by eapply qo_client. }
  rewrite Ht in Hu. injection Hu as <-. cbn in Hin. congruence.
Qed.

Lemma set_word_at (q : MessageQueue E) s s' w :
  word_at (set_word q s w) s' = if decide (s' = s) then w else word_at q s'.
Proof. by destruct s, s'. Qed.

Lemma set_word_buffer (q : MessageQueue E) s w : buffer (set_word q s w) = buffer q.
Proof. by destruct s. Qed.

Lemma local_loop A B q k : good k -> local A B q (loop k).
Proof. intros Hg. unfold loop. destruct (Z.ltb_spec 0 (count k)); done. Qed.

Lemma call_loop (k : call E) : call_at (loop k) = Some k.
Proof. unfold loop. by case_match. Qed.

Lemma inside_loop (k : call E) s : inside s (loop k) = bool_decide (role k = s).
Proof. unfold loop. by case_match. Qed.

(** The acquisition of the lock. *)
Lemma queue_lock_step A B c t p k p' :
  queue_ok A B c -> threads c !! t = Some (Running p) -> call_at p = Some k ->
  (forall s, inside s p = false) -> good k ->
  (p' = QLock k \/ p' = QOut (- ETIMEDOUT) (dst k) \/
   exists v, p' = QTake k v /\ has v LockBit = false) ->
  queue_ok A B (mkConfig (shared c) (<[t := Running p']> (threads c))).
Proof.
  intros Hok Ht Hk Hi Hg Hp. eapply queue_stay; try done; cbn.
  - intros k' Hk'. exists k. split; [done|]. by destruct Hp as [->|[->|(v & -> & _)]]; cbn in Hk'; simplify_eq.
  - intros s. by rewrite Hi.
  - by destruct Hp as [->|[->|(v & -> & ?)]].
Qed.

Lemma queue_take A B c t k v :
  queue_ok A B c -> threads c !! t = Some (Running (QTake k v)) -> word_at (shared c) (role k) = v ->
  queue_ok A B (mkConfig (set_word (shared c) (role k) (Z.lor v LockBit))
    (<[t := Running (loop k)]> (threads c))).
Proof.
  intros Hok Ht Hv. destruct (qo_local _ _ _ Hok _ _ Ht) as [Hg _].
  eapply queue_silent; try done; cbn [point_of].
  - by destruct (role k).
  - intros s. rewrite set_word_at. case_decide as Hs; [|done]. subst s v.
    unfold LockBit. by rewrite counter_of_lor.
  - intros k'. rewrite call_loop. intros [= <-]. by exists k.
  - intros s. rewrite set_word_at, inside_loop. case_decide as Hs; [|by left].
    right. by apply bool_decide_eq_true.
  - by apply local_loop.
Qed.

(** The test of the counters. *)
Lemma test_blocked_local A B q k own value :
  data_ok A B q -> good k -> 0 < count k -> own = ctr (mark A B (role k)) ->
  (role k = Producer -> counter_of value = ctr (mark A B Consumer)) ->
  (role k = Consumer -> exists a, mark A B Consumer <= a <= mark A B Producer /\
     counter_of value = ctr a) ->
  local A B q (test_blocked N k own value).
Proof.
  intros Hd (Hg1 & Hg2 & Hg3) Hc Hown Hp Hco. unfold test_blocked.
  pose proof (mark_order _ _ (do_prefix _ _ _ Hd)) as Hm. pose proof (do_room _ _ _ Hd) as Hr.
  destruct (blocked N (role k) own (counter_of value)) eqn:Hb; [done|]. cbn.
  unfold blocked in Hb. unfold room, copied. destruct (role k) eqn:Hro.
  - rewrite (Hp eq_refl), Hown, is_full_ctr in Hb by lia. rewrite (Hp eq_refl), Hown.
    apply Z.eqb_neq in Hb.
    destruct (elements_to_send N HN (mark A B Producer) (mark A B Consumer) (count k))
      as (H1 & H2 & H3); [lia..|]. splits; try done; try lia.
  - destruct (Hco eq_refl) as (a & Ha & Hv). rewrite Hv, Hown, is_empty_ctr in Hb by lia.
    rewrite Hv, Hown. apply Z.eqb_neq in Hb.
    destruct (elements_to_receive N HN a (mark A B Consumer) (count k)) as (H1 & H2 & H3); [lia..|].
    splits; try done; try lia. exists (dst k). split; [by apply Hg3|]. by rewrite app_nil_r.
Qed.

Lemma call_test_blocked k own value : call_at (test_blocked (E:=E) N k own value) = Some k.
Proof. unfold test_blocked. by case_match. Qed.

Lemma inside_test_blocked k own value s :
  inside s (test_blocked (E:=E) N k own value) = bool_decide (role k = s).
Proof. unfold test_blocked. by case_match. Qed.

(** The slot of the [i]th element of a copy. *)
Lemma copy_slot A B r n i :
  0 <= i < n -> mark A B r mod N + n <= N ->
  Z.to_nat (index_at_counter N (ctr (mark A B r)) + i) = slot (mark A B r + i).
Proof.
  intros Hi Hn. unfold slot. rewrite index_ctr, (slot_in_chunk N HN _ n) by (done || unfold mark; lia).
  done.
Qed.

Lemma live_slot A B q j :
  data_ok A B q -> mark A B Consumer <= j < mark A B Producer ->
  exists e, A !! Z.to_nat j = Some e /\ buffer q !! slot j = Some e.
Proof.
  intros Hd Hj. unfold mark in Hj.
  destruct (lookup_lt_is_Some_2 A (Z.to_nat j)) as [e He]; [lia|]. exists e. split; [done|].
  replace j with (Z.of_nat (Z.to_nat j)) at 1 by lia. eapply do_live; [done|lia|done].
Qed.

(** Copying one element into a free slot. *)
Lemma queue_copy_send A B c t k own n i e :
  queue_ok A B c -> threads c !! t = Some (Running (QCopy k own n i)) -> role k = Producer ->
  i < n -> src k !! Z.to_nat (ret k + i) = Some e ->
  queue_ok A B (mkConfig
    (mkQueue (producer (shared c)) (consumer (shared c))
       (<[Z.to_nat (index_at_counter N own + i) := e]> (buffer (shared c))))
    (<[t := Running (QCopy k own n (i + 1))]> (threads c))).
Proof.
  intros Hok Ht Hr Hi He. pose proof (qo_data _ _ _ Hok) as Hd.
  destruct (qo_local _ _ _ Hok _ _ Ht) as (H1 & H2 & Hown & H4 & H5 & Hro & Hend & Hc).
  rewrite Hr in *. pose proof (mark_order _ _ (do_prefix _ _ _ Hd)) as Hm.
  unfold copied in Hc. rewrite Hr in Hc. unfold room in Hro. rewrite Hown, (copy_slot _ _ _ n) by lia.
  assert (slot (mark A B Producer + i) < length (buffer (shared c)))%nat as Hlt.
  { pose proof (do_buffer _ _ _ Hd). unfold slot.
    pose proof (Z.mod_pos_bound (mark A B Producer + i) N ltac:(lia)). lia. }
  eapply (queue_update A B A B); try done; cbn [point_of].
  - destruct Hd as [D1 D2 D3 D4 D5]. constructor; try done; cbn [buffer].
    + by rewrite length_insert.
    + intros j x Hj Hx. pose proof (lookup_lt_Some _ _ _ Hx).
      rewrite list_lookup_insert_ne; [by apply D5|]. unfold slot, mark in *.
      intros Heq. assert (Z.of_nat j mod N = (Z.of_nat (length A) + i) mod N) as Heq'.
      { pose proof (Z.mod_pos_bound (Z.of_nat j) N ltac:(lia)).
        pose proof (Z.mod_pos_bound (Z.of_nat (length A) + i) N ltac:(lia)). lia. }
      revert Heq'. apply slot_differs; lia.
  - intros k' [= <-]. eapply qo_client; [done|exact Ht|done].
  - intros [|]; [left|right].
    + rewrite <- Hr. eapply qo_client; [done|exact Ht|done].
    + split; [done|]. by split.
  - by intros [|]; left.
  - by left.
  - cbn. rewrite Hr. splits; try done; try lia. unfold copied. rewrite Hr. cbn [buffer].
    intros j Hj. destruct (decide (j = i)) as [->|].
    + exists e. split; [done|]. by apply list_lookup_insert_eq.
    + destruct (Hc j ltac:(lia)) as (x & Hx & Hb). exists x. split; [done|].
      rewrite list_lookup_insert_ne; [done|]. unfold slot.
      rewrite !(slot_in_chunk N HN _ n) by (unfold mark in *; lia).
      pose proof (Z.mod_pos_bound (mark A B Producer) N ltac:(lia)). lia.
Qed.

(** Copying one element out of the queue. *)
Lemma queue_copy_receive A B c t k own n i e :
  queue_ok A B c -> threads c !! t = Some (Running (QCopy k own n i)) -> role k = Consumer ->
  i < n -> buffer (shared c) !! Z.to_nat (index_at_counter N own + i) = Some e ->
  queue_ok A B (mkConfig (shared c)
    (<[t := Running (QCopy (mkCall (role k) (src k) (dst k ++ [e]) (count k) (ret k) (shouldWake k))
        own n (i + 1))]> (threads c))).
Proof.
  intros Hok Ht Hr Hi He. pose proof (qo_data _ _ _ Hok) as Hd.
  destruct (qo_local _ _ _ Hok _ _ Ht) as (H1 & H2 & Hown & H4 & H5 & Hro & Hend & Hc).
  rewrite Hr in *. pose proof (mark_order _ _ (do_prefix _ _ _ Hd)) as Hm.
  unfold copied in Hc. rewrite Hr in Hc. destruct Hc as (d & Hd1 & Hd2). unfold room in Hro.
  rewrite Hown, (copy_slot _ _ _ n) in He by lia.
  destruct (live_slot A B (shared c) (mark A B Consumer + i) Hd ltac:(lia)) as (x & Hx & Hb).
  rewrite He in Hb. injection Hb as <-.
  eapply queue_stay; try done; cbn [point_of].
  - intros k' [= <-]. exists k. split; [done|]. by cbn.
  - intros s. cbn. by rewrite Hr.
  - cbn. splits; try done; try lia. unfold copied. cbn. exists d. split; [done|].
    rewrite Hd2, <- app_assoc. f_equal. replace (Z.to_nat (i + 1)) with (S (Z.to_nat i)) by lia.
    symmetry. apply take_S_r. rewrite lookup_drop.
    replace (length B + Z.to_nat i)%nat with (Z.to_nat (mark A B Consumer + i)); [done|].
    unfold mark in *. lia.
Qed.

(** ** What a step sends and receives *)

Definition chunk (k : call E) (n : Z) : list E :=
  match role k with
  | Producer => take (Z.to_nat n) (drop (Z.to_nat (ret k - n)) (src k))
  | Consumer => drop (length (dst k) - Z.to_nat n) (dst k)
  end.

(** The elements that an event adds to the counter of a side. *)
Definition transferred (s : side) (e : event qpoint) (c : qconfig) : list E :=
  match e with
  | Step t _ _ =>
      match threads c !! t with
      | Some (Running (QStoreCas k _ n old)) =>
          if bool_decide (role k = s) && (word_at (shared c) s =? old) then chunk k n else []
      | _ => []
      end
  | _ => []
  end.

Lemma chunk_sent A B q k n :
  role k = Producer -> 0 < n <= ret k -> copied A B q k (ret k - n) n ->
  Z.of_nat (length (chunk k n)) = n /\
  forall j e, chunk k n !! j = Some e -> buffer q !! slot (mark A B Producer + Z.of_nat j) = Some e.
Proof.
  intros Hr Hn Hc. unfold copied in Hc. unfold chunk. rewrite Hr in *.
  assert (Z.to_nat n <= length (drop (Z.to_nat (ret k - n)) (src k)))%nat as Hl.
  { destruct (Hc (n - 1) ltac:(lia)) as (e & He & _). apply lookup_lt_Some in He.
    rewrite length_drop. lia. }
  split; [rewrite length_take; lia|]. intros j e Hj.
  apply lookup_take_Some in Hj as [Hj Hjn]. rewrite lookup_drop in Hj.
  destruct (Hc (Z.of_nat j) ltac:(lia)) as (x & Hx & Hb).
  replace (Z.to_nat (ret k - n + Z.of_nat j)) with (Z.to_nat (ret k - n) + j)%nat in Hx by lia.
  congruence.
Qed.

Lemma chunk_received A B q k n :
  role k = Consumer -> 0 < n -> room A B Consumer n -> copied A B q k (ret k - n) n ->
  chunk k n = take (Z.to_nat n) (drop (length B) A) /\ Z.of_nat (length (chunk k n)) = n.
Proof.
  intros Hr Hn Hro Hc. unfold copied in Hc. unfold chunk. rewrite Hr in *.
  destruct Hc as (d & _ & ->). unfold room, mark in Hro.
  assert (length (take (Z.to_nat n) (drop (length B) A)) = Z.to_nat n) as Hl.
  { rewrite length_take, length_drop. lia. }
  rewrite length_app, Hl. replace (length d + Z.to_nat n - Z.to_nat n)%nat with (length d) by lia.
  rewrite drop_app_length. split; [done|]. lia.
Qed.

(** The update of a counter sends or receives the elements that were copied. *)
Lemma queue_publish A B c t k own n :
  queue_ok A B c ->
  threads c !! t = Some (Running (QStoreCas k own n (word_at (shared c) (role k)))) ->
  let w := with_counter (word_at (shared c) (role k)) (add_and_wrap N own n) in
  let A' := match role k with Producer => A ++ chunk k n | Consumer => A end in
  let B' := match role k with Producer => B | Consumer => B ++ chunk k n end in
  queue_ok A' B' (mkConfig (set_word (shared c) (role k) w) (<[t := Running (QCheck k own)]> (threads c))).
Proof.
  intros Hok Ht w A' B'. pose proof (qo_data _ _ _ Hok) as Hd.
  destruct (qo_local _ _ _ Hok _ _ Ht) as (Hg & Hown & Hn & Hro & Hend & Hc).
  pose proof (mark_order _ _ (do_prefix _ _ _ Hd)) as Hm.
  pose proof (do_room _ _ _ Hd) as Hroom.
  assert (add_and_wrap N own n = ctr (mark A' B' (role k)) /\ data_ok A' B'
            (set_word (shared c) (role k) w) /\
          (forall r, client t r = true \/ keeps A B (shared c) A' B' (set_word (shared c) (role k) w) r))
    as (Hadd & Hd' & Hk).
  { assert (forall m, mark A' B' (role k) = mark A B (role k) + m -> m = n ->
      add_and_wrap N own n = ctr (mark A' B' (role k))) as Hadd.
    { intros m -> ->. rewrite Hown, add_and_wrap_ctr; [done|done|].
      unfold room in Hro. pose proof (mark_order _ _ (do_prefix _ _ _ Hd)). destruct (role k); lia. }
    assert (client t (role k) = true) as Hcl by (eapply qo_client; [done|exact Ht|done]).
    pose proof Hd as [D1 D2 D3 D4 D5]. subst A' B' w. destruct (role k) eqn:Hr.
    - destruct (chunk_sent A B (shared c) k n Hr Hn Hc) as [Hl Hch]. unfold room in Hro.
      assert (mark (A ++ chunk k n) B Producer = mark A B Producer + n) as Hma.
      { unfold mark. rewrite length_app. lia. }
      specialize (Hadd n Hma eq_refl). split; [done|]. rewrite Hadd. split.
      + constructor; cbn [set_word word_at buffer].
        * by apply prefix_app_r.
        * change (mark (A ++ chunk k n) B Consumer) with (mark A B Consumer). lia.
        * intros [|]; [apply counter_of_with, ctr_u29, HN|apply (D3 Consumer)].
        * done.
        * intros j e Hj [He|[Hlj He]]%lookup_app_Some; [by apply D5|].
          replace (Z.of_nat j) with (mark A B Producer + Z.of_nat (j - length A))
            by (unfold mark; lia). by apply Hch.
      + intros [|]; [by left|right]. split; [done|]. split; [done|]. by apply prefix_app_r.
    - destruct (chunk_received A B (shared c) k n Hr ltac:(lia) Hro Hc) as [Hch Hl].
      unfold room in Hro.
      assert (mark A (B ++ chunk k n) Consumer = mark A B Consumer + n) as Hmb.
      { unfold mark. rewrite length_app. lia. }
      specialize (Hadd n Hmb eq_refl). split; [done|]. rewrite Hadd. split.
      + constructor; cbn [set_word word_at buffer].
        * rewrite Hch. destruct D1 as [R ->]. rewrite drop_app_length.
          apply prefix_app. apply prefix_take.
        * change (mark A (B ++ chunk k n) Producer) with (mark A B Producer). lia.
        * intros [|]; [apply (D3 Producer)|apply counter_of_with, ctr_u29, HN].
        * done.
        * intros j e Hj He. apply D5; [|done]. rewrite length_app in Hj. lia.
      + intros [|]; [right|by left]. split; [done|]. split; [done|]. split; [done|lia]. }
  eapply queue_update; try done; cbn [point_of].
  - intros k' [= <-]. eapply qo_client; [done|exact Ht|done].
  - intros s. rewrite set_word_at. case_decide as Hs; [|by left]. subst s w.
    rewrite Hadd, lock_with by apply ctr_u29, HN. by left.
  - intros s Hs. by left.
Qed.

Lemma queue_stop_ok A B c t s st p :
  queue_ok A B c -> threads c !! t = Some st -> call_at (point_of st) = None -> call_at p = None ->
  queue_ok A B (mkConfig (set_word (shared c) s (Z.lor (word_at (shared c) s) LockedInDestructModeBit))
    (<[t := Running p]> (threads c))).
Proof.
  intros Hok Ht Hst Hp. eapply queue_silent; try done; cbn [point_of].
  - apply set_word_buffer.
  - intros s'. rewrite set_word_at. case_decide as Hs; [|done]. subst s'.
    unfold LockedInDestructModeBit. by rewrite counter_of_lor.
  - by rewrite Hp.
  - intros s'. rewrite set_word_at. case_decide as Hs; [|by left]. subst s'.
    unfold LockedInDestructModeBit. rewrite lock_lor by done. by left.
  - intros s'. by destruct (point_of st).
  - by destruct p.
Qed.

(** Every point's own step. *)
Lemma queue_go A B c t b q p p' :
  queue_ok A B c -> threads c !! t = Some (Running p) ->
  queue_step N t b (shared c) p = Go q p' ->
  queue_ok (A ++ transferred Producer (Step t b []) c) (B ++ transferred Consumer (Step t b []) c)
    (mkConfig q (<[t := Running p']> (threads c))).
Proof.
  intros Hok Ht. pose proof (qo_local _ _ _ Hok _ _ Ht) as Hl. pose proof (qo_data _ _ _ Hok) as Hd.
  pose proof (fun s => do_counter _ _ _ Hd s) as Hcnt.
  pose proof (mark_order _ _ (do_prefix _ _ _ Hd)) as Hm.
  assert (forall k p1, call_at p = Some k -> call_at p1 = Some k ->
    (forall s, inside s p = true -> inside s p1 = true) -> local A B (shared c) p1 ->
    queue_ok (A ++ []) (B ++ []) (mkConfig (shared c) (<[t := Running p1]> (threads c)))) as Hmove.
  { intros k p1 Hk Hk1 Hi Hl1. rewrite !app_nil_r. eapply queue_stay; try done; cbn.
    rewrite Hk1. intros k' [= <-]. by exists k. }
  unfold transferred. rewrite Ht.
  destruct p as [r d|k|k v|k v|k v|k v|k|k v|k own|k own v|k own|k own n i|k own n|k own n old
    |k own|k|k v|k|k|s|s|s]; cbn [queue_step]; try discriminate; try done.
  - (* QLock *)
    rewrite (lock_free A B c t (QLock k) k Hok Ht eq_refl eq_refl). rewrite !app_nil_r.
    intros [= <- <-]. eapply queue_lock_step; try done. case_match; [by right; left|].
    right; right. eexists. split; [done|]. by eapply lock_free.
  - (* QTake *)
    rewrite !app_nil_r. destruct (Z.eqb_spec (word_at (shared c) (role k)) v); intros [= <- <-].
    + by eapply queue_take.
    + eapply queue_lock_step; try done; [by destruct Hl|by left].
  - (* QLoop *)
    destruct Hl as [Hg Hc]. destruct (role k) eqn:Hr; intros [= <- <-];
      (apply (Hmove k); try done; cbn).
    + splits; try done. rewrite Hr. apply (Hcnt Producer).
    + splits; try done. exists (mark A B Producer). split; [lia|]. apply (Hcnt Producer).
  - (* QLoadOwn *)
    destruct Hl as (Hg & Hc & Hr & Ha). intros [= <- <-].
    apply (Hmove k); [done|apply call_test_blocked|intros s; by rewrite inside_test_blocked|].
    apply test_blocked_local; try done. by rewrite Hr.
  - (* QLoad *)
    destruct Hl as (Hg & Hc & Hown). intros [= <- <-].
    apply (Hmove k); [done|apply call_test_blocked|intros s; by rewrite inside_test_blocked|].
    apply test_blocked_local; try done; intros ->; cbn [other].
    + apply (Hcnt Consumer).
    + exists (mark A B Producer). split; [lia|]. apply (Hcnt Producer).
  - (* QCopy *)
    destruct (Z.ltb_spec i n) as [Hi|Hi].
    + destruct (if b then copy_one N (shared c) k own i else None) as [[q1 k1]|] eqn:Hcp.
      * destruct b; [|discriminate]. intros [= <- <-]. rewrite !app_nil_r.
        unfold copy_one in Hcp. destruct (role k) eqn:Hr;
          apply bind_Some in Hcp as (e & He & [= <- <-]).
        -- by eapply queue_copy_send.
        -- rewrite <- Hr. by eapply queue_copy_receive.
      * intros [= <- <-]. rewrite !app_nil_r. eapply queue_stay; try done; cbn.
        intros k' [= <-]. by exists k.
    + intros [= <- <-]. rewrite !app_nil_r.
      destruct Hl as (H1 & H2 & Hown & H4 & H5 & Hro & Hend & Hc).
      assert (i = n) as -> by lia. eapply queue_stay; try done; cbn.
      * intros k' [= <-]. by exists k.
      * replace (ret k + n - n) with (ret k) by lia. splits; try done; try lia.
        split; [cbn; lia|split; [cbn; lia|]]. cbn. intros Hr. unfold copied in Hc. rewrite Hr in *. destruct Hc as (d & Hd1 & ->).
        unfold room, mark in *. rewrite length_app, length_take, length_drop. lia.
  - (* QStore *) intros [= <- <-]. by apply (Hmove k).
  - (* QStoreCas *)
    destruct (Z.eqb_spec (word_at (shared c) (role k)) old) as [He|He]; intros [= <- <-].
    + subst old. pose proof (queue_publish A B c t k own n Hok Ht) as Hp. cbn in Hp.
      destruct (role k) eqn:Hr; rewrite !Z.eqb_refl, !andb_true_r;
        [rewrite bool_decide_eq_true_2, bool_decide_eq_false_2 by done
        |rewrite bool_decide_eq_false_2, bool_decide_eq_true_2 by done];
        rewrite ?app_nil_r; exact Hp.
    + assert (forall s, bool_decide (role k = s) && (word_at (shared c) s =? old) = false) as Hf.
      { intros s. case_bool_decide as Hs; [|done]. subst s. by apply Z.eqb_neq. }
      rewrite !Hf, !app_nil_r.
      eapply queue_stay; try done; cbn. intros k' [= <-]. by exists k.
  - (* QCheck *)
    intros [= <- <-]. rewrite !app_nil_r. eapply queue_stay; try done; cbn [point_of].
    + rewrite call_loop. intros k' [= <-]. by exists k.
    + intros s. by rewrite inside_loop.
    + by apply local_loop.
  - (* QUnlock *) intros [= <- <-]. by apply (Hmove k).
  - (* QUnlockSwap *)
    intros [= <- <-]. rewrite !app_nil_r. cbn in Hl.
    set (p' := if has _ WaitersBit then _ else _).
    assert (forall k', call_at p' = Some k' -> k' = k) as Hp'.
    { intros k'. unfold p'. repeat case_match; cbn; congruence. }
    eapply queue_silent; try done; cbn [point_of].
    + apply set_word_buffer.
    + intros s. rewrite set_word_at. case_decide as Hs; [|done]. subst s.
      by rewrite counter_of_unlocked.
    + intros k' ->%Hp'. by exists k.
    + intros s. rewrite set_word_at. case_decide as Hs; [|by left]. by rewrite lock_unlocked.
    + intros s Hs%bool_decide_eq_true. subst s. right. rewrite set_word_at, decide_True by done.
      apply lock_unlocked.
    + unfold p'. by repeat case_match.
  - (* QStop *)
    intros [= <- <-]. rewrite !app_nil_r. by eapply queue_stop_ok.
  - (* QStopTest *)
    intros [= <- <-]. rewrite !app_nil_r.
    eapply queue_stay; try done; cbn; repeat case_match; try done; by destruct s.
Qed.

(** Where a thread goes on after a futex call. *)
Lemma resume_ok A B q p r :
  local A B q p ->
  local A B q (queue_resume p r) /\
  (forall s, inside s (queue_resume p r) = inside s p) /\
  (forall k, call_at (queue_resume p r) = Some k ->
     exists k0, call_at p = Some k0 /\ role k0 = role k).
Proof.
  intros Hl. assert (forall k, call_at p = Some k -> exists k0, call_at p = Some k0 /\ role k0 = role k)
    as Hsame by eauto.
  destruct p; try (by split; [|split]). cbn.
  destruct (r =? - ETIMEDOUT); [|split; [done|split; [done|]]; intros k' [= <-]; by eexists].
  split; [done|]. case_match; (split; [done|]); intros k' [= <-]; by eexists.
Qed.

Lemma queue_wake A B c ws :
  queue_ok A B c -> queue_ok A B (mkConfig (shared c) (wake machine ws (threads c))).
Proof.
  intros [Hd Hl Hc Hlo].
  assert (forall t st, threads c !! t = Some st ->
    local A B (shared c) (point_of (rouse machine ws t st)) /\
    (forall s, inside s (point_of (rouse machine ws t st)) = inside s (point_of st)) /\
    (forall k, call_at (point_of (rouse machine ws t st)) = Some k ->
       exists k0, call_at (point_of st) = Some k0 /\ role k0 = role k)) as Hr.
  { intros t st Ht. pose proof (Hlo t st Ht) as Hst. destruct st as [p|s p]; cbn in *; [by eauto|].
    case_bool_decide; [by apply resume_ok|by eauto]. }
  constructor; cbn [shared threads]; [done|..].
  - intros s Hs. destruct (Hl s Hs) as (t & st & Ht & Hi). exists t, (rouse machine ws t st).
    rewrite lookup_wake, Ht. split; [done|]. by destruct (Hr t st Ht) as (_ & -> & _).
  - intros t st k Ht Hk. rewrite lookup_wake in Ht. apply fmap_Some in Ht as (st0 & Ht & ->).
    destruct (Hr t st0 Ht) as (_ & _ & Hcl). destruct (Hcl k Hk) as (k0 & Hk0 & <-). eauto.
  - intros t st Ht. rewrite lookup_wake in Ht. apply fmap_Some in Ht as (st0 & Ht & ->).
    by destruct (Hr t st0 Ht).
Qed.

(** A thread that returns from a futex call on which it did not sleep, or not any more. *)
Lemma queue_resumed A B c t st p r :
  queue_ok A B c -> threads c !! t = Some st -> local A B (shared c) p ->
  (forall s, inside s p = inside s (point_of st)) ->
  (forall k, call_at p = Some k -> exists k0, call_at (point_of st) = Some k0 /\ role k0 = role k) ->
  queue_ok A B (mkConfig (shared c) (<[t := Running (queue_resume p r)]> (threads c))).
Proof.
  intros Hok Ht Hl Hi Hc. destruct (resume_ok A B (shared c) p r Hl) as (Hl' & Hi' & Hc').
  eapply queue_stay; try done; cbn [point_of].
  - intros k Hk. destruct (Hc' k Hk) as (k1 & Hk1 & <-). by apply Hc.
  - intros s. by rewrite Hi', Hi.
Qed.

Lemma queue_waits A B q t b p k v p' :
  local A B q p -> queue_step N t b q p = Wait k v p' ->
  exists k1 own, p = QWait k1 own v /\ p' = QWaiting k1 own /\ k = other (role k1).
Proof.
  intros Hl Hp. destruct p; cbn in Hp; repeat case_match; try discriminate; try done.
  injection Hp as <- <- <-. by eexists _, _.
Qed.

Lemma queue_notifies t b q p k n p' :
  queue_step N t b q p = Notify k n p' ->
  (forall s, inside s p = false /\ inside s p' = false) /\ (forall A B q, local A B q p') /\
  (forall k, call_at p' = Some k -> exists k0, call_at p = Some k0 /\ role k0 = role k).
Proof.
  destruct p; cbn; repeat case_match; try discriminate; intros [= <- <- <-]; try (by destruct s);
    (split; [done|split; [done|]]); cbn; try done; intros k' [= <-]; by eexists.
Qed.

Lemma queue_event A B c e c' :
  queue_ok A B c -> exec machine e c = Some c' ->
  queue_ok (A ++ transferred Producer e c) (B ++ transferred Consumer e c) c'.
Proof.
  intros Hok He.
  assert (forall t st p r, threads c !! t = Some st -> local A B (shared c) p ->
    (forall s, inside s p = inside s (point_of st)) ->
    (forall k, call_at p = Some k -> exists k0, call_at (point_of st) = Some k0 /\ role k0 = role k) ->
    queue_ok (A ++ []) (B ++ [])
      (mkConfig (shared c) (<[t := Running (queue_resume p r)]> (threads c)))) as Hres.
  { intros t st p r Ht Hl Hi Hc. rewrite !app_nil_r. by eapply queue_resumed. }
  destruct e as [t b ws|t p|t r]; cbn in He.
  - destruct (threads c !! t) as [[p|]|] eqn:Ht; try discriminate.
    pose proof (qo_local _ _ _ Hok _ _ Ht) as Hl. cbn [point_of] in Hl.
    destruct (queue_step N t b (shared c) p) as [s p'|k v p'|k n p'|] eqn:Hp; try discriminate.
    + injection He as <-. exact (queue_go A B c t b s p p' Hok Ht Hp).
    + destruct (queue_waits _ _ _ _ _ _ _ _ _ Hl Hp) as (k1 & own & -> & -> & ->).
      unfold transferred. rewrite Ht. injection He as <-.
      case_match; [|apply (Hres t _ (QWaiting k1 own) 0 Ht); [done|done|cbn; by eauto]].
      rewrite !app_nil_r. eapply queue_stay; try done.
      cbn. eauto.
    + destruct (chosen k n ws (threads c)) eqn:Hch; [|discriminate]. injection He as <-.
      assert (forall s, transferred s (Step t b ws) c = []) as Htr.
      { intros s. unfold transferred. rewrite Ht. destruct p; try done.
        cbn in Hp. by case_match. }
      rewrite !Htr. destruct (queue_notifies _ _ _ _ _ _ _ Hp) as (Hi & Hl' & Hc).
      rewrite !app_nil_r.
      assert (wake machine ws (threads c) !! t = Some (Running p)) as Ht' by (by rewrite lookup_wake, Ht).
      eapply (queue_resumed A B (mkConfig (shared c) (wake machine ws (threads c)))); [|exact Ht'|..].
      * by apply queue_wake.
      * apply Hl'.
      * intros s. cbn. by destruct (Hi s) as [-> ->].
      * exact Hc.
  - destruct (threads c !! t) as [[p0|]|] eqn:Ht; try discriminate.
    destruct (queue_may_call client t p0 p) eqn:Hc; [|discriminate]. injection He as <-.
    cbn [transferred]. rewrite !app_nil_r.
    destruct p0, p; try discriminate; cbn in Hc.
    + apply andb_true_iff in Hc as [Hn Hcl].
      eapply (queue_update A B A B); try done; cbn [point_of].
      * apply Hok.
      * by intros k' [= <-].
      * intros r1. right. by apply keeps_refl.
      * by left.
      * cbn. unfold new_call in Hn. zbool. unfold good.
        destruct (dst k); [cbn; lia|done].
    + destruct s; [|done]. eapply queue_stay; done.
  - cbn [transferred]. destruct (threads c !! t) as [[p|k p]|] eqn:Ht; try discriminate.
    + destruct (queue_step N t true (shared c) p) as [s p'|k v p'|k n p'|] eqn:Hp; try discriminate.
      injection He as <-. pose proof (qo_local _ _ _ Hok _ _ Ht) as Hl. cbn [point_of] in Hl.
      destruct (queue_waits _ _ _ _ _ _ _ _ _ Hl Hp) as (k1 & own & -> & -> & ->).
      apply (Hres t _ (QWaiting k1 own) r Ht); [done|done|cbn; by eauto].
    + injection He as <-. pose proof (qo_local _ _ _ Hok _ _ Ht) as Hl. cbn [point_of] in Hl.
      apply (Hres t _ p r Ht); [done|done|cbn; by eauto].
Qed.

End Fifo.
