(* ===== verification/QueueSpec.v ===== *)
(** * What message queues promise, and what they do not

    The theorems about the machine of [MessageQueue]: it is a FIFO queue for one sender and one
    receiver, and calls for one element lose no wake-up.  Runs show that its lock does not
    exclude a second sender, and that calls for several elements can leave both sides asleep. *)

From S2P Require Import Prelude Machine MessageQueue QueueCounters QueueFifo.

Section Spec.
Context {E : Type} (N : Z) (HN : 0 < N < 2 ^ 28) (client : nat -> side -> bool)
  (client_unique : forall t u s, client t s = true -> client u s = true -> t = u).

#[local] Notation qpoint := (queue_point E).
#[local] Notation qstatus := (status (queue_point E) side).
#[local] Notation qconfig := (config (MessageQueue E) (queue_point E) side).
#[local] Notation machine := (queue_machine N client).

(** The elements that a run sends, or receives. *)
Fixpoint traffic (s : side) (es : list (event qpoint)) (c : qconfig) : list E :=
  match es with
  | [] => []
  | e :: es =>
      transferred s e c ++
      match exec machine e c with Some c' => traffic s es c' | None => [] end
  end.

Lemma queue_init_ok (slots : list E) n :
  Z.of_nat (length slots) = N -> queue_ok N client [] [] (queue_init slots n).
Proof.
  intros Hs. constructor; cbn [shared threads queue_init].
  - constructor; try done; [unfold mark; cbn; lia|by intros [|]].
  - by intros [|].
  - by intros t st k [-> _]%lookup_replicate.
  - by intros t st [-> _]%lookup_replicate.
Qed.

Lemma queue_run es : forall A B c c',
  queue_ok N client A B c -> run machine es c = Some c' ->
  queue_ok N client (A ++ traffic Producer es c) (B ++ traffic Consumer es c) c'.
Proof.
  induction es as [|e es IH]; cbn; intros A B c c' Hok Hr.
  { injection Hr as <-. by rewrite !app_nil_r. }
  destruct (exec machine e c) as [c1|] eqn:He; [|discriminate]. cbn in Hr.
  pose proof (queue_event N HN client client_unique A B c e c1 Hok He) as Hok1.
  rewrite !app_assoc. by apply IH.
Qed.

Lemma items_ok (A B : list E) c :
  queue_ok N client A B c ->
  queue_items_remaining N (shared c) = Z.of_nat (length A) - Z.of_nat (length B).
Proof.
  intros Hok. pose proof (qo_data _ _ _ _ _ Hok) as Hd.
  pose proof (mark_order _ _ (do_prefix _ _ _ _ Hd)). pose proof (do_room _ _ _ _ Hd).
  unfold queue_items_remaining.
  rewrite (do_counter _ _ _ _ Hd Producer : counter_of (producer (shared c)) = _).
  rewrite (do_counter _ _ _ _ Hd Consumer : counter_of (consumer (shared c)) = _).
  rewrite items_remaining_ctr by (done || lia). done.
Qed.

(** C26. With one sender and one receiver a message queue is a FIFO queue: whatever the
    interleaving of [queue_send_multiple] and [queue_receive_multiple] with any counts and
    timeouts, even if copies fault half-way and other threads stop the queue, the elements
    received are the first of the elements sent, in order; the queue never holds more than its
    size; and [queue_items_remaining] is the number of elements sent and not yet received. *)
Theorem queue_is_fifo es (slots : list E) n c :
  Z.of_nat (length slots) = N -> run machine es (queue_init slots n) = Some c ->
  let sent := traffic Producer es (queue_init slots n) in
  let received := traffic Consumer es (queue_init slots n) in
  received `prefix_of` sent /\
  Z.of_nat (length sent) - Z.of_nat (length received) <= N /\
  queue_items_remaining N (shared c) = Z.of_nat (length sent) - Z.of_nat (length received).
Proof.
  intros Hs Hr sent received.
  pose proof (queue_run es [] [] _ c (queue_init_ok slots n Hs) Hr) as Hok. cbn in Hok.
  pose proof (qo_data _ _ _ _ _ Hok) as Hd.
  split; [apply Hd|]. split; [apply Hd|]. by apply items_ok.
Qed.

(** ** Wake-ups, for calls of one element *)

(** A thread that has moved the counter of [s] and will wake the threads that wait on it. *)
Definition waker (A B : list E) (s : side) (st : qstatus) : Prop :=
  match st with
  | Running (QCheck k own) => role k = s /\ count k <= 0 /\
      shouldWake k || was_blocked N s own (ctr N (mark A B (other s))) = true
  | Running (QUnlock k | QUnlockSwap k _ | QUnlockWake k | QWake k) =>
      role k = s /\ shouldWake k = true
  | _ => False
  end.

Definition stuck (A B : list E) (s : side) : Prop :=
  blocked N s (ctr N (mark A B s)) (ctr N (mark A B (other s))) = true.

(** Calls for one element, and the tests that led to a wait. *)
Definition single (p : qpoint) : Prop :=
  match p with
  | QLock k | QMark k _ | QLockWait k _ | QLockWaiting k _ | QTake k _ | QLoop k | QLoadOwn k _
  | QLoad k _ | QWaiting k _ | QCopy k _ _ _ => count k <= 1
  | QWait k own value => count k <= 1 /\ blocked N (role k) own (counter_of value) = true
  | QStore k _ _ | QStoreCas k _ _ _ | QCheck k _ => count k <= 0
  | _ => True
  end.

Record wake_ok (A B : list E) (c : qconfig) : Prop := mkWakeOk {
  wo_queue : queue_ok N client A B c;
  wo_threads : Z.of_nat (length (threads c)) < 2 ^ 32;
  wo_single t st : threads c !! t = Some st -> single (point_of st);
  wo_asleep t w k own : threads c !! t = Some (Asleep w (QWaiting k own)) ->
    w = other (role k) /\
    (stuck A B (role k) \/ someone (waker A B (other (role k))) (threads c));
  wo_sleepers t w p : threads c !! t = Some (Asleep w p) -> exists k own, p = QWaiting k own }.

Lemma single_loop k : count k <= 1 -> single (loop (E:=E) k).
Proof. unfold loop. by case_match. Qed.

Lemma single_test k own v : count k <= 1 -> single (test_blocked (E:=E) N k own v).
Proof. intros Hk. unfold test_blocked. destruct (blocked _ _ _ _) eqn:Hb; [by split|done]. Qed.

Lemma single_go A B t b q q' (p p' : qpoint) :
  single p -> local N A B q p -> queue_step N t b q p = Go q' p' -> single p'.
Proof.
  intros Hs Hl. destruct p as [r d|k|k v|k v|k v|k v|k|k v|k own|k own v|k own|k own n i|k own n|k own n old
    |k own|k|k v|k|k|s|s|s]; cbn [queue_step]; try discriminate; cbn in Hs.
  - intros [= <- <-]. by repeat case_match.
  - by destruct Hl.
  - case_match; intros [= <- <-]; [by apply single_loop|done].
  - case_match; intros [= <- <-]; done.
  - intros [= <- <-]. by apply single_test.
  - intros [= <- <-]. by apply single_test.
  - destruct (Z.ltb_spec i n).
    + destruct (if b then copy_one N q k own i else None) as [[q1 k1]|] eqn:Hc; [|by intros [= <- <-]].
      intros [= <- <-]. cbn. destruct b; [|discriminate]. unfold copy_one in Hc.
      destruct (role k); apply bind_Some in Hc as (e & _ & [= <- <-]); done.
    + intros [= <- <-]. cbn. destruct Hl as (_ & _ & _ & ? & _). lia.
  - by intros [= <- <-].
  - case_match; by intros [= <- <-].
  - intros [= <- <-]. apply single_loop. cbn. lia.
  - by intros [= <- <-].
  - intros [= <- <-]. by repeat case_match.
  - intros [= <- <-]. done.
  - intros [= <- <-]. case_match; [done|]. by destruct s.
Qed.

(** A waker stays one until it has made its wake. *)
Lemma waker_go (A B : list E) c t b q p p' s :
  queue_ok N client A B c -> threads c !! t = Some (Running p) ->
  queue_step N t b (shared c) p = Go q p' -> waker A B s (Running p) -> waker A B s (Running p').
Proof.
  intros Hok Ht Hp Hw. destruct p; try done; cbn in Hp.
  - destruct Hw as (Hr & Hc & Hb). injection Hp as <- <-.
    rewrite <- Hr in Hb. rewrite <- (do_counter _ _ _ _ (qo_data _ _ _ _ _ Hok)) in Hb.
    unfold loop. cbn [count]. rewrite (proj2 (Z.ltb_ge 0 (count k))) by done. by split.
  - injection Hp as <- <-. done.
  - injection Hp as <- <-. destruct Hw as [Hr Hw]. rewrite Hw. by case_match.
Qed.

Lemma other_other s : other (other s) = s.
Proof. by destruct s. Qed.

Lemma was_blocked_other s own others : was_blocked N (other s) own others = blocked N s others own.
Proof. by destruct s. Qed.

Lemma transferred_nil (A B : list E) c t b q p p' :
  queue_ok N client A B c -> threads c !! t = Some (Running p) ->
  queue_step N t b (shared c) p = Go q p' ->
  (exists k own n, p = QStoreCas k own n (word_at (shared c) (role k)) /\ p' = QCheck k own /\
     local N A B (shared c) p) \/
  forall s, transferred s (Step t b []) c = [].
Proof.
  intros Hok Ht Hp. unfold transferred. rewrite Ht. destruct p; try (by right).
  cbn in Hp. destruct (Z.eqb_spec (word_at (shared c) (role k)) old) as [<-|He].
  - left. injection Hp as <- <-. eexists _, _, _. split; [done|split; [done|]].
    exact (qo_local _ _ _ _ _ Hok _ _ Ht).
  - right. intros s. case_bool_decide as Hs; [|done]. subst s. cbn.
    by rewrite (proj2 (Z.eqb_neq _ _) He).
Qed.

(** Own step of a thread: the sleepers are still stuck, or somebody is about to wake them. *)
Lemma asleep_go (A B : list E) c t b q p p' u w k own :
  wake_ok A B c -> threads c !! t = Some (Running p) ->
  queue_step N t b (shared c) p = Go q p' -> threads c !! u = Some (Asleep w (QWaiting k own)) ->
  let A' := A ++ transferred Producer (Step t b []) c in
  let B' := B ++ transferred Consumer (Step t b []) c in
  stuck A' B' (role k) \/
  someone (waker A' B' (other (role k))) (<[t := Running p']> (threads c)).
Proof.
  intros [Hok Hn Hs Ha Hsl] Ht Hp Hu. destruct (Ha u w k own Hu) as [_ Hwu].
  assert (client u (role k) = true) as Hcu by (eapply qo_client; [done|exact Hu|done]).
  destruct (transferred_nil A B c t b q p p' Hok Ht Hp) as [(k' & own' & n & -> & -> & Hl)|Htr].
  - assert (client t (role k') = true) as Hct by (eapply qo_client; [done|exact Ht|done]).
    assert (role k' = other (role k)) as Hr.
    { destruct (decide (role k' = role k)) as [He|]; [|by destruct (role k'), (role k)].
      rewrite He in Hct. rewrite (client_unique t u (role k)) in Ht by done. congruence. }
    destruct Hwu as [Hst|(v & st & Hv & Hw)].
    + right. eapply someone_here; [done|]. cbn. split; [done|].
      destruct Hl as (_ & Hown & _). split; [exact (Hs t _ Ht)|]. rewrite other_other.
      apply orb_true_iff. right. rewrite was_blocked_other, Hown, Hr.
      unfold transferred. rewrite Ht, Hr.
      destruct (role k); unfold mark; cbn [other]; rewrite bool_decide_eq_false_2 by done;
        cbn [andb]; rewrite app_nil_r; exact Hst.
    + exfalso. assert (client v (other (role k)) = true) as Hcv.
      { destruct st as [p|]; [|done]. destruct p; try done; destruct Hw as [<- _];
          (eapply qo_client; [done|exact Hv|done]). }
      rewrite <- Hr in Hcv. rewrite (client_unique v t (role k')) in Hv by done.
      rewrite Ht in Hv. by injection Hv as <-.
  - intros A' B'. unfold A', B'. rewrite !Htr, !app_nil_r. destruct Hwu as [|Hw]; [by left|right].
    eapply someone_keep; [done| |done]. intros Hx. by eapply waker_go.
Qed.

(** A thread that is no waker moves and sends and receives nothing. *)
Lemma wake_quiet (A B : list E) c t st0 st :
  wake_ok A B c -> threads c !! t = Some st0 -> (forall s, ~ waker A B s st0) ->
  queue_ok N client A B (mkConfig (shared c) (<[t := st]> (threads c))) -> single (point_of st) ->
  (forall w p, st = Asleep w p -> exists k own, p = QWaiting k own /\ w = other (role k) /\
     stuck A B (role k)) ->
  wake_ok A B (mkConfig (shared c) (<[t := st]> (threads c))).
Proof.
  intros [Hok Hn Hs Ha Hsl] Ht Hw Hok' Hst Has. constructor; cbn [shared threads]; [done|..].
  - by rewrite length_insert.
  - intros u st1 [[-> ->]|[_ Hu]]%lookup_stepped; eauto.
  - intros u w k own [[-> <-]|[_ Hu]]%lookup_stepped.
    + destruct (Has w _ eq_refl) as (k' & own' & [= <- <-] & -> & Hstk). split; [done|by left].
    + destruct (Ha u w k own Hu) as [-> [|Hso]]; (split; [done|]); [by left|right].
      eapply someone_keep; [done| |done]. by intros ?%Hw.
  - intros u w p [[-> <-]|[_ Hu]]%lookup_stepped; [|by eapply Hsl].
    destruct (Has w p eq_refl) as (k & own & -> & _). by eexists _, _.
Qed.

(** The calls of an event, if any, are for one element. *)
Definition single_call (e : event qpoint) : Prop :=
  match e with Call _ (QLock k) => count k <= 1 | _ => True end.

Lemma single_resume p r : single p -> single (queue_resume (E:=E) p r).
Proof. intros Hp. destruct p; try done; cbn; repeat case_match; try done; by destruct Hp. Qed.

Lemma queue_notify_key t b q k n p p' :
  queue_step (E:=E) N t b q p = Notify k n p' -> n = 2 ^ 32 - 1 /\
  (forall A B s, waker A B s (Running p) -> s = k) /\ single p'.
Proof.
  destruct p; cbn; repeat case_match; try discriminate; intros [= <- <- <-];
    (split; [done|split]); try done; try (by intros A B s' [? _]). by destruct s.
Qed.

Lemma wake_event (A B : list E) c e c' :
  wake_ok A B c -> single_call e -> exec machine e c = Some c' ->
  wake_ok (A ++ transferred Producer e c) (B ++ transferred Consumer e c) c'.
Proof.
  intros Hwk Hsc He. pose proof (wo_queue _ _ _ Hwk) as Hok.
  pose proof (queue_event N HN client client_unique A B c e c' Hok He) as Hok'.
  destruct e as [t b ws|t p|t r]; cbn in He.
  - destruct (threads c !! t) as [[p|]|] eqn:Ht; try discriminate.
    pose proof (qo_local _ _ _ _ _ Hok _ _ Ht) as Hl. cbn [point_of] in Hl.
    pose proof (wo_single _ _ _ Hwk _ _ Ht) as Hs. cbn [point_of] in Hs.
    destruct (queue_step N t b (shared c) p) as [s p'|k v p'|k n p'|] eqn:Hp; try discriminate.
    + injection He as <-. constructor; cbn [shared threads]; [done|..].
      * rewrite length_insert. apply Hwk.
      * intros u st [[-> ->]|[_ Hu]]%lookup_stepped; [by eapply single_go|by eapply wo_single].
      * intros u w k own [[-> [=]]|[_ Hu]]%lookup_stepped.
        split; [by eapply wo_asleep|]. by eapply (asleep_go A B c t b s p p').
      * intros u w q [[-> [=]]|[_ Hu]]%lookup_stepped. by eapply wo_sleepers.
    + destruct (queue_waits N _ _ _ _ _ _ _ _ _ Hl Hp) as (k1 & own & -> & -> & ->).
      assert (forall s, transferred s (Step t b ws) c = []) as Htr.
      { intros s. unfold transferred. by rewrite Ht. }
      rewrite !Htr, !app_nil_r in *. injection He as <-. destruct Hs as [Hs1 Hs2].
      eapply wake_quiet; [done|exact Ht|by intros s []|done|by destruct (_ =? _)|].
      intros w q Hq. destruct (Z.eqb_spec (word_at (shared c) (other (role k1))) v) as [Hv|]; [|done].
      injection Hq as <- <-. exists k1, own. split; [done|split; [done|]].
      destruct Hl as (_ & _ & ->). unfold stuck. rewrite <- Hs2, <- Hv.
      by rewrite (do_counter _ _ _ _ (qo_data _ _ _ _ _ Hok)).
    + assert (forall s, transferred s (Step t b ws) c = []) as Htr.
      { intros s. unfold transferred. rewrite Ht. destruct p; try done. cbn in Hp. by destruct (_ =? old). }
      rewrite !Htr, !app_nil_r in *.
      destruct (chosen k n ws (threads c)) eqn:Hch; [|discriminate]. injection He as <-.
      destruct (queue_notify_key _ _ _ _ _ _ _ Hp) as (-> & Hkey & Hsp).
      assert (forall u w q st, rouse machine ws u st = Asleep w q -> threads c !! u = Some st ->
        st = Asleep w q /\ w <> k) as Hro.
      { intros u w q st Hrs Hu. destruct st as [|w0 q0]; [done|]. cbn in Hrs.
        case_bool_decide as Hin; [done|]. injection Hrs as -> ->. split; [done|].
        intros ->. apply Hin. eapply chosen_all; [done| |].
        - pose proof (wo_threads _ _ _ Hwk). lia.
        - unfold asleep_on. rewrite Hu. by apply bool_decide_eq_true. }
      constructor; cbn [shared threads]; [done|..].
      * rewrite length_insert, length_wake. apply Hwk.
      * intros u st [[-> ->]|(_ & st0 & Hu & ->)]%lookup_moved; [by apply single_resume|].
        pose proof (wo_single _ _ _ Hwk _ _ Hu) as Hs0. destruct st0 as [|w0 q0]; [done|]. cbn in *.
        case_bool_decide; [by apply single_resume|done].
      * intros u w k1 own [[-> [=]]|(_ & st0 & Hu & Hst)]%lookup_moved. symmetry in Hst.
        destruct (Hro _ _ _ _ Hst Hu) as [-> Hne].
        destruct (wo_asleep _ _ _ Hwk _ _ _ _ Hu) as [-> [|(v & st & Hv & Hw)]];
          (split; [done|]); [by left|right].
        assert (v <> t) as Hvt.
        { intros ->. rewrite Ht in Hv. injection Hv as <-. apply Hkey in Hw. by apply Hne. }
        exists v, st. rewrite list_lookup_insert_ne, lookup_wake, Hv by done. split; [|done].
        by destruct st.
      * intros u w q [[-> [=]]|(_ & st0 & Hu & Hst)]%lookup_moved. symmetry in Hst.
        destruct (Hro _ _ _ _ Hst Hu) as [-> _]. by eapply wo_sleepers.
  - destruct (threads c !! t) as [[p0|]|] eqn:Ht; try discriminate.
    destruct (queue_may_call client t p0 p) eqn:Hc; [|discriminate]. injection He as <-.
    cbn [transferred] in *. rewrite !app_nil_r in *.
    eapply wake_quiet; [done|exact Ht| |done| |done].
    + destruct p0, p; try discriminate; by intros s' [].
    + destruct p0, p; try discriminate; done.
  - cbn [transferred] in *. rewrite !app_nil_r in *.
    destruct (threads c !! t) as [[p|k p]|] eqn:Ht; try discriminate.
    + destruct (queue_step N t true (shared c) p) as [s p'|k v p'|k n p'|] eqn:Hp; try discriminate.
      injection He as <-. pose proof (qo_local _ _ _ _ _ Hok _ _ Ht) as Hl. cbn [point_of] in Hl.
      destruct (queue_waits N _ _ _ _ _ _ _ _ _ Hl Hp) as (k1 & own & -> & -> & ->).
      pose proof (wo_single _ _ _ Hwk _ _ Ht) as Hs. cbn [point_of] in Hs.
      eapply wake_quiet; [done|exact Ht|by intros s []|done| |done].
      apply single_resume. apply Hs.
    + injection He as <-. pose proof (wo_single _ _ _ Hwk _ _ Ht) as Hs.
      eapply wake_quiet; [done|exact Ht|by intros s []|done| |done]. by apply single_resume.
Qed.

Lemma wake_run es : forall (A B : list E) c c',
  wake_ok A B c -> Forall single_call es -> run machine es c = Some c' ->
  wake_ok (A ++ traffic Producer es c) (B ++ traffic Consumer es c) c'.
Proof.
  induction es as [|e es IH]; cbn; intros A B c c' Hok Hf Hr.
  { injection Hr as <-. by rewrite !app_nil_r. }
  apply Forall_cons in Hf as [He Hf].
  destruct (exec machine e c) as [c1|] eqn:Hx; [|discriminate]. cbn in Hr.
  rewrite !app_assoc. apply IH; [|done|done]. by apply wake_event.
Qed.

(** C32. Calls for one element lose no wake-up: with one sender and one receiver whose calls are
    [queue_send] and [queue_receive], a sender sleeps only while the queue is full and a receiver
    only while it is empty, or while a thread on the other side that has just moved its counter
    is on its way to wake it. *)
Theorem queue_no_lost_wakeup es (slots : list E) n c t w k own :
  Z.of_nat (length slots) = N -> Z.of_nat n < 2 ^ 32 -> Forall single_call es ->
  run machine es (queue_init slots n) = Some c ->
  threads c !! t = Some (Asleep w (QWaiting k own)) ->
  queue_items_remaining N (shared c) = match role k with Producer => N | Consumer => 0 end \/
  exists u p k', threads c !! u = Some (Running p) /\ call_at p = Some k' /\
    role k' = other (role k) /\
    match p with
    | QCheck _ _ | QUnlock _ | QUnlockSwap _ _ | QUnlockWake _ | QWake _ => True
    | _ => False
    end.
Proof.
  intros Hsl Hn Hf Hr Ht.
  assert (wake_ok [] [] (queue_init slots n)) as Hi.
  { constructor; cbn [shared threads queue_init].
    - by apply queue_init_ok.
    - by rewrite length_replicate.
    - by intros u st [-> _]%lookup_replicate.
    - by intros u w1 k1 o1 [[=] _]%lookup_replicate.
    - by intros u w1 p1 [[=] _]%lookup_replicate. }
  pose proof (wake_run es [] [] _ c Hi Hf Hr) as Hok. cbn in Hok.
  destruct (wo_asleep _ _ _ Hok t w k own Ht) as [_ [Hs|(u & st & Hu & Hw)]].
  - left. pose proof (wo_queue _ _ _ Hok) as Hq. pose proof (qo_data _ _ _ _ _ Hq) as Hd.
    rewrite (items_ok _ _ _ Hq).
    pose proof (mark_order _ _ (do_prefix _ _ _ _ Hd)) as Hm.
    pose proof (do_room _ _ _ _ Hd) as Hroom. unfold stuck, blocked in Hs. unfold mark in *.
    destruct (role k); cbn [other] in Hs.
    + rewrite is_full_ctr in Hs by (done || lia). lia.
    + rewrite is_empty_ctr in Hs by (done || lia). lia.
  - right. destruct st as [p|]; [|done]. exists u, p.
    destruct p; try done; destruct Hw as [Hr' _]; by eexists.
Qed.

End Spec.

(** ** Concrete queues *)

Definition sending (es : list Z) : call Z := mkCall Producer es [] (Z.of_nat (length es)) 0 false.
Definition receiving (n : Z) : call Z := mkCall Consumer [] [] n 0 false.

Definition steps (t n : nat) : list (event (queue_point Z)) := replicate n (Step t true []).

(** The first thread sends and the second receives. *)
Definition one_each (t : nat) (s : side) : bool :=
  match t, s with 0%nat, Producer | 1%nat, Consumer => true | _, _ => false end.

Lemma one_each_unique t u s : one_each t s = true -> one_each u s = true -> t = u.
Proof. by destruct t as [|[|t]], u as [|[|u]], s. Qed.

(** Two elements are sent at once, and one is received. *)
Definition exchange : list (event (queue_point Z)) :=
  [Call 0%nat (QLock (sending [7; 8]))] ++ steps 0 13 ++
  [Call 1%nat (QLock (receiving 1))] ++ steps 1 12.

Lemma queue_is_fifo_witness :
  exists c, run (queue_machine 2 one_each) exchange (queue_init [0; 0] 2) = Some c /\
    traffic 2 one_each Producer exchange (queue_init [0; 0] 2) = [7; 8] /\
    traffic 2 one_each Consumer exchange (queue_init [0; 0] 2) = [7] /\
    queue_items_remaining 2 (shared c) = 1.
Proof.
  eexists. split; [by vm_compute|].
  assert (traffic 2 one_each Producer exchange (queue_init [0; 0] 2) = [7; 8]) as Hp by by vm_compute.
  assert (traffic 2 one_each Consumer exchange (queue_init [0; 0] 2) = [7]) as Hc by by vm_compute.
  split; [exact Hp|split; [exact Hc|]].
  pose proof (queue_is_fifo 2 ltac:(lia) one_each one_each_unique exchange [0; 0] 2 _ eq_refl
    ltac:(by vm_compute)) as H. cbv zeta in H. rewrite Hp, Hc in H. exact (proj2 (proj2 H)).
Defined.

(** The receiver sleeps on an empty queue; the sender has moved its counter. *)
Definition delivering : list (event (queue_point Z)) :=
  [Call 1%nat (QLock (receiving 1))] ++ steps 1 5 ++
  [Call 0%nat (QLock (sending [7]))] ++ steps 0 8.

Lemma queue_no_lost_wakeup_witness :
  exists c, run (queue_machine 2 one_each) delivering (queue_init [0; 0] 2) = Some c /\
    threads c !! 1%nat = Some (Asleep Producer (QWaiting (receiving 1) 0)) /\
    (queue_items_remaining 2 (shared c) = 0 \/
     exists u p k', threads c !! u = Some (Running p) /\ call_at p = Some k' /\
       role k' = Producer /\
       match p with
       | QCheck _ _ | QUnlock _ | QUnlockSwap _ _ | QUnlockWake _ | QWake _ => True
       | _ => False
       end).
Proof.
  eexists. split; [by vm_compute|]. split; [done|].
  apply (queue_no_lost_wakeup 2 ltac:(lia) one_each one_each_unique delivering [0; 0] 2 _ 1
    Producer (receiving 1) 0 eq_refl);
    [lia|repeat constructor; cbn; lia|by vm_compute|by vm_compute].
Defined.

(** ** Two senders *)

Definition anyone (t : nat) (s : side) : bool := true.

(** The first thread is about to publish 7; the second finds the lock held, fails to add the
    waiters bit because the word changed, and the condition of its loop takes the held lock. *)
Definition two_holders : list (event (queue_point Z)) :=
  [Call 0%nat (QLock (sending [7]))] ++ steps 0 7 ++
  [Call 1%nat (QLock (sending [8]))] ++ steps 1 1 ++ steps 0 1 ++ steps 1 2.

(** The first thread returns and sends 9; both put their element in the same slot. *)
Definition lost_message : list (event (queue_point Z)) :=
  two_holders ++ steps 0 4 ++ [Call 0%nat (QLock (sending [9]))] ++ steps 0 4 ++ steps 1 2 ++
  steps 0 4 ++ steps 1 4 ++ steps 0 3 ++ steps 1 3.

(** The lock of a message queue does not exclude: two senders can be inside at once, and then
    a message is lost.  After three sends that all report success, and no receive, the queue
    holds two elements. *)
Theorem queue_lock_not_exclusive :
  (exists c p0 p1,
     run (queue_machine 4 anyone) two_holders (queue_init [0; 0; 0; 0] 2) = Some c /\
     threads c = [Running p0; Running p1] /\
     inside Producer p0 = true /\ inside Producer p1 = true) /\
  (exists c, run (queue_machine 4 anyone) lost_message (queue_init [0; 0; 0; 0] 2) = Some c /\
     threads c = [Running (QOut 1 []); Running (QOut 1 [])] /\
     queue_items_remaining 4 (shared c) = 2 /\ buffer (shared c) = [7; 8; 0; 0]).
Proof.
  split.
  - eexists _, _, _. split; [by vm_compute|]. split; [done|]. by split.
  - eexists. split; [by vm_compute|]. split; [done|]. by split.
Qed.

(** ** Calls for several elements *)

(** The receiver sleeps on an empty queue of size 1; the sender sends the first of two elements. *)
Definition half_sent : list (event (queue_point Z)) :=
  [Call 1%nat (QLock (receiving 1))] ++ steps 1 5 ++
  [Call 0%nat (QLock (sending [7; 8]))] ++ steps 0 12.

(** Calls for several elements can leave both sides asleep: [queue_send_multiple] wakes the
    receiver only when it returns, so that with more elements to send than there is room it
    fills the queue and sleeps, while the receiver sleeps on a queue that is not empty any
    more.  No step is left but a timeout. *)
Theorem queue_multiple_deadlocks :
  exists c own own',
    run (queue_machine 1 one_each) half_sent (queue_init [0] 2) = Some c /\
    threads c =
      [Asleep Consumer (QWaiting (mkCall Producer [7; 8] [] 1 1 true) own);
       Asleep Producer (QWaiting (receiving 1) own')] /\
    queue_items_remaining 1 (shared c) = 1 /\
    (forall t b ws p, exec (queue_machine 1 one_each) (Step t b ws) c = None /\
       exec (queue_machine 1 one_each) (Call t p) c = None).
Proof.
  eexists _, _, _. split; [by vm_compute|]. split; [done|]. split; [done|].
  intros [|[|t]] b ws p; by split.
Qed.

(** ** Stopping a queue *)

(** The second thread stops the queue between the load and the exchange of the first one's
    [unlock], which then overwrites the destruction bit: the next send succeeds. *)
Example queue_stop_overwritten :
  exists c, run (queue_machine 2 anyone)
    ([Call 0%nat (QLock (sending [7]))] ++ steps 0 10 ++ [Call 1%nat (QStop Producer)] ++ steps 1 4 ++
     steps 0 2 ++ [Call 0%nat (QLock (sending [8]))] ++ steps 0 11) (queue_init [0; 0] 2) = Some c /\
    threads c = [Running (QOut 1 []); Running (QOut 0 [])] /\
    queue_items_remaining 2 (shared c) = 2.
Proof. eexists. split; [by vm_compute|]. by split. Qed.

(** A sender that sleeps on a full queue is not woken when the queue is stopped. *)
Example queue_stop_leaves_sleepers :
  exists c k own, run (queue_machine 1 anyone)
    ([Call 0%nat (QLock (sending [7]))] ++ steps 0 12 ++ [Call 0%nat (QLock (sending [8]))] ++ steps 0 5 ++
     [Call 1%nat (QStop Producer)] ++ steps 1 4) (queue_init [0] 2) = Some c /\
    threads c = [Asleep Consumer (QWaiting k own); Running (QOut 0 [])].
Proof. eexists _, _, _. split; [by vm_compute|]. done. Qed.

(** A fault in the second of two copies: the first element was sent, yet the call reports [-EPERM]. *)
Example queue_send_partial :
  exists c, run (queue_machine 1 one_each)
    ([Call 0%nat (QLock (sending [7; 8]))] ++ steps 0 11 ++ [Call 1%nat (QLock (receiving 1))] ++ steps 1 12 ++
     steps 0 2 ++ [Step 0%nat false []] ++ steps 0 3) (queue_init [0] 2) = Some c /\
    threads c = [Running (QOut (- EPERM) []); Running (QOut 1 [7])].
Proof. eexists. split; [by vm_compute|]. done. Qed.

(** [queue_reset] reports a timeout when it has succeeded. *)
Example queue_reset_reports_timeout (q : MessageQueue Z) :
  queue_reset true true q =
  (mkQueue (with_counter (producer q) 0) (with_counter (consumer q) 0) (buffer q), - ETIMEDOUT).
Proof. done. Qed.
