(* ===== verification/Thread.v ===== *)
(** * The scheduler's threads and queues

    [src/cheriot-rtos/sdk/core/scheduler/thread.h], class [ThreadImpl].  A thread
    is known by its address; [sched] is the store of threads with the class's
    static members.  Two circular doubly linked lists run through every thread:
    [prev]/[next] (a run queue, or the sleep queue of a resource) and
    [timerPrev]/[timerNext] (the list of suspended threads).  The source writes
    the list code twice; here it is written once, over a record of accessors
    [links], and instantiated twice.  A [ThreadImpl **] is a [href], the place of
    a head pointer.  Reading through a null or dangling pointer is the error
    [EFault]; [Debug::Assert] is [dassert].  The step that gives the processor to
    another thread ([yield]) is not a function of this file: operations stop
    before it. *)

From S2P Require Import Prelude.

(** ** Data *)

Inductive ThreadState : Type := Ready | Suspended | Exited.
Inductive WakeReason : Type := WakeTimer | WakeFutex | WakeMultiWaiter | WakeDelete.

#[export] Instance ThreadState_eq_dec : EqDecision ThreadState.
Proof. solve_decision. Defined.
#[export] Instance WakeReason_eq_dec : EqDecision WakeReason.
Proof. solve_decision. Defined.

(** The head pointers a [ThreadImpl **] can designate: the run queues, the list
    of suspended threads, and the sleep queues of futexes and multiwaiters. *)
Inductive href : Type :=
| HPrio (p : Z)
| HWaiting
| HFutex
| HMulti.

#[export] Instance href_eq_dec : EqDecision href.
Proof. solve_decision. Defined.

(** The union of the futex fields and [multiWaiter]: they share storage, so that
    writing a null [multiWaiter] zeroes the futex fields. *)
Inductive wait_union : Type :=
| WFutex (address boosted : Z) (inheriting : bool)
| WMulti (w : option Z).

Definition futexWaitAddress (u : wait_union) : Z :=
  match u with WFutex a _ _ => a | WMulti (Some w) => w | WMulti None => 0 end.
Definition futexPriorityBoostedThread (u : wait_union) : Z :=
  match u with WFutex _ b _ => b | WMulti _ => 0 end.
Definition futexPriorityInheriting (u : wait_union) : bool :=
  match u with WFutex _ _ i => i | WMulti _ => false end.

Record Thread : Type := mkThread {
  prev : option Z;
  next : option Z;
  timerPrev : option Z;
  timerNext : option Z;
  sleepQueue : option href;
  expiryTime : Z;
  waitingOn : wait_union;
  tStackPtr : Z;
  threadId : Z;
  priority : Z;
  OriginalPriority : Z;
  state : ThreadState;
  isYielding : bool;
}.

Definition set_prev v t := mkThread v (next t) (timerPrev t) (timerNext t)
  (sleepQueue t) (expiryTime t) (waitingOn t) (tStackPtr t) (threadId t) (priority t)
  (OriginalPriority t) (state t) (isYielding t).
Definition set_next v t := mkThread (prev t) v (timerPrev t) (timerNext t)
  (sleepQueue t) (expiryTime t) (waitingOn t) (tStackPtr t) (threadId t) (priority t)
  (OriginalPriority t) (state t) (isYielding t).
Definition set_timerPrev v t := mkThread (prev t) (next t) v (timerNext t)
  (sleepQueue t) (expiryTime t) (waitingOn t) (tStackPtr t) (threadId t) (priority t)
  (OriginalPriority t) (state t) (isYielding t).
Definition set_timerNext v t := mkThread (prev t) (next t) (timerPrev t) v
  (sleepQueue t) (expiryTime t) (waitingOn t) (tStackPtr t) (threadId t) (priority t)
  (OriginalPriority t) (state t) (isYielding t).
Definition set_sleepQueue v t := mkThread (prev t) (next t) (timerPrev t) (timerNext t)
  v (expiryTime t) (waitingOn t) (tStackPtr t) (threadId t) (priority t)
  (OriginalPriority t) (state t) (isYielding t).
Definition set_expiryTime v t := mkThread (prev t) (next t) (timerPrev t) (timerNext t)
  (sleepQueue t) v (waitingOn t) (tStackPtr t) (threadId t) (priority t)
  (OriginalPriority t) (state t) (isYielding t).
Definition set_waitingOn v t := mkThread (prev t) (next t) (timerPrev t) (timerNext t)
  (sleepQueue t) (expiryTime t) v (tStackPtr t) (threadId t) (priority t)
  (OriginalPriority t) (state t) (isYielding t).
Definition set_tStackPtr v t := mkThread (prev t) (next t) (timerPrev t) (timerNext t)
  (sleepQueue t) (expiryTime t) (waitingOn t) v (threadId t) (priority t)
  (OriginalPriority t) (state t) (isYielding t).
Definition set_priority v t := mkThread (prev t) (next t) (timerPrev t) (timerNext t)
  (sleepQueue t) (expiryTime t) (waitingOn t) (tStackPtr t) (threadId t) v
  (OriginalPriority t) (state t) (isYielding t).
Definition set_state v t := mkThread (prev t) (next t) (timerPrev t) (timerNext t)
  (sleepQueue t) (expiryTime t) (waitingOn t) (tStackPtr t) (threadId t) (priority t)
  (OriginalPriority t) v (isYielding t).
Definition set_isYielding v t := mkThread (prev t) (next t) (timerPrev t) (timerNext t)
  (sleepQueue t) (expiryTime t) (waitingOn t) (tStackPtr t) (threadId t) (priority t)
  (OriginalPriority t) (state t) v.

(** The static members.  [priorityList] holds [NPrios] head pointers: an absent
    key is a null pointer. *)
Record sched : Type := mkSched {
  threads : gmap Z Thread;
  priorityList : gmap Z Z;
  waitingList : option Z;
  futexWaitingList : option Z;
  multiThreads : option Z;
  priorityMap : Z;
  highestPriority : Z;
  current : option Z;
  schedTStack : Z;
  threadCount : Z;
  ticksSinceBoot : Z;
}.

Definition with_threads m s := mkSched m (priorityList s) (waitingList s)
  (futexWaitingList s) (multiThreads s) (priorityMap s) (highestPriority s)
  (current s) (schedTStack s) (threadCount s) (ticksSinceBoot s).
Definition with_map pm hp s := mkSched (threads s) (priorityList s) (waitingList s)
  (futexWaitingList s) (multiThreads s) pm hp
  (current s) (schedTStack s) (threadCount s) (ticksSinceBoot s).
Definition with_current c s := mkSched (threads s) (priorityList s) (waitingList s)
  (futexWaitingList s) (multiThreads s) (priorityMap s) (highestPriority s)
  c (schedTStack s) (threadCount s) (ticksSinceBoot s).
Definition with_schedTStack v s := mkSched (threads s) (priorityList s) (waitingList s)
  (futexWaitingList s) (multiThreads s) (priorityMap s) (highestPriority s)
  (current s) v (threadCount s) (ticksSinceBoot s).
Definition with_threadCount v s := mkSched (threads s) (priorityList s) (waitingList s)
  (futexWaitingList s) (multiThreads s) (priorityMap s) (highestPriority s)
  (current s) (schedTStack s) v (ticksSinceBoot s).
Definition with_ticks v s := mkSched (threads s) (priorityList s) (waitingList s)
  (futexWaitingList s) (multiThreads s) (priorityMap s) (highestPriority s)
  (current s) (schedTStack s) (threadCount s) v.

Definition get_head (s : sched) (h : href) : option Z :=
  match h with
  | HPrio p => priorityList s !! p
  | HWaiting => waitingList s
  | HFutex => futexWaitingList s
  | HMulti => multiThreads s
  end.

Definition set_head (s : sched) (h : href) (v : option Z) : sched :=
  mkSched (threads s)
    (match h with HPrio p => partial_alter (fun _ => v) p (priorityList s)
                | _ => priorityList s end)
    (match h with HWaiting => v | _ => waitingList s end)
    (match h with HFutex => v | _ => futexWaitingList s end)
    (match h with HMulti => v | _ => multiThreads s end)
    (priorityMap s) (highestPriority s) (current s) (schedTStack s) (threadCount s)
    (ticksSinceBoot s).

(** Reading a thread, writing a field of a thread, following a pointer. *)
Definition get (s : sched) (t : Z) : outcome Thread := deref (threads s !! t).
Definition upd (s : sched) (t : Z) (f : Thread -> Thread) : outcome sched :=
  th ← get s t; Ok (with_threads (<[t := f th]> (threads s)) s).

(** ** The list code, over the two pairs of links *)

Record links : Type := mkLinks {
  l_prev : Thread -> option Z;
  l_next : Thread -> option Z;
  l_set_prev : option Z -> Thread -> Thread;
  l_set_next : option Z -> Thread -> Thread;
}.

Definition run_links : links := mkLinks prev next set_prev set_next.
Definition timer_links : links := mkLinks timerPrev timerNext set_timerPrev set_timerNext.

(** The walk of an insertion: back from the tail, stopping at the first thread
    that [goes_before] the new one does not want to overtake, or after a whole
    turn.  [tail] is [head->prev]. *)
Fixpoint insert_walk (L : links) (overtakes : Thread -> Thread -> bool)
    (fuel : nat) (s : sched) (this : Thread) (tail iter : Z) : outcome Z :=
  match fuel with
  | O => Err EFuel
  | S fuel =>
      it ← get s iter;
      if overtakes this it then
        p ← deref (l_prev L it);
        if bool_decide (p = tail) then Ok p
        else insert_walk L overtakes fuel s this tail p
      else Ok iter
  end.

Definition thread_list_insert (L : links) (overtakes : Thread -> Thread -> bool)
    (s : sched) (t : Z) (headPtr : href) : outcome sched :=
  match get_head s headPtr with
  | None =>
      s ← upd (set_head s headPtr (Some t)) t (l_set_prev L (Some t));
      upd s t (l_set_next L (Some t))
  | Some head =>
      hd ← get s head;
      tail ← deref (l_prev L hd);
      this ← get s t;
      iter ← insert_walk L overtakes (S (size (threads s))) s this tail tail;
      it ← get s iter;
      iterNext ← deref (l_next L it);
      s ← upd s iterNext (l_set_prev L (Some t));
      s ← upd s iter (l_set_next L (Some t));
      s ← upd s t (l_set_next L (Some iterNext));
      s ← upd s t (l_set_prev L (Some iter));
      hd ← get s head;
      this ← get s t;
      Ok (if overtakes this hd then set_head s headPtr (Some t) else s)
  end.

Definition thread_list_remove (debug : bool) (L : links) (s : sched) (t : Z)
    (headPtr : href) : outcome sched :=
  th ← get s t;
  s ← (if bool_decide (l_next L th = Some t) then
         _ ← dassert debug (bool_decide (l_prev L th = Some t));
         Ok (set_head s headPtr None)
       else
         prevThread ← deref (l_prev L th);
         nextThread ← deref (l_next L th);
         s1 ← upd s prevThread (l_set_next L (Some nextThread));
         s2 ← upd s1 nextThread (l_set_prev L (Some prevThread));
         if bool_decide (get_head s headPtr = Some t)
         then th' ← get s2 t; Ok (set_head s2 headPtr (l_next L th'))
         else Ok s2);
  s ← upd s t (l_set_prev L None);
  upd s t (l_set_next L None).

(** [iter->priority < priority], and, for the timer list,
    [iter->expiryTime > expiryTime]. *)
Definition higher_priority (this it : Thread) : bool := priority it <? priority this.
Definition expires_before (this it : Thread) : bool := expiryTime this <? expiryTime it.

Section Ops.
Context (debug : bool).

Definition list_insert (s : sched) (t : Z) (headPtr : href) : outcome sched :=
  thread_list_insert run_links higher_priority s t headPtr.

Definition timer_list_insert (s : sched) (t : Z) (headPtr : href) : outcome sched :=
  th ← get s t;
  _ ← dassert debug (bool_decide (state th = Suspended));
  thread_list_insert timer_links expires_before s t headPtr.

Definition list_remove (s : sched) (t : Z) (headPtr : href) : outcome sched :=
  thread_list_remove debug run_links s t headPtr.

Definition timer_list_remove (s : sched) (t : Z) (headPtr : href) : outcome sched :=
  thread_list_remove debug timer_links s t headPtr.

(** ** The operations of a thread *)

Definition priority_map_remove (s : sched) (t : Z) : outcome sched :=
  th ← get s t;
  if bool_decide (priorityList s !! priority th = None) then
    let pm := Z.land (priorityMap s) (u32 (Z.lnot (u32 (Z.shiftl 1 (priority th))))) in
    Ok (with_map pm (if pm =? 0 then 0 else 31 - clz 32 pm) s)
  else Ok s.

Definition ready (s : sched) (t : Z) (reason : WakeReason) : outcome sched :=
  th ← get s t;
  _ ← dassert debug (bool_decide (state th = Suspended));
  s ← timer_list_remove s t HWaiting;
  s ← (match sleepQueue th with
       | None => Ok s
       | Some q => s ← list_remove s t q; upd s t (set_sleepQueue None)
       end);
  s ← upd s t (set_state Ready);
  let s :=
    if bool_decide (priorityList s !! priority th = None) then
      with_map (Z.lor (priorityMap s) (u32 (Z.shiftl 1 (priority th))))
        (if highestPriority s <? priority th then priority th else highestPriority s) s
    else s in
  s ← (if bool_decide (reason = WakeTimer) || bool_decide (reason = WakeDelete)
       then upd s t (set_waitingOn (WMulti None)) else Ok s);
  s ← list_insert s t (HPrio (priority th));
  upd s t (set_isYielding false).

(** [suspend_internal], with the expiry time that the timeout denotes. *)
Definition suspend_internal (s : sched) (t : Z) (expiry : Z)
    (newSleepQueue : option href) (yieldNotSleep : bool) : outcome sched :=
  s ← upd s t (set_isYielding yieldNotSleep);
  th ← get s t;
  _ ← dassert debug (bool_decide (state th = Ready));
  s ← list_remove s t (HPrio (priority th));
  s ← upd s t (set_state Suspended);
  s ← priority_map_remove s t;
  s ← (match newSleepQueue with
       | None => Ok s
       | Some q => s ← list_insert s t q; upd s t (set_sleepQueue (Some q))
       end);
  s ← upd s t (set_expiryTime expiry);
  timer_list_insert s t HWaiting.

Definition priority_boost (s : sched) (t : Z) (newPriority : Z) : outcome sched :=
  th ← get s t;
  let newPriority := Z.max newPriority (OriginalPriority th) in
  if newPriority =? priority th then Ok s
  else
    s ← (if bool_decide (state th = Ready) then
           s ← list_remove s t (HPrio (priority th));
           s ← list_insert s t (HPrio newPriority);
           let s := with_map (Z.lor (priorityMap s) (u32 (Z.shiftl 1 newPriority)))
                      (highestPriority s) s in
           priority_map_remove s t
         else Ok s);
    s ← (match sleepQueue th with Some q => list_remove s t q | None => Ok s end);
    s ← upd s t (set_priority newPriority);
    match sleepQueue th with Some q => list_insert s t q | None => Ok s end.

(** [schedule]: [tstack] is the trusted stack of the interrupted context, [now]
    the value of [TimerCore::time()]; the result is the stack to install. *)
Definition schedule (s : sched) (tstack now : Z) : outcome (Z * sched) :=
  let th := current s in
  s ← (match th with
       | Some c =>
           tc ← get s c;
           upd (if bool_decide (state tc = Ready)
                then set_head s (HPrio (priority tc)) (next tc) else s)
             c (set_tStackPtr tstack)
       | None => Ok (with_schedTStack tstack s)
       end);
  let s := with_current (priorityList s !! highestPriority s) s in
  match current s with
  | Some c =>
      tc ← get s c;
      _ ← dassert debug (highestPriority s =? priority tc);
      s ← (if bool_decide (current s = th) then Ok s else upd s c (set_expiryTime now));
      Ok (tStackPtr tc, s)
  | None => Ok (schedTStack s, s)
  end.

(** [exit]: true when this was the last thread. *)
Definition exit (s : sched) : outcome (bool * sched) :=
  c ← deref (current s);
  tc ← get s c;
  s ← list_remove s c (HPrio (priority tc));
  s ← priority_map_remove s c;
  s ← upd s c (set_state Exited);
  let n := u16 (threadCount s - 1) in
  Ok (n =? 0, with_threadCount n s).

Definition any_ready (s : sched) : bool := negb (priorityMap s =? 0).

Definition is_highest_priority (s : sched) (t : Z) : outcome bool :=
  th ← get s t;
  _ ← dassert debug (priority th <=? highestPriority s);
  Ok (priority th =? highestPriority s).

Definition has_priority_peers (s : sched) (t : Z) : outcome bool :=
  th ← get s t;
  _ ← dassert debug (bool_decide (state th = Ready));
  Ok (negb (bool_decide (next th = Some t))).

Definition has_run_for_full_tick (cyclesPerTick : Z) (s : sched) (t now : Z)
    : outcome bool :=
  th ← get s t;
  _ ← dassert debug (bool_decide (current s = Some t));
  Ok (u64 (expiryTime th + cyclesPerTick) <=? now).

(** The constructor: a thread is created suspended, forever. *)
Definition construct (s : sched) (t tstack threadid prio : Z) : outcome sched :=
  let th := mkThread None None None None None (u64 (-1)) (WMulti None) tstack
              threadid prio prio Suspended false in
  timer_list_insert (with_threads (<[t := th]> (threads s)) s) t HWaiting.

(** [walk_thread_list]: the visitor may remove the thread it is given from the
    list; the next thread was read before the visit. *)
Fixpoint walk_thread_list {A : Type} (fuel : nat) (list : href)
    (visitor : A -> sched -> Z -> outcome (A * sched)) (terminate : A -> bool)
    (a : A) (s : sched) (thread : option Z) : outcome (A * sched) :=
  match fuel with
  | O => Err EFuel
  | S fuel =>
      match thread with
      | None => Ok (a, s)
      | Some t =>
          if terminate a then Ok (a, s)
          else
            th ← get s t;
            let nxt := if bool_decide (get_head s list = next th) then None
                       else next th in
            '(a, s) ← visitor a s t;
            walk_thread_list fuel list visitor terminate a s nxt
      end
  end.
End Ops.
