(* ===== verification/ThreadQueues.v ===== *)
(** * The queues of threads: what the list code of [thread.h] does to a ring

    The two link pairs of a thread are instances of the cell interface of
    [LinkedList], so that the theory of rings applies to thread queues.  [queue L s
    h l]: the head pointer [h] designates the ring [l] (a null pointer the empty
    list).  The lemmas give [thread_list_insert] and [thread_list_remove] as
    functions on lists, and [queues] collects every queue of the scheduler with
    the disjointness that sharing one pair of links requires. *)

From S2P Require Import Prelude LinkedList Thread.

(** ** Threads as cells *)

Definition strip (L : links) (t : Thread) : Thread := l_set_prev L None (l_set_next L None t).

Class LinksLaws (L : links) := {
  next_of_next v t : l_next L (l_set_next L v t) = v;
  prev_of_prev v t : l_prev L (l_set_prev L v t) = v;
  next_of_prev v t : l_next L (l_set_prev L v t) = l_next L t;
  prev_of_next v t : l_prev L (l_set_next L v t) = l_prev L t;
  strip_next v t : strip L (l_set_next L v t) = strip L t;
  strip_prev v t : strip L (l_set_prev L v t) = strip L t;
}.

#[export] Instance run_links_laws : LinksLaws run_links.
Proof. split; reflexivity. Qed.
#[export] Instance timer_links_laws : LinksLaws timer_links.
Proof. split; reflexivity. Qed.

Definition cells (L : links) : Type := gmap Z Thread.

#[export] Instance thread_cells (L : links) : CellOps (cells L) := {|
  cell_prev m p := (m : gmap Z Thread) !! p ≫= l_prev L;
  cell_next m p := (m : gmap Z Thread) !! p ≫= l_next L;
  set_cell_prev m p v :=
    th ← (m : gmap Z Thread) !! p; Some (<[p := l_set_prev L (Some v) th]> (m : gmap Z Thread));
  set_cell_next m p v :=
    th ← (m : gmap Z Thread) !! p; Some (<[p := l_set_next L (Some v) th]> (m : gmap Z Thread));
|}.

Section Cells.
Context (L : links) `{LinksLaws L}.
Implicit Types (m : gmap Z Thread).

#[export] Instance thread_cells_laws : CellLaws (cells L).
Proof.
  refine {| cell_valid := fun (m : cells L) p => is_Some ((m : gmap Z Thread) !! p) |}; cbn.
  - intros m p q. destruct (_ !! p); naive_solver.
  - intros m p q. destruct (_ !! p); naive_solver.
  - intros m p v [c ->]. cbn. eauto.
  - intros m p v [c ->]. cbn. eauto.
  - intros m p v m' q. destruct (_ !! p) eqn:E; cbn; intros; simplify_eq.
    rewrite lookup_insert. case_decide; subst; [rewrite E|]; naive_solver.
  - intros m p v m' q. destruct (_ !! p) eqn:E; cbn; intros; simplify_eq.
    rewrite lookup_insert. case_decide; subst; [rewrite E|]; naive_solver.
  - intros m p v m' q. destruct (_ !! p) eqn:E; cbn; intros; simplify_eq.
    rewrite lookup_insert. repeat case_decide; subst; cbn; try done; [apply next_of_next|congruence..].
  - intros m p v m' q. destruct (_ !! p) eqn:E; cbn; intros; simplify_eq.
    rewrite lookup_insert. case_decide; subst; cbn; [rewrite E; apply prev_of_next|done].
  - intros m p v m' q. destruct (_ !! p) eqn:E; cbn; intros; simplify_eq.
    rewrite lookup_insert. case_decide; subst; cbn; [rewrite E; apply next_of_prev|done].
  - intros m p v m' q. destruct (_ !! p) eqn:E; cbn; intros; simplify_eq.
    rewrite lookup_insert. repeat case_decide; subst; cbn; try done; [apply prev_of_prev|congruence..].
Defined.

Definition tring m (l : list Z) : Prop := ring (m : cells L) l.
Definition tkeeps m m' (P : Z -> Prop) : Prop := keeps (m : cells L) (m' : cells L) P.
Definition strips m : gmap Z Thread := strip L <$> m.

Definition queue (s : sched) (h : href) (l : list Z) : Prop :=
  get_head s h = head l /\ (l = [] \/ tring (threads s) l).

Lemma get_ok s t th : threads s !! t = Some th -> get s t = Ok th.
Proof. unfold get. by intros ->. Qed.

Lemma get_set_head s h v h' :
  get_head (set_head s h v) h' = if decide (h' = h) then v else get_head s h'.
Proof.
  destruct h as [p| | |], h' as [p'| | |]; cbn; try done.
  rewrite lookup_partial_alter. repeat case_decide; naive_solver.
Qed.

Lemma set_head_same s h : set_head s h (get_head s h) = s.
Proof.
  destruct s, h; cbn; try done. unfold set_head. cbn. f_equal.
  apply map_eq. intros q. rewrite lookup_partial_alter. case_decide; by subst.
Qed.

(** *** One access of the list code *)

Lemma cell_next_get m p q :
  cell_next (m : cells L) p = Some q -> exists th, m !! p = Some th /\ l_next L th = Some q.
Proof. cbn. destruct (m !! p); naive_solver. Qed.

Lemma cell_prev_get m p q :
  cell_prev (m : cells L) p = Some q -> exists th, m !! p = Some th /\ l_prev L th = Some q.
Proof. cbn. destruct (m !! p); naive_solver. Qed.

Lemma upd_next s p v m' :
  set_cell_next (threads s : cells L) p v = Some m' ->
  upd s p (l_set_next L (Some v)) = Ok (with_threads m' s).
Proof.
  unfold upd, get. cbn. destruct (threads s !! p); cbn; [|done].
  by intros [= ->].
Qed.

Lemma upd_prev s p v m' :
  set_cell_prev (threads s : cells L) p v = Some m' ->
  upd s p (l_set_prev L (Some v)) = Ok (with_threads m' s).
Proof.
  unfold upd, get. cbn. destruct (threads s !! p); cbn; [|done].
  by intros [= ->].
Qed.

Lemma strips_next (m : gmap Z Thread) p v (m' : gmap Z Thread) :
  set_cell_next (m : cells L) p v = Some m' -> strips m' = strips m.
Proof.
  cbn. destruct (m !! p) eqn:E; cbn; [|done]. intros [= <-]. unfold strips.
  rewrite fmap_insert, strip_next. apply insert_id. by rewrite lookup_fmap, E.
Qed.

Lemma strips_prev (m : gmap Z Thread) p v (m' : gmap Z Thread) :
  set_cell_prev (m : cells L) p v = Some m' -> strips m' = strips m.
Proof.
  cbn. destruct (m !! p) eqn:E; cbn; [|done]. intros [= <-]. unfold strips.
  rewrite fmap_insert, strip_prev. apply insert_id. by rewrite lookup_fmap, E.
Qed.

Lemma strips_lookup m m' p th :
  strips m' = strips m -> m !! p = Some th ->
  exists th', m' !! p = Some th' /\ strip L th' = strip L th.
Proof.
  intros E Hp. assert (strips m' !! p = Some (strip L th)) as Hp'.
  { by rewrite E; unfold strips; rewrite lookup_fmap, Hp. }
  unfold strips in Hp'. rewrite lookup_fmap in Hp'.
  destruct (m' !! p) as [th'|]; [|done]. cbn in Hp'. exists th'. split; congruence.
Qed.

(** A ring of threads is no longer than the store is large. *)
Lemma tring_length m l : tring m l -> (length l <= size m)%nat.
Proof.
  intros Hr. assert (NoDup l) as Hnd by (by eapply ring_NoDup).
  rewrite <- (size_list_to_set (C:=gset Z) l), <- (size_dom (D:=gset Z) m) by done.
  apply subseteq_size. intros x Hx%elem_of_list_to_set.
  apply elem_of_dom. exact (ring_valid (S := cells L) m l x Hr Hx).
Qed.
End Cells.

(** Run one write of the list code, keeping the equations of the cell laws and
    the equality of everything but the links. *)
Ltac thread_write L :=
  match goal with
  | |- context [upd ?s ?p (l_set_next L (Some ?v))] =>
      let m := fresh "m" in let E := fresh "E" in
      destruct (set_next_ok (S := cells L) (threads s) p v) as [m E];
      [cbn [threads with_threads set_head]; cell_valid_tac
      |rewrite (upd_next L s p v m E); cbn [mbind outcome_bind];
       cbn [threads with_threads set_head] in E |- *]
  | |- context [upd ?s ?p (l_set_prev L (Some ?v))] =>
      let m := fresh "m" in let E := fresh "E" in
      destruct (set_prev_ok (S := cells L) (threads s) p v) as [m E];
      [cbn [threads with_threads set_head]; cell_valid_tac
      |rewrite (upd_prev L s p v m E); cbn [mbind outcome_bind];
       cbn [threads with_threads set_head] in E |- *]
  end.

(** ** Insertion and removal as functions on lists *)

Section ListCode.
Context (L : links) `{LinksLaws L} (ov : Thread -> Thread -> bool).
Context (ov_strip : forall a b a' b',
  strip L a = strip L a' -> strip L b = strip L b' -> ov a b = ov a' b').

(** [s'] is [s] but for the head pointer [h] and the links of the threads in [P]. *)
Definition relinked (h : href) (s s' : sched) (P : Z -> Prop) : Prop :=
  strips L (threads s') = strips L (threads s) /\
  tkeeps L (threads s) (threads s') (fun q => ~ P q) /\
  s' = set_head (with_threads (threads s') s) h (get_head s' h).

Lemma relinked_set_head h s m v P :
  strips L m = strips L (threads s) -> tkeeps L (threads s) m (fun q => ~ P q) ->
  relinked h s (set_head (with_threads m s) h v) P.
Proof.
  intros Hst Hk. split; [done|split; [done|]].
  rewrite get_set_head, decide_True by done. by destruct s, h.
Qed.

Lemma insert_walk_back s this tail y l2 r fuel z :
  chain (threads s : cells L) (y :: l2) ->
  (forall fuel, insert_walk L ov (S fuel) s this tail y = Ok r) ->
  (forall x, x ∈ l2 -> exists th, threads s !! x = Some th /\ ov this th = true) ->
  last (y :: l2) = Some z ->
  (forall l, y :: l2 = l ++ [z] -> tail ∉ l) ->
  (length l2 < fuel)%nat ->
  insert_walk L ov fuel s this tail z = Ok r.
Proof.
  intros Hc Hy. revert fuel z. induction l2 as [|x l2 IH] using rev_ind;
    intros fuel z Hov Hz Ht Hf.
  - injection Hz as <-. destruct fuel; [lia|]. apply Hy.
  - rewrite app_comm_cons, last_snoc in Hz. injection Hz as <-.
    rewrite length_app in Hf. cbn in Hf. destruct fuel as [|fuel]; [lia|].
    destruct (Hov x) as (th & Ex & Eov); [set_solver|].
    cbn [insert_walk]. unfold get. rewrite Ex. cbn [deref mbind outcome_bind].
    rewrite Eov.
    destruct (last (y :: l2)) as [p|] eqn:Ep; [|by apply last_None in Ep].
    pose proof (proj1 (last_Some _ _) Ep) as [l0 El0].
    rewrite app_comm_cons, El0, <- app_assoc in Hc. cbn [app] in Hc.
    pose proof (chain_link _ _ _ _ _ Hc) as [_ Hp].
    destruct (cell_prev_get L _ _ _ Hp) as (th' & Ex' & Ep').
    assert (th' = th) as -> by congruence. rewrite Ep'. cbn [deref mbind outcome_bind].
    assert (tail ∉ y :: l2) as Hnin by (by apply Ht).
    rewrite bool_decide_eq_false_2 by (intros ->; apply Hnin; rewrite El0; set_solver).
    apply IH; [|set_solver|done| |lia].
    + rewrite El0. rewrite cons_middle, app_assoc in Hc. by apply chain_app_l in Hc.
    + intros l El Htl. apply Hnin. rewrite El. set_solver.
Qed.

(** From the tail, the walk finds the thread the new one goes behind. *)
Lemma insert_walk_finds s this c cs l1 l2 tail :
  c :: cs = l1 ++ l2 -> tring L (threads s) (c :: cs) -> last (c :: cs) = Some tail ->
  (forall x, x ∈ l1 -> exists th, threads s !! x = Some th /\ ov this th = false) ->
  (forall x, x ∈ l2 -> exists th, threads s !! x = Some th /\ ov this th = true) ->
  exists iter, last (l2 ++ l1) = Some iter /\
    insert_walk L ov (S (size (threads s))) s this tail tail = Ok iter.
Proof.
  intros El Hr Htail H1 H2.
  pose proof (tring_length L _ _ Hr) as Hlen.
  assert (Hdup : NoDup (c :: cs)) by (by eapply ring_NoDup).
  assert (Hsz : (length (c :: cs) = length l1 + length l2)%nat)
    by (by rewrite El, length_app).
  assert (Hch : chain (threads s : cells L) (c :: cs)).
  { destruct Hr as [_ Hch]. by apply chain_app_l in Hch. }
  assert (Ht : forall l, c :: cs = l ++ [tail] -> tail ∉ l).
  { intros l E Hin. rewrite E in Hdup. apply NoDup_app in Hdup as (_ & Hd & _).
    by apply (Hd tail Hin), list_elem_of_singleton. }
  destruct l1 as [|y l1 _] using rev_ind.
  - cbn [app] in El. subst l2. exists tail. rewrite app_nil_r. split; [done|].
    destruct (ring_prev _ _ _ Hr) as (t' & Et' & _ & Hp). rewrite Htail in Et'.
    injection Et' as <-.
    destruct (cell_prev_get L _ _ _ Hp) as (th & Ec & Ep).
    eapply (insert_walk_back s this tail c cs); [done| |set_solver|done|done|cbn in *; lia].
    intros fuel. cbn [insert_walk]. unfold get. rewrite Ec. cbn [deref mbind outcome_bind].
    destruct (H2 c) as (th' & Ec' & Eov); [set_solver|].
    assert (th' = th) as -> by congruence. rewrite Eov, Ep.
    cbn [deref mbind outcome_bind]. by rewrite bool_decide_eq_true_2.
  - exists y. split; [by rewrite app_assoc, last_snoc|].
    rewrite <- app_assoc in El. cbn [app] in El.
    assert (Hl2 : last (y :: l2) = Some tail).
    { by rewrite El, last_app_cons in Htail. }
    eapply (insert_walk_back s this tail y l2); [| |done|done| |].
    + rewrite El in Hch. by apply chain_app_r in Hch.
    + intros fuel. cbn [insert_walk]. unfold get.
      destruct (H1 y) as (th & Ey & Eov); [set_solver|]. rewrite Ey. cbn. by rewrite Eov.
    + intros l E Hin. apply (Ht (l1 ++ l)); [|set_solver].
      by rewrite El, E, app_assoc.
    + rewrite length_app in Hsz. cbn in *. lia.
Qed.

Lemma insert_empty s t h this :
  get_head s h = None -> threads s !! t = Some this ->
  exists s', thread_list_insert L ov s t h = Ok s' /\
    queue L s' h [t] /\ relinked h s s' (fun q => q = t).
Proof.
  intros Hh Ht. unfold thread_list_insert. rewrite Hh.
  assert (Hv : cell_valid (threads s : cells L) t) by (exists this; exact Ht).
  thread_write L. thread_write L.
  eexists; split; [done|]. split; [split; [by destruct h; cbn; rewrite ?lookup_partial_alter_eq|right]|].
  - apply ring_singleton. cbn [threads with_threads set_head]. unfold linked.
    cell_reads. by rewrite !decide_True.
  - unfold relinked, tkeeps. splits.
    + cbn [threads with_threads set_head].
      by rewrite (strips_next L _ _ _ _ E0), (strips_prev L _ _ _ _ E).
    + intros q Hq. cbn [threads with_threads set_head]. cell_reads.
      by rewrite !decide_False.
    + by destruct h, s; cbn; rewrite ?lookup_partial_alter_eq.
Qed.

(** The four writes that link [t] between the last cell of a ring and its first. *)
Lemma insert_writes {B} s (k : sched -> outcome B) t c cs iter :
  tring L (threads s) (c :: cs) -> last (c :: cs) = Some iter ->
  t ∉ c :: cs -> is_Some (threads s !! t) ->
  exists m, (s1 ← upd s c (l_set_prev L (Some t));
             s2 ← upd s1 iter (l_set_next L (Some t));
             s3 ← upd s2 t (l_set_next L (Some c));
             s4 ← upd s3 t (l_set_prev L (Some iter)); k s4) = k (with_threads m s) /\
    strips L m = strips L (threads s) /\ tring L m (t :: c :: cs) /\
    tkeeps L (threads s) m (fun q => q ∉ t :: c :: cs).
Proof.
  intros Hr Eiter Htc Vt. destruct (ring_prev _ _ _ Hr) as (iter' & Eit & Hli).
  rewrite Eiter in Eit. injection Eit as <-.
  destruct (linked_valid _ _ _ Hli) as [Vi Vc].
  assert (Hcin : c ∈ c :: cs) by set_solver.
  pose proof (last_Some_elem_of _ _ Eiter) as Hiin.
  change (cell_valid (threads s : cells L) t) in Vt.
  thread_write L. thread_write L. thread_write L. thread_write L.
  assert (Hsp : spliced (threads s : cells L) (m2 : cells L) c iter t t).
  { intros q. cell_reads. assert (t <> c) by (intros ->; done). split; decide_done. }
  exists m2. splits; [by destruct s|by rewrite (strips_prev L _ _ _ _ E2),
    (strips_next L _ _ _ _ E1), (strips_next L _ _ _ _ E0), (strips_prev L _ _ _ _ E)| |].
  - apply (ring_rotate m2 (c :: cs) [t]).
    eapply (spliced_ring (threads s : cells L) (m2 : cells L) c cs iter t [] t);
      [|eapply chain_app_l; apply (proj2 Hr)|done|done|done|done].
    cbn. rewrite app_comm_cons, Permutation_app_comm. cbn. apply NoDup_cons.
    split; [done|by eapply ring_NoDup].
  - eapply spliced_keeps; [done|set_solver..].
Qed.

(** Insertion: behind [l1], which the thread does not overtake, and before [l2],
    which it does. *)
Lemma insert_spec s h t this l1 l2 :
  queue L s h (l1 ++ l2) -> threads s !! t = Some this -> t ∉ l1 ++ l2 ->
  (forall x th, x ∈ l1 -> threads s !! x = Some th -> ov this th = false) ->
  (forall x th, x ∈ l2 -> threads s !! x = Some th -> ov this th = true) ->
  exists s', thread_list_insert L ov s t h = Ok s' /\
    queue L s' h (l1 ++ t :: l2) /\ relinked h s s' (fun q => q ∈ l1 ++ t :: l2).
Proof.
  intros [Hh Hr] Ht Hnin H1 H2. destruct (l1 ++ l2) as [|head rest] eqn:El.
  { apply app_nil in El as [-> ->].
    destruct (insert_empty s t h this Hh Ht) as (s' & E & Hq & Hst & Hk & Hs').
    exists s'. splits; [done|done|]. unfold relinked. splits; [done| |done].
    intros q Hq'. apply Hk. set_solver. }
  destruct Hr as [|Hr]; [done|].
  assert (Hval : forall x, x ∈ l1 ++ l2 -> exists th, threads s !! x = Some th).
  { intros x Hx. rewrite El in Hx. exact (ring_valid (S := cells L) _ _ _ Hr Hx). }
  destruct (ring_prev _ _ _ Hr) as (tail & Etail & Hlt).
  destruct (insert_walk_finds s this head rest l1 l2 tail) as (iter & Eiter & Ewalk);
    [done|done|done|intros x Hx; destruct (Hval x); set_solver..|].
  assert (exists c cs, l2 ++ l1 = c :: cs) as (c & cs & Ec).
  { destruct l2; [destruct l1|]; cbn; eauto. }
  rewrite Ec in Eiter.
  assert (Hr' : tring L (threads s) (c :: cs)).
  { rewrite <- Ec. apply ring_rotate. by rewrite El. }
  destruct (ring_prev _ _ _ Hr') as (iter' & Eit' & Hli).
  rewrite Eiter in Eit'. injection Eit' as <-.
  unfold thread_list_insert. cbn [list.head] in Hh. rewrite Hh.
  destruct (cell_prev_get L _ _ _ (proj2 Hlt)) as (hd & Ehd & Eprev).
  destruct (cell_next_get L _ _ _ (proj1 Hli)) as (it & Eit & Enext).
  rewrite (get_ok _ _ _ Ehd). cbn [mbind outcome_bind]. rewrite Eprev.
  cbn [deref mbind outcome_bind]. rewrite (get_ok _ _ _ Ht). cbn [mbind outcome_bind].
  rewrite Ewalk. cbn [mbind outcome_bind]. rewrite (get_ok _ _ _ Eit).
  cbn [mbind outcome_bind]. rewrite Enext. cbn [deref mbind outcome_bind].
  destruct (insert_writes s (fun s => hd ← get s head; this ← get s t;
    Ok (if ov this hd then set_head s h (Some t) else s)) t c cs iter)
    as (m & Em & Hst & Hrm & Hk);
    [done|done|by rewrite <- Ec, Permutation_app_comm, El|by eexists|].
  rewrite Em. clear Em.
  destruct (strips_lookup L _ _ _ _ Hst Ehd) as (hd' & Ehd' & Shd).
  destruct (strips_lookup L _ _ _ _ Hst Ht) as (this' & Eth' & Sth).
  rewrite (get_ok (with_threads m s) _ _ Ehd'), (get_ok (with_threads m s) _ _ Eth'). cbn [mbind outcome_bind].
  rewrite (ov_strip _ _ _ _ Sth Shd).
  assert (Hring : tring L m (l1 ++ t :: l2)).
  { apply (ring_rotate m (t :: l2) l1). cbn [app]. by rewrite Ec. }
  assert (Hkeep : tkeeps L (threads s) m (fun q => q ∉ l1 ++ t :: l2)).
  { intros q Hq. apply Hk. rewrite <- Ec. set_solver. }
  eexists; split; [done|].
  destruct l1 as [|y l1].
  - cbn in El. subst l2. rewrite (H2 head); [|left|done].
    split; [split; [by rewrite get_set_head, decide_True|by right]|
     apply relinked_set_head; [exact Hst|exact Hkeep]].
  - cbn in El. injection El as -> El. rewrite (H1 head); [|left|done].
    split; [split; [by destruct h|by right]|].
    rewrite <- (set_head_same (with_threads m s) h).
    apply (relinked_set_head h s m); [exact Hst|exact Hkeep].
Qed.

End ListCode.

Section Removal.
Context (L : links) `{LinksLaws L}.

Lemma upd_ok s t th f :
  threads s !! t = Some th -> upd s t f = Ok (with_threads (<[t := f th]> (threads s)) s).
Proof. intros E. unfold upd. by rewrite (get_ok _ _ _ E). Qed.

(** The removed thread's links are cleared. *)
Lemma clear_links s t th :
  threads s !! t = Some th ->
  exists m, (s ← upd s t (l_set_prev L None); upd s t (l_set_next L None)) =
    Ok (with_threads m s) /\
    strips L m = strips L (threads s) /\ tkeeps L (threads s) m (fun q => q <> t).
Proof.
  intros E. rewrite (upd_ok _ _ _ _ E). cbn [mbind outcome_bind].
  erewrite upd_ok; [|apply lookup_insert_eq]. cbn [threads with_threads].
  rewrite insert_insert_eq. eexists; split; [by destruct s|]. split.
  - unfold strips. rewrite fmap_insert, strip_next, strip_prev.
    apply insert_id. by rewrite lookup_fmap, E.
  - intros q Hq. cbn. by rewrite lookup_insert_ne by congruence.
Qed.

(** Removal of the only thread, and of one of several. *)
Lemma unlink_spec debug s h l1 t l2 th :
  queue L s h (l1 ++ t :: l2) -> threads s !! t = Some th ->
  exists m, (if bool_decide (l_next L th = Some t) then
         _ ← dassert debug (bool_decide (l_prev L th = Some t));
         Ok (set_head s h None)
       else
         prevThread ← deref (l_prev L th);
         nextThread ← deref (l_next L th);
         s1 ← upd s prevThread (l_set_next L (Some nextThread));
         s2 ← upd s1 nextThread (l_set_prev L (Some prevThread));
         if bool_decide (get_head s h = Some t)
         then th' ← get s2 t; Ok (set_head s2 h (l_next L th'))
         else Ok s2) = Ok (set_head (with_threads m s) h (list.head (l1 ++ l2))) /\
    (l1 ++ l2 = [] \/ tring L m (l1 ++ l2)) /\
    strips L m = strips L (threads s) /\
    tkeeps L (threads s) m (fun q => q ∉ l1 ++ t :: l2).
Proof.
  intros [Hh [Hr|Hr]] Ht; [by apply app_nil in Hr as [_ ?]|].
  pose proof (ring_rotate _ _ _ Hr) as Hr'. cbn [app] in Hr'.
  destruct (ring_prev _ _ _ Hr') as (p & Ep & Hlp).
  destruct (ring_next _ _ _ Hr') as (n & En & Hln).
  destruct (cell_prev_get L _ _ _ (proj2 Hlp)) as (th' & E' & Eprev).
  assert (th' = th) as -> by congruence. clear E'.
  destruct (cell_next_get L _ _ _ (proj1 Hln)) as (th' & E' & Enext).
  assert (th' = th) as -> by congruence. clear E'.
  assert (Hnd : NoDup (t :: l2 ++ l1)) by (by eapply ring_NoDup).
  apply NoDup_cons in Hnd as [Hnin _].
  rewrite Eprev, Enext. destruct (l2 ++ l1) as [|n' r] eqn:E21.
  - apply app_nil in E21 as [-> ->]. cbn in En, Ep. injection En as <-.
    injection Ep as <-. rewrite !bool_decide_eq_true_2 by done.
    exists (threads s). unfold dassert. rewrite andb_false_r. splits; [by destruct s|by left|done|].
    by intros q _.
  - cbn in En. injection En as ->. rewrite last_cons_cons in Ep.
    rewrite bool_decide_eq_false_2 by (intros [= ->]; set_solver).
    destruct (ring_split (threads s : cells L) t [] n r Hr')
      as (er & q & Her & Hq & Hla & Hlq & _ & Hcr & _ & Nr & _).
    rewrite Ep in Hq. injection Hq as <-. cbn in Her. injection Her as <-.
    destruct (linked_valid _ _ _ Hlp) as [Vp _], (linked_valid _ _ _ Hln) as [_ Vn].
    cbn [deref mbind outcome_bind]. thread_write L. thread_write L.
    pose proof (last_Some_elem_of _ _ Ep) as Hpin.
    assert (Htn : cell_next (m0 : cells L) t = Some n).
    { cell_reads. rewrite decide_False by (intros ->; done). apply Hln. }
    destruct (cell_next_get L _ _ _ Htn) as (th' & Eth' & Enext').
    exists m0. splits.
    + rewrite (get_ok (with_threads m0 (with_threads m s)) _ _ Eth').
      cbn [mbind outcome_bind]. rewrite Enext'.
      destruct l1 as [|y l1].
      * rewrite app_nil_r in E21. subst l2. rewrite bool_decide_eq_true_2; [by destruct s|].
        by destruct h.
      * rewrite bool_decide_eq_false_2.
        { f_equal. cbn [app list.head] in Hh |- *. rewrite <- Hh.
          transitivity (with_threads m0 s); [by destruct s|]. symmetry.
          etransitivity; [|apply (set_head_same (with_threads m0 s) h)]. by destruct h. }
        replace (get_head (with_threads m0 (with_threads m s)) h) with (get_head s h)
          by (by destruct h).
        rewrite Hh. cbn. intros [= ->]. apply Hnin. rewrite <- E21. set_solver.
    + right. apply ring_rotate. rewrite E21.
      eapply (chain_bridge (threads s : cells L)); [done|done|done|done| |];
        intros z; by cell_reads.
    + by rewrite (strips_prev L _ _ _ _ E0), (strips_next L _ _ _ _ E).
    + intros z Hz. assert (z ∉ t :: n :: r).
      { rewrite <- E21. set_solver. }
      cell_reads. rewrite !decide_False; [done|set_solver..].
Qed.

Lemma remove_spec debug s h l1 t l2 :
  queue L s h (l1 ++ t :: l2) ->
  exists s', thread_list_remove debug L s t h = Ok s' /\
    queue L s' h (l1 ++ l2) /\ relinked L h s s' (fun q => q ∈ l1 ++ t :: l2).
Proof.
  intros Hq. assert (Hr : tring L (threads s) (l1 ++ t :: l2)).
  { destruct Hq as [_ [E|E]]; [by apply app_nil in E as [_ ?]|done]. }
  destruct (ring_valid (S := cells L) (threads s) _ t Hr) as [th Ht]; [set_solver|].
  assert (Hnin : t ∉ l1 ++ l2).
  { apply ring_NoDup in Hr. rewrite <- Permutation_middle in Hr.
    by apply NoDup_cons in Hr as [? _]. }
  destruct (unlink_spec debug s h l1 t l2 th Hq Ht) as (m & Em & Hrm & Hst & Hk).
  unfold thread_list_remove. rewrite (get_ok _ _ _ Ht). cbn [mbind outcome_bind].
  cbn [mbind outcome_bind] in Em. rewrite Em.
  destruct (strips_lookup L _ _ _ _ Hst Ht) as (th' & Et' & _).
  destruct (clear_links (set_head (with_threads m s) h (list.head (l1 ++ l2))) t th')
    as (m' & Em' & Hst' & Hk'); [done|].
  cbn [mbind outcome_bind] in Em' |- *. rewrite Em'. eexists; split; [done|]. split.
  - split; [destruct h; cbn; by rewrite ?lookup_partial_alter_eq|].
    destruct Hrm as [?|Hrm]; [by left|right].
    eapply ring_frame; [exact Hrm|]. intros q Hq'. apply Hk'. by intros ->.
  - split; [by rewrite <- Hst|]. split.
    + intros q Hq'. destruct (Hk q) as [E1 E2]; [done|].
      destruct (Hk' q) as [E1' E2']; [set_solver|]. split; cbn in *; congruence.
    + destruct h, s; cbn; by rewrite ?lookup_partial_alter_eq.
Qed.
End Removal.
