(* ===== verification/ThreadInv.v ===== *)
(** * The scheduler's invariant

    [wf s a]: the queues of the store [s] are the lists [a]; a ready thread is in
    the run queue of its priority, a suspended one in the list of suspended
    threads and in its sleep queue; sleep queues are sorted by priority, the list
    of suspended threads by expiry time; [priorityMap] has the bits of the
    non-empty run queues and [highestPriority] is the highest of them.  The
    abstract state of the scheduler is [a], and [requeued] is the effect on it of
    every operation of a thread: the thread leaves all its queues and joins, in
    order, the queues its new record belongs to. *)

From S2P Require Import Prelude LinkedList Thread ThreadQueues.

Definition is_timer (h : href) : bool := match h with HWaiting => true | _ => false end.
Definition links_of (h : href) : links := if is_timer h then timer_links else run_links.
Definition ov_of (h : href) : Thread -> Thread -> bool :=
  if is_timer h then expires_before else higher_priority.

(** A thread but for its links. *)
Definition core (t : Thread) : Thread := strip run_links (strip timer_links t).

#[export] Instance links_of_laws h : LinksLaws (links_of h).
Proof. destruct h; apply _. Qed.

Lemma core_strip h t t' : strip (links_of h) t = strip (links_of h) t' -> core t = core t'.
Proof. destruct h, t, t'; cbn; intros [=]; subst; reflexivity. Qed.

Lemma core_fields t t' : core t = core t' ->
  sleepQueue t = sleepQueue t' /\ expiryTime t = expiryTime t' /\
  waitingOn t = waitingOn t' /\ tStackPtr t = tStackPtr t' /\ threadId t = threadId t' /\
  priority t = priority t' /\ OriginalPriority t = OriginalPriority t' /\
  state t = state t' /\ isYielding t = isYielding t'.
Proof. destruct t, t'; cbn. intros [=]; subst. tauto. Qed.

Lemma ov_of_core h a b a' b' :
  core a = core a' -> core b = core b' -> ov_of h a b = ov_of h a' b'.
Proof.
  intros Ha%core_fields Hb%core_fields. destruct h; cbn;
    unfold expires_before, higher_priority; f_equal; tauto.
Qed.

Lemma ov_of_strip h a b a' b' :
  strip (links_of h) a = strip (links_of h) a' ->
  strip (links_of h) b = strip (links_of h) b' -> ov_of h a b = ov_of h a' b'.
Proof. intros Ha%core_strip Hb%core_strip. by apply ov_of_core. Qed.

(** Overtaking is a strict weak order. *)
Lemma ov_of_asym h a b : ov_of h a b = true -> ov_of h b a = false.
Proof. destruct h; cbn; unfold expires_before, higher_priority; lia. Qed.

Lemma ov_of_trans h a b c :
  ov_of h a b = true -> ov_of h c b = false -> ov_of h a c = true.
Proof. destruct h; cbn; unfold expires_before, higher_priority; lia. Qed.

Lemma ov_of_irrefl h a b : priority a = priority b -> is_timer h = false -> ov_of h a b = false.
Proof. destruct h; cbn; unfold higher_priority; try done; lia. Qed.

(** ** All the queues *)

Definition queues (s : sched) (a : href -> list Z) : Prop :=
  forall h, queue (links_of h) s h (a h).

Definition aset (a : href -> list Z) (h : href) (l : list Z) : href -> list Z :=
  fun h' => if decide (h' = h) then l else a h'.

Definition rem (t : Z) (l : list Z) : list Z := filter (fun x => x <> t) l.

Definition statics (s : sched) :=
  (priorityMap s, highestPriority s, current s, schedTStack s, threadCount s,
   ticksSinceBoot s).

Lemma rem_notin t l : t ∉ l -> rem t l = l.
Proof.
  induction l as [|x l IH]; [done|]. intros Hn. unfold rem. cbn.
  rewrite decide_True by set_solver. f_equal. apply IH. set_solver.
Qed.

Lemma rem_split t l1 l2 : NoDup (l1 ++ t :: l2) -> rem t (l1 ++ t :: l2) = l1 ++ l2.
Proof.
  intros Hnd. rewrite <- Permutation_middle in Hnd. apply NoDup_cons in Hnd as [Hn _].
  unfold rem. rewrite filter_app. cbn. rewrite decide_False by naive_solver.
  change (rem t l1 ++ rem t l2 = l1 ++ l2). by rewrite !rem_notin by set_solver.
Qed.

Lemma elem_of_rem x t l : x ∈ rem t l <-> x ∈ l /\ x <> t.
Proof. unfold rem. rewrite list_elem_of_filter. tauto. Qed.

Lemma aset_same a h l h' : h' = h -> aset a h l h' = l.
Proof. intros ->. unfold aset. by rewrite decide_True. Qed.

Lemma aset_other a h l h' : h' <> h -> aset a h l h' = a h'.
Proof. intros. unfold aset. by rewrite decide_False. Qed.

Lemma queues_ext s a a' : (forall h, a h = a' h) -> queues s a -> queues s a'.
Proof. intros E Hq h. rewrite <- E. apply Hq. Qed.

Lemma queues_heads s s' a :
  threads s' = threads s -> (forall h, get_head s' h = get_head s h) ->
  queues s a -> queues s' a.
Proof. intros Et Eh Hq h. destruct (Hq h) as [H1 H2]. split; congruence. Qed.

Lemma queue_NoDup h s l : queue (links_of h) s h l -> NoDup l.
Proof. intros [_ [->|Hr]]; [constructor|by eapply ring_NoDup]. Qed.

Lemma queue_valid h s l x : queue (links_of h) s h l -> x ∈ l -> is_Some (threads s !! x).
Proof.
  intros [_ [->|Hr]] Hx; [by apply not_elem_of_nil in Hx|].
  exact (ring_valid (S := cells (links_of h)) _ _ _ Hr Hx).
Qed.

Lemma queue_null h s l : queue (links_of h) s h l -> get_head s h = None <-> l = [].
Proof. intros [-> _]. destruct l; naive_solver. Qed.

(** A queue is determined by the store. *)
Lemma queue_unique h s l l' :
  queue (links_of h) s h l -> queue (links_of h) s h l' -> l = l'.
Proof.
  intros [Hh Hr] [Hh' Hr']. destruct l as [|x l], l' as [|x' l']; cbn in *; try congruence.
  assert (x' = x) as -> by congruence. f_equal.
  destruct Hr as [|Hr], Hr' as [|Hr']; try done.
  exact (ring_unique (S := cells (links_of h)) _ _ _ _ Hr Hr').
Qed.

(** Changing the links of one kind leaves those of the other kind. *)
Lemma strips_other h h' m m' :
  is_timer h <> is_timer h' ->
  strips (links_of h) m' = strips (links_of h) m ->
  tkeeps (links_of h') m m' (fun _ => True).
Proof.
  intros Hk E q _. assert (strips (links_of h) m' !! q = strips (links_of h) m !! q) as Eq
    by (by rewrite E).
  unfold strips in Eq. rewrite !lookup_fmap in Eq. cbn.
  destruct (m' !! q) as [t1|], (m !! q) as [t2|]; cbn in Eq; simplify_eq; [|done].
  destruct t1, t2, h, h'; cbn in *; try done; by simplify_eq.
Qed.

Lemma strips_core h m m' :
  strips (links_of h) m' = strips (links_of h) m -> core <$> m' = core <$> m.
Proof.
  intros E. apply map_eq. intros q. rewrite !lookup_fmap.
  assert (strips (links_of h) m' !! q = strips (links_of h) m !! q) as Eq by (by rewrite E).
  unfold strips in Eq. rewrite !lookup_fmap in Eq.
  destruct (m' !! q), (m !! q); cbn in *; simplify_eq; [|done].
  f_equal. by eapply core_strip.
Qed.

(** Queues of the same kind share no thread. *)
Definition apart (a : href -> list Z) : Prop :=
  forall h h' x, is_timer h = is_timer h' -> x ∈ a h -> x ∈ a h' -> h = h'.

Lemma queues_relinked s s' a h l P :
  queues s a -> relinked (links_of h) h s s' P -> queue (links_of h) s' h l ->
  (forall h' x, h' <> h -> is_timer h' = is_timer h -> x ∈ a h' -> ~ P x) ->
  queues s' (aset a h l) /\ core <$> threads s' = core <$> threads s /\
  statics s' = statics s.
Proof.
  intros Hq (Hst & Hk & Es) Hl Hd. splits.
  - intros h'. unfold aset. case_decide as Eh; [by subst|].
    destruct (Hq h') as [Hh Hr]. split.
    + rewrite <- Hh, Es, get_set_head, decide_False by done. by destruct h'.
    + destruct Hr as [?|Hr]; [by left|right]. eapply ring_frame; [exact Hr|].
      intros q Hq'. destruct (decide (is_timer h' = is_timer h)) as [Ek|Ek].
      * assert (links_of h' = links_of h) as -> by (unfold links_of; by rewrite Ek).
        apply Hk. by eapply Hd.
      * by eapply (strips_other h h').
  - by eapply strips_core.
  - rewrite Es. by destruct h.
Qed.

Lemma queues_remove debug s a h t :
  queues s a -> apart a -> t ∈ a h ->
  exists s', thread_list_remove debug (links_of h) s t h = Ok s' /\
    queues s' (aset a h (rem t (a h))) /\ core <$> threads s' = core <$> threads s /\
    statics s' = statics s.
Proof.
  intros Hq Hd Ht. pose proof (queue_NoDup _ _ _ (Hq h)) as Hnd.
  apply list_elem_of_split in Ht as (l1 & l2 & El). pose proof (Hq h) as Hqh.
  rewrite El in Hqh, Hnd |- *. rewrite rem_split by done.
  destruct (remove_spec (links_of h) debug s h l1 t l2 Hqh) as (s' & E & Hq' & Hrel).
  exists s'. split; [done|]. eapply queues_relinked; [done|done|done|].
  intros h' x Hne Hk Hx Hx'. apply Hne. rewrite <- El in Hx'. by eapply Hd.
Qed.

Lemma queues_insert s a h t this l1 l2 :
  queues s a -> apart a -> threads s !! t = Some this ->
  (forall h', is_timer h' = is_timer h -> t ∉ a h') -> a h = l1 ++ l2 ->
  (forall x th, x ∈ l1 -> threads s !! x = Some th -> ov_of h this th = false) ->
  (forall x th, x ∈ l2 -> threads s !! x = Some th -> ov_of h this th = true) ->
  exists s', thread_list_insert (links_of h) (ov_of h) s t h = Ok s' /\
    queues s' (aset a h (l1 ++ t :: l2)) /\ core <$> threads s' = core <$> threads s /\
    statics s' = statics s.
Proof.
  intros Hq Hd Ht Hn El H1 H2. pose proof (Hq h) as Hqh. rewrite El in Hqh.
  destruct (insert_spec (links_of h) (ov_of h) (ov_of_strip h) s h t this l1 l2)
    as (s' & E & Hq' & Hrel); [done|done|rewrite <- El; by apply Hn|done|done|].
  exists s'. split; [done|]. eapply queues_relinked; [done|done|done|].
  intros h' x Hne Hk Hx Hx'. rewrite <- Permutation_middle, <- El in Hx'.
  apply elem_of_cons in Hx' as [->|Hx']; [by apply (Hn h')|]. apply Hne. by eapply Hd.
Qed.

(** ** Where threads belong *)

Definition belongs (h : href) (th : Thread) : Prop :=
  match h with
  | HPrio p => state th = Ready /\ priority th = p
  | HWaiting => state th = Suspended
  | HFutex | HMulti => state th = Suspended /\ sleepQueue th = Some h
  end.

#[export] Instance belongs_dec h th : Decision (belongs h th).
Proof. destruct h; cbn [belongs]; apply _. Defined.

Lemma belongs_core h t t' : core t = core t' -> belongs h t <-> belongs h t'.
Proof.
  intros (Es & _ & _ & _ & _ & Ep & _ & Est & _)%core_fields.
  destruct h; cbn; by rewrite ?Es, ?Ep, ?Est.
Qed.

Lemma belongs_one h h' th :
  is_timer h = is_timer h' -> belongs h th -> belongs h' th -> h = h'.
Proof. destruct h, h'; cbn; intros; destruct_and?; try done; congruence. Qed.

(** [y] may stand behind [x] in the queue [h]. *)
Definition behind (m : gmap Z Thread) (h : href) (x y : Z) : Prop :=
  forall tx ty, m !! x = Some tx -> m !! y = Some ty -> ov_of h ty tx = false.

Section Invariant.
Context (NPrios : Z).

Definition thread_ok (th : Thread) : Prop :=
  0 <= OriginalPriority th <= priority th /\ priority th < NPrios /\
  match sleepQueue th with
  | None => True
  | Some q => state th = Suspended /\ (q = HFutex \/ q = HMulti)
  end.

Record fields (m : gmap Z Thread) (a : href -> list Z) : Prop := {
  f_members h t : t ∈ a h <-> exists th, m !! t = Some th /\ belongs h th;
  f_ordered h : StronglySorted (behind m h) (a h);
  f_threads t th : m !! t = Some th -> thread_ok th;
}.

Definition map_ok (pm hp : Z) (a : href -> list Z) : Prop :=
  pm in_u 32 /\
  (forall p, 0 <= p < 32 -> Z.testbit pm p = bool_decide (a (HPrio p) <> [])) /\
  hp = if pm =? 0 then 0 else Z.log2 pm.

Record wf (s : sched) (a : href -> list Z) : Prop := {
  wf_queues : queues s a;
  wf_fields : fields (threads s) a;
  wf_map : map_ok (priorityMap s) (highestPriority s) a;
}.

(** [a'] is [a] with the thread [t], whose record has become [th], moved to the
    queues it now belongs to: behind the threads it may not overtake. *)
Definition requeued (m : gmap Z Thread) (t : Z) (th : Thread) (a a' : href -> list Z)
  : Prop :=
  forall h, if decide (belongs h th) then
    exists l1 l2, rem t (a h) = l1 ++ l2 /\ a' h = l1 ++ t :: l2 /\
      (forall x tx, x ∈ l1 -> m !! x = Some tx -> ov_of h th tx = false) /\
      (forall x tx, x ∈ l2 -> m !! x = Some tx -> ov_of h tx th = false)
  else a' h = rem t (a h).

Lemma core_lookup (m m' : gmap Z Thread) t th :
  core <$> m' = core <$> m -> m !! t = Some th ->
  exists th', m' !! t = Some th' /\ core th' = core th.
Proof.
  intros E Ht. assert ((core <$> m') !! t = Some (core th)) as E'
    by (by rewrite E, lookup_fmap, Ht).
  rewrite lookup_fmap in E'. destruct (m' !! t) as [th'|]; [|done].
  exists th'. split; [done|]. apply (inj Some), E'.
Qed.

Lemma thread_ok_core t t' : core t = core t' -> thread_ok t -> thread_ok t'.
Proof.
  intros (Es & _ & _ & _ & _ & Ep & Eo & Est & _)%core_fields.
  unfold thread_ok. by rewrite Es, Ep, Eo, Est.
Qed.

Lemma sorted_mono {A} (R R' : A -> A -> Prop) l :
  (forall x y, x ∈ l -> y ∈ l -> R x y -> R' x y) -> StronglySorted R l -> StronglySorted R' l.
Proof.
  induction l as [|x l IH]; intros HR Hs; [constructor|].
  apply StronglySorted_inv in Hs as [Hs Hf]. constructor.
  - apply IH; [|done]. intros. apply HR; set_solver.
  - apply Forall_forall. intros y Hy. apply HR; [set_solver..|].
    by eapply Forall_forall in Hf.
Qed.

Lemma fields_core m m' a : core <$> m' = core <$> m -> fields m a -> fields m' a.
Proof.
  intros E [Fm Fo Ft]. split.
  - intros h t. rewrite Fm. split; intros (th & Eth & Hb).
    + destruct (core_lookup _ _ _ _ E Eth) as (th' & Eth' & Ec). exists th'.
      split; [done|]. by eapply belongs_core.
    + destruct (core_lookup _ _ _ _ (eq_sym E) Eth) as (th' & Eth' & Ec). exists th'.
      split; [done|]. by eapply belongs_core.
  - intros h. eapply sorted_mono; [|apply Fo]. intros x y _ _ Hb tx ty Ex Ey.
    destruct (core_lookup _ _ _ _ (eq_sym E) Ex) as (tx' & Ex' & Ecx).
    destruct (core_lookup _ _ _ _ (eq_sym E) Ey) as (ty' & Ey' & Ecy).
    rewrite (ov_of_core h ty tx ty' tx') by done. by apply Hb.
  - intros t th Eth. destruct (core_lookup _ _ _ _ (eq_sym E) Eth) as (th' & Eth' & Ec).
    eapply thread_ok_core; [exact Ec|]. by eapply Ft.
Qed.

Lemma fields_apart m a : fields m a -> apart a.
Proof.
  intros [Fm _ _] h h' x Hk (th & E & Hb)%Fm (th' & E' & Hb')%Fm. simplify_eq.
  by eapply belongs_one.
Qed.

Lemma sorted_insert {A} (R : A -> A -> Prop) l1 l2 t :
  StronglySorted R (l1 ++ l2) -> (forall x, x ∈ l1 -> R x t) -> (forall x, x ∈ l2 -> R t x) ->
  StronglySorted R (l1 ++ t :: l2).
Proof.
  induction l1 as [|y l1 IH]; cbn; intros Hs H1 H2.
  - constructor; [done|]. by apply Forall_forall.
  - apply StronglySorted_inv in Hs as [Hs Hf]. constructor.
    + apply IH; [done| |done]. intros. apply H1. set_solver.
    + apply Forall_forall. intros z Hz. apply elem_of_app in Hz as [Hz|Hz].
      * eapply Forall_forall in Hf; [done|set_solver].
      * apply elem_of_cons in Hz as [->|Hz]; [apply H1; set_solver|].
        eapply Forall_forall in Hf; [done|set_solver].
Qed.

Lemma sorted_filter {A} (R : A -> A -> Prop) (P : A -> Prop) `{forall x, Decision (P x)} l :
  StronglySorted R l -> StronglySorted R (filter P l).
Proof.
  induction l as [|x l IH]; intros Hs; [constructor|].
  apply StronglySorted_inv in Hs as [Hs Hf]. rewrite filter_cons. case_decide; [|by apply IH].
  constructor; [by apply IH|]. apply Forall_forall. intros y Hy.
  apply list_elem_of_filter in Hy as [_ Hy]. by eapply Forall_forall in Hf.
Qed.

(** Re-queueing keeps every list a list of the threads that belong to it, sorted. *)
Lemma fields_requeue m a t th a' :
  fields m a -> thread_ok th -> requeued m t th a a' -> fields (<[t := th]> m) a'.
Proof.
  intros [Fm Fo Ft] Hok Hrq.
  assert (Hne : forall h x tx, x ∈ rem t (a h) -> <[t:=th]> m !! x = Some tx -> m !! x = Some tx).
  { intros h x tx [_ Hx]%elem_of_rem. by rewrite lookup_insert_ne. }
  assert (Hrem : forall h, StronglySorted (behind (<[t:=th]> m) h) (rem t (a h))).
  { intros h. eapply sorted_mono; [|apply sorted_filter, Fo].
    intros x y Hx Hy Hb tx ty Ex Ey. apply Hb; by eapply Hne. }
  split.
  - intros h x. specialize (Hrq h). destruct (decide (x = t)) as [->|Hx].
    + rewrite lookup_insert_eq. case_decide as Hb.
      * destruct Hrq as (l1 & l2 & _ & -> & _). split; [eauto|set_solver].
      * rewrite Hrq, elem_of_rem. naive_solver.
    + rewrite lookup_insert_ne, <- Fm by done.
      trans (x ∈ rem t (a h)); [|rewrite elem_of_rem; tauto]. case_decide as Hb.
      * destruct Hrq as (l1 & l2 & -> & -> & _). set_solver.
      * by rewrite Hrq.
  - intros h. specialize (Hrq h). case_decide as Hb; [|rewrite Hrq; apply Hrem].
    destruct Hrq as (l1 & l2 & El & -> & H1 & H2). pose proof (Hrem h) as Hs.
    specialize (Hne h). rewrite El in Hs, Hne. apply sorted_insert; [done| |].
    + intros x Hx tx ty Ex. rewrite lookup_insert_eq. intros [= <-].
      apply (H1 x); [done|]. apply Hne; [set_solver|done].
    + intros x Hx tx ty. rewrite lookup_insert_eq. intros [= <-] Ey.
      apply (H2 x); [done|]. apply Hne; [set_solver|done].
  - intros x tx. rewrite lookup_insert. case_decide; [by intros [= <-]|apply Ft].
Qed.

(** In a sorted queue, the threads that a new one overtakes are at the end. *)
Lemma sorted_cut m h th l :
  StronglySorted (behind m h) l -> (forall x, x ∈ l -> is_Some (m !! x)) ->
  exists l1 l2, l = l1 ++ l2 /\
    (forall x tx, x ∈ l1 -> m !! x = Some tx -> ov_of h th tx = false) /\
    (forall x tx, x ∈ l2 -> m !! x = Some tx -> ov_of h th tx = true).
Proof.
  induction l as [|y l IH]; intros Hs Hm.
  - exists [], []. splits; [done|set_solver..].
  - apply StronglySorted_inv in Hs as [Hs Hf]. destruct (Hm y) as [ty Ey]; [left|].
    destruct (ov_of h th ty) eqn:Eov.
    + exists [], (y :: l). splits; [done|set_solver|].
      intros x tx [->|Hx]%elem_of_cons Ex; [congruence|].
      eapply Forall_forall in Hf; [|done]. eapply ov_of_trans; [exact Eov|by apply Hf].
    + destruct IH as (l1 & l2 & -> & H1 & H2); [done|intros; apply Hm; by right|].
      exists (y :: l1), l2. splits; [done| |done].
      intros x tx [->|Hx]%elem_of_cons Ex; [congruence|by eapply H1].
Qed.
End Invariant.
