(* ===== verification/ThreadOps.v ===== *)
(** * The operations of a thread preserve the invariant

    For every operation of [thread.h] that changes state: it does not fail (no
    assertion, no null or dangling pointer), the invariant holds after it, and its
    effect on the queues is the re-queueing of one thread.  [track] follows a run
    of accesses to one thread; the theorems are at the end. *)

From S2P Require Import Prelude LinkedList Thread ThreadQueues ThreadInv.

(** ** Writes of fields that are not links *)

Class FieldWrite (f : Thread -> Thread) := {
  fw_links x : prev (f x) = prev x /\ next (f x) = next x /\
    timerPrev (f x) = timerPrev x /\ timerNext (f x) = timerNext x;
  fw_core x y : core x = core y -> core (f x) = core (f y);
}.

Ltac field_write :=
  split; [by intros []|intros [] []; cbn; intros [=]; subst; reflexivity].

#[export] Instance fw_sleepQueue v : FieldWrite (set_sleepQueue v).
Proof. field_write. Qed.
#[export] Instance fw_expiryTime v : FieldWrite (set_expiryTime v).
Proof. field_write. Qed.
#[export] Instance fw_waitingOn v : FieldWrite (set_waitingOn v).
Proof. field_write. Qed.
#[export] Instance fw_tStackPtr v : FieldWrite (set_tStackPtr v).
Proof. field_write. Qed.
#[export] Instance fw_priority v : FieldWrite (set_priority v).
Proof. field_write. Qed.
#[export] Instance fw_state v : FieldWrite (set_state v).
Proof. field_write. Qed.
#[export] Instance fw_isYielding v : FieldWrite (set_isYielding v).
Proof. field_write. Qed.

Lemma queues_upd s a t th f `{!FieldWrite f} :
  queues s a -> threads s !! t = Some th ->
  queues (with_threads (<[t := f th]> (threads s)) s) a.
Proof.
  intros Hq Ht h. destruct (Hq h) as [Hh Hr]. split; [by destruct h|].
  destruct Hr as [?|Hr]; [by left|right]. eapply ring_frame; [exact Hr|].
  intros q _. cbn. rewrite lookup_insert. case_decide; [subst q|done]. rewrite Ht. cbn.
  destruct (fw_links (f := f) th) as (E1 & E2 & E3 & E4).
  destruct h; cbn; by rewrite ?E1, ?E2, ?E3, ?E4.
Qed.

(** ** Following one thread through an operation *)

Section Track.
Context (m0 : gmap Z Thread) (t : Z).

(** The queues of [s] are [b], its threads are [m0] but for [t], which is [th]. *)
Record track (th : Thread) (b : href -> list Z) (s : sched) : Prop := {
  tr_queues : queues s b;
  tr_apart : apart b;
  tr_core : core <$> threads s = core <$> <[t := th]> m0;
}.

Lemma track_get th b s : track th b s ->
  exists th', threads s !! t = Some th' /\ core th' = core th.
Proof.
  intros Htr. eapply core_lookup; [apply (tr_core _ _ _ Htr)|apply lookup_insert_eq].
Qed.

Lemma track_upd th b s f `{!FieldWrite f} : track th b s ->
  exists s', upd s t f = Ok s' /\ track (f th) b s' /\ statics s' = statics s /\
    (forall h, get_head s' h = get_head s h).
Proof.
  intros Htr. destruct (track_get _ _ _ Htr) as (th' & Et & Ec). destruct Htr as [Hq Ha Hc].
  rewrite (upd_ok s t th' f Et). eexists; split; [done|]. splits; [|done|by intros []]. split.
  - by apply queues_upd.
  - done.
  - cbn. rewrite fmap_insert, Hc, <- fmap_insert, !fmap_insert, insert_insert_eq.
    by rewrite (fw_core th' th).
Qed.

Lemma track_static th b s s' :
  track th b s -> threads s' = threads s -> (forall h, get_head s' h = get_head s h) ->
  track th b s'.
Proof.
  intros [Hq Ha Hc] Et Eh. split; [by eapply queues_heads|done|by rewrite Et].
Qed.

Lemma track_ext th b b' s : (forall h, b h = b' h) -> track th b s -> track th b' s.
Proof.
  intros E [Hq Ha Hc]. split; [by eapply queues_ext| |done].
  intros h h' x. rewrite <- !E. apply Ha.
Qed.

Lemma apart_sub b b' : (forall h x, x ∈ b' h -> x ∈ b h) -> apart b -> apart b'.
Proof. intros E Ha h h' x Hk Hx Hx'. apply (Ha h h' x); auto. Qed.

Lemma apart_insert b h l1 l2 :
  apart b -> b h = l1 ++ l2 -> (forall h', is_timer h' = is_timer h -> t ∉ b h') ->
  apart (aset b h (l1 ++ t :: l2)).
Proof.
  intros Ha El Hn h1 h2 x Hk. unfold aset.
  assert (forall h', x ∈ (if decide (h' = h) then l1 ++ t :: l2 else b h') ->
    x ∈ b h' \/ x = t /\ h' = h) as Hx.
  { intros h'. case_decide; [subst|by left].
    rewrite El, <- Permutation_middle, elem_of_cons. tauto. }
  intros [H1|[-> ->]]%Hx [H2|[E2 E2']]%Hx; [by apply (Ha h1 h2 x)|..|done].
  - subst. by apply Hn in H1.
  - by apply Hn in H2.
Qed.

Lemma track_remove debug th b s h : track th b s -> t ∈ b h ->
  exists s', thread_list_remove debug (links_of h) s t h = Ok s' /\
    track th (aset b h (rem t (b h))) s' /\ statics s' = statics s.
Proof.
  intros [Hq Ha Hc] Ht.
  destruct (queues_remove debug s b h t Hq Ha Ht) as (s' & E & Hq' & Hc' & Hs).
  exists s'. splits; [done| |done]. split; [done| |by rewrite Hc'].
  eapply apart_sub; [|done]. intros h' x. unfold aset. case_decide; [|done].
  subst. rewrite elem_of_rem. tauto.
Qed.

Lemma track_insert th b s h l1 l2 :
  track th b s -> (forall h', is_timer h' = is_timer h -> t ∉ b h') -> b h = l1 ++ l2 ->
  (forall x tx, x ∈ l1 -> m0 !! x = Some tx -> ov_of h th tx = false) ->
  (forall x tx, x ∈ l2 -> m0 !! x = Some tx -> ov_of h th tx = true) ->
  exists s', thread_list_insert (links_of h) (ov_of h) s t h = Ok s' /\
    track th (aset b h (l1 ++ t :: l2)) s' /\ statics s' = statics s.
Proof.
  intros Htr Hn El H1 H2. destruct (track_get _ _ _ Htr) as (th' & Et & Ec).
  destruct Htr as [Hq Ha Hc].
  assert (Hl : forall x, x ∈ l1 ++ l2 -> x <> t).
  { intros x Hx ->. apply (Hn h); [done|by rewrite El]. }
  assert (Hm : forall x tx, x <> t -> threads s !! x = Some tx ->
    exists tx', m0 !! x = Some tx' /\ core tx' = core tx).
  { intros x tx Hx Ex. destruct (core_lookup _ _ _ _ (eq_sym Hc) Ex) as (tx' & Ex' & Ecx).
    rewrite lookup_insert_ne in Ex' by done. eauto. }
  destruct (queues_insert s b h t th' l1 l2) as (s' & E & Hq' & Hc' & Hs);
    [done|done|done|done|done| | |].
  - intros x tx Hx Ex. destruct (Hm x tx) as (tx' & Ex' & Ecx); [apply Hl; set_solver|done|].
    rewrite (ov_of_core h _ _ th tx') by done. by eapply H1.
  - intros x tx Hx Ex. destruct (Hm x tx) as (tx' & Ex' & Ecx); [apply Hl; set_solver|done|].
    rewrite (ov_of_core h _ _ th tx') by done. by eapply H2.
  - exists s'. splits; [done| |done].
    split; [done|by apply apart_insert|by rewrite Hc'].
Qed.

(** The queue of [h] is empty exactly when its head pointer is null. *)
Lemma track_null th b s h : track th b s -> get_head s h = None <-> b h = [].
Proof. intros [Hq _ _]. by eapply queue_null. Qed.
End Track.

(** ** The priority map *)

Definition bits_ok (pm : Z) (a : href -> list Z) : Prop :=
  pm in_u 32 /\
  forall p, 0 <= p < 32 -> Z.testbit pm p = bool_decide (a (HPrio p) <> []).

Definition top_of (pm : Z) : Z := if pm =? 0 then 0 else Z.log2 pm.

Lemma map_ok_iff pm hp a : map_ok pm hp a <-> bits_ok pm a /\ hp = top_of pm.
Proof. unfold map_ok, bits_ok, top_of. tauto. Qed.

Lemma shift_bit p : 0 <= p < 32 -> u32 (Z.shiftl 1 p) = 2 ^ p.
Proof.
  intros Hp. rewrite Z.shiftl_1_l. apply wrap_small. split; [apply Z.pow_nonneg; lia|].
  apply Z.pow_lt_mono_r; lia.
Qed.

Lemma bits_set pm a a' p :
  bits_ok pm a -> 0 <= p < 32 -> a' (HPrio p) <> [] ->
  (forall p', p' <> p -> a' (HPrio p') = [] <-> a (HPrio p') = []) ->
  bits_ok (Z.lor pm (u32 (Z.shiftl 1 p))) a'.
Proof.
  intros [Hr Hb] Hp Hne Ho. rewrite shift_bit by done. split.
  - apply lor_bound; [done|done|]. split; [apply Z.pow_nonneg; lia|].
    apply Z.pow_lt_mono_r; lia.
  - intros q Hq. rewrite Z.lor_spec, Hb, Z.pow2_bits_eqb by lia.
    destruct (Z.eqb_spec p q) as [->|Hpq].
    + rewrite orb_true_r. symmetry. by apply bool_decide_eq_true.
    + rewrite orb_false_r. apply bool_decide_ext. specialize (Ho q). naive_solver.
Qed.

Lemma bits_clear pm a a' p :
  bits_ok pm a -> 0 <= p < 32 -> a' (HPrio p) = [] ->
  (forall p', p' <> p -> a' (HPrio p') = [] <-> a (HPrio p') = []) ->
  bits_ok (Z.land pm (u32 (Z.lnot (u32 (Z.shiftl 1 p))))) a'.
Proof.
  intros [Hr Hb] Hp He Ho. rewrite shift_bit by done. split.
  - apply land_bound; [done|]. by apply wrap_bound.
  - intros q Hq. unfold u32. rewrite Z.land_spec, wrap_testbit, Z.lnot_spec by lia.
    rewrite Hb, Z.pow2_bits_eqb by lia.
    rewrite (proj2 (Z.ltb_lt q 32)), andb_true_r by lia.
    destruct (Z.eqb_spec p q) as [->|Hpq].
    + rewrite andb_false_r, He. symmetry. apply bool_decide_eq_false. tauto.
    + rewrite andb_true_r. apply bool_decide_ext. specialize (Ho q). naive_solver.
Qed.

Lemma bits_same pm a a' :
  bits_ok pm a -> (forall p, a' (HPrio p) = [] <-> a (HPrio p) = []) -> bits_ok pm a'.
Proof.
  intros [Hr Hb] Ho. split; [done|]. intros q Hq. rewrite Hb by done.
  apply bool_decide_ext. specialize (Ho q). tauto.
Qed.

Lemma top_set pm p : pm in_u 32 -> 0 <= p < 32 ->
  top_of (Z.lor pm (u32 (Z.shiftl 1 p))) = Z.max (top_of pm) p.
Proof.
  intros Hr Hp. rewrite shift_bit by done. unfold top_of.
  assert (0 < 2 ^ p) by (apply pow2_pos; lia).
  destruct (Z.eqb_spec (Z.lor pm (2 ^ p)) 0) as [E|E].
  { apply Z.lor_eq_0_iff in E. lia. }
  rewrite Z.log2_lor, Z.log2_pow2 by lia.
  destruct (Z.eqb_spec pm 0) as [->|]; [cbn; lia|done].
Qed.

Lemma clz_top pm : pm in_u 32 -> (if pm =? 0 then 0 else 31 - clz 32 pm) = top_of pm.
Proof. intros. unfold top_of, clz. destruct (Z.eqb_spec pm 0); [done|lia]. Qed.

(** [highestPriority] is the priority of the highest non-empty run queue. *)
Lemma top_spec pm a p : bits_ok pm a -> 0 <= p < 32 -> a (HPrio p) <> [] ->
  p <= top_of pm /\ 0 <= top_of pm < 32 /\ a (HPrio (top_of pm)) <> [].
Proof.
  intros [Hr Hb] Hp Hne.
  assert (Z.testbit pm p = true) as Ht by (rewrite Hb by done; by apply bool_decide_eq_true).
  assert (pm <> 0) as Hn by (intros ->; by rewrite Z.bits_0 in Ht).
  unfold top_of. destruct (Z.eqb_spec pm 0); [done|].
  assert (Z.log2 pm < 32) by (apply Z.log2_lt_pow2; lia).
  pose proof (Z.log2_nonneg pm). splits; [|done|done|].
  - destruct (Z.leb_spec p (Z.log2 pm)); [done|]. rewrite Z.bits_above_log2 in Ht by lia. done.
  - pose proof (Z.bit_log2 pm) as Hbl. rewrite Hb in Hbl by done.
    apply bool_decide_eq_true in Hbl; [done|lia].
Qed.

(** ** The operations *)

Definition others (s : sched) :=
  (current s, schedTStack s, threadCount s, ticksSinceBoot s).

Section Operations.
Context (NPrios : Z) (HNP : NPrios <= 32) (debug : bool).

(** What an operation on the thread [t] does: its record becomes [th], it is
    re-queued, the invariant holds again, nothing else changes. *)
Definition stepped (s : sched) (a : href -> list Z) (t : Z) (th : Thread)
    (s' : sched) (a' : href -> list Z) : Prop :=
  wf NPrios s' a' /\ requeued (threads s) t th a a' /\
  core <$> threads s' = core <$> <[t := th]> (threads s) /\ others s' = others s.

Lemma fields_notin m a h t th :
  fields NPrios m a -> m !! t = Some th -> ~ belongs h th -> t ∉ a h.
Proof. intros [Fm _ _] Et Hb (th' & Et' & Hb')%Fm. congruence. Qed.

Lemma fields_in m a h t th :
  fields NPrios m a -> m !! t = Some th -> belongs h th -> t ∈ a h.
Proof. intros [Fm _ _] Et Hb. apply Fm. eauto. Qed.

Lemma track_start s a t th :
  wf NPrios s a -> threads s !! t = Some th -> track (threads s) t th a s.
Proof.
  intros [Hq Hf Hm] Et. split; [done|by eapply fields_apart|by rewrite insert_id].
Qed.

Lemma track_finish s a t th s' a' :
  wf NPrios s a -> track (threads s) t th a' s' -> thread_ok NPrios th ->
  requeued (threads s) t th a a' ->
  bits_ok (priorityMap s') a' -> highestPriority s' = top_of (priorityMap s') ->
  others s' = others s ->
  stepped s a t th s' a'.
Proof.
  intros [Hq Hf Hm] [Hq' Ha' Hc'] Hok Hrq Hb Ht Ho. split; [|done]. split; [done| |].
  - eapply fields_core; [exact Hc'|]. by eapply fields_requeue.
  - by apply map_ok_iff.
Qed.

(** Removing the thread from the queues [hs] it is in, one after the other. *)
Lemma rem_all m a t th h :
  fields NPrios m a -> m !! t = Some th -> ~ belongs h th -> rem t (a h) = a h.
Proof. intros. by eapply rem_notin, fields_notin. Qed.

Lemma track_map_remove m0 t th b s :
  track m0 t th b s -> priorityMap s in_u 32 ->
  exists s', priority_map_remove s t = Ok s' /\ track m0 t th b s' /\ others s' = others s /\
    (if bool_decide (b (HPrio (priority th)) = []) then
       priorityMap s' = Z.land (priorityMap s)
         (u32 (Z.lnot (u32 (Z.shiftl 1 (priority th))))) /\
       highestPriority s' = top_of (priorityMap s')
     else priorityMap s' = priorityMap s /\ highestPriority s' = highestPriority s).
Proof.
  intros Htr Hr. destruct (track_get _ _ _ _ _ Htr) as (th' & Et & Ec).
  apply core_fields in Ec as (_ & _ & _ & _ & _ & Ep & _).
  pose proof (track_null _ _ _ _ _ (HPrio (priority th)) Htr) as Hn. cbn [get_head] in Hn.
  unfold priority_map_remove. rewrite (get_ok _ _ _ Et). cbn [mbind outcome_bind].
  rewrite Ep. repeat case_bool_decide; try tauto.
  - eexists; split; [done|]. splits; [apply (track_static _ _ _ _ s); [done|done|by intros []]|done|done|].
    cbn [priorityMap highestPriority with_map]. rewrite clz_top; [done|].
    apply land_bound; [done|]. by apply wrap_bound.
  - exists s. by splits.
Qed.

Lemma belongs_suspended h th :
  belongs h th -> state th = Suspended -> h = HWaiting \/ sleepQueue th = Some h.
Proof. destruct h; cbn; intros; destruct_and?; try (by left); try (by right); congruence. Qed.

(** The thread that [ready] leaves. *)
Definition readied (reason : WakeReason) (th : Thread) : Thread :=
  set_isYielding false
    ((if bool_decide (reason = WakeTimer) || bool_decide (reason = WakeDelete)
      then set_waitingOn (WMulti None) else id)
       (set_state Ready (set_sleepQueue None th))).

(** A suspended thread leaves the list of suspended threads and its sleep queue. *)
Lemma ready_leaves s a t th :
  wf NPrios s a -> threads s !! t = Some th -> state th = Suspended ->
  exists s1, (s ← timer_list_remove debug s t HWaiting;
     match sleepQueue th with
     | None => Ok s
     | Some q => s ← list_remove debug s t q; upd s t (set_sleepQueue None)
     end) = Ok s1 /\
   track (threads s) t (set_sleepQueue None th) (fun h => rem t (a h)) s1 /\
   statics s1 = statics s.
Proof.
  intros Hwf Et Hst. pose proof (track_start _ _ _ _ Hwf Et) as Htr.
  destruct Hwf as [Hq Hf Hm].
  destruct (track_remove _ _ debug _ _ _ HWaiting Htr) as (s1 & E1 & Htr1 & Hs1).
  { by eapply fields_in. }
  unfold timer_list_remove, list_remove. cbn [links_of is_timer] in E1. rewrite E1.
  cbn [mbind outcome_bind].
  destruct (f_threads _ _ _ Hf _ _ Et) as (_ & _ & Hsq).
  assert (Hrest : forall h, ~ belongs h th -> rem t (a h) = a h)
    by (intros; by eapply rem_all).
  destruct (sleepQueue th) as [q|] eqn:Esq.
  - assert (t ∈ a q) as Htq.
    { eapply fields_in; [done|done|]. destruct Hsq as [_ [-> | ->]]; done. }
    destruct (track_remove _ _ debug _ _ _ q Htr1) as (s2 & E2 & Htr2 & Hs2).
    { destruct Hsq as [_ [-> | ->]]; by rewrite aset_other. }
    assert (links_of q = run_links) as Hlq by (by destruct Hsq as [_ [-> | ->]]).
    rewrite Hlq in E2. rewrite E2. cbn [mbind outcome_bind].
    destruct (track_upd _ _ _ _ _ (set_sleepQueue None) Htr2) as (s3 & E3 & Htr3 & Hs3 & _).
    exists s3. splits; [done| |congruence]. eapply track_ext; [|exact Htr3].
    intros h. unfold aset. repeat case_decide; subst; try done.
    + by destruct Hsq as [_ [? | ?]].
    + symmetry. apply Hrest. intros Hb; destruct (belongs_suspended _ _ Hb Hst) as [->|?]; congruence.
  - exists s1. splits; [done| |done].
    replace (set_sleepQueue None th) with th by (destruct th; cbn in *; by subst).
    eapply track_ext; [|exact Htr1]. intros h. unfold aset. case_decide; subst; [done|].
    symmetry. apply Hrest. intros Hb; destruct (belongs_suspended _ _ Hb Hst) as [->|?]; congruence.
Qed.

Lemma statics_map s s' : statics s' = statics s ->
  priorityMap s' = priorityMap s /\ highestPriority s' = highestPriority s /\
  others s' = others s.
Proof. unfold statics, others. intros [=]. splits; congruence. Qed.

(** The run queue of a priority holds threads of that priority: a newcomer with
    the same priority overtakes none. *)
Lemma run_queue_peers m a p th x tx :
  fields NPrios m a -> priority th = p -> x ∈ a (HPrio p) -> m !! x = Some tx ->
  ov_of (HPrio p) th tx = false.
Proof.
  intros [Fm _ _] Ep (tx' & Ex & _ & Ep')%Fm Ex'. simplify_eq.
  by apply ov_of_irrefl.
Qed.

Lemma priority_range m a t th :
  fields NPrios m a -> m !! t = Some th -> 0 <= priority th < 32.
Proof. intros [_ _ Ft] Et. destruct (Ft _ _ Et). lia. Qed.

Lemma ready_map s a t th b s1 :
  wf NPrios s a -> threads s !! t = Some th ->
  track (threads s) t b (fun h => rem t (a h)) s1 -> statics s1 = statics s ->
  priority b = priority th -> (forall p, rem t (a (HPrio p)) = a (HPrio p)) ->
  exists s2, (if bool_decide (priorityList s1 !! priority th = None) then
      with_map (Z.lor (priorityMap s1) (u32 (Z.shiftl 1 (priority th))))
        (if highestPriority s1 <? priority th then priority th else highestPriority s1) s1
    else s1) = s2 /\
    track (threads s) t b (fun h => rem t (a h)) s2 /\ others s2 = others s /\
    highestPriority s2 = top_of (priorityMap s2) /\
    forall a', a' (HPrio (priority th)) <> [] ->
      (forall p, p <> priority th -> a' (HPrio p) = a (HPrio p)) ->
      bits_ok (priorityMap s2) a'.
Proof.
  intros Hwf Et Htr (Epm & Ehp & Eo)%statics_map Ep Hrem.
  pose proof (priority_range _ _ _ _ (wf_fields _ _ _ Hwf) Et) as Hpr.
  destruct Hwf as [Hq Hf [Hbits Htop]%map_ok_iff].
  pose proof (track_null _ _ _ _ _ (HPrio (priority th)) Htr) as Hn. cbn [get_head] in Hn.
  eexists; split; [done|]. case_bool_decide as Hnull.
  - splits; [apply (track_static _ _ _ _ s1); [done|done|by intros []]|done| |].
    + cbn [priorityMap highestPriority with_map].
      rewrite Epm, top_set, Ehp, Htop by (try apply Hbits; lia).
      destruct (Z.ltb_spec (top_of (priorityMap s)) (priority th)); lia.
    + intros a' Hne Ho. cbn [priorityMap with_map]. rewrite Epm.
      apply (bits_set _ a); [done|done|done|]. intros p' Hp'. by rewrite Ho.
  - splits; [done|done|congruence|]. intros a' Hne Ho. rewrite Epm.
    apply (bits_same _ a); [done|]. intros p.
    destruct (decide (p = priority th)) as [->|]; [|by rewrite Ho].
    rewrite <- (Hrem (priority th)). tauto.
Qed.

Lemma ready_steps s a t th reason :
  wf NPrios s a -> threads s !! t = Some th -> state th = Suspended ->
  exists s' a', ready debug s t reason = Ok s' /\
    stepped s a t (readied reason th) s' a' /\
    forall h, a' h = rem t (a h) ++ (if decide (h = HPrio (priority th)) then [t] else []).
Proof.
  intros Hwf Et Hst. pose proof (wf_fields _ _ _ Hwf) as Hf.
  destruct (ready_leaves s a t th Hwf Et Hst) as (s1 & E1 & Htr1 & Hs1).
  apply outcome_bind_ok in E1 as (s0 & E0 & E1).
  unfold ready. run (get_ok _ _ _ Et). run (dassert_holds debug (state th = Suspended) Hst).
  run E0. run E1.
  destruct (track_upd _ _ _ _ _ (set_state Ready) Htr1) as (s2 & E2 & Htr2 & Hs2 & _).
  run E2. assert (Hrem : forall p, rem t (a (HPrio p)) = a (HPrio p)).
  { intros p. eapply rem_all; [done|done|]. cbn. intros []. congruence. }
  destruct (ready_map s a t th _ s2 Hwf Et Htr2) as (s3 & E3 & Htr3 & Ho3 & Hh3 & Hb3);
    [congruence|by destruct th|done|].
  rewrite E3. clear E3. cbv zeta.
  set (th4 := (if bool_decide (reason = WakeTimer) || bool_decide (reason = WakeDelete)
      then set_waitingOn (WMulti None) else id) (set_state Ready (set_sleepQueue None th))).
  assert (exists s4, (if bool_decide (reason = WakeTimer) || bool_decide (reason = WakeDelete)
       then upd s3 t (set_waitingOn (WMulti None)) else Ok s3) = Ok s4 /\
     track (threads s) t th4 (fun h => rem t (a h)) s4 /\ statics s4 = statics s3)
    as (s4 & E4 & Htr4 & Hs4).
  { unfold th4. destruct (_ || _); [|by exists s3].
    destruct (track_upd _ _ _ _ _ (set_waitingOn (WMulti None)) Htr3) as (s4 & ? & ? & ? & _).
    eauto. }
  run E4. assert (Ep4 : priority th4 = priority th) by (unfold th4; by destruct (_ || _)).
  destruct (track_insert _ _ _ _ s4 (HPrio (priority th)) (rem t (a (HPrio (priority th)))) []
    Htr4) as (s5 & E5 & Htr5 & Hs5).
  { intros h' _ Hin. apply elem_of_rem in Hin. tauto. }
  { by rewrite app_nil_r. }
  { intros x tx Hx. rewrite Hrem in Hx. by apply (run_queue_peers _ a). }
  { intros x tx Hx. by apply not_elem_of_nil in Hx. }
  unfold list_insert. cbn [links_of ov_of is_timer] in E5. run E5.
  destruct (track_upd _ _ _ _ _ (set_isYielding false) Htr5) as (s6 & E6 & Htr6 & Hs6 & _).
  rewrite E6.
  exists s6, (fun h => rem t (a h) ++ if decide (h = HPrio (priority th)) then [t] else []).
  splits; [done| |done].
  apply statics_map in Hs4 as (Em4 & Eh4 & Eo4), Hs5 as (Em5 & Eh5 & Eo5),
    Hs6 as (Em6 & Eh6 & Eo6).
  apply track_finish; [done| | | | |congruence|congruence].
  - change (readied reason th) with (set_isYielding false th4).
    eapply track_ext; [|exact Htr6]. intros h. unfold aset.
    repeat case_decide; subst; rewrite ?app_nil_r; done.
  - destruct (f_threads _ _ _ Hf _ _ Et) as (Ho & Hp & _).
    unfold readied, thread_ok. by destruct (_ || _).
  - intros h. assert (belongs h (readied reason th) <-> h = HPrio (priority th)) as Hbel.
    { unfold readied. destruct h, (_ || _); cbn; split; intros; destruct_and?; simplify_eq;
        done. }
    destruct (decide (belongs h (readied reason th))) as [Hb|Hb].
    + apply Hbel in Hb as ->. exists (rem t (a (HPrio (priority th)))), [].
      rewrite app_nil_r, decide_True by done. splits; [done|done| |].
      * intros x tx Hx. rewrite Hrem in Hx. apply (run_queue_peers _ a); [done| |done].
        exact Ep4.
      * intros x tx Hx. by apply not_elem_of_nil in Hx.
    + rewrite decide_False by tauto. by rewrite app_nil_r.
  - rewrite Em6, Em5, Em4. apply Hb3.
    + rewrite decide_True by done. by destruct (rem t _).
    + intros p Hp. rewrite decide_False by congruence. by rewrite app_nil_r, Hrem.
Qed.

Lemma belongs_ready h th : state th = Ready -> belongs h th <-> h = HPrio (priority th).
Proof.
  intros Hst. destruct h; cbn; rewrite ?Hst; split; intros; destruct_and?; simplify_eq; done.
Qed.

(** A ready thread leaves its run queue; the priority map follows. *)
Lemma run_queue_leaves s a t th th1 s1 :
  wf NPrios s a -> threads s !! t = Some th -> state th = Ready ->
  track (threads s) t th1 a s1 -> statics s1 = statics s ->
  exists s2, list_remove debug s1 t (HPrio (priority th)) = Ok s2 /\
    track (threads s) t th1 (fun h => rem t (a h)) s2 /\ statics s2 = statics s.
Proof.
  intros Hwf Et Hst Htr Hs. pose proof (wf_fields _ _ _ Hwf) as Hf.
  destruct (track_remove _ _ debug _ _ _ (HPrio (priority th)) Htr) as (s2 & E2 & Htr2 & Hs2).
  { by eapply fields_in. }
  exists s2. splits; [exact E2| |congruence]. eapply track_ext; [|exact Htr2].
  intros h. unfold aset. case_decide as Eh; [by subst|]. symmetry.
  eapply rem_all; [done|done|]. by rewrite belongs_ready.
Qed.

Lemma unmap_ready s a t th th1 s1 :
  wf NPrios s a -> threads s !! t = Some th -> state th = Ready ->
  track (threads s) t th1 (fun h => rem t (a h)) s1 -> statics s1 = statics s ->
  priority th1 = priority th ->
  exists s2, priority_map_remove s1 t = Ok s2 /\
    track (threads s) t th1 (fun h => rem t (a h)) s2 /\ others s2 = others s /\
    highestPriority s2 = top_of (priorityMap s2) /\
    bits_ok (priorityMap s2) (fun h => rem t (a h)).
Proof.
  intros Hwf Et Hst Htr (Em & Eh & Eo)%statics_map Ep.
  pose proof (priority_range _ _ _ _ (wf_fields _ _ _ Hwf) Et) as Hpr.
  pose proof (wf_fields _ _ _ Hwf) as Hf.
  destruct Hwf as [_ _ [Hbits Htop]%map_ok_iff].
  destruct (track_map_remove _ _ _ _ _ Htr) as (s2 & E2 & Htr2 & Ho2 & Hm2).
  { rewrite Em. apply Hbits. }
  exists s2. rewrite Ep in Hm2.
  assert (Hother : forall p, p <> priority th -> rem t (a (HPrio p)) = a (HPrio p)).
  { intros p Hp. eapply rem_all; [done|done|]. rewrite belongs_ready by done. congruence. }
  case_bool_decide as Hnull; destruct Hm2 as [Hm2 Ht2]; splits; try done; try congruence.
  - rewrite Hm2, Em. apply (bits_clear _ a); [done|done|done|]. intros p' Hp'.
    by rewrite Hother.
  - rewrite Hm2, Em. apply (bits_same _ a); [done|]. intros p'.
    destruct (decide (p' = priority th)) as [->|]; [|by rewrite Hother].
    split; [done|]. intros E. by rewrite E in Hnull.
Qed.

(** The thread that [suspend_internal] leaves. *)
Definition suspended (expiry : Z) (newSleepQueue : option href) (yieldNotSleep : bool)
    (th : Thread) : Thread :=
  set_expiryTime expiry (set_sleepQueue newSleepQueue
    (set_state Suspended (set_isYielding yieldNotSleep th))).

(** A new place in a sorted queue, for a thread that is out of it. *)
Lemma place m a t th h :
  fields NPrios m a ->
  exists l1 l2, rem t (a h) = l1 ++ l2 /\
    (forall x tx, x ∈ l1 -> m !! x = Some tx -> ov_of h th tx = false) /\
    (forall x tx, x ∈ l2 -> m !! x = Some tx -> ov_of h th tx = true).
Proof.
  intros [Fm Fo _]. apply sorted_cut.
  - apply sorted_filter, Fo.
  - intros x (Hx & _)%elem_of_rem. apply Fm in Hx as (tx & Ex & _). by exists tx.
Qed.

(** The sleep queue a suspension may name. *)
Definition sleep_ref (q : option href) : Prop :=
  q = None \/ q = Some HFutex \/ q = Some HMulti.

Lemma join_sleep_queue s a t th1 s1 newq :
  fields NPrios (threads s) a -> sleep_ref newq -> sleepQueue th1 = None ->
  track (threads s) t th1 (fun h => rem t (a h)) s1 ->
  exists s2 b, (match newq with
       | None => Ok s1
       | Some q => s ← list_insert s1 t q; upd s t (set_sleepQueue (Some q))
       end) = Ok s2 /\
    track (threads s) t (set_sleepQueue newq th1) b s2 /\ statics s2 = statics s1 /\
    (forall h, Some h <> newq -> b h = rem t (a h)) /\
    (forall h, Some h = newq -> exists l1 l2, rem t (a h) = l1 ++ l2 /\ b h = l1 ++ t :: l2 /\
      (forall x tx, x ∈ l1 -> threads s !! x = Some tx -> ov_of h th1 tx = false) /\
      (forall x tx, x ∈ l2 -> threads s !! x = Some tx -> ov_of h th1 tx = true)).
Proof.
  intros Hf Hq Hn Htr. destruct newq as [q|].
  - destruct (place (threads s) a t th1 q Hf) as (l1 & l2 & El & H1 & H2).
    destruct (track_insert _ _ _ _ _ q l1 l2 Htr) as (s2 & E2 & Htr2 & Hs2);
      [intros h' _ Hin; apply elem_of_rem in Hin; tauto|done|done|done|].
    assert (Hlo : links_of q = run_links /\ ov_of q = higher_priority)
      by (by destruct Hq as [?|[[= ->]|[= ->]]]).
    destruct Hlo as [Hl Ho]. rewrite Hl, Ho in E2. unfold list_insert. run E2.
    destruct (track_upd _ _ _ _ _ (set_sleepQueue (Some q)) Htr2) as (s3 & E3 & Htr3 & Hs3 & _).
    exists s3, (aset (fun h => rem t (a h)) q (l1 ++ t :: l2)).
    splits; [done|done|congruence| |].
    + intros h Hh. apply aset_other. congruence.
    + intros h [= ->]. exists l1, l2. rewrite aset_same by done. by splits.
  - exists s1, (fun h => rem t (a h)).
    replace (set_sleepQueue None th1) with th1 by (destruct th1; cbn in *; by subst).
    by splits.
Qed.

Lemma belongs_asleep h th : state th = Suspended -> sleep_ref (sleepQueue th) ->
  belongs h th <-> h = HWaiting \/ Some h = sleepQueue th.
Proof.
  intros Hst Hq. destruct h; cbn; rewrite ?Hst; split; intros; destruct_and?; destruct_or?;
    simplify_eq; try tauto; try by left.
  all: destruct Hq as [Hq|[Hq|Hq]]; rewrite Hq in *; simplify_eq; by auto.
Qed.

Lemma requeued_suspended m t th a a' :
  fields NPrios m a -> state th = Suspended -> sleep_ref (sleepQueue th) ->
  (forall h, h = HWaiting \/ Some h = sleepQueue th ->
    exists l1 l2, rem t (a h) = l1 ++ l2 /\ a' h = l1 ++ t :: l2 /\
      (forall x tx, x ∈ l1 -> m !! x = Some tx -> ov_of h th tx = false) /\
      (forall x tx, x ∈ l2 -> m !! x = Some tx -> ov_of h th tx = true)) ->
  (forall h, h <> HWaiting -> Some h <> sleepQueue th -> a' h = rem t (a h)) ->
  requeued m t th a a'.
Proof.
  intros Hf Hst Hq Hin Hout h.
  destruct (decide (belongs h th)) as [Hb|Hb]; rewrite belongs_asleep in Hb by done.
  - destruct (Hin h Hb) as (l1 & l2 & El & Ea & H1 & H2). exists l1, l2.
    splits; [done|done|done|]. intros x tx Hx Ex. eapply ov_of_asym, H2; done.
  - apply Hout; tauto.
Qed.

Lemma suspend_steps s a t th expiry newq y :
  wf NPrios s a -> threads s !! t = Some th -> state th = Ready -> sleep_ref newq ->
  exists s' a', suspend_internal debug s t expiry newq y = Ok s' /\
    stepped s a t (suspended expiry newq y th) s' a'.
Proof.
  intros Hwf Et Hst Hq. pose proof (wf_fields _ _ _ Hwf) as Hf.
  destruct (track_upd _ _ _ _ _ (set_isYielding y) (track_start _ _ _ _ Hwf Et))
    as (s1 & E1 & Htr1 & Hs1 & _).
  unfold suspend_internal. run E1.
  destruct (track_get _ _ _ _ _ Htr1) as (th1 & Et1 & Ec1).
  pose proof (core_fields _ _ Ec1) as (Eq1 & _ & _ & _ & _ & Ep1 & _ & Est1 & _).
  run (get_ok _ _ _ Et1). run (dassert_holds debug (state th1 = Ready) (eq_trans Est1 Hst)).
  rewrite Ep1. cbn [priority set_isYielding].
  destruct (run_queue_leaves s a t th _ s1 Hwf Et Hst Htr1 Hs1) as (s2 & E2 & Htr2 & Hs2).
  run E2.
  destruct (track_upd _ _ _ _ _ (set_state Suspended) Htr2) as (s3 & E3 & Htr3 & Hs3 & _).
  run E3.
  destruct (unmap_ready s a t th _ s3 Hwf Et Hst Htr3) as (s4 & E4 & Htr4 & Ho4 & Hh4 & Hb4);
    [congruence|done|].
  run E4. destruct (f_threads _ _ _ Hf _ _ Et) as (Hpo & Hpn & Hsq).
  assert (Hsn : sleepQueue th = None).
  { destruct (sleepQueue th); [destruct Hsq; congruence|done]. }
  destruct (join_sleep_queue s a t (set_state Suspended (set_isYielding y th)) s4
    newq Hf Hq Hsn Htr4)
    as (s5 & b & E5 & Htr5 & Hs5 & Hout & Hin).
  run E5.
  destruct (track_upd _ _ _ _ _ (set_expiryTime expiry) Htr5) as (s6 & E6 & Htr6 & Hs6 & _).
  run E6. change (set_expiryTime expiry _) with (suspended expiry newq y th) in Htr6.
  destruct (track_get _ _ _ _ _ Htr6) as (th6 & Et6 & Ec6).
  pose proof (core_fields _ _ Ec6) as (_ & _ & _ & _ & _ & _ & _ & Est6 & _).
  unfold timer_list_insert. run (get_ok _ _ _ Et6).
  run (dassert_holds debug (state th6 = Suspended) Est6).
  assert (Hw : b HWaiting = rem t (a HWaiting)).
  { apply Hout. by destruct Hq as [->|[-> | ->]]. }
  destruct (place (threads s) a t (suspended expiry newq y th) HWaiting Hf)
    as (l1 & l2 & El & H1 & H2).
  destruct (track_insert _ _ _ _ _ HWaiting l1 l2 Htr6) as (s7 & E7 & Htr7 & Hs7);
    [intros [] ?; try done; rewrite Hw; intros Hi; apply elem_of_rem in Hi; tauto
    |by rewrite Hw|done|done|].
  exists s7, (aset b HWaiting (l1 ++ t :: l2)). split; [exact E7|].
  apply statics_map in Hs5 as (Em5 & Eh5 & Eo5), Hs6 as (Em6 & Eh6 & Eo6),
    Hs7 as (Em7 & Eh7 & Eo7).
  apply track_finish; [done|exact Htr7| | | |congruence|congruence].
  - split; [done|]. split; [done|]. cbn. destruct Hq as [->|[-> | ->]]; auto.
  - apply requeued_suspended; [done|done|done| |].
    + intros h [->|Hh].
      * exists l1, l2. rewrite aset_same by done. by splits.
      * specialize (Hin h Hh). change (Some h = newq) in Hh.
        destruct Hq as [Hq|[Hq|Hq]]; rewrite Hq in Hh; [done|injection Hh as ->; exact Hin..].
    + intros h Hh Hn. rewrite aset_other by done. by apply Hout.
  - rewrite Em7, Em6, Em5. apply (bits_same _ (fun h => rem t (a h))); [done|].
    intros p. rewrite aset_other by done. rewrite Hout; [done|].
    by destruct Hq as [->|[-> | ->]].
Qed.

(** *** [exit] *)

Lemma exit_steps s a c th :
  wf NPrios s a -> current s = Some c -> threads s !! c = Some th -> state th = Ready ->
  exists s1 a', exit debug s =
      Ok (u16 (threadCount s - 1) =? 0, with_threadCount (u16 (threadCount s - 1)) s1) /\
    stepped s a c (set_state Exited th) s1 a' /\ forall h, a' h = rem c (a h).
Proof.
  intros Hwf Ec Et Hst. pose proof (wf_fields _ _ _ Hwf) as Hf.
  unfold exit. run (deref_ok _ _ Ec). run (get_ok _ _ _ Et).
  destruct (run_queue_leaves s a c th _ s Hwf Et Hst (track_start _ _ _ _ Hwf Et) eq_refl)
    as (s1 & E1 & Htr1 & Hs1).
  run E1. destruct (unmap_ready s a c th _ s1 Hwf Et Hst Htr1 Hs1 eq_refl)
    as (s2 & E2 & Htr2 & Ho2 & Hh2 & Hb2).
  run E2. destruct (track_upd _ _ _ _ _ (set_state Exited) Htr2) as (s3 & E3 & Htr3 & Hs3 & _).
  run E3. exists s3, (fun h => rem c (a h)).
  apply statics_map in Hs3 as (Em3 & Eh3 & Eo3).
  assert (threadCount s3 = threadCount s) as -> by (rewrite Ho2 in Eo3; by injection Eo3).
  splits; [done| |done]. destruct (f_threads _ _ _ Hf _ _ Et) as (Hpo & Hpn & Hsq).
  apply track_finish; [done|exact Htr3| | |by rewrite Em3|congruence|congruence].
  - split; [done|]. split; [done|]. cbn. destruct (sleepQueue th); [|done].
    destruct Hsq; congruence.
  - intros h. rewrite decide_False; [done|]. destruct h; cbn; naive_solver.
Qed.
End Operations.
