(* ===== verification/ThreadSchedule.v ===== *)
(** * Choosing the next thread, and changing a priority

    [schedule] rotates the run queue of the thread it takes the processor from and
    gives it to the head of the highest non-empty run queue; [priority_boost] is
    the one operation that changes the order of threads.  The lemmas here extend
    those of [ThreadOps]. *)

From S2P Require Import Prelude LinkedList Thread ThreadQueues ThreadInv ThreadOps.

Section Schedule.
Context (NPrios : Z) (HNP : NPrios <= 32) (debug : bool).

(** A write that moves the thread in no queue. *)
Lemma fields_update m a t th th' :
  fields NPrios m a -> m !! t = Some th -> thread_ok NPrios th' ->
  (forall h, belongs h th' <-> belongs h th) ->
  (forall h x, belongs h th -> ov_of h th' x = ov_of h th x /\ ov_of h x th' = ov_of h x th) ->
  fields NPrios (<[t := th']> m) a.
Proof.
  intros [Fm Fo Ft] Et Hok Hb Ho. split.
  - intros h x. rewrite Fm. destruct (decide (x = t)) as [->|Hx].
    + rewrite lookup_insert_eq, Et. split; intros (? & [= <-] & ?); eexists; split; try done;
        by apply Hb.
    + by rewrite lookup_insert_ne by done.
  - intros h. eapply sorted_mono; [|apply Fo]. intros x y Hx Hy Hxy tx ty.
    apply Fm in Hx as (tx' & Ex & Hbx), Hy as (ty' & Ey & Hby).
    pose proof (Hxy _ _ Ex Ey) as Hov. rewrite !lookup_insert.
    destruct (decide (t = x)) as [E1|E1], (decide (t = y)) as [E2|E2];
      try subst x; try subst y.
    + intros [= <-] [= <-].
      assert (tx' = th) as -> by congruence. assert (ty' = th) as -> by congruence.
      destruct (Ho h th' Hbx) as [-> _], (Ho h th Hbx) as [_ ->]. done.
    + intros [= <-] Ety. assert (tx' = th) as -> by congruence.
      assert (ty' = ty) as -> by congruence. by destruct (Ho h ty Hbx) as [_ ->].
    + intros Etx [= <-]. assert (ty' = th) as -> by congruence.
      assert (tx' = tx) as -> by congruence. by destruct (Ho h tx Hby) as [-> _].
    + congruence.
  - intros x tx. rewrite lookup_insert. case_decide; [by intros [= <-]|apply Ft].
Qed.

(** Any order of a run queue is sorted. *)
Lemma fields_run_perm m a a' :
  fields NPrios m a -> (forall p, a' (HPrio p) ≡ₚ a (HPrio p)) ->
  a' HWaiting = a HWaiting -> a' HFutex = a HFutex -> a' HMulti = a HMulti ->
  fields NPrios m a'.
Proof.
  intros Hf Hp Hw Hfu Hm. pose proof Hf as [Fm Fo Ft]. split.
  - intros [p| | |] t; rewrite ?Hp, ?Hw, ?Hfu, ?Hm; apply Fm.
  - intros [p| | |]; rewrite ?Hw, ?Hfu, ?Hm; try apply Fo.
    assert (Hall : forall x, x ∈ a' (HPrio p) -> forall tx, m !! x = Some tx -> priority tx = p).
    { intros x Hx tx Ex. rewrite Hp in Hx. apply Fm in Hx as (tx' & Ex' & _ & Epx). congruence. }
    induction (a' (HPrio p)) as [|x l IH]; constructor;
      [apply IH; intros y Hy; apply Hall; by right|].
    apply Forall_forall. intros y Hy tx ty Ex Ey. apply ov_of_irrefl; [|done].
    rewrite (Hall x) with (tx := tx), (Hall y) with (tx := ty);
      [done|by right|done|by left|done].
  - exact Ft.
Qed.

Lemma wf_static s s' a :
  threads s' = threads s -> (forall h, get_head s' h = get_head s h) ->
  priorityMap s' = priorityMap s -> highestPriority s' = highestPriority s ->
  wf NPrios s a -> wf NPrios s' a.
Proof.
  intros Et Eh Em Ep [Hq Hf Hm]. split; [by eapply queues_heads|by rewrite Et|by rewrite Em, Ep].
Qed.

(** The run queue after the thread [c] was taken from the processor: it goes to
    the back if it still may run. *)
Definition rotated (c : Z) (tc : Thread) (a a' : href -> list Z) : Prop :=
  (forall h, ~ belongs h tc \/ is_timer h = true -> a' h = a h) /\
  (state tc = Ready -> exists l1 l2, a (HPrio (priority tc)) = l1 ++ c :: l2 /\
     a' (HPrio (priority tc)) = l2 ++ l1 ++ [c]).

Lemma queue_rotate s h l1 c l2 tc :
  queue run_links s h (l1 ++ c :: l2) -> threads s !! c = Some tc ->
  queue run_links (set_head s h (next tc)) h (l2 ++ l1 ++ [c]).
Proof.
  intros [_ [Hr|Hr]] Et; [by apply app_nil in Hr as [_ ?]|].
  pose proof (ring_rotate _ _ _ Hr) as Hr'. cbn [app] in Hr'.
  destruct (ring_next _ _ _ Hr') as (n & En & Hn & _).
  destruct (cell_next_get run_links _ _ _ Hn) as (tc' & Et' & Enx).
  assert (tc' = tc) as -> by congruence. cbn in Enx. split.
  - by rewrite get_set_head, decide_True, Enx, <- En, app_assoc by done.
  - right. rewrite app_assoc. by apply (ring_rotate _ [c] (l2 ++ l1)).
Qed.

Lemma park_steps s a c tc tstack :
  wf NPrios s a -> threads s !! c = Some tc ->
  exists s1 a1, upd (if bool_decide (state tc = Ready)
                then set_head s (HPrio (priority tc)) (next tc) else s)
             c (set_tStackPtr tstack) = Ok s1 /\
    wf NPrios s1 a1 /\ rotated c tc a a1 /\
    threads s1 = <[c := set_tStackPtr tstack tc]> (threads s) /\ statics s1 = statics s.
Proof.
  intros [Hq Hf Hm] Et.
  assert (Hok : thread_ok NPrios (set_tStackPtr tstack tc)).
  { exact (f_threads _ _ _ Hf _ _ Et). }
  assert (Hf' : fields NPrios (<[c := set_tStackPtr tstack tc]> (threads s)) a).
  { eapply fields_update; [done|done|done|by intros []|by intros []]. }
  case_bool_decide as Hst.
  - assert (c ∈ a (HPrio (priority tc))) as Hc by (by apply (f_members _ _ _ Hf); exists tc).
    apply list_elem_of_split in Hc as (l1 & l2 & El).
    set (s0 := set_head s (HPrio (priority tc)) (next tc)).
    set (a1 := aset a (HPrio (priority tc)) (l2 ++ l1 ++ [c])).
    assert (Hq0 : queues s0 a1).
    { intros h. unfold a1, aset. case_decide as Eh.
      - subst h. apply queue_rotate; [|done]. rewrite <- El. apply (Hq (HPrio (priority tc))).
      - destruct (Hq h) as [H1 H2]. split; [|done].
        unfold s0. by rewrite get_set_head, decide_False. }
    assert (Hperm : forall p, a1 (HPrio p) ≡ₚ a (HPrio p)).
    { intros p. unfold a1, aset. case_decide as Ep; [|done]. rewrite Ep, El.
      rewrite app_assoc, (Permutation_app_comm (l2 ++ l1)). cbn.
      by rewrite <- Permutation_middle, (Permutation_app_comm l2). }
    eexists _, a1. split; [apply (upd_ok s0 c tc); done|]. splits; [|split| |].
    + split.
      * by apply (queues_upd s0 a1 c tc (set_tStackPtr tstack)).
      * eapply fields_run_perm; [exact Hf'|exact Hperm|done..].
      * cbn. apply map_ok_iff in Hm as [Hb Ht]. apply map_ok_iff. split; [|done].
        eapply bits_same; [done|]. intros p. specialize (Hperm p).
        split; intros E; rewrite E in Hperm; [by apply Permutation_nil_r|by apply Permutation_nil_r].
    + intros h [Hh|Hh]; apply aset_other; [|by destruct h].
      intros ->. by apply Hh.
    + intros _. exists l1, l2. unfold a1. by rewrite aset_same.
    + done.
    + done.
  - eexists _, a. split; [apply (upd_ok s c tc); done|]. splits; [|split; [done|tauto]|done|done].
    split; [by apply (queues_upd s a c tc (set_tStackPtr tstack))|exact Hf'|exact Hm].
Qed.

(** The head of the highest run queue, and no ready thread above it. *)
Lemma top_thread s a :
  wf NPrios s a ->
  match priorityList s !! highestPriority s with
  | Some n => exists tn, head (a (HPrio (highestPriority s))) = Some n /\
      threads s !! n = Some tn /\ state tn = Ready /\ priority tn = highestPriority s /\
      forall x tx, threads s !! x = Some tx -> state tx = Ready -> priority tx <= priority tn
  | None => head (a (HPrio (highestPriority s))) = None /\
      forall x tx, threads s !! x = Some tx -> state tx <> Ready
  end.
Proof.
  intros [Hq Hf [Hb Htop]%map_ok_iff]. set (hp := highestPriority s) in *.
  destruct (Hq (HPrio hp)) as [Hh _]. cbn [get_head] in Hh.
  assert (Hready : forall x tx, threads s !! x = Some tx -> state tx = Ready ->
    priority tx <= hp /\ a (HPrio hp) <> []).
  { intros x tx Ex Hst. pose proof (priority_range NPrios HNP _ _ _ _ Hf Ex) as Hpr.
    assert (a (HPrio (priority tx)) <> []) as Hne.
    { assert (x ∈ a (HPrio (priority tx))) as Hx by (apply (f_members _ _ _ Hf); by exists tx).
      intros E. rewrite E in Hx. by apply not_elem_of_nil in Hx. }
    destruct (top_spec _ _ _ Hb Hpr Hne) as (H1 & _ & H2). rewrite <- Htop in H1, H2. done. }
  rewrite Hh. destruct (a (HPrio hp)) as [|n r] eqn:Ea; cbn.
  - split; [done|]. intros x tx Ex Hst. by destruct (Hready x tx Ex Hst).
  - assert (n ∈ a (HPrio hp)) as Hn by (rewrite Ea; left).
    apply (f_members _ _ _ Hf) in Hn as (tn & En & Hst & Hp). exists tn.
    splits; [done..|]. intros x tx Ex Hx. rewrite Hp. by apply (Hready x tx).
Qed.

Lemma schedule_steps s a tstack now :
  wf NPrios s a -> (forall c, current s = Some c -> is_Some (threads s !! c)) ->
  exists stk s' a1, schedule debug s tstack now = Ok (stk, s') /\ wf NPrios s' a1 /\
    (forall c tc, current s = Some c -> threads s !! c = Some tc -> rotated c tc a a1) /\
    (current s = None -> a1 = a) /\
    highestPriority s' = highestPriority s /\
    current s' = head (a1 (HPrio (highestPriority s))) /\
    match current s' with
    | Some n => exists tn, threads s' !! n = Some tn /\ state tn = Ready /\
        stk = tStackPtr tn /\ priority tn = highestPriority s /\
        forall x tx, threads s' !! x = Some tx -> state tx = Ready -> priority tx <= priority tn
    | None => stk = schedTStack s' /\ forall x tx, threads s' !! x = Some tx -> state tx <> Ready
    end.
Proof.
  intros Hwf Hc.
  assert (exists s1 a1, (match current s with
       | Some c =>
           tc ← get s c;
           upd (if bool_decide (state tc = Ready)
                then set_head s (HPrio (priority tc)) (next tc) else s)
             c (set_tStackPtr tstack)
       | None => Ok (with_schedTStack tstack s)
       end) = Ok s1 /\ wf NPrios s1 a1 /\
       (forall c tc, current s = Some c -> threads s !! c = Some tc -> rotated c tc a a1) /\
       (current s = None -> a1 = a) /\ highestPriority s1 = highestPriority s)
    as (s1 & a1 & E1 & Hwf1 & Hrot & Hnone & Hh1).
  { destruct (current s) as [c|].
    - destruct (Hc c) as [tc Et]; [done|].
      destruct (park_steps s a c tc tstack Hwf Et) as (s1 & a1 & E1 & Hw1 & Hr1 & _ & Hs1).
      exists s1, a1. run (get_ok _ _ _ Et). splits; [done|done| |done|].
      + intros c' tc' [= <-] Et'. by assert (tc' = tc) as -> by congruence.
      + by apply statics_map in Hs1 as (_ & ? & _).
    - eexists _, a. splits; [done| |done|done|done].
      by apply (wf_static s); [done|intros []|..]. }
  unfold schedule. cbv zeta. run E1. cbn [current with_current].
  pose proof (top_thread s1 a1 Hwf1) as Htop. rewrite Hh1 in Htop |- *.
  cbn [highestPriority with_current]. rewrite Hh1.
  set (s2 := with_current (priorityList s1 !! highestPriority s) s1).
  assert (Hwf2 : wf NPrios s2 a1) by (apply (wf_static s1); [done|by intros []|done..]).
  destruct (priorityList s1 !! highestPriority s) as [n|] eqn:En.
  - destruct Htop as (tn & Hn & Etn & Hst & Hp & Hmax).
    run (get_ok s2 n tn Etn). rewrite Hp. run (dassert_true debug _ (Z.eqb_refl (highestPriority s))).
    case_bool_decide as Hsame.
    + eexists _, s2, a1. rewrite ok_bind. splits; [done|done|done|done|done|by rewrite Hn|].
      cbn [current s2 with_current]. by exists tn; splits.
    + rewrite (upd_ok s2 n tn _ Etn), ok_bind. eexists _, _, a1.
      assert (Hrun : forall h, belongs h tn -> h = HPrio (priority tn)).
      { intros h. by rewrite belongs_ready. }
      splits; [done| |done|done|done|by rewrite Hn|].
      * destruct Hwf2 as [Hq2 Hf2 Hm2].
        split; [by apply (queues_upd s2 a1 n tn (set_expiryTime now))| |exact Hm2].
        eapply fields_update; [exact Hf2|exact Etn|exact (f_threads _ _ _ Hf2 _ _ Etn)
          |by intros []|]. by intros h x ->%Hrun.
      * cbn [current s2 with_current threads with_threads].
        exists (set_expiryTime now tn). rewrite lookup_insert_eq. splits; [done..|].
        intros x tx. rewrite lookup_insert. case_decide; [by intros [= <-] _|apply Hmax].
  - destruct Htop as [Hn Hmax]. eexists _, s2, a1. splits; [done|done|done|done|done|by rewrite Hn|].
    by cbn.
Qed.

(** [k] scheduling decisions with no other event between them. *)
Fixpoint schedules (k : nat) (s : sched) (tstack now : nat -> Z) : outcome sched :=
  match k with
  | O => Ok s
  | S k => '(_, s) ← schedule debug s (tstack k) (now k); schedules k s tstack now
  end.

Lemma split_head (l1 l2 r : list Z) (x : Z) : NoDup (x :: r) -> x :: r = l1 ++ x :: l2 -> l1 = [] /\ l2 = r.
Proof.
  intros Hnd El. destruct l1 as [|y l1]; cbn in El; [by simplify_eq|].
  injection El as <- Er. exfalso. apply NoDup_cons in Hnd as [Hn _]. apply Hn. rewrite Er.
  set_solver.
Qed.

Lemma schedules_rotate l1 : forall s a c l2 tstack now,
  wf NPrios s a -> current s = head (a (HPrio (highestPriority s))) ->
  a (HPrio (highestPriority s)) = l1 ++ c :: l2 ->
  exists s' a', schedules (length l1) s tstack now = Ok s' /\ wf NPrios s' a' /\
    current s' = Some c /\ highestPriority s' = highestPriority s /\
    a' (HPrio (highestPriority s)) = c :: l2 ++ l1.
Proof.
  induction l1 as [|x l1 IH]; intros s a c l2 tstack now Hwf Hcur El.
  - exists s, a. splits; [done|done|by rewrite Hcur, El|done|by rewrite El, app_nil_r].
  - rewrite El in Hcur. cbn in Hcur.
    assert (x ∈ a (HPrio (highestPriority s))) as Hx by (rewrite El; left).
    apply (f_members _ _ _ (wf_fields _ _ _ Hwf)) in Hx as (tx & Ex & Hst & Hp).
    destruct (schedule_steps s a (tstack (length l1)) (now (length l1)) Hwf)
      as (stk & s1 & a1 & E1 & Hwf1 & Hrot & _ & Hh & Hc1 & _).
    { intros c' Hc'. assert (c' = x) as -> by congruence. by exists tx. }
    destruct (Hrot x tx Hcur Ex) as [_ Hq]. destruct (Hq Hst) as (m1 & m2 & Em & Em1).
    rewrite Hp in Em, Em1. rewrite El in Em.
    pose proof (queue_NoDup _ _ _ (wf_queues _ _ _ Hwf (HPrio (highestPriority s)))) as Hnd.
    rewrite El in Hnd. destruct (split_head _ _ _ _ Hnd Em) as [-> ->].
    destruct (IH s1 a1 c (l2 ++ [x]) tstack now Hwf1) as (s' & a' & E' & Hw' & Hc' & Hh' & Ea');
      [by rewrite Hh|rewrite Hh, Em1; cbn; by rewrite <- app_assoc|].
    exists s', a'. cbn [schedules length]. rewrite E1, ok_bind, E'.
    rewrite Hh in *. splits; [done|done|done|done|]. rewrite Ea', <- app_assoc. done.
Qed.

(** *** [priority_boost] *)

Lemma ov_priority h th v x : is_timer h = true ->
  ov_of h (set_priority v th) x = ov_of h th x /\ ov_of h x (set_priority v th) = ov_of h x th.
Proof. by destruct h. Qed.

(** A sorted queue, cut at one of its threads. *)
Lemma cut_at m a t th h :
  fields NPrios m a -> NoDup (a h) -> m !! t = Some th -> belongs h th ->
  exists l1 l2, rem t (a h) = l1 ++ l2 /\ a h = l1 ++ t :: l2 /\
    (forall x tx, x ∈ l1 -> m !! x = Some tx -> ov_of h th tx = false) /\
    (forall x tx, x ∈ l2 -> m !! x = Some tx -> ov_of h tx th = false).
Proof.
  intros [Fm Fo _] Hnd Et Hb. assert (t ∈ a h) as Ht by (apply Fm; by exists th).
  apply list_elem_of_split in Ht as (l1 & l2 & El). exists l1, l2.
  rewrite El in Hnd |- *. rewrite rem_split by done. pose proof (Fo h) as Hs. rewrite El in Hs.
  splits; [done|done| |].
  - intros x tx Hx Ex. clear -Hs Hx Ex Et. induction l1 as [|y l1 IH]; cbn in Hs;
      [by apply not_elem_of_nil in Hx|].
    apply StronglySorted_inv in Hs as [Hs Hf]. apply elem_of_cons in Hx as [->|Hx]; [|by apply IH].
    eapply Forall_forall in Hf; [apply Hf; done|set_solver].
  - intros x tx Hx Ex. clear -Hs Hx Ex Et. induction l1 as [|y l1 IH]; cbn in Hs.
    + apply StronglySorted_inv in Hs as [Hs Hf]. eapply Forall_forall in Hf; [by apply Hf|done].
    + apply StronglySorted_inv in Hs as [Hs Hf]. by apply IH.
Qed.

Definition boosted (newPriority : Z) (th : Thread) : Thread :=
  set_priority (Z.max newPriority (OriginalPriority th)) th.

(** The bits and the highest priority after the thread moved from the run queue of
    [p] to that of [np]. *)
Lemma boost_map pm a b t p np :
  bits_ok pm a -> 0 <= p < 32 -> 0 <= np < 32 -> np <> p ->
  a (HPrio p) <> [] -> b (HPrio np) <> [] -> b (HPrio p) = rem t (a (HPrio p)) ->
  (forall p', p' <> p -> p' <> np -> b (HPrio p') = a (HPrio p')) ->
  forall pm2 hp2,
  (if bool_decide (b (HPrio p) = []) then
     pm2 = Z.land (Z.lor pm (u32 (Z.shiftl 1 np))) (u32 (Z.lnot (u32 (Z.shiftl 1 p)))) /\
     hp2 = top_of pm2
   else pm2 = Z.lor pm (u32 (Z.shiftl 1 np)) /\ hp2 = top_of pm) ->
  bits_ok pm2 b /\ (np <= top_of pm \/ rem t (a (HPrio p)) = [] -> hp2 = top_of pm2).
Proof.
  intros Hb Hp Hnp Hne Hap Hbnp Ebp Hother pm2 hp2 Hm2.
  assert (Hb1 : bits_ok (Z.lor pm (u32 (Z.shiftl 1 np))) (aset a (HPrio np) (b (HPrio np)))).
  { apply (bits_set _ a); [done|done|by rewrite aset_same|].
    intros p' Hp'. rewrite aset_other by congruence. done. }
  case_bool_decide as Hnull; destruct Hm2 as [-> ->]; split; try done.
  - eapply bits_clear; [exact Hb1|done|done|]. intros p' Hp'.
    destruct (decide (p' = np)) as [->|]; [by rewrite aset_same|].
    rewrite aset_other, Hother by congruence. done.
  - eapply bits_same; [exact Hb1|]. intros p'.
    destruct (decide (p' = np)) as [->|]; [by rewrite aset_same|].
    rewrite aset_other by congruence. destruct (decide (p' = p)) as [->|]; [tauto|].
    by rewrite Hother.
  - intros [Hle|E]; [|congruence]. rewrite top_set by (done || apply Hb). lia.
Qed.

(** The state with [highestPriority] computed anew. *)
Definition recomputed (s : sched) : sched := with_map (priorityMap s) (top_of (priorityMap s)) s.

Lemma recomputed_id s : highestPriority s = top_of (priorityMap s) -> recomputed s = s.
Proof. intros E. unfold recomputed. rewrite <- E. by destruct s. Qed.

Lemma wf_recomputed s a : wf NPrios s a -> recomputed s = s.
Proof. intros Hwf. apply recomputed_id. by pose proof (wf_map _ _ _ Hwf) as [_ ?]%map_ok_iff. Qed.

(** [priority_boost] leaves [highestPriority] alone unless the old run queue of the thread became
    empty: it can follow a boost of a ready thread that is not above it, or that has no peers. *)
Definition follows s a t th (np : Z) : Prop :=
  np <= highestPriority s \/ rem t (a (HPrio (priority th))) = [].

Lemma boost_ready s a t th np :
  wf NPrios s a -> threads s !! t = Some th -> state th = Ready ->
  OriginalPriority th <= np < NPrios -> np <> priority th ->
  exists s' a', (s1 ← list_remove debug s t (HPrio (priority th));
           s2 ← list_insert s1 t (HPrio np);
           priority_map_remove (with_map (Z.lor (priorityMap s2) (u32 (Z.shiftl 1 np)))
             (highestPriority s2) s2) t ≫= fun s3 => upd s3 t (set_priority np)) = Ok s' /\
    stepped NPrios s a t (set_priority np th) (recomputed s') a' /\
    (follows s a t th np -> recomputed s' = s').
Proof.
  intros Hwf Et Hst Hnp Hne. pose proof (wf_fields _ _ _ Hwf) as Hf.
  pose proof (priority_range NPrios HNP _ _ _ _ Hf Et) as Hpr.
  destruct (f_threads _ _ _ Hf _ _ Et) as (Hpo & Hpn & Hsq).
  destruct (run_queue_leaves NPrios debug s a t th th s Hwf Et Hst
    (track_start _ _ _ _ _ Hwf Et) eq_refl) as (s1 & E1 & Htr1 & Hs1).
  run E1. destruct (place NPrios (threads s) a t th (HPrio np) Hf) as (l1 & l2 & El & H1 & H2).
  destruct (track_insert _ _ _ _ _ (HPrio np) l1 l2 Htr1) as (s2 & E2 & Htr2 & Hs2);
    [intros h' _ Hin; apply elem_of_rem in Hin; tauto|done|done|done|].
  unfold list_insert. cbn [links_of ov_of is_timer] in E2. run E2.
  apply statics_map in Hs1 as (Em1 & Eh1 & Eo1), Hs2 as (Em2 & Eh2 & Eo2).
  destruct (wf_map _ _ _ Hwf) as (Hrange & _). pose proof (wf_map _ _ _ Hwf) as Hmo.
  apply map_ok_iff in Hmo as [Hbits Htop].
  set (s2' := with_map _ _ s2).
  assert (Htr2' : track (threads s) t th
      (aset (fun h => rem t (a h)) (HPrio np) (l1 ++ t :: l2)) s2')
    by (apply (track_static _ _ _ _ s2); [done|done|by intros []]).
  destruct (track_map_remove _ _ _ _ _ Htr2') as (s3 & E3 & Htr3 & Ho3 & Hm3).
  { cbn. rewrite Em2, Em1, shift_bit by lia. apply lor_bound; [done|done|].
    split; [apply Z.pow_nonneg; lia|apply Z.pow_lt_mono_r; lia]. }
  rewrite E3, ok_bind.
  destruct (track_upd _ _ _ _ _ (set_priority np) Htr3) as (s4 & E4 & Htr4 & Hs4 & _).
  eexists s4, _. split; [exact E4|]. apply statics_map in Hs4 as (Em4 & Eh4 & Eo4).
  assert (Htr5 : track (threads s) t (set_priority np th)
      (aset (fun h => rem t (a h)) (HPrio np) (l1 ++ t :: l2)) (recomputed s4))
    by (apply (track_static _ _ _ _ s4); [done|done|by intros []]).
  assert (Hin : t ∈ a (HPrio (priority th))) by (by apply (f_members _ _ _ Hf); exists th).
  rewrite aset_other in Hm3 by congruence. cbn [s2' priorityMap highestPriority with_map] in Hm3.
  rewrite Em2, Em1, Eh2, Eh1, Htop in Hm3.
  destruct (boost_map (priorityMap s) a
    (aset (fun h => rem t (a h)) (HPrio np) (l1 ++ t :: l2)) t (priority th) np)
    with (pm2 := priorityMap s3) (hp2 := highestPriority s3) as [Hb3 Ht3];
    [done|done|lia|done|intros E; rewrite E in Hin; by apply not_elem_of_nil in Hin
    |rewrite aset_same by done; by destruct l1|by rewrite aset_other by congruence| |
     by rewrite aset_other by congruence|].
  { intros p' Hp' Hp''. rewrite aset_other by congruence.
    eapply (rem_all NPrios); [done|done|]. rewrite belongs_ready by done. congruence. }
  split; [|intros Hf'; apply recomputed_id; rewrite Eh4, Em4; apply Ht3; by rewrite <- Htop].
  apply track_finish; [done|exact Htr5| | |cbn; by rewrite Em4|done|].
  - split; [cbn; lia|]. split; [cbn; lia|]. cbn. destruct (sleepQueue th); [|done].
    destruct Hsq; congruence.
  - intros h. destruct (decide (belongs h (set_priority np th))) as [Hb|Hb];
      rewrite belongs_ready in Hb by done; cbn in Hb.
    + subst h. exists l1, l2. rewrite aset_same by done. splits; [done|done|..];
        intros x tx Hx Ex; apply ov_of_irrefl; try done; cbn;
        assert (x ∈ a (HPrio np)) as Hxa
          by (apply (elem_of_rem x t); rewrite El, elem_of_app; auto);
        apply (f_members _ _ _ Hf) in Hxa as (tx' & Ex' & _ & ?); congruence.
    + by rewrite aset_other.
  - change (others (recomputed s4)) with (others s4). rewrite Eo4, Ho3. cbn. by rewrite <- Eo1, <- Eo2.
Qed.

(** A boosted thread that sleeps on a resource moves in the sleep queue. *)
Lemma boost_asleep s a t th np q :
  wf NPrios s a -> threads s !! t = Some th -> sleepQueue th = Some q ->
  OriginalPriority th <= np < NPrios ->
  exists s' a', (s1 ← list_remove debug s t q; s2 ← upd s1 t (set_priority np);
           list_insert s2 t q) = Ok s' /\
    stepped NPrios s a t (set_priority np th) s' a'.
Proof.
  intros Hwf Et Esq Hnp. pose proof (wf_fields _ _ _ Hwf) as Hf.
  destruct (f_threads _ _ _ Hf _ _ Et) as (Hpo & Hpn & Hsq). rewrite Esq in Hsq.
  destruct Hsq as [Hst Hq].
  assert (Hl : links_of q = run_links /\ ov_of q = higher_priority /\ is_timer q = false)
    by (by destruct Hq as [-> | ->]).
  destruct Hl as (Hl & Hov & Htm).
  assert (Hbq : belongs q th) by (by destruct Hq as [-> | ->]).
  destruct (track_remove _ _ debug _ _ _ q (track_start _ _ _ _ _ Hwf Et))
    as (s1 & E1 & Htr1 & Hs1); [by eapply fields_in|].
  rewrite Hl in E1. unfold list_remove. run E1.
  destruct (track_upd _ _ _ _ _ (set_priority np) Htr1) as (s2 & E2 & Htr2 & Hs2 & _).
  run E2.
  destruct (place NPrios (threads s) a t (set_priority np th) q Hf) as (l1 & l2 & El & H1 & H2).
  destruct (track_insert _ _ _ _ _ q l1 l2 Htr2) as (s3 & E3 & Htr3 & Hs3).
  { intros h' Hk Hin. rewrite Htm in Hk. unfold aset in Hin. case_decide as Eh.
    - apply elem_of_rem in Hin. tauto.
    - apply Eh. eapply (fields_apart NPrios); [exact Hf|by rewrite Htm|exact Hin|].
      by eapply fields_in. }
  { by rewrite aset_same. }
  { exact H1. }
  { exact H2. }
  rewrite Hl, Hov in E3. unfold list_insert. eexists s3, _. split; [exact E3|].
  apply statics_map in Hs1 as (Em1 & Eh1 & Eo1), Hs2 as (Em2 & Eh2 & Eo2),
    Hs3 as (Em3 & Eh3 & Eo3).
  pose proof (wf_map _ _ _ Hwf) as [Hbits Htop]%map_ok_iff.
  apply track_finish; [done|exact Htr3| | | |by rewrite Eh3, Eh2, Eh1, Em3, Em2, Em1|congruence].
  - split; [cbn; lia|]. split; [cbn; lia|]. cbn. rewrite Esq. done.
  - intros h. assert (belongs h (set_priority np th) <-> belongs h th) as Hbel.
    { destruct h; cbn; rewrite ?Hst; split; intros []; congruence || done. }
    destruct (decide (h = q)) as [->|Hh].
    + rewrite decide_True by tauto. exists l1, l2. rewrite aset_same by done.
      splits; [done|done|done|]. intros x tx Hx Ex. by eapply ov_of_asym, H2.
    + rewrite !(aset_other _ q _ h) by done. case_decide as Hb.
      * rewrite Hbel in Hb. assert (h = HWaiting) as ->.
        { destruct (belongs_suspended _ _ Hb Hst) as [?|?]; [done|congruence]. }
        destruct (cut_at _ _ t th HWaiting Hf (queue_NoDup _ _ _ (wf_queues _ _ _ Hwf HWaiting))
          Et Hst) as (m1 & m2 & Em & Ea & K1 & K2).
        exists m1, m2. by splits.
      * rewrite Hbel in Hb. symmetry. by eapply rem_all.
  - rewrite Em3, Em2, Em1. eapply bits_same; [exact Hbits|]. intros p.
    rewrite !aset_other; [done|by destruct Hq as [-> | ->]..].
Qed.

(** A write of the priority of a thread that is in no sorted queue of its own. *)
Lemma boost_idle s a t th np :
  wf NPrios s a -> threads s !! t = Some th -> state th <> Ready -> sleepQueue th = None ->
  OriginalPriority th <= np < NPrios ->
  exists s' , upd s t (set_priority np) = Ok s' /\
    stepped NPrios s a t (set_priority np th) s' a.
Proof.
  intros Hwf Et Hst Esq Hnp. pose proof (wf_fields _ _ _ Hwf) as Hf.
  destruct (f_threads _ _ _ Hf _ _ Et) as (Hpo & Hpn & Hsq).
  destruct (track_upd _ _ _ _ _ (set_priority np) (track_start _ _ _ _ _ Hwf Et))
    as (s1 & E1 & Htr1 & Hs1 & _).
  exists s1. split; [done|]. apply statics_map in Hs1 as (Em1 & Eh1 & Eo1).
  pose proof (wf_map _ _ _ Hwf) as [Hbits Htop]%map_ok_iff.
  apply track_finish; [done|exact Htr1| | |by rewrite Em1|by rewrite Eh1, Em1|done].
  - split; [cbn; lia|]. split; [cbn; lia|]. cbn. by rewrite Esq.
  - intros h. assert (belongs h (set_priority np th) <-> h = HWaiting /\ state th = Suspended)
      as Hbel.
    { destruct h; cbn; rewrite ?Esq; split; intros; destruct_and?; try done; congruence. }
    case_decide as Hb.
    + apply Hbel in Hb as [-> Hs].
      destruct (cut_at _ _ t th HWaiting Hf (queue_NoDup _ _ _ (wf_queues _ _ _ Hwf HWaiting))
          Et Hs) as (m1 & m2 & Em & Ea & K1 & K2).
      exists m1, m2. by splits.
    + symmetry. eapply (rem_all NPrios); [done|done|]. intros Hb'. apply Hb, Hbel.
      destruct h; cbn in Hb'; rewrite ?Esq in Hb'; destruct_and?; try done.
Qed.

Lemma boost_any s a t th newPriority :
  wf NPrios s a -> threads s !! t = Some th ->
  Z.max newPriority (OriginalPriority th) < NPrios ->
  exists s' a', priority_boost debug s t newPriority = Ok s' /\
    stepped NPrios s a t (boosted newPriority th) (recomputed s') a' /\
    ((state th = Ready -> follows s a t th (Z.max newPriority (OriginalPriority th))) -> recomputed s' = s').
Proof.
  intros Hwf Et Hnp. pose proof (wf_fields _ _ _ Hwf) as Hf.
  destruct (f_threads _ _ _ Hf _ _ Et) as (Hpo & Hpn & Hsq).
  unfold priority_boost, boosted. run (get_ok _ _ _ Et). cbv zeta.
  set (np := Z.max newPriority (OriginalPriority th)) in *.
  assert (OriginalPriority th <= np < NPrios) as Hr by lia.
  destruct (Z.eqb_spec np (priority th)) as [E|E].
  { exists s, a. rewrite (wf_recomputed s a Hwf). split; [done|]. split; [|done].
    replace (set_priority np th) with th by (destruct th; cbn in *; by subst).
    pose proof (wf_map _ _ _ Hwf) as [Hbits Htop]%map_ok_iff.
    apply track_finish; [done|by eapply track_start|by eapply (f_threads _ _ _ Hf)| |done..].
    intros h. case_decide as Hb.
    - destruct (cut_at _ _ t th h Hf (queue_NoDup _ _ _ (wf_queues _ _ _ Hwf h)) Et Hb)
        as (m1 & m2 & Em & Ea & K1 & K2).
      exists m1, m2. by splits.
    - symmetry. by eapply (rem_all NPrios). }
  case_bool_decide as Hst.
  - assert (sleepQueue th = None) as ->.
    { destruct (sleepQueue th); [destruct Hsq; congruence|done]. }
    destruct (boost_ready s a t th np Hwf Et Hst Hr E) as (s' & a' & E' & Hs' & Hrc).
    exists s', a'. split; [|split; [done|auto]]. rewrite <- E'.
    destruct (list_remove debug s t (HPrio (priority th))) as [s1|]; [|done].
    rewrite !ok_bind. destruct (list_insert s1 t (HPrio np)) as [s2|]; [|done].
    rewrite !ok_bind. destruct (priority_map_remove _ t) as [s3|]; [|done].
    rewrite !ok_bind. by destruct (upd s3 t _).
  - rewrite ok_bind. destruct (sleepQueue th) as [q|] eqn:Esq.
    + destruct (boost_asleep s a t th np q Hwf Et Esq Hr) as (s' & a' & E' & Hs').
      exists s', a'. rewrite (wf_recomputed s' a'); [done|apply Hs'].
    + rewrite ok_bind. destruct (boost_idle s a t th np Hwf Et Hst Esq Hr) as (s' & E' & Hs').
      exists s', a. rewrite (wf_recomputed s' a); [by run E'|apply Hs'].
Qed.

Lemma boost_steps s a t th newPriority :
  wf NPrios s a -> threads s !! t = Some th ->
  Z.max newPriority (OriginalPriority th) < NPrios ->
  (state th = Ready -> follows s a t th (Z.max newPriority (OriginalPriority th))) ->
  exists s' a', priority_boost debug s t newPriority = Ok s' /\
    stepped NPrios s a t (boosted newPriority th) s' a'.
Proof.
  intros Hwf Et Hnp Hcond. destruct (boost_any s a t th newPriority Hwf Et Hnp) as (s' & a' & E & Hs & Hrc).
  exists s', a'. split; [done|]. by rewrite <- Hrc.
Qed.
End Schedule.
