(* ===== verification/Scheduler.v ===== *)
(** * The scheduler as a state machine, and what it promises

    [op] lists the operations of [thread.h] that change state, [exec] runs them,
    [enabled] are the conditions their callers establish (the debug assertions of
    the source, and the ranges of the arguments).  [reachable] is the set of states
    of a scheduler that starts with no thread.  Then the theorems. *)

From S2P Require Import Prelude LinkedList Thread ThreadQueues ThreadInv ThreadOps ThreadSchedule.

Inductive op : Type :=
| OpConstruct (t tstack threadid prio : Z)
| OpReady (t : Z) (reason : WakeReason)
| OpSuspend (t expiry : Z) (q : option href) (yieldNotSleep : bool)
| OpBoost (t newPriority : Z)
| OpSchedule (tstack now : Z)
| OpExit.

Definition exec (debug : bool) (o : op) (s : sched) : outcome sched :=
  match o with
  | OpConstruct t tstack threadid prio => construct debug s t tstack threadid prio
  | OpReady t reason => ready debug s t reason
  | OpSuspend t expiry q y => suspend_internal debug s t expiry q y
  | OpBoost t p => priority_boost debug s t p
  | OpSchedule tstack now => '(_, s') ← schedule debug s tstack now; Ok s'
  | OpExit => '(_, s') ← exit debug s; Ok s'
  end.

Definition enabled (NPrios : Z) (o : op) (s : sched) : Prop :=
  match o with
  | OpConstruct t _ _ prio => threads s !! t = None /\ 0 <= prio < NPrios
  | OpReady t _ => exists th, threads s !! t = Some th /\ state th = Suspended
  | OpSuspend t _ q _ => sleep_ref q /\ exists th, threads s !! t = Some th /\ state th = Ready
  | OpBoost t p => exists th, threads s !! t = Some th /\
      Z.max p (OriginalPriority th) < NPrios /\
      (state th = Ready -> Z.max p (OriginalPriority th) <= highestPriority s)
  | OpSchedule _ _ => True
  | OpExit => exists c th, current s = Some c /\ threads s !! c = Some th /\ state th = Ready
  end.

Definition no_threads : sched :=
  mkSched ∅ ∅ None None None 0 0 None 0 0 0.

Inductive reachable (NPrios : Z) (debug : bool) : sched -> Prop :=
| reach_start s : threads s = ∅ -> (forall h, get_head s h = None) -> priorityMap s = 0 ->
    highestPriority s = 0 -> current s = None -> reachable NPrios debug s
| reach_step o s s' : reachable NPrios debug s -> enabled NPrios o s ->
    exec debug o s = Ok s' -> reachable NPrios debug s'.

Section Machine.
Context (NPrios : Z) (HNP : NPrios <= 32) (debug : bool).

(** *** Construction of threads *)

Definition new_thread (tstack threadid prio : Z) : Thread :=
  mkThread None None None None None (u64 (-1)) (WMulti None) tstack threadid prio prio
    Suspended false.

Lemma construct_steps s a t tstack threadid prio :
  wf NPrios s a -> threads s !! t = None -> 0 <= prio < NPrios ->
  exists s' a', construct debug s t tstack threadid prio = Ok s' /\
    stepped NPrios s a t (new_thread tstack threadid prio) s' a'.
Proof.
  intros Hwf Et Hp. pose proof (wf_fields _ _ _ Hwf) as Hf.
  set (th := new_thread tstack threadid prio).
  assert (Hn : forall h, t ∉ a h).
  { intros h (th' & Et' & _)%(f_members _ _ _ Hf). congruence. }
  set (s0 := with_threads (<[t := th]> (threads s)) s).
  assert (Htr : track (threads s) t th a s0).
  { split; [|by eapply fields_apart|done]. intros h.
    destruct (wf_queues _ _ _ Hwf h) as [Hh Hr]. split; [by destruct h|].
    destruct Hr as [?|Hr]; [by left|right]. eapply ring_frame; [exact Hr|].
    intros q Hq. cbn. rewrite lookup_insert_ne; [done|]. intros <-. by apply (Hn h). }
  destruct (place NPrios (threads s) a t th HWaiting Hf) as (l1 & l2 & El & H1 & H2).
  rewrite rem_notin in El by done.
  destruct (track_insert _ _ _ _ _ HWaiting l1 l2 Htr) as (s1 & E1 & Htr1 & Hs1);
    [intros h' _; apply Hn|done|done|done|].
  exists s1, (aset a HWaiting (l1 ++ t :: l2)). split.
  - change (construct debug s t tstack threadid prio) with (timer_list_insert debug s0 t HWaiting).
    unfold timer_list_insert.
    assert (Es0 : threads s0 !! t = Some th) by apply lookup_insert_eq.
    run (get_ok s0 t th Es0). run (dassert_holds debug (state th = Suspended) eq_refl).
    exact E1.
  - apply statics_map in Hs1 as (Em1 & Eh1 & Eo1).
    pose proof (wf_map _ _ _ Hwf) as [Hbits Htop]%map_ok_iff.
    apply (track_finish _ s a t th); [done|exact Htr1| | | |by rewrite Eh1, Em1|done].
    + repeat split; cbn; lia.
    + apply (requeued_suspended NPrios); [done|done|by left| |].
      * intros h [->|?]; [|done]. exists l1, l2. rewrite aset_same, rem_notin by done.
        by splits.
      * intros h Hh _. by rewrite aset_other, rem_notin by done.
    + rewrite Em1. eapply bits_same; [exact Hbits|]. intros p. by rewrite aset_other.
Qed.

(** *** Every operation *)

Definition inv (s : sched) : Prop :=
  (exists a, wf NPrios s a) /\ (forall c, current s = Some c -> is_Some (threads s !! c)).

Lemma stepped_inv s a t th s' a' :
  inv s -> stepped NPrios s a t th s' a' -> inv s'.
Proof.
  intros [_ Hc] (Hwf & _ & Ec & Ho). split; [by exists a'|].
  assert (current s' = current s) as -> by (by injection Ho). intros c Hcur.
  destruct (Hc c Hcur) as [tc Etc].
  assert (is_Some ((core <$> threads s') !! c)) as Hs.
  { rewrite Ec, lookup_fmap, fmap_is_Some, lookup_insert. case_decide; eauto. }
  by rewrite lookup_fmap, fmap_is_Some in Hs.
Qed.

Lemma inv_start s : threads s = ∅ -> (forall h, get_head s h = None) -> priorityMap s = 0 ->
  highestPriority s = 0 -> current s = None -> inv s.
Proof.
  intros Et Eh Em Ep Ec. split; [|by rewrite Ec]. exists (fun _ => []). split.
  - intros h. split; [by rewrite Eh|by left].
  - rewrite Et. split.
    + intros h t. split; [by intros ?%not_elem_of_nil|].
      intros (th & E & _). by rewrite lookup_empty in E.
    + constructor.
    + intros t th. by rewrite lookup_empty.
  - rewrite Em, Ep. split; [split; [done|by apply pow2_pos]|split; [|done]].
    intros p Hp. by rewrite Z.bits_0.
Qed.

Lemma exec_inv o s : inv s -> enabled NPrios o s ->
  exists s', exec debug o s = Ok s' /\ inv s'.
Proof.
  intros Hinv Hen. pose proof Hinv as [[a Hwf] Hc].
  destruct o as [t ts ti p|t r|t e q y|t p|ts now|]; cbn [enabled exec] in *.
  - destruct Hen as [Et Hp].
    destruct (construct_steps s a t ts ti p Hwf Et Hp) as (s' & a' & E & Hs).
    exists s'. split; [done|]. by eapply stepped_inv.
  - destruct Hen as (th & Et & Hst).
    destruct (ready_steps NPrios HNP debug s a t th r Hwf Et Hst) as (s' & a' & E & Hs & _).
    exists s'. split; [done|]. by eapply stepped_inv.
  - destruct Hen as (Hq & th & Et & Hst).
    destruct (suspend_steps NPrios HNP debug s a t th e q y Hwf Et Hst Hq) as (s' & a' & E & Hs).
    exists s'. split; [done|]. by eapply stepped_inv.
  - destruct Hen as (th & Et & Hp & Hb).
    destruct (boost_steps NPrios HNP debug s a t th p Hwf Et Hp) as (s' & a' & E & Hs); [unfold follows; auto|].
    exists s'. split; [done|]. by eapply stepped_inv.
  - destruct (schedule_steps NPrios HNP debug s a ts now Hwf Hc)
      as (stk & s' & a1 & E & Hw & _ & _ & _ & _ & Hcur).
    exists s'. rewrite E. split; [done|]. split; [by exists a1|]. intros c Ec. rewrite Ec in Hcur.
    destruct Hcur as (tn & En & _). by exists tn.
  - destruct Hen as (c & th & Ec & Et & Hst).
    destruct (exit_steps NPrios HNP debug s a c th Hwf Ec Et Hst) as (s1 & a' & E & Hs & _).
    eexists. rewrite E. split; [done|].
    destruct (stepped_inv _ _ _ _ _ _ Hinv Hs) as [[a1 Hw] Hc1].
    split; [|done]. exists a1. by apply (wf_static NPrios s1); [..|intros []| | |].
Qed.

Lemma reachable_inv s : reachable NPrios debug s -> inv s.
Proof.
  induction 1 as [|o s s' _ IH Hen E]; [by apply inv_start|].
  destruct (exec_inv o s IH Hen) as (s1 & E1 & H1). congruence.
Qed.
End Machine.

(** ** Walking a list whose threads leave it *)

Section Walk.
Context {A : Type} (h : href) (visitor : A -> sched -> Z -> outcome (A * sched))
  (terminate : A -> bool).

(** [P r a s] is an invariant of the walk: [r] are the threads still to visit. *)
Context (P : list Z -> A -> sched -> Prop).

(** A visit keeps the threads still to visit at the end of the queue, whatever it
    does to those before them. *)
Definition safe_visitor : Prop :=
  forall k x r a s, P (x :: r) a s -> queue run_links s h (k ++ x :: r) -> terminate a = false ->
    exists a' s' k', visitor a s x = Ok (a', s') /\ P r a' s' /\ queue run_links s' h (k' ++ r).

Lemma walk_from (Hsafe : safe_visitor) : forall r fuel k x a s,
  P (x :: r) a s -> queue run_links s h (k ++ x :: r) -> (length r + 1 < fuel)%nat ->
  exists a' s' r', walk_thread_list fuel h visitor terminate a s (Some x) = Ok (a', s') /\
    P r' a' s' /\ (terminate a' = true \/ r' = []) /\
    exists k', queue run_links s' h (k' ++ r').
Proof.
  induction r as [|y r IH]; intros [|fuel] k x a s HP Hq Hf; [lia| |lia|];
    cbn [walk_thread_list].
  all: destruct (terminate a) eqn:Eterm;
    [exists a, s; eexists; splits; [done|exact HP|by left|by exists k]|].
  all: pose proof Hq as [Hh [Hr|Hr]]; [by apply app_nil in Hr as [_ ?]|].
  all: destruct (Hsafe _ _ _ _ _ HP Hq Eterm) as (a1 & s1 & k1 & Ev & HP1 & Hq1).
  all: pose proof (ring_rotate _ _ _ Hr) as Hr'; cbn [app] in Hr'.
  all: destruct (ring_next _ _ _ Hr') as (n & En & Hn & _).
  all: destruct (cell_next_get run_links _ _ _ Hn) as (th & Et & Enx); cbn in Enx.
  all: run (get_ok _ _ _ Et); rewrite Enx; cbv zeta; run Ev.
  - assert (Hn' : get_head s h = Some n).
    { rewrite Hh. cbn in En. destruct k; cbn in *; congruence. }
    rewrite bool_decide_eq_true_2 by done.
    destruct fuel as [|fuel]; [cbn in Hf; lia|]. cbn [walk_thread_list].
    exists a1, s1, []. splits; [done|done|by right|by exists k1].
  - cbn in En. injection En as <-.
    rewrite bool_decide_eq_false_2.
    { apply (IH fuel k1); [done|done|cbn in Hf; lia]. }
    rewrite Hh. apply ring_NoDup in Hr. destruct k as [|z k]; cbn in Hr |- *; intros [= ->];
      apply NoDup_cons in Hr as [Hnin _]; apply Hnin; set_solver.
Qed.
End Walk.

(** ** What the scheduler promises *)

Section Promises.
Context (NPrios : Z) (HNP : NPrios <= 32) (debug : bool).

(** In every reachable state the queues are as the thread records say, sorted,
    the priority map and the highest priority are right, and every operation whose
    callers respect its conditions succeeds (no debug assertion fails, no null or
    dangling pointer is followed) and leads to such a state again. *)
Theorem scheduler_safe s o :
  reachable NPrios debug s -> enabled NPrios o s ->
  (exists a, wf NPrios s a) /\
  exists s' a', exec debug o s = Ok s' /\ wf NPrios s' a' /\ reachable NPrios debug s'.
Proof.
  intros Hr Hen. pose proof (reachable_inv NPrios HNP debug s Hr) as Hinv.
  split; [apply Hinv|].
  destruct (exec_inv NPrios HNP debug o s Hinv Hen) as (s' & E & [[a' Hw] _]).
  exists s', a'. splits; [done|done|by eapply reach_step].
Qed.

(** [schedule] gives the processor to the head of the highest non-empty run
    queue: no ready thread has a higher priority; the thread it takes the processor
    from, if it is still ready, goes to the back of its run queue.  It returns the
    trusted stack of the thread it chose, and the scheduler's own stack when no
    thread is ready. *)
Theorem schedule_picks_highest s a tstack now :
  wf NPrios s a -> (forall c, current s = Some c -> is_Some (threads s !! c)) ->
  exists stk s' a', schedule debug s tstack now = Ok (stk, s') /\ wf NPrios s' a' /\
    (forall c tc, current s = Some c -> threads s !! c = Some tc -> rotated c tc a a') /\
    current s' = head (a' (HPrio (highestPriority s))) /\
    match current s' with
    | Some n => exists tn, threads s' !! n = Some tn /\ state tn = Ready /\
        stk = tStackPtr tn /\
        forall x tx, threads s' !! x = Some tx -> state tx = Ready -> priority tx <= priority tn
    | None => stk = schedTStack s' /\
        forall x tx, threads s' !! x = Some tx -> state tx <> Ready
    end.
Proof.
  intros Hwf Hc.
  destruct (schedule_steps NPrios HNP debug s a tstack now Hwf Hc)
    as (stk & s' & a' & E & Hw & Hrot & _ & _ & Hcur & Hm).
  exists stk, s', a'. splits; [done..|]. destruct (current s'); [|done].
  destruct Hm as (tn & ? & ? & ? & _ & ?). by exists tn.
Qed.


(** [ready] takes a suspended thread out of the list of suspended threads and
    of its sleep queue and puts it at the back of the run queue of its priority; the
    reason decides whether its futex or multiwaiter state is cleared. *)
Theorem ready_requeues s a t th reason :
  wf NPrios s a -> threads s !! t = Some th -> state th = Suspended ->
  exists s' a', ready debug s t reason = Ok s' /\ wf NPrios s' a' /\
    core <$> threads s' = core <$> <[t := readied reason th]> (threads s) /\
    forall h, a' h = rem t (a h) ++ (if decide (h = HPrio (priority th)) then [t] else []).
Proof.
  intros Hwf Et Hst.
  destruct (ready_steps NPrios HNP debug s a t th reason Hwf Et Hst)
    as (s' & a' & E & (Hw & _ & Hc & _) & Ha).
  by exists s', a'.
Qed.

(** [suspend_internal] takes a ready thread out of its run queue and puts it,
    by its expiry time, in the list of suspended threads and, by its priority, in the
    sleep queue it is given, behind the threads of the same time or priority. *)
Theorem suspend_requeues s a t th expiry newSleepQueue yieldNotSleep :
  wf NPrios s a -> threads s !! t = Some th -> state th = Ready -> sleep_ref newSleepQueue ->
  exists s' a', suspend_internal debug s t expiry newSleepQueue yieldNotSleep = Ok s' /\
    wf NPrios s' a' /\
    requeued (threads s) t (suspended expiry newSleepQueue yieldNotSleep th) a a' /\
    core <$> threads s' =
      core <$> <[t := suspended expiry newSleepQueue yieldNotSleep th]> (threads s).
Proof.
  intros Hwf Et Hst Hq.
  destruct (suspend_steps NPrios HNP debug s a t th expiry newSleepQueue yieldNotSleep
    Hwf Et Hst Hq) as (s' & a' & E & (Hw & Hr & Hc & _)).
  by exists s', a'.
Qed.

(** [priority_boost] sets the priority of a thread to the larger of its
    argument and the original priority and moves the thread to the run queue or to
    the place in its sleep queue that the new priority gives it, provided that a
    ready thread is not raised above the highest ready priority while it has
    peers. *)
Theorem boost_requeues s a t th newPriority :
  wf NPrios s a -> threads s !! t = Some th ->
  Z.max newPriority (OriginalPriority th) < NPrios ->
  (state th = Ready -> Z.max newPriority (OriginalPriority th) <= highestPriority s \/
     rem t (a (HPrio (priority th))) = []) ->
  exists s' a', priority_boost debug s t newPriority = Ok s' /\ wf NPrios s' a' /\
    requeued (threads s) t (boosted newPriority th) a a' /\
    core <$> threads s' = core <$> <[t := boosted newPriority th]> (threads s).
Proof.
  intros Hwf Et Hp Hb.
  destruct (boost_steps NPrios HNP debug s a t th newPriority Hwf Et Hp Hb)
    as (s' & a' & E & (Hw & Hr & Hc & _)).
  by exists s', a'.
Qed.

(** [exit] takes the running thread out of its run queue for good, and says
    whether it was the last one. *)
Theorem exit_removes s a c th :
  wf NPrios s a -> current s = Some c -> threads s !! c = Some th -> state th = Ready ->
  exists s' a', exit debug s = Ok (u16 (threadCount s - 1) =? 0, s') /\ wf NPrios s' a' /\
    threadCount s' = u16 (threadCount s - 1) /\ (forall h, a' h = rem c (a h)) /\
    core <$> threads s' = core <$> <[c := set_state Exited th]> (threads s).
Proof.
  intros Hwf Ec Et Hst.
  destruct (exit_steps NPrios HNP debug s a c th Hwf Ec Et Hst)
    as (s1 & a' & E & (Hw & _ & Hc & _) & Ha).
  eexists _, a'. split; [exact E|]. splits; [|done|done|done].
  by apply (wf_static NPrios s1); [..|intros []| | |].
Qed.
End Promises.

(** [walk_thread_list] ends, having visited every thread that was in the list
    once and in order, or having been told to stop, even when the visits take the
    visited thread out of the list. *)
Theorem walk_visits_all {A : Type} (h : href) (visitor : A -> sched -> Z -> outcome (A * sched))
    (terminate : A -> bool) (P : list Z -> A -> sched -> Prop) l a s fuel :
  safe_visitor h visitor terminate P -> P l a s -> queue run_links s h l ->
  (length l < fuel)%nat ->
  exists a' s' r', walk_thread_list fuel h visitor terminate a s (get_head s h) = Ok (a', s') /\
    P r' a' s' /\ (terminate a' = true \/ r' = []).
Proof.
  intros Hsafe HP Hq Hf. pose proof Hq as [Hh _]. rewrite Hh.
  destruct l as [|x r]; cbn in Hf.
  - destruct fuel; [lia|]. exists a, s, []. splits; [done|done|by right].
  - destruct (walk_from h visitor terminate P Hsafe r fuel [] x a s HP Hq)
      as (a' & s' & r' & E & HP' & Ht & _); [lia|].
    exists a', s', r'. by splits.
Qed.

(** The boundary of the theorem on [priority_boost]: a ready thread with a peer that
    is raised above the highest ready priority is put in the right run queue, but
    [highestPriority] keeps its value, and [schedule] does not choose it. *)
Definition boost_above : outcome (Z * sched) :=
  s ← construct true no_threads 1 101 1 1;
  s ← construct true s 2 102 2 1;
  s ← ready true s 1 WakeTimer;
  s ← ready true s 2 WakeTimer;
  s ← priority_boost true s 2 3;
  schedule true s 0 0.

(** Raising a ready thread above the highest ready priority while its old run
    queue stays non-empty leaves [highestPriority] unchanged: the boosted thread is
    ready with priority 3, the scheduler runs a thread of priority 1. *)
Theorem boost_above_highest_not_chosen :
  exists stk s, boost_above = Ok (stk, s) /\ highestPriority s = 1 /\ current s = Some 1 /\
    exists th, threads s !! 2 = Some th /\ state th = Ready /\ priority th = 3.
Proof. eexists _, _. split; [vm_compute; reflexivity|]. splits; [done|done|]. by eexists. Qed.

(** ** Witnesses: the theorems at concrete states *)

(** The state after a list of operations. *)
Fixpoint run_ops (debug : bool) (l : list op) (s : sched) : outcome sched :=
  match l with [] => Ok s | o :: l => s' ← exec debug o s; run_ops debug l s' end.

Definition demo_ops : list op :=
  [OpConstruct 1 101 1 1; OpConstruct 2 102 2 1; OpConstruct 3 103 3 2;
   OpReady 1 WakeTimer; OpReady 2 WakeTimer; OpSchedule 0 5].

(** Three threads: 1 is running, 2 is ready at the same priority, 3 is suspended. *)
Definition demo : sched :=
  match run_ops true demo_ops no_threads with Ok s => s | Err _ => no_threads end.

Fixpoint enabled_along (NPrios : Z) (debug : bool) (l : list op) (s : sched) : Prop :=
  match l with
  | [] => True
  | o :: l => enabled NPrios o s /\
      match exec debug o s with Ok s' => enabled_along NPrios debug l s' | Err _ => False end
  end.

Lemma run_reachable NPrios debug l s :
  reachable NPrios debug s -> enabled_along NPrios debug l s ->
  exists s', run_ops debug l s = Ok s' /\ reachable NPrios debug s'.
Proof.
  revert s. induction l as [|o l IH]; intros s Hr He; [by exists s|].
  destruct He as [Hen He]. destruct (exec debug o s) as [s1|] eqn:E; [|done].
  cbn [run_ops]. rewrite E, ok_bind. apply IH; [|done]. by eapply reach_step.
Qed.

Lemma demo_reachable : reachable 4 true demo.
Proof.
  destruct (run_reachable 4 true demo_ops no_threads) as (s & E & Hr).
  - apply reach_start; try done. by intros [].
  - vm_compute. repeat split; try discriminate; eauto 10.
  - unfold demo. by rewrite E.
Qed.

Lemma demo_wf : exists a, wf 4 demo a /\ current demo = head (a (HPrio (highestPriority demo))) /\
  a (HPrio (highestPriority demo)) = [1] ++ 2 :: [].
Proof.
  destruct (reachable_inv 4 ltac:(lia) true demo demo_reachable) as [[a Hwf] _].
  assert (a (HPrio (highestPriority demo)) = [1] ++ 2 :: []) as Ea.
  { apply (queue_unique (HPrio (highestPriority demo)) demo); [apply Hwf|].
    split; [vm_compute; reflexivity|right].
    split; [apply (bool_decide_unpack _); vm_compute; exact I|repeat split]. }
  exists a. splits; [done|rewrite Ea; vm_compute; reflexivity|done].
Qed.

Lemma scheduler_safe_witness :
  (exists a, wf 4 demo a) /\
  exists s' a', exec true (OpSuspend 1 10 (Some HFutex) false) demo = Ok s' /\ wf 4 s' a' /\
    reachable 4 true s'.
Proof.
  apply (scheduler_safe 4 ltac:(lia) true demo (OpSuspend 1 10 (Some HFutex) false));
    [exact demo_reachable|].
  split; [right; left; reflexivity|]. eexists. split; [vm_compute; reflexivity|reflexivity].
Defined.

Lemma schedule_picks_highest_witness :
  exists a stk s' a', wf 4 demo a /\ schedule true demo 201 7 = Ok (stk, s') /\ wf 4 s' a'.
Proof.
  destruct demo_wf as (a & Hwf & _).
  destruct (schedule_picks_highest 4 ltac:(lia) true demo a 201 7 Hwf)
    as (stk & s' & a' & E & Hw & _).
  - intros c Hc. vm_compute in Hc. injection Hc as <-. vm_compute. eexists. reflexivity.
  - exists a, stk, s', a'. splits; assumption.
Defined.


Lemma ready_requeues_witness :
  exists a s' a', wf 4 demo a /\ ready true demo 3 WakeFutex = Ok s' /\ wf 4 s' a' /\
    a' (HPrio 2) = rem 3 (a (HPrio 2)) ++ [3].
Proof.
  destruct demo_wf as (a & Hwf & _).
  destruct (threads demo !! 3) as [th|] eqn:Et; [|vm_compute in Et; discriminate].
  assert (state th = Suspended /\ priority th = 2) as [Hst Hp]
    by (vm_compute in Et; injection Et as <-; split; reflexivity).
  destruct (ready_requeues 4 ltac:(lia) true demo a 3 th WakeFutex Hwf Et Hst)
    as (s' & a' & E & Hw & _ & Ha).
  exists a, s', a'. splits; try assumption. rewrite Ha, Hp. reflexivity.
Defined.

Lemma suspend_requeues_witness :
  exists a s' a', wf 4 demo a /\
    suspend_internal true demo 2 30 (Some HMulti) false = Ok s' /\ wf 4 s' a'.
Proof.
  destruct demo_wf as (a & Hwf & _).
  destruct (threads demo !! 2) as [th|] eqn:Et; [|vm_compute in Et; discriminate].
  assert (state th = Ready) as Hst by (vm_compute in Et; injection Et as <-; reflexivity).
  destruct (suspend_requeues 4 ltac:(lia) true demo a 2 th 30 (Some HMulti) false Hwf Et Hst
    ltac:(right; right; reflexivity)) as (s' & a' & E & Hw & _).
  exists a, s', a'. splits; assumption.
Defined.

Lemma boost_requeues_witness :
  exists a s' a', wf 4 demo a /\ priority_boost true demo 3 3 = Ok s' /\ wf 4 s' a'.
Proof.
  destruct demo_wf as (a & Hwf & _).
  destruct (threads demo !! 3) as [th|] eqn:Et; [|vm_compute in Et; discriminate].
  assert (state th = Suspended /\ OriginalPriority th = 2) as [Hst Ho]
    by (vm_compute in Et; injection Et as <-; split; reflexivity).
  destruct (boost_requeues 4 ltac:(lia) true demo a 3 th 3 Hwf Et) as (s' & a' & E & Hw & _);
    [rewrite Ho; lia|congruence|].
  exists a, s', a'. splits; assumption.
Defined.

Lemma exit_removes_witness :
  exists a s' a', wf 4 demo a /\ exit true demo = Ok (false, s') /\ wf 4 s' a'.
Proof.
  destruct demo_wf as (a & Hwf & _).
  destruct (threads demo !! 1) as [th|] eqn:Et; [|vm_compute in Et; discriminate].
  assert (state th = Ready) as Hst by (vm_compute in Et; injection Et as <-; reflexivity).
  destruct (exit_removes 4 ltac:(lia) true demo a 1 th Hwf ltac:(vm_compute; reflexivity) Et Hst)
    as (s' & a' & E & Hw & _).
  exists a, s', a'. splits; [assumption|exact E|assumption].
Defined.

(** Visiting the run queue of [demo] with a visitor that records what it sees. *)
Lemma walk_visits_all_witness :
  exists a' s' r', walk_thread_list 3 (HPrio 1) (fun a s t => Ok (a ++ [t], s)) (fun _ => false)
      [] demo (get_head demo (HPrio 1)) = Ok (a', s') /\
    (s' = demo /\ a' ++ r' = [1; 2]) /\ (false = true \/ r' = []).
Proof.
  apply (walk_visits_all (HPrio 1) (fun a s t => Ok (a ++ [t], s)) (fun _ => false)
    (fun r a s => s = demo /\ a ++ r = [1; 2]) [1; 2] [] demo 3).
  - intros k x r a s [-> Ha] Hq _. exists (a ++ [x]), demo, (k ++ [x]).
    rewrite <- !app_assoc. split; [reflexivity|]. split; [split; [reflexivity|exact Ha]|exact Hq].
  - split; reflexivity.
  - split; [vm_compute; reflexivity|right].
    split; [apply (bool_decide_unpack _); vm_compute; exact I|repeat split].
  - cbn. lia.
Defined.
