(* ===== verification/Timer.v ===== *)
(** * Time: ticks, timeouts and the timer interrupt

    [src/cheriot-rtos/sdk/core/scheduler/timer.h] and [tick-conversion.h], the
    class [Timeout] of [include/timeout.h], and the timer device of
    [include/platform/generic-riscv/platform-timer.hh] they drive.  The two
    frequencies of the platform are [hz] ([PLATFORM_TIMER_HZ]) and [rate]
    ([TICK_RATE_HZ]); [libdivide]'s dividers divide.  The device is its 64-bit
    comparison register [cmp], and the current time is an argument. *)

From S2P Require Import Prelude LinkedList Thread ThreadQueues ThreadInv ThreadOps Scheduler.

(** ** [struct Timeout] *)

Definition UnlimitedTimeout : Z := 2 ^ 32 - 1.

Record Timeout : Type := mkTimeout { elapsed : Z; remaining : Z }.

Definition elapse (t : Timeout) (time : Z) : Timeout :=
  mkTimeout
    (if 2 ^ 32 <=? time + elapsed t then UnlimitedTimeout else u32 (time + elapsed t))
    (if remaining t =? UnlimitedTimeout then remaining t
     else if remaining t <? time then 0 else u32 (remaining t - time)).

Definition may_block (t : Timeout) : bool := 0 <? remaining t.

(** ** [StandardClint]: the comparison register *)

Definition setnext (nextTime : Z) : Z := u64 nextTime.
Definition clear (cmp : Z) : Z := Z.lor (Z.shiftl (2 ^ 32 - 1) 32) (u32 cmp).

(** [time]: the high word is read again until it is stable; [m i] is the counter at
    the [i]-th access. *)
Fixpoint time (fuel i : nat) (m : nat -> Z) : outcome Z :=
  match fuel with
  | O => Err EFuel
  | S fuel =>
      let timeHigh := Z.shiftr (m i) 32 in
      let timeLow := u32 (m (i + 1)%nat) in
      if timeHigh =? Z.shiftr (m (i + 2)%nat) 32
      then Ok (Z.lor (Z.shiftl timeHigh 32) timeLow)
      else time fuel (i + 3)%nat m
  end.

(** ** Ticks and cycles *)

Section Timer.
Context (hz rate : Z) (debug : bool).

Definition TIMERCYCLES_PER_TICK : Z := hz / rate + b2z (truth (hz mod rate)).

Definition timer_cycles_for_ticks (ticks : Z) : Z :=
  if hz mod rate =? 0 then u64 (ticks * TIMERCYCLES_PER_TICK)
  else
    let cycles := u64 (ticks * hz) in
    u64 (u64 (cycles + rate) - 1) / rate.

Definition timer_ticks_for_cycles (cycles : Z) : Z :=
  if hz mod rate =? 0 then cycles / TIMERCYCLES_PER_TICK
  else
    let seconds := cycles / hz in
    let remainder := u64 (cycles - u64 (seconds * hz)) in
    u64 (u64 (seconds * rate) + u64 (remainder * rate) / hz).

Definition expiry_time_for_timeout (now timeout : Z) : Z :=
  if timeout =? 2 ^ 32 - 1 then 2 ^ 64 - 1
  else u64 (now + timer_cycles_for_ticks timeout).

(** ** The timer interrupt *)

(** [update]: the new value of the comparison register. *)
Definition update (s : sched) (now cmp : Z) : outcome Z :=
  waitingListIsEmpty ← (match waitingList s with
    | None => Ok true
    | Some w => th ← get s w; Ok (expiryTime th =? 2 ^ 64 - 1)
    end);
  threadHasNoPeers ← (match current s with
    | None => Ok true
    | Some c => p ← has_priority_peers debug s c; Ok (negb p)
    end);
  if (waitingListIsEmpty : bool) && (threadHasNoPeers : bool) then Ok (clear cmp)
  else
    let nextTick := if threadHasNoPeers : bool then 2 ^ 64 - 1
                    else u64 (now + TIMERCYCLES_PER_TICK) in
    nextTimer ← (if waitingListIsEmpty : bool then Ok (2 ^ 64 - 1)
                 else w ← deref (waitingList s); th ← get s w; Ok (expiryTime th));
    Ok (setnext (Z.min nextTick nextTimer)).

Definition ensure_tick (s : sched) (cmp : Z) : outcome Z :=
  _ ← dassert debug (negb (bool_decide (current s = None)));
  c ← deref (current s);
  th ← get s c;
  let tickTime := u64 (expiryTime th + TIMERCYCLES_PER_TICK) in
  Ok (if tickTime <? cmp then setnext tickTime else cmp).

(** The loop of [expiretimers] over the list of suspended threads. *)
Fixpoint expire_loop (fuel : nat) (s : sched) (now iter : Z) : outcome sched :=
  match fuel with
  | O => Err EFuel
  | S fuel =>
      it ← get s iter;
      if expiryTime it <=? now then
        let iterNext := timerNext it in
        s ← ready debug s iter WakeTimer;
        if bool_decide (waitingList s = None) || bool_decide (iterNext = waitingList s)
        then Ok s
        else n ← deref iterNext; expire_loop fuel s now n
      else Ok s
  end.

Definition expiretimers (s : sched) (now zeroTickTime : Z) : outcome sched :=
  let s := with_ticks (timer_ticks_for_cycles (u64 (now - zeroTickTime))) s in
  match waitingList s with
  | None => Ok s
  | Some w =>
      s ← expire_loop (S (size (threads s))) s now w;
      if any_ready s then Ok s
      else
        match waitingList s with
        | None => Ok s
        | Some head =>
            hd ← get s head;
            if isYielding hd then ready debug s head WakeTimer else Ok s
        end
  end.

End Timer.

(** ** Arithmetic *)

(** [Timeout::elapse] saturates. *)
Lemma elapse_spec t time :
  elapsed t in_u 32 -> remaining t in_u 32 -> time in_u 32 ->
  elapsed (elapse t time) = Z.min (elapsed t + time) UnlimitedTimeout /\
  remaining (elapse t time) =
    (if remaining t =? UnlimitedTimeout then UnlimitedTimeout
     else Z.max 0 (remaining t - time)).
Proof.
  intros He Hr Ht. unfold elapse, UnlimitedTimeout in *. cbn [elapsed remaining].
  split.
  - destruct (Z.leb_spec (2 ^ 32) (time + elapsed t)); [lia|].
    unfold u32. rewrite wrap_small; lia.
  - destruct (Z.eqb_spec (remaining t) (2 ^ 32 - 1)); [done|].
    destruct (Z.ltb_spec (remaining t) time); [lia|]. unfold u32. rewrite wrap_small; lia.
Qed.

Section Ticks.
Context (hz rate : Z) (Hrate : 0 < rate <= hz) (Hhz : hz < 2 ^ 32).

Lemma div_ceil a b : 0 < b -> b * ((a + b - 1) / b) - b < a <= b * ((a + b - 1) / b).
Proof.
  intros Hb. pose proof (Z.div_mod (a + b - 1) b ltac:(lia)).
  pose proof (Z.mod_pos_bound (a + b - 1) b ltac:(lia)). lia.
Qed.

(** The cycles of a timeout are the exact quotient, rounded up. *)
Lemma cycles_exact ticks : ticks in_u 32 ->
  timer_cycles_for_ticks hz rate ticks = (ticks * hz + rate - 1) / rate /\
  (ticks * hz + rate - 1) / rate in_u 64.
Proof.
  intros Ht.
  assert (0 <= ticks * hz <= (2 ^ 32 - 1) * (2 ^ 32 - 1)) as Hm by nia.
  assert (0 <= (ticks * hz + rate - 1) / rate <= ticks * hz + rate - 1) as Hq.
  { split; [apply Z.div_pos; lia|apply Z.div_le_upper_bound; nia]. }
  assert ((2 ^ 32 - 1) * (2 ^ 32 - 1) + 2 ^ 32 < 2 ^ 64) by done.
  split; [|lia]. unfold timer_cycles_for_ticks, TIMERCYCLES_PER_TICK, truth, u64.
  destruct (Z.eqb_spec (hz mod rate) 0) as [E|E]; cbn [negb b2z].
  - apply Z.div_exact in E; [|lia]. rewrite Z.add_0_r.
    assert (ticks * (hz / rate) = (ticks * hz + rate - 1) / rate) as Eq.
    { apply Z.div_unique with (r := rate - 1); [lia|]. rewrite E at 1. ring. }
    rewrite Eq. apply wrap_small. lia.
  - rewrite (wrap_small 64 (ticks * hz)) by lia.
    rewrite (wrap_small 64 (ticks * hz + rate)) by lia. rewrite wrap_small by lia. done.
Qed.

(** The ticks of a time are the exact quotient, rounded down, as long as they fit. *)
Lemma ticks_exact cycles : cycles in_u 64 ->
  timer_ticks_for_cycles hz rate cycles = cycles * rate / hz /\ cycles * rate / hz in_u 64.
Proof.
  intros Hc. assert (0 <= cycles * rate / hz <= cycles) as Hq.
  { split; [apply Z.div_pos; nia|apply Z.div_le_upper_bound; nia]. }
  split; [|lia]. unfold timer_ticks_for_cycles, TIMERCYCLES_PER_TICK, truth, u64.
  destruct (Z.eqb_spec (hz mod rate) 0) as [E|E]; cbn [negb b2z].
  - apply Z.div_exact in E; [|lia]. rewrite Z.add_0_r. rewrite E at 2.
    assert (0 < hz / rate) by (apply Z.div_str_pos; lia).
    rewrite (Z.mul_comm rate), Z.div_mul_cancel_r; lia.
  - pose proof (Z.div_mod cycles hz ltac:(lia)).
    pose proof (Z.mod_pos_bound cycles hz ltac:(lia)).
    set (sec := cycles / hz) in *. set (r := cycles mod hz) in *.
    assert (0 <= sec) by (apply Z.div_pos; lia).
    rewrite (wrap_small 64 (sec * hz)) by nia.
    replace (cycles - sec * hz) with r by lia. rewrite (wrap_small 64 r) by lia.
    assert (0 <= r * rate < 2 ^ 32 * 2 ^ 32) by nia.
    rewrite (wrap_small 64 (r * rate)) by lia.
    assert (cycles * rate / hz = sec * rate + r * rate / hz) as Eq.
    { replace (cycles * rate) with (r * rate + sec * rate * hz) by lia.
      rewrite Z.div_add by lia. lia. }
    assert (0 <= r * rate / hz) by (apply Z.div_pos; lia).
    rewrite Eq. assert (0 <= sec * rate) by nia.
    rewrite (wrap_small 64 (sec * rate)) by lia. rewrite wrap_small; lia.
Qed.

Lemma ticks_round_trip ticks : 0 <= ticks ->
  (ticks * hz + rate - 1) / rate * rate / hz = ticks.
Proof.
  intros Ht. pose proof (div_ceil (ticks * hz) rate ltac:(lia)).
  set (c := (ticks * hz + rate - 1) / rate) in *.
  symmetry. apply Z.div_unique with (r := c * rate - ticks * hz); [nia|lia].
Qed.
End Ticks.

(** ** The timer interrupt and the list of suspended threads *)

Section Expiry.
Context (NPrios : Z) (HNP : NPrios <= 32) (hz rate : Z) (debug : bool).

Lemma waiting_first s a w r :
  wf NPrios s a -> a HWaiting = w :: r ->
  exists tw, threads s !! w = Some tw /\ state tw = Suspended /\ waitingList s = Some w /\
    timerNext tw = head (r ++ [w]) /\ NoDup (w :: r).
Proof.
  intros [Hq Hf Hm] Ea. destruct (Hq HWaiting) as [Hh [Hr|Hr]]; rewrite Ea in *; [done|].
  assert (w ∈ a HWaiting) as Hw by (rewrite Ea; left).
  apply (f_members _ _ _ Hf) in Hw as (tw & Et & Hst). exists tw.
  destruct (ring_next _ _ _ Hr) as (n & En & Hn & _).
  destruct (cell_next_get timer_links _ _ _ Hn) as (tw' & Et' & Enx).
  assert (tw' = tw) as -> by congruence. cbn in Enx.
  splits; [done|done|exact Hh|congruence|exact (ring_NoDup _ _ Hr)].
Qed.

Lemma any_ready_iff s a : wf NPrios s a ->
  any_ready s = true <-> exists t th, threads s !! t = Some th /\ state th = Ready.
Proof.
  intros [Hq Hf [Hb _]%map_ok_iff]. unfold any_ready. rewrite negb_true_iff, Z.eqb_neq.
  split.
  - intros Hn. pose proof (Z.bit_log2 (priorityMap s)) as Ht. destruct Hb as [Hr Hb].
    assert (Z.log2 (priorityMap s) < 32) by (apply Z.log2_lt_pow2; lia).
    pose proof (Z.log2_nonneg (priorityMap s)). rewrite Hb in Ht by lia.
    destruct (a (HPrio (Z.log2 (priorityMap s)))) as [|t l] eqn:Ea;
      [by rewrite bool_decide_eq_false_2 in Ht by tauto; specialize (Ht ltac:(lia))|].
    assert (t ∈ a (HPrio (Z.log2 (priorityMap s)))) as Hin by (rewrite Ea; left).
    apply (f_members _ _ _ Hf) in Hin as (th & Et & Hst & _). eauto.
  - intros (t & th & Et & Hst) E.
    pose proof (priority_range NPrios HNP _ _ _ _ Hf Et) as Hpr.
    assert (t ∈ a (HPrio (priority th))) as Hin by (apply (f_members _ _ _ Hf); by exists th).
    destruct Hb as [_ Hb]. specialize (Hb _ Hpr). rewrite E, Z.bits_0 in Hb. symmetry in Hb.
    apply bool_decide_eq_false in Hb. apply Hb. intros E'. rewrite E' in Hin.
    by apply not_elem_of_nil in Hin.
Qed.

(** The loop wakes the first thread, if it expired, and stops there: the head of the
    list is then the next thread, which is how the loop detects its end. *)
Lemma expire_loop_once s a w r tw now fuel :
  wf NPrios s a -> a HWaiting = w :: r -> threads s !! w = Some tw ->
  exists s' a', expire_loop debug (S fuel) s now w = Ok s' /\ wf NPrios s' a' /\
    (if expiryTime tw <=? now then ready debug s w WakeTimer = Ok s' /\
       (forall h, a' h = rem w (a h) ++ (if decide (h = HPrio (priority tw)) then [w] else [])) /\
       core <$> threads s' = core <$> <[w := readied WakeTimer tw]> (threads s) /\
       others s' = others s
     else s' = s /\ a' = a).
Proof.
  intros Hwf Ea Et. destruct (waiting_first s a w r Hwf Ea) as (tw' & Et' & Hst & Hw & Hnx & Hnd).
  assert (tw' = tw) as -> by congruence. cbn [expire_loop]. run (get_ok _ _ _ Et).
  destruct (expiryTime tw <=? now); [|exists s, a; by splits].
  destruct (ready_steps NPrios HNP debug s a w tw WakeTimer Hwf Et Hst)
    as (s' & a' & E & (Hw' & _ & Hc & Ho) & Ha').
  cbv zeta. run E. exists s', a'. splits; [|done..].
  destruct (wf_queues _ _ _ Hw' HWaiting) as [Hh _]. cbn [get_head] in Hh.
  rewrite Ha', Ea, decide_False, app_nil_r in Hh by done.
  change (rem w (w :: r)) with (rem w ([] ++ w :: r)) in Hh. rewrite rem_split in Hh by done.
  cbn [app] in Hh. rewrite Hh, Hnx. destruct r as [|n r]; [done|].
  cbn [head app]. rewrite (bool_decide_eq_true_2 (Some n = Some n)) by done.
  by rewrite orb_true_r.
Qed.

Lemma wf_ticks s a v : wf NPrios s a -> wf NPrios (with_ticks v s) a.
Proof. intros [Hq Hf Hm]. split; [|done|done]. intros h. destruct (Hq h). split; [by destruct h|done]. Qed.

(** [expiretimers] on every branch. *)
Lemma expiretimers_steps s a now zero :
  wf NPrios s a ->
  let s0 := with_ticks (timer_ticks_for_cycles hz rate (u64 (now - zero))) s in
  match a HWaiting with
  | [] => expiretimers hz rate debug s now zero = Ok s0
  | w :: _ => exists tw, threads s !! w = Some tw /\ state tw = Suspended /\
      if (expiryTime tw <=? now) || (negb (any_ready s) && isYielding tw)
      then exists s' a', expiretimers hz rate debug s now zero = Ok s' /\
        ready debug s0 w WakeTimer = Ok s' /\ wf NPrios s' a' /\
        (forall h, a' h = rem w (a h) ++ (if decide (h = HPrio (priority tw)) then [w] else [])) /\
        core <$> threads s' = core <$> <[w := readied WakeTimer tw]> (threads s) /\
        current s' = current s
      else expiretimers hz rate debug s now zero = Ok s0
  end.
Proof.
  intros Hwf s0. assert (Hwf0 : wf NPrios s0 a) by (by apply wf_ticks).
  destruct (a HWaiting) as [|w r] eqn:Ea.
  { destruct (wf_queues _ _ _ Hwf HWaiting) as [Hh _]. rewrite Ea in Hh. cbn in Hh.
    unfold expiretimers. cbn [waitingList with_ticks]. by rewrite Hh. }
  destruct (waiting_first s a w r Hwf Ea) as (tw & Et & Hst & Hw & Hnx & Hnd).
  exists tw. split; [done|]. split; [done|].
  destruct (expire_loop_once s0 a w r tw now (size (threads s)) Hwf0 Ea Et)
    as (s1 & a1 & E1 & Hwf1 & H1).
  unfold expiretimers. cbv zeta. fold s0. cbn [waitingList with_ticks s0]. rewrite Hw.
  fold s0. change (threads s0) with (threads s). run E1.
  destruct (expiryTime tw <=? now) eqn:Ex; cbn [orb].
  - destruct H1 as (Er & Ha1 & Hc & Ho). exists s1, a1.
    assert (any_ready s1 = true) as ->.
    { apply (any_ready_iff s1 a1 Hwf1).
      assert (w ∈ a1 (HPrio (priority tw))) as Hin.
      { rewrite Ha1, decide_True by done. set_solver. }
      apply (f_members _ _ _ (wf_fields _ _ _ Hwf1)) in Hin as (th & Eth & Hs & _). eauto. }
    splits; [done|done|done|done|done|by injection Ho].
  - destruct H1 as [-> ->]. change (any_ready s0) with (any_ready s).
    change (waitingList s0) with (waitingList s). rewrite Hw.
    destruct (any_ready s); cbn [negb andb]; [done|].
    run (get_ok s0 w tw Et). destruct (isYielding tw); [|done].
    destruct (ready_steps NPrios HNP debug s0 a w tw WakeTimer Hwf0 Et Hst)
      as (s' & a' & E & (Hw' & _ & Hc & Ho) & Ha').
    exists s', a'. splits; [done..|by injection Ho].
Qed.

(** Timer interrupts at the times [now k], with nothing else between them. *)
Fixpoint interrupts (n : nat) (s : sched) (now : nat -> Z) (zero : Z) : outcome sched :=
  match n with
  | O => Ok s
  | S n => s ← expiretimers hz rate debug s (now n) zero; interrupts n s now zero
  end.

Definition is_ready_in (s : sched) (t : Z) : Prop :=
  exists th, threads s !! t = Some th /\ state th = Ready.

Lemma core_ready s s' w th' t :
  core <$> threads s' = core <$> <[w := th']> (threads s) -> state th' = Ready ->
  (t = w \/ is_ready_in s t) -> is_ready_in s' t.
Proof.
  intros Ec Hr Ht.
  assert (exists th, (<[w := th']> (threads s)) !! t = Some th /\ state th = Ready)
    as (th & Et & Hst).
  { destruct (decide (t = w)) as [->|Hne]; [exists th'; by rewrite lookup_insert_eq|].
    destruct Ht as [|(th & Et & Hst)]; [done|]. exists th. by rewrite lookup_insert_ne. }
  destruct (core_lookup _ _ _ _ Ec Et) as (th2 & Et2 & Ec2).
  exists th2. split; [done|]. apply core_fields in Ec2. destruct_and?. congruence.
Qed.

Lemma interrupts_wake l1 : forall s a l2 now zero t0,
  wf NPrios s a -> a HWaiting = l1 ++ l2 -> (forall k, t0 <= now k) ->
  (forall x tx, x ∈ l1 -> threads s !! x = Some tx -> expiryTime tx <= t0) ->
  exists s' a', interrupts (length l1) s now zero = Ok s' /\ wf NPrios s' a' /\
    a' HWaiting = l2 /\ (forall x, x ∈ l1 \/ is_ready_in s x -> is_ready_in s' x).
Proof.
  induction l1 as [|w l1 IH]; intros s a l2 now zero t0 Hwf Ea Hnow Hex.
  - exists s, a. splits; [done|done|done|]. intros x [Hx|Hx]; [by apply not_elem_of_nil in Hx|done].
  - pose proof (expiretimers_steps s a (now (length l1)) zero Hwf) as Hs. cbv zeta in Hs.
    rewrite Ea in Hs. cbn [app] in Hs. destruct Hs as (tw & Et & Hst & Hs).
    rewrite (proj2 (Z.leb_le (expiryTime tw) (now (length l1)))) in Hs.
    2: { specialize (Hex w tw ltac:(left) Et). specialize (Hnow (length l1)). lia. }
    cbn [orb] in Hs. destruct Hs as (s1 & a1 & E1 & _ & Hwf1 & Ha1 & Hc1 & _).
    assert (NoDup (w :: l1 ++ l2)) as Hnd.
    { change (NoDup ((w :: l1) ++ l2)). rewrite <- Ea. exact (queue_NoDup _ _ _ (wf_queues _ _ _ Hwf HWaiting)). }
    assert (Ea1 : a1 HWaiting = l1 ++ l2).
    { rewrite Ha1, Ea, decide_False, app_nil_r by done.
      change (rem w ((w :: l1) ++ l2)) with (rem w ([] ++ w :: (l1 ++ l2))).
      by rewrite rem_split. }
    apply NoDup_cons in Hnd as [Hw _].
    destruct (IH s1 a1 l2 now zero t0 Hwf1 Ea1 Hnow) as (s' & a' & E' & Hw' & Ea' & Hr).
    { intros x tx Hx Ex.
      destruct (core_lookup _ _ _ _ (eq_sym Hc1) Ex) as (tx' & Ex' & Ecx).
      rewrite lookup_insert_ne in Ex' by (intros <-; set_solver).
      apply core_fields in Ecx as (_ & <- & _). apply (Hex x); [by right|done]. }
    exists s', a'. cbn [interrupts length]. run E1. splits; [done|done|done|].
    intros x Hx. apply Hr. assert (x ∈ l1 \/ (x = w \/ is_ready_in s x)) as [?|Hx'].
    { rewrite elem_of_cons in Hx. tauto. }
    + by left.
    + right. eapply core_ready; [exact Hc1| |exact Hx'].
      unfold readied. by destruct (_ || _).
Qed.
End Expiry.

(** ** Choosing the time of the next interrupt *)

Section Update.
Context (NPrios : Z) (HNP : NPrios <= 32) (hz rate : Z) (debug : bool).

Lemma earliest s a w r tw x tx :
  wf NPrios s a -> a HWaiting = w :: r -> threads s !! w = Some tw ->
  threads s !! x = Some tx -> state tx = Suspended -> expiryTime tw <= expiryTime tx.
Proof.
  intros [_ Hf _] Ea Ew Ex Hst. pose proof (f_ordered _ _ _ Hf HWaiting) as Hs.
  assert (x ∈ a HWaiting) as Hx by (apply (f_members _ _ _ Hf); by exists tx).
  rewrite Ea in Hs, Hx. apply StronglySorted_inv in Hs as [_ Hs].
  apply elem_of_cons in Hx as [->|Hx]; [assert (tx = tw) as -> by congruence; lia|].
  eapply Forall_forall in Hs; [|done]. specialize (Hs _ _ Ew Ex). cbn in Hs.
  unfold expires_before in Hs. by zbool.
Qed.

Lemma peers_spec s a c tc :
  wf NPrios s a -> threads s !! c = Some tc -> state tc = Ready ->
  exists b, has_priority_peers debug s c = Ok b /\
    (b = true <-> exists t, t <> c /\ t ∈ a (HPrio (priority tc))).
Proof.
  intros [Hq Hf _] Et Hst.
  assert (c ∈ a (HPrio (priority tc))) as Hc by (apply (f_members _ _ _ Hf); by exists tc).
  apply list_elem_of_split in Hc as (l1 & l2 & El). pose proof (Hq (HPrio (priority tc))) as Hqc.
  rewrite El in *. destruct Hqc as [_ [Hr|Hr]]; [by apply app_nil in Hr as [_ ?]|].
  pose proof (ring_rotate _ _ _ Hr) as Hr'. cbn [app] in Hr'.
  destruct (ring_next _ _ _ Hr') as (n & En & Hn & _).
  destruct (cell_next_get run_links _ _ _ Hn) as (tc' & Et' & Enx).
  assert (tc' = tc) as -> by congruence. cbn in Enx.
  apply ring_NoDup, NoDup_cons in Hr' as [Hnin _].
  unfold has_priority_peers. run (get_ok _ _ _ Et). run (dassert_holds debug _ Hst).
  eexists; split; [done|]. rewrite Enx, negb_true_iff, bool_decide_eq_false.
  destruct (l2 ++ l1) as [|y l] eqn:E21; cbn in En; injection En as <-.
  - apply app_nil in E21 as [-> ->]. split; [tauto|]. intros (t & Ht & Hin). set_solver.
  - split; [intros _|intros _ [= ->]; set_solver]. exists y. split; [intros ->; set_solver|].
    assert (y ∈ l2 ++ l1) as Hy by (rewrite E21; left). set_solver.
Qed.

Lemma clear_distant cmp : 0 <= cmp -> (2 ^ 32 - 1) * 2 ^ 32 <= clear cmp.
Proof.
  intros Hc. unfold clear, u32. rewrite Z.shiftl_mul_pow2 by lia.
  rewrite Z.lor_comm. pose proof (wrap_bound 32 cmp ltac:(lia)).
  pose proof (Z.add_lor_land (wrap 32 cmp) ((2 ^ 32 - 1) * 2 ^ 32)) as Hal.
  assert (Z.land (wrap 32 cmp) ((2 ^ 32 - 1) * 2 ^ 32) = 0) as E.
  { apply bits_eq. intros i Hi. rewrite Z.land_spec, Z.bits_0, wrap_testbit by lia.
    rewrite <- Z.shiftl_mul_pow2, Z.shiftl_spec by lia.
    destruct (Z.ltb_spec i 32); [|by rewrite andb_false_r].
    rewrite (Z.testbit_neg_r _ (i - 32)) by lia. by rewrite andb_false_r. }
  lia.
Qed.

Definition has_peers (s : sched) (a : href -> list Z) : Prop :=
  exists c tc t, current s = Some c /\ threads s !! c = Some tc /\ t <> c /\
    t ∈ a (HPrio (priority tc)).

Lemma update_steps s a now cmp :
  wf NPrios s a -> (forall c, current s = Some c -> is_ready_in s c) -> 0 <= cmp ->
  (forall x tx, threads s !! x = Some tx -> expiryTime tx in_u 64) ->
  exists cmp', update hz rate debug s now cmp = Ok cmp' /\
    (forall x tx, threads s !! x = Some tx -> state tx = Suspended ->
       expiryTime tx < 2 ^ 64 - 1 -> cmp' <= expiryTime tx) /\
    (has_peers s a -> cmp' <= u64 (now + TIMERCYCLES_PER_TICK hz rate)) /\
    ((forall x tx, threads s !! x = Some tx -> state tx = Suspended ->
        expiryTime tx = 2 ^ 64 - 1) -> ~ has_peers s a -> (2 ^ 32 - 1) * 2 ^ 32 <= cmp').
Proof.
  intros Hwf Hcur Hcmp Hexp.
  assert (exists e, (match waitingList s with
    | None => Ok true
    | Some w => th ← get s w; Ok (expiryTime th =? 2 ^ 64 - 1)
    end) = Ok (e =? 2 ^ 64 - 1) /\
    (if e =? 2 ^ 64 - 1 then Ok (2 ^ 64 - 1)
     else w ← deref (waitingList s); th ← get s w; Ok (expiryTime th)) = Ok e /\
    e in_u 64 /\ (forall x tx, threads s !! x = Some tx -> state tx = Suspended ->
       e <= expiryTime tx) /\
    (e < 2 ^ 64 - 1 -> exists x tx, threads s !! x = Some tx /\ state tx = Suspended /\
       expiryTime tx = e))
    as (e & E1 & E3 & Her & Hmin & Hex).
  { destruct (a HWaiting) as [|w r] eqn:Ea.
    - destruct (wf_queues _ _ _ Hwf HWaiting) as [Hh _]. rewrite Ea in Hh. cbn in Hh.
      exists (2 ^ 64 - 1). rewrite Hh. splits; [done..|lia|lia| |lia].
      intros x tx Ex Hst. exfalso.
      assert (x ∈ a HWaiting) as Hx.
      { apply (f_members _ _ _ (wf_fields _ _ _ Hwf)). by exists tx. }
      rewrite Ea in Hx. by apply not_elem_of_nil in Hx.
    - destruct (waiting_first NPrios s a w r Hwf Ea) as (tw & Et & Hst & Hw & _).
      exists (expiryTime tw). rewrite Hw. cbn [deref]. rewrite !ok_bind, (get_ok _ _ _ Et), !ok_bind.
      split; [done|]. split; [destruct (Z.eqb_spec (expiryTime tw) (2 ^ 64 - 1)); congruence|].
      split; [by eapply Hexp|]. split; [intros x tx Ex Hs; by eapply earliest|].
      intros _. by exists w, tw. }
  assert (exists b, (match current s with
    | None => Ok true
    | Some c => p ← has_priority_peers debug s c; Ok (negb p)
    end) = Ok (negb b) /\ (b = true <-> has_peers s a)) as (b & E2 & Hb).
  { destruct (current s) as [c|] eqn:Ec.
    - destruct (Hcur c eq_refl) as (tc & Et & Hst).
      destruct (peers_spec s a c tc Hwf Et Hst) as (b & E & Hb). exists b. rewrite E.
      split; [done|]. rewrite Hb. split.
      + intros (t & ? & ?). by exists c, tc, t.
      + intros (c' & tc' & t & Ec' & Et' & ? & ?). simplify_eq. eauto.
    - exists false. split; [done|]. split; [done|]. intros (c & tc & t & ? & _). congruence. }
  unfold update. run E1. run E2. destruct (Z.eqb_spec e (2 ^ 64 - 1)) as [Ee|Ee].
  - destruct b; cbn [andb negb].
    + rewrite ok_bind. eexists; split; [done|]. unfold setnext, u64.
      rewrite Z.min_l by (pose proof (wrap_bound 64 (now + TIMERCYCLES_PER_TICK hz rate)); lia).
      rewrite wrap_wrap by lia. splits; [|lia|naive_solver].
      intros x tx Ex Hs Hlt. specialize (Hmin _ _ Ex Hs). lia.
    + eexists; split; [done|]. splits; [|naive_solver|intros; by apply clear_distant].
      intros x tx Ex Hs Hlt. specialize (Hmin _ _ Ex Hs). lia.
  - cbn [andb]. rewrite E3, ok_bind. eexists; split; [done|]. unfold setnext, u64.
    pose proof (wrap_bound 64 (now + TIMERCYCLES_PER_TICK hz rate)) as Hwb.
    rewrite wrap_small by (destruct b; cbn [negb]; lia).
    destruct (Hex ltac:(lia)) as (x0 & tx0 & Ex0 & Hs0 & E0). splits.
    + intros x tx Ex Hs Hlt. specialize (Hmin _ _ Ex Hs). lia.
    + intros Hp. rewrite (proj2 Hb Hp). cbn [negb]. lia.
    + intros Hall. specialize (Hall _ _ Ex0 Hs0). congruence.
Qed.
End Update.

(** ** Reading the clock *)

Section Clock.
Context (m : nat -> Z) (m64 : forall i, m i in_u 64).
Context (mono : forall i j, (i <= j)%nat -> m i <= m j).

Lemma words v : v in_u 64 -> Z.lor (Z.shiftl (Z.shiftr v 32) 32) (u32 v) = v.
Proof.
  intros Hv. apply bits_eq. intros i Hi. unfold u32.
  rewrite Z.lor_spec, wrap_testbit, Z.shiftl_spec by lia.
  destruct (Z.ltb_spec i 32).
  - by rewrite Z.testbit_neg_r, andb_true_r by lia.
  - rewrite Z.shiftr_spec, andb_false_r, orb_false_r by lia. f_equal. lia.
Qed.

Lemma high_mono i j : (i <= j)%nat -> Z.shiftr (m i) 32 <= Z.shiftr (m j) 32.
Proof.
  intros Hij. rewrite !Z.shiftr_div_pow2 by lia. apply Z.div_le_mono; [lia|]. by apply mono.
Qed.

Lemma time_reads fuel : forall i v, time fuel i m = Ok v -> exists j, (i <= j)%nat /\ v = m j.
Proof.
  induction fuel as [|fuel IH]; intros i v Hv; [done|]. cbn [time] in Hv.
  destruct (Z.eqb_spec (Z.shiftr (m i) 32) (Z.shiftr (m (i + 2)%nat) 32)) as [E|E].
  - injection Hv as <-. exists (i + 1)%nat. split; [lia|].
    pose proof (high_mono i (i + 1) ltac:(lia)). pose proof (high_mono (i + 1) (i + 2) ltac:(lia)).
    replace (Z.shiftr (m i) 32) with (Z.shiftr (m (i + 1)%nat) 32) by lia. by apply words.
  - destruct (IH _ _ Hv) as (j & Hj & ->). exists j. split; [lia|done].
Qed.

Lemma time_ends i : m (i + 5)%nat - m i < 2 ^ 32 -> exists v, time 2 i m = Ok v.
Proof.
  intros Hd. cbn [time].
  destruct (Z.eqb_spec (Z.shiftr (m i) 32) (Z.shiftr (m (i + 2)%nat) 32)) as [E|E]; [by eexists|].
  replace (i + 3 + 2)%nat with (i + 5)%nat by lia.
  destruct (Z.eqb_spec (Z.shiftr (m (i + 3)%nat) 32) (Z.shiftr (m (i + 5)%nat) 32)); [by eexists|].
  exfalso. pose proof (high_mono i (i + 2) ltac:(lia)).
  pose proof (high_mono (i + 2) (i + 3) ltac:(lia)).
  pose proof (high_mono (i + 3) (i + 5) ltac:(lia)).
  assert (Z.shiftr (m (i + 5)%nat) 32 <= Z.shiftr (m i) 32 + 1); [|lia].
  rewrite !Z.shiftr_div_pow2 by lia. rewrite <- (Z.div_add _ 1) by lia.
  apply Z.div_le_mono; [lia|]. lia.
Qed.
End Clock.

(** ** What the timer promises *)

(** C33.  Ticks survive the conversion to cycles and back, for every 32-bit number of
    ticks and every pair of platform frequencies the build accepts; a timeout is
    rounded up to the next cycle, an elapsed time down to the last whole tick, and
    neither computation overflows. *)
Theorem ticks_cycles_round_trip hz rate ticks cycles :
  0 < rate <= hz -> hz < 2 ^ 32 -> ticks in_u 32 -> cycles in_u 64 ->
  timer_ticks_for_cycles hz rate (timer_cycles_for_ticks hz rate ticks) = ticks /\
  timer_cycles_for_ticks hz rate ticks = (ticks * hz + rate - 1) / rate /\
  timer_ticks_for_cycles hz rate cycles = cycles * rate / hz.
Proof.
  intros Hr Hh Ht Hc. destruct (cycles_exact hz rate Hr Hh ticks Ht) as [E1 B1].
  splits; [|done|by apply ticks_exact].
  rewrite E1. destruct (ticks_exact hz rate Hr Hh _ B1) as [-> _].
  apply ticks_round_trip; [done|lia].
Qed.

Lemma ticks_cycles_round_trip_witness :
  timer_ticks_for_cycles 20000000 300 (timer_cycles_for_ticks 20000000 300 77) = 77 /\
  timer_cycles_for_ticks 20000000 300 77 = (77 * 20000000 + 300 - 1) / 300 /\
  timer_ticks_for_cycles 20000000 300 123456789 = 123456789 * 300 / 20000000.
Proof. apply (ticks_cycles_round_trip 20000000 300 77 123456789); lia. Defined.

(** [Timeout::elapse] adds to the elapsed time and takes from the remaining time
    with saturation, and an unlimited timeout stays unlimited. *)
Theorem elapse_saturates t time :
  elapsed t in_u 32 -> remaining t in_u 32 -> time in_u 32 ->
  elapsed (elapse t time) = Z.min (elapsed t + time) UnlimitedTimeout /\
  remaining (elapse t time) =
    (if remaining t =? UnlimitedTimeout then UnlimitedTimeout
     else Z.max 0 (remaining t - time)).
Proof. apply elapse_spec. Qed.

Lemma elapse_saturates_witness :
  elapsed (elapse (mkTimeout 5 3) 7) = Z.min (5 + 7) UnlimitedTimeout /\
  remaining (elapse (mkTimeout 5 3) 7) =
    (if 3 =? UnlimitedTimeout then UnlimitedTimeout else Z.max 0 (3 - 7)).
Proof. apply (elapse_saturates (mkTimeout 5 3) 7); cbn; lia. Defined.

(** [expiretimers] looks at the first thread of the list of suspended threads
    only: it wakes that thread if it expired, or if no thread is ready and it is
    yielding, and otherwise changes nothing but the tick counter. *)
Theorem expiretimers_wakes_first NPrios hz rate debug s a now zero :
  NPrios <= 32 -> wf NPrios s a ->
  let s0 := with_ticks (timer_ticks_for_cycles hz rate (u64 (now - zero))) s in
  match a HWaiting with
  | [] => expiretimers hz rate debug s now zero = Ok s0
  | w :: _ => exists tw, threads s !! w = Some tw /\ state tw = Suspended /\
      if (expiryTime tw <=? now) || (negb (any_ready s) && isYielding tw)
      then exists s' a', expiretimers hz rate debug s now zero = Ok s' /\
        ready debug s0 w WakeTimer = Ok s' /\ wf NPrios s' a' /\
        (forall h, a' h = rem w (a h) ++ (if decide (h = HPrio (priority tw)) then [w] else [])) /\
        core <$> threads s' = core <$> <[w := readied WakeTimer tw]> (threads s) /\
        current s' = current s
      else expiretimers hz rate debug s now zero = Ok s0
  end.
Proof. intros HNP. by apply expiretimers_steps. Qed.

(** If the first threads [l1] of the list of suspended threads have expired,
    that many timer interrupts, in which nothing else happens, make all of them
    ready. *)
Theorem interrupts_wake_expired NPrios hz rate debug s a l1 l2 now zero t0 :
  NPrios <= 32 -> wf NPrios s a -> a HWaiting = l1 ++ l2 -> (forall k, t0 <= now k) ->
  (forall x tx, x ∈ l1 -> threads s !! x = Some tx -> expiryTime tx <= t0) ->
  exists s' a', interrupts hz rate debug (length l1) s now zero = Ok s' /\ wf NPrios s' a' /\
    a' HWaiting = l2 /\ (forall x, x ∈ l1 -> is_ready_in s' x).
Proof.
  intros HNP Hwf Ea Hnow Hex.
  destruct (interrupts_wake NPrios HNP hz rate debug l1 s a l2 now zero t0 Hwf Ea Hnow Hex)
    as (s' & a' & E & Hw & Ea' & Hr).
  exists s', a'. splits; [done..|]. intros x Hx. apply Hr. by left.
Qed.

(** [update] programs the next timer interrupt: not after the first expiry of a
    suspended thread, not after the end of a tick when the running thread has peers
    of its priority, and in the distant future when there is neither. *)
Theorem update_programs_next NPrios hz rate debug s a now cmp :
  NPrios <= 32 -> wf NPrios s a -> (forall c, current s = Some c -> is_ready_in s c) ->
  0 <= cmp -> (forall x tx, threads s !! x = Some tx -> expiryTime tx in_u 64) ->
  exists cmp', update hz rate debug s now cmp = Ok cmp' /\
    (forall x tx, threads s !! x = Some tx -> state tx = Suspended ->
       expiryTime tx < 2 ^ 64 - 1 -> cmp' <= expiryTime tx) /\
    (has_peers s a -> cmp' <= u64 (now + TIMERCYCLES_PER_TICK hz rate)) /\
    ((forall x tx, threads s !! x = Some tx -> state tx = Suspended ->
        expiryTime tx = 2 ^ 64 - 1) -> ~ has_peers s a -> (2 ^ 32 - 1) * 2 ^ 32 <= cmp').
Proof. intros HNP. by apply update_steps. Qed.

(** [StandardClint::time] returns a value the counter really had during the call,
    although it reads the two words separately, and one retry is enough if the
    counter advances by less than 2^32 during the call. *)
Theorem time_is_consistent (m : nat -> Z) i fuel v :
  (forall i, m i in_u 64) -> (forall i j, (i <= j)%nat -> m i <= m j) ->
  (time fuel i m = Ok v -> exists j, (i <= j)%nat /\ v = m j) /\
  (m (i + 5)%nat - m i < 2 ^ 32 -> exists v, time 2 i m = Ok v).
Proof. intros m64 mono. split; [by apply time_reads|by apply time_ends]. Qed.

Lemma time_is_consistent_witness :
  (time 2 0 (fun i => 2 ^ 32 - 2 + Z.min (Z.of_nat i) 100) = Ok (2 ^ 32 + 2) ->
   exists j, (0 <= j)%nat /\ 2 ^ 32 + 2 = 2 ^ 32 - 2 + Z.min (Z.of_nat j) 100) /\
  (2 ^ 32 - 2 + Z.min (Z.of_nat (0 + 5)) 100 - (2 ^ 32 - 2 + Z.min (Z.of_nat 0) 100) < 2 ^ 32 ->
   exists v, time 2 0 (fun i => 2 ^ 32 - 2 + Z.min (Z.of_nat i) 100) = Ok v).
Proof.
  apply (time_is_consistent (fun i => 2 ^ 32 - 2 + Z.min (Z.of_nat i) 100) 0 2 (2 ^ 32 + 2)).
  - intros i. lia.
  - intros i j Hij. lia.
Defined.

(** *** Witnesses on a concrete scheduler

    Thread 1 sleeps until 10, thread 2 runs, thread 3 waits forever. *)

Definition sleeper_ops : list op := demo_ops ++ [OpSuspend 1 10 None true; OpSchedule 0 6].

Definition sleeper : sched :=
  match run_ops true sleeper_ops no_threads with Ok s => s | Err _ => no_threads end.

Lemma sleeper_wf : exists a, wf 4 sleeper a /\ a HWaiting = [1] ++ [3].
Proof.
  destruct (run_reachable 4 true sleeper_ops no_threads) as (s & E & Hr).
  - apply reach_start; try done. by intros [].
  - vm_compute. repeat split; try discriminate; eauto 10.
  - assert (sleeper = s) as <- by (unfold sleeper; by rewrite E).
    destruct (reachable_inv 4 ltac:(lia) true sleeper Hr) as [[a Hwf] _].
    exists a. split; [done|]. apply (queue_unique HWaiting sleeper); [apply Hwf|].
    split; [vm_compute; reflexivity|right].
    split; [apply (bool_decide_unpack _); vm_compute; exact I|repeat split].
Qed.

Lemma expiretimers_wakes_first_witness :
  exists s', expiretimers 1000 10 true sleeper 12 0 = Ok s' /\ is_ready_in s' 1.
Proof.
  destruct sleeper_wf as (a & Hwf & Ea).
  pose proof (expiretimers_wakes_first 4 1000 10 true sleeper a 12 0 ltac:(lia) Hwf) as H.
  cbv zeta in H. rewrite Ea in H. cbn [app] in H. destruct H as (tw & Et & Hst & H).
  assert (expiryTime tw = 10) as Ex by (vm_compute in Et; injection Et as <-; reflexivity).
  rewrite Ex in H. cbn in H. destruct H as (s' & a' & E & _ & Hw & Ha & _).
  exists s'. split; [exact E|].
  assert (1 ∈ a' (HPrio (priority tw))) as Hin.
  { rewrite Ha, decide_True by reflexivity. apply elem_of_app. right. left. }
  apply (f_members _ _ _ (wf_fields _ _ _ Hw)) in Hin as (th & Eth & Hs & _).
  exists th. split; assumption.
Defined.

Lemma interrupts_wake_expired_witness :
  exists s' a', interrupts 1000 10 true 1 sleeper (fun _ => 12) 0 = Ok s' /\ wf 4 s' a' /\
    a' HWaiting = [3] /\ (forall x, x ∈ [1] -> is_ready_in s' x).
Proof.
  destruct sleeper_wf as (a & Hwf & Ea).
  apply (interrupts_wake_expired 4 1000 10 true sleeper a [1] [3] (fun _ => 12) 0 12);
    [lia|exact Hwf|exact Ea|lia|].
  intros x tx Hx Ex. apply list_elem_of_singleton in Hx as ->.
  vm_compute in Ex. injection Ex as <-. cbn. lia.
Defined.

Lemma update_programs_next_witness :
  exists cmp', update 1000 10 true sleeper 7 0 = Ok cmp' /\ cmp' <= 10.
Proof.
  destruct sleeper_wf as (a & Hwf & Ea).
  destruct (update_programs_next 4 1000 10 true sleeper a 7 0) as (c & E & Hmin & _);
    [lia|exact Hwf| |lia| |].
  - intros c Hc. vm_compute in Hc. injection Hc as <-. vm_compute. eexists. split; reflexivity.
  - intros x tx Ex. apply elem_of_map_to_list in Ex. vm_compute in Ex.
    repeat (apply elem_of_cons in Ex as [[= -> ->]|Ex]; [cbn; lia|]).
    apply not_elem_of_nil in Ex. destruct Ex.
  - exists c. split; [exact E|]. assert (1 ∈ a HWaiting) as Hin by (rewrite Ea; left).
    apply (f_members _ _ _ (wf_fields _ _ _ Hwf)) in Hin as (tx & Ex & Hs).
    assert (expiryTime tx = 10) as Hx by (vm_compute in Ex; injection Ex as <-; reflexivity).
    specialize (Hmin 1 tx Ex Hs). rewrite Hx in Hmin. apply Hmin. lia.
Defined.
