(* ===== verification/Timeouts.v ===== *)
(** * Timeouts of blocking calls

    [include/timeout.h] ([TimeoutArgument]), [lib/compartment_helpers/timeout.cc], and the
    part of [thread.h] that blocks: [suspend] and [yield_timed].  A call that gives up the
    processor is two definitions: what it does before [yield] and what it does after. *)

From S2P Require Import Prelude LinkedList Capability Thread Timer.

(** The tagged union: a tagged value is a pointer to a [Timeout] of the caller, given with what
    it points to; an untagged one is a time of the platform's timer. *)
Inductive TimeoutArgument : Type :=
| AbsoluteTimeout (absoluteTimeout : Z)
| RelativeTimeout (pointer : Capability) (relativeTimeout : Timeout).

Definition TimeoutWaitForever : TimeoutArgument := AbsoluteTimeout (2 ^ 64 - 1).
Definition TimeoutNoWait : TimeoutArgument := AbsoluteTimeout 0.

Definition is_relative (t : TimeoutArgument) : bool :=
  match t with AbsoluteTimeout _ => false | RelativeTimeout _ _ => true end.

Definition timeout_is_valid (heap_start heap_end : Z) (stack : Capability) (t : TimeoutArgument)
    : bool :=
  match t with
  | AbsoluteTimeout _ => true
  | RelativeTimeout p _ => check_timeout_pointer heap_start heap_end stack p
  end.

Definition timeout_has_expired (now : Z) (t : TimeoutArgument) : bool :=
  match t with
  | AbsoluteTimeout a => a <? now
  | RelativeTimeout _ r => remaining r =? 0
  end.

Definition timeout_may_block (now : Z) (t : TimeoutArgument) : bool :=
  negb (timeout_has_expired now t).

Definition timeout_elapse (ticks : Z) (t : TimeoutArgument) : TimeoutArgument :=
  match t with
  | AbsoluteTimeout a => AbsoluteTimeout a
  | RelativeTimeout p r => RelativeTimeout p (elapse r ticks)
  end.

Definition timeout_elapse_from (source : Timeout) (destination : TimeoutArgument)
    : TimeoutArgument := timeout_elapse (elapsed source) destination.

Section Suspend.
Context (debug : bool) (hz rate : Z).

(** The expiry time that [suspend_internal] computes. *)
Definition timeout_expiry (now : Z) (t : TimeoutArgument) : Z :=
  match t with
  | AbsoluteTimeout a => a
  | RelativeTimeout _ r => expiry_time_for_timeout hz rate now (remaining r)
  end.

(** [suspend] until it yields, and whether it does.  The timer is read at most once. *)
Definition suspend_start (s : sched) (t now : Z) (timeout : TimeoutArgument)
    (newSleepQueue : option href) (yieldUnconditionally yieldNotSleep : bool)
    : outcome (bool * sched) :=
  let mayBlock := timeout_may_block now timeout in
  s ← (if mayBlock then
         suspend_internal debug s t (timeout_expiry now timeout) newSleepQueue yieldNotSleep
       else Ok s);
  Ok (yieldUnconditionally || mayBlock, s).

(** [yield_timed], after the thread runs again: the ticks that went by. *)
Definition ticks_elapsed (ticksAtStart ticksNow : Z) : outcome Z :=
  let e := u64 (ticksNow - ticksAtStart) in
  if 2 ^ 32 - 1 <? e then _ ← dassert debug false; Ok (2 ^ 32 - 1) else Ok (u32 e).

(** The rest of [suspend]: the timeout has elapsed by the ticks the thread was away; true if it
    may not block any longer. *)
Definition suspend_finish (ticksAtStart ticksNow now : Z) (yielded : bool)
    (timeout : TimeoutArgument) : outcome (bool * TimeoutArgument) :=
  timeout ← (if yielded then e ← ticks_elapsed ticksAtStart ticksNow; Ok (timeout_elapse e timeout)
             else Ok timeout);
  Ok (negb (timeout_may_block now timeout), timeout).
End Suspend.
