(* ===== verification/MultiWaiter.v ===== *)
(** * Multiwaiters: waiting for several futexes at once

    [core/scheduler/multiwait.h].  A multiwaiter is an object of the heap, known by its
    address; [waiters] is the store of the live ones.  The threads that sleep on a multiwaiter
    are in the sleep queue [HMulti], and the thread's [waitingOn] designates the multiwaiter.
    [mem] is the value of the word at an address.  Unsealing, allocating and destroying the
    object are calls of the token and allocator compartments, whose results are arguments. *)

From S2P Require Import Prelude LinkedList Capability Thread.

(** ** One event *)

Record EventWaiter : Type := mkEvent {
  eventSource : Z;
  eventValue : Z;
  flags : Z;
  readyEvents : Z;
}.

Definition set_ready (value : Z) (e : EventWaiter) : outcome EventWaiter :=
  _ ← dassert true (Z.land value 0xFF000000 =? 0);
  Ok (mkEvent (eventSource e) (eventValue e) (flags e) (wrap 24 (Z.lor (readyEvents e) value))).

Definition has_fired (e : EventWaiter) : bool := negb (readyEvents e =? 0).

(** Reading a word through a capability traps unless the capability allows it. *)
Definition load_word (mem : Z -> Z) (c : Capability) : outcome Z :=
  if decide (can_access c 4 [Load]) then Ok (mem (address c)) else Err ETrap.

Definition reset_event (mem : Z -> Z) (source : Capability) (value : Z)
    : outcome (bool * EventWaiter) :=
  let e := mkEvent (address source) value 0 0 in
  word ← load_word mem source;
  if negb (word =? value) then e ← set_ready 1 e; Ok (true, e) else Ok (false, e).

Definition trigger_event (key : Z) (e : EventWaiter) : outcome (bool * EventWaiter) :=
  if negb (eventSource e =? key) then Ok (false, e) else e ← set_ready 1 e; Ok (true, e).

(** ** The multiwaiter *)

(** [events] has [Length] elements, of which [usedLength] are in use. *)
Record MultiWaiterInternal : Type := mkWaiter {
  Length : Z;
  usedLength : Z;
  events : list EventWaiter;
}.

Definition with_events (u : Z) (l : list EventWaiter) (w : MultiWaiterInternal)
    : MultiWaiterInternal := mkWaiter (Length w) u l.

Definition MaxMultiWaiterSize : Z := 8.

(** An element of the caller's array. *)
Record EventWaiterSource : Type := mkSource { source : Capability; value : Z }.
Definition set_value (v : Z) (x : EventWaiterSource) : EventWaiterSource := mkSource (source x) v.

Definition sizeof_EventWaiterSource : Z := 16.

(** [create], given what [token_sealed_unsealed_alloc] returned: the new object's memory is
    zero. *)
Definition create (length : Z) (allocated : option Z) (ws : gmap Z MultiWaiterInternal)
    : (Z + Z) * gmap Z MultiWaiterInternal :=
  if MaxMultiWaiterSize <? length then (inl (- EINVAL), ws)
  else match allocated with
       | None => (inl (- ENOMEM), ws)
       | Some a =>
           (inr a, <[a := mkWaiter length 0 (replicate (Z.to_nat length) (mkEvent 0 0 0 0))]> ws)
       end.

Inductive EventOperationResult : Type := SetError | SetWake | SetSleep.

(** The loop of [set_events]: [None] when a pointer is refused; the events before it have been
    reset. *)
Fixpoint set_events_loop (stack : Capability) (mem : Z -> Z) (count : nat)
    (newEvents : list EventWaiterSource) (events : list EventWaiter) (eventTriggered : bool)
    : outcome (option bool * list EventWaiter) :=
  match count with
  | O => Ok (Some eventTriggered, events)
  | S count =>
      x ← deref (head newEvents);
      if negb (check_pointer_for stack [Load] true (source x) default_space)
      then Ok (None, events)
      else
        _ ← deref (head events);
        '(fired, e) ← reset_event mem (source x) (value x);
        '(r, rest) ← set_events_loop stack mem count (tail newEvents) (tail events)
                       (eventTriggered || fired);
        Ok (r, e :: rest)
  end.

Definition set_events (stack : Capability) (mem : Z -> Z) (newEvents : list EventWaiterSource)
    (count : Z) (w : MultiWaiterInternal) : outcome (EventOperationResult * MultiWaiterInternal) :=
  '(r, l) ← set_events_loop stack mem (Z.to_nat count) newEvents (events w) false;
  Ok (match r with
      | None => (SetError, with_events (usedLength w) l w)
      | Some true => (SetWake, with_events count l w)
      | Some false => (SetSleep, with_events count l w)
      end).

(** [get_results] writes the events that fired to the caller's array. *)
Fixpoint results_loop (count : nat) (events : list EventWaiter) (newEvents : list EventWaiterSource)
    : outcome (bool * list EventWaiterSource) :=
  match count with
  | O => Ok (false, newEvents)
  | S count =>
      e ← deref (head events);
      x ← deref (head newEvents);
      '(found, rest) ← results_loop count (tail events) (tail newEvents);
      Ok (has_fired e || found, set_value (readyEvents e) x :: rest)
  end.

Section Ops.
Context (debug : bool).

Definition get_results (newEvents : list EventWaiterSource) (count : Z) (w : MultiWaiterInternal)
    : outcome (bool * list EventWaiterSource * MultiWaiterInternal) :=
  _ ← dassert debug (count <=? Length w);
  '(found, l) ← results_loop (Z.to_nat count) (events w) newEvents;
  Ok (found, l, with_events 0 (events w) w).

(** [trigger]: every registered event that matches is set, without stopping at the first. *)
Fixpoint trigger_loop (count : nat) (key : Z) (events : list EventWaiter)
    : outcome (bool * list EventWaiter) :=
  match count with
  | O => Ok (false, events)
  | S count =>
      e ← deref (head events);
      '(b, e) ← trigger_event key e;
      '(shouldWake, rest) ← trigger_loop count key (tail events);
      Ok (b || shouldWake, e :: rest)
  end.

Definition trigger (key : Z) (w : MultiWaiterInternal) : outcome (bool * MultiWaiterInternal) :=
  '(b, l) ← trigger_loop (Z.to_nat (usedLength w)) key (events w);
  Ok (b, with_events (usedLength w) l w).

(** [thread->multiWaiter]. *)
Definition multiWaiter (th : Thread) : option Z :=
  match waitingOn th with WMulti w => w | WFutex _ _ _ => None end.

(** [wake_waiters]: the visitor counts the threads it woke and updates the multiwaiters. *)
Definition wake_waiters_visit (key : Z) (acc : gmap Z MultiWaiterInternal * Z) (s : sched) (t : Z)
    : outcome ((gmap Z MultiWaiterInternal * Z) * sched) :=
  let '(ws, woken) := acc in
  th ← get s t;
  a ← deref (multiWaiter th);
  w ← deref (ws !! a);
  '(b, w) ← trigger key w;
  let ws := <[a := w]> ws in
  if b : bool then s ← ready debug s t WakeMultiWaiter; Ok ((ws, u32 (woken + 1)), s)
  else Ok ((ws, woken), s).

Definition wake_waiters (key maxWakes : Z) (ws : gmap Z MultiWaiterInternal) (s : sched)
    : outcome (gmap Z MultiWaiterInternal * Z * sched) :=
  walk_thread_list (S (size (threads s))) HMulti (wake_waiters_visit key)
    (fun acc => maxWakes <=? snd acc) (ws, 0) s (get_head s HMulti).

(** The destructor wakes whoever waits on the object. *)
Definition destroy_visit (this : Z) (acc : unit) (s : sched) (t : Z) : outcome (unit * sched) :=
  th ← get s t;
  if bool_decide (multiWaiter th = Some this) then
    s ← upd s t (set_waitingOn (WMulti None));
    s ← ready debug s t WakeTimer;
    Ok (tt, s)
  else Ok (tt, s).

Definition destroy (this : Z) (s : sched) : outcome sched :=
  '(_, s) ← walk_thread_list (S (size (threads s))) HMulti (destroy_visit this) (fun _ => false)
              tt s (get_head s HMulti);
  Ok s.
End Ops.
