(* ===== verification/Futex.v ===== *)
(** * The futex calls

    [core/scheduler/main.cc]: [futex_timed_wait] and [futex_wake] with the priority
    inheritance of their waiters.  [kernel] is the scheduler's state with the timer's
    comparison register, the multiwaiters and the interrupt controller's words.  A call that gives up the processor returns
    [Yielded] with what it needs afterwards; [futex_wait_return] is the rest of
    [futex_timed_wait]. *)

From S2P Require Import Prelude LinkedList Capability Thread Timer Timeouts MultiWaiter.

(** [futexWords] are the words of the interrupt controller, [completed] the interrupts whose
    completion was written to the device. *)
Record kernel : Type := mkKernel {
  threads_of : sched;
  timer_cmp : Z;
  waiters : gmap Z MultiWaiterInternal;
  futexWords : list Z;
  completed : list Z;
}.

Definition with_sched (s : sched) (k : kernel) : kernel :=
  mkKernel s (timer_cmp k) (waiters k) (futexWords k) (completed k).
Definition with_cmp (c : Z) (k : kernel) : kernel :=
  mkKernel (threads_of k) c (waiters k) (futexWords k) (completed k).
Definition with_waiters (w : gmap Z MultiWaiterInternal) (k : kernel) : kernel :=
  mkKernel (threads_of k) (timer_cmp k) w (futexWords k) (completed k).
Definition with_words (l : list Z) (k : kernel) : kernel :=
  mkKernel (threads_of k) (timer_cmp k) (waiters k) l (completed k).
Definition with_completed (l : list Z) (k : kernel) : kernel :=
  mkKernel (threads_of k) (timer_cmp k) (waiters k) (futexWords k) l.

(** A call returns, or it has yielded. *)
Inductive entered (F : Type) : Type := Returned (r : Z) | Yielded (f : F).
Arguments Returned {F} r.
Arguments Yielded {F} f.

Definition FutexPriorityInheritance : Z := 1.
Definition FutexBoostNotThread : Z := 2 ^ 16 - 1.

(** Writes of the futex fields of the union of a thread. *)
Definition set_futexWaitAddress (a : Z) (th : Thread) : Thread :=
  set_waitingOn (WFutex a (futexPriorityBoostedThread (waitingOn th))
    (futexPriorityInheriting (waitingOn th))) th.
Definition set_futexPriorityInheriting (b : bool) (th : Thread) : Thread :=
  set_waitingOn (WFutex (futexWaitAddress (waitingOn th))
    (futexPriorityBoostedThread (waitingOn th)) b) th.
Definition set_futexPriorityBoostedThread (i : Z) (th : Thread) : Thread :=
  set_waitingOn (WFutex (futexWaitAddress (waitingOn th)) i
    (futexPriorityInheriting (waitingOn th))) th.

(** ** Priority inheritance *)

Definition walk_waiters {A : Type} (visitor : A -> sched -> Z -> outcome (A * sched))
    (terminate : A -> bool) (a : A) (s : sched) : outcome (A * sched) :=
  walk_thread_list (S (size (threads s))) HFutex visitor terminate a s (get_head s HFutex).

Definition priority_boost_for_thread (s : sched) (threadID prio : Z) : outcome Z :=
  '(prio, _) ← walk_waiters (fun prio s t =>
      th ← get s t;
      Ok (if futexPriorityInheriting (waitingOn th) &&
             (futexPriorityBoostedThread (waitingOn th) =? threadID)
          then Z.max prio (priority th) else prio, s))
    (fun _ => false) prio s;
  Ok prio.

Definition priority_boost_update (s : sched) (key threadID : Z) : outcome sched :=
  '(_, s) ← walk_waiters (fun (_ : unit) s t =>
      th ← get s t;
      if futexPriorityInheriting (waitingOn th) && (futexWaitAddress (waitingOn th) =? key)
      then s ← upd s t (set_futexPriorityBoostedThread threadID); Ok (tt, s)
      else Ok (tt, s))
    (fun _ => false) tt s;
  Ok s.

Definition priority_boost_reset (s : sched) (key threadID : Z) : outcome sched :=
  '(_, s) ← walk_waiters (fun (_ : unit) s t =>
      th ← get s t;
      if futexPriorityInheriting (waitingOn th) && (futexWaitAddress (waitingOn th) =? key)
         && (futexPriorityBoostedThread (waitingOn th) =? threadID)
      then s ← upd s t (set_futexPriorityBoostedThread FutexBoostNotThread); Ok (tt, s)
      else Ok (tt, s))
    (fun _ => false) tt s;
  Ok s.

(** ** Waking *)

Section Futex.
Context (debug : bool) (hz rate : Z).

(** What the visitor of [futex_wake] captures. *)
Record wake_acc : Type := mkWake { left : Z; woke : Z; shouldRecalculate : bool }.

Definition futex_wake_visit (key : Z) (a : wake_acc) (s : sched) (t : Z)
    : outcome (wake_acc * sched) :=
  th ← get s t;
  if futexWaitAddress (waitingOn th) =? key then
    let recalculate := shouldRecalculate a || futexPriorityInheriting (waitingOn th) in
    s ← ready debug s t WakeFutex;
    Ok (mkWake (u32 (left a - 1)) (s32 (woke a + 1)) recalculate, s)
  else Ok (a, s).

(** The internal [futex_wake], which the interrupt handler also calls. *)
Definition wake_futex (k : kernel) (key count : Z) : outcome (bool * Z * kernel) :=
  '(a, s) ← walk_waiters (futex_wake_visit key) (fun a => left a =? 0)
              (mkWake count 0 false) (threads_of k);
  let k := with_sched s k in
  if 0 <? left a then
    '(ws, n, s) ← wake_waiters debug key (left a) (waiters k) (threads_of k);
    Ok (shouldRecalculate a, s32 (woke a + n), with_waiters ws (with_sched s k))
  else Ok (shouldRecalculate a, woke a, k).

Inductive FutexWakeKind : Type := NoYield | YieldLater | YieldNow.

(** Whether the caller of [futex_wake] should give way to a thread it woke. *)
Definition wake_kind (s : sched) (now woken : Z) : outcome FutexWakeKind :=
  if 0 <? woken then
    thread ← deref (current s);
    highest ← is_highest_priority debug s thread;
    if negb highest then Ok YieldNow
    else
      peers ← has_priority_peers debug s thread;
      if peers : bool then
        full ← has_run_for_full_tick debug (TIMERCYCLES_PER_TICK hz rate) s thread now;
        Ok (if full : bool then YieldNow else YieldLater)
      else Ok NoYield
  else Ok NoYield.

(** The entry point: the value to return and how it yields first. *)
Definition futex_wake (stack : Capability) (now : Z) (addr : Capability) (count : Z) (k : kernel)
    : outcome (Z * FutexWakeKind * kernel) :=
  if negb (check_pointer_for stack [] true addr default_space) then Ok (- EINVAL, NoYield, k)
  else
    let key := address addr in
    '(shouldResetPriority, woken, k) ← wake_futex k key count;
    shouldYield ← wake_kind (threads_of k) now woken;
    k ← (if shouldResetPriority : bool then
           c ← deref (current (threads_of k));
           th ← get (threads_of k) c;
           s ← priority_boost_reset (threads_of k) key (threadId th);
           p ← priority_boost_for_thread s (threadId th) 0;
           s ← priority_boost debug s c p;
           Ok (with_sched s k)
         else Ok k);
    k ← (match shouldYield with
         | YieldLater => cmp ← ensure_tick hz rate debug (threads_of k) (timer_cmp k);
                         Ok (with_cmp cmp k)
         | _ => Ok k
         end);
    Ok (woken, shouldYield, k).

(** ** Waiting *)

Context (heap_start heap_end : Z) (CONFIG_THREADS_NUM threadSpaces sizeof_Thread : Z).

(** The threads are constructed in the array [threadSpaces]. *)
Definition get_thread (id : Z) : option Z :=
  if (CONFIG_THREADS_NUM <? id) || (id =? 0) then None
  else Some (threadSpaces + (id - 1) * sizeof_Thread).

(** What [futex_timed_wait] keeps while the thread is away: the owner and its number when the
    futex is priority-inheriting. *)
Record futex_frame : Type := mkFutexFrame {
  ff_thread : Z;
  ff_timeout : TimeoutArgument;
  ff_ticks : Z;
  ff_owner : option (Z * Z);
}.

(** After [suspend]: [addressValid] is the tag of the caller's pointer. *)
Definition futex_wait_return (f : futex_frame) (timedout addressValid : bool) (s : sched)
    : outcome (Z * sched) :=
  s ← upd s (ff_thread f) (set_futexWaitAddress 0);
  s ← (match ff_owner f with
       | Some (owner, id) => p ← priority_boost_for_thread s id 0; priority_boost debug s owner p
       | None => Ok s
       end);
  Ok (if timedout then - ETIMEDOUT else if negb addressValid then - EINVAL else 0, s).

(** The thread runs again. *)
Definition futex_wait_resume (f : futex_frame) (now : Z) (addressValid : bool) (s : sched)
    : outcome (Z * TimeoutArgument * sched) :=
  '(timedout, timeout) ← suspend_finish debug (ff_ticks f) (ticksSinceBoot s) now true (ff_timeout f);
  '(r, s) ← futex_wait_return f timedout addressValid s;
  Ok (r, timeout, s).

(** The boost of the owner by the caller and by those who wait already. *)
Definition futex_boost_owner (s : sched) (current key word : Z) : outcome (option (Z * Z) * sched) :=
  let owningThreadID := u16 word in
  match get_thread owningThreadID with
  | None => Ok (None, s)
  | Some owner =>
      if bool_decide (owner = current) then Ok (None, s)
      else
        s ← priority_boost_update s key owningThreadID;
        th ← get s current;
        p ← priority_boost_for_thread s owningThreadID (priority th);
        s ← priority_boost debug s owner p;
        Ok (Some (owner, owningThreadID), s)
  end.

Definition futex_timed_wait (stack : Capability) (mem : Z -> Z) (now : Z)
    (timeout : TimeoutArgument) (addr : Capability) (expected flags : Z) (s : sched)
    : outcome (entered futex_frame * sched) :=
  if negb (timeout_is_valid heap_start heap_end stack timeout)
     || negb (check_pointer_for stack [Load] true addr default_space)
  then Ok (Returned (- EINVAL), s)
  else
    word ← load_word mem addr;
    if negb (word =? expected) then Ok (Returned 0, s)
    else
      c ← deref (current s);
      let key := address addr in
      let isPriorityInheriting := truth (Z.land flags FutexPriorityInheritance) in
      s ← upd s c (set_futexWaitAddress key);
      s ← upd s c (set_futexPriorityInheriting isPriorityInheriting);
      '(owner, s) ← (if isPriorityInheriting then futex_boost_owner s c key word
                     else Ok (None, s));
      if isPriorityInheriting && bool_decide (owner = None) then Ok (Returned (- EINVAL), s)
      else
        '(yields, s) ← suspend_start debug hz rate s c now timeout (Some HFutex) false false;
        let f := mkFutexFrame c timeout (ticksSinceBoot s) owner in
        if yields : bool then Ok (Yielded f, s)
        else '(r, s) ← futex_wait_return f true (is_valid addr) s; Ok (Returned r, s).
End Futex.
