(* ===== verification/SchedulerEntry.v ===== *)
(** * The entry points of the scheduler

    [core/scheduler/main.cc] without the futex calls ([Futex]): start-up, exceptions and
    interrupts ([interrupt_controller.hh], [interrupt_configuration.hh]), sleeping, and the
    multiwaiter calls.  What the processor, the platform's devices and the token library do is
    an argument: the cause of an exception, the values of the timer, the interrupt claimed, the
    object behind a sealed handle. *)

From S2P Require Import Prelude LinkedList Capability Thread Timer Timeouts MultiWaiter Futex.

(** ** The interrupt controller *)

Record Interrupt : Type := mkInterrupt { number : Z; priority_of : Z; isEdgeTriggered : bool }.

Fixpoint index_from (i : Z) (l : list Interrupt) (source : Z) : option Z :=
  match l with
  | [] => None
  | x :: l => if number x =? source then Some i else index_from (i + 1) l source
  end.

Definition index_of_source (ConfiguredInterrupts : list Interrupt) (source : Z) : option Z :=
  index_from 0 ConfiguredInterrupts source.

Definition sizeof_word : Z := 4.

Section Entry.
Context (debug : bool) (hz rate : Z).
Context (heap_start heap_end CONFIG_THREADS_NUM threadSpaces sizeof_Thread : Z).
Context (ConfiguredInterrupts : list Interrupt) (futexWordsAddress : Z).

(** The address of the word of a source. *)
Definition futex_word_for_source (source : Z) : option Z :=
  match index_of_source ConfiguredInterrupts source with
  | Some i => Some (futexWordsAddress + i * sizeof_word)
  | None => None
  end.

(** [do_external_interrupt], given the source that [interrupt_claim] returned: the address of the
    word it incremented. *)
Definition do_external_interrupt (claimed : option Z) (k : kernel) : outcome (option Z * kernel) :=
  match claimed with
  | None => Ok (None, k)
  | Some src =>
      match index_of_source ConfiguredInterrupts src with
      | None => Ok (None, k)
      | Some i =>
          x ← deref (ConfiguredInterrupts !! Z.to_nat i);
          let k := if isEdgeTriggered x then with_completed (completed k ++ [src]) k else k in
          w ← deref (futexWords k !! Z.to_nat i);
          Ok (Some (futexWordsAddress + i * sizeof_word),
              with_words (<[Z.to_nat i := u32 (w + 1)]> (futexWords k)) k)
      end
  end.

(** The capabilities to interrupts: [state] is what is behind the sealed handle, if it unseals. *)
Record InterruptCapabilityState : Type := mkInterruptState {
  interruptNumber : Z;
  mayWait : bool;
  mayComplete : bool;
}.

Definition interrupt_futex_get (state : option InterruptCapabilityState) : option Capability :=
  match state with
  | Some st =>
      if mayWait st then
        match futex_word_for_source (interruptNumber st) with
        | Some a => Some (mkCapability a a (a + sizeof_word) true 0 (permission_set [Load; Global]))
        | None => None
        end
      else None
  | None => None
  end.

Definition interrupt_complete (state : option InterruptCapabilityState) (k : kernel) : Z * kernel :=
  match state with
  | Some st =>
      if mayComplete st then (0, with_completed (completed k ++ [interruptNumber st]) k)
      else (- EPERM, k)
  | None => (- EPERM, k)
  end.

(** ** Start-up *)

Record ThreadLoaderInfo : Type := mkInfo { trustedStack : Z; info_priority : Z }.

Fixpoint create_threads (i : Z) (infos : list ThreadLoaderInfo) (s : sched) : outcome sched :=
  match infos with
  | [] => Ok s
  | x :: infos =>
      let t := threadSpaces + i * sizeof_Thread in
      s ← construct debug s t (trustedStack x) (i + 1) (info_priority x);
      s ← ready debug s t WakeTimer;
      create_threads (i + 1) infos s
  end.

Definition scheduler_entry (infos : list ThreadLoaderInfo) (k : kernel) : outcome kernel :=
  _ ← dassert true (Z.of_nat (length infos) =? CONFIG_THREADS_NUM);
  s ← create_threads 0 infos (threads_of k);
  Ok (with_words (replicate (length ConfiguredInterrupts) 0) (with_sched s k)).

(** ** Exceptions *)

Inductive cause : Type := CauseEcall | CauseTimer | CauseExternal (claimed : option Z)
  | CauseThreadExit | CauseOther.

(** [exception_entry]: the timer is read by [expiretimers], [schedule] and [update].  A cause that
    is not handled is a panic.  The result is the context to return to; [false] is no context. *)
Definition exception_entry (sealedTStack : Z) (mcause : cause) (now1 now2 now3 zeroTickTime : Z)
    (k : kernel) : outcome (Z * kernel) :=
  '(schedNeeded, tick, sealedTStack, k) ←
    (match mcause with
     | CauseEcall =>
         tick ← (match current (threads_of k) with
                 | Some c => th ← get (threads_of k) c; Ok (bool_decide (state th = Ready))
                 | None => Ok false
                 end);
         Ok (true, tick, sealedTStack, k)
     | CauseTimer => Ok (true, true, sealedTStack, k)
     | CauseExternal claimed =>
         '(word, k) ← do_external_interrupt claimed k;
         match word with
         | Some a =>
             '(_, n, k) ← wake_futex debug k a (2 ^ 32 - 1);
             Ok (0 <? n, 0 <? n, sealedTStack, k)
         | None => Ok (false, false, sealedTStack, k)
         end
     | CauseThreadExit =>
         '(_, s) ← exit debug (threads_of k);
         Ok (true, true, 0, with_sched s k)
     | CauseOther => Err ETrap
     end);
  s ← (if (tick : bool) || negb (any_ready (threads_of k))
       then expiretimers hz rate debug (threads_of k) now1 zeroTickTime else Ok (threads_of k));
  '(newContext, s) ← (if schedNeeded : bool then schedule debug s sealedTStack now2
                      else Ok (sealedTStack, s));
  cmp ← update hz rate debug s now3 (timer_cmp k);
  Ok (newContext, with_cmp cmp (with_sched s k)).

(** ** Sleeping *)

Definition thread_systemtick_get (s : sched) : Z * Z :=
  (u32 (ticksSinceBoot s), u32 (Z.shiftr (ticksSinceBoot s) 32)).

Definition ThreadSleepNoEarlyWake : Z := 1.

Record sleep_frame : Type := mkSleepFrame { sf_timeout : TimeoutArgument; sf_ticks : Z }.

(** [thread_sleep] always yields when its timeout is valid. *)
Definition thread_sleep (stack : Capability) (now : Z) (timeout : TimeoutArgument) (flags : Z)
    (s : sched) : outcome (entered sleep_frame * sched) :=
  if negb (timeout_is_valid heap_start heap_end stack timeout) then Ok (Returned (- EINVAL), s)
  else
    c ← deref (current s);
    '(_, s) ← suspend_start debug hz rate s c now timeout None true
                (negb (truth (Z.land flags ThreadSleepNoEarlyWake)));
    Ok (Yielded (mkSleepFrame timeout (ticksSinceBoot s)), s).

Definition thread_sleep_resume (f : sleep_frame) (now : Z) (s : sched)
    : outcome (Z * TimeoutArgument) :=
  '(_, timeout) ← suspend_finish debug (sf_ticks f) (ticksSinceBoot s) now true (sf_timeout f);
  Ok (0, timeout).

Definition thread_count : Z := CONFIG_THREADS_NUM.

(** ** Multiwaiters *)

Definition EBUSY : Z := 16.

Definition multiwaiter_create (maxItems : Z) (allocated : option Z) (k : kernel) : Z * option Z * kernel :=
  match create maxItems allocated (waiters k) with
  | (inl error, ws) => (error, None, with_waiters ws k)
  | (inr a, ws) => (0, Some a, with_waiters ws k)
  end.

(** [deallocate] holds [deallocLock] and runs in pieces: the allocator, which it calls twice,
    runs with interrupts enabled, so other threads may run in between.  The first piece unseals
    the handle: an error, or the object to destroy. *)
Definition multiwaiter_delete (unsealed : option Z) : Z + Z :=
  match unsealed with None => inl (- EINVAL) | Some a => inr a end.

(** After [token_obj_can_destroy] returned [canDestroy]: its error, or the destructor runs. *)
Definition multiwaiter_delete_checked (a canDestroy : Z) (k : kernel) : outcome (option Z * kernel) :=
  if negb (canDestroy =? 0) then Ok (Some canDestroy, k)
  else s ← destroy debug a (threads_of k); Ok (None, with_sched s k).

(** What [token_obj_destroy] does when the allocator frees the object. *)
Definition multiwaiter_freed (a : Z) (k : kernel) : kernel := with_waiters (delete a (waiters k)) k.

Record multi_frame : Type := mkMultiFrame {
  mf_thread : Z;
  mf_waiter : Z;
  mf_timeout : TimeoutArgument;
  mf_ticks : Z;
  mf_count : Z;
}.

(** What [multiwaiter_wait] leaves in the caller's array. *)
Definition multi_results (a count : Z) (events : list EventWaiterSource) (k : kernel)
    : outcome (Z * list EventWaiterSource * kernel) :=
  w ← deref (waiters k !! a);
  '(found, events, w) ← get_results debug events count w;
  Ok (if found : bool then 0 else - ETIMEDOUT, events, with_waiters (<[a := w]> (waiters k)) k).

(** After [suspend]: [waiterValid] and [eventsValid] are the tags of the two pointers. *)
Definition multi_wait_return (c a count : Z) (waiterValid eventsValid : bool)
    (events : list EventWaiterSource) (k : kernel) : outcome (Z * list EventWaiterSource * kernel) :=
  s ← upd (threads_of k) c (set_waitingOn (WMulti None));
  let k := with_sched s k in
  if negb waiterValid || negb eventsValid then Ok (- EINVAL, events, k)
  else multi_results a count events k.

(** The timer is read twice: by [multiwaiter_wait] and by [suspend]. *)
Definition multiwaiter_wait (stack : Capability) (mem : Z -> Z) (now now1 : Z) (timeout : TimeoutArgument)
    (unsealed : option Z) (eventsPointer : Capability) (events : list EventWaiterSource)
    (newEventsCount : Z) (k : kernel)
    : outcome (entered multi_frame * list EventWaiterSource * kernel) :=
  match unsealed with
  | None => Ok (Returned (- EINVAL), events, k)
  | Some a =>
      w ← deref (waiters k !! a);
      if Length w <? newEventsCount then Ok (Returned (- EINVAL), events, k)
      else if negb (check_pointer_for stack [Load; Store; LoadStoreCapability] true eventsPointer
                      (newEventsCount * sizeof_EventWaiterSource))
      then Ok (Returned (- EINVAL), events, k)
      else if negb (timeout_is_valid heap_start heap_end stack timeout)
      then Ok (Returned (- EINVAL), events, k)
      else if 0 <? usedLength w then Ok (Returned (- EBUSY), events, k)
      else
        '(r, w) ← set_events stack mem events newEventsCount w;
        let k := with_waiters (<[a := w]> (waiters k)) k in
        match r with
        | SetError => Ok (Returned (- EINVAL), events, k)
        | SetSleep =>
            if timeout_may_block now timeout then
              c ← deref (current (threads_of k));
              s ← upd (threads_of k) c (set_waitingOn (WMulti (Some a)));
              '(yields, s) ← suspend_start debug hz rate s c now1 timeout (Some HMulti) false false;
              if yields : bool then
                Ok (Yielded (mkMultiFrame c a timeout (ticksSinceBoot s) newEventsCount), events,
                    with_sched s k)
              else
                '(r, events, k) ← multi_wait_return c a newEventsCount true true events (with_sched s k);
                Ok (Returned r, events, k)
            else '(r, events, k) ← multi_results a newEventsCount events k; Ok (Returned r, events, k)
        | SetWake => '(r, events, k) ← multi_results a newEventsCount events k; Ok (Returned r, events, k)
        end
  end.

(** The thread runs again. *)
Definition multiwaiter_wait_resume (f : multi_frame) (now : Z) (waiterValid eventsValid : bool)
    (events : list EventWaiterSource) (k : kernel)
    : outcome (Z * TimeoutArgument * list EventWaiterSource * kernel) :=
  '(_, timeout) ← suspend_finish debug (mf_ticks f) (ticksSinceBoot (threads_of k)) now true
                    (mf_timeout f);
  '(r, events, k) ← multi_wait_return (mf_thread f) (mf_waiter f) (mf_count f) waiterValid eventsValid
                      events k;
  Ok (r, timeout, events, k).
End Entry.
