(* ===== verification/Walks.v ===== *)
(** * Walks over a sleep queue that wake threads

    The futex and multiwaiter calls walk a sleep queue with a visitor that looks at what a
    thread waits for and wakes it or not.  [scan] is the pure function such a walk computes,
    [all_readied] what it does to the scheduler: the threads it chose leave every queue, in
    order, for the back of the run queues of their priorities. *)

From S2P Require Import Prelude LinkedList Thread ThreadQueues ThreadInv ThreadOps ThreadSchedule Scheduler.

(** ** What is left of a queue *)

Definition leave (w l : list Z) : list Z := filter (fun x => x ∉ w) l.

Definition joins (m : gmap Z Thread) (h : href) (t : Z) : Prop :=
  match m !! t with Some th => h = HPrio (priority th) | None => False end.

#[export] Instance joins_dec m h t : Decision (joins m h t).
Proof. unfold joins. destruct (m !! t); apply _. Defined.

Lemma joins_iff m h t th : m !! t = Some th -> joins m h t <-> h = HPrio (priority th).
Proof. unfold joins. by intros ->. Qed.

Lemma filter_ext_in {A} (P Q : A -> Prop) `{!forall x, Decision (P x)} `{!forall x, Decision (Q x)}
    (l : list A) :
  (forall x, x ∈ l -> P x <-> Q x) -> filter P l = filter Q l.
Proof.
  induction l as [|x l IH]; intros HPQ; [done|]. rewrite !filter_cons.
  assert (P x <-> Q x) as Hx by (apply HPQ; set_solver).
  rewrite (decide_ext (P x) (Q x) _ _ Hx), IH by set_solver. done.
Qed.

Lemma leave_nil l : leave [] l = l.
Proof.
  unfold leave. induction l as [|x l IH]; [done|]. rewrite filter_cons_True by set_solver. by f_equal.
Qed.

Lemma leave_snoc w t l : leave (w ++ [t]) l = rem t (leave w l).
Proof.
  unfold leave, rem. rewrite list_filter_filter. apply list_filter_iff. set_solver.
Qed.

Lemma leave_app w l1 l2 : leave w (l1 ++ l2) = leave w l1 ++ leave w l2.
Proof. apply filter_app. Qed.

Lemma leave_id w l : (forall x, x ∈ w -> x ∉ l) -> leave w l = l.
Proof.
  intros H. unfold leave. induction l as [|x l IH]; [done|].
  rewrite filter_cons_True by set_solver. f_equal. apply IH. set_solver.
Qed.

Lemma elem_of_leave x w l : x ∈ leave w l <-> x ∈ l /\ x ∉ w.
Proof. unfold leave. rewrite list_elem_of_filter. tauto. Qed.

Definition ready_map (reason : WakeReason) (m : gmap Z Thread) (w : list Z) : gmap Z Thread :=
  foldl (fun m t => alter (readied reason) t m) m w.

Lemma ready_map_snoc reason m w t :
  ready_map reason m (w ++ [t]) = alter (readied reason) t (ready_map reason m w).
Proof. unfold ready_map. by rewrite foldl_app. Qed.

Lemma ready_map_notin reason m w t : t ∉ w -> ready_map reason m w !! t = m !! t.
Proof.
  induction w as [|x w IH] using rev_ind; [done|]. intros Ht.
  rewrite ready_map_snoc, lookup_alter_ne by set_solver. apply IH. set_solver.
Qed.

Lemma ready_map_in reason m w t th : NoDup w -> t ∈ w -> m !! t = Some th ->
  ready_map reason m w !! t = Some (readied reason th).
Proof.
  induction w as [|x w IH] using rev_ind; [by intros _ ?%not_elem_of_nil|].
  intros Hnd Ht Et. rewrite ready_map_snoc. apply NoDup_app in Hnd as (Hw & Hx & _).
  destruct (decide (t = x)) as [->|].
  - rewrite lookup_alter_eq, ready_map_notin by set_solver. by rewrite Et.
  - rewrite lookup_alter_ne by done. apply IH; [done|set_solver|done].
Qed.

Lemma run_joins m (h' : href) w : (h' = HFutex \/ h' = HMulti \/ h' = HWaiting) ->
  filter (joins m h') w = [].
Proof.
  intros Hh. induction w as [|t w IH]; [done|]. rewrite filter_cons_False; [done|].
  unfold joins. destruct (m !! t); [|tauto]. intros ->. destruct Hh as [? | [? | ?]]; discriminate.
Qed.

Section AllReadied.
Context (NPrios : Z) (HNP : NPrios <= 32) (debug : bool) (reason : WakeReason).

Record all_readied (s : sched) (a : href -> list Z) (w : list Z) (s' : sched)
    (a' : href -> list Z) : Prop := {
  ar_wf : wf NPrios s' a';
  ar_threads : core <$> threads s' = core <$> ready_map reason (threads s) w;
  ar_queues h : a' h = leave w (a h) ++ filter (joins (threads s) h) w;
  ar_others : others s' = others s;
}.

Lemma all_readied_none s a : wf NPrios s a -> all_readied s a [] s a.
Proof. split; [done..| |done]. intros h. by rewrite leave_nil, app_nil_r. Qed.

(** A thread not readied yet is as it was. *)
Lemma all_readied_lookup s a w s' a' t th : all_readied s a w s' a' -> t ∉ w ->
  threads s !! t = Some th -> exists th', threads s' !! t = Some th' /\ core th' = core th.
Proof.
  intros [_ Et _ _] Ht E. eapply core_lookup; [exact Et|]. by rewrite ready_map_notin.
Qed.

Lemma readied_core th th' : core th = core th' -> core (readied reason th) = core (readied reason th').
Proof.
  intros E. unfold readied. apply fw_core. destruct (_ || _); repeat (apply fw_core || done).
  cbv [id]. repeat (apply fw_core || done).
Qed.

(** What readying the thread [t] does. *)
Definition readies (s : sched) (a : href -> list Z) (t : Z) (th : Thread) (s' : sched)
    (a' : href -> list Z) : Prop :=
  stepped NPrios s a t (readied reason th) s' a' /\
  forall h, a' h = rem t (a h) ++ (if decide (h = HPrio (priority th)) then [t] else []).

(** Readying one more thread. *)
Lemma all_readied_next s a w s1 a1 t th th1 s2 a2 : all_readied s a w s1 a1 -> t ∉ w ->
  threads s !! t = Some th -> core th1 = core th -> readies s1 a1 t th1 s2 a2 ->
  all_readied s a (w ++ [t]) s2 a2.
Proof.
  intros Har Ht Et Ec1 [Hs Ha]. pose proof Har as [Hwf Em Eq Eo].
  pose proof (core_fields _ _ Ec1) as (_ & _ & _ & _ & _ & Ep & _).
  destruct Hs as (Hw & _ & Hc & Ho). split; [done| | |congruence].
  - rewrite Hc, ready_map_snoc. apply map_eq. intros x.
    assert ((core <$> threads s1) !! x = (core <$> ready_map reason (threads s) w) !! x) as Ex
      by by rewrite Em.
    rewrite !lookup_fmap in Ex |- *. destruct (decide (t = x)) as [<-|].
    + rewrite lookup_insert_eq, lookup_alter_eq, ready_map_notin, Et by done. cbn. f_equal.
      by apply readied_core.
    + by rewrite lookup_insert_ne, lookup_alter_ne by done.
  - intros h. rewrite Ha, Eq, leave_snoc, filter_app. unfold rem at 1. rewrite filter_app.
    fold (rem t (leave w (a h))). rewrite <- app_assoc. f_equal. f_equal.
    + apply rem_notin. rewrite list_elem_of_filter. tauto.
    + rewrite Ep, filter_cons. rewrite (decide_ext _ _ _ _ (joins_iff _ h _ _ Et)).
      by destruct (decide _).
Qed.
End AllReadied.

Lemma alter_core (f : Thread -> Thread) (m m' : gmap Z Thread) t :
  (forall x y, core x = core y -> core (f x) = core (f y)) ->
  core <$> m = core <$> m' -> core <$> alter f t m = core <$> alter f t m'.
Proof.
  intros Hf E. apply map_eq. intros x.
  assert ((core <$> m) !! x = (core <$> m') !! x) as Ex by by rewrite E.
  rewrite !lookup_fmap in Ex |- *. destruct (decide (t = x)) as [<-|].
  - rewrite !lookup_alter_eq. destruct (m !! t) as [x|], (m' !! t) as [y|]; try done.
    apply (inj Some) in Ex. apply (f_equal Some), Hf, Ex.
  - by rewrite !lookup_alter_ne by done.
Qed.

Lemma ready_map_core reason w : forall m m', core <$> m = core <$> m' ->
  core <$> ready_map reason m w = core <$> ready_map reason m' w.
Proof.
  induction w as [|t w IH] using rev_ind; intros m m' E; [done|].
  rewrite !ready_map_snoc. apply alter_core; [apply readied_core|by apply IH].
Qed.

Lemma ready_map_app reason m w1 w2 :
  ready_map reason m (w1 ++ w2) = ready_map reason (ready_map reason m w1) w2.
Proof. unfold ready_map. apply foldl_app. Qed.

(** One walk after the other. *)
Lemma all_readied_trans NPrios r s a w1 s1 a1 w2 s2 a2 :
  all_readied NPrios r s a w1 s1 a1 -> all_readied NPrios r s1 a1 w2 s2 a2 ->
  (forall x, x ∈ w2 -> x ∉ w1) -> (forall x, x ∈ w2 -> is_Some (threads s !! x)) ->
  all_readied NPrios r s a (w1 ++ w2) s2 a2.
Proof.
  intros H1 [Hw2 Et2 Eq2 Eo2] Hdis Hin. pose proof H1 as [Hw1 Et1 Eq1 Eo1].
  split; [done| | |congruence].
  - rewrite Et2, ready_map_app. by apply ready_map_core.
  - intros h. rewrite Eq2, Eq1, leave_app, filter_app, <- app_assoc. f_equal; [|f_equal].
    + unfold leave. rewrite list_filter_filter. apply list_filter_iff. set_solver.
    + apply leave_id. intros x Hx Hx'%list_elem_of_filter. naive_solver.
    + apply filter_ext_in. intros x Hx. destruct (Hin x Hx) as [th Et].
      destruct (all_readied_lookup _ _ _ _ _ _ _ _ _ H1 (Hdis x Hx) Et) as (th1 & E1 & Ec).
      rewrite (joins_iff _ _ _ _ Et), (joins_iff _ _ _ _ E1).
      by rewrite (proj1 (proj2 (proj2 (proj2 (proj2 (proj2 (core_fields _ _ Ec))))))).
Qed.

(** ** The walk *)

Definition seen : Type := wait_union * Z.
Definition look (th : Thread) : seen := (waitingOn th, priority th).

Lemma look_core th th' : core th = core th' -> look th = look th'.
Proof. intros (_ & _ & Eu & _ & _ & Ep & _)%core_fields. unfold look. by rewrite Eu, Ep. Qed.

Section WakingWalk.
Context (NPrios : Z) (HNP : NPrios <= 32) (debug : bool) (reason : WakeReason) (h : href).
Context (Hsleep : h = HFutex \/ h = HMulti).
Context {A : Type} (visitor : A -> sched -> Z -> outcome (A * sched)) (terminate : A -> bool).
Context (pick : A -> seen -> bool * A) (good : A -> seen -> Prop).

(** The visitor decides by what the thread waits for and by its priority. *)
Definition picks : Prop := forall acc s a t th, wf NPrios s a -> threads s !! t = Some th ->
  state th = Suspended -> good acc (look th) ->
  if fst (pick acc (look th))
  then exists s' a', visitor acc s t = Ok (snd (pick acc (look th)), s') /\
         readies NPrios reason s a t th s' a'
  else visitor acc s t = Ok (snd (pick acc (look th)), s).

Lemma picks_ready :
  (forall acc s t th, threads s !! t = Some th -> good acc (look th) ->
     visitor acc s t =
       if fst (pick acc (look th))
       then s' ← ready debug s t reason; Ok (snd (pick acc (look th)), s')
       else Ok (snd (pick acc (look th)), s)) -> picks.
Proof.
  intros H acc s a t th Hwf Et Hst Hg. rewrite (H acc s t th Et Hg).
  destruct (fst (pick acc (look th))); [|done].
  destruct (ready_steps NPrios HNP debug s a t th reason Hwf Et Hst) as (s' & a' & E & Hs & Ha).
  exists s', a'. by run E.
Qed.

Definition stays_good : Prop := forall acc u u', good acc u -> good acc u' ->
  good (snd (pick acc u)) u'.

Fixpoint scan (m : gmap Z Thread) (l : list Z) (acc : A) : list Z * A :=
  match l with
  | [] => ([], acc)
  | t :: r =>
      if terminate acc then ([], acc)
      else match m !! t with
           | None => ([], acc)
           | Some th =>
               let '(b, acc) := pick acc (look th) in
               let '(w, acc) := scan m r acc in
               (if b then t :: w else w, acc)
           end
  end.

Lemma scan_sublist m l acc : sublist (fst (scan m l acc)) l.
Proof.
  revert acc. induction l as [|t r IH]; intros acc; cbn [scan]; [constructor|].
  destruct (terminate acc); [apply sublist_nil_l|].
  destruct (m !! t) as [th|]; [|apply sublist_nil_l].
  destruct (pick acc (look th)) as [b acc1]. specialize (IH acc1).
  destruct (scan m r acc1) as [w acc2], b; by constructor.
Qed.

Definition all_good (m : gmap Z Thread) (l : list Z) (acc : A) : Prop :=
  forall t, t ∈ l -> exists th, m !! t = Some th /\ good acc (look th).

(** In the middle of the walk: [r] is to be visited, [w] was woken among those before. *)
Definition walking (s0 : sched) (a0 : href -> list Z) (acc0 : A) (r : list Z) (acc : A) (s : sched)
    : Prop :=
  exists d w a, a0 h = d ++ r /\ (forall x, x ∈ w -> x ∈ d) /\
    all_readied NPrios reason s0 a0 w s a /\ all_good (threads s0) r acc /\
    scan (threads s0) (a0 h) acc0 = (let '(w', acc') := scan (threads s0) r acc in (w ++ w', acc')).

Lemma sleeper_suspended s a t : wf NPrios s a -> t ∈ a h ->
  exists th, threads s !! t = Some th /\ state th = Suspended.
Proof.
  intros Hwf Ht. destruct (proj1 (f_members _ _ _ (wf_fields _ _ _ Hwf) h t) Ht) as (th & Et & Hb).
  exists th. split; [done|]. by destruct Hsleep as [Eh|Eh]; rewrite Eh in Hb; destruct Hb.
Qed.

Lemma asleep_NoDup s a : wf NPrios s a -> NoDup (a h).
Proof.
  intros Hwf. destruct (wf_queues _ _ _ Hwf h) as [_ [->|Hr]]; [constructor|].
  by eapply ring_NoDup.
Qed.

Lemma sleep_queue s a : wf NPrios s a -> queue run_links s h (a h).
Proof. intros Hwf. pose proof (wf_queues _ _ _ Hwf h) as Hq. by destruct Hsleep as [Eh|Eh]; rewrite Eh in Hq |- *. Qed.

Lemma walking_visits (Hpick : picks) (Hgood : stays_good) s0 a0 acc0 : wf NPrios s0 a0 ->
  safe_visitor h visitor terminate (walking s0 a0 acc0).
Proof.
  intros Hwf0 k x r acc s (d & w & a & Ed & Hw & Har & Hg & Escan) _ Eterm.
  pose proof (asleep_NoDup _ _ Hwf0) as Hnd. rewrite Ed in Hnd.
  destruct (sleeper_suspended s0 a0 x Hwf0) as (th & Et & Hst); [rewrite Ed; set_solver|].
  assert (x ∉ d /\ x ∉ r) as [Hxd Hxr].
  { apply NoDup_app in Hnd as (_ & Hd & Hnd). apply NoDup_cons in Hnd as [? _]. set_solver. }
  assert (x ∉ w) as Hxw by (intros ?%Hw; done).
  destruct (all_readied_lookup _ _ _ _ _ _ _ _ _ Har Hxw Et) as (th1 & Et1 & Ec1).
  pose proof (look_core _ _ Ec1) as Eu.
  destruct (Hg x ltac:(set_solver)) as (th' & Et' & Hgx). assert (th' = th) as -> by congruence.
  assert (state th1 = Suspended) as Hst1.
  { by rewrite (proj1 (proj2 (proj2 (proj2 (proj2 (proj2 (proj2 (proj2 (core_fields _ _ Ec1))))))))). }
  specialize (Hpick acc s a x th1 (ar_wf _ _ _ _ _ _ _ Har) Et1 Hst1). rewrite Eu in Hpick.
  specialize (Hpick Hgx). cbn [scan] in Escan.
  rewrite Eterm, Et in Escan. assert (all_good (threads s0) r (snd (pick acc (look th)))) as Hg'.
  { intros t Ht. destruct (Hg t ltac:(set_solver)) as (tt' & Ett & Hgt). exists tt'.
    split; [done|]. by apply Hgood. }
  assert (forall w', (forall y, y ∈ w' -> y ∈ d ++ [x]) -> leave w' (a0 h) = leave w' (d ++ [x]) ++ r)
    as Hleave.
  { intros w' Hw'. rewrite Ed, cons_middle, app_assoc, leave_app. f_equal. apply leave_id.
    intros y Hy%Hw'. apply NoDup_app in Hnd as (_ & Hnd & _). set_solver. }
  destruct (pick acc (look th)) as [[] acc1]; cbn [fst snd] in *.
  - destruct Hpick as (s2 & a2 & E2 & Hr2).
    pose proof (all_readied_next _ _ _ _ _ _ _ _ _ _ _ _ Har Hxw Et Ec1 Hr2) as Har2.
    exists acc1, s2, (leave (w ++ [x]) (d ++ [x])).
    split; [done|]. split.
    + exists (d ++ [x]), (w ++ [x]), a2. rewrite Ed, <- app_assoc. splits; [done| |done|done|].
      * set_solver.
      * rewrite <- Ed, Escan. destruct (scan (threads s0) r acc1). by rewrite <- app_assoc.
    + rewrite <- Hleave by set_solver.
      replace (leave (w ++ [x]) (a0 h)) with (a2 h); [apply sleep_queue, Har2|].
      rewrite (ar_queues _ _ _ _ _ _ _ Har2), run_joins, app_nil_r by tauto. done.
  - exists acc1, s, (leave w (d ++ [x])). split; [done|]. split.
    + exists (d ++ [x]), w, a. rewrite Ed, <- app_assoc. splits; [done| |done|done|].
      * set_solver.
      * rewrite <- Ed, Escan. by destruct (scan (threads s0) r acc1).
    + rewrite <- Hleave by set_solver.
      replace (leave w (a0 h)) with (a h); [apply sleep_queue, Har|].
      rewrite (ar_queues _ _ _ _ _ _ _ Har), run_joins, app_nil_r by tauto. done.
Qed.

(** The walk ends, computes [scan], and readies exactly the threads it chose. *)
Lemma walk_readies (Hpick : picks) (Hgood : stays_good) s a acc :
  wf NPrios s a -> all_good (threads s) (a h) acc ->
  exists s' a',
    walk_thread_list (S (size (threads s))) h visitor terminate acc s (get_head s h) =
      Ok (snd (scan (threads s) (a h) acc), s') /\
    all_readied NPrios reason s a (fst (scan (threads s) (a h) acc)) s' a'.
Proof.
  intros Hwf Hg. pose proof (sleep_queue _ _ Hwf) as [Hh Hq]. rewrite Hh.
  assert (length (a h) <= size (threads s))%nat as Hlen.
  { destruct Hq as [->|Hq]; [cbn; lia|]. by apply (tring_length run_links). }
  assert (walking s a acc (a h) acc s) as Hstart.
  { exists [], [], a. split; [done|]. split; [set_solver|].
    split; [by apply all_readied_none|]. split; [done|]. by destruct (scan _ _ _). }
  destruct (a h) as [|x r] eqn:Ea.
  { exists s, a. split; [done|]. by apply all_readied_none. }
  rewrite <- Ea in Hlen.
  destruct (walk_from h visitor terminate (walking s a acc)
    (walking_visits Hpick Hgood s a acc Hwf) r (S (size (threads s))) [] x acc s Hstart)
    as (acc' & s' & r' & E & (d & w & a' & Ed & _ & Har & _ & Escan) & Hend & _).
  { cbn [app]. rewrite <- Ea. by apply sleep_queue. }
  { rewrite Ea in Hlen. cbn [length] in Hlen. lia. }
  cbn [head]. rewrite E. exists s', a'.
  assert (scan (threads s) r' acc' = ([], acc')) as Es.
  { destruct Hend as [Ht| ->]; [|done]. destruct r'; [done|]. cbn [scan]. by rewrite Ht. }
  rewrite <- Ea, Escan, Es, app_nil_r. done.
Qed.
End WakingWalk.
