(* ===== verification/WakeSpec.v ===== *)
(** * What waking a futex does

    The walks of [futex_wake] over the futex queue and over the multiwaiters are the scans of
    [Walks], and the scans have a closed form: the first threads of each queue that wait for
    the address, as many as were asked for. *)

From S2P Require Import Prelude LinkedList Capability Thread ThreadQueues ThreadInv ThreadOps ThreadSchedule Scheduler Timer Timeouts MultiWaiter Futex Walks.

(** ** Choosing the first ones *)

Definition first {A} (n : Z) (P : A -> Prop) `{!forall x, Decision (P x)} (l : list A) : list A :=
  take (Z.to_nat n) (filter P l).

Lemma first_none {A} (P : A -> Prop) `{!forall x, Decision (P x)} n l : n <= 0 -> first n P l = [].
Proof. intros Hn. unfold first. by replace (Z.to_nat n) with O by lia. Qed.

Lemma first_cons {A} (P : A -> Prop) `{!forall x, Decision (P x)} n x l : 0 < n ->
  first n P (x :: l) = if decide (P x) then x :: first (n - 1) P l else first n P l.
Proof.
  intros Hn. unfold first. rewrite filter_cons. case_decide; [|done].
  replace (Z.to_nat n) with (S (Z.to_nat (n - 1))) by lia. done.
Qed.

Lemma first_length {A} (P : A -> Prop) `{!forall x, Decision (P x)} n l : 0 <= n ->
  0 <= Z.of_nat (length (first n P l)) <= n /\ (length (first n P l) <= length l)%nat.
Proof.
  intros Hn. unfold first. pose proof (length_filter P l). rewrite length_take. lia.
Qed.

Lemma first_elem {A} (P : A -> Prop) `{!forall x, Decision (P x)} n l x :
  x ∈ first n P l -> x ∈ l /\ P x.
Proof.   intros (i & Hi & _)%elem_of_take. apply list_elem_of_lookup_2, list_elem_of_filter in Hi. tauto. Qed.

(** ** The futex queue *)

Definition waits (m : gmap Z Thread) (key t : Z) : Prop :=
  match m !! t with Some th => futexWaitAddress (waitingOn th) = key | None => False end.

#[export] Instance waits_dec m key t : Decision (waits m key t).
Proof. unfold waits. destruct (m !! t); apply _. Defined.

Definition inherits (m : gmap Z Thread) (t : Z) : bool :=
  match m !! t with Some th => futexPriorityInheriting (waitingOn th) | None => false end.

Definition pick_wake (key : Z) (acc : wake_acc) (u : seen) : bool * wake_acc :=
  if futexWaitAddress (fst u) =? key
  then (true, mkWake (u32 (left acc - 1)) (s32 (woke acc + 1))
                (shouldRecalculate acc || futexPriorityInheriting (fst u)))
  else (false, acc).

Lemma scan_wake m key l : forall acc,
  (forall t, t ∈ l -> is_Some (m !! t)) -> left acc in_u 32 ->
  0 <= woke acc -> woke acc + Z.of_nat (length l) < 2 ^ 31 ->
  let w := first (left acc) (waits m key) l in
  scan (fun a => left a =? 0) (pick_wake key) m l acc =
    (w, mkWake (left acc - Z.of_nat (length w)) (woke acc + Z.of_nat (length w))
          (shouldRecalculate acc || existsb (inherits m) w)).
Proof.
  induction l as [|t r IH]; intros [n k b] Hm Hl Hk Hlen w; cbn [left woke shouldRecalculate] in *.
  { unfold w, first. rewrite filter_nil, take_nil. cbn. by rewrite !Z.sub_0_r, Z.add_0_r, orb_false_r. }
  cbn [scan left]. destruct (Z.eqb_spec n 0) as [->|Hn].
  { unfold w. rewrite first_none by lia. cbn. by rewrite Z.add_0_r, orb_false_r. }
  destruct (Hm t) as [th Et]; [set_solver|]. rewrite Et. unfold w. rewrite first_cons by lia.
  unfold pick_wake at 1. cbn [fst look left woke shouldRecalculate length] in *.
  assert (waits m key t <-> futexWaitAddress (waitingOn th) = key) as Hw by (unfold waits; by rewrite Et).
  destruct (Z.eqb_spec (futexWaitAddress (waitingOn th)) key) as [E|E].
  - rewrite decide_True by tauto. rewrite s32_small by lia. unfold u32 at 1. rewrite wrap_small by lia.
    rewrite IH; cbn [left woke shouldRecalculate]; [|set_solver|lia..].
    f_equal. cbn [length existsb]. unfold inherits at 2. rewrite Et.
    f_equal; [lia..|]. by rewrite orb_assoc.
  - rewrite decide_False by tauto. rewrite IH; cbn [left woke shouldRecalculate]; [done|set_solver|lia..].
Qed.

(** ** The multiwaiters *)

Definition event_ok (e : EventWaiter) : Prop := readyEvents e in_u 24.

Record waiter_ok (w : MultiWaiterInternal) : Prop := {
  wo_used : 0 <= usedLength w <= Length w;
  wo_length : Z.of_nat (length (events w)) = Length w;
  wo_events : Forall event_ok (events w);
}.

Definition mark (key : Z) (e : EventWaiter) : EventWaiter :=
  if eventSource e =? key
  then mkEvent (eventSource e) (eventValue e) (flags e) (Z.lor (readyEvents e) 1) else e.

(** Is one of the events in use for this address?  All such events are marked. *)
Definition fires (key : Z) (w : MultiWaiterInternal) : bool :=
  existsb (fun e => eventSource e =? key) (take (Z.to_nat (usedLength w)) (events w)).
Definition fired (key : Z) (w : MultiWaiterInternal) : MultiWaiterInternal :=
  with_events (usedLength w)
    ((mark key <$> take (Z.to_nat (usedLength w)) (events w)) ++ drop (Z.to_nat (usedLength w)) (events w)) w.

Lemma set_ready_one e : event_ok e ->
  set_ready 1 e = Ok (mkEvent (eventSource e) (eventValue e) (flags e) (Z.lor (readyEvents e) 1)).
Proof.
  intros He. unfold set_ready. cbn [dassert]. rewrite wrap_small; [done|].
  apply lor_bound; [lia|done|lia].
Qed.

Lemma mark_ok key e : event_ok e -> event_ok (mark key e).
Proof.
  intros He. unfold mark. destruct (_ =? _); [|done]. unfold event_ok. cbn.
  apply lor_bound; [lia|done|lia].
Qed.

Lemma mark_source key e : eventSource (mark key e) = eventSource e.
Proof. unfold mark. by destruct (_ =? _). Qed.

Lemma trigger_loop_ok key n : forall l, (n <= length l)%nat -> Forall event_ok l ->
  trigger_loop n key l =
    Ok (existsb (fun e => eventSource e =? key) (take n l), (mark key <$> take n l) ++ drop n l).
Proof.
  induction n as [|n IH]; intros [|e l] Hn Hf; cbn [length] in Hn; try lia; [done..|].
  apply Forall_cons in Hf as [He Hf]. cbn [trigger_loop head deref tail take drop].
  rewrite ok_bind. unfold trigger_event, mark. cbn [existsb].
  destruct (eventSource e =? key) eqn:E; cbn [negb].
  - rewrite (set_ready_one e He), !ok_bind. rewrite IH by (done || lia).
    rewrite ok_bind. cbn. by rewrite E.
  - rewrite ok_bind, IH by (done || lia). rewrite ok_bind. cbn. by rewrite E.
Qed.

Lemma trigger_ok key w : waiter_ok w -> trigger key w = Ok (fires key w, fired key w).
Proof.
  intros [Hu Hl He]. unfold trigger. rewrite trigger_loop_ok by (done || lia). done.
Qed.

Lemma fired_ok key w : waiter_ok w -> waiter_ok (fired key w).
Proof.
  intros [Hu Hl He]. split; cbn; [done| |].
  - rewrite length_app, length_fmap, <- length_app, take_drop. done.
  - apply Forall_app; split; [|by apply Forall_drop].
    apply Forall_fmap. eapply Forall_impl; [by apply Forall_take|]. apply mark_ok.
Qed.

Lemma existsb_mark key key' l :
  existsb (fun e => eventSource e =? key) (mark key' <$> l) = existsb (fun e => eventSource e =? key) l.
Proof. induction l as [|e l IH]; [done|]. cbn. by rewrite mark_source, IH. Qed.

Lemma fires_fired key w : waiter_ok w -> fires key (fired key w) = fires key w.
Proof.
  intros [Hu Hl _]. unfold fires, fired. cbn.
  rewrite take_app_le by (rewrite length_fmap, length_take; lia).
  rewrite take_ge by (rewrite length_fmap, length_take; lia). apply existsb_mark.
Qed.

Lemma mark_none key l : existsb (fun e => eventSource e =? key) l = false -> mark key <$> l = l.
Proof.
  induction l as [|e l IH]; [done|]. cbn. intros [E Hl]%orb_false_iff.
  unfold mark at 1. by rewrite E, IH.
Qed.

Lemma fired_none key w : fires key w = false -> fired key w = w.
Proof.
  intros H. unfold fired. rewrite (mark_none key _ H), take_drop. by destruct w.
Qed.

Definition waits_on (m : gmap Z Thread) (t : Z) : option Z :=
  match m !! t with Some th => multiWaiter th | None => None end.

Definition notified (ws : gmap Z MultiWaiterInternal) (m : gmap Z Thread) (key t : Z) : Prop :=
  match waits_on m t with
  | Some a => match ws !! a with Some w => fires key w = true | None => False end
  | None => False
  end.

#[export] Instance notified_dec ws m key t : Decision (notified ws m key t).
Proof. unfold notified. destruct (waits_on m t) as [a|]; [destruct (ws !! a)|]; apply _. Defined.

(** The multiwaiters of the threads [w] are marked. *)
Definition mark_all (key : Z) (m : gmap Z Thread) (ws : gmap Z MultiWaiterInternal) (w : list Z)
    : gmap Z MultiWaiterInternal :=
  foldl (fun ws t => match waits_on m t with
                     | Some a => alter (fired key) a ws | None => ws end) ws w.

Definition waits_multi (ws : gmap Z MultiWaiterInternal) (u : wait_union) : Prop :=
  exists a w, u = WMulti (Some a) /\ ws !! a = Some w /\ waiter_ok w.

Definition good_multi (acc : gmap Z MultiWaiterInternal * Z) (u : seen) : Prop :=
  waits_multi (fst acc) (fst u).

Definition pick_multi (key : Z) (acc : gmap Z MultiWaiterInternal * Z) (u : seen)
    : bool * (gmap Z MultiWaiterInternal * Z) :=
  let '(ws, n) := acc in
  match fst u with
  | WMulti (Some a) =>
      match ws !! a with
      | Some w => (fires key w, (<[a := fired key w]> ws, if fires key w then u32 (n + 1) else n))
      | None => (false, acc)
      end
  | _ => (false, acc)
  end.

Lemma waits_multi_fired key a w ws u : waits_multi ws u -> ws !! a = Some w -> waiter_ok w ->
  waits_multi (<[a := fired key w]> ws) u.
Proof.
  intros (b & v & -> & Hb & Hv) Ha Hw. destruct (decide (a = b)) as [<-|Hne].
  - exists a, (fired key w). rewrite lookup_insert_eq. by splits; [..|apply fired_ok].
  - exists b, v. by rewrite lookup_insert_ne.
Qed.

Lemma pick_multi_stays key : stays_good (pick_multi key) good_multi.
Proof.
  intros [ws n] [u p] [u' p'] (a & w & Eu & Ha & Hw) Hu'. unfold pick_multi. cbn in *.
  subst u. rewrite Ha. by apply waits_multi_fired.
Qed.

Lemma pick_multi_visits NPrios (HNP : NPrios <= 32) debug key :
  picks NPrios WakeMultiWaiter (wake_waiters_visit debug key) (pick_multi key) good_multi.
Proof.
  apply (picks_ready NPrios HNP debug). intros [ws n] s t th Et (a & w & Eu & Ha & Hw).
  unfold wake_waiters_visit.
  run (get_ok _ _ _ Et). unfold multiWaiter, pick_multi. cbn [fst look] in *. rewrite Eu, Ha.
  run (deref_ok (Some a) a eq_refl). run (deref_ok (ws !! a) w Ha). run (trigger_ok key w Hw).
  by destruct (fires key w).
Qed.

Lemma alter_fired key a w (ws : gmap Z MultiWaiterInternal) : ws !! a = Some w ->
  <[a := fired key w]> ws = alter (fired key) a ws.
Proof.
  intros Ha. apply map_eq. intros b. destruct (decide (a = b)) as [<-|].
  - by rewrite lookup_insert_eq, lookup_alter_eq, Ha.
  - by rewrite lookup_insert_ne, lookup_alter_ne.
Qed.

Lemma notified_fired key a w ws m t : ws !! a = Some w -> waiter_ok w ->
  notified (<[a := fired key w]> ws) m key t <-> notified ws m key t.
Proof.
  intros Ha Hw. unfold notified. destruct (waits_on m t) as [b|]; [|done].
  destruct (decide (a = b)) as [<-|]; [|by rewrite lookup_insert_ne].
  by rewrite lookup_insert_eq, Ha, fires_fired.
Qed.

Lemma first_ext {A} (P Q : A -> Prop) `{!forall x, Decision (P x)} `{!forall x, Decision (Q x)} n l :
  (forall x, P x <-> Q x) -> first n P l = first n Q l.
Proof. intros HPQ. unfold first. f_equal. by apply list_filter_iff. Qed.

Lemma scan_multi maxWakes key m l : forall ws n,
  all_good good_multi m l (ws, n) -> 0 <= n -> n + Z.of_nat (length l) < 2 ^ 32 ->
  let w := first (maxWakes - n) (notified ws m key) l in
  scan (fun acc => maxWakes <=? snd acc) (pick_multi key) m l (ws, n) =
    (w, (mark_all key m ws w, n + Z.of_nat (length w))).
Proof.
  induction l as [|t r IH]; intros ws n Hg Hn Hlen w.
  { unfold w, first. rewrite filter_nil, take_nil. cbn. by rewrite Z.add_0_r. }
  cbn [scan snd]. destruct (Z.leb_spec maxWakes n) as [Hle|Hlt].
  { unfold w. rewrite first_none by lia. cbn. by rewrite Z.add_0_r. }
  destruct (Hg t) as (th & Et & Ht); [set_solver|].
  pose proof (pick_multi_stays key (ws, n) (look th)) as Hstay.
  rewrite Et. destruct Ht as (a & v & Eu & Ha & Hv). cbn in Eu, Ha.
  assert (all_good good_multi m r (<[a := fired key v]> ws, n)) as Hg'.
  { intros x Hx. destruct (Hg x) as (tx & Ex & Hgx); [set_solver|]. exists tx. split; [done|].
    by apply waits_multi_fired. }
  assert (waits_on m t = Some a) as Em by (unfold waits_on, multiWaiter; by rewrite Et, Eu).
  assert (notified ws m key t <-> fires key v = true) as Hnot.
  { unfold notified. by rewrite Em, Ha. }
  unfold pick_multi at 1. cbn [fst look]. rewrite Eu, Ha. cbn [length] in Hlen.
  unfold w. rewrite first_cons by lia. destruct (fires key v) eqn:Ef.
  - rewrite decide_True by tauto. unfold u32. rewrite wrap_small by lia.
    rewrite IH by (done || lia). cbn [length mark_all foldl]. rewrite Em, <- (alter_fired key a v) by done.
    rewrite (first_ext (notified (<[a := fired key v]> ws) m key) (notified ws m key))
      by (intros; by apply notified_fired).
    f_equal; [f_equal; f_equal; lia|]. replace (maxWakes - (n + 1)) with (maxWakes - n - 1) by lia.
    f_equal. lia.
  - rewrite decide_False by naive_solver. rewrite (fired_none _ _ Ef), insert_id in Hg' |- * by done.
    rewrite IH by (done || lia). done.
Qed.

(** * Waking, in every state of the kernel

    The invariant [kernel_ok] of the scheduler with its multiwaiters, and the effect of
    [wake_futex], of the destructor of a multiwaiter, and of writes of the futex fields on it. *)

Section Kernel.
Context (NPrios : Z) (HNP : NPrios <= 32) (debug : bool).

Record kernel_ok (k : kernel) (a : href -> list Z) : Prop := {
  ko_wf : wf NPrios (threads_of k) a;
  ko_current c : current (threads_of k) = Some c -> is_Some (threads (threads_of k) !! c);
  ko_multi t : t ∈ a HMulti -> exists th, threads (threads_of k) !! t = Some th /\
    waits_multi (waiters k) (waitingOn th);
  ko_waiters : map_Forall (fun _ => waiter_ok) (waiters k);
  ko_count : Z.of_nat (size (threads (threads_of k))) < 2 ^ 16;
}.

Lemma queue_length k a h : kernel_ok k a -> Z.of_nat (length (a h)) < 2 ^ 16.
Proof.
  intros Hk. pose proof (ko_count _ _ Hk). destruct (wf_queues _ _ _ (ko_wf _ _ Hk) h) as [_ [->|Hq]].
  - cbn. lia.
  - pose proof (tring_length _ _ _ Hq). lia.
Qed.

Lemma member s a h t : wf NPrios s a -> t ∈ a h ->
  exists th, threads s !! t = Some th /\ belongs h th.
Proof. intros Hwf Ht. by apply (f_members _ _ _ (wf_fields _ _ _ Hwf)). Qed.

Lemma pick_wake_visits key :
  picks NPrios WakeFutex (futex_wake_visit debug key) (pick_wake key) (fun _ _ => True).
Proof.
  apply (picks_ready NPrios HNP debug). intros acc s t th Et _. unfold futex_wake_visit. run (get_ok _ _ _ Et).
  unfold pick_wake. cbn [fst look]. by destruct (_ =? key).
Qed.

Lemma all_readied_size r s a w s' a' : all_readied NPrios r s a w s' a' ->
  size (threads s') = size (threads s).
Proof.
  intros [_ Et _ _]. apply (f_equal dom), (f_equal size) in Et. rewrite !dom_fmap_L in Et.
  assert (dom (ready_map r (threads s) w) = dom (threads s)) as Ed.
  { clear Et. induction w as [|t w IH] using rev_ind; [done|]. by rewrite ready_map_snoc, dom_alter_L. }
  by rewrite Ed, !size_dom in Et.
Qed.

Lemma all_readied_dom r s a w s' a' x : all_readied NPrios r s a w s' a' ->
  is_Some (threads s !! x) -> is_Some (threads s' !! x).
Proof.
  intros [_ Et _ _] Hx. assert (is_Some ((core <$> threads s') !! x)) as H.
  { rewrite Et, lookup_fmap, fmap_is_Some. clear Et.
    induction w as [|t w IH] using rev_ind; [done|]. rewrite ready_map_snoc, lookup_alter.
    case_decide; subst; by rewrite ?fmap_is_Some. }
  by rewrite lookup_fmap, fmap_is_Some in H.
Qed.

Lemma mark_all_ok key m w : forall ws, map_Forall (fun _ => waiter_ok) ws ->
  map_Forall (fun _ => waiter_ok) (mark_all key m ws w).
Proof.
  induction w as [|t w IH]; intros ws Hws; [done|]. cbn. apply IH.
  destruct (waits_on m t) as [a|]; [|done]. intros b v. rewrite lookup_alter.
  case_decide; [|by apply Hws]. intros (u & Hu & ->)%fmap_Some. by eapply fired_ok, Hws.
Qed.

Lemma mark_all_dom key m w a : forall ws, is_Some (ws !! a) -> is_Some (mark_all key m ws w !! a).
Proof.
  induction w as [|t w IH]; intros ws Hws; [done|]. cbn. apply IH.
  destruct (waits_on m t) as [b|]; [|done]. rewrite lookup_alter.
  case_decide; subst; by rewrite ?fmap_is_Some.
Qed.

(** Waking threads and marking multiwaiters keeps the invariant. *)
Lemma kernel_ok_readied k a r w s' a' key m w' :
  kernel_ok k a -> all_readied NPrios r (threads_of k) a w s' a' ->
  kernel_ok (with_waiters (mark_all key m (waiters k) w') (with_sched s' k)) a'.
Proof.
  intros Hk Har. pose proof Hk as [Hwf Hc Hm Hw Hn]. split; cbn.
  - apply Har.
  - intros c. assert (current s' = current (threads_of k)) as ->.
    { pose proof (ar_others _ _ _ _ _ _ _ Har) as Ho. by injection Ho. }
    intros Ec. by eapply all_readied_dom, Hc.
  - intros t. rewrite (ar_queues _ _ _ _ _ _ _ Har), run_joins, app_nil_r by tauto.
    intros [Ht Hnt]%elem_of_leave. destruct (Hm t Ht) as (th & Et & (x & v & Eu & Ex & Hv)).
    destruct (all_readied_lookup _ _ _ _ _ _ _ _ _ Har Hnt Et) as (th' & Et' & Ec).
    exists th'. split; [done|]. apply look_core in Ec. injection Ec as Ec _. rewrite Ec.
    destruct (mark_all_dom key m w' x (waiters k)) as [v' Ev]; [by exists v|].
    exists x, v'. splits; [done..|]. by eapply (mark_all_ok key m w' _ Hw).
  - by apply mark_all_ok.
  - by rewrite (all_readied_size _ _ _ _ _ _ Har).
Qed.

Lemma mark_all_ext key m m' ws w : (forall t, t ∈ w -> waits_on m t = waits_on m' t) ->
  mark_all key m ws w = mark_all key m' ws w.
Proof.
  revert ws. induction w as [|t w IH]; intros ws H; [done|]. cbn. rewrite (H t ltac:(set_solver)).
  apply IH. set_solver.
Qed.

(** The threads that [futex_wake] wakes, of the futex queue and of the multiwaiters' queue. *)
Definition futex_woken (k : kernel) (a : href -> list Z) (key count : Z) : list Z :=
  first count (waits (threads (threads_of k)) key) (a HFutex).
Definition multi_woken (k : kernel) (a : href -> list Z) (key count : Z) : list Z :=
  first (count - Z.of_nat (length (futex_woken k a key count)))
    (notified (waiters k) (threads (threads_of k)) key) (a HMulti).

Lemma queues_disjoint s a h h' x : wf NPrios s a -> h <> HWaiting -> h' <> HWaiting -> h <> h' ->
  x ∈ a h -> x ∉ a h'.
Proof.
  intros Hwf Hh Hh' Hne Hx Hx'. destruct (member _ _ _ _ Hwf Hx) as (th & Et & Hb).
  destruct (member _ _ _ _ Hwf Hx') as (th' & Et' & Hb'). assert (th' = th) as -> by congruence.
  destruct h, h'; cbn in Hb, Hb'; destruct_and?; congruence.
Qed.

(** The second walk, when the first left some to wake. *)
Lemma wake_multi_steps k a w1 s1 a1 key n : kernel_ok k a ->
  all_readied NPrios WakeFutex (threads_of k) a w1 s1 a1 -> (forall x, x ∈ w1 -> x ∈ a HFutex) ->
  let w2 := first n (notified (waiters k) (threads (threads_of k)) key) (a HMulti) in
  exists s2 a2, wake_waiters debug key n (waiters k) s1 =
      Ok (mark_all key (threads (threads_of k)) (waiters k) w2, Z.of_nat (length w2), s2) /\
    all_readied NPrios WakeFutex (threads_of k) a (w1 ++ w2) s2 a2.
Proof.
  intros Hk Har1 Hw1 w2. pose proof Hk as [Hwf Hc Hm Hw Hn].
  pose proof (queue_length k a HMulti Hk) as Hl.
  assert (forall x, x ∈ a HMulti -> x ∉ w1) as Hdis.
  { intros x Hx Hx'%Hw1. by eapply (queues_disjoint (threads_of k) a HFutex HMulti x Hwf). }
  assert (a1 HMulti = a HMulti) as Ea.
  { rewrite (ar_queues _ _ _ _ _ _ _ Har1), run_joins, app_nil_r by tauto. apply leave_id.
    intros x Hx Hx'. by apply (Hdis x). }
  assert (forall t, t ∈ a HMulti -> exists th th1, threads (threads_of k) !! t = Some th /\
    threads s1 !! t = Some th1 /\ look th1 = look th /\ waits_multi (waiters k) (waitingOn th))
    as Hsame.
  { intros t Ht. destruct (Hm t Ht) as (th & Et & Hu).
    destruct (all_readied_lookup _ _ _ _ _ _ _ _ _ Har1 (Hdis t Ht) Et) as (th1 & E1 & Ec).
    exists th, th1. splits; [done..|by apply look_core|done]. }
  assert (all_good good_multi (threads s1) (a1 HMulti) (waiters k, 0)) as Hg.
  { rewrite Ea. intros t Ht. destruct (Hsame t Ht) as (th & th1 & _ & E1 & El & Hu).
    exists th1. rewrite El. by split. }
  assert (forall t, t ∈ a HMulti -> waits_on (threads s1) t = waits_on (threads (threads_of k)) t)
    as Hon.
  { intros t Ht. destruct (Hsame t Ht) as (th & th1 & Et & E1 & El & _). unfold waits_on, multiWaiter.
    rewrite Et, E1. injection El as -> _. done. }
  destruct (walk_readies NPrios HNP WakeMultiWaiter HMulti ltac:(by right)
    (wake_waiters_visit debug key) (fun acc => n <=? snd acc) (pick_multi key) good_multi
    (pick_multi_visits NPrios HNP debug key) (pick_multi_stays key) s1 a1 (waiters k, 0))
    as (s2 & a2 & E2 & Har2); [apply Har1|done|].
  rewrite Ea in E2, Har2. rewrite Ea in Hg.
  assert (first (n - 0) (notified (waiters k) (threads s1) key) (a HMulti) = w2) as Ew.
  { rewrite Z.sub_0_r. unfold w2, first. f_equal. apply filter_ext_in. intros x Hx.
    unfold notified. by rewrite Hon. }
  rewrite (scan_multi n key _ _ (waiters k) 0 Hg) in E2, Har2 by lia.
  cbn [fst snd] in E2, Har2. rewrite Ew in E2, Har2.
  exists s2, a2. split.
  - unfold wake_waiters. rewrite E2. f_equal. f_equal. f_equal.
    apply mark_all_ext. intros t [Ht _]%first_elem. by apply Hon.
  - assert (all_readied NPrios WakeFutex s1 a1 w2 s2 a2) as Har2' by (destruct Har2; by split).
    eapply all_readied_trans; [exact Har1|exact Har2'| |].
    + intros x [Hx _]%first_elem. by apply Hdis.
    + intros x [Hx _]%first_elem. destruct (Hsame x Hx) as (th & _ & Et & _). by exists th.
Qed.

Lemma wake_futex_steps k a key count : kernel_ok k a -> count in_u 32 ->
  let w1 := futex_woken k a key count in
  let w2 := multi_woken k a key count in
  exists k' a', wake_futex debug k key count =
      Ok (existsb (inherits (threads (threads_of k))) w1,
          Z.of_nat (length w1) + Z.of_nat (length w2), k') /\
    all_readied NPrios WakeFutex (threads_of k) a (w1 ++ w2) (threads_of k') a' /\
    waiters k' = mark_all key (threads (threads_of k)) (waiters k) w2 /\
    timer_cmp k' = timer_cmp k /\ futexWords k' = futexWords k /\ completed k' = completed k /\
    kernel_ok k' a'.
Proof.
  intros Hk Hcount w1 w2. pose proof Hk as [Hwf Hc Hm Hw Hn].
  pose proof (queue_length k a HFutex Hk) as Hl1. pose proof (queue_length k a HMulti Hk) as Hl2.
  unfold wake_futex, walk_waiters.
  destruct (walk_readies NPrios HNP WakeFutex HFutex ltac:(by left) (futex_wake_visit debug key)
    (fun x => left x =? 0) (pick_wake key) (fun _ _ => True) (pick_wake_visits key) ltac:(done)
    (threads_of k) a (mkWake count 0 false) Hwf) as (s1 & a1 & E1 & Har1).
  { intros t Ht. destruct (member _ _ _ _ Hwf Ht) as (th & Et & _). by exists th. }
  assert (scan (fun x => Futex.left x =? 0) (pick_wake key) (threads (threads_of k)) (a HFutex)
    (mkWake count 0 false) = (w1, mkWake (count - Z.of_nat (length w1)) (Z.of_nat (length w1))
      (existsb (inherits (threads (threads_of k))) w1))) as Es.
  { apply scan_wake; cbn [Futex.left woke]; [|lia..].
    intros t Ht. destruct (member _ _ _ _ Hwf Ht) as (th & Et & _). by exists th. }
  rewrite Es in E1, Har1. cbn [fst snd] in E1, Har1.
  run E1. cbn [Futex.left woke shouldRecalculate orb] in *.
  assert (0 <= Z.of_nat (length w1) <= count /\ (length w1 <= length (a HFutex))%nat) as [Hw1 Hw1'].
  { apply first_length. lia. }
  destruct (Z.ltb_spec 0 (count - Z.of_nat (length w1))) as [Hleft|Hleft].
  - assert (forall x, x ∈ w1 -> x ∈ a HFutex) as Hin by (by intros x [Hx _]%first_elem).
    destruct (wake_multi_steps k a w1 s1 a1 key (count - Z.of_nat (length w1)) Hk Har1 Hin)
      as (s2 & a2 & E2 & Har2). cbn [with_sched threads_of waiters].
    assert (first (count - Z.of_nat (length w1)) (notified (waiters k) (threads (threads_of k)) key)
      (a HMulti) = w2) as Ew by done. rewrite Ew in E2, Har2. run E2.
    exists (with_waiters (mark_all key (threads (threads_of k)) (waiters k) w2)
      (with_sched s2 k)), a2. splits; [|done..|].
    + do 3 f_equal. apply s32_small.
      destruct (first_length (notified (waiters k) (threads (threads_of k)) key)
        (count - Z.of_nat (length w1)) (a HMulti) ltac:(lia)) as [_ Hw2]. rewrite Ew in Hw2.
      clear - Hl1 Hl2 Hw1' Hw2. lia.
    + by eapply kernel_ok_readied.
  - assert (w2 = []) as -> by (apply first_none; fold w1; lia).
    exists (with_sched s1 k), a1. rewrite app_nil_r, Z.add_0_r.
    splits; [done..|]. by apply (kernel_ok_readied k a WakeFutex w1 s1 a1 0 ∅ []).
Qed.
End Kernel.
