(* ===== verification/FutexSpec.v ===== *)
(** * Writes of what a thread waits for

    The futex calls write the futex fields of threads in the futex queue and of the running
    thread.  No queue depends on those fields: the scheduler's invariant is kept with the same
    queues ([wf_relabel]).  The walks of the priority-inheritance helpers read ([boost_of]) or
    write ([relabel_all]) the threads of the futex queue. *)

From S2P Require Import Prelude LinkedList Capability Thread ThreadQueues ThreadInv ThreadOps ThreadSchedule Scheduler Timer Timeouts MultiWaiter Futex Walks WakeSpec.

(** [th'] is [th] but for what it waits for. *)
Definition relabel (th th' : Thread) : Prop := th' = set_waitingOn (waitingOn th') th.

Definition relabels (m m' : gmap Z Thread) : Prop :=
  forall t, match m !! t, m' !! t with
            | Some th, Some th' => relabel th th' | None, None => True | _, _ => False end.

Lemma relabel_refl th : relabel th th.
Proof. by destruct th. Qed.

Lemma relabel_trans th1 th2 th3 : relabel th1 th2 -> relabel th2 th3 -> relabel th1 th3.
Proof. unfold relabel. intros -> E. rewrite E. by destruct th1. Qed.

Lemma relabels_refl m : relabels m m.
Proof. intros t. destruct (m !! t); [apply relabel_refl|done]. Qed.

Lemma relabels_trans m1 m2 m3 : relabels m1 m2 -> relabels m2 m3 -> relabels m1 m3.
Proof.
  intros H1 H2 t. specialize (H1 t). specialize (H2 t).
  destruct (m1 !! t), (m2 !! t), (m3 !! t); try done. by eapply relabel_trans.
Qed.

Lemma relabels_lookup m m' t th : relabels m m' -> m !! t = Some th ->
  exists u, m' !! t = Some (set_waitingOn u th).
Proof.
  intros H Et. specialize (H t). rewrite Et in H. destruct (m' !! t) as [th'|]; [|done].
  exists (waitingOn th'). by f_equal.
Qed.

Lemma relabels_back m m' t th' : relabels m m' -> m' !! t = Some th' ->
  exists th, m !! t = Some th /\ th' = set_waitingOn (waitingOn th') th.
Proof.
  intros H Et. specialize (H t). rewrite Et in H. destruct (m !! t) as [th|]; [|done]. by exists th.
Qed.

Lemma relabels_alter f m t : (forall th, relabel th (f th)) -> relabels m (alter f t m).
Proof.
  intros Hf x. rewrite lookup_alter. destruct (decide (t = x)) as [<-|].
  - destruct (m !! t); [apply Hf|done].
  - destruct (m !! x); [apply relabel_refl|done].
Qed.

Lemma relabels_dom m m' : relabels m m' -> dom m' = dom m.
Proof.
  intros H. apply set_eq. intros t. rewrite !elem_of_dom. specialize (H t).
  destruct (m !! t), (m' !! t); try done; split; eauto using mk_is_Some. all: by intros [? ?].
Qed.

Lemma wf_relabel NPrios s a m' : wf NPrios s a -> relabels (threads s) m' ->
  wf NPrios (with_threads m' s) a.
Proof.
  intros [Hq [Fm Fo Ft] Hm] Hr. split; [| |done].
  - intros h. destruct (Hq h) as [Hh Hring]. split; [by destruct h|].
    destruct Hring as [?|Hring]; [by left|right]. eapply ring_frame; [exact Hring|].
    intros q _. cbn. specialize (Hr q).
    destruct (threads s !! q) as [th|], (m' !! q) as [th'|]; try done. cbn. rewrite Hr.
    by destruct h.
  - split.
    + intros h t. rewrite Fm. split; intros (th & Et & Hb).
      * destruct (relabels_lookup _ _ _ _ Hr Et) as [u E]. exists (set_waitingOn u th).
        split; [done|]. by destruct h.
      * destruct (relabels_back _ _ _ _ Hr Et) as (th0 & E0 & E). exists th0. split; [done|].
        rewrite E in Hb. by destruct h.
    + intros h. eapply sorted_mono; [|apply Fo]. intros x y _ _ Hb tx ty Ex Ey.
      destruct (relabels_back _ _ _ _ Hr Ex) as (tx0 & Ex0 & ->).
      destruct (relabels_back _ _ _ _ Hr Ey) as (ty0 & Ey0 & ->).
      specialize (Hb tx0 ty0 Ex0 Ey0). by destruct h.
    + intros t th Et. destruct (relabels_back _ _ _ _ Hr Et) as (th0 & E0 & ->). by apply (Ft t th0).
Qed.

(** ** Reading the waiters *)

(** The largest of [prio] and of the priorities of the threads of [l] that boost thread [id]. *)
Definition boost_of (m : gmap Z Thread) (l : list Z) (id prio : Z) : Z :=
  foldl (fun p t => match m !! t with
    | Some th => if futexPriorityInheriting (waitingOn th) &&
                    (futexPriorityBoostedThread (waitingOn th) =? id)
                 then Z.max p (priority th) else p
    | None => p end) prio l.

Definition pick_boost (id : Z) (p : Z) (u : seen) : bool * Z :=
  (false, if futexPriorityInheriting (fst u) && (futexPriorityBoostedThread (fst u) =? id)
          then Z.max p (snd u) else p).

Lemma scan_boost m id l : forall p, (forall t, t ∈ l -> is_Some (m !! t)) ->
  snd (scan (fun _ => false) (pick_boost id) m l p) = boost_of m l id p.
Proof.
  induction l as [|t l IH]; intros p Hm; [done|]. cbn [scan boost_of foldl].
  destruct (Hm t) as [th Et]; [set_solver|]. rewrite Et. unfold pick_boost at 1. cbn [fst snd look].
  set (p' := if _ && _ then _ else _). specialize (IH p' ltac:(set_solver)).
  unfold boost_of in IH. rewrite <- IH. by destruct (scan _ _ _ _ _).
Qed.

Lemma boost_for_thread_ok NPrios (HNP : NPrios <= 32) s a id prio : wf NPrios s a ->
  priority_boost_for_thread s id prio = Ok (boost_of (threads s) (a HFutex) id prio).
Proof.
  intros Hwf. unfold priority_boost_for_thread, walk_waiters.
  destruct (walk_readies NPrios HNP WakeFutex HFutex ltac:(by left)
    (fun prio s t => th ← get s t;
      Ok (if futexPriorityInheriting (waitingOn th) &&
             (futexPriorityBoostedThread (waitingOn th) =? id)
          then Z.max prio (priority th) else prio, s))
    (fun _ => false) (pick_boost id) (fun _ _ => True)) with (s := s) (a := a) (acc := prio)
    as (s' & a' & E & _); [|done|done| |].
  - apply (picks_ready NPrios HNP false). intros acc s1 t th Et _. by run (get_ok _ _ _ Et).
  - intros t Ht. destruct (member _ _ _ _ _ Hwf Ht) as (th & Et & _). by exists th.
  - rewrite E, ok_bind, scan_boost; [done|]. intros t Ht.
    destruct (member _ _ _ _ _ Hwf Ht) as (th & Et & _). by exists th.
Qed.

(** ** Writing the waiters *)

Definition relabel_all (g : Thread -> Thread) (m : gmap Z Thread) (l : list Z) : gmap Z Thread :=
  foldl (fun m t => alter g t m) m l.

Lemma relabel_all_snoc g m l t : relabel_all g m (l ++ [t]) = alter g t (relabel_all g m l).
Proof. unfold relabel_all. by rewrite foldl_app. Qed.

Lemma relabel_all_relabels g m l : (forall th, relabel th (g th)) -> relabels m (relabel_all g m l).
Proof.
  intros Hg. induction l as [|t l IH] using rev_ind; [apply relabels_refl|].
  rewrite relabel_all_snoc. eapply relabels_trans; [exact IH|]. by apply relabels_alter.
Qed.

Lemma relabel_all_lookup g m l t : NoDup l ->
  relabel_all g m l !! t = if decide (t ∈ l) then g <$> m !! t else m !! t.
Proof.
  induction l as [|x l IH] using rev_ind; intros Hnd.
  { by rewrite decide_False by apply not_elem_of_nil. }
  apply NoDup_app in Hnd as (Hnd & Hx & _). rewrite relabel_all_snoc, lookup_alter.
  assert (t ∈ l ++ [x] <-> t ∈ l \/ x = t) as Hin by set_solver.
  assert (x = t -> t ∉ l) as Hnx by set_solver.
  destruct (decide (x = t)) as [->|]; rewrite IH by done;
    destruct (decide (t ∈ l)), (decide (t ∈ l ++ _)); try done; exfalso; tauto.
Qed.

(** A visitor that replaces the record [th] of the thread by [g th]. *)
Definition rewrites (visitor : unit -> sched -> Z -> outcome (unit * sched)) (g : Thread -> Thread)
    : Prop :=
  (forall th, relabel th (g th)) /\
  forall s t th, threads s !! t = Some th ->
    visitor tt s t = Ok (tt, with_threads (alter g t (threads s)) s).

Lemma with_threads_again m m' s : with_threads m (with_threads m' s) = with_threads m s.
Proof. done. Qed.

Lemma walk_relabels NPrios visitor g s a : wf NPrios s a -> rewrites visitor g ->
  walk_waiters visitor (fun _ => false) tt s =
    Ok (tt, with_threads (relabel_all g (threads s) (a HFutex)) s).
Proof.
  intros Hwf [Hg Hv]. unfold walk_waiters.
  set (P := fun (r : list Z) (_ : unit) s1 => exists d, a HFutex = d ++ r /\
    s1 = with_threads (relabel_all g (threads s) d) s).
  assert (safe_visitor HFutex visitor (fun _ => false) P) as Hsafe.
  { intros k x r [] s1 (d & Ed & ->) Hq _.
    destruct (member NPrios s a HFutex x Hwf) as (th & Et & _); [rewrite Ed; set_solver|].
    destruct (relabels_lookup _ _ _ _ (relabel_all_relabels g (threads s) d Hg) Et) as [u E].
    exists tt, (with_threads (relabel_all g (threads s) (d ++ [x])) s), (d ++ [x]).
    split; [rewrite relabel_all_snoc; exact (Hv (with_threads _ s) x _ E)|]. split.
    - exists (d ++ [x]). by rewrite <- app_assoc.
    - rewrite <- app_assoc. cbn [app]. rewrite <- Ed.
      apply (sleep_queue NPrios HFutex ltac:(by left)), wf_relabel; [done|].
      by apply relabel_all_relabels. }
  assert (with_threads (threads s) s = s) as Es by by destruct s.
  pose proof (sleep_queue NPrios HFutex ltac:(by left) s a Hwf) as Hq. pose proof Hq as [Hh Hr].
  rewrite Hh. destruct (a HFutex) as [|x r] eqn:Ea; [by rewrite <- Es at 2|].
  destruct (walk_from HFutex visitor (fun _ => false) P Hsafe r (S (size (threads s))) [] x tt s)
    as ([] & s' & r' & E & (d & Ed & ->) & Hend & _).
  { exists []. split; [done|exact (eq_sym Es)]. }
  { done. }
  { destruct Hr as [?|Hr]; [done|]. pose proof (tring_length run_links _ _ Hr) as Hl. cbn in Hl. lia. }
  destruct Hend as [?| ->]; [done|]. rewrite app_nil_r in Ed. by subst d.
Qed.

Definition update_boost (key id : Z) (th : Thread) : Thread :=
  if futexPriorityInheriting (waitingOn th) && (futexWaitAddress (waitingOn th) =? key)
  then set_futexPriorityBoostedThread id th else th.
Definition reset_boost (key id : Z) (th : Thread) : Thread :=
  if futexPriorityInheriting (waitingOn th) && (futexWaitAddress (waitingOn th) =? key)
     && (futexPriorityBoostedThread (waitingOn th) =? id)
  then set_futexPriorityBoostedThread FutexBoostNotThread th else th.

Lemma relabel_waiting u th : relabel th (set_waitingOn u th).
Proof. done. Qed.

Lemma alter_same g t (m : gmap Z Thread) th : m !! t = Some th -> g th = th -> alter g t m = m.
Proof.
  intros Et E. apply map_eq. intros x. rewrite lookup_alter. case_decide; [subst|done].
  rewrite Et. cbn. by rewrite E.
Qed.

Lemma alter_insert g t (m : gmap Z Thread) th : m !! t = Some th -> alter g t m = <[t := g th]> m.
Proof.
  intros Et. apply map_eq. intros x. rewrite lookup_alter, lookup_insert.
  case_decide; [subst; by rewrite Et|done].
Qed.

(** The two writing helpers rewrite the threads of the futex queue. *)
Lemma boost_update_ok NPrios s a key id : wf NPrios s a ->
  priority_boost_update s key id =
    Ok (with_threads (relabel_all (update_boost key id) (threads s) (a HFutex)) s).
Proof.
  intros Hwf. unfold priority_boost_update.
  rewrite (walk_relabels NPrios _ (update_boost key id) s a Hwf); [done|]. split.
  - intros th. unfold update_boost. destruct (_ && _); [done|apply relabel_refl].
  - intros s1 t th Et. run (get_ok _ _ _ Et).
    destruct (_ && _) eqn:E; [unfold upd; run (get_ok _ _ _ Et)|].
    + rewrite ok_bind, (alter_insert _ _ _ _ Et). unfold update_boost. by rewrite E.
    + rewrite (alter_same _ _ _ _ Et) by (unfold update_boost; by rewrite E). by destruct s1.
Qed.

Lemma boost_reset_ok NPrios s a key id : wf NPrios s a ->
  priority_boost_reset s key id =
    Ok (with_threads (relabel_all (reset_boost key id) (threads s) (a HFutex)) s).
Proof.
  intros Hwf. unfold priority_boost_reset.
  rewrite (walk_relabels NPrios _ (reset_boost key id) s a Hwf); [done|]. split.
  - intros th. unfold reset_boost. destruct (_ && _); [done|apply relabel_refl].
  - intros s1 t th Et. run (get_ok _ _ _ Et).
    destruct (_ && _) eqn:E; [unfold upd; run (get_ok _ _ _ Et)|].
    + rewrite ok_bind, (alter_insert _ _ _ _ Et). unfold reset_boost. by rewrite E.
    + rewrite (alter_same _ _ _ _ Et) by (unfold reset_boost; by rewrite E). by destruct s1.
Qed.

(** * What the futex calls promise

    Every branch of [futex_timed_wait], its return, and [futex_wake], from any state of the
    kernel that satisfies [kernel_ok]. *)

Lemma upd_get s t th f : threads s !! t = Some th ->
  upd s t f = Ok (with_threads (<[t := f th]> (threads s)) s).
Proof. intros Et. unfold upd. by run (get_ok _ _ _ Et). Qed.

Lemma relabels_insert m t th u : m !! t = Some th -> relabels m (<[t := set_waitingOn u th]> m).
Proof.
  intros Et x. destruct (decide (t = x)) as [<-|].
  - by rewrite Et, lookup_insert_eq.
  - rewrite lookup_insert_ne by done. destruct (m !! x); [apply relabel_refl|done].
Qed.

Section Calls.
Context (NPrios : Z) (HNP : NPrios <= 32) (debug : bool) (hz rate : Z).
Context (heap_start heap_end CONFIG_THREADS_NUM threadSpaces sizeof_Thread : Z).

(** The numbers of the threads never change; the array [threadSpaces] holds the threads,
    numbered from 1. *)
Definition ids (s : sched) : gmap Z Z := threadId <$> threads s.

Definition created (s : sched) : Prop := forall id o, 0 <= id ->
  get_thread CONFIG_THREADS_NUM threadSpaces sizeof_Thread id = Some o -> ids s !! o = Some id.

Lemma ids_lookup s t th : threads s !! t = Some th -> ids s !! t = Some (threadId th).
Proof. intros Et. unfold ids. by rewrite lookup_fmap, Et. Qed.

Lemma created_thread s id o : created s -> 0 <= id ->
  get_thread CONFIG_THREADS_NUM threadSpaces sizeof_Thread id = Some o ->
  exists th, threads s !! o = Some th /\ threadId th = id.
Proof.
  intros Hc Hid Hg. specialize (Hc id o Hid Hg). unfold ids in Hc. rewrite lookup_fmap in Hc.
  apply fmap_Some in Hc as (th & Et & ->). by exists th.
Qed.

Lemma ids_core s (m : gmap Z Thread) : core <$> threads s = core <$> m -> ids s = threadId <$> m.
Proof.
  intros E. unfold ids. apply map_eq. intros x.
  assert ((core <$> threads s) !! x = (core <$> m) !! x) as Ex by by rewrite E.
  rewrite !lookup_fmap in Ex. rewrite !lookup_fmap. destruct (threads s !! x), (m !! x); try done.
  apply (inj Some) in Ex. apply (f_equal Some).
  apply (proj1 (proj2 (proj2 (proj2 (proj2 (core_fields _ _ Ex)))))).
Qed.

Lemma ids_insert (m : gmap Z Thread) t th0 th : m !! t = Some th0 -> threadId th = threadId th0 ->
  threadId <$> <[t := th]> m = threadId <$> m.
Proof. intros Et E. by rewrite fmap_insert, E, <- fmap_insert, insert_id. Qed.

Lemma ids_relabels s (m : gmap Z Thread) : relabels (threads s) m -> threadId <$> m = ids s.
Proof.
  intros H. unfold ids. apply map_eq. intros x. rewrite !lookup_fmap. specialize (H x).
  destruct (threads s !! x), (m !! x) as [th'|]; try done. cbn. f_equal. by rewrite H.
Qed.

Lemma ids_stepped s a t th0 th s' a' : stepped NPrios s a t th s' a' -> threads s !! t = Some th0 ->
  threadId th = threadId th0 -> ids s' = ids s.
Proof. intros (_ & _ & Ec & _) Et E. rewrite (ids_core _ _ Ec). by apply (ids_insert _ _ th0). Qed.

Lemma ids_readied r s a w s' a' : all_readied NPrios r s a w s' a' -> ids s' = ids s.
Proof.
  intros [_ Et _ _]. rewrite (ids_core _ _ Et). clear Et. unfold ids.
  induction w as [|t w IH] using rev_ind; [done|]. rewrite ready_map_snoc, <- IH.
  apply map_eq. intros x. rewrite !lookup_fmap, lookup_alter. case_decide; [subst|done].
  destruct (_ !! x) as [th|]; [|done]. cbn. f_equal. unfold readied. by destruct (_ || _).
Qed.

Lemma kernel_ok_relabel k a m' : kernel_ok NPrios k a -> relabels (threads (threads_of k)) m' ->
  (forall t, t ∈ a HMulti -> m' !! t = threads (threads_of k) !! t) ->
  kernel_ok NPrios (with_sched (with_threads m' (threads_of k)) k) a.
Proof.
  intros [Hwf Hc Hm Hw Hn] Hr Hmulti. split; cbn.
  - by apply wf_relabel.
  - intros c Ec. destruct (Hc c Ec) as [th Et]. by destruct (relabels_lookup _ _ _ _ Hr Et) as [u ?]; eauto.
  - intros t Ht. rewrite Hmulti by done. by apply Hm.
  - done.
  - by rewrite <- size_dom, (relabels_dom _ _ Hr), size_dom.
Qed.

(** An operation on one thread that does not sleep on a multiwaiter. *)
Lemma kernel_ok_stepped k a t th s' a' : kernel_ok NPrios k a -> is_Some (threads (threads_of k) !! t) ->
  stepped NPrios (threads_of k) a t th s' a' ->
  (belongs HMulti th -> waits_multi (waiters k) (waitingOn th)) ->
  kernel_ok NPrios (with_sched s' k) a'.
Proof.
  intros [Hwf Hc Hm Hw Hn] Ht Hs Hb. pose proof Hs as (Hw' & Hrq & Ec & Ho). split; cbn; [done| | |done|].
  - apply (stepped_inv NPrios (threads_of k) a t th s' a'); [|done]. split; [by exists a|done].
  - intros x Hx. destruct (member _ _ _ _ _ Hw' Hx) as (tx & Ex & Hbx). exists tx. split; [done|].
    assert ((core <$> threads s') !! x = (core <$> <[t := th]> (threads (threads_of k))) !! x) as E
      by by rewrite Ec.
    rewrite !lookup_fmap, Ex in E. cbn in E. destruct (decide (t = x)) as [<-|Hne].
    + rewrite lookup_insert_eq in E. apply (inj Some) in E.
      rewrite (proj1 (proj2 (proj2 (core_fields _ _ E)))). apply Hb. by apply (belongs_core _ _ _ E).
    + rewrite lookup_insert_ne in E by done.
      specialize (Hrq HMulti). assert (x ∈ rem t (a HMulti)) as Hx'.
      { destruct (decide (belongs HMulti th)); [|by rewrite <- Hrq].
        destruct Hrq as (l1 & l2 & E12 & Ea & _). rewrite Ea in Hx. rewrite E12. set_solver. }
      apply elem_of_rem in Hx' as [Hx' _]. destruct (Hm x Hx') as (tx0 & Ex0 & Hu).
      rewrite Ex0 in E. apply (inj Some) in E.
      by rewrite (proj1 (proj2 (proj2 (core_fields _ _ E)))).
  - apply (f_equal dom) in Ec. rewrite !dom_fmap_L in Ec. rewrite <- size_dom, Ec.
    destruct Ht as [t0 Et0]. rewrite dom_insert_lookup_L by by exists t0. by rewrite size_dom.
Qed.

(** ** The boost *)

Lemma boost_of_ge m l id : forall p, p <= boost_of m l id p.
Proof.
  induction l as [|t l IH]; intros p; [cbn; lia|]. cbn. etransitivity; [|apply IH].
  destruct (m !! t); [|lia]. destruct (_ && _); lia.
Qed.

Lemma boost_of_covers m l id t th : forall p, t ∈ l -> m !! t = Some th ->
  futexPriorityInheriting (waitingOn th) = true -> futexPriorityBoostedThread (waitingOn th) = id ->
  priority th <= boost_of m l id p.
Proof.
  induction l as [|x l IH]; intros p Ht Et Hi Hb; [by apply not_elem_of_nil in Ht|]. cbn.
  apply elem_of_cons in Ht as [<-|Ht]; [|by apply IH].
  rewrite Et, Hi, Hb, Z.eqb_refl. cbn. etransitivity; [|apply boost_of_ge]. lia.
Qed.

(** The boost is the bound given, or the priority of a thread that boosts. *)
Lemma boost_of_attained m l id : forall p, boost_of m l id p = p \/
  exists t th, t ∈ l /\ m !! t = Some th /\ futexPriorityInheriting (waitingOn th) = true /\
    futexPriorityBoostedThread (waitingOn th) = id /\ boost_of m l id p = priority th.
Proof.
  induction l as [|x l IH]; intros p; [by left|]. cbn. case_match eqn:Ex.
  2: { destruct (IH p) as [?|(t & th & Ht & ?)]; [by left|right]. exists t, th. split; [by right|done]. }
  destruct (_ && _) eqn:Eb.
  2: { destruct (IH p) as [?|(y & th & Ht & ?)]; [by left|right]. exists y, th. split; [by right|done]. }
  apply andb_true_iff in Eb as [E1 E2%Z.eqb_eq].
  destruct (IH (Z.max p (priority t))) as [E|(y & th & Ht & ?)].
  - destruct (Z.max_spec p (priority t)) as [[_ Em]|[_ Em]]; rewrite Em in E; rewrite ?Em.
    + right. exists x, t. splits; [by left|done..].
    + by left.
  - right. exists y, th. split; [by right|done].
Qed.

Lemma boost_of_ext m m' l id p : (forall t, t ∈ l -> m !! t = m' !! t) -> boost_of m l id p = boost_of m' l id p.
Proof.
  revert p. induction l as [|x l IH]; intros p H; [done|]. cbn. rewrite (H x) by by left.
  apply IH. intros t Ht. apply H. by right.
Qed.

Lemma boost_of_lt m l id n : (forall t th, m !! t = Some th -> priority th < n) ->
  forall p, p < n -> boost_of m l id p < n.
Proof.
  intros Hm. induction l as [|t l IH]; intros p Hp; [done|]. cbn. apply IH.
  destruct (m !! t) eqn:Et; [|done]. specialize (Hm _ _ Et). destruct (_ && _); lia.
Qed.

Lemma priority_lt s a t th : wf NPrios s a -> threads s !! t = Some th -> priority th < NPrios.
Proof. intros Hwf Et. by destruct (f_threads _ _ _ (wf_fields _ _ _ Hwf) t th Et) as (_ & ? & _). Qed.

(** The scheduler follows the boost of the thread [o] to [p]: if the thread is ready, it is not
    raised above the highest ready priority, or no other ready thread has the priority that it
    leaves. *)
Definition followed (s : sched) (o p : Z) : Prop :=
  forall th, threads s !! o = Some th -> state th = Ready ->
    Z.max p (OriginalPriority th) <= highestPriority s \/
    forall t tt, t <> o -> threads s !! t = Some tt -> state tt = Ready -> priority tt <> priority th.

(** Writing what threads wait for does not matter. *)
Lemma followed_relabel s m' o p : relabels (threads s) m' -> followed s o p -> followed (with_threads m' s) o p.
Proof.
  intros Hr Hf th' Eo' Hst'. destruct (relabels_back _ _ _ _ Hr Eo') as (th & Eo & E). cbn in Eo'.
  assert (state th = Ready) as Hst by (rewrite <- Hst', E; done).
  assert (priority th' = priority th /\ OriginalPriority th' = OriginalPriority th) as [-> ->] by by rewrite E.
  destruct (Hf th Eo Hst) as [?|Hno]; [by left|right]. intros t tt' Hne Et' Htt'.
  destruct (relabels_back _ _ _ _ Hr Et') as (tt & Ett & E'). rewrite E'. apply (Hno t tt Hne Ett).
  by rewrite <- Htt', E'.
Qed.

Lemma followed_max s o th p : threads s !! o = Some th ->
  followed s o (Z.max p (OriginalPriority th)) -> followed s o p.
Proof.
  intros Eo Hf th' Eo' Hst. assert (th' = th) as -> by congruence.
  destruct (Hf th Eo Hst) as [?|?]; [left; lia|by right].
Qed.

Lemma followed_follows s a o th p : wf NPrios s a -> threads s !! o = Some th -> followed s o p ->
  state th = Ready -> follows s a o th (Z.max p (OriginalPriority th)).
Proof.
  intros Hwf Eo Hf Hst. destruct (Hf th Eo Hst) as [?|Hno]; [by left|right].
  destruct (rem o (a (HPrio (priority th)))) as [|x l] eqn:El; [done|].
  assert (x ∈ rem o (a (HPrio (priority th)))) as [Hx Hne]%elem_of_rem by (rewrite El; left).
  destruct (member _ _ _ _ _ Hwf Hx) as (tx & Ex & Hs & Hp). by destruct (Hno x tx Hne Ex Hs).
Qed.

(** A boost in any case: only [highestPriority] may be left behind. *)
Lemma boost_ok_any s a o th p : wf NPrios s a -> threads s !! o = Some th -> p < NPrios ->
  exists s' a', priority_boost debug s o p = Ok s' /\
    stepped NPrios s a o (boosted p th) (recomputed s') a' /\ (followed s o p -> recomputed s' = s').
Proof.
  intros Hwf Eo Hp. destruct (boost_any NPrios HNP debug s a o th p Hwf Eo) as (s' & a' & E & Hs & Hrc).
  - destruct (f_threads _ _ _ (wf_fields _ _ _ Hwf) o th Eo) as (? & ? & _). lia.
  - exists s', a'. splits; [done|done|]. intros Hf. apply Hrc. intros Hst. by apply (followed_follows _ _ _ _ _ Hwf Eo).
Qed.

Lemma boost_ok s a o th p : wf NPrios s a -> threads s !! o = Some th -> p < NPrios -> followed s o p ->
  exists s' a', priority_boost debug s o p = Ok s' /\ stepped NPrios s a o (boosted p th) s' a'.
Proof.
  intros Hwf Eo Hp Hf. destruct (boost_ok_any s a o th p Hwf Eo Hp) as (s' & a' & E & Hs & Hrc).
  exists s', a'. split; [done|]. by rewrite <- Hrc.
Qed.

(** ** Waiting *)

Section Wait.
Context (s : sched) (stack : Capability) (mem : Z -> Z) (now : Z) (timeout : TimeoutArgument)
  (addr : Capability) (expected flags : Z).

Definition accepted : Prop :=
  timeout_is_valid heap_start heap_end stack timeout = true /\
  check_pointer_for stack [Load] true addr default_space = true.

Notation call := (futex_timed_wait debug hz rate heap_start heap_end CONFIG_THREADS_NUM threadSpaces
  sizeof_Thread stack mem now timeout addr expected flags s).

Lemma wait_checks :
  (~ accepted -> call = Ok (Returned (- EINVAL), s)) /\
  (accepted -> ~ can_access addr 4 [Load] -> call = Err ETrap) /\
  (accepted -> can_access addr 4 [Load] -> mem (address addr) <> expected ->
     call = Ok (Returned 0, s)).
Proof.
  unfold accepted, futex_timed_wait, load_word.
  destruct (timeout_is_valid _ _ _ _), (check_pointer_for _ _ _ _ _); cbn [negb orb];
    splits; try (intros H; exfalso; naive_solver); try done; try (intros [? ?]; done).
  - intros _ Hn. by rewrite decide_False.
  - intros _ Ha Hne. rewrite decide_True by done. rewrite ok_bind.
    apply Z.eqb_neq in Hne. by rewrite Hne.
Qed.

(** The thread's record while it waits on [addr]. *)
Definition futex_waiting (pi : bool) (th : Thread) : Thread :=
  set_waitingOn (WFutex (address addr) (futexPriorityBoostedThread (waitingOn th)) pi) th.

Lemma stepped_relabel a c th u th' s' a' : threads s !! c = Some th ->
  stepped NPrios (with_threads (<[c := set_waitingOn u th]> (threads s)) s) a c th' s' a' ->
  stepped NPrios s a c th' s' a'.
Proof.
  intros Et (Hw & Hrq & Ec & Ho). split; [done|]. split; [|split; [|done]].
  - intros h. specialize (Hrq h). case_decide; [|done].
    destruct Hrq as (l1 & l2 & E1 & E2 & H1 & H2). exists l1, l2. splits; [done..| |].
    + intros x tx Hx Ex. apply (H1 x); [done|]. cbn. rewrite lookup_insert_ne; [done|].
      intros <-. assert (c ∈ rem c (a h)) as Hc by (rewrite E1; set_solver).
      by apply elem_of_rem in Hc as [_ ?].
    + intros x tx Hx Ex. apply (H2 x); [done|]. cbn. rewrite lookup_insert_ne; [done|].
      intros <-. assert (c ∈ rem c (a h)) as Hc by (rewrite E1; set_solver).
      by apply elem_of_rem in Hc as [_ ?].
  - rewrite Ec. cbn. by rewrite insert_insert_eq.
Qed.

Lemma wait_starts c th : accepted -> can_access addr 4 [Load] -> mem (address addr) = expected ->
  current s = Some c -> threads s !! c = Some th ->
  let pi := truth (Z.land flags FutexPriorityInheritance) in
  let s1 := with_threads (<[c := futex_waiting pi th]> (threads s)) s in
  call =
    ('(owner, s) ← (if pi then futex_boost_owner debug CONFIG_THREADS_NUM threadSpaces sizeof_Thread
                                 s1 c (address addr) expected else Ok (None, s1));
     if pi && bool_decide (owner = None) then Ok (Returned (- EINVAL), s)
     else
       '(yields, s) ← suspend_start debug hz rate s c now timeout (Some HFutex) false false;
       let f := mkFutexFrame c timeout (ticksSinceBoot s) owner in
       if yields : bool then Ok (Yielded f, s)
       else '(r, s) ← futex_wait_return debug f true (is_valid addr) s; Ok (Returned r, s)).
Proof.
  intros [Hv Hp] Ha Hm Ec Et pi s1. unfold futex_timed_wait, load_word.
  rewrite Hv, Hp, decide_True, ok_bind, Hm, Z.eqb_refl by done. cbn [negb orb].
  run (deref_ok _ _ Ec). run (upd_get s c th (set_futexWaitAddress (address addr)) Et).
  rewrite (upd_get _ c (set_futexWaitAddress (address addr) th)) by (cbn; by rewrite lookup_insert_eq).
  rewrite ok_bind, with_threads_again. cbn [threads with_threads]. rewrite insert_insert_eq. done.
Qed.

Lemma suspend_blocks s1 a1 c th : wf NPrios s1 a1 -> threads s1 !! c = Some th -> state th = Ready ->
  timeout_may_block now timeout = true ->
  exists s' a', suspend_start debug hz rate s1 c now timeout (Some HFutex) false false = Ok (true, s') /\
    stepped NPrios s1 a1 c (suspended (timeout_expiry hz rate now timeout) (Some HFutex) false th) s' a'.
Proof.
  intros Hwf Et Hst Hb. unfold suspend_start. rewrite Hb.
  destruct (suspend_steps NPrios HNP debug s1 a1 c th (timeout_expiry hz rate now timeout) (Some HFutex)
    false Hwf Et Hst) as (s' & a' & E & Hs); [by right; left|].
  exists s', a'. by run E.
Qed.

Lemma wait_parks a c th : wf NPrios s a -> current s = Some c -> threads s !! c = Some th ->
  state th = Ready -> accepted -> can_access addr 4 [Load] -> mem (address addr) = expected ->
  Z.land flags FutexPriorityInheritance = 0 -> timeout_may_block now timeout = true ->
  exists s' a', call = Ok (Yielded (mkFutexFrame c timeout (ticksSinceBoot s) None), s') /\
    stepped NPrios s a c (suspended (timeout_expiry hz rate now timeout) (Some HFutex) false
      (futex_waiting false th)) s' a'.
Proof.
  intros Hwf Ec Et Hst Hacc Ha Hm Hf Hb. rewrite (wait_starts c th) by done. rewrite Hf. cbn [truth Z.eqb negb].
  set (s1 := with_threads (<[c := futex_waiting false th]> (threads s)) s).
  assert (threads s1 !! c = Some (futex_waiting false th)) as E1 by (cbn; by rewrite lookup_insert_eq).
  destruct (suspend_blocks s1 a c (futex_waiting false th)) as (s' & a' & E & Hs); [|done|done|done|].
  { apply wf_relabel; [done|]. by apply relabels_insert. }
  exists s', a'. rewrite ok_bind. cbn [andb]. run E. split; [|by eapply stepped_relabel].
  destruct Hs as (_ & _ & _ & Ho). injection Ho as _ _ _ <-. done.
Qed.

(** The state in which the owner is boosted, and the priority it is given: that of the caller
    and of every thread that waits for this priority-inheriting futex. *)
Definition retargeted (a : href -> list Z) (c id : Z) (th : Thread) : sched :=
  with_threads (relabel_all (update_boost (address addr) id) (<[c := futex_waiting true th]> (threads s))
    (a HFutex)) s.
Definition owner_boost (a : href -> list Z) (c id : Z) (th : Thread) : Z :=
  boost_of (threads (retargeted a c id th)) (a HFutex) id (priority th).

Lemma retargeted_relabels a c id th : threads s !! c = Some th ->
  relabels (threads s) (threads (retargeted a c id th)).
Proof.
  intros Et. eapply relabels_trans; [by apply (relabels_insert _ c th)|].
  apply relabel_all_relabels. intros t. unfold update_boost. destruct (_ && _); [done|apply relabel_refl].
Qed.

Lemma owner_boosted a c th o : wf NPrios s a -> current s = Some c -> threads s !! c = Some th ->
  let id := u16 expected in
  get_thread CONFIG_THREADS_NUM threadSpaces sizeof_Thread id = Some o -> o <> c ->
  is_Some (threads s !! o) ->
  exists tho s2 a2,
    futex_boost_owner debug CONFIG_THREADS_NUM threadSpaces sizeof_Thread
      (with_threads (<[c := futex_waiting true th]> (threads s)) s) c (address addr) expected =
      Ok (Some (o, id), s2) /\
    threads (retargeted a c id th) !! o = Some tho /\
    stepped NPrios (retargeted a c id th) a o (boosted (owner_boost a c id th) tho) (recomputed s2) a2 /\
    (followed (retargeted a c id th) o (owner_boost a c id th) -> recomputed s2 = s2).
Proof.
  intros Hwf Ec Et id Hg Hne [tho0 Eo0]. unfold futex_boost_owner. fold id. rewrite Hg.
  rewrite bool_decide_eq_false_2 by done.
  set (s1 := with_threads (<[c := futex_waiting true th]> (threads s)) s).
  assert (wf NPrios s1 a) as Hwf1 by (apply wf_relabel; [done|by apply relabels_insert]).
  run (boost_update_ok NPrios s1 a (address addr) id Hwf1).
  change (with_threads (relabel_all _ (threads s1) (a HFutex)) s1) with (retargeted a c id th).
  pose proof (retargeted_relabels a c id th Et) as Hr.
  destruct (relabels_lookup _ _ _ _ Hr Et) as [u Eu].
  destruct (relabels_lookup _ _ _ _ Hr Eo0) as [uo Euo].
  assert (wf NPrios (retargeted a c id th) a) as Hwf2 by by apply wf_relabel.
  run (get_ok _ _ _ Eu). cbn [priority set_waitingOn].
  run (boost_for_thread_ok NPrios HNP (retargeted a c id th) a id (priority th) Hwf2).
  fold (owner_boost a c id th).
  destruct (boost_ok_any (retargeted a c id th) a o (set_waitingOn uo tho0) (owner_boost a c id th) Hwf2 Euo)
    as (s2 & a2 & E2 & Hs2 & Hrc).
  { apply boost_of_lt; [|exact (priority_lt s a c th Hwf Et)].
    intros t tt' E. exact (priority_lt _ a t tt' Hwf2 E). }
  exists (set_waitingOn uo tho0), s2, a2. by run E2.
Qed.

Lemma wait_refuses_owner c th : current s = Some c -> threads s !! c = Some th ->
  accepted -> can_access addr 4 [Load] -> mem (address addr) = expected ->
  truth (Z.land flags FutexPriorityInheritance) = true ->
  (let o := get_thread CONFIG_THREADS_NUM threadSpaces sizeof_Thread (u16 expected) in
   o = None \/ o = Some c) ->
  call = Ok (Returned (- EINVAL), with_threads (<[c := futex_waiting true th]> (threads s)) s).
Proof.
  intros Ec Et Hacc Ha Hm Hf Ho. rewrite (wait_starts c th) by done. rewrite Hf.
  unfold futex_boost_owner. cbv zeta in Ho. destruct Ho as [-> | ->]; [done|].
  by rewrite bool_decide_eq_true_2.
Qed.
End Wait.
End Calls.
