(* ===== verification/KernelEntry.v ===== *)
(** * Exceptions, sleeping and multiwaiters keep the kernel's invariant

    Each operation of [SchedulerEntry] from a state that satisfies [kernel_ok]: it does not
    fail, and it leads to such a state. *)

From S2P Require Import Prelude LinkedList Capability Thread ThreadQueues ThreadInv ThreadOps ThreadSchedule Scheduler Timer Timeouts MultiWaiter Futex SchedulerEntry Walks WakeSpec FutexSpec.

(** The fields of a thread that the kernel's invariant reads besides the scheduler's. *)
Definition sleeping (th : Thread) := (waitingOn th, state th, sleepQueue th, threadId th).

Definition same_sleepers (s s' : sched) : Prop :=
  forall t, sleeping <$> threads s' !! t = sleeping <$> threads s !! t.

Lemma same_sleepers_refl s : same_sleepers s s.
Proof. done. Qed.

Lemma same_sleepers_trans s1 s2 s3 : same_sleepers s1 s2 -> same_sleepers s2 s3 -> same_sleepers s1 s3.
Proof. intros H1 H2 t. by rewrite H2, H1. Qed.

Lemma upd_sleepers s t f s' : upd s t f = Ok s' -> (forall th, sleeping (f th) = sleeping th) ->
  same_sleepers s s' /\ current s' = current s.
Proof.
  unfold upd. intros E Hf. apply outcome_bind_ok in E as (th & Et & [= <-]). split; [|done].
  intros x. cbn. rewrite lookup_insert. case_decide as Ex; [subst|done].
  unfold get, deref in Et. destruct (threads s !! x); [|done]. injection Et as ->. cbn. by rewrite Hf.
Qed.

Lemma same_sleepers_lookup s s' t th' : same_sleepers s s' -> threads s' !! t = Some th' ->
  exists th, threads s !! t = Some th /\ sleeping th' = sleeping th.
Proof.
  intros H Et. specialize (H t). rewrite Et in H. destruct (threads s !! t) as [th|]; [|done].
  exists th. split; [done|]. by injection H as H1 H2 H3 H4; unfold sleeping; congruence.
Qed.

Lemma same_sleepers_dom s s' : same_sleepers s s' -> dom (threads s') = dom (threads s).
Proof.
  intros H. apply set_eq. intros t. rewrite !elem_of_dom, <- (fmap_is_Some sleeping), H.
  by rewrite fmap_is_Some.
Qed.

Lemma same_sleepers_ids s s' : same_sleepers s s' -> ids s' = ids s.
Proof.
  intros Hs. unfold ids. apply map_eq. intros x. rewrite !lookup_fmap. specialize (Hs x).
  destruct (threads s' !! x), (threads s !! x); try done.
  apply (inj Some) in Hs. injection Hs as _ _ _ Hs. apply (f_equal Some), Hs.
Qed.

(** ** Who sleeps on a multiwaiter *)

Definition sleeps_as (th : Thread) (x : Z) : Prop := belongs HMulti th /\ waitingOn th = WMulti (Some x).
Definition sleeps_on (s : sched) (t x : Z) : Prop := exists th, threads s !! t = Some th /\ sleeps_as th x.

(** Nobody has started to sleep on a multiwaiter, except for [u]. *)
Definition no_new_sleeper (u : option Z) (s s' : sched) : Prop :=
  forall t x, u <> Some x -> sleeps_on s' t x -> sleeps_on s t x.

Lemma no_new_refl u s : no_new_sleeper u s s.
Proof. by intros t x. Qed.

#[export] Hint Resolve no_new_refl : core.

Lemma no_new_trans u s1 s2 s3 : no_new_sleeper u s1 s2 -> no_new_sleeper u s2 s3 -> no_new_sleeper u s1 s3.
Proof. intros H1 H2 t x Hu Hs. by apply H1, H2. Qed.

Lemma no_new_weaken u s s' : no_new_sleeper None s s' -> no_new_sleeper u s s'.
Proof. intros H t x _. by apply H. Qed.

Lemma no_new_nobody u x s s' : no_new_sleeper u s s' -> u <> Some x -> (forall t, ~ sleeps_on s t x) ->
  forall t, ~ sleeps_on s' t x.
Proof. intros H Hu Hn t Hs. by apply (Hn t), H. Qed.

Lemma sleeps_as_core th th' x : core th = core th' -> sleeps_as th x -> sleeps_as th' x.
Proof.
  intros E [Hb Hw]. split; [by apply (belongs_core HMulti _ _ E)|].
  by rewrite <- (proj1 (proj2 (proj2 (core_fields _ _ E)))).
Qed.

(** When the threads are those of [m] up to their links, it is enough that whoever sleeps in [m]
    did so before. *)
Lemma no_new_core u s s' m : core <$> threads s' = core <$> m ->
  (forall t th x, u <> Some x -> m !! t = Some th -> sleeps_as th x -> sleeps_on s t x) -> no_new_sleeper u s s'.
Proof.
  intros E H t x Hu (th' & Et' & Hs). destruct (core_lookup _ _ _ _ (eq_sym E) Et') as (th & Et & Ec).
  apply (H t th x Hu Et). by eapply sleeps_as_core.
Qed.

Lemma no_new_insert u s s' t th : core <$> threads s' = core <$> <[t := th]> (threads s) ->
  (forall x, u <> Some x -> sleeps_as th x -> sleeps_on s t x) -> no_new_sleeper u s s'.
Proof.
  intros E H. apply (no_new_core u s s' _ E). intros x tx y Hy Ex Hs. rewrite lookup_insert in Ex.
  case_decide; [|by exists tx]. injection Ex as <-. subst x. by apply H.
Qed.

Lemma no_new_same u s s' : same_sleepers s s' -> no_new_sleeper u s s'.
Proof.
  intros Hs t x _ (th' & Et' & Hb & Hw). destruct (same_sleepers_lookup _ _ _ _ Hs Et') as (th & Et & E).
  injection E as Ew Est Eq _. exists th. split; [done|]. cbn in Hb. unfold sleeps_as. cbn. by rewrite <- Ew, <- Est, <- Eq.
Qed.

Lemma ready_map_sleeps r w : forall m t th x, ready_map r m w !! t = Some th -> sleeps_as th x -> m !! t = Some th.
Proof.
  induction w as [|y w IH] using rev_ind; intros m t th x E Hs; [done|].
  rewrite ready_map_snoc, lookup_alter in E. case_decide; [|by eapply IH].
  apply fmap_Some in E as (th0 & _ & ->). destruct Hs as [[Hst _] _]. unfold readied in Hst. by destruct (_ || _).
Qed.

Section Kernel.
Context (NPrios : Z) (HNP : NPrios <= 32) (debug : bool) (hz rate : Z).

Lemma no_new_readied u r s a w s' a' : all_readied NPrios r s a w s' a' -> no_new_sleeper u s s'.
Proof.
  intros [_ Et _ _]. apply (no_new_core u s s' _ Et). intros t th x _ E Hs. exists th.
  split; [by eapply ready_map_sleeps|done].
Qed.

Lemma no_new_relabel u s a m' : wf NPrios s a -> relabels (threads s) m' ->
  (forall t, t ∈ a HMulti -> m' !! t = threads s !! t) -> no_new_sleeper u s (with_threads m' s).
Proof.
  intros Hwf Hr Hsame t x _ (th' & Et' & Hb & Hw). cbn in Et'.
  destruct (relabels_back _ _ _ _ Hr Et') as (th & Et & E). rewrite E in Hb.
  assert (t ∈ a HMulti) as Ht by (apply (f_members _ _ _ (wf_fields _ _ _ Hwf)); by exists th).
  rewrite (Hsame t Ht), Et in Et'. injection Et' as <-. by exists th.
Qed.

Lemma kernel_ok_same k a s' a' : kernel_ok NPrios k a -> wf NPrios s' a' ->
  same_sleepers (threads_of k) s' ->
  (forall c, current s' = Some c -> is_Some (threads s' !! c)) ->
  kernel_ok NPrios (with_sched s' k) a'.
Proof.
  intros [Hwf Hc Hm Hw Hn] Hw' Hs Hc'. split; cbn; [done|done| |done|].
  - intros t Ht. destruct (member _ _ _ _ _ Hw' Ht) as (th' & Et' & Hb').
    destruct (same_sleepers_lookup _ _ _ _ Hs Et') as (th & Et & E). injection E as Eu Es Eq _.
    exists th'. split; [done|]. destruct (Hm t) as (th0 & E0 & Hu).
    { apply (f_members _ _ _ (wf_fields _ _ _ Hwf)). exists th. split; [done|].
      cbn in Hb' |- *. by rewrite <- Es, <- Eq. }
    rewrite Eu. by assert (th0 = th) as -> by congruence.
  - by rewrite <- size_dom, (same_sleepers_dom _ _ Hs), size_dom.
Qed.

(** One thread changed, and does not sleep on a multiwaiter that is not there. *)
Lemma kernel_ok_insert k a t th s' a' : kernel_ok NPrios k a -> wf NPrios s' a' ->
  is_Some (threads (threads_of k) !! t) ->
  core <$> threads s' = core <$> <[t := th]> (threads (threads_of k)) ->
  (forall c, current s' = Some c -> is_Some (threads s' !! c)) ->
  (belongs HMulti th -> waits_multi (waiters k) (waitingOn th)) ->
  kernel_ok NPrios (with_sched s' k) a'.
Proof.
  intros [Hwf Hc Hm Hw Hn] Hw' Ht Ec Hc' Hb. split; cbn; [done|done| |done|].
  - intros x Hx. destruct (member _ _ _ _ _ Hw' Hx) as (tx & Ex & Hbx). exists tx. split; [done|].
    destruct (core_lookup _ _ _ _ (eq_sym Ec) Ex) as (tx0 & Ex0 & E).
    rewrite <- (proj1 (proj2 (proj2 (core_fields _ _ E)))). apply (belongs_core HMulti _ _ E) in Hbx.
    destruct (decide (t = x)) as [<-|Hne].
    + rewrite lookup_insert_eq in Ex0. injection Ex0 as <-. by apply Hb.
    + rewrite lookup_insert_ne in Ex0 by done. destruct (Hm x) as (tx1 & Ex1 & Hu).
      { apply (f_members _ _ _ (wf_fields _ _ _ Hwf)). by exists tx0. }
      by assert (tx1 = tx0) as <- by congruence.
  - apply (f_equal dom) in Ec. rewrite !dom_fmap_L in Ec. rewrite <- size_dom, Ec.
    rewrite dom_insert_lookup_L by done. by rewrite size_dom.
Qed.

(** ** Exceptions *)

Lemma schedule_sleepers s tstack now stk s' : schedule debug s tstack now = Ok (stk, s') ->
  same_sleepers s s'.
Proof.
  unfold schedule. intros E. apply outcome_bind_ok in E as (s1 & E1 & E).
  assert (same_sleepers s s1) as H1.
  { destruct (current s) as [c|].
    - apply outcome_bind_ok in E1 as (tc & _ & E1). destruct (upd_sleepers _ _ _ _ E1) as [Hu _]; [done|].
      intros t. rewrite Hu. by case_bool_decide.
    - by injection E1 as <-. }
  cbv zeta in E. set (s2 := with_current _ s1) in E. assert (same_sleepers s s2) as H2 by done.
  destruct (current s2) as [c|]; [|by injection E as _ <-].
  apply outcome_bind_ok in E as (tc & _ & E). apply outcome_bind_ok in E as (_ & _ & E).
  apply outcome_bind_ok in E as (s3 & E3 & [= _ <-]). case_bool_decide; [by injection E3 as <-|].
  destruct (upd_sleepers _ _ _ _ E3) as [Hu _]; [done|]. by eapply same_sleepers_trans.
Qed.

(** The current thread, if there is one, is ready to run. *)
Definition running (s : sched) : Prop := forall c, current s = Some c -> is_ready_in s c.

Lemma update_total s a now cmp : wf NPrios s a -> running s ->
  exists cmp', update hz rate debug s now cmp = Ok cmp'.
Proof.
  intros Hwf Hr. unfold update. destruct (wf_queues _ _ _ Hwf HWaiting) as [Hh _]. cbn in Hh.
  assert (exists e, match waitingList s with
    | Some w => th ← get s w; Ok (expiryTime th =? 2 ^ 64 - 1) | None => Ok true end = Ok e /\
    (e = false -> exists w th, waitingList s = Some w /\ threads s !! w = Some th)) as (e & Ee & He).
  { rewrite Hh. destruct (a HWaiting) as [|w r] eqn:Ea; cbn; [by exists true|].
    destruct (member _ _ _ HWaiting w Hwf) as (th & Et & _); [rewrite Ea; set_solver|].
    eexists. rewrite (get_ok _ _ _ Et), ok_bind. split; [done|]. intros _. by exists w, th. }
  run Ee. assert (exists p, match current s with
    | Some c => p ← has_priority_peers debug s c; Ok (negb p) | None => Ok true end = Ok p) as [p Ep].
  { destruct (current s) as [c|] eqn:Ec; [|by exists true].
    destruct (Hr c Ec) as (th & Et & Hst). destruct (peers_spec NPrios HNP debug s a c th Hwf Et Hst) as (b & Eb & _).
    rewrite Eb, ok_bind. by exists (negb b). }
  run Ep. destruct (e && p); [by eexists|]. cbv zeta. destruct e; [rewrite ok_bind; by eexists|].
  destruct (He eq_refl) as (w & th & Ew & Et). rewrite Ew.
  rewrite (deref_ok (Some w) w eq_refl), ok_bind, (get_ok _ _ _ Et), !ok_bind. by eexists.
Qed.

Lemma running_readied s s' w tw : running s -> threads s !! w = Some tw -> state tw = Suspended ->
  core <$> threads s' = core <$> <[w := readied WakeTimer tw]> (threads s) -> current s' = current s ->
  running s'.
Proof.
  intros Hr Ew Hst Ec Ecur c Hc. rewrite Ecur in Hc. destruct (Hr c Hc) as (th & Et & Hready).
  assert (<[w := readied WakeTimer tw]> (threads s) !! c = Some th) as E.
  { rewrite lookup_insert_ne; [done|]. intros ->. congruence. }
  destruct (core_lookup _ _ _ _ Ec E) as (th' & Et' & Ecore). exists th'. split; [done|].
  by rewrite (proj1 (proj2 (proj2 (proj2 (proj2 (proj2 (proj2 (proj2 (core_fields _ _ Ecore))))))))).
Qed.

Lemma core_state th th' : core th = core th' -> state th = state th'.
Proof. intros E. by apply core_fields in E as (_ & _ & _ & _ & _ & _ & _ & ? & _). Qed.

Lemma running_all_readied r s a w s' a' : all_readied NPrios r s a w s' a' -> running s -> running s'.
Proof.
  intros [_ Et _ Eo] Hr c Hc. assert (current s' = current s) as Ecur by by injection Eo.
  rewrite Ecur in Hc. destruct (Hr c Hc) as (th & Eth & Hst).
  assert (exists th', ready_map r (threads s) w !! c = Some th' /\ state th' = Ready) as (th1 & E1 & Hst1).
  { clear Et. induction w as [|t w IH] using rev_ind; [by exists th|].
    destruct IH as (th1 & E1 & Hst1). rewrite ready_map_snoc, lookup_alter. case_decide; [|by exists th1].
    subst t. rewrite E1. exists (readied r th1). split; [done|]. unfold readied. by destruct (_ || _). }
  destruct (core_lookup _ _ _ _ Et E1) as (th2 & E2 & Ec). exists th2. split; [done|].
  by rewrite (core_state _ _ Ec).
Qed.

Lemma expire_ok k a now zero : kernel_ok NPrios k a ->
  exists s' a', expiretimers hz rate debug (threads_of k) now zero = Ok s' /\
    kernel_ok NPrios (with_sched s' k) a' /\ ids s' = ids (threads_of k) /\
    current s' = current (threads_of k) /\ (running (threads_of k) -> running s') /\
    no_new_sleeper None (threads_of k) s'.
Proof.
  intros Hk. pose proof Hk as [Hwf Hc Hm Hw Hn].
  pose proof (expiretimers_steps NPrios HNP hz rate debug (threads_of k) a now zero Hwf) as He.
  cbv zeta in He. set (s0 := with_ticks _ (threads_of k)) in He.
  assert (kernel_ok NPrios (with_sched s0 k) a) as Hk0.
  { apply (kernel_ok_same k a); [done|by apply wf_ticks|done|done]. }
  assert (no_new_sleeper None (threads_of k) s0) as Hn0 by exact (no_new_refl None (threads_of k)).
  destruct (a HWaiting) as [|w r] eqn:Ea; [by exists s0, a|].
  destruct He as (tw & Ew & Hst & He). case_match; [|by exists s0, a].
  destruct He as (s' & a' & E & _ & Hw' & _ & Ec & Ecur). exists s', a'. splits; [done| | |done| |].
  - apply (kernel_ok_insert k a w (readied WakeTimer tw)); [done|done|by exists tw|done| |].
    + intros c. rewrite Ecur. intros (th & Et)%Hc.
      assert (is_Some ((core <$> threads s') !! c)) as Hs.
      { rewrite Ec, lookup_fmap, fmap_is_Some, lookup_insert. case_decide; eauto. }
      by rewrite lookup_fmap, fmap_is_Some in Hs.
    + intros []. by destruct tw.
  - rewrite (ids_core _ _ Ec). by apply (ids_insert _ _ tw).
  - intros Hr. by eapply running_readied.
  - apply (no_new_insert _ _ _ _ _ Ec). intros x _ [[Hs _] _]. by destruct tw.
Qed.

Lemma schedule_ok k a tstack now : kernel_ok NPrios k a ->
  exists stk s' a', schedule debug (threads_of k) tstack now = Ok (stk, s') /\
    kernel_ok NPrios (with_sched s' k) a' /\ ids s' = ids (threads_of k) /\ running s' /\
    no_new_sleeper None (threads_of k) s'.
Proof.
  intros Hk. pose proof Hk as [Hwf Hc _ _ _].
  destruct (schedule_steps NPrios HNP debug _ a tstack now Hwf Hc)
    as (stk & s' & a' & E & Hw' & _ & _ & _ & _ & Hcur).
  pose proof (schedule_sleepers _ _ _ _ _ E) as Hs. exists stk, s', a'. splits; [done| | | |by apply no_new_same].
  - apply (kernel_ok_same k a); [done|done|done|]. intros c Ec. rewrite Ec in Hcur.
    destruct Hcur as (tn & En & _). by exists tn.
  - by apply same_sleepers_ids.
  - intros c Ec. rewrite Ec in Hcur. destruct Hcur as (tn & En & Hst & _). by exists tn.
Qed.

(** ** Interrupts *)

Context (ConfiguredInterrupts : list Interrupt) (futexWordsAddress : Z).

Definition words_ok (k : kernel) : Prop := length (futexWords k) = length ConfiguredInterrupts.

Lemma index_from_range j l src i : index_from j l src = Some i ->
  j <= i < j + Z.of_nat (length l) /\ exists x, l !! Z.to_nat (i - j) = Some x /\ number x = src.
Proof.
  revert j. induction l as [|x l IH]; intros j E; [done|]. cbn in E |- *.
  destruct (Z.eqb_spec (number x) src) as [En|En].
  - injection E as <-. split; [lia|]. exists x. by rewrite Z.sub_diag.
  - destruct (IH _ E) as (Hr & y & Ey & Hy). split; [lia|]. exists y. split; [|done].
    by replace (Z.to_nat (i - j)) with (S (Z.to_nat (i - (j + 1)))) by lia.
Qed.

Lemma kernel_ok_ext k a k' : kernel_ok NPrios k a -> threads_of k' = threads_of k ->
  waiters k' = waiters k -> kernel_ok NPrios k' a.
Proof. intros [] E1 E2. split; rewrite ?E1, ?E2; assumption. Qed.

(** The word of a configured interrupt is incremented, an edge-triggered one is completed. *)
Lemma external_steps k src i : words_ok k -> index_of_source ConfiguredInterrupts src = Some i ->
  exists x w k', ConfiguredInterrupts !! Z.to_nat i = Some x /\ futexWords k !! Z.to_nat i = Some w /\
    do_external_interrupt ConfiguredInterrupts futexWordsAddress (Some src) k =
      Ok (Some (futexWordsAddress + i * sizeof_word), k') /\
    threads_of k' = threads_of k /\ waiters k' = waiters k /\ timer_cmp k' = timer_cmp k /\
    futexWords k' = <[Z.to_nat i := u32 (w + 1)]> (futexWords k) /\
    completed k' = completed k ++ (if isEdgeTriggered x then [src] else []) /\ words_ok k'.
Proof.
  intros Hw Ei. unfold do_external_interrupt. rewrite Ei.
  destruct (index_from_range _ _ _ _ Ei) as (Hr & x & Ex & _). rewrite Z.sub_0_r in Ex.
  destruct (lookup_lt_is_Some_2 (futexWords k) (Z.to_nat i)) as [w Ew]; [unfold words_ok in Hw; lia|].
  run (deref_ok _ _ Ex). cbv zeta.
  assert (futexWords (if isEdgeTriggered x then with_completed (completed k ++ [src]) k else k) =
    futexWords k) as -> by by destruct (isEdgeTriggered x).
  run (deref_ok _ _ Ew). eexists x, w, _. splits; [done|done|reflexivity|..].
  all: destruct (isEdgeTriggered x); cbn; rewrite ?app_nil_r; try done.
  all: unfold words_ok; cbn; by rewrite length_insert.
Qed.

(** What the handler of an exception leaves before a thread is chosen. *)
Lemma kernel_ok_exit k a c th : kernel_ok NPrios k a -> current (threads_of k) = Some c ->
  threads (threads_of k) !! c = Some th -> state th = Ready ->
  exists b s' a', exit debug (threads_of k) = Ok (b, s') /\ kernel_ok NPrios (with_sched s' k) a' /\
    ids s' = ids (threads_of k) /\ no_new_sleeper None (threads_of k) s'.
Proof.
  intros Hk Ec Et Hst. pose proof Hk as [Hwf Hc _ _ _].
  destruct (exit_steps NPrios HNP debug _ a c th Hwf Ec Et Hst) as (s1 & a' & E & Hs & _).
  eexists _, _, a'. split; [exact E|].
  assert (kernel_ok NPrios (with_sched s1 k) a') as Hk1.
  { apply (kernel_ok_stepped NPrios HNP k a c (set_state Exited th)); [done|by exists th|exact Hs|].
    by intros []. }
  splits.
  - apply (kernel_ok_same (with_sched s1 k) a'); [done|by apply (wf_static NPrios s1); [done|intros []|done|done|apply Hs]|done|].
    apply Hk1.
  - change (ids (with_threadCount _ s1)) with (ids s1). by eapply (ids_stepped _ _ _ _ th).
  - apply (no_new_insert None _ _ c (set_state Exited th)); [apply Hs|]. by intros x _ [[[=] _] _].
Qed.

Definition may_raise (k : kernel) (mcause : cause) : Prop :=
  match mcause with
  | CauseEcall | CauseTimer => True
  | CauseExternal _ => running (threads_of k)
  | CauseThreadExit => exists c, current (threads_of k) = Some c /\ is_ready_in (threads_of k) c
  | CauseOther => False
  end.

(** The second half of [exception_entry]. *)
Lemma exception_ends k a stk (needed tick : bool) n1 n2 n3 zero : kernel_ok NPrios k a ->
  (needed = false -> running (threads_of k)) ->
  exists r k' a',
    (s ← (if tick || negb (any_ready (threads_of k))
          then expiretimers hz rate debug (threads_of k) n1 zero else Ok (threads_of k));
     '(newContext, s) ← (if needed then schedule debug s stk n2 else Ok (stk, s));
     cmp ← update hz rate debug s n3 (timer_cmp k);
     Ok (newContext, with_cmp cmp (with_sched s k))) = Ok (r, k') /\
    kernel_ok NPrios k' a' /\ running (threads_of k') /\ ids (threads_of k') = ids (threads_of k) /\
    waiters k' = waiters k /\ futexWords k' = futexWords k /\ completed k' = completed k /\
    no_new_sleeper None (threads_of k) (threads_of k').
Proof.
  intros Hk Hrun.
  assert (exists s1 a1, (if tick || negb (any_ready (threads_of k))
      then expiretimers hz rate debug (threads_of k) n1 zero else Ok (threads_of k)) = Ok s1 /\
    kernel_ok NPrios (with_sched s1 k) a1 /\ ids s1 = ids (threads_of k) /\
    (running (threads_of k) -> running s1) /\ no_new_sleeper None (threads_of k) s1)
    as (s1 & a1 & E1 & Hk1 & Hi1 & Hr1 & Hn1).
  { destruct (tick || _); [|exists (threads_of k), a; splits; try done; by eapply kernel_ok_ext].
    destruct (expire_ok k a n1 zero Hk) as (s1 & a1 & ? & ? & ? & _ & ?). by exists s1, a1. }
  run E1.
  assert (exists r s2 a2, (if needed then schedule debug s1 stk n2 else Ok (stk, s1)) = Ok (r, s2) /\
    kernel_ok NPrios (with_sched s2 k) a2 /\ ids s2 = ids s1 /\ running s2 /\ no_new_sleeper None s1 s2)
    as (r & s2 & a2 & E2 & Hk2 & Hi2 & Hr2 & Hn2).
  { destruct needed; [|exists stk, s1, a1; splits; auto].
    destruct (schedule_ok (with_sched s1 k) a1 stk n2 Hk1) as (r & s2 & a2 & ? & ? & ? & ? & ?).
    by exists r, s2, a2. }
  run E2. destruct (update_total s2 a2 n3 (timer_cmp k)) as [cmp Ecmp]; [apply Hk2|done|].
  run Ecmp. eexists r, _, a2. split; [done|]. splits; [by eapply kernel_ok_ext|done|cbn; congruence|done..|].
  cbn. by eapply no_new_trans.
Qed.

Lemma exception_ok k a stk mcause n1 n2 n3 zero : kernel_ok NPrios k a -> words_ok k ->
  may_raise k mcause ->
  exists r k' a', exception_entry debug hz rate ConfiguredInterrupts futexWordsAddress stk mcause n1 n2 n3
      zero k = Ok (r, k') /\
    kernel_ok NPrios k' a' /\ running (threads_of k') /\ ids (threads_of k') = ids (threads_of k) /\
    words_ok k' /\ no_new_sleeper None (threads_of k) (threads_of k').
Proof.
  intros Hk Hw Hm. unfold exception_entry. destruct mcause as [| |claimed| |]; [| | | |done].
  - assert (exists b, match current (threads_of k) with
      | Some c => th ← get (threads_of k) c; Ok (bool_decide (state th = Ready)) | None => Ok false
      end = Ok b) as [b Eb].
    { destruct (current (threads_of k)) as [c|] eqn:Ec; [|by exists false].
      destruct (ko_current _ _ _ Hk c Ec) as [th Et]. rewrite (get_ok _ _ _ Et). by eexists. }
    run Eb. rewrite ok_bind. destruct (exception_ends k a stk true b n1 n2 n3 zero Hk) as
      (r & k' & a' & E & ? & ? & ? & ? & Ew & _ & ?); [done|].
    exists r, k', a'. splits; try done. unfold words_ok. by rewrite Ew.
  - rewrite ok_bind. destruct (exception_ends k a stk true true n1 n2 n3 zero Hk) as
      (r & k' & a' & E & ? & ? & ? & ? & Ew & _ & ?); [done|].
    exists r, k', a'. splits; try done. unfold words_ok. by rewrite Ew.
  - assert (exists word k1 a1, do_external_interrupt ConfiguredInterrupts futexWordsAddress claimed k =
      Ok (word, k1) /\ kernel_ok NPrios k1 a1 /\ threads_of k1 = threads_of k /\ words_ok k1)
      as (word & k1 & a1 & E1 & Hk1 & Et1 & Hw1).
    { destruct claimed as [src|]; [|by exists None, k, a].
      destruct (index_of_source ConfiguredInterrupts src) as [i|] eqn:Ei.
      - destruct (external_steps k src i Hw Ei) as (x & w & k1 & _ & _ & E & Et & Ewt & _ & _ & _ & Hw1).
        exists (Some (futexWordsAddress + i * sizeof_word)), k1, a. splits; [done|by eapply kernel_ok_ext|done..].
      - exists None, k, a. unfold do_external_interrupt. by rewrite Ei. }
    run E1. cbn in Hm. destruct word as [addr|].
    + destruct (wake_futex_steps NPrios HNP debug k1 a1 addr (2 ^ 32 - 1) Hk1 ltac:(lia))
        as (k2 & a2 & E2 & Har & _ & _ & Ew2 & _ & Hk2). run E2. rewrite ok_bind.
      set (n := 0 <? _).
      destruct (exception_ends k2 a2 stk n n n1 n2 n3 zero Hk2) as (r & k' & a' & E & ? & ? & Hi & ? & Ew & _ & Hn).
      { intros _. eapply running_all_readied; [exact Har|by rewrite Et1]. }
      exists r, k', a'. splits; try done.
      * rewrite Hi, (ids_readied _ _ _ _ _ _ _ Har). by rewrite Et1.
      * unfold words_ok. by rewrite Ew, Ew2.
      * eapply no_new_trans; [|exact Hn]. rewrite <- Et1. by eapply no_new_readied.
    + rewrite ok_bind. destruct (exception_ends k1 a1 stk false false n1 n2 n3 zero Hk1) as
        (r & k' & a' & E & ? & ? & ? & ? & Ew & _ & ?); [by rewrite Et1|].
      exists r, k', a'. splits; try done; [congruence|unfold words_ok; by rewrite Ew|by rewrite <- Et1].
  - destruct Hm as (c & Ec & th & Et & Hst).
    destruct (kernel_ok_exit k a c th Hk Ec Et Hst) as (b & s1 & a1 & E1 & Hk1 & Hi1 & Hn1).
    run E1. rewrite ok_bind. destruct (exception_ends (with_sched s1 k) a1 0 true true n1 n2 n3 zero Hk1)
      as (r & k' & a' & E & ? & ? & ? & ? & Ew & _ & Hn); [done|].
    exists r, k', a'. splits; try done; [cbn in *; congruence|unfold words_ok; by rewrite Ew|by eapply no_new_trans].
Qed.
End Kernel.
