(* ===== verification/MultiSpec.v ===== *)
(** * What the multiwaiter calls do

    The closed forms of [set_events] and [get_results], the destructor, and the multiwaiter
    entry points on the kernel's invariant. *)

From S2P Require Import Prelude LinkedList Capability Thread ThreadQueues ThreadInv ThreadOps ThreadSchedule Scheduler Timer Timeouts MultiWaiter Futex SchedulerEntry Walks WakeSpec FutexSpec KernelEntry.

Section Events.
Context (stack : Capability) (mem : Z -> Z).

Definition source_accepted (x : EventWaiterSource) : bool :=
  check_pointer_for stack [Load] true (source x) default_space.

(** A source that is accepted can be read. *)
Definition source_readable (x : EventWaiterSource) : Prop :=
  source_accepted x = true -> can_access (source x) 4 [Load].

Definition differs (x : EventWaiterSource) : bool := negb (mem (address (source x)) =? value x).
Definition fresh_event (x : EventWaiterSource) : EventWaiter :=
  mkEvent (address (source x)) (value x) 0 (b2z (differs x)).

Lemma fresh_event_ok x : event_ok (fresh_event x).
Proof. unfold event_ok, fresh_event. cbn. destruct (differs x); cbn; lia. Qed.

Lemma reset_event_ok x : can_access (source x) 4 [Load] ->
  reset_event mem (source x) (value x) = Ok (differs x, fresh_event x).
Proof.
  intros Ha. unfold reset_event, load_word. rewrite decide_True, ok_bind by done.
  unfold fresh_event, differs. by destruct (_ =? _).
Qed.

(** Every source is accepted: the events are set from them. *)
Lemma set_events_accepted n : forall srcs evs b, (n <= length srcs)%nat -> (n <= length evs)%nat ->
  Forall (fun x => source_accepted x = true /\ can_access (source x) 4 [Load]) (take n srcs) ->
  set_events_loop stack mem n srcs evs b =
    Ok (Some (b || existsb differs (take n srcs)), (fresh_event <$> take n srcs) ++ drop n evs).
Proof.
  induction n as [|n IH]; intros [|x srcs] [|e evs] b Hs He Hf; cbn [length] in *; try lia;
    cbn [take existsb]; rewrite ?orb_false_r; try done.
  apply Forall_cons in Hf as [[Hx Ha] Hf]. cbn [set_events_loop head tail].
  run (deref_ok (Some x) x eq_refl). unfold source_accepted in Hx. rewrite Hx. cbn [negb].
  run (deref_ok (Some e) e eq_refl). rewrite (reset_event_ok x Ha), ok_bind.
  rewrite IH by (done || lia). rewrite ok_bind. cbn. by rewrite orb_assoc.
Qed.

(** In any case the loop ends with as many well-formed events. *)
Lemma set_events_total n : forall srcs evs b, (n <= length srcs)%nat -> (n <= length evs)%nat ->
  Forall source_readable (take n srcs) -> Forall event_ok evs ->
  exists r evs', set_events_loop stack mem n srcs evs b = Ok (r, evs') /\
    length evs' = length evs /\ Forall event_ok evs' /\
    (r = None <-> exists x, x ∈ take n srcs /\ source_accepted x = false).
Proof.
  induction n as [|n IH]; intros [|x srcs] [|e evs] b Hs He Hf Hev; cbn [length] in *; try lia.
  1-4: eexists _, _; splits; [done|done|done|]; split; [done|by intros (x' & ?%not_elem_of_nil & _)].
  apply Forall_cons in Hf as [Hx Hf]. cbn [set_events_loop head tail take].
  run (deref_ok (Some x) x eq_refl). unfold source_readable in Hx.
  destruct (source_accepted x) eqn:Ea; unfold source_accepted in Ea; rewrite Ea; cbn [negb].
  - run (deref_ok (Some e) e eq_refl). rewrite (reset_event_ok x (Hx eq_refl)), ok_bind.
    apply Forall_cons in Hev as [_ Hev].
    destruct (IH srcs evs (b || differs x)) as (r & evs' & E & El & Ef & Hr); [lia|lia|done..|].
    rewrite E, ok_bind. eexists r, _. splits; [done|by cbn; rewrite El|
      by constructor; [apply fresh_event_ok|]|].
    rewrite Hr. split; intros (y & Hy & Hay); exists y; (split; [|done]); [set_solver|].
    apply elem_of_cons in Hy as [->|Hy]; [|done]. unfold source_accepted in Hay. congruence.
  - eexists _, _. splits; [done|done|done|]. split; [|done]. intros _. exists x.
    split; [set_solver|done].
Qed.

Lemma results_ok n : forall evs srcs, (n <= length evs)%nat -> (n <= length srcs)%nat ->
  results_loop n evs srcs =
    Ok (existsb has_fired (take n evs),
        zip_with (fun e x => set_value (readyEvents e) x) (take n evs) (take n srcs) ++ drop n srcs).
Proof.
  induction n as [|n IH]; intros [|e evs] [|x srcs] He Hs; cbn [length] in *; try lia; try done.
  cbn [results_loop head tail]. run (deref_ok (Some e) e eq_refl). run (deref_ok (Some x) x eq_refl).
  rewrite IH by lia. rewrite ok_bind. done.
Qed.

Lemma get_results_ok debug evs count w : waiter_ok w -> 0 <= count <= Length w ->
  count <= Z.of_nat (length evs) ->
  get_results debug evs count w =
    Ok (existsb has_fired (take (Z.to_nat count) (events w)),
        zip_with (fun e x => set_value (readyEvents e) x) (take (Z.to_nat count) (events w))
          (take (Z.to_nat count) evs) ++ drop (Z.to_nat count) evs,
        with_events 0 (events w) w) /\
  waiter_ok (with_events 0 (events w) w).
Proof.
  intros [Hu Hl He] Hc Hn. unfold get_results.
  rewrite dassert_true, ok_bind by (apply Z.leb_le; lia).
  rewrite results_ok by lia. rewrite ok_bind. split; [done|]. split; cbn; [lia|done..].
Qed.
End Events.

Section Calls.
Context (NPrios : Z) (HNP : NPrios <= 32) (debug : bool) (hz rate : Z).

Lemma kernel_ok_waiter k a x w w' : kernel_ok NPrios k a -> waiters k !! x = Some w -> waiter_ok w' ->
  kernel_ok NPrios (with_waiters (<[x := w']> (waiters k)) k) a.
Proof.
  intros [Hwf Hc Hm Hw Hn] Ex Hw'. split; cbn; [done|done| | |done].
  - intros t Ht. destruct (Hm t Ht) as (th & Et & y & v & Eu & Ey & Hv). exists th. split; [done|].
    destruct (decide (x = y)) as [<-|].
    + exists x, w'. by rewrite lookup_insert_eq.
    + exists y, v. by rewrite lookup_insert_ne.
  - apply map_Forall_insert_2; done.
Qed.

(** The destructor readies the threads that wait on the object. *)
Definition waits_for (m : gmap Z Thread) (x t : Z) : Prop := waits_on m t = Some x.

#[export] Instance waits_for_dec m x t : Decision (waits_for m x t).
Proof. unfold waits_for. apply _. Defined.

Lemma waits_for_iff m x t th : m !! t = Some th -> waits_for m x t <-> multiWaiter th = Some x.
Proof. unfold waits_for, waits_on. by intros ->. Qed.

Definition pick_destroy (x : Z) (acc : unit) (u : seen) : bool * unit :=
  (match fst u with WMulti w => bool_decide (w = Some x) | WFutex _ _ _ => false end, tt).

Lemma pick_destroy_visits x :
  picks NPrios WakeTimer (destroy_visit debug x) (pick_destroy x) (fun _ _ => True).
Proof.
  intros [] s a t th Hwf Et Hst _. unfold destroy_visit, pick_destroy, multiWaiter. cbn [fst snd look].
  run (get_ok _ _ _ Et). destruct (waitingOn th) as [|w] eqn:Eu.
  { by rewrite bool_decide_eq_false_2. }
  case_bool_decide; [|done]. set (s1 := with_threads (<[t := set_waitingOn (WMulti None) th]> (threads s)) s).
  rewrite (upd_get s t th _ Et), ok_bind.
  destruct (ready_steps NPrios HNP debug s1 a t (set_waitingOn (WMulti None) th) WakeTimer)
    as (s2 & a2 & E2 & Hs2 & Ha2); [by apply wf_relabel, relabels_insert|cbn; by rewrite lookup_insert_eq|done|].
  fold s1. run E2. exists s2, a2. split; [done|]. split; [by eapply stepped_relabel|done].
Qed.

Lemma destroy_steps k a x : kernel_ok NPrios k a ->
  exists s' a', destroy debug x (threads_of k) = Ok s' /\
    all_readied NPrios WakeTimer (threads_of k) a
      (filter (waits_for (threads (threads_of k)) x) (a HMulti)) s' a'.
Proof.
  intros Hk. pose proof Hk as [Hwf _ Hm _ _]. unfold destroy.
  destruct (walk_readies NPrios HNP WakeTimer HMulti ltac:(by right) (destroy_visit debug x)
    (fun _ => false) (pick_destroy x) (fun _ _ => True) (pick_destroy_visits x) ltac:(done)
    (threads_of k) a tt Hwf) as (s' & a' & E & Har).
  { intros t Ht. destruct (Hm t Ht) as (th & Et & _). by exists th. }
  assert (forall l, (forall t, t ∈ l -> is_Some (threads (threads_of k) !! t)) ->
    fst (scan (fun _ => false) (pick_destroy x) (threads (threads_of k)) l tt) =
      filter (waits_for (threads (threads_of k)) x) l) as Hscan.
  { induction l as [|t l IH]; intros Hl; [done|]. cbn [scan]. destruct (Hl t) as [th Et]; [set_solver|].
    rewrite Et, filter_cons. unfold pick_destroy at 1. cbn [fst look].
    specialize (IH ltac:(set_solver)). destruct (scan _ _ _ l _) as [w []]. cbn [fst] in IH |- *.
    rewrite <- IH, (decide_ext _ _ _ _ (waits_for_iff _ x _ _ Et)). unfold multiWaiter.
    destruct (waitingOn th) as [|w0]; [by rewrite decide_False|].
    case_bool_decide; [by rewrite decide_True|by rewrite decide_False]. }
  rewrite Hscan in Har by (intros t Ht; by destruct (Hm t Ht) as (th & Et & _); exists th).
  exists s', a'. by run E.
Qed.
End Calls.
