(* ===== verification/KernelCalls.v ===== *)
(** * The calls keep the kernel's invariant

    [futex_timed_wait], [futex_wake], [thread_sleep] and the multiwaiter calls, from a state
    in which the calling thread runs: they do not fail, and the invariant holds after them. *)

From S2P Require Import Prelude LinkedList Capability Thread ThreadQueues ThreadInv ThreadOps ThreadSchedule Scheduler Timer Timeouts MultiWaiter Futex SchedulerEntry Walks WakeSpec FutexSpec KernelEntry MultiSpec.

Section Calls.
Context (NPrios : Z) (HNP : NPrios <= 32) (debug : bool) (hz rate : Z).
Context (heap_start heap_end CONFIG_THREADS_NUM threadSpaces sizeof_Thread : Z).

Notation get_thread := (get_thread CONFIG_THREADS_NUM threadSpaces sizeof_Thread).
Notation created := (created CONFIG_THREADS_NUM threadSpaces sizeof_Thread).

(** What a call leaves: the invariant, the same threads, and nobody who sleeps on a multiwaiter
    that was not slept on before, except for [u]. *)
Record after_but (u : option Z) (k k' : kernel) : Prop := {
  af_ok : exists a, kernel_ok NPrios k' a;
  af_ids : ids (threads_of k') = ids (threads_of k);
  af_current : current (threads_of k') = current (threads_of k);
  af_words : futexWords k' = futexWords k;
  af_sleepers : no_new_sleeper u (threads_of k) (threads_of k');
}.
Notation after := (after_but None).

Lemma after_refl u k a : kernel_ok NPrios k a -> after_but u k k.
Proof. intros Hk. split; [by exists a|done..]. Qed.

Lemma after_trans u k1 k2 k3 : after_but u k1 k2 -> after_but u k2 k3 -> after_but u k1 k3.
Proof. intros [? ? ? ? ?] [? ? ? ? ?]. split; [done|congruence..|by eapply no_new_trans]. Qed.

Lemma after_weaken u k k' : after k k' -> after_but u k k'.
Proof. intros [? ? ? ? ?]. split; [done..|by apply no_new_weaken]. Qed.

Lemma stepped_current s a t th s' a' : stepped NPrios s a t th s' a' -> current s' = current s.
Proof. intros (_ & _ & _ & Ho). by injection Ho. Qed.

Lemma running_stepped s a t th s' a' : stepped NPrios s a t th s' a' -> running s ->
  (current s = Some t -> state th = Ready) -> running s'.
Proof.
  intros Hs Hr Ht c Hc. rewrite (stepped_current _ _ _ _ _ _ Hs) in Hc.
  destruct (Hr c Hc) as (tc & Etc & Hst). destruct Hs as (_ & _ & Ec & _).
  destruct (decide (t = c)) as [->|Hne].
  - destruct (core_lookup (<[c := th]> (threads s)) (threads s') c th Ec) as (th' & E' & Ecore);
      [by rewrite lookup_insert_eq|]. exists th'. split; [done|].
    rewrite (core_state _ _ Ecore). by apply Ht.
  - destruct (core_lookup (<[t := th]> (threads s)) (threads s') c tc Ec) as (th' & E' & Ecore);
      [by rewrite lookup_insert_ne|]. exists th'. split; [done|]. by rewrite (core_state _ _ Ecore).
Qed.

Lemma running_relabel s m' : running s -> relabels (threads s) m' -> running (with_threads m' s).
Proof.
  intros Hr Hm c Hc. destruct (Hr c Hc) as (th & Et & Hst).
  destruct (relabels_lookup _ _ _ _ Hm Et) as [u E]. by exists (set_waitingOn u th).
Qed.

(** A ready thread sleeps nowhere. *)
Lemma ready_not_asleep s a c th h : wf NPrios s a -> threads s !! c = Some th -> state th = Ready ->
  (h = HFutex \/ h = HMulti \/ h = HWaiting) -> c ∉ a h.
Proof.
  intros Hwf Et Hst Hh Hc. destruct (member _ _ _ _ _ Hwf Hc) as (th' & Et' & Hb).
  assert (th' = th) as -> by congruence. destruct Hh as [-> | [-> | ->]]; cbn in Hb; destruct_and?; congruence.
Qed.

Lemma ready_le_highest s a c th : wf NPrios s a -> threads s !! c = Some th -> state th = Ready ->
  priority th <= highestPriority s.
Proof.
  intros Hwf Et Hst. pose proof (wf_map _ _ _ Hwf) as [Hb Ht]%map_ok_iff. rewrite Ht.
  pose proof (priority_range NPrios HNP _ _ _ _ (wf_fields _ _ _ Hwf) Et) as Hp.
  apply (top_spec _ a); [done|done|]. intros E.
  assert (c ∈ a (HPrio (priority th))) as Hin.
  { apply (f_members _ _ _ (wf_fields _ _ _ Hwf)). by exists th. }
  rewrite E in Hin. by apply not_elem_of_nil in Hin.
Qed.

(** ** Boosting *)

(** A boost of the thread [o] keeps the invariant. *)
Lemma boost_after k a o th p : kernel_ok NPrios k a -> threads (threads_of k) !! o = Some th -> p < NPrios ->
  followed (threads_of k) o p ->
  exists s', priority_boost debug (threads_of k) o p = Ok s' /\ after k (with_sched s' k) /\
    (running (threads_of k) -> running s') /\
    (exists th', threads s' !! o = Some th' /\ priority th' = Z.max p (OriginalPriority th)).
Proof.
  intros Hk Et Hp Hb. pose proof Hk as [Hwf _ Hm _ _].
  destruct (boost_ok NPrios HNP debug (threads_of k) a o th p Hwf Et Hp) as (s' & a' & E & Hs); [done|].
  exists s'. split; [done|]. split; [split|split].
  - exists a'. eapply (kernel_ok_stepped NPrios HNP k a o (boosted p th)); [done|by exists th|exact Hs|].
    intros Hbel. destruct (Hm o) as (th0 & E0 & Hu).
    { apply (f_members _ _ _ (wf_fields _ _ _ Hwf)). by exists th. }
    assert (th0 = th) as -> by congruence. done.
  - cbn. by apply (ids_stepped NPrios _ a o th _ _ _ Hs Et).
  - cbn. by eapply stepped_current.
  - done.
  - apply (no_new_insert _ _ _ o (boosted p th)); [apply Hs|]. intros x _ Hx. by exists th.
  - intros Hr. apply (running_stepped _ _ _ _ _ _ Hs Hr). intros Hc.
    destruct (Hr o Hc) as (th0 & E0 & Hst). by assert (th0 = th) as -> by congruence.
  - destruct Hs as (_ & _ & Ec & _).
    destruct (core_lookup _ _ o (boosted p th) Ec) as (th' & E' & Ecore); [by rewrite lookup_insert_eq|].
    exists th'. split; [done|].
    by rewrite (proj1 (proj2 (proj2 (proj2 (proj2 (proj2 (core_fields _ _ Ecore))))))).
Qed.

(** ** [futex_wake] *)

Lemma wake_kind_ok s a now n : wf NPrios s a -> running s -> is_Some (current s) ->
  exists kind, wake_kind debug hz rate s now n = Ok kind /\
    (0 < n -> kind <> YieldNow -> forall c tc, current s = Some c -> threads s !! c = Some tc ->
       forall t th, threads s !! t = Some th -> state th = Ready -> priority th <= priority tc) /\
    (0 < n -> kind = NoYield -> forall c tc t, current s = Some c -> threads s !! c = Some tc ->
       t ∈ a (HPrio (priority tc)) -> t = c).
Proof.
  intros Hwf Hr [c Ec]. unfold wake_kind. destruct (Z.ltb_spec 0 n); [|by exists NoYield; splits; [done|lia..]].
  run (deref_ok _ _ Ec). destruct (Hr c Ec) as (tc & Et & Hst).
  assert (is_highest_priority debug s c = Ok (priority tc =? highestPriority s)) as Eh.
  { unfold is_highest_priority. run (get_ok _ _ _ Et).
    by rewrite dassert_true by (apply Z.leb_le; by eapply ready_le_highest). }
  run Eh. assert (priority tc = highestPriority s -> forall t th, threads s !! t = Some th ->
    state th = Ready -> priority th <= priority tc) as Hmax.
  { intros -> t th E Hs. by eapply ready_le_highest. }
  destruct (Z.eqb_spec (priority tc) (highestPriority s)) as [E|E]; cbn [negb].
  2: { exists YieldNow. by splits. }
  destruct (peers_spec NPrios HNP debug s a c tc Hwf Et Hst) as (b & Eb & Hb). run Eb. destruct b.
  - assert (exists f, has_run_for_full_tick debug (TIMERCYCLES_PER_TICK hz rate) s c now = Ok f) as [f Ef].
    { unfold has_run_for_full_tick. run (get_ok _ _ _ Et). rewrite dassert_holds, ok_bind by done. by eexists. }
    run Ef. eexists. splits; [done| |by destruct f].
    intros _ _ c' tc' Ec' Et'. assert (c' = c) as -> by congruence.
    assert (tc' = tc) as -> by congruence. by apply Hmax.
  - exists NoYield. splits; [done| |].
    + intros _ _ c' tc' Ec' Et'. assert (c' = c) as -> by congruence.
      assert (tc' = tc) as -> by congruence. by apply Hmax.
    + intros _ _ c' tc' t Ec' Et' Ht. assert (c' = c) as -> by congruence.
      assert (tc' = tc) as -> by congruence. destruct (decide (t = c)) as [|Hne]; [done|].
      exfalso. assert (false = true) by (apply Hb; by exists t). done.
Qed.

(** What a caller of [futex_wake] does when a woken thread inherits priority: nobody boosts it for
    this futex any longer, and its priority is computed anew. *)
Definition unboost (key : Z) (k : kernel) : outcome kernel :=
  c ← deref (current (threads_of k));
  th ← get (threads_of k) c;
  s ← priority_boost_reset (threads_of k) key (threadId th);
  p ← priority_boost_for_thread s (threadId th) 0;
  s ← priority_boost debug s c p;
  Ok (with_sched s k).

(** The boost that it is left with is one that the scheduler follows. *)
Definition unboost_within (key : Z) (k : kernel) : Prop :=
  forall c th s1 p, current (threads_of k) = Some c -> threads (threads_of k) !! c = Some th ->
    priority_boost_reset (threads_of k) key (threadId th) = Ok s1 ->
    priority_boost_for_thread s1 (threadId th) 0 = Ok p -> followed s1 c p.

Definition wake_boost_within (k : kernel) (key count : Z) : Prop :=
  forall n k1, wake_futex debug k key count = Ok (true, n, k1) -> unboost_within key k1.

Lemma reset_after k a key id : kernel_ok NPrios k a -> 
  exists s1, priority_boost_reset (threads_of k) key id = Ok s1 /\ after k (with_sched s1 k) /\
    kernel_ok NPrios (with_sched s1 k) a /\ relabels (threads (threads_of k)) (threads s1) /\
    (running (threads_of k) -> running s1).
Proof.
  intros Hk. pose proof Hk as [Hwf _ _ _ _]. eexists. split; [by apply (boost_reset_ok NPrios _ a)|].
  set (m := relabel_all _ _ _). assert (relabels (threads (threads_of k)) m) as Hr.
  { apply relabel_all_relabels. intros th. unfold reset_boost. destruct (_ && _); [done|apply relabel_refl]. }
  assert (kernel_ok NPrios (with_sched (with_threads m (threads_of k)) k) a) as Hk1.
  { apply kernel_ok_relabel; [done|done|]. intros t Ht. unfold m.
    rewrite relabel_all_lookup by by eapply (asleep_NoDup NPrios HFutex).
    rewrite decide_False; [done|]. by apply (queues_disjoint NPrios _ a HMulti HFutex t Hwf). }
  splits; [split; [by exists a|by apply ids_relabels|done..|]|done|done|].
  { apply (no_new_relabel NPrios _ _ a); [done|done|]. intros t Ht. unfold m.
    rewrite relabel_all_lookup by by eapply (asleep_NoDup NPrios HFutex).
    rewrite decide_False; [done|]. by apply (queues_disjoint NPrios _ a HMulti HFutex t Hwf). }
  intros Hrun. by apply running_relabel.
Qed.

(** The threads but [c] keep their priorities and states, and all but those that wait for a futex
    everything. *)
Definition only_boosts (a : href -> list Z) (c : Z) (s s' : sched) : Prop :=
  forall t tt, t <> c -> threads s !! t = Some tt ->
    exists tt', threads s' !! t = Some tt' /\ priority tt' = priority tt /\ state tt' = state tt /\
      (t ∉ a HFutex -> core tt' = core tt).

Lemma boost_of_thread_lt s a id th c : wf NPrios s a -> threads s !! c = Some th ->
  boost_of (threads s) (a HFutex) id 0 < NPrios.
Proof.
  intros Hwf Et. apply boost_of_lt.
  - intros t tt' E. by apply (priority_lt NPrios s a t tt' Hwf).
  - pose proof (priority_lt NPrios s a c th Hwf Et).
    destruct (f_threads _ _ _ (wf_fields _ _ _ Hwf) c th Et) as (? & _). lia.
Qed.

Lemma unboost_after k a key c th : kernel_ok NPrios k a -> running (threads_of k) ->
  current (threads_of k) = Some c -> threads (threads_of k) !! c = Some th -> unboost_within key k ->
  exists k' th', unboost key k = Ok k' /\ after k k' /\ running (threads_of k') /\ waiters k' = waiters k /\
    timer_cmp k' = timer_cmp k /\ only_boosts a c (threads_of k) (threads_of k') /\
    threads (threads_of k') !! c = Some th' /\ expiryTime th' = expiryTime th /\
    OriginalPriority th <= priority th'.
Proof.
  intros Hk Hr Ec Et Hwithin. destruct (Hr c Ec) as (th0 & Et0 & Hst). assert (th0 = th) as -> by congruence.
  unfold unboost. run (deref_ok _ _ Ec). run (get_ok _ _ _ Et).
  destruct (reset_after k a key (threadId th) Hk) as (s1 & Es1 & Haf & Hks1 & Hrel & Hrun1).
  run Es1. pose proof (boost_for_thread_ok NPrios HNP s1 a (threadId th) 0 (ko_wf _ _ _ Hks1)) as Ep. run Ep.
  assert (c ∉ a HFutex) as Hc by (eapply ready_not_asleep; [apply Hk|done..|tauto]).
  assert (s1 = with_threads (relabel_all (reset_boost key (threadId th)) (threads (threads_of k)) (a HFutex))
    (threads_of k)) as Es.
  { pose proof (boost_reset_ok NPrios _ a key (threadId th) (ko_wf _ _ _ Hk)) as E. congruence. }
  assert (forall t, t ∉ a HFutex -> threads s1 !! t = threads (threads_of k) !! t) as Hsame.
  { intros t Ht. rewrite Es. cbn. rewrite relabel_all_lookup by (eapply (asleep_NoDup NPrios HFutex); apply Hk).
    by rewrite decide_False. }
  assert (threads s1 !! c = Some th) as Eu by by rewrite Hsame.
  set (p := boost_of _ _ _ _) in *.
  assert (p < NPrios) as Hp by exact (boost_of_thread_lt s1 a (threadId th) th c (ko_wf _ _ _ Hks1) Eu).
  destruct (boost_ok NPrios HNP debug s1 a c th p (ko_wf _ _ _ Hks1) Eu Hp) as (s2 & a2 & E2 & Hs2).
  { by eapply Hwithin. }
  destruct (boost_after (with_sched s1 k) a c th p Hks1 Eu Hp) as (s2' & E2' & Haf2 & Hrun2 & _).
  { by eapply Hwithin. }
  cbn [threads_of with_sched] in E2'. assert (s2' = s2) as -> by congruence. run E2.
  destruct Hs2 as (Hw2 & _ & Ecore & _).
  destruct (core_lookup _ _ c (boosted p th) Ecore) as (th' & Et' & Ec'); [by rewrite lookup_insert_eq|].
  pose proof (core_fields _ _ Ec') as (_ & Ee & _ & _ & _ & Epr & _).
  change (priority th' = Z.max p (OriginalPriority th)) in Epr.
  eexists _, th'. splits; [done| |by apply Hrun2, Hrun1|done|done| |done|done|lia].
  { eapply after_trans; [exact Haf|exact Haf2]. }
  intros t tt Hne Ett. destruct (relabels_lookup _ _ _ _ Hrel Ett) as [u Eut].
  destruct (core_lookup _ _ t (set_waitingOn u tt) Ecore) as (tt' & Ett' & Ectt).
  { by rewrite lookup_insert_ne. }
  exists tt'. pose proof (core_fields _ _ Ectt) as (_ & _ & _ & _ & _ & Epp & _ & Ess & _).
  splits; [done|done|done|]. intros Ht. rewrite Hsame, Ett in Eut by done.
  assert (set_waitingOn u tt = tt) as E by congruence. by rewrite Ectt, E.
Qed.

Lemma wake_after stack now addr count k a : kernel_ok NPrios k a -> running (threads_of k) ->
  is_Some (current (threads_of k)) -> count in_u 32 -> wake_boost_within k (address addr) count ->
  exists r kind k', futex_wake debug hz rate stack now addr count k = Ok (r, kind, k') /\
    after k k' /\ running (threads_of k').
Proof.
  intros Hk Hr Hc Hcount Hwithin. unfold futex_wake.
  destruct (check_pointer_for _ _ _ _ _); cbn [negb];
    [|exists (- EINVAL), NoYield, k; splits; [done|by eapply after_refl|done]].
  destruct (wake_futex_steps NPrios HNP debug k a (address addr) count Hk Hcount)
    as (k1 & a1 & E1 & Har & _ & _ & Ew & _ & Hk1).
  assert (after k k1) as Haf1.
  { split; [by exists a1|by eapply ids_readied| |done|by eapply no_new_readied].
    pose proof (ar_others _ _ _ _ _ _ _ Har) as Ho. by injection Ho. }
  pose proof (running_all_readied _ _ _ _ _ _ _ Har Hr) as Hr1.
  assert (is_Some (current (threads_of k1))) as Hc1 by by rewrite (af_current _ _ _ Haf1).
  rewrite E1, ok_bind. cbn beta iota.
  destruct (wake_kind_ok _ a1 now (Z.of_nat (length (futex_woken k a (address addr) count)) +
    Z.of_nat (length (multi_woken k a (address addr) count))) (ko_wf _ _ _ Hk1) Hr1 Hc1) as (kind & Ek & _).
  run Ek. set (pi := existsb _ _) in *.
  change (if pi then _ else Ok k1) with (if pi then unboost (address addr) k1 else Ok k1).
  assert (exists k2, (if pi then unboost (address addr) k1 else Ok k1) = Ok k2 /\ after k1 k2 /\
    running (threads_of k2)) as (k2 & E2 & Haf2 & Hr2).
  { destruct pi eqn:Epi; [|exists k1; splits; [done|by eapply after_refl|done]].
    destruct Hc1 as [c Ec]. destruct (Hr1 c Ec) as (th & Et & Hst).
    destruct (unboost_after k1 a1 (address addr) c th Hk1 Hr1 Ec Et) as (k2 & _ & E2 & Haf2 & Hr2 & _).
    - by eapply Hwithin.
    - by exists k2. }
  run E2. assert (exists k3, (match kind with
      | YieldLater => cmp ← ensure_tick hz rate debug (threads_of k2) (timer_cmp k2); Ok (with_cmp cmp k2)
      | _ => Ok k2 end) = Ok k3 /\ after k2 k3 /\ running (threads_of k3)) as (k3 & E3 & Haf3 & Hr3).
  { destruct (af_ok _ _ _ Haf2) as [a2 Hk2].
    destruct kind; [by exists k2; splits; [..|eapply after_refl|]| |by exists k2; splits; [..|eapply after_refl|]].
    destruct Hc1 as [c Ec]. rewrite <- (af_current _ _ _ Haf2) in Ec.
    destruct (Hr2 c Ec) as (th & Et & _). unfold ensure_tick.
    rewrite dassert_true, ok_bind by (by rewrite Ec). rewrite (deref_ok _ _ Ec), ok_bind, (get_ok _ _ _ Et), !ok_bind.
    eexists. splits; [done|split; [exists a2; by eapply kernel_ok_ext|done..]|done]. }
  run E3. eexists _, kind, k3. splits; [done| |done].
  eapply after_trans; [exact Haf1|]. by eapply after_trans.
Qed.

(** ** [futex_timed_wait] and its return *)

(** Writing what a ready thread waits for. *)
Lemma waiting_after k a t th u : kernel_ok NPrios k a -> threads (threads_of k) !! t = Some th ->
  state th = Ready ->
  let s1 := with_threads (<[t := set_waitingOn u th]> (threads (threads_of k))) (threads_of k) in
  kernel_ok NPrios (with_sched s1 k) a /\ after k (with_sched s1 k) /\ (running (threads_of k) -> running s1).
Proof.
  intros Hk Et Hst s1. pose proof Hk as [Hwf _ _ _ _].
  assert (relabels (threads (threads_of k)) (<[t := set_waitingOn u th]> (threads (threads_of k)))) as Hr
    by by apply relabels_insert.
  assert (kernel_ok NPrios (with_sched s1 k) a) as Hk1.
  { apply kernel_ok_relabel; [done|done|]. intros x Hx. rewrite lookup_insert_ne; [done|].
    intros <-. eapply (ready_not_asleep _ a t th HMulti); [done..|tauto|done]. }
  splits; [done|split; [by exists a|by apply ids_relabels|done..|]|].
  { apply (no_new_relabel NPrios _ _ a); [done|done|]. intros x Hx. rewrite lookup_insert_ne; [done|].
    intros <-. eapply (ready_not_asleep _ a t th HMulti); [done..|tauto|done]. }
  intros Hrun. by apply running_relabel.
Qed.

Definition owner_named (ow : option (Z * Z)) : Prop :=
  forall o id, ow = Some (o, id) -> 0 <= id /\ get_thread id = Some o.

Definition return_boost_within (s : sched) (t : Z) (ow : option (Z * Z)) : Prop :=
  forall o id s1 p, ow = Some (o, id) -> upd s t (set_futexWaitAddress 0) = Ok s1 ->
    priority_boost_for_thread s1 id 0 = Ok p -> followed s1 o p.

Lemma created_dom s id o : created s -> 0 <= id -> get_thread id = Some o -> is_Some (threads s !! o).
Proof. intros Hc Hid Hg. destruct (created_thread _ _ _ _ _ _ Hc Hid Hg) as (th & Et & _). by exists th. Qed.

Lemma return_after k a f th timedout valid : kernel_ok NPrios k a -> created (threads_of k) ->
  threads (threads_of k) !! ff_thread f = Some th -> state th = Ready -> owner_named (ff_owner f) ->
  return_boost_within (threads_of k) (ff_thread f) (ff_owner f) ->
  exists r s', futex_wait_return debug f timedout valid (threads_of k) = Ok (r, s') /\
    r = (if timedout then - ETIMEDOUT else if negb valid then - EINVAL else 0) /\
    after k (with_sched s' k) /\ (running (threads_of k) -> running s').
Proof.
  intros Hk Hcr Et Hst Hn Hb. unfold futex_wait_return.
  pose proof (upd_get _ _ _ (set_futexWaitAddress 0) Et) as Eu. run Eu.
  destruct (waiting_after k a (ff_thread f) th (WFutex 0 (futexPriorityBoostedThread (waitingOn th))
    (futexPriorityInheriting (waitingOn th))) Hk Et Hst) as (Hk1 & Haf1 & Hrun1).
  change (set_waitingOn (WFutex 0 _ _) th) with (set_futexWaitAddress 0 th) in Hk1, Haf1, Hrun1.
  set (s1 := with_threads _ (threads_of k)) in *.
  destruct (ff_owner f) as [[o id]|] eqn:Eo.
  2: { rewrite ok_bind. eexists _, s1. by splits. }
  destruct (Hn o id eq_refl) as [Hid Hg].
  assert (created s1) as Hcr1.
  { intros i x Hi Hx. change (ids s1) with (ids (threads_of (with_sched s1 k))).
    rewrite (af_ids _ _ _ Haf1). by apply Hcr. }
  destruct (created_dom s1 id o Hcr1 Hid Hg) as [tho Etho].
  pose proof (boost_for_thread_ok NPrios HNP s1 a id 0 (ko_wf _ _ _ Hk1)) as Ep. run Ep.
  destruct (boost_after (with_sched s1 k) a o tho (boost_of (threads s1) (a HFutex) id 0) Hk1 Etho)
    as (s2 & E2 & Haf2 & Hrun2 & _).
  - by apply (boost_of_thread_lt s1 a id tho o (ko_wf _ _ _ Hk1)).
  - eapply Hb; [done|exact Eu|exact Ep].
  - cbn [threads_of with_sched] in E2. run E2. eexists _, s2. splits; [done|done| |].
    + eapply after_trans; [exact Haf1|exact Haf2].
    + intros Hr. by apply Hrun2, Hrun1.
Qed.

(** The boosts of a call that waits: of the owner, and, when the call does not sleep, the one
    that undoes it. *)
Definition wait_boost_within (s : sched) (addr : Capability) (word : Z) : Prop :=
  forall c th s1 p o, current s = Some c -> threads s !! c = Some th ->
    priority_boost_update (with_threads (<[c := futex_waiting addr true th]> (threads s)) s)
      (address addr) (u16 word) = Ok s1 ->
    priority_boost_for_thread s1 (u16 word) (priority th) = Ok p ->
    get_thread (u16 word) = Some o ->
    followed s1 o p /\
    forall s2, priority_boost debug s1 o p = Ok s2 -> return_boost_within s2 c (Some (o, u16 word)).

Lemma stepped_get NP s a t th s' a' x tx : stepped NP s a t th s' a' -> t <> x ->
  threads s !! x = Some tx -> exists tx', threads s' !! x = Some tx' /\ core tx' = core tx.
Proof.
  intros (_ & _ & Ec & _) Hne Et. eapply core_lookup; [exact Ec|]. by rewrite lookup_insert_ne.
Qed.

(** The owner's boost, when there is one. *)
Lemma owner_after k a c th (pi : bool) addr word : kernel_ok NPrios k a -> created (threads_of k) ->
  current (threads_of k) = Some c -> threads (threads_of k) !! c = Some th -> state th = Ready ->
  (pi = true -> wait_boost_within (threads_of k) addr word) -> 
  exists ow s2 a2 th2,
    (if pi then futex_boost_owner debug CONFIG_THREADS_NUM threadSpaces sizeof_Thread
       (with_threads (<[c := futex_waiting addr pi th]> (threads (threads_of k))) (threads_of k)) c
       (address addr) word
     else Ok (None, with_threads (<[c := futex_waiting addr pi th]> (threads (threads_of k)))
       (threads_of k))) = Ok (ow, s2) /\
    kernel_ok NPrios (with_sched s2 k) a2 /\ after k (with_sched s2 k) /\
    threads s2 !! c = Some th2 /\ state th2 = Ready /\ owner_named ow /\
    (running (threads_of k) -> running s2) /\
    (ow <> None -> return_boost_within s2 c ow).
Proof.
  intros Hk Hcr Ec Et Hst Hpi.
  destruct (waiting_after k a c th (WFutex (address addr) (futexPriorityBoostedThread (waitingOn th)) pi)
    Hk Et Hst) as (Hk1 & Haf1 & Hrun1).
  fold (futex_waiting addr pi th) in Hk1, Haf1, Hrun1. set (s1 := with_threads _ (threads_of k)) in *.
  assert (threads s1 !! c = Some (futex_waiting addr pi th)) as Et1 by (cbn; by rewrite lookup_insert_eq).
  destruct pi; [|exists None, s1, a, (futex_waiting addr false th); splits; done].
  unfold futex_boost_owner. destruct (get_thread (u16 word)) as [o|] eqn:Eo.
  2: { exists None, s1, a, (futex_waiting addr true th). by splits. }
  case_bool_decide as Hoc. { exists None, s1, a, (futex_waiting addr true th). by splits. }
  pose proof (boost_update_ok NPrios s1 a (address addr) (u16 word) (ko_wf _ _ _ Hk1)) as Eup.
  set (s2 := with_threads (relabel_all _ _ _) s1) in Eup.
  assert (wf NPrios s1 a) as Hwf1 by apply Hk1.
  assert (relabels (threads s1) (threads s2)) as Hr2.
  { apply relabel_all_relabels. intros t. unfold update_boost. destruct (_ && _); [done|apply relabel_refl]. }
  assert (forall t, t ∈ a HMulti -> threads s2 !! t = threads s1 !! t) as Hsame2.
  { intros t Ht. cbn. rewrite relabel_all_lookup by by eapply (asleep_NoDup NPrios HFutex).
    rewrite decide_False; [done|]. by apply (queues_disjoint NPrios s1 a HMulti HFutex t Hwf1). }
  assert (kernel_ok NPrios (with_sched s2 k) a) as Hk2
    by by apply (kernel_ok_relabel NPrios (with_sched s1 k) a).
  assert (after k (with_sched s2 k)) as Haf2.
  { eapply after_trans; [exact Haf1|]. split; [by exists a|by apply ids_relabels|done..|].
    by apply (no_new_relabel NPrios None s1 a). }
  run Eup. destruct (relabels_lookup _ _ _ _ Hr2 Et1) as [u Eu]. run (get_ok _ _ _ Eu).
  pose proof (boost_for_thread_ok NPrios HNP s2 a (u16 word) (priority th) (ko_wf _ _ _ Hk2)) as Ep.
  change (priority (set_waitingOn u (futex_waiting addr true th))) with (priority th). run Ep.
  assert (created s2) as Hcr2.
  { intros i x Hi Hx. change (ids s2) with (ids (threads_of (with_sched s2 k))).
    rewrite (af_ids _ _ _ Haf2). by apply Hcr. }
  assert (0 <= u16 word) as Hid by (pose proof (wrap_bound 16 word); unfold u16; lia).
  destruct (created_dom s2 (u16 word) o Hcr2 Hid Eo) as [tho Etho].
  destruct (Hpi eq_refl c th s2 _ o Ec Et Eup Ep Eo) as [Hwithin Hret].
  destruct (boost_after (with_sched s2 k) a o tho
    (boost_of (threads s2) (a HFutex) (u16 word) (priority th)) Hk2 Etho)
    as (s3 & E3 & Haf3 & Hrun3 & _); [|done|].
  { apply boost_of_lt; [intros t tt' E; by apply (priority_lt NPrios s2 a t tt' (ko_wf _ _ _ Hk2))|].
    by apply (priority_lt NPrios _ _ _ _ (ko_wf _ _ _ Hk) Et). }
  cbn [threads_of with_sched] in E3. run E3. destruct (af_ok _ _ _ Haf3) as [a3 Hk3].
  assert (exists th3, threads s3 !! c = Some th3 /\ state th3 = Ready) as (th3 & Et3 & Hst3).
  { destruct (boost_ok NPrios HNP debug s2 a o tho (boost_of (threads s2) (a HFutex) (u16 word) (priority th))
      (ko_wf _ _ _ Hk2) Etho) as (s3' & a3' & E3' & Hs3).
    - apply boost_of_lt; [intros t tt' E; by apply (priority_lt NPrios s2 a t tt' (ko_wf _ _ _ Hk2))|].
      by apply (priority_lt NPrios _ _ _ _ (ko_wf _ _ _ Hk) Et).
    - done.
    - assert (s3' = s3) as -> by congruence.
      destruct (stepped_get _ _ _ _ _ _ _ c _ Hs3 Hoc Eu) as (th3 & E & Ecore). exists th3.
      split; [done|]. by rewrite (core_state _ _ Ecore). }
  exists (Some (o, u16 word)), s3, a3, th3. splits; [done|done| |done|done| | |].
  - eapply after_trans; [exact Haf2|exact Haf3].
  - intros o' id' [= <- <-]. done.
  - intros Hr. apply Hrun3. apply running_relabel; [by apply Hrun1|done].
  - intros _. by apply Hret.
Qed.

Lemma suspend_any_after u k a c th now timeout q un y : kernel_ok NPrios k a ->
  threads (threads_of k) !! c = Some th -> state th = Ready -> sleep_ref q ->
  (q = Some HMulti -> waits_multi (waiters k) (waitingOn th) /\ waitingOn th = WMulti u) ->
  exists s', suspend_start debug hz rate (threads_of k) c now timeout q un y =
      Ok (un || timeout_may_block now timeout, s') /\
    after_but u k (with_sched s' k) /\ (timeout_may_block now timeout = false -> s' = threads_of k).
Proof.
  intros Hk Et Hst Hq Hm. unfold suspend_start. destruct (timeout_may_block now timeout).
  2: { exists (threads_of k). splits; [done| |done]. split; [exists a; by eapply kernel_ok_ext|done..]. }
  destruct (suspend_steps NPrios HNP debug _ a c th (timeout_expiry hz rate now timeout) q y (ko_wf _ _ _ Hk) Et Hst Hq)
    as (s' & a' & E & Hs). run E. exists s'. splits; [done| |done]. split.
  - exists a'. eapply (kernel_ok_stepped NPrios HNP k a c); [done|by exists th|exact Hs|].
    intros [_ Hb]. by apply Hm.
  - cbn. by apply (ids_stepped NPrios _ a c th _ _ _ Hs Et).
  - cbn. by eapply stepped_current.
  - done.
  - apply (no_new_insert _ _ _ c _ (proj1 (proj2 (proj2 Hs)))). intros x Hx [[_ Hb] Hu].
    destruct (Hm Hb) as [_ Eu]. cbn in Hu. congruence.
Qed.

Lemma suspend_after u k a c th now timeout q y : kernel_ok NPrios k a -> threads (threads_of k) !! c = Some th ->
  state th = Ready -> sleep_ref q ->
  (q = Some HMulti -> waits_multi (waiters k) (waitingOn th) /\ waitingOn th = WMulti u) ->
  exists s', suspend_start debug hz rate (threads_of k) c now timeout q false y =
      Ok (timeout_may_block now timeout, s') /\
    after_but u k (with_sched s' k) /\ (timeout_may_block now timeout = false -> s' = threads_of k).
Proof. intros. by eapply (suspend_any_after u k a c th now timeout q false y). Qed.

Lemma wait_after stack mem now timeout addr expected flags k a c : kernel_ok NPrios k a ->
  created (threads_of k) -> running (threads_of k) -> current (threads_of k) = Some c ->
  (accepted heap_start heap_end stack timeout addr -> can_access addr 4 [Load]) ->
  (truth (Z.land flags FutexPriorityInheritance) = true -> wait_boost_within (threads_of k) addr expected) ->
  exists r s', futex_timed_wait debug hz rate heap_start heap_end CONFIG_THREADS_NUM threadSpaces
      sizeof_Thread stack mem now timeout addr expected flags (threads_of k) = Ok (r, s') /\
    after k (with_sched s' k) /\
    match r with
    | Returned _ => running s'
    | Yielded f => ff_thread f = c /\ owner_named (ff_owner f)
    end.
Proof.
  intros Hk Hcr Hr Ec Hread Hpi. destruct (Hr c Ec) as (th & Et & Hst).
  destruct (wait_checks debug hz rate heap_start heap_end CONFIG_THREADS_NUM threadSpaces sizeof_Thread
    (threads_of k) stack mem now timeout addr expected flags) as (Hno & _ & Hdiff).
  destruct (decide (timeout_is_valid heap_start heap_end stack timeout = true /\
    check_pointer_for stack [Load] true addr default_space = true)) as [Hacc|Hacc].
  2: { exists (Returned (- EINVAL)), (threads_of k). splits; [by apply Hno| |done].
       split; [exists a; by eapply kernel_ok_ext|done..]. }
  specialize (Hread Hacc). destruct (decide (mem (address addr) = expected)) as [Hm|Hm].
  2: { exists (Returned 0), (threads_of k). splits; [by apply Hdiff| |done].
       split; [exists a; by eapply kernel_ok_ext|done..]. }
  rewrite (wait_starts debug hz rate heap_start heap_end CONFIG_THREADS_NUM threadSpaces sizeof_Thread
    (threads_of k) stack mem now timeout addr expected flags c th) by done.
  set (pi := truth _) in *.
  destruct (owner_after k a c th pi addr expected Hk Hcr Ec Et Hst Hpi)
    as (ow & s2 & a2 & th2 & E2 & Hk2 & Haf2 & Et2 & Hst2 & Hn & Hrun2 & Hret).
  rewrite E2, ok_bind. cbn beta iota. destruct (pi && bool_decide (ow = None)).
  { exists (Returned (- EINVAL)), s2. splits; [done|done|by apply Hrun2]. }
  destruct (suspend_after None (with_sched s2 k) a2 c th2 now timeout (Some HFutex) false Hk2 Et2 Hst2)
    as (s3 & E3 & Haf3 & Hsame); [by right; left|done|].
  cbn [threads_of with_sched] in E3. run E3. destruct (timeout_may_block now timeout).
  { eexists (Yielded _), s3. splits; [done| |done|done]. eapply after_trans; [exact Haf2|exact Haf3]. }
  rewrite (Hsame eq_refl). cbn [threads_of with_sched].
  assert (created s2) as Hcr2.
  { intros i x Hi Hx. change (ids s2) with (ids (threads_of (with_sched s2 k))).
    rewrite (af_ids _ _ _ Haf2). by apply Hcr. }
  destruct (return_after (with_sched s2 k) a2 (mkFutexFrame c timeout (ticksSinceBoot s2) ow) th2 true
    (is_valid addr) Hk2 Hcr2 Et2 Hst2 Hn) as (r & s4 & E4 & _ & Haf4 & Hrun4).
  { intros o id s5 p Eo. apply Hret; [|done]. cbn in Eo. by rewrite Eo. }
  cbn [threads_of with_sched] in E4. run E4. exists (Returned r), s4. splits; [done| |by apply Hrun4, Hrun2].
  eapply after_trans; [exact Haf2|exact Haf4].
Qed.
End Calls.

(** * The multiwaiter calls keep the kernel's invariant *)

Section Calls.
Context (NPrios : Z) (HNP : NPrios <= 32) (debug : bool) (hz rate : Z).
Context (heap_start heap_end : Z).

Notation after_but := (after_but NPrios).
Notation after := (after_but None).

Lemma waiter_after k a x w w' : kernel_ok NPrios k a -> waiters k !! x = Some w -> waiter_ok w' ->
  kernel_ok NPrios (with_waiters (<[x := w']> (waiters k)) k) a /\
  after k (with_waiters (<[x := w']> (waiters k)) k).
Proof.
  intros Hk Ex Hw'. pose proof (kernel_ok_waiter NPrios k a x w w' Hk Ex Hw') as Hk'.
  split; [done|]. split; [by exists a|done..].
Qed.

Lemma multi_results_after k a x w count evs : kernel_ok NPrios k a -> waiters k !! x = Some w ->
  0 <= count <= Length w -> count <= Z.of_nat (length evs) ->
  exists r evs' k', multi_results debug x count evs k = Ok (r, evs', k') /\ after k k' /\
    threads_of k' = threads_of k.
Proof.
  intros Hk Ex Hc Hl. unfold multi_results. run (deref_ok _ _ Ex).
  destruct (get_results_ok debug evs count w (ko_waiters _ _ _ Hk x w Ex) Hc Hl) as [E Hok]. run E.
  destruct (waiter_after k a x w _ Hk Ex Hok) as [_ Haf]. eexists _, _, _. by splits.
Qed.

Lemma multi_return_after k a c th x count wv ev evs : kernel_ok NPrios k a ->
  threads (threads_of k) !! c = Some th -> state th = Ready ->
  (wv = true -> ev = true -> exists w, waiters k !! x = Some w /\ 0 <= count <= Length w) ->
  count <= Z.of_nat (length evs) ->
  exists r evs' k', multi_wait_return debug c x count wv ev evs k = Ok (r, evs', k') /\ after k k' /\
    (running (threads_of k) -> running (threads_of k')).
Proof.
  intros Hk Et Hst Hw Hl. unfold multi_wait_return. run (upd_get _ _ _ (set_waitingOn (WMulti None)) Et).
  destruct (waiting_after NPrios k a c th (WMulti None) Hk Et Hst) as (Hk1 & Haf1 & Hrun1).
  set (s1 := with_threads _ (threads_of k)) in *. destruct wv, ev; cbn [negb orb].
  2-4: eexists _, evs, _; splits; [done|exact Haf1|exact Hrun1].
  destruct (Hw eq_refl eq_refl) as (w & Ex & Hc).
  destruct (multi_results_after (with_sched s1 k) a x w count evs Hk1 Ex Hc Hl) as (r & evs' & k' & E & Haf & Et').
  exists r, evs', k'. splits; [done| |rewrite Et'; exact Hrun1]. eapply after_trans; [exact Haf1|exact Haf].
Qed.

Lemma set_events_ok stack mem evs count w : waiter_ok w -> 0 <= count <= Length w ->
  count <= Z.of_nat (length evs) -> Forall (source_readable stack) (take (Z.to_nat count) evs) ->
  exists r w', set_events stack mem evs count w = Ok (r, w') /\ waiter_ok w' /\ Length w' = Length w.
Proof.
  intros [Hu Hl He] Hc Hn Hf. unfold set_events.
  destruct (set_events_total stack mem (Z.to_nat count) evs (events w) false) as (r & l & E & El & Hl' & _);
    [lia|lia|done|done|].
  run E. destruct r as [[]|]; eexists _, _; splits; try done; split; cbn; try lia; try done.
Qed.

Lemma multi_wait_after stack mem now now1 timeout unsealed ptr evs count k a c : kernel_ok NPrios k a ->
  running (threads_of k) -> current (threads_of k) = Some c -> 0 <= count <= Z.of_nat (length evs) ->
  Forall (source_readable stack) (take (Z.to_nat count) evs) ->
  (forall x, unsealed = Some x -> is_Some (waiters k !! x)) ->
  exists r evs' k', multiwaiter_wait debug hz rate heap_start heap_end stack mem now now1 timeout unsealed
      ptr evs count k = Ok (r, evs', k') /\ after_but unsealed k k' /\
    match r with Returned _ => running (threads_of k') | Yielded f => mf_thread f = c /\ mf_count f = count end.
Proof.
  intros Hk Hr Ec Hc Hf Hx. unfold multiwaiter_wait.
  assert (forall e, exists r evs' k', @Ok (entered multi_frame * list EventWaiterSource * kernel)
    (Returned e, evs, k) = Ok (r, evs', k') /\ after_but unsealed k k' /\
    match r with Returned _ => running (threads_of k') | Yielded f => mf_thread f = c /\ mf_count f = count end)
    as Hret.
  { intros e. exists (Returned e), evs, k. splits; [done|by eapply after_refl|done]. }
  destruct unsealed as [x|]; [|done]. pose proof (after_weaken NPrios (Some x)) as Hweak. destruct (Hx x eq_refl) as [w Ex]. run (deref_ok _ _ Ex).
  destruct (Z.ltb_spec (Length w) count); [done|]. destruct (negb (check_pointer_for _ _ _ _ _)); [done|].
  destruct (negb (timeout_is_valid _ _ _ _)); [done|]. destruct (0 <? usedLength w); [done|].
  destruct (set_events_ok stack mem evs count w (ko_waiters _ _ _ Hk x w Ex)) as (r & w' & E & Hw' & El);
    [lia..|done|]. run E.
  destruct (waiter_after k a x w w' Hk Ex Hw') as [Hk1 Haf1]. set (k1 := with_waiters _ k) in *.
  assert (waiters k1 !! x = Some w') as Ex1 by (cbn; by rewrite lookup_insert_eq).
  assert (exists r evs' k', ('(r, evs, k) ← multi_results debug x count evs k1; Ok (Returned r, evs, k)) =
    Ok (r, evs', k') /\ after_but (Some x) k k' /\ match r with Returned _ => running (threads_of k')
      | Yielded f => mf_thread f = c /\ mf_count f = count end) as Hnow.
  { destruct (multi_results_after k1 a x w' count evs Hk1 Ex1) as (r1 & evs1 & k2 & E2 & Haf2 & Et2); [lia..|].
    run E2. eexists (Returned _), _, _. splits; [done| |by rewrite Et2]. eapply after_trans; eapply Hweak; [exact Haf1|exact Haf2]. }
  destruct r; [|done|].
  { exists (Returned (- EINVAL)), evs, k1. splits; [done|by apply Hweak|done]. }
  destruct (timeout_may_block now timeout); [|done].
  destruct (Hr c Ec) as (th & Et & Hst). rewrite (deref_ok (current (threads_of k1)) c Ec), ok_bind.
  rewrite (upd_get (threads_of k1) c th _ Et), ok_bind.
  destruct (waiting_after NPrios k1 a c th (WMulti (Some x)) Hk1 Et Hst) as (Hk2 & Haf2 & Hrun2).
  set (s2 := with_threads _ (threads_of k1)) in *.
  destruct (suspend_after NPrios HNP debug hz rate (Some x) (with_sched s2 k1) a c (set_waitingOn (WMulti (Some x)) th)
    now1 timeout (Some HMulti) false Hk2) as (s3 & E3 & Haf3 & Hsame).
  { cbn. by rewrite lookup_insert_eq. }
  { done. }
  { by right; right. }
  { intros _. split; [|done]. by exists x, w'. }
  cbn [threads_of with_sched] in E3. run E3. destruct (timeout_may_block now1 timeout).
  { eexists (Yielded _), evs, _. splits; [done| |done|done].
    eapply after_trans; [by apply Hweak, Haf1|]. eapply after_trans; [by apply Hweak, Haf2|exact Haf3]. }
  rewrite (Hsame eq_refl). cbn [threads_of with_sched].
  destruct (multi_return_after (with_sched s2 k1) a c (set_waitingOn (WMulti (Some x)) th) x count true true evs)
    as (r4 & evs4 & k4 & E4 & Haf4 & Hrun4); [done|cbn; by rewrite lookup_insert_eq|done| |lia|].
  { intros _ _. exists w'. split; [done|lia]. }
  change (with_sched s2 (with_sched s2 k1)) with (with_sched s2 k1). run E4.
  eexists (Returned _), _, _. splits; [done| |by apply Hrun4, Hrun2].
  apply Hweak. eapply after_trans; [exact Haf1|]. eapply after_trans; [exact Haf2|exact Haf4].
Qed.

(** Creating and destroying. *)
Lemma create_after maxItems allocated k a : kernel_ok NPrios k a -> 0 <= maxItems ->
  (forall x, allocated = Some x -> waiters k !! x = None) ->
  after k (snd (multiwaiter_create maxItems allocated k)) /\
  threads_of (snd (multiwaiter_create maxItems allocated k)) = threads_of k.
Proof.
  intros Hk Hm Hx. unfold multiwaiter_create, create. destruct (MaxMultiWaiterSize <? maxItems).
  { split; [|done]. split; [exists a; by eapply kernel_ok_ext|done..]. }
  destruct allocated as [x|]; cbn [snd].
  2: { split; [|done]. split; [exists a; by eapply kernel_ok_ext|done..]. }
  split; [|done]. split; [|done..]. exists a. destruct Hk as [Hwf Hc Hmu Hw Hn]. split; cbn; [done|done| | |done].
  - intros t Ht. destruct (Hmu t Ht) as (th & Et & y & v & Eu & Ey & Hv). exists th. split; [done|].
    exists y, v. splits; [done| |done]. rewrite lookup_insert_ne; [done|]. intros ->.
    by rewrite (Hx y eq_refl) in Ey.
  - apply map_Forall_insert_2; [|done]. split; cbn; [lia|rewrite length_replicate; lia|].
    apply Forall_replicate. unfold event_ok. cbn. lia.
Qed.

Lemma destroyed_nobody k a x s' a' : kernel_ok NPrios k a ->
  all_readied NPrios WakeTimer (threads_of k) a (filter (waits_for (threads (threads_of k)) x) (a HMulti)) s' a' ->
  forall t, ~ sleeps_on s' t x.
Proof.
  intros Hk Har t Hs. pose proof (no_new_readied NPrios None _ _ _ _ _ _ Har t x ltac:(done) Hs) as (th & Et & Hb & Ew).
  assert (t ∈ a HMulti) as Ht.
  { apply (f_members _ _ _ (wf_fields _ _ _ (ko_wf _ _ _ Hk))). by exists th. }
  assert (t ∈ a' HMulti) as Ht'.
  { destruct Hs as (th' & Et' & Hb' & _). apply (f_members _ _ _ (wf_fields _ _ _ (ar_wf _ _ _ _ _ _ _ Har))).
    by exists th'. }
  rewrite (ar_queues _ _ _ _ _ _ _ Har), run_joins, app_nil_r in Ht' by tauto.
  apply elem_of_leave in Ht' as [_ Hn]. apply Hn, list_elem_of_filter. split; [|done].
  apply (waits_for_iff _ _ _ _ Et). unfold multiWaiter. by rewrite Ew.
Qed.

(** The destructor leaves nobody who sleeps on the object. *)
Lemma delete_checked_after x can k a : kernel_ok NPrios k a ->
  exists r k', multiwaiter_delete_checked debug x can k = Ok (r, k') /\ after k k' /\ waiters k' = waiters k /\
    (running (threads_of k) -> running (threads_of k')) /\
    match r with
    | Some e => e = can /\ can <> 0 /\ k' = k
    | None => can = 0 /\ forall t, ~ sleeps_on (threads_of k') t x
    end.
Proof.
  intros Hk. unfold multiwaiter_delete_checked.
  destruct (Z.eqb_spec can 0) as [Hc|Hc]; cbn [negb].
  2: { exists (Some can), k. splits; try done. by eapply after_refl. }
  destruct (destroy_steps NPrios HNP debug k a x Hk) as (s' & a' & E & Har). run E.
  eexists None, _. splits; [done| |done| |done|].
  - split.
    + exists a'. exact (kernel_ok_readied NPrios k a _ _ s' a' 0 ∅ [] Hk Har).
    + by eapply ids_readied.
    + pose proof (ar_others _ _ _ _ _ _ _ Har) as Ho. by injection Ho.
    + done.
    + by eapply no_new_readied.
  - intros Hr. by eapply running_all_readied.
  - by eapply destroyed_nobody.
Qed.

(** Freeing an object that nobody sleeps on. *)
Lemma freed_ok k a x : kernel_ok NPrios k a -> (forall t, ~ sleeps_on (threads_of k) t x) ->
  kernel_ok NPrios (multiwaiter_freed x k) a.
Proof.
  intros [Hwf Hc Hm Hw Hn] Hno. split; cbn; [done|done| | |done].
  - intros t Ht. destruct (Hm t Ht) as (th & Et & y & v & Eu & Ey & Hv). exists th. split; [done|].
    exists y, v. splits; [done| |done]. rewrite lookup_delete_ne; [done|]. intros <-.
    apply (Hno t). exists th. split; [done|]. split; [|done].
    destruct (member _ _ _ _ _ Hwf Ht) as (th' & Et' & Hb). by assert (th' = th) as -> by congruence.
  - by apply map_Forall_delete.
Qed.
End Calls.
