(* ===== verification/SystemSpec.v ===== *)
(** * The kernel as a state machine

    Threads call the scheduler one at a time, with interrupts disabled; a call that gives up
    the processor leaves a frame, the exception that [yield] raises chooses another thread,
    and the call goes on when its thread is chosen again.  [step] runs one event, [enabled]
    is what the hardware and the callers guarantee, [reachable] the states after
    [scheduler_entry]. *)

From S2P Require Import Prelude LinkedList Capability Thread ThreadQueues ThreadInv ThreadOps ThreadSchedule Scheduler Timer Timeouts MultiWaiter Futex SchedulerEntry Walks WakeSpec FutexSpec KernelEntry MultiSpec KernelCalls.

(** Where a thread that gave up the processor is. *)
Inductive frame : Type :=
| InFutexWait (f : futex_frame)
| InFutexWake (woken : Z)
| InSleep (f : sleep_frame)
| InMultiWait (f : multi_frame)
| InYield.

Inductive request : Type :=
| ReqFutexWait (stack : Capability) (mem : Z -> Z) (now : Z) (timeout : TimeoutArgument)
    (addr : Capability) (expected flags : Z)
| ReqFutexWake (stack : Capability) (now : Z) (addr : Capability) (count : Z)
| ReqSleep (stack : Capability) (now : Z) (timeout : TimeoutArgument) (flags : Z)
| ReqCreate (maxItems : Z) (allocated : option Z)
| ReqMultiWait (stack : Capability) (mem : Z -> Z) (now now1 : Z) (timeout : TimeoutArgument)
    (unsealed : option Z) (eventsPointer : Capability) (events : list EventWaiterSource)
    (newEventsCount : Z)
| ReqComplete (state : option InterruptCapabilityState)
| ReqYield.

(** How far a deletion of a multiwaiter has come, which holds [deallocLock]: the allocator is
    asked whether the object may be destroyed, the destructor has run, the object is freed. *)
Inductive deletion : Type :=
| Checking (thread object : Z)
| Destroying (thread object : Z)
| Destroyed (thread object : Z).

(** [EvDelete] to [EvDeleted] are the pieces of [multiwaiter_delete]: between them other threads
    run, and the deleting thread itself calls the scheduler from within the allocator. *)
Inductive event : Type :=
| EvCall (r : request)
| EvDelete (unsealed : option Z)
| EvChecked (canDestroy : Z)
| EvFreed
| EvDeleted
| EvResume (now : Z) (valid eventsValid : bool) (events : list EventWaiterSource)
| EvException (sealedTStack : Z) (mcause : cause) (now1 now2 now3 zeroTickTime : Z).

(** [away]: the running thread has called [yield], whose exception comes next. *)
Record system : Type := mkSystem {
  kern : kernel;
  frames : gmap Z frame;
  away : bool;
  deleting : option deletion;
}.

Section System.
Context (debug : bool) (hz rate : Z).
Context (heap_start heap_end CONFIG_THREADS_NUM threadSpaces sizeof_Thread : Z).
Context (ConfiguredInterrupts : list Interrupt) (futexWordsAddress : Z).

Definition in_frame {F} (wrap : F -> frame) (e : entered F) : entered frame :=
  match e with Returned r => Returned r | Yielded f => Yielded (wrap f) end.

Definition invoke (r : request) (k : kernel) : outcome (entered frame * kernel) :=
  match r with
  | ReqFutexWait stack mem now timeout addr expected flags =>
      '(e, s) ← futex_timed_wait debug hz rate heap_start heap_end CONFIG_THREADS_NUM threadSpaces
                  sizeof_Thread stack mem now timeout addr expected flags (threads_of k);
      Ok (in_frame InFutexWait e, with_sched s k)
  | ReqFutexWake stack now addr count =>
      '(n, kind, k) ← futex_wake debug hz rate stack now addr count k;
      Ok (match kind with YieldNow => Yielded (InFutexWake n) | _ => Returned n end, k)
  | ReqSleep stack now timeout flags =>
      '(e, s) ← thread_sleep debug hz rate heap_start heap_end stack now timeout flags (threads_of k);
      Ok (in_frame InSleep e, with_sched s k)
  | ReqCreate maxItems allocated =>
      let '(r, _, k) := multiwaiter_create maxItems allocated k in Ok (Returned r, k)
  | ReqMultiWait stack mem now now1 timeout unsealed ptr events count =>
      '(e, _, k) ← multiwaiter_wait debug hz rate heap_start heap_end stack mem now now1 timeout
                     unsealed ptr events count k;
      Ok (in_frame InMultiWait e, k)
  | ReqComplete state => let '(r, k) := interrupt_complete state k in Ok (Returned r, k)
  | ReqYield => Ok (Yielded InYield, k)
  end.

Definition resume (f : frame) (now : Z) (valid eventsValid : bool) (events : list EventWaiterSource)
    (k : kernel) : outcome (Z * kernel) :=
  match f with
  | InFutexWait f =>
      '(r, _, s) ← futex_wait_resume debug f now valid (threads_of k); Ok (r, with_sched s k)
  | InFutexWake n => Ok (n, k)
  | InSleep f => '(r, _) ← thread_sleep_resume debug f now (threads_of k); Ok (r, k)
  | InMultiWait f =>
      '(r, _, _, k) ← multiwaiter_wait_resume debug f now valid eventsValid events k; Ok (r, k)
  | InYield => Ok (0, k)
  end.

Definition step (e : event) (y : system) : outcome system :=
  match e with
  | EvCall r =>
      c ← deref (current (threads_of (kern y)));
      '(entered, k) ← invoke r (kern y);
      Ok (match entered with
          | Returned _ => mkSystem k (frames y) false (deleting y)
          | Yielded f => mkSystem k (<[c := f]> (frames y)) true (deleting y)
          end)
  | EvDelete unsealed =>
      c ← deref (current (threads_of (kern y)));
      Ok (match multiwaiter_delete unsealed with
          | inl _ => y
          | inr a => mkSystem (kern y) (frames y) (away y) (Some (Checking c a))
          end)
  | EvChecked canDestroy =>
      match deleting y with
      | Some (Checking c a) =>
          '(r, k) ← multiwaiter_delete_checked debug a canDestroy (kern y);
          Ok (mkSystem k (frames y) (away y)
                (match r with Some _ => None | None => Some (Destroying c a) end))
      | _ => Ok y
      end
  | EvFreed =>
      Ok (match deleting y with
          | Some (Destroying c a) =>
              mkSystem (multiwaiter_freed a (kern y)) (frames y) (away y) (Some (Destroyed c a))
          | _ => y
          end)
  | EvDeleted => Ok (mkSystem (kern y) (frames y) (away y) None)
  | EvResume now valid eventsValid events =>
      c ← deref (current (threads_of (kern y)));
      f ← deref (frames y !! c);
      '(_, k) ← resume f now valid eventsValid events (kern y);
      Ok (mkSystem k (delete c (frames y)) false (deleting y))
  | EvException stk mcause n1 n2 n3 zero =>
      '(_, k) ← exception_entry debug hz rate ConfiguredInterrupts futexWordsAddress stk mcause n1 n2 n3
                  zero (kern y);
      Ok (mkSystem k (frames y) false (deleting y))
  end.

(** ** What callers and hardware guarantee *)

(** The words that a call reads can be read, its arrays are as long as it says, its handles are
    of live objects, nobody starts to wait on a multiwaiter whose destructor has run, and new
    objects are new. *)
Definition request_ok (r : request) (d : option deletion) (k : kernel) : Prop :=
  match r with
  | ReqFutexWait stack _ _ timeout addr _ _ =>
      accepted heap_start heap_end stack timeout addr -> can_access addr 4 [Load]
  | ReqFutexWake _ _ _ count => count in_u 32
  | ReqCreate maxItems allocated =>
      0 <= maxItems /\ forall x, allocated = Some x -> waiters k !! x = None
  | ReqMultiWait stack _ _ _ _ unsealed _ events count =>
      0 <= count <= Z.of_nat (length events) /\
      Forall (source_readable stack) (take (Z.to_nat count) events) /\
      forall x, unsealed = Some x -> is_Some (waiters k !! x) /\ forall c, d <> Some (Destroying c x)
  | _ => True
  end.

Definition away_for (start : Z) (k : kernel) : Prop :=
  u64 (ticksSinceBoot (threads_of k) - start) < 2 ^ 32.

(** A pointer that still has its tag when the thread runs again is to a live object, and nobody
    was away for 2^32 ticks. *)
Definition resume_ok (f : frame) (valid eventsValid : bool) (events : list EventWaiterSource)
    (k : kernel) : Prop :=
  match f with
  | InFutexWait f => away_for (ff_ticks f) k
  | InSleep f => away_for (sf_ticks f) k
  | InMultiWait f => away_for (mf_ticks f) k /\ mf_count f <= Z.of_nat (length events) /\
      (valid = true -> eventsValid = true ->
       exists w, waiters k !! mf_waiter f = Some w /\ 0 <= mf_count f <= Length w)
  | _ => True
  end.

(** The running thread [c] has no call of the scheduler under way. *)
Definition may_call (c : Z) (y : system) : Prop :=
  away y = false /\ current (threads_of (kern y)) = Some c /\ frames y !! c = None.

Definition enabled (e : event) (y : system) : Prop :=
  match e with
  | EvCall r => (exists c, may_call c y) /\ request_ok r (deleting y) (kern y)
  | EvDelete _ => (exists c, may_call c y) /\ deleting y = None
  | EvChecked _ => exists c a, may_call c y /\ deleting y = Some (Checking c a)
  | EvFreed => exists c a, may_call c y /\ deleting y = Some (Destroying c a)
  | EvDeleted => exists c a, may_call c y /\
      (deleting y = Some (Destroying c a) \/ deleting y = Some (Destroyed c a))
  | EvResume _ valid eventsValid events => away y = false /\
      exists c f, current (threads_of (kern y)) = Some c /\ frames y !! c = Some f /\
        resume_ok f valid eventsValid events (kern y)
  | EvException _ mcause _ _ _ _ =>
      (away y = true -> mcause = CauseEcall) /\ mcause <> CauseOther /\
      (mcause = CauseThreadExit -> exists c, current (threads_of (kern y)) = Some c /\ frames y !! c = None)
  end.

(** ** What nobody guarantees

    [priority_boost] does not raise [highestPriority]; the boosts that are made are such that
    this does no harm. *)
Definition boosts_followed (e : event) (y : system) : Prop :=
  match e with
  | EvCall (ReqFutexWait _ _ _ _ addr expected flags) =>
      truth (Z.land flags FutexPriorityInheritance) = true ->
      wait_boost_within debug CONFIG_THREADS_NUM threadSpaces sizeof_Thread (threads_of (kern y)) addr expected
  | EvCall (ReqFutexWake _ _ addr count) => wake_boost_within debug (kern y) (address addr) count
  | EvResume _ _ _ _ => forall c f, current (threads_of (kern y)) = Some c ->
      frames y !! c = Some (InFutexWait f) ->
      return_boost_within (threads_of (kern y)) (ff_thread f) (ff_owner f)
  | _ => True
  end.

(** The state of the scheduler's compartment before start-up. *)
Definition blank : kernel := mkKernel no_threads 0 ∅ [] [].

Inductive reachable (infos : list ThreadLoaderInfo) : system -> Prop :=
| reach_boot k : scheduler_entry debug CONFIG_THREADS_NUM threadSpaces sizeof_Thread ConfiguredInterrupts
    infos blank = Ok k -> reachable infos (mkSystem k ∅ false None)
| reach_step e y y' : reachable infos y -> enabled e y -> boosts_followed e y -> step e y = Ok y' ->
    reachable infos y'.
End System.

(** * What the scheduler's entry points promise together *)

Section Invariant.
Context (NPrios : Z) (HNP : NPrios <= 32) (debug : bool) (hz rate : Z).
Context (heap_start heap_end CONFIG_THREADS_NUM threadSpaces sizeof_Thread : Z).
Context (ConfiguredInterrupts : list Interrupt) (futexWordsAddress : Z).

Notation created := (created CONFIG_THREADS_NUM threadSpaces sizeof_Thread).
Notation after_but := (after_but NPrios).
Notation after := (after_but None).
Notation step := (step debug hz rate heap_start heap_end CONFIG_THREADS_NUM threadSpaces sizeof_Thread
  ConfiguredInterrupts futexWordsAddress).
Notation invoke := (invoke debug hz rate heap_start heap_end CONFIG_THREADS_NUM threadSpaces sizeof_Thread).
Notation enabled := (enabled heap_start heap_end).
Notation boosts_followed := (boosts_followed debug CONFIG_THREADS_NUM threadSpaces sizeof_Thread).
Notation owner_named := (owner_named CONFIG_THREADS_NUM threadSpaces sizeof_Thread).

Definition frame_ok (c : Z) (f : frame) : Prop :=
  match f with
  | InFutexWait f => ff_thread f = c /\ owner_named (ff_owner f)
  | InMultiWait f => mf_thread f = c
  | _ => True
  end.

Record system_ok (y : system) : Prop := {
  so_kernel : exists a, kernel_ok NPrios (kern y) a;
  so_created : created (threads_of (kern y));
  so_words : words_ok ConfiguredInterrupts (kern y);
  so_running : away y = false -> running (threads_of (kern y));
  so_frames c f : frames y !! c = Some f -> frame_ok c f;
  so_deleting c x : deleting y = Some (Destroying c x) -> forall t, ~ sleeps_on (threads_of (kern y)) t x;
}.

(** The multiwaiter on which a call may make its caller sleep. *)
Definition asks_for (r : request) : option Z :=
  match r with ReqMultiWait _ _ _ _ _ unsealed _ _ _ => unsealed | _ => None end.

Lemma invoke_after r y d a c : let k := kern y in kernel_ok NPrios k a -> created (threads_of k) ->
  running (threads_of k) -> current (threads_of k) = Some c -> request_ok heap_start heap_end r d k ->
  boosts_followed (EvCall r) y ->
  exists e k', invoke r k = Ok (e, k') /\ after_but (asks_for r) k k' /\
    match e with Returned _ => running (threads_of k') | Yielded f => frame_ok c f end.
Proof.
  intros k Hk Hcr Hr Ec Hreq Hb.
  destruct r; cbn [SystemSpec.invoke request_ok SystemSpec.boosts_followed asks_for] in *; fold k in Hb.
  - destruct (wait_after NPrios HNP debug hz rate heap_start heap_end CONFIG_THREADS_NUM threadSpaces
      sizeof_Thread stack mem now timeout addr expected flags k a c) as (e & s' & E & Haf & He); [done..|].
    run E. eexists _, _. splits; [done|done|]. by destruct e.
  - destruct (wake_after NPrios HNP debug hz rate stack now addr count k a Hk Hr ltac:(by exists c) Hreq Hb)
      as (n & kind & k' & E & Haf & Hr'). run E. eexists _, k'. splits; [done|done|]. by destruct kind.
  - unfold thread_sleep. destruct (negb (timeout_is_valid _ _ _ _)).
    { rewrite ok_bind. eexists _, _. splits; [done| |done].
      split; [exists a; by eapply kernel_ok_ext|done..]. }
    run (deref_ok _ _ Ec). destruct (Hr c Ec) as (th & Et & Hst).
    destruct (suspend_any_after NPrios HNP debug hz rate None k a c th now timeout None true
      (negb (truth (Z.land flags ThreadSleepNoEarlyWake))) Hk Et Hst ltac:(by left) ltac:(done))
      as (s' & E & Haf & _). run E. rewrite ok_bind. eexists _, _. by splits.
  - destruct Hreq as [Hm Hx]. destruct (create_after NPrios maxItems allocated k a Hk Hm Hx) as [Haf Et].
    destruct (multiwaiter_create maxItems allocated k) as [[r o] k']. cbn in Haf, Et.
    eexists _, k'. splits; [done|done|]. by rewrite Et.
  - destruct Hreq as (Hc & Hf & Hx).
    destruct (multi_wait_after NPrios HNP debug hz rate heap_start heap_end stack mem now now1 timeout unsealed
      eventsPointer events newEventsCount k a c Hk Hr Ec Hc Hf (fun x E => proj1 (Hx x E))) as (e & evs' & k' & E & Haf & He).
    run E. eexists _, k'. splits; [done|done|]. destruct e; [done|]. apply He.
  - unfold interrupt_complete. destruct state as [st|]; [destruct (mayComplete st)|];
      eexists _, _; (splits; [done| |done]); (split; [exists a; by eapply kernel_ok_ext|done..]).
  - eexists _, k. splits; [done|by eapply after_refl|done].
Qed.

Lemma suspend_finish_ok start ticks now timeout : u64 (ticks - start) < 2 ^ 32 ->
  exists b t, suspend_finish debug start ticks now true timeout = Ok (b, t).
Proof.
  intros H. unfold suspend_finish, ticks_elapsed. destruct (Z.ltb_spec (2 ^ 32 - 1) (u64 (ticks - start))); [lia|].
  rewrite !ok_bind. by eexists _, _.
Qed.

Lemma resume_after f now valid ev events k a c : kernel_ok NPrios k a -> created (threads_of k) ->
  running (threads_of k) -> current (threads_of k) = Some c -> frame_ok c f ->
  resume_ok f valid ev events k ->
  (forall f', f = InFutexWait f' -> return_boost_within (threads_of k) (ff_thread f') (ff_owner f')) ->
  exists r k', resume debug f now valid ev events k = Ok (r, k') /\ after k k' /\ running (threads_of k').
Proof.
  intros Hk Hcr Hr Ec Hf Hok Hb. destruct (Hr c Ec) as (th & Et & Hst).
  destruct f as [f|n|f|f|]; cbn [resume frame_ok resume_ok] in *.
  - destruct Hf as [Ef Hn]. specialize (Hb f eq_refl). unfold futex_wait_resume.
    destruct (suspend_finish_ok (ff_ticks f) _ now (ff_timeout f) Hok) as (b & t & E). run E.
    rewrite <- Ef in Et.
    destruct (return_after NPrios HNP debug CONFIG_THREADS_NUM threadSpaces sizeof_Thread k a f th b valid Hk
      Hcr Et Hst Hn Hb) as (r & s' & E2 & _ & Haf & Hr'). run E2. rewrite ok_bind.
    eexists _, _. splits; [done|done|by apply Hr'].
  - eexists _, k. splits; [done|by eapply after_refl|done].
  - unfold thread_sleep_resume. destruct (suspend_finish_ok (sf_ticks f) _ now (sf_timeout f) Hok) as (b & t & E).
    run E. rewrite ok_bind. eexists _, k. splits; [done|by eapply after_refl|done].
  - destruct Hok as (Hticks & Hl & Hw). unfold multiwaiter_wait_resume.
    destruct (suspend_finish_ok (mf_ticks f) _ now (mf_timeout f) Hticks) as (b & t & E). run E.
    rewrite <- Hf in Et.
    destruct (multi_return_after NPrios debug k a (mf_thread f) th (mf_waiter f) (mf_count f) valid ev events Hk
      Et Hst Hw Hl) as (r & evs' & k' & E2 & Haf & Hr'). run E2. rewrite ok_bind.
    eexists _, _. splits; [done|done|by apply Hr'].
  - eexists _, k. splits; [done|by eapply after_refl|done].
Qed.

Lemma created_ids s s' : ids s' = ids s -> created s -> created s'.
Proof. intros E H i o Hi Ho. rewrite E. by apply H. Qed.

(** The invariant after the kernel went from [kern y] to [k]. *)
Lemma system_ok_after u y k fs aw d : system_ok y -> after_but u (kern y) k ->
  (aw = false -> running (threads_of k)) -> (forall c f, fs !! c = Some f -> frame_ok c f) ->
  (forall c x, d = Some (Destroying c x) -> forall t, ~ sleeps_on (threads_of k) t x) ->
  system_ok (mkSystem k fs aw d).
Proof.
  intros [_ Hcr Hw _ _ _] [Hk' Hi' _ Hw' _] Hr Hf Hd.
  split; cbn; try done; [by eapply created_ids|]. unfold words_ok. by rewrite Hw'.
Qed.

Lemma still_nobody u y k : system_ok y -> after_but u (kern y) k ->
  (forall c x, deleting y = Some (Destroying c x) -> u <> Some x) ->
  forall c x, deleting y = Some (Destroying c x) -> forall t, ~ sleeps_on (threads_of k) t x.
Proof.
  intros Hok Haf Hu c x Hd. eapply no_new_nobody; [apply Haf|by eapply Hu|].
  by eapply so_deleting.
Qed.

Lemma call_step r y : system_ok y -> enabled (EvCall r) y -> boosts_followed (EvCall r) y ->
  exists y', step (EvCall r) y = Ok y' /\ system_ok y'.
Proof.
  intros Hok [(c & Haw & Ec & Efr) Hreq] Hb. pose proof Hok as [[a Hk] Hcr Hw Hr Hf Hd].
  destruct (invoke_after r y _ a c Hk Hcr (Hr Haw) Ec Hreq Hb) as (e & k' & E & Haf & He).
  cbn [SystemSpec.step]. run (deref_ok _ _ Ec). run E. eexists. split; [done|].
  assert (forall c x, deleting y = Some (Destroying c x) -> asks_for r <> Some x) as Hu.
  { intros c' x Hd' Ea. destruct r; try discriminate Ea. cbn in Ea. subst unsealed.
    destruct Hreq as (_ & _ & Hx). by apply (proj2 (Hx x eq_refl) c'). }
  pose proof (still_nobody _ y k' Hok Haf Hu) as Hno.
  destruct e as [v|f]; eapply system_ok_after; try done.
  intros x g. rewrite lookup_insert. case_decide; [|apply Hf]. intros [= <-]. by subst x.
Qed.

Lemma resume_step now valid ev events y : system_ok y -> enabled (EvResume now valid ev events) y ->
  boosts_followed (EvResume now valid ev events) y ->
  exists y', step (EvResume now valid ev events) y = Ok y' /\ system_ok y'.
Proof.
  intros Hok (Haw & c & f & Ec & Efr & Hres) Hb. pose proof Hok as [[a Hk] Hcr Hw Hr Hf Hd].
  destruct (resume_after f now valid ev events (kern y) a c Hk Hcr (Hr Haw) Ec (Hf c f Efr) Hres)
    as (r & k' & E & Haf & Hr').
  { intros f' ->. by apply (Hb c f'). }
  cbn [SystemSpec.step]. run (deref_ok _ _ Ec). run (deref_ok _ _ Efr). run E. eexists. split; [done|].
  eapply system_ok_after; try done.
  - intros x g [_ Hx]%lookup_delete_Some. by apply Hf.
  - by eapply still_nobody.
Qed.

Lemma delete_step e y : system_ok y -> enabled e y ->
  match e with EvDelete _ | EvChecked _ | EvFreed | EvDeleted => True | _ => False end ->
  exists y', step e y = Ok y' /\ system_ok y'.
Proof.
  intros Hok Hen He. pose proof Hok as [[a Hk] Hcr Hw Hr Hf Hd].
  pose proof (after_refl NPrios None _ _ Hk) as Hrefl.
  destruct e as [|unsealed|can| | | |]; try done; cbn [SystemSpec.enabled SystemSpec.step] in *.
  - destruct Hen as [(c & Haw & Ec & _) _]. run (deref_ok _ _ Ec). eexists. split; [done|].
    destruct unsealed as [x|]; [|done]. cbn. by eapply system_ok_after.
  - destruct Hen as (c & x & (Haw & _) & ->).
    destruct (delete_checked_after NPrios HNP debug x can (kern y) a Hk) as (r & k' & E & Haf & _ & Hr' & Hx).
    run E. eexists. split; [done|]. eapply system_ok_after; try done.
    + intros _. by apply Hr', Hr.
    + intros c' x' E'. destruct r; [done|]. injection E' as <- <-. apply Hx.
  - destruct Hen as (c & x & (Haw & _) & Ed). rewrite Ed. eexists. split; [done|].
    pose proof (freed_ok NPrios (kern y) a x Hk (Hd c x Ed)) as Hk'. split; cbn; try done; by exists a.
  - eexists. split; [done|]. by eapply system_ok_after.
Qed.

Lemma exception_step stk mcause n1 n2 n3 zero y : system_ok y ->
  enabled (EvException stk mcause n1 n2 n3 zero) y ->
  exists y', step (EvException stk mcause n1 n2 n3 zero) y = Ok y' /\ system_ok y'.
Proof.
  intros [[a Hk] Hcr Hw Hr Hf Hd] (Haw & Hno & Hex). cbn [SystemSpec.step].
  destruct (exception_ok NPrios HNP debug hz rate ConfiguredInterrupts futexWordsAddress (kern y) a stk mcause
    n1 n2 n3 zero Hk Hw) as (r & k' & a' & E & Hk' & Hr' & Hi' & Hw' & Hn').
  { destruct (away y).
    - by rewrite (Haw eq_refl).
    - specialize (Hr eq_refl). destruct mcause; cbn; try done. destruct (Hex eq_refl) as (c & Ec & _).
      exists c. split; [done|by apply Hr]. }
  run E. eexists. split; [done|]. split; cbn; [by exists a'|by eapply created_ids|done|done|done|].
  intros c x Ed. eapply no_new_nobody; [exact Hn'|done|]. by eapply Hd.
Qed.

Lemma system_step e y : system_ok y -> enabled e y -> boosts_followed e y ->
  exists y', step e y = Ok y' /\ system_ok y'.
Proof.
  intros Hok Hen Hb. destruct e; [by apply call_step|by apply delete_step..|by apply resume_step|by apply exception_step].
Qed.

(** ** Start-up *)

Definition info_ok (x : ThreadLoaderInfo) : Prop := 0 <= info_priority x < NPrios.

Definition thread_place (j : Z) : Z := threadSpaces + j * sizeof_Thread.

(** After the first [i] threads were created. *)
Record creating (i : Z) (s : sched) (a : href -> list Z) : Prop := {
  cr_wf : wf NPrios s a;
  cr_multi : a HMulti = [];
  cr_current : current s = None;
  cr_new j : i <= j -> ids s !! thread_place j = None;
  cr_old j : 0 <= j < i -> ids s !! thread_place j = Some (j + 1);
  cr_size : Z.of_nat (size (ids s)) = i;
}.

Lemma thread_place_inj (Hsize : 0 < sizeof_Thread) i j : thread_place i = thread_place j -> i = j.
Proof. unfold thread_place. nia. Qed.

Lemma create_threads_ok (Hsize : 0 < sizeof_Thread) infos : forall i s a, Forall info_ok infos -> 0 <= i ->
  creating i s a ->
  exists s' a', create_threads debug threadSpaces sizeof_Thread i infos s = Ok s' /\
    creating (i + Z.of_nat (length infos)) s' a'.
Proof.
  induction infos as [|x infos IH]; intros i s a Hf Hi [Hwf Hm Hc Hnew Hold Hn].
  { exists s, a. split; [done|]. cbn. rewrite Z.add_0_r. by split. }
  apply Forall_cons in Hf as [Hx Hf]. cbn [create_threads]. fold (thread_place i).
  assert (threads s !! thread_place i = None) as Et.
  { specialize (Hnew i ltac:(lia)). unfold ids in Hnew. by rewrite lookup_fmap, fmap_None in Hnew. }
  destruct (construct_steps NPrios debug s a (thread_place i) (trustedStack x) (i + 1) (info_priority x) Hwf Et Hx)
    as (s1 & a1 & E1 & Hs1). run E1. set (th := new_thread _ _ _) in Hs1.
  pose proof Hs1 as (Hwf1 & Hrq1 & Ec1 & Ho1).
  destruct (core_lookup _ _ (thread_place i) th Ec1) as (th1 & Et1 & Ecore1); [by rewrite lookup_insert_eq|].
  destruct (ready_steps NPrios HNP debug s1 a1 (thread_place i) th1 WakeTimer Hwf1 Et1) as (s2 & a2 & E2 & Hs2 & Ha2).
  { by rewrite (core_state _ _ Ecore1). }
  run E2. destruct (IH (i + 1) s2 a2 Hf ltac:(lia)) as (s3 & a3 & E3 & Hcr3).
  2: { exists s3, a3. split; [done|]. cbn [length]. by replace (i + Z.of_nat (S (length infos)))
         with (i + 1 + Z.of_nat (length infos)) by lia. }
  assert (ids s2 = <[thread_place i := i + 1]> (ids s)) as Eids.
  { rewrite (ids_stepped NPrios s1 a1 (thread_place i) th1 _ _ _ Hs2 Et1) by (unfold readied; by destruct (_ || _)).
    rewrite (ids_core _ _ Ec1). by rewrite fmap_insert. }
  split.
  - apply Hs2.
  - rewrite Ha2, decide_False by done. specialize (Hrq1 HMulti).
    rewrite decide_False in Hrq1 by (intros []; done). by rewrite Hrq1, Hm.
  - rewrite (stepped_current _ _ _ _ _ _ _ Hs2), (stepped_current _ _ _ _ _ _ _ Hs1). done.
  - intros j Hj. rewrite Eids, lookup_insert_ne; [apply Hnew; lia|]. intros E%thread_place_inj; [lia|done].
  - intros j Hj. rewrite Eids. destruct (decide (j = i)) as [->|Hne].
    + by rewrite lookup_insert_eq.
    + rewrite lookup_insert_ne; [apply Hold; lia|]. intros E%thread_place_inj; [lia|done].
  - rewrite Eids, map_size_insert_None; [lia|]. apply Hnew. lia.
Qed.

Lemma boot infos : 0 < sizeof_Thread -> Forall info_ok infos ->
  Z.of_nat (length infos) = CONFIG_THREADS_NUM -> CONFIG_THREADS_NUM < 2 ^ 16 ->
  exists k, scheduler_entry debug CONFIG_THREADS_NUM threadSpaces sizeof_Thread ConfiguredInterrupts infos
      blank = Ok k /\ system_ok (mkSystem k ∅ false None).
Proof.
  intros Hsize Hf Hlen HN. unfold scheduler_entry. rewrite dassert_true, ok_bind by by apply Z.eqb_eq.
  destruct (inv_start NPrios no_threads) as [[a Hwf] _]; [done|by intros []|done..|].
  assert (forall h, a h = []) as Ha.
  { intros h. destruct (a h) as [|t r] eqn:E; [done|].
    destruct (member _ _ _ h t Hwf) as (th & Et & _); [rewrite E; set_solver|]. done. }
  destruct (create_threads_ok Hsize infos 0 no_threads a Hf ltac:(lia)) as (s & a' & E & [Hw Hm Hc Hnew Hold Hn]).
  { split; [done|apply Ha|done|done|intros; lia|done]. }
  cbn [threads_of blank]. run E. eexists. split; [done|]. rewrite Hlen in *.
  assert (size (ids s) = size (threads s)) as Es by (unfold ids; apply map_size_fmap).
  split; cbn.
  - exists a'. split; cbn; [done|by rewrite Hc|rewrite Hm; by intros t ?%not_elem_of_nil|done|].
    rewrite <- Es. lia.
  - intros id o Hid Hg. unfold get_thread in Hg.
    destruct ((CONFIG_THREADS_NUM <? id) || (id =? 0)) eqn:Eid; [done|]. injection Hg as <-.
    apply orb_false_iff in Eid as [H1%Z.ltb_ge H2%Z.eqb_neq]. fold (thread_place (id - 1)).
    rewrite Hold by lia. f_equal. lia.
  - unfold words_ok. cbn. apply length_replicate.
  - intros _ c Hc'. congruence.
  - intros c f Hcf. by rewrite lookup_empty in Hcf.
  - done.
Qed.

Notation reachable infos := (reachable debug hz rate heap_start heap_end CONFIG_THREADS_NUM threadSpaces
  sizeof_Thread ConfiguredInterrupts futexWordsAddress infos).

Lemma system_reachable_ok infos y : 0 < sizeof_Thread -> Forall info_ok infos ->
  Z.of_nat (length infos) = CONFIG_THREADS_NUM -> CONFIG_THREADS_NUM < 2 ^ 16 -> reachable infos y -> system_ok y.
Proof.
  intros Hsize Hf Hlen HN Hreach. induction Hreach as [k E|e0 y y' _ IH Hen Hb E].
  - destruct (boot infos Hsize Hf Hlen HN) as (k' & E' & Hk). by assert (k' = k) as -> by congruence.
  - destruct (system_step e0 y IH Hen Hb) as (y1 & E1 & H1). by assert (y1 = y') as -> by congruence.
Qed.

(** C12.  From start-up on, whatever calls threads make, in whatever order, and whatever
    exceptions arrive, every entry point of the scheduler succeeds: no assertion fails, no null or
    dangling thread or multiwaiter is followed, and the invariant of queues, multiwaiters,
    deletions and interrupted calls holds again.  [enabled] is what hardware and callers
    guarantee: checked pointers can be read, arrays are as long as said, handles and pointers that
    still have their tag are to live objects, nobody is away for 2^32 ticks, an exception of an
    unknown cause does not occur, and nobody starts to wait on a multiwaiter between its
    destructor and its release, which the code does not prevent ([freed_while_waiting]).  [boosts_followed] is what nobody guarantees: each priority
    boost that is made, now and before, is one that [highestPriority] survives, for
    [priority_boost] does not raise it ([boost_not_followed]). *)
Theorem scheduler_entry_points_safe infos y e :
  0 < sizeof_Thread -> Forall info_ok infos -> Z.of_nat (length infos) = CONFIG_THREADS_NUM ->
  CONFIG_THREADS_NUM < 2 ^ 16 -> reachable infos y ->
  enabled e y -> boosts_followed e y ->
  system_ok y /\
  exists y', step e y = Ok y' /\ system_ok y' /\ reachable infos y'.
Proof.
  intros Hsize Hf Hlen HN Hreach Hen Hb. pose proof (system_reachable_ok infos y Hsize Hf Hlen HN Hreach) as Hok.
  split; [done|]. destruct (system_step e y Hok Hen Hb) as (y' & E & H'). exists y'.
  splits; [done|done|]. by eapply reach_step.
Qed.
End Invariant.
