(* ===== verification/KernelDemo.v ===== *)
(** * Runs of the kernel: priority inheritance at work, and where it fails

    A small system (a timer of 1000 Hz, 100 ticks a second, no heap) whose threads are numbered
    by their place; the runs are evaluated.  They give the witnesses of the theorems about the
    kernel, and they show three defects of priority inheritance and one of deletion.  Whether the
    boosts of a run are followed is decided by [followedb_event]. *)

From S2P Require Import Prelude LinkedList Capability Thread ThreadQueues ThreadInv ThreadOps ThreadSchedule Scheduler Timer Timeouts MultiWaiter Futex SchedulerEntry Walks WakeSpec FutexSpec KernelEntry MultiSpec KernelCalls SystemSpec.

Definition demo_interrupts : list Interrupt := [mkInterrupt 11 3 true; mkInterrupt 7 1 false].
Definition demo_words : Z := 0x8000.

(** Threads [1], [2], ... at 0x10000, 0x10100, ... *)
Definition demo_boot (priorities : list Z) : outcome system :=
  k ← scheduler_entry true (Z.of_nat (length priorities)) 0x10000 0x100 demo_interrupts
        (mkInfo 0 <$> priorities) blank;
  Ok (mkSystem k ∅ false None).

Definition demo_step (n : Z) (e : event) (y : system) : outcome system :=
  step true 1000 100 0 0 n 0x10000 0x100 demo_interrupts demo_words e y.

Fixpoint demo_run (n : Z) (l : list event) (y : system) : outcome system :=
  match l with [] => Ok y | e :: l => y ← demo_step n e y; demo_run n l y end.

Definition demo (priorities : list Z) (l : list event) : outcome system :=
  y ← demo_boot priorities; demo_run (Z.of_nat (length priorities)) l y.

Definition demo_stack : Capability := mkCapability 0 0 16 true 0 0.
Definition demo_word (a : Z) : Capability := mkCapability a a (a + 4) true 0 (permission_set [Load; Global]).

Definition waits_on_word (a v flags : Z) : event :=
  EvCall (ReqFutexWait demo_stack (fun _ => v) 5 TimeoutWaitForever (demo_word a) v flags).
Definition wakes (a count : Z) : event := EvCall (ReqFutexWake demo_stack 5 (demo_word a) count).
Definition trap (c : cause) : event := EvException 0 c 5 5 5 0.
Definition resumes : event := EvResume 5 true true [].

(** What can be seen of a thread. *)
Definition thread_of (y : outcome system) (id : Z) : option (ThreadState * Z) :=
  match y with
  | Ok y => match threads (threads_of (kern y)) !! (0x10000 + (id - 1) * 0x100) with
            | Some th => Some (state th, priority th) | None => None end
  | Err _ => None
  end.
Definition running_thread (y : outcome system) : option Z :=
  match y with
  | Ok y => match current (threads_of (kern y)) with
            | Some c => threadId <$> threads (threads_of (kern y)) !! c | None => None end
  | Err _ => None
  end.

(** ** Runs whose events are enabled *)

Definition is_ok {A} (o : outcome A) : bool := match o with Ok _ => true | Err _ => false end.
Definition from_ok (o : outcome system) : system :=
  match o with Ok y => y | Err _ => mkSystem blank ∅ false None end.

Lemma from_ok_eq o : is_ok o = true -> o = Ok (from_ok o).
Proof. by destruct o. Qed.

Section Runs.
Context (priorities : list Z).
Notation n := (Z.of_nat (length priorities)).
Notation enabled := (enabled 0 0).
Notation boosts_followed := (boosts_followed true n 0x10000 0x100).
Notation reachable := (reachable true 1000 100 0 0 n 0x10000 0x100 demo_interrupts demo_words
  (mkInfo 0 <$> priorities)).

Definition after_event (e : event) (y : system) : system := from_ok (demo_step n e y).

Fixpoint allowed (l : list event) (y : system) : Prop :=
  match l with
  | [] => True
  | e :: l => enabled e y /\ boosts_followed e y /\ is_ok (demo_step n e y) = true /\ allowed l (after_event e y)
  end.

Definition booted : system := from_ok (demo_boot priorities).

Lemma booted_reachable : is_ok (demo_boot priorities) = true -> reachable booted.
Proof.
  unfold booted, demo_boot. destruct (scheduler_entry _ _ _ _ _ _ _) as [k|] eqn:Ek; [|done].
  intros _. by apply reach_boot.
Qed.

Lemma allowed_reachable l : forall y, reachable y -> allowed l y ->
  reachable (foldl (fun y e => after_event e y) y l).
Proof.
  induction l as [|e l IH]; intros y Hy Hl; [done|]. destruct Hl as (He & Hb & Eok & Hl).
  apply IH; [|done]. eapply reach_step; [exact Hy|exact He|exact Hb|]. by apply from_ok_eq.
Qed.
End Runs.

(** ** Deciding whether boosts are followed *)

Definition followedb (s : sched) (o p : Z) : bool :=
  match threads s !! o with
  | Some th =>
      bool_decide (state th <> Ready) || (Z.max p (OriginalPriority th) <=? highestPriority s) ||
      forallb (fun x => (fst x =? o) || bool_decide (state (snd x) <> Ready) ||
                        negb (priority (snd x) =? priority th)) (map_to_list (threads s))
  | None => true
  end.

Lemma followedb_ok s o p : followedb s o p = true -> followed s o p.
Proof.
  unfold followedb. intros H th Eo Hst. rewrite Eo in H.
  apply orb_true_iff in H as [[H|H%Z.leb_le]%orb_true_iff|H]; [|by left|right].
  - by apply bool_decide_eq_true_1 in H.
  - intros t tt Hne Et Hs Ep. rewrite forallb_forall in H. apply elem_of_map_to_list, list_elem_of_In, H in Et.
    cbn in Et. apply orb_true_iff in Et as [[Et%Z.eqb_eq|Et]%orb_true_iff|Et]; [done| |].
    + by apply bool_decide_eq_true_1 in Et.
    + rewrite Ep, Z.eqb_refl in Et. done.
Qed.

Definition if_ok {A} (o : outcome A) (f : A -> bool) : bool := match o with Ok x => f x | Err _ => true end.

Lemma if_ok_ok {A} (o : outcome A) f x : if_ok o f = true -> o = Ok x -> f x = true.
Proof. intros H E. by rewrite E in H. Qed.

Definition returnb (s : sched) (t : Z) (ow : option (Z * Z)) : bool :=
  match ow with
  | Some (o, id) => if_ok (upd s t (set_futexWaitAddress 0)) (fun s1 =>
      if_ok (priority_boost_for_thread s1 id 0) (fun p => followedb s1 o p))
  | None => true
  end.

Lemma returnb_ok s t ow : returnb s t ow = true -> return_boost_within s t ow.
Proof.
  intros H o id s1 p -> E1 Ep. cbn in H. pose proof (if_ok_ok _ _ _ H E1) as H1. cbn in H1.
  pose proof (if_ok_ok _ _ _ H1 Ep) as H2. by apply followedb_ok.
Qed.

Definition waitb (n threadSpaces sizeof_Thread : Z) (s : sched) (addr : Capability) (word : Z) : bool :=
  match current s with
  | Some c =>
      match threads s !! c, get_thread n threadSpaces sizeof_Thread (u16 word) with
      | Some th, Some o =>
          if_ok (priority_boost_update (with_threads (<[c := futex_waiting addr true th]> (threads s)) s)
                   (address addr) (u16 word)) (fun s1 =>
          if_ok (priority_boost_for_thread s1 (u16 word) (priority th)) (fun p =>
            followedb s1 o p &&
            if_ok (priority_boost true s1 o p) (fun s2 => returnb s2 c (Some (o, u16 word)))))
      | _, _ => true
      end
  | None => true
  end.

Lemma waitb_ok n ts sz s addr word : waitb n ts sz s addr word = true -> wait_boost_within true n ts sz s addr word.
Proof.
  unfold waitb. intros H c th s1 p o Ec Et E1 Ep Eo. rewrite Ec, Et, Eo in H.
  pose proof (if_ok_ok _ _ _ H E1) as H1. cbn in H1. pose proof (if_ok_ok _ _ _ H1 Ep) as H2. cbn in H2.
  apply andb_true_iff in H2 as [Hf Hr]. split; [by apply followedb_ok|].
  intros s2 E2. by apply returnb_ok, (if_ok_ok _ _ _ Hr).
Qed.

Definition unboostb (key : Z) (k : kernel) : bool :=
  match current (threads_of k) with
  | Some c =>
      match threads (threads_of k) !! c with
      | Some th => if_ok (priority_boost_reset (threads_of k) key (threadId th)) (fun s1 =>
          if_ok (priority_boost_for_thread s1 (threadId th) 0) (fun p => followedb s1 c p))
      | None => true
      end
  | None => true
  end.

Lemma unboostb_ok key k : unboostb key k = true -> unboost_within key k.
Proof.
  unfold unboostb. intros H c th s1 p Ec Et E1 Ep. rewrite Ec, Et in H.
  pose proof (if_ok_ok _ _ _ H E1) as H1. cbn in H1. by apply followedb_ok, (if_ok_ok _ _ _ H1).
Qed.

Definition wakeb (k : kernel) (key count : Z) : bool :=
  if_ok (wake_futex true k key count) (fun x => negb (fst (fst x)) || unboostb key (snd x)).

Lemma wakeb_ok k key count : wakeb k key count = true -> wake_boost_within true k key count.
Proof.
  intros H n k1 E. pose proof (if_ok_ok _ _ _ H E) as H1. cbn in H1. by apply unboostb_ok.
Qed.

Definition followedb_event (n : Z) (e : event) (y : system) : bool :=
  match e with
  | EvCall (ReqFutexWait _ _ _ _ addr expected flags) =>
      negb (truth (Z.land flags FutexPriorityInheritance)) ||
      waitb n 0x10000 0x100 (threads_of (kern y)) addr expected
  | EvCall (ReqFutexWake _ _ addr count) => wakeb (kern y) (address addr) count
  | EvResume _ _ _ _ =>
      match current (threads_of (kern y)) with
      | Some c => match frames y !! c with
                  | Some (InFutexWait f) => returnb (threads_of (kern y)) (ff_thread f) (ff_owner f)
                  | _ => true
                  end
      | None => true
      end
  | _ => true
  end.

Lemma followedb_event_ok n e y : followedb_event n e y = true -> boosts_followed true n 0x10000 0x100 e y.
Proof.
  destruct e as [[]| | | | | |]; cbn; try done.
  - intros [H|H]%orb_true_iff Hf; [by rewrite Hf in H|by apply waitb_ok].
  - apply wakeb_ok.
  - intros H c f Ec Ef. rewrite Ec, Ef in H. by apply returnb_ok.
Qed.

(** Thread 1 runs at priority 1, thread 2, of priority 2, sleeps on 0x200. *)
Definition demo_infos : list ThreadLoaderInfo := [mkInfo 0 1; mkInfo 0 2].
Definition two_waits : list event := [trap CauseTimer; waits_on_word 0x200 0 0; trap CauseEcall].
Definition demo_two : system := foldl (fun y e => after_event [1; 2] e y) (booted [1; 2]) two_waits.

Ltac ev_exception := split; [intros H; vm_compute in H |- *; done|split; [done|done]].

Ltac ev_call := split; [eexists; split; [by vm_compute|split; by vm_compute]|].
Ltac ev_readable := intros _; unfold can_access; cbn; splits; [done|done|lia|lia|by vm_compute].
Ltac ev_done := split; [by apply followedb_event_ok; vm_compute|split; [by vm_compute|]].

Lemma demo_two_reachable :
  reachable true 1000 100 0 0 2 0x10000 0x100 demo_interrupts demo_words demo_infos demo_two.
Proof.
  apply (allowed_reachable [1; 2] two_waits).
  - apply booted_reachable. by vm_compute.
  - cbn [allowed two_waits]. split; [ev_exception|ev_done].
    split; [ev_call; ev_readable|ev_done]. split; [ev_exception|ev_done]. done.
Qed.

(** Thread 2, of priority 2, waits for a lock that thread 1, of priority 1, holds and then
    releases. *)
Definition one_lock : list event :=
  [trap CauseTimer; waits_on_word 0x110 1 1; trap CauseEcall; wakes 0x110 1; trap CauseEcall].
Definition demo_lock (i : nat) : system := foldl (fun y e => after_event [1; 2] e y) (booted [1; 2]) (take i one_lock).

Lemma allowed_take ps l : forall i y, allowed ps l y -> allowed ps (take i l) y.
Proof.
  induction l as [|e l IH]; intros [|i] y H; try done. destruct H as (He & Hb & Eok & Hl).
  cbn [take firstn allowed]. splits; [done..|]. by apply IH.
Qed.

Lemma demo_lock_reachable i :
  reachable true 1000 100 0 0 2 0x10000 0x100 demo_interrupts demo_words demo_infos (demo_lock i).
Proof.
  apply (allowed_reachable [1; 2] (take i one_lock)).
  - apply booted_reachable. by vm_compute.
  - apply allowed_take. cbn [allowed one_lock]. split; [ev_exception|ev_done].
    split; [ev_call; ev_readable|ev_done]. split; [ev_exception|ev_done].
    split; [ev_call; cbn; lia|ev_done]. split; [ev_exception|ev_done]. done.
Qed.

Lemma demo_infos_ok : Forall (info_ok 4) demo_infos.
Proof. unfold demo_infos, info_ok. repeat constructor; cbn; lia. Qed.

Lemma demo_two_system_ok : system_ok 4 2 0x10000 0x100 demo_interrupts demo_two.
Proof.
  apply (system_reachable_ok 4 ltac:(lia) true 1000 100 0 0 2 0x10000 0x100 demo_interrupts demo_words demo_infos);
    [lia|exact demo_infos_ok|reflexivity|lia|exact demo_two_reachable].
Qed.

Lemma demo_lock_system_ok i : system_ok 4 2 0x10000 0x100 demo_interrupts (demo_lock i).
Proof.
  apply (system_reachable_ok 4 ltac:(lia) true 1000 100 0 0 2 0x10000 0x100 demo_interrupts demo_words demo_infos);
    [lia|exact demo_infos_ok|reflexivity|lia|apply demo_lock_reachable].
Qed.

Lemma demo_two_ok : exists a, kernel_ok 4 (kern demo_two) a.
Proof. apply demo_two_system_ok. Qed.

Lemma demo_two_current : current (threads_of (kern demo_two)) = Some 0x10000.
Proof. by vm_compute. Qed.

Lemma demo_two_running : running (threads_of (kern demo_two)).
Proof. apply demo_two_system_ok. by vm_compute. Qed.

Lemma demo_two_thread : exists th, threads (threads_of (kern demo_two)) !! 0x10000 = Some th /\ state th = Ready.
Proof. apply demo_two_running, demo_two_current. Qed.

Lemma scheduler_entry_points_safe_witness :
  exists y', step true 1000 100 0 0 2 0x10000 0x100 demo_interrupts demo_words (trap CauseTimer) demo_two =
    Ok y' /\ system_ok 4 2 0x10000 0x100 demo_interrupts y'.
Proof.
  destruct (scheduler_entry_points_safe 4 ltac:(lia) true 1000 100 0 0 2 0x10000 0x100 demo_interrupts demo_words
    demo_infos demo_two (trap CauseTimer)) as (_ & y' & E & H & _).
  - lia.
  - exact demo_infos_ok.
  - reflexivity.
  - lia.
  - exact demo_two_reachable.
  - split; [intros H; vm_compute in H; discriminate|split; [discriminate|discriminate]].
  - exact I.
  - exists y'. split; [exact E|exact H].
Defined.

(** ** Priority inheritance *)

(** Thread 1 holds two priority-inheriting locks, at 0x110 and 0x120; thread 2 waits for the
    second and thread 3 for the first. *)
Definition nested_locks : list event :=
  [trap CauseTimer; waits_on_word 0x300 0 0; trap CauseEcall; waits_on_word 0x200 0 0; trap CauseEcall;
   wakes 0x200 1; trap CauseEcall; resumes; waits_on_word 0x120 1 1; trap CauseEcall; resumes;
   wakes 0x300 1; trap CauseEcall; resumes; waits_on_word 0x110 1 1; trap CauseEcall; resumes].

(** The owner runs with the priority of the highest of those who wait for it. *)
Example owner_inherits : let y := demo [1; 2; 3] nested_locks in
  running_thread y = Some 1 /\ thread_of y 1 = Some (Ready, 3) /\
  thread_of y 2 = Some (Suspended, 2) /\ thread_of y 3 = Some (Suspended, 3).
Proof. by vm_compute. Qed.

(** The thread that starts to wait is not recorded as one that boosts the owner (its
    [futexPriorityBoostedThread] stays what it was): when the owner then releases another
    priority-inheriting lock, its priority is computed anew without that thread, and falls to
    its own although thread 3 still waits for it. *)
Theorem inheritance_lost : let y := demo [1; 2; 3] (nested_locks ++ [wakes 0x120 1]) in
  running_thread y = Some 1 /\ thread_of y 1 = Some (Ready, 1) /\ thread_of y 3 = Some (Suspended, 3).
Proof. by vm_compute. Qed.

(** The owner releases the lock of the thread of priority 3: whether to yield was decided while
    it still ran at the inherited priority, and it keeps the processor at priority 1. *)
Theorem wake_does_not_yield : let y := demo [1; 2; 3] (nested_locks ++ [wakes 0x110 1]) in
  running_thread y = Some 1 /\ thread_of y 1 = Some (Ready, 1) /\ thread_of y 3 = Some (Ready, 3) /\
  (exists k f, y = Ok (mkSystem k f false None)).
Proof.
  cbv zeta. splits; [by vm_compute..|]. set (o := demo _ _).
  assert (is_ok o = true /\ away (from_ok o) = false /\ deleting (from_ok o) = None) as (Eo & Ea & Ed)
    by (splits; by vm_compute).
  exists (kern (from_ok o)), (frames (from_ok o)). rewrite <- Ea, <- Ed. destruct o as [[]|]; done.
Qed.

(** The lock at 0x110 passes from thread 1 to thread 2 while thread 5 still waits for it.  Thread
    4 starts to wait: thread 5 now boosts the new owner, which is moved to the run queue of
    priority 4.  That is above [highestPriority], which [priority_boost] does not raise, and the
    scheduler chooses thread 3. *)
Definition changing_owner : list event :=
  [trap CauseTimer; waits_on_word 0x110 1 1; trap CauseEcall; waits_on_word 0x900 0 0; trap CauseEcall;
   waits_on_word 0x110 1 1; trap CauseEcall; wakes 0x900 1; trap CauseEcall; resumes; wakes 0x110 1;
   trap CauseTimer; resumes; waits_on_word 0xA00 0 0; trap CauseEcall;
   waits_on_word 0x110 2 1; trap CauseEcall].

Theorem boost_not_followed : let y := demo [2; 2; 3; 3; 4; 5] changing_owner in
  running_thread y = Some 3 /\ thread_of y 3 = Some (Ready, 3) /\ thread_of y 2 = Some (Ready, 4) /\
  (forall y', y = Ok y' -> highestPriority (threads_of (kern y')) = 3).
Proof.
  cbv zeta. splits; [by vm_compute..|]. set (o := demo _ _).
  assert (highestPriority (threads_of (kern (from_ok o))) = 3) as E by by vm_compute.
  intros y' ->. exact E.
Qed.

(** ** A multiwaiter that is freed while a thread waits for it

    Thread 1 deletes the multiwaiter: its destructor has run, the allocator has not freed it yet.
    Thread 2 runs, and starts to wait on it. *)
Definition demo_source (a v : Z) : EventWaiterSource := mkSource (demo_word a) v.
Definition demo_array : Capability :=
  mkCapability 0x800 0x800 0x900 true 0 (permission_set [Load; Store; LoadStoreCapability]).

Definition deletion_overtaken : list event :=
  [trap CauseTimer; EvCall (ReqCreate 2 (Some 0x7000)); EvDelete (Some 0x7000); EvChecked 0; trap CauseTimer;
   EvCall (ReqMultiWait demo_stack (fun _ => 0) 5 5 TimeoutWaitForever (Some 0x7000) demo_array
             [demo_source 0x200 0; demo_source 0x300 0] 2); trap CauseEcall; EvFreed; EvDeleted].

(** Nothing stops it: the handle still unseals.  After the release thread 2 sleeps with a pointer to
    freed memory, and the next wake, of whatever futex, follows it. *)
Theorem freed_while_waiting : let y := demo [1; 1] deletion_overtaken in
  running_thread y = Some 1 /\ thread_of y 2 = Some (Suspended, 1) /\
  demo [1; 1] (deletion_overtaken ++ [wakes 0x900 1]) = Err EFault.
Proof. by vm_compute. Qed.
