(* ===== verification/KernelTheorems.v ===== *)
(** * What the kernel's calls do

    The theorems about the futex calls, interrupts and multiwaiters, from any state that
    satisfies [kernel_ok]; [SystemSpec] shows that the kernel is always in such a state. *)

From S2P Require Import Prelude LinkedList Capability Thread ThreadQueues ThreadInv ThreadOps ThreadSchedule Scheduler Timer Timeouts MultiWaiter Futex SchedulerEntry Walks WakeSpec FutexSpec KernelEntry MultiSpec KernelCalls SystemSpec KernelDemo.

Section Theorems.
Context (NPrios : Z) (HNP : NPrios <= 32) (debug : bool) (hz rate : Z).
Context (heap_start heap_end CONFIG_THREADS_NUM threadSpaces sizeof_Thread : Z).
Context (ConfiguredInterrupts : list Interrupt) (futexWordsAddress : Z).

(** ** Waking *)

(** The thread [t] after it was woken. *)
Definition woken (r : WakeReason) (m m' : gmap Z Thread) (t : Z) : Prop :=
  exists th th', m !! t = Some th /\ m' !! t = Some th' /\ core th' = core (readied r th).

Lemma woken_ready r m m' t : woken r m m' t -> exists th', m' !! t = Some th' /\ state th' = Ready.
Proof.
  intros (th & th' & _ & E' & Ec). exists th'. split; [done|]. rewrite (core_state _ _ Ec).
  unfold readied. by destruct (_ || _).
Qed.

Lemma all_readied_woken r s a w s' a' t : all_readied NPrios r s a w s' a' -> NoDup w -> t ∈ w ->
  is_Some (threads s !! t) -> woken r (threads s) (threads s') t.
Proof.
  intros [_ Et _ _] Hnd Ht [th E]. destruct (core_lookup _ _ t (readied r th) Et) as (th' & E' & Ec).
  { by apply ready_map_in. }
  by exists th, th'.
Qed.

Lemma first_NoDup {A} n (P : A -> Prop) `{!forall x, Decision (P x)} l : NoDup l -> NoDup (first n P l).
Proof. intros Hl. unfold first. eapply sublist_NoDup; [|apply sublist_take]. by apply NoDup_filter. Qed.

Lemma woken_NoDup k a key n : kernel_ok NPrios k a ->
  NoDup (futex_woken k a key n ++ multi_woken k a key n).
Proof.
  intros Hk. pose proof (ko_wf _ _ _ Hk) as Hwf. apply NoDup_app. splits.
  - apply first_NoDup. by eapply (asleep_NoDup NPrios HFutex).
  - intros x [Hx _]%first_elem [Hx' _]%first_elem.
    by eapply (queues_disjoint NPrios _ a HFutex HMulti x Hwf).
  - apply first_NoDup. by eapply (asleep_NoDup NPrios HMulti).
Qed.

Lemma woken_in k a key n t : t ∈ futex_woken k a key n ++ multi_woken k a key n ->
  t ∈ a HFutex ++ a HMulti.
Proof. intros [[Hx _]%first_elem|[Hx _]%first_elem]%elem_of_app; set_solver. Qed.

Lemma queued_thread k a t : kernel_ok NPrios k a -> t ∈ a HFutex ++ a HMulti ->
  is_Some (threads (threads_of k) !! t).
Proof.
  intros Hk Ht. pose proof (ko_wf _ _ _ Hk) as Hwf.
  by apply elem_of_app in Ht as [Ht|Ht]; destruct (member _ _ _ _ _ Hwf Ht) as (th & ? & _); exists th.
Qed.

(** A wake of at least as many threads as sleep leaves nobody waiting for the address. *)
Lemma first_all {A} n (P : A -> Prop) `{!forall x, Decision (P x)} l : Z.of_nat (length l) <= n ->
  first n P l = filter P l.
Proof. intros Hn. unfold first. pose proof (length_filter P l). by rewrite take_ge by lia. Qed.

(** C13.  Waking a futex makes ready exactly the first [count] threads that wait for the
    address, in the order of the futex queue (by priority), then, as far as
    [count] allows, those that wait for a multiwaiter with an event of this address, in the order
    of theirs; it returns how many, leaves every other thread as it was, keeps the invariant,
    and nobody waits for the address any longer when [count] is at least the number of sleepers. *)
Theorem futex_wake_wakes_first k a key count : kernel_ok NPrios k a -> count in_u 32 ->
  let m := threads (threads_of k) in
  let w1 := first count (waits m key) (a HFutex) in
  let w2 := first (count - Z.of_nat (length w1)) (notified (waiters k) m key) (a HMulti) in
  exists k' a',
    wake_futex debug k key count = Ok (existsb (inherits m) w1, Z.of_nat (length (w1 ++ w2)), k') /\
    kernel_ok NPrios k' a' /\
    (forall h, a' h = leave (w1 ++ w2) (a h) ++ filter (joins m h) (w1 ++ w2)) /\
    (forall t, t ∈ w1 ++ w2 -> woken WakeFutex m (threads (threads_of k')) t) /\
    (forall t th, t ∉ w1 ++ w2 -> m !! t = Some th ->
       exists th', threads (threads_of k') !! t = Some th' /\ core th' = core th) /\
    waiters k' = mark_all key m (waiters k) w2 /\
    (Z.of_nat (length (a HFutex)) <= count ->
       forall t, t ∈ a' HFutex -> ~ waits (threads (threads_of k')) key t) /\
    (Z.of_nat (length (a HFutex ++ a HMulti)) <= count ->
       forall t, t ∈ a' HMulti -> ~ notified (waiters k) m key t).
Proof.
  intros Hk Hcount m w1 w2. destruct (wake_futex_steps NPrios HNP debug k a key count Hk Hcount)
    as (k' & a' & E & Har & Ew & _ & _ & _ & Hk').
  pose proof (woken_NoDup k a key count Hk) as Hnd. pose proof (woken_in k a key count) as Hin.
  fold (futex_woken k a key count) (multi_woken k a key count) in w1, w2 |- *.
  fold m w1 w2 in E, Har, Ew, Hnd, Hin |- *. rewrite length_app, Nat2Z.inj_add.
  assert (forall h, a' h = leave (w1 ++ w2) (a h) ++ filter (joins m h) (w1 ++ w2)) as Hq by apply Har.
  exists k', a'. splits; [done|done|done| | |done| |].
  - intros t Ht. apply (all_readied_woken _ _ _ _ _ _ _ Har Hnd Ht). by apply (queued_thread k a), Hin.
  - intros t th Ht Et. by apply (all_readied_lookup _ _ _ _ _ _ _ _ _ Har Ht).
  - intros Hall t. rewrite Hq, run_joins, app_nil_r by tauto. intros [Ht Hnt]%elem_of_leave Hw.
    destruct (queued_thread k a t Hk) as [th Et]; [set_solver|].
    destruct (all_readied_lookup _ _ _ _ _ _ _ _ _ Har Hnt Et) as (th' & Et' & Ec).
    unfold waits in Hw. rewrite Et' in Hw. apply look_core in Ec. injection Ec as Ec _.
    apply Hnt, elem_of_app. left. unfold w1, futex_woken. rewrite first_all by done.
    apply list_elem_of_filter. split; [|done]. unfold waits. fold m in Et. rewrite Et. by rewrite Ec in Hw.
  - intros Hall t. rewrite Hq, run_joins, app_nil_r by tauto. intros [Ht Hnt]%elem_of_leave Hw.
    apply Hnt, elem_of_app. right. unfold w2, multi_woken. rewrite length_app in Hall.
    destruct (first_length (waits m key) count (a HFutex) ltac:(lia)) as [_ Hl].
    change (length w1 <= length (a HFutex))%nat in Hl. rewrite first_all by (fold w1; lia).
    by apply list_elem_of_filter.
Qed.

(** ** Waiting *)

Section Wait.
Context (s : sched) (a : href -> list Z) (stack : Capability) (mem : Z -> Z) (now : Z)
  (timeout : TimeoutArgument) (addr : Capability) (expected flags : Z).

Notation accepted := (accepted heap_start heap_end stack timeout addr).
Notation call := (futex_timed_wait debug hz rate heap_start heap_end CONFIG_THREADS_NUM threadSpaces
  sizeof_Thread stack mem now timeout addr expected flags s).
Notation get_thread := (get_thread CONFIG_THREADS_NUM threadSpaces sizeof_Thread).

(** The thread may start to wait: the word is as expected. *)
Definition may_wait : Prop := accepted /\ can_access addr 4 [Load] /\ mem (address addr) = expected.

(** A wait that may not block. *)
Lemma wait_times_out c th : current s = Some c -> threads s !! c = Some th -> may_wait ->
  Z.land flags FutexPriorityInheritance = 0 -> timeout_may_block now timeout = false ->
  call = Ok (Returned (- ETIMEDOUT),
             with_threads (<[c := set_waitingOn (WFutex 0 (futexPriorityBoostedThread (waitingOn th)) false) th]>
               (threads s)) s).
Proof.
  intros Ec Et (Hacc & Ha & Hm) Hf Hb.
  rewrite (wait_starts _ _ _ _ _ _ _ _ _ _ _ _ _ _ _ _ c th) by done.
  rewrite Hf. cbn [truth Z.eqb negb]. rewrite ok_bind. cbn [andb]. unfold suspend_start. rewrite Hb, !ok_bind.
  unfold futex_wait_return. cbn [ff_thread ff_owner orb].
  rewrite (upd_get _ c (futex_waiting addr false th)) by (cbn; by rewrite lookup_insert_eq).
  rewrite !ok_bind, with_threads_again. cbn [threads with_threads]. by rewrite insert_insert_eq.
Qed.

(** The caller [c] sleeps: how [futex_timed_wait] leaves it. *)
Definition parked (c : Z) (th : Thread) (pi : bool) (s' : sched) (a' : href -> list Z) : Prop :=
  exists th', threads s' !! c = Some th' /\ state th' = Suspended /\
    c ∈ a' HFutex /\ waits (threads s') (address addr) c /\ futexPriorityInheriting (waitingOn th') = pi /\
    expiryTime th' = timeout_expiry hz rate now timeout /\ priority th' = priority th.

Lemma stepped_parked s1 a1 c th th2 pi s' a' : core th2 = core (futex_waiting addr pi th) ->
  stepped NPrios s1 a1 c (suspended (timeout_expiry hz rate now timeout) (Some HFutex) false th2) s' a' ->
  parked c th pi s' a'.
Proof.
  intros E2 (Hw' & _ & Ecore & _). pose proof (core_fields _ _ E2) as (_ & _ & Ew2 & _ & _ & Ep2 & _).
  destruct (core_lookup _ _ c (suspended (timeout_expiry hz rate now timeout) (Some HFutex) false th2) Ecore)
    as (th' & Et' & Ec'); [by rewrite lookup_insert_eq|].
  pose proof (core_fields _ _ Ec') as (Eq & Ee & Ew' & _ & _ & Ep & _ & Es & _).
  cbn in Ew', Ep, Ew2, Ep2. rewrite Ew2 in Ew'.
  exists th'. splits; [done|by rewrite Es| | |by rewrite Ew'|done|congruence].
  - apply (f_members _ _ _ (wf_fields _ _ _ Hw')). exists th'. split; [done|]. split; [by rewrite Es|by rewrite Eq].
  - unfold waits. by rewrite Et', Ew'.
Qed.

Lemma stepped_elsewhere s1 a1 c th s' a' : stepped NPrios s1 a1 c th s' a' ->
  forall h t, t <> c -> t ∈ a' h <-> t ∈ a1 h.
Proof.
  intros (_ & Hrq & _) h t Ht. specialize (Hrq h). case_decide.
  - destruct Hrq as (l1 & l2 & E1 & E2 & _). rewrite E2. pose proof (elem_of_rem t c (a1 h)) as Hr.
    rewrite E1 in Hr. set_solver.
  - rewrite Hrq, elem_of_rem. tauto.
Qed.

(** A priority-inheriting wait whose boosts the scheduler follows: the owner is boosted, and the
    caller is recorded as waiting. *)
Lemma wait_boosts c th o : wf NPrios s a -> current s = Some c -> threads s !! c = Some th -> state th = Ready ->
  let id := u16 expected in
  get_thread id = Some o -> o <> c -> is_Some (threads s !! o) ->
  wait_boost_within debug CONFIG_THREADS_NUM threadSpaces sizeof_Thread s addr expected ->
  exists s2 a2 th2,
    futex_boost_owner debug CONFIG_THREADS_NUM threadSpaces sizeof_Thread
      (with_threads (<[c := futex_waiting addr true th]> (threads s)) s) c (address addr) expected =
      Ok (Some (o, id), s2) /\ wf NPrios s2 a2 /\ threads s2 !! c = Some th2 /\
    core th2 = core (futex_waiting addr true th) /\ ticksSinceBoot s2 = ticksSinceBoot s /\
    (forall h t, t <> o -> t ∈ a2 h <-> t ∈ a h) /\ return_boost_within s2 c (Some (o, id)) /\
    is_Some (threads s2 !! o).
Proof.
  intros Hwf Ec Et Hst id Hg Hne Ho Hw.
  destruct (owner_boosted NPrios HNP debug CONFIG_THREADS_NUM threadSpaces sizeof_Thread s addr expected
    a c th o Hwf Ec Et Hg Hne Ho) as (u & s2 & a2 & E & Eu & Hs & Hrc).
  set (s1 := with_threads (<[c := futex_waiting addr true th]> (threads s)) s) in *.
  assert (wf NPrios s1 a) as Hwf1 by (apply wf_relabel; [done|by apply relabels_insert]).
  pose proof (boost_update_ok NPrios s1 a (address addr) id Hwf1) as Eup.
  change (with_threads (relabel_all _ (threads s1) (a HFutex)) s1) with (retargeted s addr a c id th) in Eup.
  assert (wf NPrios (retargeted s addr a c id th) a) as Hwf2 by (apply wf_relabel; [done|by apply retargeted_relabels]).
  pose proof (boost_for_thread_ok NPrios HNP (retargeted s addr a c id th) a id (priority th) Hwf2) as Ep.
  fold (owner_boost s addr a c id th) in Ep.
  destruct (Hw c th _ _ o Ec Et Eup Ep Hg) as [Hf Hret]. specialize (Hrc Hf). rewrite Hrc in Hs.
  assert (c ∉ a HFutex) as Hc by (eapply (ready_not_asleep NPrios); [exact Hwf|done..|tauto]).
  assert (threads (retargeted s addr a c id th) !! c = Some (futex_waiting addr true th)) as Etr.
  { cbn. rewrite relabel_all_lookup by by eapply (asleep_NoDup NPrios HFutex).
    by rewrite decide_False, lookup_insert_eq. }
  destruct (stepped_get _ _ _ _ _ _ _ c _ Hs Hne Etr) as (th2 & Et2 & Ecore2).
  pose proof Hs as (Hw2 & _ & Ecore & Eo).
  exists s2, a2, th2. splits; [exact E|exact Hw2|done|done| |by eapply stepped_elsewhere| |].
  - change (ticksSinceBoot (retargeted s addr a c id th) = ticksSinceBoot s) with (ticksSinceBoot s = ticksSinceBoot s).
    by injection Eo.
  - apply Hret. unfold futex_boost_owner in E. fold id in E. rewrite Hg in E.
    rewrite bool_decide_eq_false_2 in E by done. rewrite Eup, ok_bind, (get_ok _ _ _ Etr), ok_bind in E.
    change (priority (futex_waiting addr true th)) with (priority th) in E. rewrite Ep, ok_bind in E.
    destruct (priority_boost _ _ _ _) as [s2'|]; [|done]. rewrite ok_bind in E. congruence.
  - destruct (core_lookup _ _ o (boosted (owner_boost s addr a c id th) u) Ecore) as (tx & Ex & _);
      [by rewrite lookup_insert_eq|]. by exists tx.
Qed.

(** The way back from a wait: the caller waits no longer, and the owner's priority is computed
    anew. *)
Lemma wait_ends s2 a2 c th2 f timedout valid : wf NPrios s2 a2 -> threads s2 !! c = Some th2 ->
  ff_thread f = c -> (forall o id, ff_owner f = Some (o, id) -> is_Some (threads s2 !! o)) ->
  return_boost_within s2 c (ff_owner f) ->
  exists s' a', futex_wait_return debug f timedout valid s2 =
      Ok (if timedout then - ETIMEDOUT else if negb valid then - EINVAL else 0, s') /\ wf NPrios s' a'.
Proof.
  intros Hwf Et Ef Ho Hb. unfold futex_wait_return. rewrite Ef.
  pose proof (upd_get _ _ _ (set_futexWaitAddress 0) Et) as Eu. run Eu. set (s3 := with_threads _ s2) in *.
  assert (relabels (threads s2) (threads s3)) as Hr by by apply (relabels_insert _ c th2).
  assert (wf NPrios s3 a2) as Hwf3 by by apply wf_relabel.
  destruct (ff_owner f) as [[o id]|]; [|rewrite ok_bind; by exists s3, a2].
  destruct (Ho o id eq_refl) as [tho Eo]. destruct (relabels_lookup _ _ _ _ Hr Eo) as [u Eu'].
  pose proof (boost_for_thread_ok NPrios HNP s3 a2 id 0 Hwf3) as Ep. run Ep.
  destruct (boost_ok NPrios HNP debug s3 a2 o (set_waitingOn u tho) (boost_of (threads s3) (a2 HFutex) id 0) Hwf3 Eu')
    as (s4 & a4 & E4 & Hs4).
  - exact (boost_of_thread_lt NPrios s3 a2 id _ o Hwf3 Eu').
  - by eapply Hb.
  - run E4. exists s4, a4. split; [done|apply Hs4].
Qed.

(** C14.  Every way out of [futex_timed_wait] but the return after a sleep: arguments that the checks
    refuse give [-EINVAL]; a checked pointer that does not allow to read a word traps; a word with
    another value gives 0 at once; a priority-inheriting wait whose word names no other thread
    gives [-EINVAL]; none of these but the last changes anything.  Otherwise the caller gets
    [-ETIMEDOUT] if it may not block, and if it may, it sleeps in the queue of futex waiters until its
    expiry time, waiting for the address, and keeps its priority; a priority-inheriting wait
    remembers the owner that it boosts, and no other thread changes queues.  For such a wait
    the boosts of the owner must be ones that [highestPriority] survives (C19 has the boost
    itself without this condition). *)
Theorem futex_timed_wait_branches c th : wf NPrios s a -> current s = Some c -> threads s !! c = Some th ->
  state th = Ready ->
  let pi := Z.land flags FutexPriorityInheritance in
  let id := u16 expected in
  (~ accepted -> call = Ok (Returned (- EINVAL), s)) /\
  (accepted -> ~ can_access addr 4 [Load] -> call = Err ETrap) /\
  (accepted -> can_access addr 4 [Load] -> mem (address addr) <> expected -> call = Ok (Returned 0, s)) /\
  (may_wait -> pi <> 0 -> get_thread id = None \/ get_thread id = Some c ->
     exists s', call = Ok (Returned (- EINVAL), s') /\ wf NPrios s' a) /\
  (may_wait -> pi = 0 -> timeout_may_block now timeout = false ->
     exists s', call = Ok (Returned (- ETIMEDOUT), s') /\ wf NPrios s' a) /\
  (may_wait -> pi = 0 -> timeout_may_block now timeout = true ->
     exists s' a', call = Ok (Yielded (mkFutexFrame c timeout (ticksSinceBoot s) None), s') /\
       wf NPrios s' a' /\ parked c th false s' a' /\ (forall h t, t <> c -> t ∈ a' h <-> t ∈ a h)) /\
  (may_wait -> pi <> 0 -> forall o, get_thread id = Some o -> o <> c -> is_Some (threads s !! o) ->
     wait_boost_within debug CONFIG_THREADS_NUM threadSpaces sizeof_Thread s addr expected ->
     (timeout_may_block now timeout = false ->
        exists s' a', call = Ok (Returned (- ETIMEDOUT), s') /\ wf NPrios s' a') /\
     (timeout_may_block now timeout = true ->
        exists s' a', call = Ok (Yielded (mkFutexFrame c timeout (ticksSinceBoot s) (Some (o, id))), s') /\
          wf NPrios s' a' /\ parked c th true s' a' /\
          (forall h t, t <> c -> t <> o -> t ∈ a' h <-> t ∈ a h))).
Proof.
  intros Hwf Ec Et Hst pi id.
  destruct (wait_checks debug hz rate heap_start heap_end CONFIG_THREADS_NUM threadSpaces sizeof_Thread s stack mem
    now timeout addr expected flags) as (H1 & H2 & H3).
  splits; [done..| | | |].
  - intros (Hacc & Ha & Hm) Hpi Ho. eexists. split.
    { apply (wait_refuses_owner debug hz rate heap_start heap_end CONFIG_THREADS_NUM threadSpaces sizeof_Thread s
        stack mem now timeout addr expected flags c th); try done.
      unfold truth. by apply negb_true_iff, Z.eqb_neq. }
    apply wf_relabel; [done|by apply relabels_insert].
  - intros Hw Hpi Hb. eexists. split; [by apply wait_times_out|]. apply wf_relabel; [done|by apply relabels_insert].
  - intros (Hacc & Ha & Hm) Hpi Hb.
    destruct (wait_parks NPrios HNP debug hz rate heap_start heap_end CONFIG_THREADS_NUM threadSpaces sizeof_Thread s
      stack mem now timeout addr expected flags a c th) as (s' & a' & E & Hs); [done..|].
    exists s', a'. splits; [done|apply Hs| |by eapply stepped_elsewhere]. by eapply stepped_parked.
  - intros (Hacc & Ha & Hm) Hpi o Hg Hne Ho Hw.
    destruct (wait_boosts c th o Hwf Ec Et Hst Hg Hne Ho Hw) as (s2 & a2 & th2 & E2 & Hw2 & Et2 & Ecore2 & Eti & Hq & Hret & Ho2).
    rewrite (wait_starts debug hz rate heap_start heap_end CONFIG_THREADS_NUM threadSpaces sizeof_Thread
      s stack mem now timeout addr expected flags c th) by done.
    assert (truth (Z.land flags FutexPriorityInheritance) = true) as ->
      by (unfold truth; by apply negb_true_iff, Z.eqb_neq).
    rewrite E2, ok_bind. cbn beta iota. rewrite bool_decide_eq_false_2 by done. cbn [andb]. split; intros Hb.
    + unfold suspend_start. rewrite Hb, !ok_bind. cbn [orb].
      destruct (wait_ends s2 a2 c th2 (mkFutexFrame c timeout (ticksSinceBoot s2) (Some (o, u16 expected))) true
        (is_valid addr) Hw2 Et2 eq_refl) as (s4 & a4 & E4 & Hw4); [by intros o' id' [= <- <-]|done|].
      run E4. by exists s4, a4.
    + assert (state th2 = Ready) as Hst2 by by rewrite (core_state _ _ Ecore2).
      destruct (suspend_blocks NPrios HNP debug hz rate now timeout s2 a2 c th2 Hw2 Et2 Hst2 Hb)
        as (s3 & a3 & E3 & Hs3).
      run E3. exists s3, a3. splits; [|apply Hs3|by eapply stepped_parked|].
      * pose proof Hs3 as (_ & _ & _ & Eo). do 4 f_equal. rewrite <- Eti. by injection Eo.
      * intros h t Hc Ho'. by rewrite (stepped_elsewhere _ _ _ _ _ _ Hs3), Hq.
Qed.





End Wait.

(** ** The return from a wait *)




(** ** Giving way *)

Lemma ensure_tick_bound s c th cmp : current s = Some c -> threads s !! c = Some th ->
  exists cmp', ensure_tick hz rate debug s cmp = Ok cmp' /\
    cmp' = Z.min cmp (u64 (expiryTime th + TIMERCYCLES_PER_TICK hz rate)).
Proof.
  intros Ec Et. unfold ensure_tick. rewrite dassert_true, ok_bind by by rewrite Ec.
  run (deref_ok _ _ Ec). run (get_ok _ _ _ Et). eexists. split; [done|].
  unfold setnext, u64 at 2. rewrite (wrap_small 64 (u64 _)) by (apply wrap_bound; lia).
  destruct (Z.ltb_spec (u64 (expiryTime th + TIMERCYCLES_PER_TICK hz rate)) cmp); lia.
Qed.

(** C20.  The entry point [futex_wake] refuses a pointer that is not valid.  Otherwise it returns the
    number of threads that it woke.  When it woke some, it keeps the processor only if no ready
    thread has a higher priority than the caller had when it called; if one has the same
    priority, it yields at once, or lets the next timer interrupt come at the latest a tick after
    the caller's start.  When it woke none, it does not yield.  The caller's own priority
    changes only if a woken thread inherits it: it may drop then, and whether to yield was decided
    before ([wake_does_not_yield]); the boost that it is left with must be one that
    [highestPriority] survives. *)
Theorem futex_wake_gives_way k a stack now addr count c th : kernel_ok NPrios k a ->
  running (threads_of k) -> current (threads_of k) = Some c -> threads (threads_of k) !! c = Some th ->
  count in_u 32 -> wake_boost_within debug k (address addr) count ->
  let call := futex_wake debug hz rate stack now addr count k in
  let m := threads (threads_of k) in
  let w := futex_woken k a (address addr) count ++ multi_woken k a (address addr) count in
  (check_pointer_for stack [] true addr default_space = false -> call = Ok (- EINVAL, NoYield, k)) /\
  (check_pointer_for stack [] true addr default_space = true ->
   exists kind k' a' th', call = Ok (Z.of_nat (length w), kind, k') /\ kernel_ok NPrios k' a' /\
     (forall t, t ∈ w -> woken WakeFutex m (threads (threads_of k')) t) /\
     threads (threads_of k') !! c = Some th' /\ OriginalPriority th <= priority th' /\
     (existsb (inherits m) (futex_woken k a (address addr) count) = false -> priority th' = priority th) /\
     (w = [] -> kind = NoYield) /\
     (w <> [] -> kind <> YieldNow -> forall t tt, t <> c -> threads (threads_of k') !! t = Some tt ->
        state tt = Ready -> priority tt <= priority th) /\
     (w <> [] -> kind = NoYield -> forall t tt, t <> c -> threads (threads_of k') !! t = Some tt ->
        state tt = Ready -> priority tt <> priority th) /\
     (kind = YieldLater -> timer_cmp k' <= u64 (expiryTime th' + TIMERCYCLES_PER_TICK hz rate))).
Proof.
  intros Hk Hr Ec Et Hcount Hwithin call m w. unfold call, futex_wake. split; intros Hp; rewrite Hp; [done|].
  cbn [negb]. destruct (wake_futex_steps NPrios HNP debug k a (address addr) count Hk Hcount)
    as (k1 & a1 & E1 & Har & _ & _ & _ & _ & Hk1). rewrite E1, ok_bind. cbn beta iota.
  assert (Z.of_nat (length (futex_woken k a (address addr) count)) +
    Z.of_nat (length (multi_woken k a (address addr) count)) = Z.of_nat (length w)) as ->.
  { unfold w. rewrite length_app. lia. }
  assert (0 < Z.of_nat (length w) <-> w <> []) as Hpos by (destruct w; cbn; split; (done || lia)).
  pose proof (running_all_readied _ _ _ _ _ _ _ Har Hr) as Hr1.
  assert (current (threads_of k1) = Some c) as Ec1.
  { pose proof (ar_others _ _ _ _ _ _ _ Har) as Ho. rewrite <- Ec. by injection Ho. }
  destruct (wake_kind_ok NPrios HNP debug hz rate (threads_of k1) a1 now (Z.of_nat (length w))
    (ko_wf _ _ _ Hk1) Hr1 ltac:(by exists c)) as (kind & Ek & Hmax & Halone). run Ek.
  destruct (Hr c Ec) as (th0 & Et0 & Hst). assert (th0 = th) as -> by congruence.
  assert (c ∉ w) as Hc.
  { intros Hc%woken_in%elem_of_app. pose proof (ko_wf _ _ _ Hk) as Hwf.
    destruct Hc as [Hc|Hc]; destruct (member _ _ _ _ _ Hwf Hc) as (tc & Etc & Hb & _); congruence. }
  destruct (all_readied_lookup _ _ _ _ _ _ _ _ _ Har Hc Et) as (th1 & Et1 & Ecore).
  pose proof (core_fields _ _ Ecore) as (_ & Ee & _ & _ & _ & Ep & Eor & _).
  destruct (f_threads _ _ _ (wf_fields _ _ _ (ko_wf _ _ _ Hk)) _ _ Et) as ([_ Horig] & _).
  set (pi := existsb _ _) in *. change (if pi then _ else Ok k1) with (if pi then unboost debug (address addr) k1 else Ok k1).
  assert (exists k2 a2 th', (if pi then unboost debug (address addr) k1 else Ok k1) = Ok k2 /\ kernel_ok NPrios k2 a2 /\
    current (threads_of k2) = Some c /\ only_boosts a1 c (threads_of k1) (threads_of k2) /\
    dom (threads (threads_of k2)) = dom (threads (threads_of k1)) /\
    threads (threads_of k2) !! c = Some th' /\ expiryTime th' = expiryTime th1 /\
    OriginalPriority th <= priority th' /\ (pi = false -> priority th' = priority th))
    as (k2 & a2 & th' & E2 & Hk2 & Ec2 & Hothers & Hdom & Et' & Ee' & Ho' & Hpi).
  { destruct pi eqn:Epi.
    - destruct (unboost_after NPrios HNP debug k1 a1 (address addr) c th1 Hk1 Hr1 Ec1 Et1)
        as (k2 & th' & E2 & [[a2 Hk2] Hi Hcur _ _] & _ & _ & _ & Ho & Et' & Ee' & Ho').
      { by eapply Hwithin. }
      exists k2, a2, th'. splits; try done; [by rewrite Hcur| |by rewrite <- Eor].
      apply (f_equal dom) in Hi. unfold ids in Hi. by rewrite !dom_fmap_L in Hi.
    - exists k1, a1, th1. splits; try done; [|lia]. intros t tt _ Ett. by exists tt. }
  run E2. assert (exists k', (match kind with
      | YieldLater => cmp ← ensure_tick hz rate debug (threads_of k2) (timer_cmp k2); Ok (with_cmp cmp k2)
      | _ => Ok k2 end) = Ok k' /\ threads_of k' = threads_of k2 /\ waiters k' = waiters k2 /\
      (kind = YieldLater -> timer_cmp k' <= u64 (expiryTime th' + TIMERCYCLES_PER_TICK hz rate)))
    as (k' & E' & Es' & Ew' & Hcmp).
  { destruct kind; [by exists k2| |by exists k2].
    destruct (ensure_tick_bound (threads_of k2) c th' (timer_cmp k2) Ec2 Et') as (cmp & E & Hcmp). run E.
    eexists. splits; [done..|]. intros _. cbn. lia. }
  assert (forall t tt, t <> c -> threads (threads_of k2) !! t = Some tt -> state tt = Ready ->
    exists tt1, threads (threads_of k1) !! t = Some tt1 /\ state tt1 = Ready /\ priority tt = priority tt1) as Hback.
  { intros t tt Hne Ett Hs. assert (is_Some (threads (threads_of k1) !! t)) as [tt1 Ett1].
    { apply elem_of_dom. rewrite <- Hdom. apply elem_of_dom. by exists tt. }
    destruct (Hothers t tt1 Hne Ett1) as (tt2 & Ett2 & Epr & Ess & _). assert (tt2 = tt) as -> by congruence.
    exists tt1. splits; [done|congruence|done]. }
  run E'. exists kind, k', a2, th'. rewrite Es'. splits; [done|by eapply kernel_ok_ext| |done|done|done| | | |done].
  - intros t Ht.
    assert (woken WakeFutex m (threads (threads_of k1)) t) as (tx & tx1 & Ex & Ex1 & Ecx).
    { eapply all_readied_woken; [exact Har|by apply woken_NoDup|done|]. by eapply queued_thread, woken_in. }
    destruct (Hothers t tx1) as (tx2 & Ex2 & _ & _ & Ecx2); [by intros ->|done|].
    exists tx, tx2. splits; [done|done|]. rewrite Ecx2; [done|].
    eapply (ready_not_asleep NPrios); [apply Hk1|exact Ex1| |tauto].
    rewrite (core_state _ _ Ecx). unfold readied. by destruct (_ || _).
  - intros ->. cbn in Ek. by injection Ek.
  - intros Hw Hkind t tt Hne E Hs. destruct (Hback t tt Hne E Hs) as (tt1 & E1' & Hs1 & ->).
    rewrite <- Ep. by eapply Hmax; [apply Hpos| |..].
  - intros Hw Hkind t tt Hne E Hs. destruct (Hback t tt Hne E Hs) as (tt1 & E1' & Hs1 & ->).
    rewrite <- Ep. intros Eq. apply Hne. eapply Halone; [by apply Hpos|done..|].
    apply (f_members _ _ _ (wf_fields _ _ _ (ko_wf _ _ _ Hk1))). exists tt1. by split.
Qed.

(** ** Exceptions and interrupts *)

(** The context [r] is that of the running thread, which is ready and has the highest priority of
    those that are, or it is the idle context and no thread is ready. *)
Definition chosen (r : Z) (s : sched) : Prop :=
  match current s with
  | Some n => exists tn, threads s !! n = Some tn /\ state tn = Ready /\ r = tStackPtr tn /\
      forall x tx, threads s !! x = Some tx -> state tx = Ready -> priority tx <= priority tn
  | None => r = schedTStack s /\ forall x tx, threads s !! x = Some tx -> state tx <> Ready
  end.

Lemma exception_chooses k a stk tick n1 n2 n3 zero : kernel_ok NPrios k a ->
  exists r k' a',
    (s ← (if tick || negb (any_ready (threads_of k))
          then expiretimers hz rate debug (threads_of k) n1 zero else Ok (threads_of k));
     '(newContext, s) ← schedule debug s stk n2;
     cmp ← update hz rate debug s n3 (timer_cmp k);
     Ok (newContext, with_cmp cmp (with_sched s k))) = Ok (r, k') /\
    kernel_ok NPrios k' a' /\ chosen r (threads_of k') /\ futexWords k' = futexWords k.
Proof.
  intros Hk. assert (exists s1 a1, (if tick || negb (any_ready (threads_of k))
      then expiretimers hz rate debug (threads_of k) n1 zero else Ok (threads_of k)) = Ok s1 /\
    kernel_ok NPrios (with_sched s1 k) a1) as (s1 & a1 & E1 & Hk1).
  { destruct (tick || _); [|exists (threads_of k), a; split; [done|by eapply kernel_ok_ext]].
    destruct (expire_ok NPrios HNP debug hz rate k a n1 zero Hk) as (s1 & a1 & ? & ? & _). by exists s1, a1. }
  run E1. destruct (schedule_ok NPrios HNP debug (with_sched s1 k) a1 stk n2 Hk1) as (r & s2 & a2 & E2 & Hk2 & _ & Hr2 & _).
  cbn [threads_of with_sched] in E2. run E2.
  destruct (update_total NPrios HNP debug hz rate s2 a2 n3 (timer_cmp k)) as [cmp Ecmp]; [apply Hk2|done|].
  run Ecmp. exists r, (with_cmp cmp (with_sched s2 k)), a2. splits; [done|by eapply kernel_ok_ext| |done].
  destruct (schedule_steps NPrios HNP debug s1 a1 stk n2) as (r' & s2' & a2' & E2' & _ & _ & _ & _ & _ & Hcur).
  { apply Hk1. }
  { apply Hk1. }
  assert (s2' = s2 /\ r' = r) as [-> ->] by (split; congruence). unfold chosen. cbn.
  destruct (current s2); [|done]. destruct Hcur as (tn & ? & ? & ? & _ & ?). by exists tn.
Qed.


Lemma ready_any k a c : kernel_ok NPrios k a -> running (threads_of k) -> current (threads_of k) = Some c ->
  any_ready (threads_of k) = true.
Proof.
  intros Hk Hr Ec. destruct (Hr c Ec) as (th & Et & Hst).
  apply (any_ready_iff NPrios HNP _ a (ko_wf _ _ _ Hk)). by exists c, th.
Qed.

(** All threads that wait for [key], and all whose multiwaiter has an event for it. *)
Definition sleepers (k : kernel) (a : href -> list Z) (key : Z) : list Z :=
  filter (waits (threads (threads_of k)) key) (a HFutex) ++
  filter (notified (waiters k) (threads (threads_of k)) key) (a HMulti).

Lemma wake_all k a key : kernel_ok NPrios k a ->
  futex_woken k a key (2 ^ 32 - 1) ++ multi_woken k a key (2 ^ 32 - 1) = sleepers k a key.
Proof.
  intros Hk. pose proof (queue_length NPrios k a HFutex Hk). pose proof (queue_length NPrios k a HMulti Hk).
  assert (futex_woken k a key (2 ^ 32 - 1) = filter (waits (threads (threads_of k)) key) (a HFutex)) as E.
  { unfold futex_woken. by rewrite first_all by lia. }
  unfold multi_woken. rewrite E. unfold sleepers. f_equal.
  pose proof (length_filter (waits (threads (threads_of k)) key) (a HFutex)). by rewrite first_all by lia.
Qed.

(** C23.  An external interrupt of a configured source increments the word of the source, modulo
    2^32, and completes the interrupt exactly if it is edge-triggered; it makes ready all threads
    that wait for the word, directly or through a multiwaiter.  If there are none, the exception
    returns to the interrupted thread and no thread changes; otherwise the scheduler chooses a
    ready thread of the highest priority. *)
Theorem interrupt_wakes_waiters k a src i c stk n1 n2 n3 zero : kernel_ok NPrios k a ->
  words_ok ConfiguredInterrupts k -> running (threads_of k) -> current (threads_of k) = Some c ->
  index_of_source ConfiguredInterrupts src = Some i ->
  let word := futexWordsAddress + i * sizeof_word in
  let all := sleepers k a word in
  exists x w k1 pi k2 a2,
    ConfiguredInterrupts !! Z.to_nat i = Some x /\ number x = src /\ futexWords k !! Z.to_nat i = Some w /\
    do_external_interrupt ConfiguredInterrupts futexWordsAddress (Some src) k = Ok (Some word, k1) /\
    futexWords k1 = <[Z.to_nat i := u32 (w + 1)]> (futexWords k) /\
    completed k1 = completed k ++ (if isEdgeTriggered x then [src] else []) /\
    wake_futex debug k1 word (2 ^ 32 - 1) = Ok (pi, Z.of_nat (length all), k2) /\ kernel_ok NPrios k2 a2 /\
    (forall t, t ∈ all -> woken WakeFutex (threads (threads_of k)) (threads (threads_of k2)) t) /\
    exists r k3 a3,
      exception_entry debug hz rate ConfiguredInterrupts futexWordsAddress stk (CauseExternal (Some src))
        n1 n2 n3 zero k = Ok (r, k3) /\ kernel_ok NPrios k3 a3 /\ futexWords k3 = futexWords k1 /\
      (all = [] -> r = stk /\ current (threads_of k3) = Some c /\
         core <$> threads (threads_of k3) = core <$> threads (threads_of k)) /\
      (all <> [] -> chosen r (threads_of k3)).
Proof.
  intros Hk Hw Hr Ec Ei word all.
  destruct (external_steps ConfiguredInterrupts futexWordsAddress k src i Hw Ei)
    as (x & w & k1 & Ex & Ew & E1 & Et1 & Ews1 & _ & Ef1 & Ec1 & Hw1).
  destruct (index_from_range 0 _ _ _ Ei) as (_ & x' & Ex' & Hnum). rewrite Z.sub_0_r in Ex'.
  assert (x' = x) as -> by congruence.
  assert (kernel_ok NPrios k1 a) as Hk1 by by eapply kernel_ok_ext.
  destruct (wake_futex_steps NPrios HNP debug k1 a word (2 ^ 32 - 1) Hk1 ltac:(lia))
    as (k2 & a2 & E2 & Har & _ & _ & Ef2 & _ & Hk2).
  assert (sleepers k1 a word = all) as Eall by (unfold all, sleepers; by rewrite Et1, Ews1).
  rewrite (wake_all k1 a word Hk1), Eall in Har. pose proof (woken_NoDup k1 a word (2 ^ 32 - 1) Hk1) as Hnd.
  pose proof (woken_in k1 a word (2 ^ 32 - 1)) as Hin. rewrite (wake_all k1 a word Hk1), Eall in Hnd, Hin.
  rewrite <- Nat2Z.inj_add, <- length_app, (wake_all k1 a word Hk1), Eall in E2.
  eexists x, w, k1, _, k2, a2. splits; try done.
  { intros t Ht. rewrite <- Et1. eapply all_readied_woken; [exact Har|done|done|]. by eapply queued_thread, Hin. }
  unfold exception_entry. rewrite E1, !ok_bind. cbv beta iota. fold word. rewrite E2, !ok_bind. cbv beta iota.
  destruct (decide (all = [])) as [Enil|Hne].
  - rewrite Enil in *. cbn [length Z.of_nat Z.ltb Z.compare orb].
    assert (running (threads_of k2)) as Hr2 by (eapply running_all_readied; [exact Har|by rewrite Et1]).
    assert (current (threads_of k2) = Some c) as Ec2.
    { pose proof (ar_others _ _ _ _ _ _ _ Har) as Ho. rewrite <- Ec, <- Et1. by injection Ho. }
    rewrite (ready_any k2 a2 c Hk2 Hr2 Ec2). change (0 <? Z.of_nat 0) with false. cbn [negb orb]. rewrite !ok_bind.
    destruct (update_total NPrios HNP debug hz rate (threads_of k2) a2 n3 (timer_cmp k2)) as [cmp Ecmp]; [apply Hk2|done|].
    run Ecmp. eexists stk, _, a2. splits; [done|by eapply kernel_ok_ext|done| |done].
    intros _. splits; [done|done|]. cbn. rewrite (ar_threads _ _ _ _ _ _ _ Har). cbn. by rewrite Et1.
  - assert (0 <? Z.of_nat (length all) = true) as Epos.
    { apply Z.ltb_lt. destruct all; [done|cbn; lia]. }
    rewrite Epos. cbn [orb]. destruct (exception_chooses k2 a2 stk true n1 n2 n3 zero Hk2) 
      as (r & k3 & a3 & E3 & Hk3 & Hch & Ef3).
    cbn [orb] in E3. eexists r, k3, a3. splits; [exact E3|done|congruence|done|done].
Qed.
End Theorems.

(** ** The theorems at a concrete state *)

Lemma futex_wake_wakes_first_witness : exists pi n k' a',
  wake_futex true (kern demo_two) 0x200 1 = Ok (pi, n, k') /\ kernel_ok 4 k' a'.
Proof.
  destruct demo_two_ok as [a Hk].
  destruct (futex_wake_wakes_first 4 ltac:(lia) true (kern demo_two) a 0x200 1 Hk ltac:(lia))
    as (k' & a' & E & Hk' & _).
  eexists _, _, k', a'. split; [exact E|exact Hk'].
Defined.

(** The threads of [demo_lock]: number 1 at 0x10000, number 2 at 0x10100. *)
Lemma demo_lock_ok i : exists a, kernel_ok 4 (kern (demo_lock i)) a.
Proof. apply (demo_lock_system_ok i). Qed.

Lemma demo_lock_thread i c : away (demo_lock i) = false -> current (threads_of (kern (demo_lock i))) = Some c ->
  exists th, threads (threads_of (kern (demo_lock i))) !! c = Some th /\ state th = Ready.
Proof. intros Ha. by apply (so_running _ _ _ _ _ _ (demo_lock_system_ok i)). Qed.


(** Thread 2 waits for the lock that thread 1 holds. *)
Lemma futex_timed_wait_branches_witness : exists s' (a' : href -> list Z),
  let s := threads_of (kern (demo_lock 1)) in
  futex_timed_wait true 1000 100 0 0 2 0x10000 0x100 demo_stack (fun _ => 1) 5 TimeoutWaitForever
    (demo_word 0x110) 1 1 s =
    Ok (Yielded (mkFutexFrame 0x10100 TimeoutWaitForever (ticksSinceBoot s) (Some (0x10000, 1))), s') /\
  0x10100 ∈ a' HFutex.
Proof.
  destruct (demo_lock_ok 1) as [a Hk]. assert (current (threads_of (kern (demo_lock 1))) = Some 0x10100) as Ec by by vm_compute.
  destruct (demo_lock_thread 1 0x10100 ltac:(by vm_compute) Ec) as (th & Et & Hst).
  destruct (futex_timed_wait_branches 4 ltac:(lia) true 1000 100 0 0 2 0x10000 0x100 (threads_of (kern (demo_lock 1))) a
    demo_stack (fun _ => 1) 5 TimeoutWaitForever (demo_word 0x110) 1 1 0x10100 th (ko_wf _ _ _ Hk) Ec Et Hst)
    as (_ & _ & _ & _ & _ & _ & H).
  destruct (H) with (o := 0x10000) as [_ Hs].
  - split; [split; [reflexivity|by vm_compute]|split; [|reflexivity]].
    unfold can_access. cbn. splits; [done|done|lia|lia|by vm_compute].
  - discriminate.
  - reflexivity.
  - discriminate.
  - destruct (threads (threads_of (kern (demo_lock 1))) !! 0x10000) eqn:E; [by eexists|by vm_compute in E].
  - apply waitb_ok. by vm_compute.
  - destruct (Hs eq_refl) as (s' & a' & E & _ & (th' & _ & _ & Hq & _) & _). exists s', a'. split; [exact E|exact Hq].
Defined.



(** Thread 1, at the priority it inherits, wakes thread 2. *)
Lemma futex_wake_gives_way_witness : exists n kind k' th th',
  futex_wake true 1000 100 demo_stack 5 (demo_word 0x110) 1 (kern (demo_lock 3)) = Ok (n, kind, k') /\
  threads (threads_of k') !! 0x10000 = Some th' /\ OriginalPriority th <= priority th'.
Proof.
  destruct (demo_lock_ok 3) as [a Hk]. assert (current (threads_of (kern (demo_lock 3))) = Some 0x10000) as Ec by by vm_compute.
  assert (away (demo_lock 3) = false) as Haw by by vm_compute.
  destruct (demo_lock_thread 3 0x10000 Haw Ec) as (th & Et & Hst).
  destruct (futex_wake_gives_way 4 ltac:(lia) true 1000 100 (kern (demo_lock 3)) a demo_stack 5 (demo_word 0x110) 1 0x10000 th
    Hk (so_running _ _ _ _ _ _ (demo_lock_system_ok 3) Haw) Ec Et ltac:(lia)) as [_ H].
  - apply wakeb_ok. by vm_compute.
  - destruct (H ltac:(by vm_compute)) as (kind & k' & a' & th' & E & _ & _ & Et' & Ho & _).
    eexists _, kind, k', th, th'. split; [exact E|]. split; [exact Et'|exact Ho].
Defined.


Lemma interrupt_wakes_waiters_witness : exists r k',
  exception_entry true 1000 100 demo_interrupts demo_words 0 (CauseExternal (Some 11)) 5 5 5 0 (kern demo_two) =
    Ok (r, k').
Proof.
  destruct demo_two_ok as [a Hk].
  destruct (interrupt_wakes_waiters 4 ltac:(lia) true 1000 100 demo_interrupts demo_words (kern demo_two) a 11 0 0x10000
    0 5 5 5 0 Hk) as (x & w & k1 & pi & k2 & a2 & _ & _ & _ & _ & _ & _ & _ & _ & _ & r & k3 & a3 & E & _).
  - by vm_compute.
  - exact demo_two_running.
  - exact demo_two_current.
  - reflexivity.
  - exists r, k3. exact E.
Defined.
