(* ===== verification/MultiTheorems.v ===== *)
(** * What the multiwaiter calls do

    Waiting for several futexes at once, and destroying a multiwaiter while threads wait. *)

From S2P Require Import Prelude LinkedList Capability Thread ThreadQueues ThreadInv ThreadOps ThreadSchedule Scheduler Timer Timeouts MultiWaiter Futex SchedulerEntry Walks WakeSpec FutexSpec KernelEntry MultiSpec KernelCalls SystemSpec KernelDemo KernelTheorems.

Section Theorems.
Context (NPrios : Z) (HNP : NPrios <= 32) (debug : bool) (hz rate : Z).
Context (heap_start heap_end : Z).

(** ** Waiting *)

Section Wait.
Context (k : kernel) (a : href -> list Z) (stack : Capability) (mem : Z -> Z) (now now1 : Z)
  (timeout : TimeoutArgument) (x : Z) (w : MultiWaiterInternal) (ptr : Capability)
  (evs : list EventWaiterSource) (count : Z).

(** The call passes the checks on its arguments. *)
Record may_poll : Prop := {
  mp_waiter : waiters k !! x = Some w;
  mp_count : 0 <= count <= Length w;
  mp_array : count <= Z.of_nat (length evs);
  mp_pointer : check_pointer_for stack [Load; Store; LoadStoreCapability] true ptr
    (count * sizeof_EventWaiterSource) = true;
  mp_timeout : timeout_is_valid heap_start heap_end stack timeout = true;
  mp_unused : usedLength w = 0;
  mp_sources : Forall (fun e => source_accepted stack e = true /\ can_access (source e) 4 [Load])
    (take (Z.to_nat count) evs);
}.

Notation call := (multiwaiter_wait debug hz rate heap_start heap_end stack mem now now1 timeout (Some x)
  ptr evs count k).
Notation n := (Z.to_nat count).
Notation any := (existsb (differs mem) (take n evs)).

(** What the call writes to the caller's array. *)
Definition polled : list EventWaiterSource :=
  ((fun e => set_value (b2z (differs mem e)) e) <$> take n evs) ++ drop n evs.

(** The multiwaiter while it waits for these events. *)
Definition armed : MultiWaiterInternal :=
  with_events count ((fresh_event mem <$> take n evs) ++ drop n (events w)) w.

Lemma armed_ok : waiter_ok w -> 0 <= count <= Length w -> count <= Z.of_nat (length evs) -> waiter_ok armed.
Proof.
  intros [Hu Hl He] Hc Hn. split; cbn; [done| |].
  - rewrite length_app, length_fmap, length_take, length_drop. lia.
  - apply Forall_app; split; [|by apply Forall_drop]. apply Forall_fmap, Forall_true.
    intros e. apply fresh_event_ok.
Qed.

Lemma poll_sets : waiter_ok w -> may_poll ->
  set_events stack mem evs count w = Ok (if any then SetWake else SetSleep, armed).
Proof.
  intros [Hu Hl He] [Ew Hc Hn Hp Ht Hu0 Hs]. unfold set_events.
  rewrite set_events_accepted by (done || lia). rewrite ok_bind. cbn [orb]. by destruct any.
Qed.

Lemma fired_fresh l : existsb has_fired (fresh_event mem <$> l) = existsb (differs mem) l.
Proof.
  induction l as [|e l IH]; [done|]. rewrite fmap_cons. cbn [existsb]. rewrite IH. f_equal.
  unfold has_fired, fresh_event. cbn [readyEvents]. by destruct (differs mem e).
Qed.

Lemma armed_results : waiter_ok w -> may_poll ->
  get_results debug evs count armed = Ok (any, polled, with_events 0 (events armed) armed) /\
  waiter_ok (with_events 0 (events armed) armed).
Proof.
  intros Hw [Ew Hc Hn Hp Ht Hu0 Hs]. pose proof (armed_ok Hw Hc Hn) as Ha.
  destruct (get_results_ok debug evs count armed Ha Hc Hn) as [E Hok]. split; [|done]. rewrite E.
  assert (take n (events armed) = fresh_event mem <$> take n evs) as ->.
  { cbn. rewrite take_app_le by (rewrite length_fmap, length_take; lia).
    rewrite take_ge by (rewrite length_fmap, length_take; lia). done. }
  rewrite fired_fresh. unfold polled. do 4 f_equal. rewrite zip_with_fmap_l.
  generalize (take n evs). intros l. induction l as [|e l IH]; [done|].
  cbn [zip_with]. rewrite IH. done.
Qed.

(** C24.  [multiwaiter_wait] with valid arguments looks at the word of every event.  If one
    differs from the value it was given with, or if it may not block, it returns at once, with 0
    or [-ETIMEDOUT]: the value of each event in the caller's array becomes 1 if its word differs
    and 0 otherwise, no thread changes, and the multiwaiter can be used again.  Otherwise the
    caller sleeps, recorded as waiting for the multiwaiter, which is armed for exactly these
    addresses. *)
Theorem multiwaiter_wait_polls c th : kernel_ok NPrios k a -> current (threads_of k) = Some c ->
  threads (threads_of k) !! c = Some th -> state th = Ready -> may_poll ->
  (any = true \/ timeout_may_block now timeout = false ->
     exists k' w', call = Ok (Returned (if any then 0 else - ETIMEDOUT), polled, k') /\
       kernel_ok NPrios k' a /\ threads_of k' = threads_of k /\ waiters k' !! x = Some w' /\
       usedLength w' = 0 /\ Length w' = Length w) /\
  (any = false -> timeout_may_block now timeout = true -> timeout_may_block now1 timeout = true ->
     exists k' a' th', call = Ok (Yielded (mkMultiFrame c x timeout (ticksSinceBoot (threads_of k)) count), evs, k') /\
       kernel_ok NPrios k' a' /\ waiters k' !! x = Some armed /\ threads (threads_of k') !! c = Some th' /\
       state th' = Suspended /\ c ∈ a' HMulti /\ multiWaiter th' = Some x /\
       expiryTime th' = timeout_expiry hz rate now1 timeout /\
       forall key, notified (waiters k') (threads (threads_of k')) key c <->
         exists e, e ∈ take n evs /\ address (source e) = key).
Proof.
  intros Hk Ec Et Hst Hp. pose proof Hp as [Ew Hc Hn Hptr Htm Hu Hs].
  pose proof (ko_waiters _ _ _ Hk x w Ew) as Hw. pose proof (armed_ok Hw Hc Hn) as Harm.
  set (k1 := with_waiters (<[x := armed]> (waiters k)) k).
  assert (waiters k1 !! x = Some armed) as Ex1 by (cbn; by rewrite lookup_insert_eq).
  destruct (waiter_after NPrios k a x w armed Hk Ew Harm) as [Hk1 _]. fold k1 in Hk1.
  assert (call = match (if any then SetWake else SetSleep) with
    | SetError => Ok (Returned (- EINVAL), evs, k1)
    | SetSleep =>
        if timeout_may_block now timeout then
          c ← deref (current (threads_of k1));
          s ← upd (threads_of k1) c (set_waitingOn (WMulti (Some x)));
          '(yields, s) ← suspend_start debug hz rate s c now1 timeout (Some HMulti) false false;
          if yields : bool then
            Ok (Yielded (mkMultiFrame c x timeout (ticksSinceBoot s) count), evs, with_sched s k1)
          else '(r, events, k) ← multi_wait_return debug c x count true true evs (with_sched s k1);
               Ok (Returned r, events, k)
        else '(r, events, k) ← multi_results debug x count evs k1; Ok (Returned r, events, k)
    | SetWake => '(r, events, k) ← multi_results debug x count evs k1; Ok (Returned r, events, k)
    end) as Ecall.
  { unfold multiwaiter_wait. rewrite Ew. cbn [deref]. rewrite ok_bind.
    destruct (Z.ltb_spec (Length w) count); [lia|]. rewrite Hptr, Htm, Hu. cbn [negb Z.ltb Z.compare].
    rewrite poll_sets, ok_bind by done. done. }
  rewrite Ecall. clear Ecall. split.
  - intros Hcase. assert (exists k' w', multi_results debug x count evs k1 =
      Ok (if any then 0 else - ETIMEDOUT, polled, k') /\ kernel_ok NPrios k' a /\ threads_of k' = threads_of k /\
      waiters k' !! x = Some w' /\ usedLength w' = 0 /\ Length w' = Length w) as (k' & w' & E & Hrest).
    { unfold multi_results. rewrite Ex1. cbn [deref]. rewrite ok_bind.
      destruct (armed_results Hw Hp) as [E Hok]. rewrite E, ok_bind. eexists _, _. split; [done|].
      destruct (waiter_after NPrios k1 a x armed _ Hk1 Ex1 Hok) as [Hk2 _].
      splits; [done|done|cbn; by rewrite lookup_insert_eq|done..]. }
    exists k', w'. revert E Hcase. destruct any; intros E Hcase.
    + run E. by split.
    + destruct Hcase as [|Hb]; [done|]. rewrite Hb. run E. by split.
  - intros Eany Hb Hb1. rewrite Eany, Hb. rewrite (deref_ok (current (threads_of k1)) c Ec), ok_bind.
    rewrite (upd_get (threads_of k1) c th _ Et), ok_bind.
    set (th1 := set_waitingOn (WMulti (Some x)) th).
    destruct (waiting_after NPrios k1 a c th (WMulti (Some x)) Hk1 Et Hst) as (Hk2 & _).
    cbn zeta in Hk2. fold th1 in Hk2 |- *. set (s2 := with_threads _ (threads_of k1)) in *.
    assert (threads s2 !! c = Some th1) as E2 by (cbn; by rewrite lookup_insert_eq).
    unfold suspend_start. rewrite Hb1.
    destruct (suspend_steps NPrios HNP debug s2 a c th1 (timeout_expiry hz rate now1 timeout) (Some HMulti) false)
      as (s3 & a3 & E3 & Hst3); [apply Hk2|done|done|by right; right|].
    run E3. rewrite ok_bind. cbn [orb].
    pose proof Hst3 as (Hw3 & _ & Ecore & Eo).
    destruct (core_lookup _ _ c (suspended (timeout_expiry hz rate now1 timeout) (Some HMulti) false th1) Ecore)
      as (th3 & Et3 & Ec3); [by rewrite lookup_insert_eq|].
    pose proof (core_fields _ _ Ec3) as (Eq & Ee & Ewt & _ & _ & _ & _ & Es & _).
    assert (multiWaiter th3 = Some x) as Emw by (unfold multiWaiter; by rewrite Ewt).
    exists (with_sched s3 k1), a3, th3. splits; [| |done|done|by rewrite Es| |done|done|].
    + replace (ticksSinceBoot s3) with (ticksSinceBoot (threads_of k)); [done|]. by injection Eo.
    + eapply (kernel_ok_stepped NPrios HNP (with_sched s2 k1) a c); [done|by exists th1|exact Hst3|].
      intros _. by exists x, armed.
    + apply (f_members _ _ _ (wf_fields _ _ _ Hw3)). exists th3. split; [done|]. split; [by rewrite Es|by rewrite Eq].
    + intros key. unfold notified, waits_on. cbn [threads_of with_sched waiters]. rewrite Et3, Emw, Ex1.
      unfold fires. cbn [armed with_events usedLength events].
      rewrite take_app_le by (rewrite length_fmap, length_take; lia).
      rewrite take_ge by (rewrite length_fmap, length_take; lia).
      rewrite existsb_exists. setoid_rewrite <- list_elem_of_In. setoid_rewrite list_elem_of_fmap.
      split.
      * intros (e & (s & -> & Hs') & Hk'%Z.eqb_eq). by exists s.
      * intros (e & He & <-). exists (fresh_event mem e). split; [by exists e|]. by apply Z.eqb_eq.
Qed.
End Wait.

(** When the caller's array was freed during the wait, the results are not collected and the
    multiwaiter stays in use: every later wait on it is refused with [-EBUSY]. *)
Lemma freed_array_leaves_busy k a c th x w evs count : kernel_ok NPrios k a ->
  threads (threads_of k) !! c = Some th -> waiters k !! x = Some w -> 0 < usedLength w ->
  exists k', multi_wait_return debug c x count true false evs k = Ok (- EINVAL, evs, k') /\
    forall stack mem now now1 timeout ptr evs' count', count' <= Length w ->
      check_pointer_for stack [Load; Store; LoadStoreCapability] true ptr
        (count' * sizeof_EventWaiterSource) = true ->
      timeout_is_valid heap_start heap_end stack timeout = true ->
      multiwaiter_wait debug hz rate heap_start heap_end stack mem now now1 timeout (Some x) ptr evs' count' k' =
        Ok (Returned (- EBUSY), evs', k').
Proof.
  intros Hk Et Ex Hu. unfold multi_wait_return. rewrite (upd_get _ _ _ _ Et), ok_bind. eexists. split; [done|].
  intros stack mem now now1 timeout ptr evs' count' Hc Hp Ht. unfold multiwaiter_wait. cbn [waiters with_sched].
  rewrite Ex. cbn [deref]. rewrite ok_bind. destruct (Z.ltb_spec (Length w) count'); [lia|].
  rewrite Hp, Ht. cbn [negb]. destruct (Z.ltb_spec 0 (usedLength w)); [done|lia].
Qed.

(** ** Destroying *)

(** C28.  [multiwaiter_delete] returns [-EINVAL] for a handle that does not unseal to a multiwaiter,
    and what [token_obj_can_destroy] says when that is an error; neither changes anything.
    Otherwise its destructor makes ready every thread that waits for the multiwaiter, each as
    after a timeout, and no other thread or queue entry changes; nobody waits for the object then.
    Whatever the kernel has done by the time that the allocator frees the object, as long as
    nobody started to wait for it in between, the release leaves the invariant: no sleeping
    thread refers to freed memory. *)
Theorem multiwaiter_delete_wakes k a x canDestroy : kernel_ok NPrios k a ->
  let m := threads (threads_of k) in
  let sleepers := filter (waits_for m x) (a HMulti) in
  multiwaiter_delete None = inl (- EINVAL) /\ multiwaiter_delete (Some x) = inr x /\
  (canDestroy <> 0 -> multiwaiter_delete_checked debug x canDestroy k = Ok (Some canDestroy, k)) /\
  (canDestroy = 0 -> exists k1 a1, multiwaiter_delete_checked debug x canDestroy k = Ok (None, k1) /\
     kernel_ok NPrios k1 a1 /\ waiters k1 = waiters k /\
     (forall t, t ∈ sleepers -> woken WakeTimer m (threads (threads_of k1)) t) /\
     (forall h, a1 h = leave sleepers (a h) ++ filter (joins m h) sleepers) /\
     (forall t th, t ∉ sleepers -> m !! t = Some th ->
        exists th', threads (threads_of k1) !! t = Some th' /\ core th' = core th) /\
     (forall t, ~ sleeps_on (threads_of k1) t x) /\
     (forall k2 a2 u, kernel_ok NPrios k2 a2 -> no_new_sleeper u (threads_of k1) (threads_of k2) ->
        u <> Some x -> kernel_ok NPrios (multiwaiter_freed x k2) a2 /\
          waiters (multiwaiter_freed x k2) = delete x (waiters k2))).
Proof.
  intros Hk m sleepers. splits; [done|done| |].
  { intros Hc%Z.eqb_neq. unfold multiwaiter_delete_checked. by rewrite Hc. }
  intros ->. unfold multiwaiter_delete_checked. cbn [Z.eqb negb].
  destruct (destroy_steps NPrios HNP debug k a x Hk) as (s' & a1 & Es & Har). run Es.
  pose proof (destroyed_nobody NPrios k a x s' a1 Hk Har) as Hno.
  eexists _, a1. splits; [done| |done| |apply Har| |done|].
  - exact (kernel_ok_readied NPrios k a _ _ s' a1 0 ∅ [] Hk Har).
  - intros t Ht. apply (all_readied_woken _ _ _ _ _ _ _ _ Har); [|done|].
    + apply NoDup_filter. eapply (asleep_NoDup NPrios HMulti). apply Hk.
    + apply list_elem_of_filter in Ht as [_ Ht]. destruct (ko_multi _ _ _ Hk t Ht) as (th & Et & _). by exists th.
  - intros t th Ht Et. by apply (all_readied_lookup _ _ _ _ _ _ _ _ _ Har Ht).
  - intros k2 a2 u Hk2 Hn Hu. split; [|done]. apply freed_ok; [done|]. by eapply no_new_nobody.
Qed.
End Theorems.

(** ** The theorems at a concrete state *)

Definition demo_multi : kernel := snd (multiwaiter_create 2 (Some 0x7000) (kern demo_two)).

Lemma demo_multi_ok : exists a, kernel_ok 4 demo_multi a.
Proof.
  destruct demo_two_ok as [a Hk].
  destruct (create_after 4 2 (Some 0x7000) (kern demo_two) a Hk ltac:(lia)) as [Haf _]; [|apply Haf].
  intros x [= <-]. by vm_compute.
Qed.

Lemma create_same maxItems allocated k :
  threads_of (snd (multiwaiter_create maxItems allocated k)) = threads_of k.
Proof. unfold multiwaiter_create. by destruct (create _ _ _) as [[] ?]. Qed.

Lemma demo_multi_threads : threads_of demo_multi = threads_of (kern demo_two).
Proof. exact (create_same 2 (Some 0x7000) (kern demo_two)). Qed.

Lemma demo_multi_current : exists th, current (threads_of demo_multi) = Some 0x10000 /\
  threads (threads_of demo_multi) !! 0x10000 = Some th /\ state th = Ready.
Proof.
  rewrite demo_multi_threads. destruct demo_two_thread as (th & Et & Hst). exists th.
  split; [exact demo_two_current|]. split; [exact Et|exact Hst].
Qed.

Lemma multiwaiter_wait_polls_witness : exists k',
  multiwaiter_wait true 1000 100 0 0 demo_stack (fun _ => 7) 5 5 TimeoutNoWait (Some 0x7000) demo_array
    [demo_source 0x200 7; demo_source 0x300 8] 2 demo_multi =
  Ok (Returned 0, [demo_source 0x200 0; demo_source 0x300 1], k').
Proof.
  destruct demo_multi_ok as [a Hk]. destruct demo_multi_current as (th & Ec & Et & Hst).
  destruct (multiwaiter_wait_polls 4 ltac:(lia) true 1000 100 0 0 demo_multi a demo_stack (fun _ => 7) 5 5 TimeoutNoWait
    0x7000 (mkWaiter 2 0 (replicate 2 (mkEvent 0 0 0 0))) demo_array [demo_source 0x200 7; demo_source 0x300 8] 2
    0x10000 th Hk Ec Et Hst) as [H _].
  - split; [by vm_compute|cbn; lia|cbn; lia|by vm_compute|reflexivity|reflexivity|].
    repeat constructor; try (by vm_compute); cbn; lia.
  - destruct (H (or_introl eq_refl)) as (k' & w' & E & _). exists k'. exact E.
Defined.

(** A thread that sleeps on the multiwaiter, which is then deleted. *)
Definition multi_sleeps : list event :=
  [trap CauseTimer; EvCall (ReqCreate 2 (Some 0x7000));
   EvCall (ReqMultiWait demo_stack (fun _ => 0) 5 5 TimeoutWaitForever (Some 0x7000) demo_array
             [demo_source 0x200 0; demo_source 0x300 0] 2); trap CauseEcall].
Definition demo_sleeper : system := foldl (fun y e => after_event [1; 2] e y) (booted [1; 2]) multi_sleeps.

Lemma demo_sleeper_ok : exists a, kernel_ok 4 (kern demo_sleeper) a.
Proof.
  eapply (so_kernel 4 2 0x10000 0x100 demo_interrupts).
  apply (system_reachable_ok 4 ltac:(lia) true 1000 100 0 0 2 0x10000 0x100 demo_interrupts demo_words demo_infos);
    [lia|exact demo_infos_ok|reflexivity|lia|].
  apply (allowed_reachable [1; 2] multi_sleeps).
  - apply booted_reachable. by vm_compute.
  - cbn [allowed multi_sleeps]. split; [ev_exception|]. split; [exact I|]. split; [by vm_compute|].
    split.
    { split; [eexists; split; [by vm_compute|split; by vm_compute]|]. split; [lia|].
      intros x [= <-]. by vm_compute. }
    split; [exact I|]. split; [by vm_compute|]. split.
    { split; [eexists; split; [by vm_compute|split; by vm_compute]|]. split; [cbn; lia|]. split.
      - repeat constructor; cbn; unfold source_readable, can_access; cbn; intros; splits; try done; try lia; by vm_compute.
      - intros x [= <-]. split; [|intros c H; by vm_compute in H].
        destruct (waiters _ !! _) eqn:E; [by eexists|]. by vm_compute in E. }
    split; [exact I|]. split; [by vm_compute|]. split; [ev_exception|]. split; [exact I|]. split; [by vm_compute|done].
Qed.

Lemma multiwaiter_delete_wakes_witness : exists k1,
  multiwaiter_delete_checked true 0x7000 0 (kern demo_sleeper) = Ok (None, k1) /\
  (forall t, ~ sleeps_on (threads_of k1) t 0x7000) /\
  exists a, kernel_ok 4 (multiwaiter_freed 0x7000 k1) a.
Proof.
  destruct demo_sleeper_ok as [a Hk].
  destruct (multiwaiter_delete_wakes 4 ltac:(lia) true (kern demo_sleeper) a 0x7000 0 Hk) as (_ & _ & _ & H).
  destruct (H eq_refl) as (k1 & a1 & E & Hk1 & _ & _ & _ & _ & Hno & Hfree). exists k1.
  split; [exact E|]. split; [exact Hno|]. exists a1.
  apply (Hfree k1 a1 None Hk1 (fun t x _ Hs => Hs)). discriminate.
Defined.
