(* ===== verification/AllocSizes.v ===== *)
(** * The allocator's size arithmetic

    The constants, size classes and bin indices at the top of
    [src/cheriot-rtos/sdk/core/allocator/alloc.h], with [MallocAlignShift] and
    [RTCHECK] of [alloc_config.h].  A [size_t] is a 32-bit word. *)

From S2P Require Import Prelude.

Definition MallocAlignShift : Z := 3.
Definition MallocAlignment : Z := 8.
Definition MallocAlignMask : Z := MallocAlignment - 1.
Definition BitsInSizeT : Z := 32.
Definition NSmallBinsShift : Z := 3.
Definition NSmallBins : Z := 8.
Definition NTreeBins : Z := 12.
Definition SmallBinShift : Z := MallocAlignShift.
Definition TreeBinShift : Z := MallocAlignShift + NSmallBinsShift.
Definition MaxSmallSize : Z := 64.
Definition MaxChunkSize : Z := Z.shiftl (2 ^ 16 - 1) MallocAlignShift.

(** [sizeof(MChunkHeader)], [MinChunkSize], [MinRequest] and [MaxSmallRequest]. *)
Definition sizeof_header : Z := 8.
Definition MinChunkSize : Z :=
  Z.land (sizeof_header + 8 + MallocAlignMask) (Z.lnot MallocAlignMask).
Definition MinRequest : Z := MinChunkSize - sizeof_header.
Definition MaxSmallRequest : Z := MaxSmallSize - sizeof_header.

Definition head2size (h : Z) : Z := u32 (Z.shiftl h MallocAlignShift).
Definition size2head (s : Z) : Z := u16 (Z.shiftr s MallocAlignShift).

Definition idx2bit (i : Z) : Z := u32 (Z.shiftl 1 i).
Definition bit2idx (b : Z) : Z := ctz 32 b.

Definition compute_tree_index (debug : bool) (s : Z) : outcome Z :=
  let MaxTreeComputeMask := Z.shiftl 1 (Z.shiftr NTreeBins 1) - 1 in
  let x := Z.shiftr s TreeBinShift in
  if x =? 0 then Ok 0
  else if MaxTreeComputeMask <? x then Ok (NTreeBins - 1)
  else
    let k := BitsInSizeT - 1 - clz 32 x in
    let ret := Z.shiftl k 1 + Z.land (Z.shiftr s (k + (TreeBinShift - 1))) 1 in
    _ ← dassert debug (ret <? NTreeBins);
    Ok ret.

Definition leftshift_for_tree_index (i : Z) : Z :=
  if i =? NTreeBins - 1 then 0 else BitsInSizeT - (Z.shiftr i 1 + TreeBinShift - 1).

Definition leftshifted_val_msb (val : Z) : Z := if signed 32 val <? 0 then 1 else 0.

Definition minsize_for_tree_index (i : Z) : Z :=
  Z.lor (Z.shiftl 1 (Z.shiftr i 1 + TreeBinShift))
        (Z.shiftl (Z.land 1 i) (Z.shiftr i 1 + TreeBinShift - 1)).

Definition small_index (s : Z) : Z := Z.shiftr (u32 (s - 1)) SmallBinShift.
Definition is_small (s : Z) : bool := small_index s <? NSmallBins.
Definition small_index2size (i : Z) : Z := u32 (Z.shiftl (i + 1) SmallBinShift).

Definition pad_request (req : Z) : Z :=
  Z.land (u32 (req + sizeof_header + MallocAlignMask)) (u32 (Z.lnot MallocAlignMask)).

Definition is_aligned (a : Z) : bool := Z.land a MallocAlignMask =? 0.
Definition align_offset (a : Z) : Z :=
  if is_aligned a then 0 else MallocAlignment - Z.land a MallocAlignMask.

(** ** The tree bins partition the sizes *)

Lemma shiftr_range a k lo hi : 0 <= k -> lo * 2 ^ k <= a < hi * 2 ^ k ->
  lo <= Z.shiftr a k < hi.
Proof.
  intros Hk Ha. rewrite Z.shiftr_div_pow2 by done. pose proof (pow2_pos k Hk).
  split; [apply Z.div_le_lower_bound; lia|apply Z.div_lt_upper_bound; lia].
Qed.

(** The two halves of the range of sizes with leading bit [k + 6]. *)
Lemma tree_index_half debug s k b :
  0 <= k <= 5 -> b = 0 \/ b = 1 ->
  (2 + b) * 2 ^ (k + 5) <= s < (3 + b) * 2 ^ (k + 5) ->
  compute_tree_index debug s = Ok (2 * k + b).
Proof.
  intros Hk Hb Hs. assert (2 ^ (k + 6) = 2 * 2 ^ (k + 5)) as E6.
  { rewrite <- Z.pow_succ_r by lia. f_equal. lia. }
  assert (2 ^ (k + 6) = 2 ^ k * 2 ^ 6) as E7 by (by rewrite Z.pow_add_r by lia).
  assert (0 < 2 ^ (k + 5)) by (apply pow2_pos; lia).
  unfold compute_tree_index, TreeBinShift, MallocAlignShift, NSmallBinsShift. cbn [Z.add Pos.add].
  change (3 + 3) with 6.
  assert (2 ^ k <= Z.shiftr s 6 < 2 * 2 ^ k) as Hx.
  { apply shiftr_range; [lia|]. nia. }
  assert (1 <= 2 ^ k <= 32) as Hk2.
  { pose proof (pow2_pos k). pose proof (pow2_le k 5 ltac:(lia)). lia. }
  rewrite (proj2 (Z.eqb_neq _ 0)) by lia. change (Z.shiftl 1 (Z.shiftr NTreeBins 1) - 1) with 63.
  rewrite (proj2 (Z.ltb_ge 63 _)) by lia.
  assert (Z.log2 (Z.shiftr s 6) = k) as El.
  { apply Z.log2_unique; [lia|]. rewrite Z.pow_succ_r; lia. }
  unfold clz. rewrite (proj2 (Z.eqb_neq _ 0)) by lia. rewrite El. unfold BitsInSizeT.
  replace (32 - 1 - (32 - 1 - k)) with k by lia. change (6 - 1) with 5.
  assert (Z.shiftr s (k + 5) = 2 + b) as Es.
  { pose proof (shiftr_range s (k + 5) (2 + b) (3 + b) ltac:(lia) Hs). lia. }
  rewrite Es. assert (Z.land (2 + b) 1 = b) as -> by (by destruct Hb as [-> | ->]).
  rewrite Z.shiftl_mul_pow2, (Z.mul_comm k) by lia. change (2 ^ 1) with 2.
  run (dassert_true debug); [done|]. unfold NTreeBins. apply Z.ltb_lt. lia.
Qed.

Lemma minsize_half k b : 0 <= k -> b = 0 \/ b = 1 ->
  minsize_for_tree_index (2 * k + b) = (2 + b) * 2 ^ (k + 5).
Proof.
  intros Hk Hb. unfold minsize_for_tree_index, TreeBinShift, MallocAlignShift, NSmallBinsShift.
  change (3 + 3) with 6.
  assert (Z.shiftr (2 * k + b) 1 = k) as ->.
  { rewrite Z.shiftr_div_pow2 by lia. symmetry. apply Z.div_unique with (r := b); lia. }
  assert (Z.land 1 (2 * k + b) = b) as ->.
  { rewrite Z.land_comm. change 1 with (Z.ones 1) at 1. rewrite Z.land_ones by lia.
    symmetry. apply Z.mod_unique with (q := k); lia. }
  rewrite !Z.shiftl_mul_pow2 by lia. replace (k + 6 - 1) with (k + 5) by lia.
  replace (k + 6) with (Z.succ (k + 5)) by lia. rewrite Z.pow_succ_r by lia.
  destruct Hb as [-> | ->]; [rewrite Z.mul_0_l, Z.lor_0_r; lia|].
  rewrite !Z.mul_1_l. rewrite <- Z.pow_succ_r by lia.
  pose proof (Z.add_lor_land (2 ^ Z.succ (k + 5)) (2 ^ (k + 5))) as Hal.
  assert (Z.land (2 ^ Z.succ (k + 5)) (2 ^ (k + 5)) = 0) as E.
  { apply bits_eq. intros i Hi. rewrite Z.land_spec, Z.bits_0, !Z.pow2_bits_eqb by lia.
    destruct (Z.eqb_spec (Z.succ (k + 5)) i), (Z.eqb_spec (k + 5) i); done || lia. }
  rewrite Z.pow_succ_r in * by lia. lia.
Qed.

Lemma half_of s : 64 <= s < 4096 ->
  exists k b, 0 <= k <= 5 /\ (b = 0 \/ b = 1) /\
    (2 + b) * 2 ^ (k + 5) <= s < (3 + b) * 2 ^ (k + 5).
Proof.
  intros Hs. pose proof (Z.log2_spec s ltac:(lia)) as Hl. set (m := Z.log2 s) in *.
  assert (6 <= m) by (apply Z.log2_le_pow2; lia).
  assert (m < 12) by (apply Z.log2_lt_pow2; lia).
  replace (Z.succ m) with (Z.succ (Z.succ (m - 6 + 5))) in Hl by lia.
  replace m with (Z.succ (m - 6 + 5)) in Hl at 1 by lia. rewrite !Z.pow_succ_r in Hl by lia.
  destruct (Z.ltb_spec s (3 * 2 ^ (m - 6 + 5))).
  - exists (m - 6), 0. splits; try lia.
  - exists (m - 6), 1. splits; try lia.
Qed.

Lemma tree_index_spec debug s : 64 <= s < 2 ^ 32 ->
  exists i, compute_tree_index debug s = Ok i /\ 0 <= i < NTreeBins /\
    minsize_for_tree_index i <= s /\ (i < NTreeBins - 1 -> s < minsize_for_tree_index (i + 1)).
Proof.
  intros Hs. destruct (Z.ltb_spec s 4096).
  - destruct (half_of s ltac:(lia)) as (k & b & Hk & Hb & Hr). exists (2 * k + b).
    split; [by apply tree_index_half|]. rewrite minsize_half by (done || lia).
    unfold NTreeBins. splits; try lia. intros Hlt.
    destruct Hb as [-> | ->].
    + rewrite Z.add_0_r, minsize_half by (auto || lia). lia.
    + replace (2 * k + 1 + 1) with (2 * (k + 1) + 0) by lia.
      rewrite minsize_half by (auto || lia).
      replace (k + 1 + 5) with (Z.succ (k + 5)) by lia. rewrite Z.pow_succ_r by lia. lia.
  - exists 11. unfold compute_tree_index.
    assert (63 < Z.shiftr s TreeBinShift) as Hx.
    { pose proof (shiftr_range s 6 64 (2 ^ 26) ltac:(lia) ltac:(lia)).
      change TreeBinShift with 6. lia. }
    rewrite (proj2 (Z.eqb_neq _ 0)) by lia. change (Z.shiftl 1 (Z.shiftr NTreeBins 1) - 1) with 63.
    rewrite (proj2 (Z.ltb_lt 63 _)) by lia. unfold NTreeBins.
    change (minsize_for_tree_index 11) with 3072. splits; try done; lia.
Qed.

(** ** The small bins and the header's compressed sizes *)

Lemma land_mask a : 0 <= a -> Z.land a MallocAlignMask = a mod 8.
Proof. intros. change MallocAlignMask with (Z.ones 3). by rewrite Z.land_ones. Qed.

Lemma small_index_ceil s : 0 < s < 2 ^ 32 -> small_index s = (s - 1) / 8.
Proof.
  intros Hs. unfold small_index, SmallBinShift, MallocAlignShift, u32.
  rewrite wrap_small by lia. by rewrite Z.shiftr_div_pow2.
Qed.

Lemma small_bins s : 0 < s < 2 ^ 32 ->
  (is_small s = true <-> s <= MaxSmallSize) /\
  (s mod 8 = 0 -> small_index2size (small_index s) = s).
Proof.
  intros Hs. unfold is_small, MaxSmallSize, NSmallBins.
  rewrite small_index_ceil, Z.ltb_lt by lia.
  pose proof (Z.div_mod (s - 1) 8). pose proof (Z.mod_pos_bound (s - 1) 8). split; [lia|].
  intros Hm. pose proof (Z.div_mod s 8). unfold small_index2size, SmallBinShift, MallocAlignShift.
  rewrite Z.shiftl_mul_pow2 by lia. unfold u32. change (2 ^ 3) with 8.
  rewrite wrap_small; lia.
Qed.

Lemma head2size_size2head s : 0 <= s <= MaxChunkSize -> s mod 8 = 0 -> head2size (size2head s) = s.
Proof.
  intros Hs Hm. change MaxChunkSize with 524280 in Hs.
  unfold head2size, size2head, MallocAlignShift, u16, u32.
  rewrite Z.shiftr_div_pow2, Z.shiftl_mul_pow2 by lia. change (2 ^ 3) with 8.
  pose proof (Z.div_mod s 8). pose proof (Z.div_le_mono 0 s 8).
  rewrite (wrap_small 16) by lia. rewrite wrap_small; lia.
Qed.

(** Clearing the low bits of a word. *)
Lemma mask_down v : v in_u 32 -> Z.land v (u32 (Z.lnot MallocAlignMask)) = v - v mod 8.
Proof.
  intros Hv. unfold u32, MallocAlignMask, MallocAlignment. change (8 - 1) with (Z.ones 3).
  assert (Z.land v (wrap 32 (Z.lnot (Z.ones 3))) = Z.shiftl (Z.shiftr v 3) 3) as ->.
  { apply bits_eq. intros i Hi. rewrite Z.land_spec, wrap_testbit, Z.lnot_spec by lia.
    rewrite Z.shiftl_spec by lia. destruct (Z.ltb_spec i 3).
    - rewrite Z.ones_spec_low, (Z.testbit_neg_r _ (i - 3)) by lia. by rewrite andb_false_r.
    - rewrite Z.ones_spec_high, Z.shiftr_spec by lia. cbn [negb].
      replace (i - 3 + 3) with i by lia. destruct (Z.ltb_spec i 32); [by rewrite andb_true_r|].
      rewrite (testbit_high 32 v i) by (done || lia). done. }
  rewrite Z.shiftl_mul_pow2, Z.shiftr_div_pow2 by lia. change (2 ^ 3) with 8.
  pose proof (Z.div_mod v 8). lia.
Qed.

Lemma down_mod v : (v - v mod 8) mod 8 = 0.
Proof. replace (v - v mod 8) with (v / 8 * 8) by (pose proof (Z.div_mod v 8); lia). by apply Z.mod_mul. Qed.

Lemma pad_request_spec req : 0 <= req < 2 ^ 32 - 15 ->
  req + sizeof_header <= pad_request req < req + sizeof_header + MallocAlignment /\
  pad_request req mod 8 = 0.
Proof.
  intros Hr. unfold pad_request. change sizeof_header with 8. change MallocAlignment with 8.
  assert (u32 (req + 8 + MallocAlignMask) = req + 15) as ->.
  { change MallocAlignMask with 7. unfold u32. rewrite wrap_small; lia. }
  rewrite mask_down by lia.
  split; [|apply down_mod]. pose proof (Z.mod_pos_bound (req + 15) 8 ltac:(lia)). lia.
Qed.

(** ** What the size classes promise *)

(** The tree bins partition the large sizes: every size of at least 64 bytes has
    one bin index, it is at least the smallest size of its bin and, unless it is in
    the last bin, below the smallest size of the next; the index is never out of
    range. *)
Theorem tree_bins_partition_sizes debug s :
  MaxSmallSize <= s < 2 ^ 32 ->
  exists i, compute_tree_index debug s = Ok i /\ 0 <= i < NTreeBins /\
    minsize_for_tree_index i <= s /\ (i < NTreeBins - 1 -> s < minsize_for_tree_index (i + 1)).
Proof. apply tree_index_spec. Qed.

Lemma tree_bins_partition_sizes_witness :
  exists i, compute_tree_index true 1000 = Ok i /\ 0 <= i < NTreeBins /\
    minsize_for_tree_index i <= 1000 /\
    (i < NTreeBins - 1 -> 1000 < minsize_for_tree_index (i + 1)).
Proof. apply (tree_bins_partition_sizes true 1000). vm_compute. split; congruence. Defined.

(** A size is small exactly up to 64 bytes; an aligned small size is the size of
    its bin; an aligned size of a chunk survives the 16-bit encoding of the header up
    to [MaxChunkSize]; a padded request holds the header and the request, is aligned,
    and wastes less than one granule. *)
Theorem size_classes_exact s req :
  0 < s <= MaxChunkSize -> s mod 8 = 0 -> 0 <= req < 2 ^ 32 - 15 ->
  (is_small s = true <-> s <= MaxSmallSize) /\ small_index2size (small_index s) = s /\
  head2size (size2head s) = s /\
  req + sizeof_header <= pad_request req < req + sizeof_header + MallocAlignment /\
  pad_request req mod 8 = 0.
Proof.
  intros Hs Hm Hr. change MaxChunkSize with 524280 in Hs.
  destruct (small_bins s ltac:(lia)) as [H1 H2]. destruct (pad_request_spec req Hr) as [H3 H4].
  split; [done|]. split; [by apply H2|]. split; [|done].
  apply head2size_size2head; [change MaxChunkSize with 524280; lia|done].
Qed.

Lemma size_classes_exact_witness :
  (is_small 48 = true <-> 48 <= MaxSmallSize) /\ small_index2size (small_index 48) = 48 /\
  head2size (size2head 48) = 48 /\
  37 + sizeof_header <= pad_request 37 < 37 + sizeof_header + MallocAlignment /\
  pad_request 37 mod 8 = 0.
Proof. apply (size_classes_exact 48 37); [vm_compute; split; congruence|reflexivity|lia]. Defined.
