(* ===== verification/ChunkHeader.v ===== *)
(** * Chunk headers: the tiling of the heap

    [struct MChunkHeader] of [src/cheriot-rtos/sdk/core/allocator/alloc.h].  The
    arena is the set of addresses at which a header was constructed, with its
    fields, and the set of addresses whose revocation bit is painted.  Headers are
    cells of the interface of [LinkedList]: their links are displacements, encoded
    in 16 bits.  [layout] says that a list of chunks tiles a range of the heap; the
    operations on headers are operations on that list. *)

From S2P Require Import Prelude LinkedList AllocSizes.

Record MChunkHeader : Type := mkHeader {
  prevSize : Z;
  currSize : Z;
  ownerID : Z;
  isSealedObject : bool;
  isPrevInUse : bool;
  isCurrInUse : bool;
  claims : Z;
}.

Definition hstore : Type := gmap Z MChunkHeader.

(** [cell_prev] and [cell_next]: a [displacement_proxy::Proxy] decodes a distance on
    reading and encodes one on assignment. *)
#[export] Instance header_cells : CellOps hstore := {|
  cell_prev (s : gmap Z MChunkHeader) p :=
    h ← s !! p; Some (u32 (p - head2size (prevSize h)));
  cell_next (s : gmap Z MChunkHeader) p :=
    h ← s !! p; Some (u32 (p + head2size (currSize h)));
  set_cell_prev (s : gmap Z MChunkHeader) p v :=
    h ← s !! p;
    Some (<[p := mkHeader (size2head (u32 (p - v))) (currSize h) (ownerID h) (isSealedObject h)
                   (isPrevInUse h) (isCurrInUse h) (claims h)]> s);
  set_cell_next (s : gmap Z MChunkHeader) p v :=
    h ← s !! p;
    Some (<[p := mkHeader (prevSize h) (size2head (u32 (v - p))) (ownerID h) (isSealedObject h)
                   (isPrevInUse h) (isCurrInUse h) (claims h)]> s);
|}.

Record arena : Type := mkArena { hdrs : gmap Z MChunkHeader; shadow : gset Z }.

Definition with_hdrs (h : gmap Z MChunkHeader) (a : arena) : arena := mkArena h (shadow a).

Definition header (a : arena) (p : Z) : outcome MChunkHeader := deref (hdrs a !! p).

Definition hupd (a : arena) (p : Z) (f : MChunkHeader -> MChunkHeader) : outcome arena :=
  h ← header a p; Ok (with_hdrs (<[p := f h]> (hdrs a)) a).

Definition set_currInUse b h := mkHeader (prevSize h) (currSize h) (ownerID h)
  (isSealedObject h) (isPrevInUse h) b (claims h).
Definition set_prevInUse b h := mkHeader (prevSize h) (currSize h) (ownerID h)
  (isSealedObject h) b (isCurrInUse h) (claims h).
Definition set_sealed b h := mkHeader (prevSize h) (currSize h) (ownerID h)
  b (isPrevInUse h) (isCurrInUse h) (claims h).
Definition set_ownerID o h := mkHeader (prevSize h) (currSize h) o
  (isSealedObject h) (isPrevInUse h) (isCurrInUse h) (claims h).
Definition set_claims v h := mkHeader (prevSize h) (currSize h) (ownerID h)
  (isSealedObject h) (isPrevInUse h) (isCurrInUse h) v.
Definition set_prevSize v h := mkHeader v (currSize h) (ownerID h)
  (isSealedObject h) (isPrevInUse h) (isCurrInUse h) (claims h).
Definition set_currSize v h := mkHeader (prevSize h) v (ownerID h)
  (isSealedObject h) (isPrevInUse h) (isCurrInUse h) (claims h).

Definition size_get (h : MChunkHeader) : Z := head2size (currSize h).
Definition prevsize_get (h : MChunkHeader) : Z := head2size (prevSize h).
Definition is_in_use (h : MChunkHeader) : bool := isCurrInUse h.
Definition is_prev_in_use (h : MChunkHeader) : bool := isPrevInUse h.

Definition header_next (a : arena) (p : Z) : outcome Z := deref (cell_next (S := hstore) (hdrs a) p).
Definition header_prev (a : arena) (p : Z) : outcome Z := deref (cell_prev (S := hstore) (hdrs a) p).

(** [body] and [from_body]. *)
Definition body (p : Z) : Z := u32 (p + sizeof_header).
Definition from_body (p : Z) : Z := u32 (p - sizeof_header).

(** The constructor, placed at [p]: the fields are cleared and the revocation bit of
    the header is painted. *)
Definition construct (inUse : bool) (a : arena) (p : Z) : arena :=
  mkArena (<[p := mkHeader 0 0 0 false false inUse 0]> (hdrs a)) ({[p]} ∪ shadow a).

Definition mark_in_use (a : arena) (p : Z) : outcome arena :=
  a ← hupd a p (set_currInUse true);
  n ← header_next a p;
  hupd a n (set_prevInUse true).

Definition mark_free (a : arena) (p : Z) : outcome arena :=
  a ← hupd a p (set_currInUse false);
  a ← hupd a p (set_sealed false);
  n ← header_next a p;
  hupd a n (set_prevInUse false).

Definition owner (debug : bool) (a : arena) (p : Z) : outcome Z :=
  h ← header a p;
  _ ← dassert debug (is_in_use h);
  Ok (ownerID h).

Definition set_owner (debug : bool) (newOwner : Z) (a : arena) (p : Z) : outcome arena :=
  h ← header a p;
  _ ← dassert debug (is_in_use h);
  hupd a p (set_ownerID (wrap 13 newOwner)).

Definition split (a : arena) (p offset : Z) : outcome (Z * arena) :=
  let newloc := u32 (p + offset) in
  h ← header a p;
  let a := construct (isCurrInUse h) a newloc in
  h ← header a p;
  a ← hupd a newloc (set_prevInUse (isCurrInUse h));
  hs ← deref (emplace_after (S := hstore) (hdrs a) p newloc);
  Ok (newloc, with_hdrs hs a).

Definition make (a : arena) (base size : Z) : outcome (Z * arena) :=
  let size := u32 (size - sizeof_header) in
  let first := base in
  let a := construct false a first in
  a ← hupd a first (set_prevSize 0);
  a ← hupd a first (set_prevInUse true);
  let footer := u32 (base + size) in
  let a := construct true a footer in
  a ← hupd a footer (set_currSize (size2head sizeof_header));
  a ← hupd a footer (set_prevInUse false);
  hs ← deref (set_cell_next (S := hstore) (hdrs a) first footer);
  hs ← deref (set_cell_prev (S := hstore) hs footer first);
  Ok (first, with_hdrs hs a).

(** [unsplit]: the header [p] is merged into its predecessor and erased. *)
Definition unsplit (debug : bool) (a : arena) (p previous : Z) : outcome arena :=
  n ← header_next a previous;
  _ ← dassert debug (n =? p);
  h ← header a p;
  _ ← dassert debug (claims h =? 0);
  hs ← deref (unsafe_remove_link (S := hstore) (hdrs a) previous p);
  Ok (mkArena (delete p hs) (shadow a ∖ {[p]})).

(** ** The heap as a list of chunks *)

Record chunk : Type := mkChunk {
  csize : Z;
  cpin : bool;
  cuse : bool;
  cowner : Z;
  csealed : bool;
  cclaims : Z;
}.

Definition header_of (psize : Z) (c : chunk) : MChunkHeader :=
  mkHeader (size2head psize) (size2head (csize c)) (cowner c) (csealed c) (cpin c) (cuse c)
    (cclaims c).

(** The headers of the chunks [l], the first at address [a] behind a chunk of [psize]
    bytes. *)
Fixpoint layout (h : gmap Z MChunkHeader) (a psize : Z) (l : list chunk) : Prop :=
  match l with
  | [] => True
  | c :: r => h !! a = Some (header_of psize c) /\ layout h (a + csize c) (csize c) r
  end.

Definition total (l : list chunk) : Z := foldr (fun c n => csize c + n) 0 l.

(** The size of the chunk before the end of [l], behind a chunk of [psize] bytes. *)
Definition last_size (psize : Z) (l : list chunk) : Z :=
  match last l with Some c => csize c | None => psize end.

Definition chunk_ok (c : chunk) : Prop := 0 < csize c /\ csize c mod 8 = 0.

(** Sizes are positive multiples of the granule and all of [l] fits in 16 bits of
    granules: no displacement in it is truncated. *)
Definition sizes_ok (a : Z) (l : list chunk) : Prop :=
  Forall chunk_ok l /\ total l <= MaxChunkSize /\ 0 <= a /\ a + total l < 2 ^ 32.

Lemma total_cons c l : total (c :: l) = csize c + total l.
Proof. done. Qed.

Lemma total_app l1 l2 : total (l1 ++ l2) = total l1 + total l2.
Proof.
  induction l1 as [|c l1 IH]; [done|]. cbn [app]. rewrite !total_cons, IH. lia.
Qed.

Lemma total_nonneg l : Forall chunk_ok l -> 0 <= total l.
Proof.
  induction 1 as [|c l [Hc _] _ IH]; [done|]. rewrite total_cons. lia.
Qed.

Lemma last_size_app p l1 l2 : last_size p (l1 ++ l2) = last_size (last_size p l1) l2.
Proof.
  unfold last_size. rewrite last_app. destruct (last l2); [done|]. by destruct (last l1).
Qed.

Lemma last_size_cons p c l : last_size p (c :: l) = last_size (csize c) l.
Proof. change (c :: l) with ([c] ++ l). by rewrite last_size_app. Qed.

Lemma layout_app h a psize l1 l2 :
  layout h a psize (l1 ++ l2) <->
  layout h a psize l1 /\ layout h (a + total l1) (last_size psize l1) l2.
Proof.
  revert a psize. induction l1 as [|c l1 IH]; intros a psize; cbn [app layout].
  - cbn. rewrite Z.add_0_r. tauto.
  - rewrite IH, total_cons, Z.add_assoc, last_size_cons. tauto.
Qed.

(** The headers of [l] are within its range. *)
Lemma layout_frame h h' a psize l :
  Forall chunk_ok l -> layout h a psize l ->
  (forall q, a <= q < a + total l -> h' !! q = h !! q) -> layout h' a psize l.
Proof.
  intros Hok. revert a psize.
  induction Hok as [|c l [Hc _] Hok IH]; intros a psize Hl Hf; [done|].
  destruct Hl as [Ha Hl]. rewrite total_cons in Hf. pose proof (total_nonneg l Hok). split.
  - rewrite Hf; [done|lia].
  - apply IH; [done|]. intros q Hq. apply Hf. lia.
Qed.

Lemma mod8_add a b : a mod 8 = 0 -> b mod 8 = 0 -> (a + b) mod 8 = 0.
Proof. intros. rewrite Z.add_mod by lia. by replace (a mod 8) with 0; replace (b mod 8) with 0. Qed.

Lemma mod8_sub a b : a mod 8 = 0 -> b mod 8 = 0 -> (a - b) mod 8 = 0.
Proof. intros. rewrite Zminus_mod by lia. by replace (a mod 8) with 0; replace (b mod 8) with 0. Qed.

(** A size that fits is what [size2head] and [head2size] make of it. *)
Lemma head_size s : 0 <= s <= MaxChunkSize -> s mod 8 = 0 -> head2size (size2head s) = s.
Proof. intros. by apply head2size_size2head. Qed.

Lemma sizes_ok_app a l1 l2 : sizes_ok a (l1 ++ l2) ->
  Forall chunk_ok l1 /\ Forall chunk_ok l2 /\ 0 <= total l1 /\ 0 <= total l2 /\
  total l1 + total l2 <= MaxChunkSize /\ 0 <= a /\ a + total l1 + total l2 < 2 ^ 32.
Proof.
  intros (Hf & Ht & Ha & He). apply Forall_app in Hf as [H1 H2]. rewrite total_app in *.
  pose proof (total_nonneg _ H1). pose proof (total_nonneg _ H2). splits; try done; lia.
Qed.

(** The neighbours of a chunk: its header and the headers on both sides. *)
Lemma layout_at h a ps l1 c l2 : layout h a ps (l1 ++ c :: l2) ->
  layout h a ps l1 /\ h !! (a + total l1) = Some (header_of (last_size ps l1) c) /\
  layout h (a + total l1 + csize c) (csize c) l2.
Proof. rewrite layout_app. cbn. tauto. Qed.

(** Symbolic execution of accesses to headers: reads go back through the writes at
    addresses that [lia] tells apart. *)
Ltac arena_step :=
  match goal with
  | |- context [<[?i := ?v]> ?m !! ?i] => rewrite (lookup_insert_eq m i v)
  | |- context [<[?i := ?v]> ?m !! ?j] => rewrite (lookup_insert_ne m i j v) by lia
  | |- context [<[?i := ?v]> (<[?i := ?w]> ?m)] => rewrite (insert_insert_eq m i v w)
  | H : hdrs ?m !! ?i = Some _ |- context [hdrs ?m !! ?i] => rewrite H
  end.

Ltac arena_cbn :=
  cbn [deref hdrs shadow mbind option_bind header_cells set_cell_prev set_cell_next cell_prev
       cell_next prevSize currSize ownerID isSealedObject isPrevInUse isCurrInUse claims header_of
       set_currInUse set_prevInUse set_sealed set_ownerID set_claims set_prevSize set_currSize].

Ltac arena_run := repeat (arena_cbn; first [rewrite ok_bind | arena_step]); arena_cbn.

(** Two layouts side by side that differ only from [c] on. *)
Lemma layout_replace h h' a ps l1 l2 :
  Forall chunk_ok l1 -> layout h a ps l1 ->
  (forall q, q < a + total l1 -> h' !! q = h !! q) ->
  layout h' (a + total l1) (last_size ps l1) l2 -> layout h' a ps (l1 ++ l2).
Proof.
  intros Hok Hl Hf Hl2. apply layout_app. split; [|done].
  eapply layout_frame; [done..|]. intros q Hq. apply Hf. lia.
Qed.

(** A new predecessor of another size: only the first header changes. *)
Lemma layout_pred h h' a ps ps' c l :
  Forall chunk_ok (c :: l) -> layout h a ps (c :: l) ->
  h' !! a = Some (header_of ps' c) ->
  (forall q, a < q -> h' !! q = h !! q) -> layout h' a ps' (c :: l).
Proof.
  intros Hok Hl E Hf. apply Forall_cons in Hok as [[Hc _] Hok]. destruct Hl as [_ Hl].
  split; [done|]. eapply layout_frame; [done..|]. intros q Hq. apply Hf. lia.
Qed.

Definition with_csize (n : Z) (c : chunk) : chunk :=
  mkChunk n (cpin c) (cuse c) (cowner c) (csealed c) (cclaims c).
Definition with_cpin (b : bool) (c : chunk) : chunk :=
  mkChunk (csize c) b (cuse c) (cowner c) (csealed c) (cclaims c).
Definition with_cuse (b : bool) (c : chunk) : chunk :=
  mkChunk (csize c) (cpin c) b (cowner c) (csealed c) (cclaims c).
Definition with_csealed (b : bool) (c : chunk) : chunk :=
  mkChunk (csize c) (cpin c) (cuse c) (cowner c) b (cclaims c).
Definition with_cclaims (v : Z) (c : chunk) : chunk :=
  mkChunk (csize c) (cpin c) (cuse c) (cowner c) (csealed c) v.
Definition with_cowner (o : Z) (c : chunk) : chunk :=
  mkChunk (csize c) (cpin c) (cuse c) o (csealed c) (cclaims c).

(** The chunk that [split] makes of the tail of [c]. *)
Definition split_tail (o : Z) (c : chunk) : chunk :=
  mkChunk (csize c - o) (cuse c) (cuse c) 0 false 0.

(** What [split] does to the tiling: [c] becomes two chunks, the second starts with a
    painted header; nothing else changes. *)
Lemma split_layout ar a ps l1 c d l2 o :
  sizes_ok a (l1 ++ c :: d :: l2) -> layout (hdrs ar) a ps (l1 ++ c :: d :: l2) ->
  0 < o < csize c -> o mod 8 = 0 ->
  exists ar', split ar (a + total l1) o = Ok (a + total l1 + o, ar') /\
    layout (hdrs ar') a ps (l1 ++ with_csize o c :: split_tail o c :: d :: l2) /\
    shadow ar' = {[a + total l1 + o]} ∪ shadow ar /\
    (forall q, q < a + total l1 \/ a + total l1 + csize c < q -> hdrs ar' !! q = hdrs ar !! q).
Proof.
  intros Hok Hl Ho Ho8. apply sizes_ok_app in Hok as (Hok1 & Hok2 & T1 & T2 & Tm & A0 & Tw).
  change MaxChunkSize with 524280 in Tm.
  apply layout_at in Hl as (Hl1 & Ec & Ed & Hl2).
  apply Forall_cons in Hok2 as [[Hc Hc8] Hok2]. apply Forall_cons in Hok2 as [[Hd Hd8] Hok2].
  pose proof (total_nonneg _ Hok2). rewrite !total_cons in *.
  set (p := a + total l1) in *. set (n := p + csize c) in *.
  assert (forall x, 0 <= x <= csize c -> x mod 8 = 0 -> head2size (size2head x) = x) as Hh.
  { intros. apply head_size; [change MaxChunkSize with 524280; lia|done]. }
  assert (forall x, p <= x <= n -> u32 x = x) as Hu by (intros; apply wrap_small; lia).
  assert (u32 o = o /\ u32 (csize c - o) = csize c - o) as [Hu1 Hu2]
    by (split; apply wrap_small; lia).
  assert ((csize c - o) mod 8 = 0) as Hr8 by (by apply mod8_sub).
  unfold split, hupd, header, construct, with_hdrs, emplace_after. rewrite (Hu (p + o)) by lia.
  arena_run. rewrite (Hh (csize c)), (Hu (p + csize c)) by (done || lia). fold n. arena_run.
  replace (u32 (p + o - p)) with o by (rewrite <- Hu1 at 1; f_equal; lia).
  replace (u32 (n - (p + o))) with (csize c - o) by (rewrite <- Hu2 at 1; f_equal; lia).
  eexists; split; [reflexivity|]. cbn [hdrs shadow deref]. splits; [|done|].
  - eapply layout_replace; [done|done| |fold p].
    { intros q Hq. rewrite !lookup_insert_ne by lia. done. }
    split; [by rewrite lookup_insert_eq|]. cbn [with_csize csize]. split.
    { rewrite lookup_insert_ne, lookup_insert_ne, lookup_insert_eq by lia. done. }
    cbn [split_tail csize]. replace (p + o + (csize c - o)) with n by lia.
    eapply (layout_pred (hdrs ar) _ _ (csize c)).
    + by repeat constructor.
    + done.
    + rewrite lookup_insert_ne, lookup_insert_eq by lia. done.
    + intros q Hq. by rewrite !lookup_insert_ne by lia.
  - intros q Hq. by rewrite !lookup_insert_ne by lia.
Qed.

Lemma split_sizes_ok a l1 c l2 o :
  sizes_ok a (l1 ++ c :: l2) -> 0 < o < csize c -> o mod 8 = 0 ->
  sizes_ok a (l1 ++ with_csize o c :: split_tail o c :: l2).
Proof.
  intros (Hf & Ht & Ha & Hw) Ho H8. unfold sizes_ok. rewrite total_app, !total_cons in *.
  cbn [csize with_csize split_tail]. splits; [|lia..].
  apply Forall_app in Hf as [Hf1 Hf2]. apply Forall_cons in Hf2 as [[Hc Hc8] Hf2].
  apply Forall_app. split; [done|]. repeat apply Forall_cons_2; [..|done].
  all: (split; cbn; [lia|by (done || apply mod8_sub)]).
Qed.

(** What [unsplit] does to the tiling: the chunk [d] is absorbed by its predecessor [c];
    its header is erased and its revocation bit cleared. *)
Lemma unsplit_layout debug ar a ps l1 c d e l2 :
  sizes_ok a (l1 ++ c :: d :: e :: l2) -> layout (hdrs ar) a ps (l1 ++ c :: d :: e :: l2) ->
  cclaims d = 0 ->
  exists ar', unsplit debug ar (a + total l1 + csize c) (a + total l1) = Ok ar' /\
    layout (hdrs ar') a ps (l1 ++ with_csize (csize c + csize d) c :: e :: l2) /\
    shadow ar' = shadow ar ∖ {[a + total l1 + csize c]} /\
    (forall q, q < a + total l1 \/ a + total l1 + csize c + csize d < q ->
      hdrs ar' !! q = hdrs ar !! q).
Proof.
  intros Hok Hl Hd0. apply sizes_ok_app in Hok as (Hok1 & Hok2 & T1 & T2 & Tm & A0 & Tw).
  change MaxChunkSize with 524280 in Tm.
  apply layout_at in Hl as (Hl1 & Ec & Ed & Ee & Hl2).
  apply Forall_cons in Hok2 as [[Hc Hc8] Hok2]. apply Forall_cons in Hok2 as [[Hd Hd8] Hok2].
  apply Forall_cons in Hok2 as [[He He8] Hok2].
  pose proof (total_nonneg _ Hok2). rewrite !total_cons in *.
  set (p := a + total l1) in *. set (q := p + csize c) in *. set (n := q + csize d) in *.
  assert (forall x, 0 <= x <= csize c + csize d -> x mod 8 = 0 -> head2size (size2head x) = x) as Hh.
  { intros. apply head_size; [change MaxChunkSize with 524280; lia|done]. }
  assert (forall x, p <= x <= n -> u32 x = x) as Hu by (intros; apply wrap_small; lia).
  assert (u32 (csize c + csize d) = csize c + csize d) as Hu1 by (apply wrap_small; lia).
  unfold unsplit, header_next, header, unsafe_remove_link.
  arena_run. rewrite (Hh (csize c)), (Hu (p + csize c)) by (done || lia). fold q.
  rewrite (dassert_true debug (q =? q)) by (apply Z.eqb_refl). arena_run.
  rewrite Hd0. rewrite (dassert_true debug (0 =? 0)) by done. arena_run.
  rewrite (Hh (csize d)), (Hu (q + csize d)) by (done || lia). fold n. arena_run.
  replace (u32 (n - p)) with (csize c + csize d) by (rewrite <- Hu1 at 1; f_equal; lia).
  eexists; split; [reflexivity|]. cbn [hdrs shadow]. splits; [|done|].
  - eapply layout_replace; [done|done| |fold p].
    { intros z Hz. by rewrite lookup_delete_ne, !lookup_insert_ne by lia. }
    split; [by rewrite lookup_delete_ne, lookup_insert_ne, lookup_insert_eq by lia|].
    cbn [with_csize csize]. replace (p + (csize c + csize d)) with n by lia.
    eapply (layout_pred (hdrs ar) _ _ (csize d)).
    + by repeat constructor.
    + done.
    + by rewrite lookup_delete_ne, lookup_insert_eq by lia.
    + intros z Hz. by rewrite lookup_delete_ne, !lookup_insert_ne by lia.
  - intros z Hz. by rewrite lookup_delete_ne, !lookup_insert_ne by lia.
Qed.

(** A write of fields that are not sizes changes one chunk of the tiling. *)
Lemma hupd_layout ar a ps l1 c l2 f g :
  Forall chunk_ok (l1 ++ c :: l2) -> layout (hdrs ar) a ps (l1 ++ c :: l2) ->
  (forall n, f (header_of n c) = header_of n (g c)) -> csize (g c) = csize c ->
  exists ar', hupd ar (a + total l1) f = Ok ar' /\ layout (hdrs ar') a ps (l1 ++ g c :: l2) /\
    shadow ar' = shadow ar /\
    (forall q, q <> a + total l1 -> hdrs ar' !! q = hdrs ar !! q).
Proof.
  intros [Hok1 Hok2]%Forall_app (Hl1 & Ec & Hl2)%layout_at Hg Hs. inversion Hok2 as [|?? [Hc _] Hok3].
  unfold hupd, header, with_hdrs. arena_run. rewrite Hg.
  eexists; split; [reflexivity|]. cbn [hdrs shadow]. splits; [|done|].
  - eapply layout_replace; [done|done| |].
    { intros q Hq. by rewrite lookup_insert_ne by lia. }
    split; [by rewrite lookup_insert_eq|]. rewrite Hs.
    eapply layout_frame; [done..|]. intros q Hq. by rewrite lookup_insert_ne by lia.
  - intros q Hq. by rewrite lookup_insert_ne by congruence.
Qed.

Lemma next_layout ar a ps l1 c l2 :
  sizes_ok a (l1 ++ c :: l2) -> layout (hdrs ar) a ps (l1 ++ c :: l2) -> l2 <> [] ->
  header_next ar (a + total l1) = Ok (a + total (l1 ++ [c])).
Proof.
  intros Hok Hl Hne. apply sizes_ok_app in Hok as (Hok1 & Hok2 & T1 & T2 & Tm & A0 & Tw).
  change MaxChunkSize with 524280 in Tm. apply layout_at in Hl as (_ & Ec & _).
  inversion Hok2 as [|?? [Hc Hc8] Hok3]; subst. destruct l2 as [|d l2]; [done|].
  inversion Hok3 as [|?? [Hd _] Hok4]; subst. pose proof (total_nonneg _ Hok4).
  rewrite !total_app, !total_cons in *. change (total []) with 0 in *.
  unfold header_next. arena_run.
  rewrite head_size by (done || (change MaxChunkSize with 524280; lia)).
  unfold u32. rewrite wrap_small by lia. f_equal. lia.
Qed.

Lemma prev_layout ar a ps l1 b c l2 :
  sizes_ok a (l1 ++ b :: c :: l2) -> layout (hdrs ar) a ps (l1 ++ b :: c :: l2) ->
  header_prev ar (a + total l1 + csize b) = Ok (a + total l1).
Proof.
  intros Hok Hl. apply sizes_ok_app in Hok as (Hok1 & Hok2 & T1 & T2 & Tm & A0 & Tw).
  change MaxChunkSize with 524280 in Tm. apply layout_at in Hl as (_ & Eb & Ec & _).
  inversion Hok2 as [|?? [Hb Hb8] Hok3]; subst. pose proof (total_nonneg _ Hok3).
  rewrite !total_cons in *.
  unfold header_prev. arena_run.
  rewrite head_size by (done || (change MaxChunkSize with 524280; lia)).
  unfold u32. rewrite wrap_small by lia. f_equal. lia.
Qed.

Lemma header_layout ar a ps l1 c l2 :
  layout (hdrs ar) a ps (l1 ++ c :: l2) ->
  header ar (a + total l1) = Ok (header_of (last_size ps l1) c).
Proof. intros (_ & Ec & _)%layout_at. unfold header. by rewrite Ec. Qed.

Lemma size_of_layout a l1 c l2 n : sizes_ok a (l1 ++ c :: l2) -> size_get (header_of n c) = csize c.
Proof.
  intros (Hok1 & Hok2 & T1 & T2 & Tm & A0 & Tw)%sizes_ok_app.
  inversion Hok2 as [|?? [Hc Hc8] Hok3]; subst. pose proof (total_nonneg _ Hok3).
  rewrite total_cons in *. apply head_size; [lia|done].
Qed.

(** Changes that keep the sizes keep the bounds. *)
Lemma sizes_ok_same a l l' : csize <$> l' = csize <$> l -> sizes_ok a l -> sizes_ok a l'.
Proof.
  intros E. assert (total l' = total l /\ (Forall chunk_ok l -> Forall chunk_ok l')) as [Et Ef].
  { revert l' E. induction l as [|c l IH]; intros [|c' l'] E; try done.
    injection E as E1 E2. destruct (IH _ E2) as [IH1 IH2]. rewrite !total_cons, E1, IH1.
    split; [done|]. rewrite !Forall_cons. unfold chunk_ok. rewrite E1. tauto. }
  unfold sizes_ok. rewrite Et. naive_solver.
Qed.

(** Marking a chunk writes its own bit and its successor's copy of it. *)
Lemma mark_layout ar a ps l1 c d l2 b f g :
  sizes_ok a (l1 ++ c :: d :: l2) -> layout (hdrs ar) a ps (l1 ++ c :: d :: l2) ->
  (forall n, f (header_of n c) = header_of n (g c)) -> csize (g c) = csize c ->
  exists ar', (ar1 ← hupd ar (a + total l1) f;
               n ← header_next ar1 (a + total l1); hupd ar1 n (set_prevInUse b)) = Ok ar' /\
    layout (hdrs ar') a ps (l1 ++ g c :: with_cpin b d :: l2) /\ shadow ar' = shadow ar /\
    (forall q, q <> a + total l1 -> q <> a + total l1 + csize c -> hdrs ar' !! q = hdrs ar !! q).
Proof.
  intros Hok Hl Hg Hs.
  destruct (hupd_layout ar a ps l1 c (d :: l2) f g) as (ar1 & E1 & Hl1 & Hsh1 & F1);
    [apply Hok|done..|].
  assert (sizes_ok a (l1 ++ g c :: d :: l2)) as Hok1.
  { revert Hok. apply sizes_ok_same. rewrite !fmap_app. cbn. by rewrite Hs. }
  run E1. run (next_layout ar1 a ps l1 (g c) (d :: l2) Hok1 Hl1 ltac:(done)).
  rewrite cons_middle, app_assoc in Hl1, Hok1.
  destruct (hupd_layout ar1 a ps (l1 ++ [g c]) d l2 (set_prevInUse b) (with_cpin b))
    as (ar2 & E2 & Hl2 & Hsh2 & F2); [apply Hok1|done..|].
  exists ar2. splits; [done| |congruence|].
  - by rewrite cons_middle, app_assoc.
  - intros q H1 H2. rewrite F2, F1; [done|done|].
    rewrite total_app, total_cons, Hs. change (total []) with 0. lia.
Qed.

Lemma mark_in_use_layout ar a ps l1 c d l2 :
  sizes_ok a (l1 ++ c :: d :: l2) -> layout (hdrs ar) a ps (l1 ++ c :: d :: l2) ->
  exists ar', mark_in_use ar (a + total l1) = Ok ar' /\
    layout (hdrs ar') a ps (l1 ++ with_cuse true c :: with_cpin true d :: l2) /\
    shadow ar' = shadow ar /\
    (forall q, q <> a + total l1 -> q <> a + total l1 + csize c -> hdrs ar' !! q = hdrs ar !! q).
Proof. intros. by apply (mark_layout _ _ _ _ _ _ _ true _ (with_cuse true)). Qed.

Lemma mark_free_layout ar a ps l1 c d l2 :
  sizes_ok a (l1 ++ c :: d :: l2) -> layout (hdrs ar) a ps (l1 ++ c :: d :: l2) ->
  exists ar', mark_free ar (a + total l1) = Ok ar' /\
    layout (hdrs ar') a ps
      (l1 ++ with_csealed false (with_cuse false c) :: with_cpin false d :: l2) /\
    shadow ar' = shadow ar /\
    (forall q, q <> a + total l1 -> q <> a + total l1 + csize c -> hdrs ar' !! q = hdrs ar !! q).
Proof.
  intros Hok Hl.
  destruct (hupd_layout ar a ps l1 c (d :: l2) (set_currInUse false) (with_cuse false))
    as (ar1 & E1 & Hl1 & Hsh1 & F1); [apply Hok|done..|].
  assert (sizes_ok a (l1 ++ with_cuse false c :: d :: l2)) as Hok1.
  { revert Hok. apply sizes_ok_same. by rewrite !fmap_app. }
  destruct (mark_layout ar1 a ps l1 (with_cuse false c) d l2 false (set_sealed false)
    (with_csealed false) Hok1 Hl1) as (ar2 & E2 & Hl2 & Hsh2 & F2); [done..|].
  exists ar2. splits; [|done|congruence|].
  - unfold mark_free. by run E1.
  - intros q H1 H2. by rewrite F2, F1.
Qed.

Definition free_chunk (size : Z) : chunk := mkChunk size true false 0 false 0.
Definition footer_chunk : chunk := mkChunk sizeof_header false true 0 false 0.

Lemma make_layout ar base size :
  0 <= base -> base + size < 2 ^ 32 -> size mod 8 = 0 -> 8 < size <= MaxChunkSize ->
  exists ar', make ar base size = Ok (base, ar') /\
    layout (hdrs ar') base 0 [free_chunk (size - sizeof_header); footer_chunk] /\
    sizes_ok base [free_chunk (size - sizeof_header); footer_chunk] /\
    shadow ar' = {[base + (size - sizeof_header)]} ∪ ({[base]} ∪ shadow ar).
Proof.
  intros Hb Hw H8 Hs. change MaxChunkSize with 524280 in Hs. change sizeof_header with 8.
  assert (u32 (size - 8) = size - 8) as E1 by (apply wrap_small; lia).
  assert (u32 (base + (size - 8)) = base + (size - 8)) as E2 by (apply wrap_small; lia).
  assert (u32 (base + (size - 8) - base) = size - 8) as E3 by (rewrite <- E1 at 2; f_equal; lia).
  assert ((size - 8) mod 8 = 0) by (by apply mod8_sub).
  unfold make, hupd, header, construct, with_hdrs. change sizeof_header with 8. rewrite E1, E2.
  arena_run. rewrite E3. eexists; split; [reflexivity|]. cbn [hdrs shadow]. splits; try done.
  - cbn. rewrite lookup_insert_ne, lookup_insert_eq by lia. splits; [done| |done].
    by rewrite lookup_insert_eq.
  - unfold sizes_ok. rewrite !total_cons. change (total []) with 0.
    change MaxChunkSize with 524280. cbn [csize free_chunk footer_chunk]. change sizeof_header with 8.
    splits; [|lia..]. apply Forall_cons; split; [split; cbn; [lia|done]|by repeat constructor].
Qed.

(** ** What the headers promise *)

(** [make] turns a range of memory into two chunks: one free chunk whose
    predecessor counts as in use, and the footer, a header of 8 bytes that counts as in
    use and knows that the chunk before it is free; both headers are painted. *)
Theorem make_tiles ar base size :
  0 <= base -> base + size < 2 ^ 32 -> size mod 8 = 0 -> 8 < size <= MaxChunkSize ->
  exists ar', make ar base size = Ok (base, ar') /\
    layout (hdrs ar') base 0 [free_chunk (size - sizeof_header); footer_chunk] /\
    sizes_ok base [free_chunk (size - sizeof_header); footer_chunk] /\
    shadow ar' = {[base + (size - sizeof_header)]} ∪ ({[base]} ∪ shadow ar).
Proof. apply make_layout. Qed.

Lemma make_tiles_witness :
  exists ar', make (mkArena ∅ ∅) 4096 1024 = Ok (4096, ar') /\
    layout (hdrs ar') 4096 0 [free_chunk (1024 - sizeof_header); footer_chunk] /\
    sizes_ok 4096 [free_chunk (1024 - sizeof_header); footer_chunk] /\
    shadow ar' = {[4096 + (1024 - sizeof_header)]} ∪ ({[4096]} ∪ ∅).
Proof.
  apply (make_tiles (mkArena ∅ ∅) 4096 1024);
    [lia|lia|reflexivity|split; vm_compute; congruence].
Defined.

(** In a heap tiled by chunks, [split] at an aligned offset inside a chunk returns
    the address of the new header and leaves a tiling in which that chunk is cut in
    two, the second part unowned with the in-use state of the first in both its bits;
    every other chunk is as it was, and exactly the new header is painted. *)
Theorem split_tiles ar a ps l1 c d l2 o :
  sizes_ok a (l1 ++ c :: d :: l2) -> layout (hdrs ar) a ps (l1 ++ c :: d :: l2) ->
  0 < o < csize c -> o mod 8 = 0 ->
  exists ar', split ar (a + total l1) o = Ok (a + total l1 + o, ar') /\
    layout (hdrs ar') a ps (l1 ++ with_csize o c :: split_tail o c :: d :: l2) /\
    sizes_ok a (l1 ++ with_csize o c :: split_tail o c :: d :: l2) /\
    shadow ar' = {[a + total l1 + o]} ∪ shadow ar.
Proof.
  intros Hok Hl Ho H8. destruct (split_layout ar a ps l1 c d l2 o) as (ar' & E & Hl' & Hs & _);
    [done..|]. exists ar'. splits; [done|done| |done]. by apply split_sizes_ok.
Qed.

(** [unsplit] undoes [split]: merging the second part back into the first returns
    to the very same headers and the same painted addresses (when no header was left
    at the split point before). *)
Theorem unsplit_undoes_split debug ar a ps l1 c d l2 o :
  sizes_ok a (l1 ++ c :: d :: l2) -> layout (hdrs ar) a ps (l1 ++ c :: d :: l2) ->
  0 < o < csize c -> o mod 8 = 0 -> a + total l1 + o ∉ shadow ar ->
  exists ar1 ar2, split ar (a + total l1) o = Ok (a + total l1 + o, ar1) /\
    unsplit debug ar1 (a + total l1 + o) (a + total l1) = Ok ar2 /\
    layout (hdrs ar2) a ps (l1 ++ c :: d :: l2) /\ shadow ar2 = shadow ar.
Proof.
  intros Hok Hl Ho H8 Hn.
  destruct (split_layout ar a ps l1 c d l2 o) as (ar1 & E1 & Hl1 & Hs1 & _); [done..|].
  exists ar1.
  assert (sizes_ok a (l1 ++ with_csize o c :: split_tail o c :: d :: l2)) as Hok1
    by (by apply split_sizes_ok).
  destruct (unsplit_layout debug ar1 a ps l1 (with_csize o c) (split_tail o c) d l2)
    as (ar2 & E2 & Hl2 & Hs2 & _); [done..|]. cbn [csize with_csize split_tail] in *.
  exists ar2. splits; [done|done| |rewrite Hs2, Hs1; set_solver].
  replace (with_csize (o + (csize c - o)) (with_csize o c)) with c in Hl2; [done|].
  destruct c; unfold with_csize; cbn. f_equal. lia.
Qed.

Definition demo_arena : arena :=
  match make (mkArena ∅ ∅) 4096 1024 with Ok (_, ar) => ar | Err _ => mkArena ∅ ∅ end.

Definition demo_chunks : list chunk := [free_chunk 1016; footer_chunk].

Ltac demo_tiles :=
  lazymatch goal with
  | |- sizes_ok _ _ =>
      split; [repeat constructor|split; [|split]]; vm_compute; congruence
  | |- layout _ _ _ _ => repeat split; vm_compute; reflexivity
  | |- _ ∉ _ => apply (bool_decide_unpack _); vm_compute; exact I
  | |- _ => vm_compute; repeat split; congruence
  end.

Lemma split_tiles_witness :
  exists ar', split demo_arena (4096 + total []) 64 = Ok (4096 + total [] + 64, ar') /\
    layout (hdrs ar') 4096 0 (with_csize 64 (free_chunk 1016)
      :: split_tail 64 (free_chunk 1016) :: footer_chunk :: []) /\
    sizes_ok 4096 (with_csize 64 (free_chunk 1016)
      :: split_tail 64 (free_chunk 1016) :: footer_chunk :: []) /\
    shadow ar' = {[4096 + total [] + 64]} ∪ shadow demo_arena.
Proof.
  apply (split_tiles demo_arena 4096 0 [] (free_chunk 1016) footer_chunk [] 64); demo_tiles.
Defined.

Lemma unsplit_undoes_split_witness :
  exists ar1 ar2, split demo_arena (4096 + total []) 64 = Ok (4096 + total [] + 64, ar1) /\
    unsplit true ar1 (4096 + total [] + 64) (4096 + total []) = Ok ar2 /\
    layout (hdrs ar2) 4096 0 demo_chunks /\ shadow ar2 = shadow demo_arena.
Proof.
  apply (unsplit_undoes_split true demo_arena 4096 0 [] (free_chunk 1016) footer_chunk [] 64);
    demo_tiles.
Defined.
