(* ===== verification/MState.v ===== *)
(** * The allocator's state

    [class MChunk], [class TChunk] and the data of [class MState] of
    [src/cheriot-rtos/sdk/core/allocator/alloc.h].  The memory of the heap is given
    by its typed contents: the headers and the painted addresses ([arena] of
    [ChunkHeader]), the ring links of free and quarantined chunks and of the
    sentinels ([PtrAddr.store] of [LinkedList], keyed by the address of the cell), and
    the tree nodes; memory with none of these reads as zero.  An operation is a
    computation in the monad [M] of partial state transformers.  [Env] is what the
    allocator is configured with and what it reads of the hardware and of other
    threads. *)

From S2P Require Import Prelude LinkedList RingBuffer Bits AllocSizes ChunkHeader.

(** ** The environment *)

(** A capability as the allocator inspects it. *)
Record cap : Type := mkCap { cbase : Z; clength : Z; ctag : bool; csealed_cap : bool }.

#[export] Instance cap_eq_dec : EqDecision cap.
Proof. solve_decision. Defined.

Definition null_cap : cap := mkCap 0 0 false false.

(** [is_subset_of]: bounds within the bounds of the other. *)
Definition is_subset_of (c d : cap) : bool :=
  (cbase d <=? cbase c) && (cbase c + clength c <=? cbase d + clength d).

Class Env : Type := {
  debug : bool;
  NDEBUG : bool;
  IsAsynchronous : bool;
  (** The address of the [MState] and the bounds and address of [heapStart]. *)
  ms_address : Z;
  heap_base : Z;
  heap_address : Z;
  heap_top : Z;
  (** What the hardware and other threads do to the locations the allocator reads: the
      revoker's epoch and the hazard list, at each reading. *)
  epoch_at : nat -> Z;
  hazard_count : nat;
  hazard_at : nat -> nat -> cap;
  thread_id : Z;
  (** The CHERI instructions CRRL and CRAM. *)
  representable_length : Z -> Z;
  representable_alignment_mask : Z -> Z;
}.

(** ** The state *)

(** A tree node: null is 0, a parent is a node's address or one of the two fictitious
    parents. *)
Record TChunk : Type := mkTChunk { child0 : Z; child1 : Z; parent : Z; index : Z }.

Definition RingParent : Z := 0.
Definition RootParent : Z := 1.

(** [class Claim] of [main.cc]: a reference held by an allocation capability. *)
Record Claim : Type := mkClaim {
  allocatorIdentifier : Z;
  encodedNext : Z;
  referenceCount : Z;
}.

Record MState : Type := mkMState {
  heap : arena;
  rings : PtrAddr.store;
  tchunks : gmap Z TChunk;
  treebins : list Z;
  quarantinePendingEpoch : list Z;
  quarantinePendingRing : Cursors;
  smallmap : Z;
  treemap : Z;
  heapTotalSize : Z;
  heapFreeSize : Z;
  heapQuarantineSize : Z;
  hazardQuarantine : list cap;
  lockWord : Z;
  sanityCounter : Z;
  (** How often the environment has been read, and the revoker started. *)
  readings : nat;
  kicks : nat;
  (** The claims, in the bodies of chunks. *)
  claimcells : gmap Z Claim;
}.

Definition with_heap v s := mkMState v (rings s) (tchunks s) (treebins s)
  (quarantinePendingEpoch s) (quarantinePendingRing s) (smallmap s) (treemap s) (heapTotalSize s)
  (heapFreeSize s) (heapQuarantineSize s) (hazardQuarantine s) (lockWord s) (sanityCounter s)
  (readings s) (kicks s) (claimcells s).
Definition with_rings v s := mkMState (heap s) v (tchunks s) (treebins s)
  (quarantinePendingEpoch s) (quarantinePendingRing s) (smallmap s) (treemap s) (heapTotalSize s)
  (heapFreeSize s) (heapQuarantineSize s) (hazardQuarantine s) (lockWord s) (sanityCounter s)
  (readings s) (kicks s) (claimcells s).
Definition with_tchunks v s := mkMState (heap s) (rings s) v (treebins s)
  (quarantinePendingEpoch s) (quarantinePendingRing s) (smallmap s) (treemap s) (heapTotalSize s)
  (heapFreeSize s) (heapQuarantineSize s) (hazardQuarantine s) (lockWord s) (sanityCounter s)
  (readings s) (kicks s) (claimcells s).
Definition with_treebins v s := mkMState (heap s) (rings s) (tchunks s) v
  (quarantinePendingEpoch s) (quarantinePendingRing s) (smallmap s) (treemap s) (heapTotalSize s)
  (heapFreeSize s) (heapQuarantineSize s) (hazardQuarantine s) (lockWord s) (sanityCounter s)
  (readings s) (kicks s) (claimcells s).
Definition with_pending e r s := mkMState (heap s) (rings s) (tchunks s) (treebins s) e r
  (smallmap s) (treemap s) (heapTotalSize s) (heapFreeSize s) (heapQuarantineSize s)
  (hazardQuarantine s) (lockWord s) (sanityCounter s) (readings s) (kicks s) (claimcells s).
Definition with_maps sm tm s := mkMState (heap s) (rings s) (tchunks s) (treebins s)
  (quarantinePendingEpoch s) (quarantinePendingRing s) sm tm (heapTotalSize s) (heapFreeSize s)
  (heapQuarantineSize s) (hazardQuarantine s) (lockWord s) (sanityCounter s) (readings s) (kicks s) (claimcells s).
Definition with_sizes total free quarantine s := mkMState (heap s) (rings s) (tchunks s)
  (treebins s) (quarantinePendingEpoch s) (quarantinePendingRing s) (smallmap s) (treemap s)
  total free quarantine (hazardQuarantine s) (lockWord s) (sanityCounter s) (readings s) (kicks s) (claimcells s).
Definition with_hazards hq lw s := mkMState (heap s) (rings s) (tchunks s) (treebins s)
  (quarantinePendingEpoch s) (quarantinePendingRing s) (smallmap s) (treemap s) (heapTotalSize s)
  (heapFreeSize s) (heapQuarantineSize s) hq lw (sanityCounter s) (readings s) (kicks s) (claimcells s).
Definition with_counters sanity r k s := mkMState (heap s) (rings s) (tchunks s) (treebins s)
  (quarantinePendingEpoch s) (quarantinePendingRing s) (smallmap s) (treemap s) (heapTotalSize s)
  (heapFreeSize s) (heapQuarantineSize s) (hazardQuarantine s) (lockWord s) sanity r k (claimcells s).
Definition with_claimcells v s := mkMState (heap s) (rings s) (tchunks s) (treebins s)
  (quarantinePendingEpoch s) (quarantinePendingRing s) (smallmap s) (treemap s) (heapTotalSize s)
  (heapFreeSize s) (heapQuarantineSize s) (hazardQuarantine s) (lockWord s) (sanityCounter s)
  (readings s) (kicks s) v.

(** ** The monad *)

Definition M (A : Type) : Type := MState -> outcome (A * MState).

#[export] Instance M_ret : MRet M := fun A a s => Ok (a, s).
#[export] Instance M_bind : MBind M := fun A B k m s => '(a, s) ← m s; k a s.

Definition gets {A} (f : MState -> A) : M A := fun s => Ok (f s, s).
Definition modify (f : MState -> MState) : M unit := fun s => Ok (tt, f s).
Definition fails {A} (e : error) : M A := fun _ => Err e.

(** A read of a part of the state that can fault, and a change of one part. *)
Definition reads {A} (f : MState -> outcome A) : M A := fun s => a ← f s; Ok (a, s).
Definition lift {A} (o : outcome A) : M A := reads (fun _ => o).
Definition on_heap (f : arena -> outcome arena) : M unit := fun s =>
  h ← f (heap s); Ok (tt, with_heap h s).
Definition on_rings (f : PtrAddr.store -> option PtrAddr.store) : M unit := fun s =>
  r ← deref (f (rings s)); Ok (tt, with_rings r s).
Definition ring_of {A} (f : PtrAddr.store -> option A) : M A := reads (fun s => deref (f (rings s))).

Section State.
Context `{Env}.

(** [Debug::Assert] and the corruption checks of [alloc_config.h]; [RTCHECK(e)] is 1 in
    a build with [NDEBUG]. *)
Definition massert (b : bool) : M unit := lift (dassert debug b).
Definition RTCHECK (e : M bool) : M bool := if NDEBUG then mret true else e.
Definition corruption_error_action {A} : M A := fails EAbort.
Definition and_then (a : bool) (b : M bool) : M bool := if a then b else mret false.
Definition or_else (a : bool) (b : M bool) : M bool := if a then mret true else b.
(** [if (RTCHECK(e)) m else corruption_error_action()], for a check that reads nothing. *)
Definition checked {A} (e : bool) (m : M A) : M A :=
  ok ← RTCHECK (mret e); if ok : bool then m else corruption_error_action.

(** *** The revoker: [revoker/bitmap_direct.hh] and [platform-hardware_revoker.hh] *)

(** The revocation bits are one per granule of 8 bytes. *)
Definition granule (a : Z) : Z := Z.shiftr a MallocAlignShift.

Definition granules (base top : Z) : list Z :=
  Z.of_nat <$> seq 0 (Z.to_nat (granule top - granule base)).

Definition mark_get (a : arena) (address : Z) : bool :=
  bool_decide (Z.shiftl (granule address) MallocAlignShift ∈ shadow a).

Definition marks (base top : Z) : gset Z :=
  list_to_set ((fun i => Z.shiftl (granule base + i) MallocAlignShift) <$> granules base top).

Definition mark_set_range (base top : Z) (a : arena) : arena :=
  mkArena (hdrs a) (shadow a ∪ marks base top).

Definition mark_clear_range (base top : Z) (a : arena) : arena :=
  mkArena (hdrs a) (shadow a ∖ marks base top).

Definition system_epoch_get : M Z := fun s =>
  Ok (u32 (epoch_at (readings s)), with_counters (sanityCounter s) (S (readings s)) (kicks s) s).

Definition has_revocation_finished_for_epoch (epoch : Z) : M bool :=
  current ← system_epoch_get;
  let distance := s32 (current - epoch) in
  _ ← massert (Z.land epoch 1 =? 0);
  let minimumRequired := 1 + Z.land epoch 1 in
  mret (minimumRequired <? distance).

Definition system_bg_revoker_kick : M unit :=
  e ← system_epoch_get;
  if truth (Z.land e 1) then mret tt
  else modify (fun s => with_counters (sanityCounter s) (readings s) (S (kicks s)) s).

(** *** Addresses of the members of the [MState] *)

Definition smallbin_at (i : Z) : Z := ms_address + 16 + 8 * i.
Definition quarantine_pending_get (ix : Z) : Z := ms_address + 176 + 8 * ix.
Definition quarantine_finished_get : Z := ms_address + 204.

Definition QuarantineRings : Z := 2.

Definition treebin_get (i : Z) : M Z := reads (fun s => deref (treebins s !! Z.to_nat i)).
Definition treebin_set (i v : Z) : M unit :=
  modify (fun s => with_treebins (<[Z.to_nat i := v]> (treebins s)) s).

Definition smallmap_mark (i : Z) : M unit :=
  modify (fun s => with_maps (Z.lor (smallmap s) (idx2bit i)) (treemap s) s).
Definition smallmap_clear (i : Z) : M unit :=
  modify (fun s => with_maps (Z.land (smallmap s) (u32 (Z.lnot (idx2bit i)))) (treemap s) s).
Definition is_smallmap_marked (s : MState) (i : Z) : bool :=
  truth (Z.land (smallmap s) (idx2bit i)).
Definition treemap_mark (i : Z) : M unit :=
  modify (fun s => with_maps (smallmap s) (Z.lor (treemap s) (idx2bit i)) s).
Definition treemap_clear (i : Z) : M unit :=
  modify (fun s => with_maps (smallmap s) (Z.land (treemap s) (u32 (Z.lnot (idx2bit i)))) s).
Definition is_treemap_marked (s : MState) (i : Z) : bool :=
  truth (Z.land (treemap s) (idx2bit i)).

(** *** Chunks *)

Definition chunk_header (p : Z) : M MChunkHeader := reads (fun s => header (heap s) p).
Definition chunk_size (p : Z) : M Z := h ← chunk_header p; mret (size_get h).
Definition chunk_next (p : Z) : M Z := reads (fun s => header_next (heap s) p).
Definition chunk_prev (p : Z) : M Z := reads (fun s => header_prev (heap s) p).
Definition chunk_split (p offset : Z) : M Z := fun s =>
  '(r, h) ← split (heap s) p offset; Ok (r, with_heap h s).
Definition chunk_unsplit (p previous : Z) : M unit :=
  on_heap (fun a => unsplit debug a p previous).

(** A chunk's [MChunk] is at its body and its ring link at offset 0 of that. *)
Definition bk_equals (r : PtrAddr.store) (f p : Z) : option bool :=
  v ← cell_prev r f; Some (bool_decide (v = p)).
Definition fd_equals (r : PtrAddr.store) (b p : Z) : option bool :=
  v ← cell_next r b; Some (bool_decide (v = p)).

Definition new_mchunk (p : Z) : M unit :=
  modify (fun s => with_rings (PtrAddr.construct (rings s) p) s).
Definition mchunk_metadata_clear (p : Z) : M unit :=
  modify (fun s => with_rings (delete p (rings s)) s).

(** *** Tree nodes *)

Definition tchunk (t : Z) : M TChunk := reads (fun s => deref (tchunks s !! t)).

Definition tupd (t : Z) (f : TChunk -> TChunk) : M unit := fun s =>
  n ← deref (tchunks s !! t); Ok (tt, with_tchunks (<[t := f n]> (tchunks s)) s).

Definition child (n : TChunk) (i : Z) : Z := if i =? 0 then child0 n else child1 n.
Definition set_child (i v : Z) (n : TChunk) : TChunk :=
  if i =? 0 then mkTChunk v (child1 n) (parent n) (index n)
  else mkTChunk (child0 n) v (parent n) (index n).
Definition set_parent (v : Z) (n : TChunk) : TChunk := mkTChunk (child0 n) (child1 n) v (index n).

Definition leftmost_child (n : TChunk) : Z := if truth (child0 n) then child0 n else child1 n.
Definition is_root (n : TChunk) : bool := parent n =? RootParent.
Definition is_tree_ring (n : TChunk) : bool := parent n =? RingParent.

(** The constructors: a leaf, with a singleton ring. *)
Definition new_tchunk (p ix prnt : Z) : M unit :=
  _ ← new_mchunk p;
  modify (fun s => with_tchunks (<[p := mkTChunk 0 0 prnt ix]> (tchunks s)) s).

Definition tchunk_metadata_clear (p : Z) : M unit :=
  _ ← mchunk_metadata_clear p;
  modify (fun s => with_tchunks (delete p (tchunks s)) s).

Definition ring_emplace (t ix tHeader : Z) : M unit :=
  _ ← new_tchunk (body tHeader) ix RingParent;
  on_rings (fun r => emplace_before r t (body tHeader)).

(** *** Sentinels and the first chunk *)

Definition ring_reset (p : Z) : M unit := modify (fun s => with_rings (PtrAddr.construct (rings s) p) s).

Fixpoint each {A} (l : list A) (f : A -> M unit) : M unit :=
  match l with
  | [] => mret tt
  | x :: l => _ ← f x; each l f
  end.

Definition init_bins : M unit :=
  _ ← each (Z.of_nat <$> seq 0 (Z.to_nat NSmallBins)) (fun i => ring_reset (smallbin_at i));
  _ ← each [0; 1] (fun i => ring_reset (quarantine_pending_get i));
  _ ← modify (fun s => with_pending (quarantinePendingEpoch s) (RingBuffer.reset 8 QuarantineRings) s);
  _ ← ring_reset quarantine_finished_get;
  modify (fun s => with_sizes (heapTotalSize s) (heapFreeSize s) 0 s).

(** The debug checks on addresses: true in release builds. *)
Definition ok_address (a : Z) : bool := negb debug || (heap_base <=? a).

(** [hazard_list_begin]: the epoch in the upper half of the lock word becomes odd, and
    the thread's identifier is in the lower half; the guard's destructor stores the
    even epoch it returns. *)
Definition hazard_list_begin : M Z := fun s =>
  let epoch := Z.shiftr (lockWord s) 16 in
  if truth (Z.land epoch 1) then Err EAbort
  else
    let epoch := u32 (epoch + 1) in
    let s := with_hazards (hazardQuarantine s)
               (Z.lor (u32 (Z.shiftl epoch 16)) thread_id) s in
    Ok (u32 (epoch + 1), s).

Definition hazard_guard_release (epoch : Z) : M unit :=
  modify (fun s => with_hazards (hazardQuarantine s) (u32 (Z.shiftl epoch 16)) s).

(** [hazardQuarantine] is given by its first [hazardQuarantineOccupancy] entries; the
    array has as many as there are hazard pointers. *)
Definition hazard_quarantine_is_empty (s : MState) : bool :=
  bool_decide (hazardQuarantine s = []).

Definition hazard_quarantine_add (ptr : cap) : M unit := fun s =>
  if (length (hazardQuarantine s) <? hazard_count)%nat
  then Ok (tt, with_hazards (hazardQuarantine s ++ [ptr]) (lockWord s) s)
  else Err EFault.
End State.

(** The state in zeroed memory, before [init_bins]. *)
Definition zero_state : MState :=
  mkMState (mkArena ∅ ∅) ∅ ∅ (replicate (Z.to_nat NTreeBins) 0) [0; 0] (mkCursors 0 0 false)
    0 0 0 0 0 [] 0 0 0 0 ∅.
