(* ===== verification/Bins.v ===== *)
(** * The allocator's free lists and trees: operations

    The bins of [class MState] of [src/cheriot-rtos/sdk/core/allocator/alloc.h]: the
    checks [ok_*], insertion and removal of chunks in the small bins and the tree bins,
    and the selection of a chunk of a tree.  A capability to a pointer ([rp], [cp], [c]
    in the code) is a [slot]: a tree node and which child; [0] is null. *)

From S2P Require Import Prelude LinkedList RingBuffer Bits AllocSizes ChunkHeader MState.

(** The depth to which trees are followed; a tree of a bin is keyed on the bits of a
    32-bit size, each level consuming one. *)
Definition tree_fuel : nat := 40.

Section Bins.
Context `{Env}.

Definition when_debug (m : M unit) : M unit := if debug then m else mret tt.

(** *** Debug checks *)

Definition ok_any_chunk (p : Z) : M unit := when_debug (
  shadowBit ← gets (fun s => mark_get (heap s) p);
  _ ← massert shadowBit;
  next ← chunk_next p;
  nextShadowBit ← gets (fun s => mark_get (heap s) next);
  _ ← massert nextShadowBit;
  _ ← massert (is_aligned (body p));
  massert (ok_address (body p))).

Definition ok_in_use_chunk (p : Z) : M unit := when_debug (
  _ ← ok_any_chunk p;
  h ← chunk_header p;
  _ ← massert (is_in_use h);
  next ← chunk_next p;
  hn ← chunk_header next;
  _ ← massert (is_prev_in_use hn);
  if is_prev_in_use h then mret tt
  else
    prev ← chunk_prev p;
    pn ← chunk_next prev;
    massert (pn =? p)).

Definition ok_free_chunk (pHeader : Z) : M unit := when_debug (
  let p := body pHeader in
  sz ← chunk_size pHeader;
  nextHeader ← chunk_next pHeader;
  _ ← ok_any_chunk pHeader;
  h ← chunk_header pHeader;
  _ ← (if is_in_use h then mret tt else massert (negb (isSealedObject h)));
  _ ← massert (negb (is_in_use h));
  hn ← chunk_header nextHeader;
  _ ← massert (negb (is_prev_in_use hn));
  wf ← ring_of (fun r => is_well_formed r p);
  _ ← massert wf;
  if MinChunkSize <=? sz then
    _ ← massert (Z.land sz MallocAlignMask =? 0);
    _ ← massert (is_aligned p);
    _ ← massert (prevsize_get hn =? sz);
    _ ← massert (is_prev_in_use h);
    _ ← massert (is_in_use hn);
    wf ← ring_of (fun r => is_well_formed r p);
    massert wf
  else massert (sz =? sizeof_header)).

Definition ok_malloced_chunk (p s : Z) : M unit := when_debug (
  if p =? 0 then mret tt
  else
    sz ← chunk_size p;
    _ ← ok_in_use_chunk p;
    _ ← massert (Z.land sz MallocAlignMask =? 0);
    _ ← massert (MinChunkSize <=? sz);
    _ ← massert (s <=? sz);
    massert (sz <? u32 (s + MinChunkSize))).

(** [search] with a visitor that checks and returns false. *)
Fixpoint ring_each (fuel : nat) (from to : Z) (f : Z -> M unit) : M unit :=
  match fuel with
  | O => fails EFuel
  | S fuel =>
      if from =? to then mret tt
      else
        _ ← f from;
        n ← ring_of (fun r => cell_next r from);
        ring_each fuel n to f
  end.

(** The rings of a state have no more cells than it has ring links. *)
Definition ring_fuel (s : MState) : nat := S (size (rings s)).

Definition ring_search_each (sen : Z) (f : Z -> M unit) : M unit :=
  n ← ring_of (fun r => cell_next r sen);
  fuel ← gets ring_fuel;
  ring_each fuel n sen f.

(** One visit of [ok_tree]: the checks of the node [t]. *)
Definition ok_tree_node (t : Z) : M unit :=
  let tHeader := from_body t in
  n ← tchunk t;
  let tindex := index n in
  tsize ← chunk_size tHeader;
  idx ← lift (compute_tree_index debug tsize);
  _ ← massert (tindex =? idx);
  _ ← massert (MaxSmallSize <? tsize);
  _ ← massert (minsize_for_tree_index idx <=? tsize);
  _ ← massert ((idx =? NTreeBins - 1) || (tsize <? minsize_for_tree_index (idx + 1)));
  _ ← ok_any_chunk tHeader;
  _ ← ok_free_chunk tHeader;
  n ← tchunk t;
  _ ← massert (index n =? tindex);
  sz ← chunk_size tHeader;
  _ ← massert (sz =? tsize);
  _ ← massert (negb (is_tree_ring n));
  _ ← massert (negb (parent n =? t));
  linked ← (if is_root n then mret true
            else pn ← tchunk (parent n); mret ((child pn 0 =? t) || (child pn 1 =? t)));
  _ ← massert linked;
  _ ← ring_search_each t (fun u =>
        let uHeader := from_body u in
        _ ← ok_any_chunk uHeader;
        _ ← ok_free_chunk uHeader;
        us ← chunk_size uHeader;
        _ ← massert (us =? tsize);
        nu ← tchunk u;
        _ ← massert (is_tree_ring nu);
        _ ← massert (child nu 0 =? 0);
        massert (child nu 1 =? 0));
  let checkChild i :=
    let c := child n i in
    if truth c then
      nc ← tchunk c;
      _ ← massert (parent nc =? t);
      _ ← massert (negb (c =? t));
      cs ← chunk_size (from_body c);
      massert (negb (cs =? tsize))
    else mret tt in
  _ ← checkChild 0;
  _ ← checkChild 1;
  if truth (child n 0) && truth (child n 1) then
    s0 ← chunk_size (from_body (child n 0));
    s1 ← chunk_size (from_body (child n 1));
    massert (s0 <? s1)
  else mret tt.

(** [ok_tree] ([enter]: check [t] first) and [ok_tree_next], which call each other in
    tail position: a walk with the previously visited node. *)
Fixpoint ok_tree_walk (fuel : nat) (enter : bool) (from t : Z) : M unit :=
  match fuel with
  | O => fails EFuel
  | S fuel =>
      if enter then _ ← ok_tree_node t; ok_tree_walk fuel false from t
      else
        n ← tchunk t;
        let ascend := if is_root n then mret tt else ok_tree_walk fuel false t (parent n) in
        if from =? parent n then
          if truth (child n 0) then ok_tree_walk fuel true t (child n 0)
          else if truth (child n 1) then ok_tree_walk fuel true t (child n 1)
          else ascend
        else if (from =? child n 0) && truth (child n 1) then ok_tree_walk fuel true t (child n 1)
        else ascend
  end.

Definition ok_tree (from t : Z) : M unit := when_debug (
  fuel ← gets (fun s => (4 * S (size (tchunks s)))%nat);
  ok_tree_walk fuel true from t).

Definition ok_treebin (i : Z) : M unit := when_debug (
  t ← treebin_get i;
  empty ← gets (fun s => Z.land (treemap s) (u32 (Z.shiftl 1 i)) =? 0);
  _ ← (if t =? 0 then massert empty else mret tt);
  if empty : bool then mret tt
  else
    n ← tchunk t;
    _ ← massert (is_root n);
    ok_tree (parent n) t).

Definition ok_smallbin (i : Z) : M unit := when_debug (
  let b := smallbin_at i in
  empty ← gets (fun s => Z.land (smallmap s) (u32 (Z.shiftl 1 i)) =? 0);
  is_emp ← ring_of (fun r => sentinel_is_empty r b);
  _ ← massert (Bool.eqb empty is_emp);
  ring_search_each b (fun p =>
    let pHeader := from_body p in
    _ ← ok_free_chunk pHeader;
    size ← chunk_size pHeader;
    massert (small_index size =? i))).

(** *** Small bins *)

Definition insert_small_chunk (p size : Z) : M unit :=
  let i := small_index size in
  let bin := smallbin_at i in
  _ ← massert (MinChunkSize <=? size);
  marked ← gets (fun s => is_smallmap_marked s i);
  _ ← (if negb marked then smallmap_mark i else checked (ok_address bin) (mret tt));
  _ ← new_mchunk (body p);
  on_rings (fun r => sentinel_append_emplace r bin (body p)).

Definition unsafe_remove_ring (p : Z) : M unit :=
  on_rings (fun r => '(_, r') ← unsafe_remove r p; Some r').

Definition unlink_small_chunk (p s : Z) : M unit :=
  fr ← ring_of (fun r => cell_next r p);
  let f := fr in
  br ← ring_of (fun r => cell_prev r p);
  let b := br in
  let pHeader := from_body p in
  let i := small_index s in
  let bin := smallbin_at i in
  single ← ring_of (fun r => is_singleton r p);
  _ ← massert (negb single);
  psize ← (if debug then chunk_size pHeader else mret (small_index2size i));
  _ ← massert (psize =? small_index2size i);
  ok_f ← RTCHECK (last ← ring_of (fun r => sentinel_last r bin);
                  or_else (p =? last)
                    (and_then (ok_address f) (ring_of (fun r => bk_equals r f p))));
  _ ← (if negb ok_f then corruption_error_action
       else if br =? fr then
         _ ← smallmap_clear i;
         on_rings (fun r => sentinel_reset r bin)
       else
         ok_b ← RTCHECK (first ← ring_of (fun r => sentinel_first r bin);
                         or_else (p =? first)
                           (and_then (ok_address b) (ring_of (fun r => fd_equals r b p))));
         if ok_b : bool then unsafe_remove_ring p else corruption_error_action);
  mchunk_metadata_clear p.

Definition take_first (b : Z) : M Z := fun s =>
  '(p, r) ← deref (sentinel_unsafe_take_first (rings s) b); Ok (p, with_rings r s).

Definition unlink_first_small_chunk (i : Z) : M Z :=
  let b := smallbin_at i in
  wf ← (if debug then ring_of (fun r => is_well_formed r b) else mret true);
  _ ← massert wf;
  p ← take_first b;
  _ ← massert (ok_address p);
  emp ← ring_of (fun r => sentinel_is_empty r b);
  _ ← (if emp : bool then smallmap_clear i else mret tt);
  _ ← mchunk_metadata_clear p;
  let pHeader := from_body p in
  psize ← (if debug then chunk_size pHeader else mret (small_index2size i));
  _ ← massert (psize =? small_index2size i);
  mret pHeader.

(** *** Tree bins *)

(** The address of a child pointer. *)
Definition slot_address (t i : Z) : Z := t + 8 + 8 * i.

Fixpoint insert_large_loop (fuel : nat) (xHeader s i t k : Z) : M unit :=
  match fuel with
  | O => fails EFuel
  | S fuel =>
      tsize ← chunk_size (from_body t);
      if negb (tsize =? s) then
        n ← tchunk t;
        let b := leftshifted_val_msb k in
        let c := child n b in
        let k := u32 (Z.shiftl k 1) in
        if truth c then insert_large_loop fuel xHeader s i c k
        else checked (ok_address (slot_address t b)) (
          _ ← new_tchunk (body xHeader) i t;
          tupd t (set_child b (body xHeader)))
      else
        back ← ring_of (fun r => cell_prev r t);
        checked (ok_address t && ok_address back) (ring_emplace t i xHeader)
  end.

Definition insert_large_chunk (xHeader s : Z) : M unit :=
  i ← lift (compute_tree_index debug s);
  marked ← gets (fun st => is_treemap_marked st i);
  if negb marked then
    _ ← treemap_mark i;
    _ ← new_tchunk (body xHeader) i RootParent;
    treebin_set i (body xHeader)
  else
    t ← treebin_get i;
    let k := u32 (Z.shiftl s (leftshift_for_tree_index i)) in
    insert_large_loop tree_fuel xHeader s i t k.

(** The descent to the rightmost leaf: [r] is the node in the slot [rp] (node, child). *)
Fixpoint rightmost_loop (fuel : nat) (r : Z) (rp : Z * Z) : M (Z * (Z * Z)) :=
  match fuel with
  | O => fails EFuel
  | S fuel =>
      n ← tchunk r;
      if truth (child n 1) then rightmost_loop fuel (child n 1) (r, 1)
      else if truth (child n 0) then rightmost_loop fuel (child n 0) (r, 0)
      else mret (r, rp)
  end.

(** The replacement of the node [x], taken out of its place: another node of its ring,
    else a leaf below it, else null. *)
Definition replacement (x : Z) : M Z :=
  single ← ring_of (fun r => is_singleton r x);
  if negb single then
    f ← ring_of (fun r => cell_next r x);
    r ← ring_of (fun r => cell_prev r x);
    ok ← RTCHECK (and_then (ok_address f)
                    (fbk ← ring_of (fun g => bk_equals g f x);
                     and_then fbk (ring_of (fun g => fd_equals g r x))));
    if ok : bool then _ ← unsafe_remove_ring x; mret r
    else corruption_error_action
  else
    n ← tchunk x;
    let descend i :=
      '(r, rp) ← rightmost_loop tree_fuel (child n i) (x, i);
      checked (ok_address (slot_address rp.1 rp.2)) (_ ← tupd rp.1 (set_child rp.2 0); mret r) in
    if truth (child n 1) then descend 1
    else if truth (child n 0) then descend 0
    else mret 0.

(** A child [c] of [x] becomes the child [i] of [r]. *)
Definition adopt (r i c : Z) : M unit :=
  if truth c then
    checked (ok_address c) (_ ← tupd r (set_child i c); tupd c (set_parent r))
  else mret tt.

(** The pointer to [x], in its bin or its parent, now points to [r]. *)
Definition relink (x : Z) (n : TChunk) (r : Z) : M unit :=
  h ← treebin_get (index n);
  if x =? h then
    _ ← treebin_set (index n) r;
    if r =? 0 then treemap_clear (index n) else mret tt
  else checked (ok_address (parent n)) (
    pn ← tchunk (parent n);
    if child pn 0 =? x then tupd (parent n) (set_child 0 r) else tupd (parent n) (set_child 1 r)).

(** [r] gets the parent and the children of [x]. *)
Definition take_place (x xp r : Z) : M unit :=
  if truth r then
    checked (ok_address r) (
      _ ← tupd r (set_parent xp);
      n ← tchunk x;
      _ ← adopt r 0 (child n 0);
      n ← tchunk x;
      adopt r 1 (child n 1))
  else mret tt.

Definition unlink_large_chunk (x : Z) : M unit :=
  r ← replacement x;
  n ← tchunk x;
  _ ← (if is_tree_ring n then mret tt
       else
         _ ← relink x n r;
         take_place x (parent n) r);
  tchunk_metadata_clear x.

Definition insert_chunk (p s : Z) : M unit :=
  if is_small s then insert_small_chunk p s else insert_large_chunk p s.

Definition unlink_chunk (p s : Z) : M unit :=
  if is_small s then unlink_small_chunk p s else unlink_large_chunk p.

(** *** Selection of a chunk of a tree *)

Fixpoint smallest_loop (fuel : nat) (t nb rsize v : Z) : M (Z * Z) :=
  match fuel with
  | O => fails EFuel
  | S fuel =>
      n ← tchunk t;
      let t := leftmost_child n in
      if truth t then
        tsize ← chunk_size (from_body t);
        let trem := u32 (tsize - nb) in
        if trem <? rsize then smallest_loop fuel t nb trem t else smallest_loop fuel t nb rsize v
      else mret (rsize, v)
  end.

Definition tmalloc_smallest (t nb : Z) : M Z :=
  tsize ← chunk_size (from_body t);
  _ ← massert (truth t);
  '(rsize, v) ← smallest_loop tree_fuel t nb (u32 (tsize - nb)) t;
  v ← ring_of (fun r => cell_next r v);
  checked (ok_address v) (
    let vHeader := from_body v in
    h ← chunk_header vHeader;
    _ ← massert (size_get h =? u32 (rsize + nb));
    _ ← massert (is_prev_in_use h);
    _ ← unlink_large_chunk v;
    _ ← (if MinChunkSize <=? rsize then
           r ← chunk_split vHeader nb;
           insert_chunk r rsize
         else mret tt);
    _ ← on_heap (fun a => mark_in_use a vHeader);
    mret vHeader).

(** The traversal of the tree of the bin of [nb]: the result is [t] and [v] after the
    loop. *)
Fixpoint large_loop (fuel : nat) (t nb rsize sizebits v rst : Z) : M (Z * Z) :=
  match fuel with
  | O => fails EFuel
  | S fuel =>
      tsize ← chunk_size (from_body t);
      let trem := u32 (tsize - nb) in
      let descend v rsize :=
        n ← tchunk t;
        let rt := child n 1 in
        let t := child n (leftshifted_val_msb sizebits) in
        let rst := if truth rt && negb (rt =? t) then rt else rst in
        if t =? 0 then mret (rst, v)
        else large_loop fuel t nb rsize (u32 (Z.shiftl sizebits 1)) v rst in
      if trem <? rsize then
        if trem =? 0 then mret (t, t) else descend t trem
      else descend v rsize
  end.

Definition tmalloc_large (nb : Z) : M Z :=
  idx ← lift (compute_tree_index debug nb);
  t ← treebin_get idx;
  '(t, v) ← (if truth t then
               large_loop tree_fuel t nb (u32 (- nb))
                 (u32 (Z.shiftl nb (leftshift_for_tree_index idx))) 0 0
             else mret (t, 0));
  if negb (truth t) && negb (truth v) then
    leftbits ← gets (fun s => Z.land (above_least 32 (idx2bit idx)) (treemap s));
    if truth leftbits then
      t ← treebin_get (bit2idx (isolate_least 32 leftbits));
      tmalloc_smallest t nb
    else mret 0
  else tmalloc_smallest (if truth v then v else t) nb.

Definition tmalloc_small (nb : Z) : M Z :=
  leastbit ← gets (fun s => isolate_least 32 (treemap s));
  t ← treebin_get (bit2idx leastbit);
  tmalloc_smallest t nb.
End Bins.
