(* ===== verification/SmallBins.v ===== *)
(** * The small bins are rings of equal-sized free chunks

    What the operations of [Bins] on the small bins do.  [small_ok s i l] says that bin
    [i] of the state [s] is the ring of the bodies [l], each the body of a chunk whose
    header has the size of the bin, and that the bit of the bin in [smallmap] is set
    exactly when the bin is not empty.  The operations are appending, removing and
    taking the first element of [l], and leave every other ring alone. *)

From S2P Require Import Prelude LinkedList Bits AllocSizes ChunkHeader MState Bins.

(** ** Running computations of [M] *)

Lemma M_bind_ok {A B} (m : M A) (k : A -> M B) s a s' :
  m s = Ok (a, s') -> (m ≫= k) s = k a s'.
Proof. unfold mbind, M_bind. by intros ->. Qed.

Lemma M_gets {A B} (f : MState -> A) (k : A -> M B) s : (gets f ≫= k) s = k (f s) s.
Proof. done. Qed.

Lemma M_modify {B} f (k : unit -> M B) s : (modify f ≫= k) s = k tt (f s).
Proof. done. Qed.

Lemma M_mret {A B} (a : A) (k : A -> M B) s : ((mret a : M A) ≫= k) s = k a s.
Proof. done. Qed.

Lemma M_assoc {A B C} (m : M A) (k : A -> M B) (j : B -> M C) s :
  ((m ≫= k) ≫= j) s = (m ≫= (fun a => k a ≫= j)) s.
Proof. unfold mbind, M_bind. destruct (m s) as [[a s1]|e]; done. Qed.

Lemma reads_ok {A} (f : MState -> outcome A) s a : f s = Ok a -> reads f s = Ok (a, s).
Proof. unfold reads. by intros ->. Qed.

Lemma ring_of_ok {A} (f : PtrAddr.store -> option A) s a :
  f (rings s) = Some a -> ring_of f s = Ok (a, s).
Proof. intros E. apply reads_ok. by rewrite E. Qed.

Lemma on_rings_ok f s r : f (rings s) = Some r -> on_rings f s = Ok (tt, with_rings r s).
Proof. unfold on_rings. by intros ->. Qed.

Lemma on_heap_ok f s h : f (heap s) = Ok h -> on_heap f s = Ok (tt, with_heap h s).
Proof. unfold on_heap. by intros ->. Qed.

Lemma massert_ok `{Env} b s : b = true -> massert b s = Ok (tt, s).
Proof. intros ->. unfold massert, lift, reads. by rewrite dassert_true. Qed.

Lemma checked_ok `{Env} {A} e (m : M A) s : e = true -> checked e m s = m s.
Proof. intros ->. unfold checked, RTCHECK. by destruct NDEBUG. Qed.

Lemma rtcheck_ok `{Env} (m : M bool) s : m s = Ok (true, s) -> RTCHECK m s = Ok (true, s).
Proof. unfold RTCHECK. by destruct NDEBUG. Qed.

Lemma treebin_get_ok `{Env} i s t : treebins s !! Z.to_nat i = Some t ->
  treebin_get i s = Ok (t, s).
Proof. intros E. apply reads_ok. by rewrite E. Qed.

Lemma with_maps_same s : with_maps (smallmap s) (treemap s) s = s.
Proof. by destruct s. Qed.

(** Run the first step of a computation by the equation [E], by an effect-free
    primitive, or by an assertion whose condition is left to prove. *)
Tactic Notation "mrun" uconstr(E) := rewrite (M_bind_ok _ _ _ _ _ E); cbn beta.
Ltac mpure := repeat first [rewrite M_gets | rewrite M_modify | rewrite M_mret]; cbn beta.
Ltac massert := rewrite (M_bind_ok _ _ _ _ _ (massert_ok _ _ ltac:(idtac)));
  [cbn beta|].
Ltac mcheck := erewrite M_bind_ok by (apply massert_ok; eauto); cbn beta.

(** ** Rings of cells in memory *)

(** Taking a cell that is not the first out of a ring, and clearing it. *)
Lemma ring_remove (r : PtrAddr.store) sen l1 p l2 :
  ring r (sen :: l1 ++ p :: l2) ->
  exists q r', unsafe_remove r p = Some (q, r') /\ ring r' (sen :: l1 ++ l2) /\
    keeps r r' (fun x => x ∉ sen :: l1 ++ p :: l2).
Proof.
  intros Hr. change (sen :: l1 ++ p :: l2) with ((sen :: l1) ++ p :: l2) in Hr.
  apply ring_rotate in Hr. cbn [app] in Hr.
  destruct (unsafe_remove_span_ring r p [] p (l2 ++ sen :: l1)) as
    (q & r' & E & _ & Hr' & _ & _ & _ & _ & Hk); [done|by destruct l2|done|].
  exists q, r'. splits; [done| |].
  - by apply ring_rotate in Hr'.
  - intros x Hx. apply Hk. set_solver.
Qed.

Lemma ring_unlink (r : PtrAddr.store) sen l1 p l2 :
  ring r (sen :: l1 ++ p :: l2) ->
  exists q r', unsafe_remove r p = Some (q, r') /\ ring (delete p r') (sen :: l1 ++ l2) /\
    keeps r (delete p r') (fun x => x ∉ sen :: l1 ++ p :: l2).
Proof.
  intros Hr. destruct (ring_remove _ _ _ _ _ Hr) as (q & r' & E & Hr' & Hk).
  assert (p ∉ sen :: l1 ++ l2) as Hp.
  { apply ring_NoDup, NoDup_cons in Hr as [H1 Hnd]. apply NoDup_app in Hnd as (_ & H2 & H3).
    apply NoDup_cons in H3 as [H3 _]. specialize (H2 p). set_solver. }
  assert (keeps r' (delete p r') (fun x => x <> p)) as Hd.
  { intros x Hx. cbn. by rewrite !lookup_delete_ne by congruence. }
  exists q, r'. splits; [done| |].
  - eapply ring_frame; [done|]. intros x Hx. apply Hd. by intros ->.
  - intros x Hx. destruct (Hk x Hx) as [K1 K2]. destruct (Hd x) as [D1 D2]; [set_solver|].
    by rewrite D1, D2, K1, K2.
Qed.

(** The neighbours of a cell that is not the first. *)
Lemma ring_neighbours (r : PtrAddr.store) sen l1 p l2 :
  ring r (sen :: l1 ++ p :: l2) ->
  exists f b, cell_next r p = Some f /\ cell_prev r p = Some b /\
    head (l2 ++ [sen]) = Some f /\ last (sen :: l1) = Some b /\
    cell_prev r f = Some p /\ cell_next r b = Some p /\
    is_singleton r p = Some false /\ (b =? f) = bool_decide (l1 ++ l2 = []).
Proof.
  intros Hr. pose proof (ring_NoDup _ _ Hr) as Hnd.
  pose proof Hr as Hrot. change (sen :: l1 ++ p :: l2) with ((sen :: l1) ++ p :: l2) in Hrot.
  apply ring_rotate in Hrot. cbn [app] in Hrot.
  destruct (ring_next _ _ _ Hrot) as (f & Hf & Hn & Hp).
  destruct (ring_prev _ _ _ Hrot) as (b & Hb & Hn' & Hp').
  assert (head (l2 ++ [sen]) = Some f) as Hf' by (by destruct l2).
  assert (last (sen :: l1) = Some b) as Hb'.
  { rewrite app_comm_cons, last_app in Hb. destruct (last (sen :: l1)) eqn:E; [done|].
    by apply last_None in E. }
  exists f, b. splits; try done.
  - rewrite (is_singleton_ring _ _ _ Hrot). by destruct l2.
  - apply NoDup_cons in Hnd as [Hs Hnd]. destruct (decide (l1 ++ l2 = [])) as [E|E].
    + apply app_nil in E as [-> ->]. cbn in Hf', Hb'. simplify_eq. by rewrite Z.eqb_refl.
    + rewrite bool_decide_eq_false_2 by done. apply Z.eqb_neq. intros ->.
      clear Hf Hb. destruct l2 as [|y l2]; cbn in Hf'; injection Hf' as ->.
      * rewrite app_nil_r in E. destruct l1 as [|z l1]; [done|]. rewrite last_cons_cons in Hb'.
        apply last_Some_elem_of in Hb'. apply Hs. set_solver.
      * apply last_Some_elem_of in Hb'. apply NoDup_app in Hnd as (_ & Hd & Hnd).
        apply elem_of_cons in Hb' as [->|Hin]; [apply Hs; set_solver|].
        apply (Hd f Hin). set_solver.
Qed.

(** Appending a freshly constructed cell. *)
Lemma ring_append_new (r : PtrAddr.store) sen l p :
  ring r (sen :: l) -> p ∉ sen :: l ->
  exists r', sentinel_append_emplace (PtrAddr.construct r p) sen p = Some r' /\
    ring r' (sen :: l ++ [p]) /\ keeps r r' (fun x => x ∉ sen :: l ++ [p]).
Proof.
  intros Hr Hp. pose proof (PtrAddrLaws.construct_keeps r p) as Hc.
  destruct (emplace_before_ring (PtrAddr.construct r p) sen l p) as (r' & E & Hr' & Hk).
  - eapply ring_frame; [done|]. intros x Hx. apply Hc. by intros ->.
  - eapply ring_valid; [apply PtrAddrLaws.construct_ring|]. set_solver.
  - done.
  - exists r'. splits; [done|done|]. intros x Hx. destruct (Hk x Hx) as [-> ->].
    apply Hc. intros ->. apply Hx. set_solver.
Qed.

(** ** Addresses *)

(** The [MState] and the heap do not overlap and are addressable. *)
Class EnvOk `{Env} : Prop := {
  base_below : 0 <= heap_base <= ms_address;
  ms_below : ms_address + 240 <= heap_address;
  heap_below : heap_address < heap_top < 2 ^ 32;
  address_aligned : heap_address mod 8 = 0;
  thread_id_range : 0 <= thread_id < 2 ^ 16;
}.

(** The addresses of chunk bodies. *)
Definition in_heap `{Env} (b : Z) : Prop := heap_address + 8 <= b < 2 ^ 32.

(** [chunk_of s b size]: at [b] is the body of a chunk whose header says [size]. *)
Definition chunk_of `{Env} (s : MState) (b size : Z) : Prop :=
  in_heap b /\ exists h, hdrs (heap s) !! from_body b = Some h /\ size_get h = size.

Section Small.
Context `{EnvOk}.
Implicit Types (s : MState) (l : list Z).

Lemma from_body_of b : in_heap b -> from_body b = b - 8.
Proof.
  intros [Hb Hb']. pose proof base_below. pose proof ms_below. apply wrap_small.
  change sizeof_header with 8. lia.
Qed.

Lemma body_from b : in_heap b -> body (from_body b) = b.
Proof.
  intros Hb. rewrite from_body_of by done. destruct Hb as [Hb Hb'].
  pose proof base_below. pose proof ms_below. unfold body. change sizeof_header with 8.
  unfold u32. rewrite wrap_small; lia.
Qed.

Lemma chunk_size_ok s b size : chunk_of s b size -> chunk_size (from_body b) s = Ok (size, s).
Proof.
  intros (_ & h & E & <-). unfold chunk_size, chunk_header.
  assert (header (heap s) (from_body b) = Ok h) as E' by (unfold header; by rewrite E).
  mrun (reads_ok _ s _ E'). done.
Qed.

Lemma chunk_header_ok s b size : chunk_of s b size ->
  exists h, chunk_header (from_body b) s = Ok (h, s) /\ size_get h = size.
Proof.
  intros (_ & h & E & Hh). exists h. split; [|done]. apply reads_ok. unfold header. by rewrite E.
Qed.

Lemma ok_address_ms i : 0 <= i -> ok_address (ms_address + i) = true.
Proof.
  intros Hi. unfold ok_address. pose proof base_below.
  rewrite (proj2 (Z.leb_le _ _)) by lia. apply orb_true_r.
Qed.

Lemma ok_address_heap b : in_heap b -> ok_address b = true.
Proof.
  intros [Hb _]. unfold ok_address. pose proof base_below. pose proof ms_below.
  rewrite (proj2 (Z.leb_le _ _)) by lia. apply orb_true_r.
Qed.

(** ** The invariant of a bin *)

Definition small_ok s (i : Z) l : Prop :=
  ring (rings s) (smallbin_at i :: l) /\
  Forall (fun b => chunk_of s b (small_index2size i)) l /\
  Z.testbit (smallmap s) i = negb (bool_decide (l = [])) /\ smallmap s in_u 32.

Lemma idx2bit_spec i j : 0 <= i < 32 -> 0 <= j -> Z.testbit (idx2bit i) j = (j =? i).
Proof.
  intros Hi Hj. unfold idx2bit, u32. rewrite wrap_testbit, Z.shiftl_spec by lia.
  destruct (Z.eqb_spec j i) as [->|Hne].
  - rewrite Z.sub_diag. cbn. apply Z.ltb_lt. lia.
  - destruct (Z.ltb_spec (j - i) 0).
    + rewrite Z.testbit_neg_r by lia. done.
    + replace (Z.testbit 1 (j - i)) with false; [done|]. symmetry.
      apply Z.bits_above_log2; [lia|]. cbn. lia.
Qed.

Lemma marked_bit m i : 0 <= i < 32 -> truth (Z.land m (idx2bit i)) = Z.testbit m i.
Proof.
  intros Hi. destruct (Z.testbit m i) eqn:E.
  - unfold truth. apply negb_true_iff, Z.eqb_neq. intros E0.
    assert (Z.testbit (Z.land m (idx2bit i)) i = true) as E1.
    { rewrite Z.land_spec, E, idx2bit_spec by lia. by rewrite Z.eqb_refl. }
    by rewrite E0, Z.bits_0 in E1.
  - replace (Z.land m (idx2bit i)) with 0; [done|]. symmetry. apply bits_eq. intros j Hj.
    rewrite Z.land_spec, idx2bit_spec, Z.bits_0 by lia.
    destruct (Z.eqb_spec j i) as [->|]; [by rewrite E|apply andb_false_r].
Qed.

Lemma mark_bits m i : 0 <= i < 32 -> m in_u 32 ->
  Z.lor m (idx2bit i) in_u 32 /\
  (forall j, 0 <= j -> Z.testbit (Z.lor m (idx2bit i)) j = if j =? i then true else Z.testbit m j).
Proof.
  intros Hi Hm. split; [apply lor_bound; [lia|done|apply wrap_bound; lia]|].
  intros j Hj. rewrite Z.lor_spec, idx2bit_spec by lia.
  destruct (j =? i); [apply orb_true_r|apply orb_false_r].
Qed.

Lemma clear_bits m i : 0 <= i < 32 -> m in_u 32 ->
  Z.land m (u32 (Z.lnot (idx2bit i))) in_u 32 /\
  (forall j, 0 <= j ->
    Z.testbit (Z.land m (u32 (Z.lnot (idx2bit i)))) j = if j =? i then false else Z.testbit m j).
Proof.
  intros Hi Hm. split; [apply land_bound; [lia|apply wrap_bound; lia]|].
  intros j Hj. unfold u32. rewrite Z.land_spec, wrap_testbit, Z.lnot_spec, idx2bit_spec by lia.
  destruct (Z.eqb_spec j i) as [->|]; [apply andb_false_r|].
  destruct (Z.ltb_spec j 32); cbn; [apply andb_true_r|].
  rewrite (testbit_high 32 m j) by (done || lia). done.
Qed.

(** The state after an operation on bin [i]: only the rings and the map changed, the
    cells of other rings and the other bits of the map did not. *)
Definition bin_step s s' (i : Z) (P : Z -> Prop) : Prop :=
  exists r m, s' = with_rings r (with_maps m (treemap s) s) /\ keeps (rings s) r P /\
    m in_u 32 /\ (forall j, 0 <= j -> j <> i -> Z.testbit m j = Z.testbit (smallmap s) j).

Lemma chunk_of_step s s' i P b size :
  bin_step s s' i P -> chunk_of s' b size <-> chunk_of s b size.
Proof. by intros (r & m & -> & _). Qed.

(** Other bins are not affected. *)
Lemma small_ok_step s s' i P j l :
  bin_step s s' i P -> 0 <= j -> j <> i -> (forall q, q ∈ smallbin_at j :: l -> P q) ->
  small_ok s j l -> small_ok s' j l.
Proof.
  intros (r & m & -> & Hk & Hm & Hb) Hj Hne HP (Hr & Hc & Ht & _).
  unfold small_ok. splits.
  - eapply ring_frame; [done|]. intros q Hq. by apply Hk, HP.
  - done.
  - cbn. by rewrite Hb.
  - apply Hm.
  - apply Hm.
Qed.

Lemma small_index_of i : 0 <= i < 8 -> small_index (small_index2size i) = i.
Proof. intros Hi. assert (i = 0 \/ i = 1 \/ i = 2 \/ i = 3 \/ i = 4 \/ i = 5 \/ i = 6 \/ i = 7) by lia.
  naive_solver. Qed.

Lemma small_size_of i : 0 <= i < 8 -> small_index2size i = 8 * (i + 1).
Proof. intros Hi. assert (i = 0 \/ i = 1 \/ i = 2 \/ i = 3 \/ i = 4 \/ i = 5 \/ i = 6 \/ i = 7) by lia.
  naive_solver. Qed.

Lemma insert_small_ok s i l p :
  1 <= i < 8 -> small_ok s i l -> in_heap (body p) -> body p ∉ l ->
  chunk_of s (body p) (small_index2size i) ->
  exists s', insert_small_chunk p (small_index2size i) s = Ok (tt, s') /\
    small_ok s' i (l ++ [body p]) /\
    bin_step s s' i (fun q => q ∉ smallbin_at i :: l ++ [body p]).
Proof.
  intros Hi (Hr & Hc & Ht & Hm) Hp Hnin Hch. unfold insert_small_chunk.
  rewrite small_index_of by lia.
  mrun (massert_ok (MinChunkSize <=? small_index2size i) s ltac:(
    rewrite small_size_of by lia; apply Z.leb_le; change MinChunkSize with 16; lia)).
  mpure. unfold is_smallmap_marked. rewrite marked_bit by lia.
  assert (body p ∉ smallbin_at i :: l) as Hnin'.
  { unfold smallbin_at. pose proof ms_below. destruct Hp. intros [E|?]%elem_of_cons; [lia|done]. }
  destruct (ring_append_new _ _ _ _ Hr Hnin') as (r' & Er & Hr' & Hk).
  set (m := if Z.testbit (smallmap s) i then smallmap s else Z.lor (smallmap s) (idx2bit i)).
  assert (m in_u 32 /\ forall j, 0 <= j -> Z.testbit m j = if j =? i then true else Z.testbit (smallmap s) j)
    as [Hmu Hmb].
  { unfold m. destruct (Z.testbit (smallmap s) i) eqn:Eb; [|apply mark_bits; [lia|done]].
    split; [done|]. intros j Hj. destruct (Z.eqb_spec j i) as [->|]; done. }
  assert ((if negb (Z.testbit (smallmap s) i) then smallmap_mark i
           else checked (ok_address (smallbin_at i)) (mret tt)) s
    = Ok (tt, with_maps m (treemap s) s)) as Em.
  { unfold m. destruct (Z.testbit (smallmap s) i); cbn [negb]; [|done].
    rewrite checked_ok; [by destruct s|]. unfold smallbin_at.
    rewrite <- Z.add_assoc. apply ok_address_ms. lia. }
  mrun Em. unfold new_mchunk. mpure.
  erewrite on_rings_ok by (cbn; exact Er).
  eexists; split; [reflexivity|]. split.
  - unfold small_ok. splits.
    + done.
    + apply Forall_app. split; [done|]. by apply Forall_singleton.
    + cbn. rewrite Hmb by lia. rewrite Z.eqb_refl. by destruct l.
    + apply Hmu.
    + apply Hmu.
  - exists r', m. splits; [done|done|apply Hmu|apply Hmu|].
    intros j Hj Hne. rewrite Hmb by lia. by rewrite (proj2 (Z.eqb_neq j i)).
Qed.

Lemma ok_address_cell s i l b :
  0 <= i -> Forall (fun b => chunk_of s b (small_index2size i)) l ->
  b ∈ smallbin_at i :: l -> ok_address b = true.
Proof.
  intros Hi Hc [->|Hb]%elem_of_cons.
  - unfold smallbin_at. rewrite <- Z.add_assoc. apply ok_address_ms. lia.
  - rewrite Forall_forall in Hc. apply ok_address_heap. by apply Hc.
Qed.

Lemma unlink_small_ok s i l1 p l2 :
  0 <= i < 8 -> small_ok s i (l1 ++ p :: l2) ->
  exists s', unlink_small_chunk p (small_index2size i) s = Ok (tt, s') /\
    small_ok s' i (l1 ++ l2) /\
    bin_step s s' i (fun q => q ∉ smallbin_at i :: l1 ++ p :: l2).
Proof.
  intros Hi (Hr & Hc & Ht & Hm). unfold unlink_small_chunk. rewrite small_index_of by done.
  assert (chunk_of s p (small_index2size i)) as Hp.
  { by apply Forall_app, proj2, Forall_cons, proj1 in Hc. }
  assert (Forall (fun b => chunk_of s b (small_index2size i)) (l1 ++ l2)) as Hc'.
  { apply Forall_app in Hc as [? Hc]. apply Forall_cons in Hc as [_ ?]. by apply Forall_app. }
  destruct (ring_unlink _ _ _ _ _ Hr) as (q & r' & Eu & Hr' & Hk).
  pose proof (ring_neighbours _ _ _ _ _ Hr) as (f & b & Ef & Eb & Hf & Hb & Hfp & Hbp & Hn & Hsame).
  mrun (ring_of_ok (fun r => cell_next r p) s f Ef).
  mrun (ring_of_ok (fun r => cell_prev r p) s b Eb).
  mrun (ring_of_ok (fun r => is_singleton r p) s false Hn).
  mrun (massert_ok (negb false) s eq_refl).
  rewrite (M_bind_ok _ _ s (small_index2size i) s)
    by (destruct debug; [by apply chunk_size_ok|done]).
  mrun (massert_ok _ s (Z.eqb_refl (small_index2size i))).
  assert (forall x, x ∈ smallbin_at i :: l1 ++ l2 -> ok_address x = true) as Hok
    by (intros x; by apply ok_address_cell with (s := s); [lia|]).
  assert (ok_address f = true) as Hof.
  { apply Hok. destruct l2; cbn in Hf; injection Hf as <-; set_solver. }
  assert (ok_address b = true) as Hob.
  { apply Hok. apply last_Some_elem_of in Hb. set_solver. }
  destruct (ring_prev _ _ _ Hr) as (t & _ & _ & Hsp).
  destruct (ring_next _ _ _ Hr) as (h & _ & Hsn & _).
  assert (bk_equals (rings s) f p = Some true) as Efp.
  { unfold bk_equals. rewrite Hfp. cbn. by rewrite bool_decide_eq_true_2. }
  assert (fd_equals (rings s) b p = Some true) as Ebp.
  { unfold fd_equals. rewrite Hbp. cbn. by rewrite bool_decide_eq_true_2. }
  rewrite (M_bind_ok _ _ s true s); cycle 1.
  { apply rtcheck_ok. mrun (ring_of_ok (fun r => sentinel_last r (smallbin_at i)) s t Hsp).
    unfold or_else, and_then. destruct (p =? t); [done|]. rewrite Hof.
    by apply ring_of_ok. }
  cbn [negb]. rewrite Hsame.
  destruct (decide (l1 ++ l2 = [])) as [E|E].
  - rewrite bool_decide_eq_true_2, E in * by done. clear Hok.
    unfold smallmap_clear.
    destruct (PtrAddrLaws.reset_ring (rings s) (smallbin_at i)) as (r2 & Er2 & Hr2 & Hk2).
    { refine (ring_valid (rings s) _ _ Hr _). left. }
    rewrite M_assoc. mpure.
    mrun (on_rings_ok (fun r => sentinel_reset r (smallbin_at i))
            (with_maps (Z.land (smallmap s) (u32 (Z.lnot (idx2bit i)))) (treemap s) s) r2 Er2).
    eexists; split; [reflexivity|].
    destruct (clear_bits (smallmap s) i ltac:(lia) Hm) as [Hmu Hmb].
    assert (keeps r2 (delete p r2) (fun x => x <> p)) as Hd.
    { intros x Hx. cbn. by rewrite !lookup_delete_ne by congruence. }
    assert (p <> smallbin_at i) as Hps.
    { apply ring_NoDup, NoDup_cons in Hr as [Hr _]. set_solver. }
    split.
    + unfold small_ok. splits; [|done| |apply Hmu..].
      * eapply ring_frame; [exact Hr2|]. intros x Hx. apply Hd. set_solver.
      * cbn. rewrite Hmb, Z.eqb_refl by lia. done.
    + exists (delete p r2), (Z.land (smallmap s) (u32 (Z.lnot (idx2bit i)))).
      splits; [done| |apply Hmu..|].
      * intros x Hx. destruct (Hd x) as [-> ->]; [set_solver|]. apply Hk2. set_solver.
      * intros j Hj Hne. rewrite Hmb by done. by rewrite (proj2 (Z.eqb_neq j i)).
  - rewrite bool_decide_eq_false_2 by done.
    assert ((ok_b ← RTCHECK (first ← ring_of (fun r => sentinel_first r (smallbin_at i));
               or_else (p =? first)
                 (and_then (ok_address b) (ring_of (fun r => fd_equals r b p))));
             if ok_b : bool then unsafe_remove_ring p else corruption_error_action) s
            = Ok (tt, with_rings r' s)) as Er.
    { rewrite (M_bind_ok _ _ s true s); cycle 1.
      { apply rtcheck_ok. mrun (ring_of_ok (fun r => sentinel_first r (smallbin_at i)) s h Hsn).
        unfold or_else, and_then. destruct (p =? h); [done|]. rewrite Hob. by apply ring_of_ok. }
      unfold unsafe_remove_ring. apply on_rings_ok. by rewrite Eu. }
    mrun Er. eexists; split; [reflexivity|]. split.
    + unfold small_ok. splits; [done|done| |apply Hm..]. cbn. rewrite Ht.
      rewrite !bool_decide_eq_false_2; [done|done|]. by destruct l1.
    + exists (delete p r'), (smallmap s). splits; [by destruct s|done|apply Hm..|done].
Qed.

Lemma unlink_first_small_ok s i p l :
  0 <= i < 8 -> small_ok s i (p :: l) ->
  exists s', unlink_first_small_chunk i s = Ok (from_body p, s') /\
    small_ok s' i l /\ bin_step s s' i (fun q => q ∉ smallbin_at i :: p :: l).
Proof.
  intros Hi (Hr & Hc & Ht & Hm). apply Forall_cons in Hc as [Hp Hc].
  pose proof (ring_NoDup _ _ Hr) as Hnd. apply NoDup_cons in Hnd as [Hs Hnd].
  apply NoDup_cons in Hnd as [Hpl _].
  destruct (unsafe_remove_link_ring _ _ _ _ Hr) as (r' & Er & Hr' & Hk & _).
  destruct (ring_next _ _ _ Hr) as (h & Hh & Hn & _). cbn in Hh. injection Hh as <-.
  unfold unlink_first_small_chunk.
  rewrite (M_bind_ok _ _ s true s); cycle 1.
  { destruct debug; [|done]. apply ring_of_ok. eapply is_well_formed_ring; [done|left]. }
  mrun (massert_ok true s eq_refl).
  assert (take_first (smallbin_at i) s = Ok (p, with_rings r' s)) as Et.
  { unfold take_first, sentinel_unsafe_take_first. rewrite Hn. cbn [mbind option_bind].
    by rewrite Er. }
  mrun Et. mrun (massert_ok (ok_address p) (with_rings r' s) ltac:(apply ok_address_heap, Hp)).
  mrun (ring_of_ok (fun r => sentinel_is_empty r (smallbin_at i)) (with_rings r' s) _
          (is_singleton_ring _ _ _ Hr')).
  set (e := bool_decide (l = [])) in *.
  set (m := if e then Z.land (smallmap s) (u32 (Z.lnot (idx2bit i)))
            else smallmap s).
  assert ((if e then smallmap_clear i else mret tt) (with_rings r' s)
    = Ok (tt, with_rings r' (with_maps m (treemap s) s))) as Em.
  { unfold m. destruct e; [done|]. by rewrite with_maps_same. }
  mrun Em. unfold mchunk_metadata_clear. mpure.
  set (s2 := with_rings (delete p r') (with_maps m (treemap s) s)).
  rewrite (M_bind_ok _ _ s2 (small_index2size i) s2)
    by (destruct debug; [apply chunk_size_ok; exact Hp|done]).
  mrun (massert_ok _ s2 (Z.eqb_refl (small_index2size i))).
  destruct (clear_bits (smallmap s) i ltac:(lia) Hm) as [Hmu Hmb].
  assert (keeps r' (delete p r') (fun x => x <> p)) as Hd.
  { intros x Hx. cbn. by rewrite !lookup_delete_ne by congruence. }
  exists s2. split; [done|]. split.
  - unfold small_ok. splits.
    + eapply ring_frame; [done|]. intros x Hx. apply Hd. set_solver.
    + done.
    + cbn. fold e. unfold m. destruct e; [by rewrite Hmb, Z.eqb_refl by lia|]. done.
    + cbn. unfold m. destruct e; [apply Hmu|apply Hm].
    + cbn. unfold m. destruct e; [apply Hmu|apply Hm].
  - exists (delete p r'), m. splits; [done| |unfold m; destruct e; [apply Hmu|apply Hm]..|].
    + intros x Hx. destruct (Hd x) as [-> ->]; [set_solver|]. apply Hk. set_solver.
    + intros j Hj Hne. unfold m. destruct e; [|done]. rewrite Hmb by done.
      by rewrite (proj2 (Z.eqb_neq j i)).
Qed.
End Small.
