(* ===== verification/TreeBins.v ===== *)
(** * The tree bins are tries of free chunks

    [tree] is the abstract content of a tree bin: a node has its chunk, the size of that
    chunk, the other chunks of the same size on its ring, and two subtrees.
    [tree_rep s i p t] says that the state [s] represents [t] as a tree of bin [i] below
    the parent [p]; [trie n t] that the subtrees are told apart by bit [n - 1] of the
    sizes.  This file proves that [insert_large_chunk] inserts into the trie. *)

From S2P Require Import Prelude LinkedList AllocSizes ChunkHeader MState Bins SmallBins.

Inductive tree : Type :=
| Leaf
| Node (a sz : Z) (mates : list Z) (l r : tree).

Definition root (t : tree) : Z := match t with Leaf => 0 | Node a _ _ _ _ => a end.

(** All chunks of a tree, and the sizes of its nodes. *)
Fixpoint addrs (t : tree) : list Z :=
  match t with
  | Leaf => []
  | Node a _ mates l r => (a :: mates) ++ addrs l ++ addrs r
  end.

Fixpoint sizes (t : tree) : list Z :=
  match t with
  | Leaf => []
  | Node _ sz _ l r => sz :: sizes l ++ sizes r
  end.

(** The chunks with their sizes. *)
Fixpoint chunks_of (t : tree) : list (Z * Z) :=
  match t with
  | Leaf => []
  | Node a sz mates l r => ((fun b => (b, sz)) <$> a :: mates) ++ chunks_of l ++ chunks_of r
  end.

(** [n] bits of the sizes are still to be told apart, from bit [n - 1] down. *)
Fixpoint trie (n : nat) (t : tree) {struct t} : Prop :=
  match t with
  | Leaf => True
  | Node _ sz _ l r =>
      match n with
      | O => l = Leaf /\ r = Leaf
      | S n =>
          Forall (fun z => Z.testbit z (Z.of_nat n) = false) (sizes l) /\
          Forall (fun z => Z.testbit z (Z.of_nat n) = true) (sizes r) /\
          sz ∉ sizes l /\ sz ∉ sizes r /\ trie n l /\ trie n r
      end
  end.

(** Insertion of the chunk [b] of size [sz]. *)
Fixpoint t_insert (n : nat) (sz b : Z) (t : tree) {struct t} : tree :=
  match t with
  | Leaf => Node b sz [] Leaf Leaf
  | Node a sz' mates l r =>
      if sz' =? sz then Node a sz' (mates ++ [b]) l r
      else
        match n with
        | O => t
        | S n =>
            if Z.testbit sz (Z.of_nat n) then Node a sz' mates l (t_insert n sz b r)
            else Node a sz' mates (t_insert n sz b l) r
        end
  end.

(** The bits that the trie of bin [i] tells apart. *)
Definition bin_bits (i : Z) : nat := if i =? NTreeBins - 1 then 32%nat else Z.to_nat (i / 2 + 5).

(** ** The theory of tries *)

Lemma addrs_chunks t : addrs t = (chunks_of t).*1.
Proof.
  induction t as [|a sz mates l IHl r IHr]; [done|]. cbn [addrs chunks_of].
  rewrite !fmap_app, <- IHl, <- IHr. f_equal. rewrite <- list_fmap_compose. cbn.
  f_equal. symmetry. apply list_fmap_id.
Qed.

Definition agree (n : nat) (x y : Z) : Prop := x / 2 ^ Z.of_nat n = y / 2 ^ Z.of_nat n.

Lemma agree_S n x y :
  agree (S n) x y -> Z.testbit x (Z.of_nat n) = Z.testbit y (Z.of_nat n) -> agree n x y.
Proof.
  unfold agree. intros Hd Hb. assert (0 < 2 ^ Z.of_nat n) by (apply pow2_pos; lia).
  assert (forall v, v / 2 ^ Z.of_nat n = 2 * (v / 2 ^ Z.of_nat (S n)) + Z.b2z (Z.testbit v (Z.of_nat n)))
    as Hv.
  { intros v. rewrite Z.testbit_spec' by lia. rewrite Nat2Z.inj_succ, Z.pow_succ_r by lia.
    rewrite (Z.mul_comm 2 (2 ^ _)), <- Z.div_div by lia. apply Z.div_mod. lia. }
  by rewrite (Hv x), (Hv y), Hd, Hb.
Qed.

Lemma agree_half n x l b :
  Z.testbit x (Z.of_nat n) = b -> Forall (agree (S n) x) l ->
  Forall (fun z => Z.testbit z (Z.of_nat n) = b) l -> Forall (agree n x) l.
Proof.
  intros Hb. rewrite !Forall_forall. intros H1 H2 z Hz. apply agree_S; [by apply H1|].
  by rewrite Hb, H2.
Qed.

Lemma sizes_insert n sz b t z :
  z ∈ sizes (t_insert n sz b t) -> z = sz \/ z ∈ sizes t.
Proof.
  revert t. induction n as [|n IH]; intros [|a sz' mates l r]; cbn [t_insert sizes];
    [set_solver| |set_solver|]; destruct (sz' =? sz); try (by auto).
  case_match; cbn [sizes]; rewrite !elem_of_cons, !elem_of_app; intros [?|[?|Hz]]; auto.
  - apply IH in Hz as [?|?]; auto.
  - match goal with H : _ ∈ sizes (t_insert _ _ _ _) |- _ => apply IH in H as [?|?]; auto end.
Qed.

Lemma trie_insert n sz b t :
  Forall (agree n sz) (sizes t) -> trie n t -> trie n (t_insert n sz b t).
Proof.
  revert t. induction n as [|n IH]; intros [|a sz' mates l r] Ha Ht; cbn [t_insert].
  - done.
  - destruct (sz' =? sz); done.
  - cbn. splits; [by apply Forall_nil_2..|set_solver|set_solver|done|done].
  - destruct Ht as (Hl & Hr & Nl & Nr & Tl & Tr).
    cbn [sizes] in Ha. apply Forall_cons in Ha as [_ Ha]. apply Forall_app in Ha as [Al Ar].
    destruct (Z.eqb_spec sz' sz) as [->|Hne]; [done|].
    destruct (Z.testbit sz (Z.of_nat n)) eqn:Eb; cbn; splits; try done.
    + apply Forall_forall. intros z [->|Hz]%sizes_insert; [done|].
      rewrite Forall_forall in Hr. by apply Hr.
    + intros [?|?]%sizes_insert; done.
    + apply IH; [by eapply agree_half|done].
    + apply Forall_forall. intros z [->|Hz]%sizes_insert; [done|].
      rewrite Forall_forall in Hl. by apply Hl.
    + intros [?|?]%sizes_insert; done.
    + apply IH; [by eapply agree_half|done].
Qed.

(** At depth 0 all sizes agree, so that the loop of the code has found its size. *)
Lemma agree_0 x y : agree 0 x y -> x = y.
Proof. unfold agree. rewrite !Z.div_1_r. done. Qed.

Lemma chunks_insert n sz b t :
  Forall (agree n sz) (sizes t) -> trie n t ->
  chunks_of (t_insert n sz b t) ≡ₚ (b, sz) :: chunks_of t.
Proof.
  revert t. induction n as [|n IH]; intros [|a sz' mates l r] Ha Ht; cbn [t_insert]; [done| |done|];
    cbn [sizes] in Ha; apply Forall_cons in Ha as [Ha0 Ha]; apply Forall_app in Ha as [Al Ar].
  - apply agree_0 in Ha0 as <-. rewrite Z.eqb_refl. cbn [chunks_of].
    rewrite app_comm_cons, fmap_app. cbn. solve_Permutation.
  - destruct (Z.eqb_spec sz' sz) as [->|Hne].
    { cbn [chunks_of]. rewrite app_comm_cons, fmap_app. cbn. solve_Permutation. }
    destruct Ht as (Hl & Hr & Nl & Nr & Tl & Tr).
    destruct (Z.testbit sz (Z.of_nat n)) eqn:Eb; cbn [chunks_of].
    + rewrite (IH r); [solve_Permutation|by eapply agree_half|done].
    + rewrite (IH l); [solve_Permutation|by eapply agree_half|done].
Qed.

(** ** Representation *)

(** [s'] differs from [s] only in the bins, and in cells and nodes only at [A]. *)
Definition only_bins (s s' : MState) : Prop :=
  exists r tc tb sm tm, s' = with_rings r (with_tchunks tc (with_treebins tb (with_maps sm tm s))).

Record agrees (A : Z -> Prop) (s s' : MState) : Prop := {
  ag_only : only_bins s s';
  ag_rings : keeps (rings s) (rings s') (fun q => ~ A q);
  ag_nodes : forall q, ~ A q -> tchunks s' !! q = tchunks s !! q;
}.

Lemma only_bins_heap s s' : only_bins s s' -> heap s' = heap s.
Proof. by intros (r & tc & tb & sm & tm & ->). Qed.

Lemma only_bins_trans s1 s2 s3 : only_bins s1 s2 -> only_bins s2 s3 -> only_bins s1 s3.
Proof.
  intros (r & tc & tb & sm & tm & ->) (r' & tc' & tb' & sm' & tm' & ->). by exists r', tc', tb', sm', tm'.
Qed.

Lemma only_bins_refl s : only_bins s s.
Proof. exists (rings s), (tchunks s), (treebins s), (smallmap s), (treemap s). by destruct s. Qed.

Lemma agrees_trans A s1 s2 s3 : agrees A s1 s2 -> agrees A s2 s3 -> agrees A s1 s3.
Proof.
  intros [O1 R1 N1] [O2 R2 N2]. split.
  - by eapply only_bins_trans.
  - intros q Hq. destruct (R1 q Hq), (R2 q Hq). split; congruence.
  - intros q Hq. by rewrite N2, N1.
Qed.

Lemma agrees_weaken (A B : Z -> Prop) s s' : agrees A s s' -> (forall q, A q -> B q) -> agrees B s s'.
Proof.
  intros [O R N] HAB. split; [done| |].
  - intros q Hq. apply R. naive_solver.
  - intros q Hq. apply N. naive_solver.
Qed.

Section Trees.
Context `{EnvOk}.
Implicit Types (s : MState).

Lemma chunk_of_only s s' b sz : only_bins s s' -> chunk_of s' b sz <-> chunk_of s b sz.
Proof. intros Ho. unfold chunk_of. by rewrite (only_bins_heap _ _ Ho). Qed.

(** The node at [a] with the given parent and children, and its ring. *)
Definition node_rep s (i prnt a sz : Z) (mates : list Z) (c0 c1 : Z) : Prop :=
  tchunks s !! a = Some (mkTChunk c0 c1 prnt i) /\
  ring (rings s) (a :: mates) /\
  Forall (fun m => tchunks s !! m = Some (mkTChunk 0 0 RingParent i)) mates /\
  Forall (fun b => chunk_of s b sz) (a :: mates).

Fixpoint tree_rep s (i prnt : Z) (t : tree) : Prop :=
  match t with
  | Leaf => True
  | Node a sz mates l r =>
      node_rep s i prnt a sz mates (root l) (root r) /\ tree_rep s i a l /\ tree_rep s i a r
  end.

Lemma node_rep_frame A s s' i p a sz mates c0 c1 :
  agrees A s s' -> (forall q, q ∈ a :: mates -> ~ A q) ->
  node_rep s i p a sz mates c0 c1 -> node_rep s' i p a sz mates c0 c1.
Proof.
  intros [Ho Hr Hn] HA (Ha & Hring & Hm & Hc). unfold node_rep. splits.
  - rewrite Hn; [done|]. apply HA. left.
  - eapply ring_frame; [done|]. intros q Hq. by apply Hr, HA.
  - rewrite Forall_forall in Hm |- *. intros m Hin. rewrite Hn; [by apply Hm|].
    apply HA. by right.
  - eapply Forall_impl; [done|]. intros b. by apply chunk_of_only.
Qed.

Lemma tree_rep_frame A s s' i p t :
  agrees A s s' -> (forall q, q ∈ addrs t -> ~ A q) -> tree_rep s i p t -> tree_rep s' i p t.
Proof.
  intros Hag. revert p. induction t as [|a sz mates l IHl r IHr]; intros p HA; [done|].
  cbn [addrs] in HA. intros (Ha & Hl & Hr). split; [|split].
  - eapply node_rep_frame; [done| |done]. intros q Hq. apply HA. set_solver.
  - apply IHl; [|done]. intros q Hq. apply HA. set_solver.
  - apply IHr; [|done]. intros q Hq. apply HA. set_solver.
Qed.

Lemma tree_rep_chunk s i p t b sz : tree_rep s i p t -> (b, sz) ∈ chunks_of t -> chunk_of s b sz.
Proof.
  revert p. induction t as [|a sz' mates l IHl r IHr]; intros p; cbn [chunks_of]; [set_solver|].
  intros ((_ & _ & _ & Hc) & Hl & Hr). rewrite !elem_of_app. intros [Hb|[Hb|Hb]].
  - apply list_elem_of_fmap in Hb as (b' & [= -> ->] & Hin).
    rewrite Forall_forall in Hc. by apply Hc.
  - by eapply IHl.
  - by eapply IHr.
Qed.

Lemma tree_rep_addr s i p t b : tree_rep s i p t -> b ∈ addrs t -> in_heap b.
Proof.
  intros Hr Hb. rewrite addrs_chunks in Hb. apply list_elem_of_fmap in Hb as ([b' sz] & -> & Hb).
  eapply tree_rep_chunk in Hb; [|done]. apply Hb.
Qed.

Lemma in_heap_truth b : in_heap b -> truth b = true.
Proof.
  intros [Hb _]. unfold truth. apply negb_true_iff, Z.eqb_neq.
  pose proof base_below. pose proof ms_below. lia.
Qed.

Lemma root_truth s i p t : tree_rep s i p t -> truth (root t) = negb (match t with Leaf => true | _ => false end).
Proof.
  intros Hr. destruct t as [|a sz mates l r]; [done|]. cbn [root].
  eapply in_heap_truth, tree_rep_addr; [done|]. cbn. left.
Qed.

(** ** Steps on nodes *)

Lemma tchunk_ok s t n : tchunks s !! t = Some n -> tchunk t s = Ok (n, s).
Proof. intros E. apply reads_ok. by rewrite E. Qed.

Lemma tupd_ok s t f n : tchunks s !! t = Some n ->
  tupd t f s = Ok (tt, with_tchunks (<[t := f n]> (tchunks s)) s).
Proof. intros E. unfold tupd. by rewrite E. Qed.

Lemma new_tchunk_ok s p ix prnt :
  new_tchunk p ix prnt s = Ok (tt, with_tchunks (<[p := mkTChunk 0 0 prnt ix]> (tchunks s))
    (with_rings (PtrAddr.construct (rings s) p) s)).
Proof. done. Qed.

Lemma agrees_tupd s t n : agrees (eq t) s (with_tchunks (<[t := n]> (tchunks s)) s).
Proof.
  split.
  - exists (rings s), (<[t := n]> (tchunks s)), (treebins s), (smallmap s), (treemap s). by destruct s.
  - by intros q Hq.
  - intros q Hq. cbn. by rewrite lookup_insert_ne.
Qed.

Lemma agrees_new s p n :
  agrees (eq p) s (with_tchunks (<[p := n]> (tchunks s)) (with_rings (PtrAddr.construct (rings s) p) s)).
Proof.
  split.
  - eexists _, _, (treebins s), (smallmap s), (treemap s). by destruct s.
  - intros q Hq. apply PtrAddrLaws.construct_keeps. congruence.
  - intros q Hq. cbn. by rewrite lookup_insert_ne.
Qed.

(** A new leaf of size [sz] at [b]. *)
Lemma new_leaf_rep s b i p sz :
  chunk_of s b sz ->
  tree_rep (with_tchunks (<[b := mkTChunk 0 0 p i]> (tchunks s))
    (with_rings (PtrAddr.construct (rings s) b) s)) i p (Node b sz [] Leaf Leaf).
Proof.
  intros Hc. cbn [tree_rep root]. split; [|done]. unfold node_rep. splits.
  - apply lookup_insert_eq.
  - apply PtrAddrLaws.construct_ring.
  - by apply Forall_nil_2.
  - by apply Forall_singleton.
Qed.

(** A change of one child pointer of the node [a]. *)
Lemma node_set_child s i p a sz mates c0 c1 d v :
  NoDup (a :: mates) -> node_rep s i p a sz mates c0 c1 -> d = 0 \/ d = 1 ->
  exists s', tupd a (set_child d v) s = Ok (tt, s') /\ agrees (eq a) s s' /\
    treebins s' = treebins s /\ treemap s' = treemap s /\ smallmap s' = smallmap s /\
    node_rep s' i p a sz mates (if d =? 0 then v else c0) (if d =? 0 then c1 else v).
Proof.
  intros Hnd (Ha & Hr & Hm & Hc) Hd. eexists. split; [by apply tupd_ok|].
  splits; [apply agrees_tupd|done..|]. unfold node_rep. cbn [tchunks with_tchunks rings]. splits.
  - rewrite lookup_insert_eq. by destruct Hd as [-> | ->].
  - done.
  - rewrite Forall_forall in Hm |- *. intros m Hin. rewrite lookup_insert_ne; [by apply Hm|].
    intros ->. apply NoDup_cons in Hnd as [? _]. done.
  - done.
Qed.

Lemma msb_of sz n : (n < 32)%nat ->
  leftshifted_val_msb (u32 (Z.shiftl sz (32 - Z.of_nat (S n)))) = Z.b2z (Z.testbit sz (Z.of_nat n)).
Proof.
  intros Hn. unfold leftshifted_val_msb. set (k := u32 _).
  assert (k in_u 32) as Hk by (apply wrap_bound; lia).
  rewrite signed_cases by (lia || done).
  assert (Z.testbit k 31 = Z.testbit sz (Z.of_nat n)) as <-.
  { unfold k, u32. rewrite wrap_testbit, Z.shiftl_spec by lia. rewrite andb_true_r. f_equal. lia. }
  change (2 ^ (32 - 1)) with (2 ^ 31) in *. destruct (Z.ltb_spec k (2 ^ 31)) as [Hlt|Hge].
  - rewrite (testbit_high 31 k 31) by lia. rewrite (proj2 (Z.ltb_ge k 0)) by lia. done.
  - rewrite (proj2 (Z.ltb_lt _ 0)) by lia.
    assert (Z.testbit k 31 = true) as ->; [|done].
    rewrite Z.testbit_true by lia. replace (k / 2 ^ 31) with 1; [done|].
    apply Z.div_unique with (r := k - 2 ^ 31); lia.
Qed.

Lemma shift_key sz n : (n < 32)%nat ->
  u32 (Z.shiftl (u32 (Z.shiftl sz (32 - Z.of_nat (S n)))) 1) = u32 (Z.shiftl sz (32 - Z.of_nat n)).
Proof.
  intros Hn. apply wrap_bits_eq; [lia|]. intros j Hj. rewrite !Z.shiftl_spec by lia.
  destruct (Z.ltb_spec (j - 1) 0).
  - rewrite Z.testbit_neg_r by lia. symmetry. apply Z.testbit_neg_r. lia.
  - unfold u32. rewrite wrap_testbit, Z.shiftl_spec by lia.
    rewrite (proj2 (Z.ltb_lt (j - 1) 32)) by lia. rewrite andb_true_r. f_equal. lia.
Qed.

(** What an insertion leaves alone besides the nodes: the bins' roots and the maps. *)
Definition same_roots s s' : Prop :=
  treebins s' = treebins s /\ treemap s' = treemap s /\ smallmap s' = smallmap s.

Lemma attach_leaf s i p a sz' mates c0 c1 d b sz :
  NoDup (a :: mates) -> node_rep s i p a sz' mates c0 c1 -> b ∉ a :: mates ->
  chunk_of s b sz -> d = 0 \/ d = 1 ->
  exists s', (_ ← new_tchunk b i a; tupd a (set_child d b)) s = Ok (tt, s') /\
    agrees (fun q => q = a \/ q = b) s s' /\ same_roots s s' /\
    node_rep s' i p a sz' mates (if d =? 0 then b else c0) (if d =? 0 then c1 else b) /\
    tree_rep s' i a (Node b sz [] Leaf Leaf).
Proof.
  intros Hnd Hrep Hb Hc Hd. mrun (new_tchunk_ok s b i a).
  pose proof (agrees_new s b (mkTChunk 0 0 a i)) as A1. pose proof (new_leaf_rep s b i a sz Hc) as L1.
  set (s1 := with_tchunks _ _) in *.
  destruct (node_set_child s1 i p a sz' mates c0 c1 d b) as (s2 & E2 & A2 & B1 & B2 & B3 & R2);
    [done| |done|].
  { eapply node_rep_frame; [exact A1| |done]. by intros q Hq ->. }
  exists s2. splits; [done| | |done|].
  - eapply agrees_trans; (eapply agrees_weaken; [done|]); intros q ->; auto.
  - done.
  - eapply tree_rep_frame; [exact A2| |done]. cbn. intros q Hq -> . set_solver.
Qed.

(** Joining the ring of a node of the same size. *)
Lemma join_ring s i p a sz mates c0 c1 x :
  NoDup (a :: mates) -> node_rep s i p a sz mates c0 c1 -> body x ∉ a :: mates ->
  chunk_of s (body x) sz ->
  exists s', ring_emplace a i x s = Ok (tt, s') /\
    agrees (fun q => q = body x \/ q ∈ a :: mates) s s' /\ same_roots s s' /\
    node_rep s' i p a sz (mates ++ [body x]) c0 c1.
Proof.
  intros Hnd (Ha & Hr & Hm & Hc) Hb Hcb. unfold ring_emplace. mrun (new_tchunk_ok s (body x) i RingParent).
  destruct (ring_append_new _ _ _ _ Hr Hb) as (r' & Er & Hr' & Hk).
  erewrite on_rings_ok by (cbn; exact Er). eexists; split; [reflexivity|]. splits; [|done|].
  - split.
    + exists r', (<[body x := mkTChunk 0 0 RingParent i]> (tchunks s)), (treebins s), (smallmap s), (treemap s).
      by destruct s.
    + intros q Hq. apply Hk. rewrite app_comm_cons. set_solver.
    + intros q Hq. cbn. rewrite lookup_insert_ne; [done|]. naive_solver.
  - unfold node_rep. cbn [tchunks rings with_rings with_tchunks]. splits.
    + rewrite lookup_insert_ne; [done|]. set_solver.
    + done.
    + apply Forall_app. split.
      * rewrite Forall_forall in Hm |- *. intros m Hin. rewrite lookup_insert_ne; [by apply Hm|].
        intros <-. set_solver.
      * apply Forall_singleton. apply lookup_insert_eq.
    + rewrite app_comm_cons. apply Forall_app. split; [done|]. by apply Forall_singleton.
Qed.

Lemma join_node s i p a sz mates l r x :
  NoDup (addrs (Node a sz mates l r)) -> tree_rep s i p (Node a sz mates l r) ->
  body x ∉ addrs (Node a sz mates l r) -> chunk_of s (body x) sz ->
  exists s', (back ← ring_of (fun g => cell_prev g a);
      checked (ok_address a && ok_address back) (ring_emplace a i x)) s = Ok (tt, s') /\
    agrees (fun q => q = body x \/ q ∈ addrs (Node a sz mates l r)) s s' /\ same_roots s s' /\
    tree_rep s' i p (Node a sz (mates ++ [body x]) l r).
Proof.
  cbn [addrs tree_rep]. intros Hnd (Ha & Hl & Hr) Hb Hc. pose proof Ha as (_ & Hring & _ & Hcs).
  apply NoDup_app in Hnd as (Hnd & Hdis & _).
  destruct (ring_prev _ _ _ Hring) as (t & Ht & _ & Hp).
  assert (forall q, q ∈ a :: mates -> ok_address q = true) as Hok.
  { intros q Hq. rewrite Forall_forall in Hcs. by apply ok_address_heap, (Hcs q). }
  mrun (ring_of_ok (fun g => cell_prev g a) s t Hp).
  rewrite checked_ok; cycle 1.
  { rewrite !Hok; [done| |left]. by apply last_Some_elem_of. }
  destruct (join_ring s i p a sz mates (root l) (root r) x) as (s' & E & Ag & Hs & Hrep);
    [done|done|set_solver|done|].
  exists s'. splits; [done| |done|done| |].
  - eapply agrees_weaken; [done|]. set_solver.
  - eapply tree_rep_frame; [done| |done]. set_solver.
  - eapply tree_rep_frame; [done| |done]. set_solver.
Qed.

Lemma ok_address_slot a d : in_heap a -> d = 0 \/ d = 1 -> ok_address (slot_address a d) = true.
Proof.
  intros [Ha _] Hd. unfold ok_address, slot_address. pose proof base_below. pose proof ms_below.
  rewrite (proj2 (Z.leb_le _ _)) by lia. apply orb_true_r.
Qed.

Lemma root_insert n sz b t : t <> Leaf -> root (t_insert n sz b t) = root t.
Proof. destruct t; [done|]. intros _. cbn. repeat case_match; done. Qed.

Lemma insert_loop_ok n s i p t sz x fuel :
  t <> Leaf -> tree_rep s i p t -> trie n t -> NoDup (addrs t) -> Forall (agree n sz) (sizes t) ->
  body x ∉ addrs t -> chunk_of s (body x) sz -> (n <= 32)%nat -> (n < fuel)%nat ->
  exists s', insert_large_loop fuel x sz i (root t) (u32 (Z.shiftl sz (32 - Z.of_nat n))) s
      = Ok (tt, s') /\
    agrees (fun q => q = body x \/ q ∈ addrs t) s s' /\ same_roots s s' /\
    tree_rep s' i p (t_insert n sz (body x) t).
Proof.
  revert p t fuel. induction n as [|n IH]; intros p t fuel Hne Hrep Htrie Hnd Hag Hb Hc Hn Hf;
    (destruct fuel as [|fuel]; [lia|]); destruct t as [|a sz' mates l r]; try done;
    destruct Hrep as (Ha & Hl & Hr); pose proof Ha as (Hta & Hring & Hm & Hcs);
    cbn [sizes] in Hag; apply Forall_cons in Hag as [Ag0 Ag]; apply Forall_app in Ag as [Agl Agr];
    pose proof Hnd as Hnd1; cbn [addrs] in Hnd1; apply NoDup_app in Hnd1 as (Hnd0 & Hd0 & Hnd1);
    apply NoDup_app in Hnd1 as (Hndl & Hdlr & Hndr);
    pose proof Hcs as [Hca _]%Forall_cons; cbn [insert_large_loop root];
    mrun (chunk_size_ok s a sz' Hca); cbn [t_insert].
  - apply agree_0 in Ag0 as <-. rewrite Z.eqb_refl. cbn [negb].
    by apply join_node.
  - destruct (Z.eqb_spec sz' sz) as [->|Hne']; cbn [negb].
    { by apply join_node. }
    destruct Htrie as (Bl & Br & _ & _ & Tl & Tr).
    mrun (tchunk_ok s a _ Hta). rewrite msb_of, shift_key by lia.
    assert (forall c d, c = (if Z.testbit sz (Z.of_nat n) then r else l) ->
      d = Z.b2z (Z.testbit sz (Z.of_nat n)) ->
      child (mkTChunk (root l) (root r) p i) d = root c /\ (d = 0 \/ d = 1)) as Hcd.
    { intros c d -> ->. by destruct (Z.testbit sz (Z.of_nat n)); cbn; auto. }
    destruct (Hcd _ _ eq_refl eq_refl) as [-> Hd].
    set (c := if Z.testbit sz (Z.of_nat n) then r else l) in *.
    assert (c = Leaf \/ c <> Leaf) as [Hleaf|Hnleaf] by (destruct c; auto).
    + rewrite Hleaf. cbn [root]. change (truth 0) with false. cbn iota.
      rewrite checked_ok; cycle 1.
      { apply ok_address_slot; [|done]. apply (Forall_inv Hcs). }
      destruct (attach_leaf s i p a sz' mates (root l) (root r)
        (Z.b2z (Z.testbit sz (Z.of_nat n))) (body x) sz) as (s' & E & Agr' & Hs & Hrep & Hleafr);
        [done|done|set_solver|done|done|].
      exists s'. splits; [done| |done|].
      { eapply agrees_weaken; [done|]. set_solver. }
      unfold c in Hleaf. destruct (Z.testbit sz (Z.of_nat n)); subst; cbn [t_insert].
      * split; [done|]. split; [|done]. eapply tree_rep_frame; [done| |done]. set_solver.
      * split; [done|]. split; [done|]. eapply tree_rep_frame; [done| |done]. set_solver.
    + assert (tree_rep s i a c) as Hc' by (unfold c; by case_match).
      rewrite (root_truth _ _ _ _ Hc'). replace (negb _) with true by (by destruct c).
      destruct (IH a c fuel) as (s' & E & Agr' & Hs & Hrep);
        [done|done|unfold c; by case_match|unfold c; by case_match| | |done|lia|lia|].
      { unfold c. destruct (Z.testbit sz (Z.of_nat n)) eqn:Eb; by eapply agree_half. }
      { unfold c. case_match; set_solver. }
      exists s'. splits; [done| |done|].
      { eapply agrees_weaken; [done|]. cbn. unfold c. case_match; set_solver. }
      assert (node_rep s' i p a sz' mates (root l) (root r)) as Ha'.
      { eapply node_rep_frame; [done| |done]. unfold c. case_match; set_solver. }
      assert (root (t_insert n sz (body x) c) = root c) as Hroot by (by apply root_insert).
      unfold c in *. destruct (Z.testbit sz (Z.of_nat n)); cbn [tree_rep]; rewrite Hroot.
      * splits; [done| |done]. eapply tree_rep_frame; [done| |done]. set_solver.
      * splits; [done|done|]. eapply tree_rep_frame; [done| |done]. set_solver.
Qed.

(** ** The invariant of a tree bin *)

Definition is_leaf (t : tree) : bool := match t with Leaf => true | _ => false end.

(** A size of tree bin [i]. *)
Definition in_bin (i z : Z) : Prop := compute_tree_index debug z = Ok i /\ MaxSmallSize < z < 2 ^ 32.

Definition tree_ok s (i : Z) (t : tree) : Prop :=
  treebins s !! Z.to_nat i = Some (root t) /\ tree_rep s i RootParent t /\
  trie (bin_bits i) t /\ NoDup (addrs t) /\ Forall (in_bin i) (sizes t) /\
  Z.testbit (treemap s) i = negb (is_leaf t) /\ treemap s in_u 32.

(** The state after an operation on tree bin [i] that touched the cells [A]. *)
Definition tree_step s s' (i : Z) (A : Z -> Prop) : Prop :=
  agrees A s s' /\ smallmap s' = smallmap s /\
  (forall j, 0 <= j -> j <> i -> treebins s' !! Z.to_nat j = treebins s !! Z.to_nat j) /\
  (forall j, 0 <= j -> j <> i -> Z.testbit (treemap s') j = Z.testbit (treemap s) j) /\
  treemap s' in_u 32.

Lemma tree_ok_step s s' i A j t :
  tree_step s s' i A -> 0 <= j -> j <> i -> (forall q, q ∈ addrs t -> ~ A q) ->
  tree_ok s j t -> tree_ok s' j t.
Proof.
  intros (Ha & Hs & Ht & Hb & Hm) Hj Hne HA (T1 & T2 & T3 & T4 & T5 & T6 & T7).
  unfold tree_ok. rewrite Ht, Hb by done. splits; try done; [|apply Hm..].
  by eapply tree_rep_frame.
Qed.

Lemma bin_agree i x y : 0 <= i < NTreeBins -> in_bin i x -> in_bin i y -> agree (bin_bits i) x y.
Proof.
  intros Hi [Ex Hx] [Ey Hy]. change MaxSmallSize with 64 in *.
  destruct (tree_index_spec debug x ltac:(lia)) as (ix & Ex' & _ & Lx & Ux).
  destruct (tree_index_spec debug y ltac:(lia)) as (iy & Ey' & _ & Ly & Uy).
  rewrite Ex in Ex'. rewrite Ey in Ey'. injection Ex' as <-. injection Ey' as <-.
  unfold agree, bin_bits. unfold NTreeBins in *. destruct (Z.eqb_spec i (12 - 1)) as [->|Hne].
  - change (Z.of_nat 32) with 32. rewrite !Z.div_small; [done|lia..].
  - pose proof (Z.div_mod i 2 ltac:(lia)). pose proof (Z.mod_pos_bound i 2 ltac:(lia)).
    rewrite Z2Nat.id by lia. set (k := i / 2) in *.
    assert (i mod 2 = 0 \/ i mod 2 = 1) as Hb by lia. set (b := i mod 2) in *.
    specialize (Ux ltac:(lia)). specialize (Uy ltac:(lia)). rewrite H1 in Lx, Ux, Ly, Uy.
    rewrite minsize_half in Lx, Ly by lia.
    assert (minsize_for_tree_index (2 * k + b + 1) = (3 + b) * 2 ^ (k + 5)) as E.
    { destruct Hb as [-> | ->].
      - rewrite Z.add_0_r, minsize_half by lia. lia.
      - replace (2 * k + 1 + 1) with (2 * (k + 1) + 0) by lia. rewrite minsize_half by lia.
        replace (k + 1 + 5) with (Z.succ (k + 5)) by lia. rewrite Z.pow_succ_r by lia. lia. }
    rewrite E in Ux, Uy. pose proof (pow2_pos (k + 5) ltac:(lia)).
    transitivity (2 + b); [symmetry|].
    + apply (Z.div_unique_pos x _ _ (x - (2 + b) * 2 ^ (k + 5))); lia.
    + apply (Z.div_unique_pos y _ _ (y - (2 + b) * 2 ^ (k + 5))); lia.
Qed.

Lemma bin_bits_le i : 0 <= i < NTreeBins -> (bin_bits i <= 32)%nat.
Proof.
  intros Hi. unfold bin_bits, NTreeBins in *. case_match; [lia|].
  pose proof (Z.div_le_upper_bound i 2 5). lia.
Qed.

Lemma bin_shift i : 0 <= i < NTreeBins -> leftshift_for_tree_index i = 32 - Z.of_nat (bin_bits i).
Proof.
  intros Hi. unfold leftshift_for_tree_index, bin_bits. case_match; [done|].
  rewrite Z2Nat.id by (pose proof (Z.div_pos i 2); lia).
  rewrite Z.shiftr_div_pow2 by lia. unfold BitsInSizeT, TreeBinShift, MallocAlignShift, NSmallBinsShift.
  change (2 ^ 1) with 2. lia.
Qed.

Lemma insert_large_ok s i t x sz :
  0 <= i < NTreeBins -> tree_ok s i t -> in_bin i sz -> body x ∉ addrs t -> chunk_of s (body x) sz ->
  exists s', insert_large_chunk x sz s = Ok (tt, s') /\
    tree_step s s' i (fun q => q = body x \/ q ∈ addrs t) /\
    tree_ok s' i (t_insert (bin_bits i) sz (body x) t).
Proof.
  intros Hi (T1 & T2 & T3 & T4 & T5 & T6 & T7) [Ei Hsz] Hb Hc. unfold NTreeBins in Hi.
  unfold insert_large_chunk.
  assert (lift (compute_tree_index debug sz) s = Ok (i, s)) as El by (apply reads_ok; by rewrite Ei).
  mrun El. mpure. unfold is_treemap_marked. rewrite marked_bit, T6 by lia.
  destruct t as [|a sz' mates l r]; cbn [is_leaf negb].
  - unfold treemap_mark. mpure. mrun (new_tchunk_ok _ (body x) i RootParent).
    destruct (mark_bits (treemap s) i ltac:(lia) T7) as [Mu Mb].
    eexists; split; [reflexivity|]. split.
    + split; [|splits].
      * split; [by eexists _, _, _, _, _| |].
        -- intros q Hq. apply PtrAddrLaws.construct_keeps. naive_solver.
        -- intros q Hq. cbn. rewrite lookup_insert_ne; [done|naive_solver].
      * done.
      * intros j Hj Hne. cbn. rewrite list_lookup_insert_ne; [done|lia].
      * intros j Hj Hne. cbn. rewrite Mb by done. by rewrite (proj2 (Z.eqb_neq j i)).
      * apply Mu.
      * apply Mu.
    + cbn [t_insert]. split; [|split; [|split; [|split; [|split; [|split]]]]].
      * exact (list_lookup_insert_eq (treebins s) _ (body x) (lookup_lt_Some _ _ _ T1)).
      * exact (new_leaf_rep s (body x) i RootParent sz Hc).
      * cbn. destruct (bin_bits i); [done|]. splits; [by apply Forall_nil_2..| | |done|done]; set_solver.
      * apply NoDup_singleton.
      * by apply Forall_singleton.
      * cbn. by rewrite Mb, Z.eqb_refl by lia.
      * exact Mu.
  - mrun (treebin_get_ok i s _ T1). rewrite bin_shift by (unfold NTreeBins; lia).
    destruct (insert_loop_ok (bin_bits i) s i RootParent (Node a sz' mates l r) sz x tree_fuel)
      as (s' & E & Ag & (S1 & S2 & S3) & Hrep); try done.
    { eapply Forall_impl; [exact T5|]. intros z Hz. by apply bin_agree. }
    { by apply bin_bits_le. }
    { pose proof (bin_bits_le i). unfold tree_fuel. unfold NTreeBins in *. lia. }
    exists s'. split; [done|]. split.
    + split; [done|]. rewrite S1, S2, S3. splits; try done; apply T7.
    + assert (Forall (agree (bin_bits i) sz) (sizes (Node a sz' mates l r))) as Hag.
      { eapply Forall_impl; [exact T5|]. intros z Hz. by apply bin_agree. }
      split; [|split; [|split; [|split; [|split; [|split]]]]].
      * rewrite S1, root_insert; done.
      * done.
      * by apply trie_insert.
      * rewrite addrs_chunks, (chunks_insert _ _ _ _ Hag T3). cbn [fmap list_fmap].
        apply NoDup_cons. by rewrite <- addrs_chunks.
      * apply Forall_forall. intros z [->|Hz]%sizes_insert; [done|].
        rewrite Forall_forall in T5. by apply T5.
      * rewrite S2, T6. cbn [t_insert]. by repeat case_match.
      * by rewrite S2.
Qed.
End Trees.
