(* ===== verification/TreeUnlink.v ===== *)
(** * Removing a chunk from a tree bin

    [unlink_large_chunk] of [alloc.h] removes one chunk from the trie of its bin: a chunk
    on the ring of a node leaves the ring; a node with a ring is replaced by the last
    chunk of it; any other node is replaced by a leaf below it, or disappears.  A place
    in a tree is a [ctx], the path to it from the inside out. *)

From S2P Require Import Prelude LinkedList AllocSizes ChunkHeader MState Bins SmallBins TreeBins.

(** ** Places in a tree *)

(** A node with a hole: as its right child if [d]; [sib] is the other subtree. *)
Inductive frame : Type := Frame (d : bool) (a sz : Z) (mates : list Z) (sib : tree).

Definition ctx : Type := list frame.

Definition plug1 (t : tree) (f : frame) : tree :=
  match f with
  | Frame true a sz mates sib => Node a sz mates sib t
  | Frame false a sz mates sib => Node a sz mates t sib
  end.

Definition plug (C : ctx) (t : tree) : tree := foldl plug1 t C.

Definition parent_of (p : Z) (C : ctx) : Z :=
  match C with [] => p | Frame _ a _ _ _ :: _ => a end.

Definition frame_chunks (f : frame) : list (Z * Z) :=
  match f with Frame _ a sz mates sib => ((fun b => (b, sz)) <$> a :: mates) ++ chunks_of sib end.

Definition ctx_chunks (C : ctx) : list (Z * Z) := C ≫= frame_chunks.

Definition ctx_addrs (C : ctx) : list Z := (ctx_chunks C).*1.

Lemma plug_app C D t : plug (C ++ D) t = plug D (plug C t).
Proof. apply foldl_app. Qed.

Lemma chunks_plug C t : chunks_of (plug C t) ≡ₚ ctx_chunks C ++ chunks_of t.
Proof.
  revert t. induction C as [|[d a sz mates sib] C IH]; intros t; [done|].
  change (plug (Frame d a sz mates sib :: C) t) with (plug C (plug1 t (Frame d a sz mates sib))).
  rewrite IH. unfold ctx_chunks. cbn [mbind list_bind]. fold (C ≫= frame_chunks).
  destruct d; cbn [plug1 chunks_of frame_chunks]; solve_Permutation.
Qed.

Lemma addrs_plug C t : addrs (plug C t) ≡ₚ ctx_addrs C ++ addrs t.
Proof. rewrite !addrs_chunks, chunks_plug, fmap_app. done. Qed.

Lemma plug_leaf C t : is_leaf (plug C t) = match C with [] => is_leaf t | _ => false end.
Proof.
  destruct C as [|f C]; [done|].
  change (plug (f :: C) t) with (plug C (plug1 t f)).
  assert (is_leaf (plug1 t f) = false) as H by (by destruct f as [[]]).
  revert H. generalize (plug1 t f). clear. induction C as [|f C IH]; intros t Ht; [done|].
  apply IH. by destruct f as [[]].
Qed.

(** The sizes of the nodes of a tree are those of its first chunks. *)
Lemma sizes_plug C t z :
  z ∈ sizes (plug C t) <-> z ∈ sizes (plug C Leaf) \/ z ∈ sizes t.
Proof.
  revert t. induction C as [|[d a sz mates sib] C IH]; intros t; [cbn; set_solver|].
  change (plug (Frame d a sz mates sib :: C) ?u) with (plug C (plug1 u (Frame d a sz mates sib))).
  rewrite (IH (plug1 t _)), (IH (plug1 Leaf _)). destruct d; cbn [plug1 sizes]; set_solver.
Qed.

(** Replacing a subtree by one with fewer sizes, itself a trie, keeps a trie. *)
Lemma trie_plug n C t t' :
  (forall z, z ∈ sizes t' -> z ∈ sizes t) -> (forall m, trie m t -> trie m t') ->
  trie n (plug C t) -> trie n (plug C t').
Proof.
  revert t t'. induction C as [|f C IH]; intros t t' Hs Ht; [apply Ht|]. apply IH.
  - destruct f as [[] a sz mates sib]; cbn [plug1 sizes]; set_solver.
  - intros m. destruct f as [[] a sz mates sib]; cbn [plug1 trie]; destruct m as [|m].
    + intros [-> ->]. split; [done|]. destruct t' as [|? z' ? ? ?]; [done|].
      exfalso. specialize (Hs z'). cbn in Hs. set_solver.
    + intros (H1 & H2 & H3 & H4 & H5 & H6). splits; try done; [| |by apply Ht].
      * rewrite Forall_forall in H2 |- *. auto.
      * auto.
    + intros [-> ->]. split; [|done]. destruct t' as [|? z' ? ? ?]; [done|].
      exfalso. specialize (Hs z'). cbn in Hs. set_solver.
    + intros (H1 & H2 & H3 & H4 & H5 & H6). splits; try done; [| |by apply Ht].
      * rewrite Forall_forall in H1 |- *. auto.
      * auto.
Qed.

Lemma trie_NoDup n t : trie n t -> NoDup (sizes t).
Proof.
  revert n. induction t as [|a sz mates l IHl r IHr]; intros n; [constructor|].
  cbn [trie sizes]. destruct n as [|n].
  - intros [-> ->]. apply NoDup_singleton.
  - intros (H1 & H2 & H3 & H4 & H5 & H6). apply NoDup_cons. split; [set_solver|].
    apply NoDup_app. splits; [by eapply IHl| |by eapply IHr].
    rewrite Forall_forall in H1, H2. intros z Hl Hr. specialize (H1 z Hl). specialize (H2 z Hr).
    congruence.
Qed.

Fixpoint height (t : tree) : nat :=
  match t with Leaf => 0 | Node _ _ _ l r => S (max (height l) (height r)) end.

Lemma trie_height n t : trie n t -> (height t <= S n)%nat.
Proof.
  revert n. induction t as [|a sz mates l IHl r IHr]; intros n; cbn [trie height]; [lia|].
  destruct n as [|n]; [intros [-> ->]; cbn; lia|].
  intros (_ & _ & _ & _ & H5 & H6). specialize (IHl n H5). specialize (IHr n H6). lia.
Qed.

(** The node of a tree below which a place is. *)
Lemma in_tree t b sz : (b, sz) ∈ chunks_of t ->
  exists C a mates l r, t = plug C (Node a sz mates l r) /\ b ∈ a :: mates.
Proof.
  induction t as [|a sz' mates l IHl r IHr]; cbn [chunks_of]; [set_solver|].
  rewrite !elem_of_app. intros [H|[H|H]].
  - apply list_elem_of_fmap in H as (b' & [= -> ->] & H). by exists [], a, mates, l, r.
  - apply IHl in H as (C & a' & m' & l' & r' & -> & H).
    exists (C ++ [Frame false a sz' mates r]), a', m', l', r'. by rewrite plug_app.
  - apply IHr in H as (C & a' & m' & l' & r' & -> & H).
    exists (C ++ [Frame true a sz' mates l]), a', m', l', r'. by rewrite plug_app.
Qed.

Lemma height_sub C t : (height t <= height (plug C t))%nat.
Proof.
  revert t. induction C as [|f C IH]; intros t; [done|].
  change (plug (f :: C) t) with (plug C (plug1 t f)). etransitivity; [|apply IH].
  destruct f as [[] a sz mates sib]; cbn; lia.
Qed.

Lemma trie_sub n C t : trie n (plug C t) -> exists m, trie m t.
Proof.
  revert t. induction C as [|f C IH]; intros t; [by exists n|].
  intros (m & Hm)%(IH (plug1 t f)). destruct f as [[] a sz mates sib], m as [|m]; cbn [plug1 trie] in Hm.
  - destruct Hm as [_ ->]. by exists 0%nat.
  - exists m. tauto.
  - destruct Hm as [-> _]. by exists 0%nat.
  - exists m. tauto.
Qed.

(** The leaf [y] of one of the subtrees [l] and [r] is taken out, leaving [l'] and [r']. *)
Definition lifts (y sy : Z) (my : list Z) (l r l' r' : tree) : Prop :=
  exists D, (r <> Leaf /\ r = plug D (Node y sy my Leaf Leaf) /\ r' = plug D Leaf /\ l' = l) \/
     (r = Leaf /\ l = plug D (Node y sy my Leaf Leaf) /\ l' = plug D Leaf /\ r' = Leaf).

Lemma lift_chunks x sz y sy my l r l' r' : lifts y sy my l r l' r' ->
  chunks_of (Node x sz [] l r) ≡ₚ (x, sz) :: chunks_of (Node y sy my l' r').
Proof.
  intros (D & [(_ & -> & -> & ->)|(-> & -> & -> & ->)]); cbn [chunks_of]; rewrite !chunks_plug;
    cbn [chunks_of fmap list_fmap app]; rewrite ?app_nil_r; solve_Permutation.
Qed.

Lemma lift_sizes x sz y sy my l r l' r' z : lifts y sy my l r l' r' ->
  z ∈ sizes (Node y sy my l' r') -> z ∈ sizes (Node x sz [] l r).
Proof.
  intros (D & [(_ & -> & -> & ->)|(-> & -> & -> & ->)]); cbn [sizes];
    rewrite !elem_of_cons, !elem_of_app, (sizes_plug D (Node _ _ _ _ _)); cbn [sizes]; set_solver.
Qed.

(** The sizes of a trie from which a leaf was taken do not contain the leaf's. *)
Lemma leaf_size_gone n D y sy my :
  trie n (plug D (Node y sy my Leaf Leaf)) -> sy ∉ sizes (plug D Leaf).
Proof.
  revert n. induction D as [|f D IH] using rev_ind; intros n; [cbn; set_solver|].
  rewrite !plug_app. destruct f as [[] a sz mates sib], n as [|n]; cbn [plug foldl plug1 trie sizes].
  - intros [_ E]. exfalso. pose proof (plug_leaf D (Node y sy my Leaf Leaf)) as H1.
    unfold plug in E, H1. rewrite E in H1. by destruct D.
  - intros (H1 & H2 & H3 & H4 & H5 & H6). rewrite elem_of_cons, elem_of_app.
    assert (sy ∈ sizes (plug D (Node y sy my Leaf Leaf))) as Hs by (apply sizes_plug; right; left).
    rewrite Forall_forall in H1, H2. intros [->|[Hin|Hin]]; [done| |by eapply IH].
    specialize (H1 sy Hin). specialize (H2 sy Hs). congruence.
  - intros [E _]. exfalso. pose proof (plug_leaf D (Node y sy my Leaf Leaf)) as H1.
    unfold plug in E, H1. rewrite E in H1. by destruct D.
  - intros (H1 & H2 & H3 & H4 & H5 & H6). rewrite elem_of_cons, elem_of_app.
    assert (sy ∈ sizes (plug D (Node y sy my Leaf Leaf))) as Hs by (apply sizes_plug; right; left).
    rewrite Forall_forall in H1, H2. intros [->|[Hin|Hin]]; [done|by eapply IH|].
    specialize (H2 sy Hin). specialize (H1 sy Hs). congruence.
Qed.

Lemma lift_trie k x sz y sy my l r l' r' : lifts y sy my l r l' r' ->
  trie k (Node x sz [] l r) -> trie k (Node y sy my l' r').
Proof.
  assert (forall D z, z ∈ sizes (plug D Leaf) -> z ∈ sizes (plug D (Node y sy my Leaf Leaf))) as Hsub
    by (intros D z; rewrite (sizes_plug D (Node _ _ _ _ _)); auto).
  assert (forall D m, trie m (plug D (Node y sy my Leaf Leaf)) -> trie m (plug D Leaf)) as Htr
    by (intros D m; apply trie_plug; [set_solver|done]).
  intros (D & [(Hne & -> & -> & ->)|(-> & -> & -> & ->)]); destruct k as [|k]; cbn [trie].
  - by intros [_ E].
  - intros (H1 & H2 & H3 & H4 & H5 & H6).
    assert (sy ∈ sizes (plug D (Node y sy my Leaf Leaf))) as Hs by (apply sizes_plug; right; left).
    rewrite Forall_forall in H1, H2. splits; try done; [| | | |by apply Htr].
    + by apply Forall_forall.
    + apply Forall_forall. auto.
    + intros Hin. specialize (H1 sy Hin). specialize (H2 sy Hs). congruence.
    + by eapply leaf_size_gone.
  - intros [E _]. exfalso. pose proof (plug_leaf D (Node y sy my Leaf Leaf)) as H1.
    rewrite E in H1. by destruct D.
  - intros (H1 & H2 & H3 & H4 & H5 & H6). rewrite Forall_forall in H1.
    splits; try done; [| |set_solver|by apply Htr].
    + apply Forall_forall. auto.
    + by eapply leaf_size_gone.
Qed.

Lemma exists_last_or_nil (m : list Z) : m = [] \/ exists m' y, m = m' ++ [y].
Proof. destruct m as [|y m _] using rev_ind; eauto. Qed.

Section Unlink.
Context `{EnvOk}.
Implicit Types (s : MState).

Fixpoint ctx_rep s (i p : Z) (C : ctx) (c : Z) : Prop :=
  match C with
  | [] => True
  | Frame d a sz mates sib :: C =>
      node_rep s i (parent_of p C) a sz mates (if d then root sib else c) (if d then c else root sib) /\
      tree_rep s i a sib /\ ctx_rep s i p C a
  end.

Lemma tree_rep_plug s i p C t :
  tree_rep s i p (plug C t) <-> ctx_rep s i p C (root t) /\ tree_rep s i (parent_of p C) t.
Proof.
  revert t. induction C as [|[d a sz mates sib] C IH]; intros t; [cbn; tauto|].
  change (plug (Frame d a sz mates sib :: C) t) with (plug C (plug1 t (Frame d a sz mates sib))).
  rewrite IH. destruct d; cbn [plug1 root tree_rep ctx_rep parent_of]; tauto.
Qed.

Lemma ctx_rep_frame A s s' i p C c :
  agrees A s s' -> (forall q, q ∈ ctx_addrs C -> ~ A q) -> ctx_rep s i p C c -> ctx_rep s' i p C c.
Proof.
  intros Hag. revert c. induction C as [|[d a sz mates sib] C IH]; intros c HA; [done|].
  assert (ctx_addrs (Frame d a sz mates sib :: C) = (a :: mates) ++ addrs sib ++ ctx_addrs C) as E.
  { unfold ctx_addrs, ctx_chunks. cbn [mbind list_bind frame_chunks].
    rewrite !fmap_app, addrs_chunks, <- app_assoc. f_equal.
    rewrite <- list_fmap_compose. cbn. f_equal. apply list_fmap_id. }
  rewrite E in HA. intros (Ha & Hs & Hc). split; [|split].
  - eapply node_rep_frame; [done| |done]. intros q Hq. apply HA. set_solver.
  - eapply tree_rep_frame; [done| |done]. intros q Hq. apply HA. set_solver.
  - apply IH; [|done]. intros q Hq. apply HA. set_solver.
Qed.

(** *** The pointer to a place *)

Definition ctx_root (C : ctx) (c : Z) : Z := match C with [] => c | _ => root (plug C Leaf) end.

Lemma root_plug C t : root (plug C t) = ctx_root C (root t).
Proof.
  destruct C as [|f C]; [done|]. cbn [ctx_root].
  change (plug (f :: C) ?u) with (plug C (plug1 u f)).
  assert (root (plug1 t f) = root (plug1 Leaf f)) as H1 by (by destruct f as [[]]).
  revert H1. generalize (plug1 t f) (plug1 Leaf f). clear. induction C as [|f C IH]; [done|].
  intros t u E. apply IH. destruct f as [[] a sz mates sib]; done.
Qed.

Lemma ctx_addrs_cons d a sz mates sib C :
  ctx_addrs (Frame d a sz mates sib :: C) = (a :: mates) ++ addrs sib ++ ctx_addrs C.
Proof.
  unfold ctx_addrs, ctx_chunks. cbn [mbind list_bind frame_chunks].
  rewrite !fmap_app, addrs_chunks, <- app_assoc. f_equal.
  rewrite <- list_fmap_compose. cbn. f_equal. apply list_fmap_id.
Qed.

(** The outermost node of a place is one of its nodes. *)
Lemma ctx_root_in f C : root (plug (f :: C) Leaf) ∈ ctx_addrs (f :: C).
Proof.
  assert (forall C t, root (plug C t) ∈ ctx_addrs C \/ root (plug C t) = root t) as H1.
  { clear. intros C. induction C as [|[d a sz mates sib] C IH]; intros t; [by right|].
    change (plug (Frame d a sz mates sib :: C) t) with (plug C (plug1 t (Frame d a sz mates sib))).
    rewrite ctx_addrs_cons. destruct (IH (plug1 t (Frame d a sz mates sib))) as [H1|H1]; left.
    - set_solver.
    - rewrite H1. destruct d; cbn; left. }
  destruct f as [d a sz mates sib].
  change (plug (Frame d a sz mates sib :: C) Leaf) with (plug C (plug1 Leaf (Frame d a sz mates sib))).
  rewrite ctx_addrs_cons. destruct (H1 C (plug1 Leaf (Frame d a sz mates sib))) as [H2|H2].
  - set_solver.
  - rewrite H2. destruct d; cbn; left.
Qed.

Lemma ctx_rep_heap s i p C c a : ctx_rep s i p C c -> a ∈ ctx_addrs C -> in_heap a.
Proof.
  revert c. induction C as [|[d b sz mates sib] C IH]; intros c; [cbn; set_solver|].
  rewrite ctx_addrs_cons, !elem_of_app. intros ((_ & _ & _ & Hc) & Hs & Hr) [H1|[H1|H1]].
  - rewrite Forall_forall in Hc. by apply (Hc a).
  - by eapply tree_rep_addr.
  - by eapply IH.
Qed.

(** A node's pointer to its child [x] becomes [v]. *)
Lemma set_hole s i p d a sz mates sib C x v :
  NoDup (ctx_addrs (Frame d a sz mates sib :: C)) -> x ∉ ctx_addrs (Frame d a sz mates sib :: C) ->
  x <> 0 -> ctx_rep s i p (Frame d a sz mates sib :: C) x ->
  exists s', (pn ← tchunk a;
      if child pn 0 =? x then tupd a (set_child 0 v) else tupd a (set_child 1 v)) s = Ok (tt, s') /\
    agrees (eq a) s s' /\ same_roots s s' /\
    tupd a (set_child (Z.b2z d) v) s = Ok (tt, s') /\
    ctx_rep s' i p (Frame d a sz mates sib :: C) v.
Proof.
  rewrite ctx_addrs_cons. intros Hnd Hx Hx0 (Ha & Hs & Hc).
  apply NoDup_app in Hnd as (Hnd & Hdis & _).
  destruct (node_set_child s i (parent_of p C) a sz mates _ _ (Z.b2z d) v Hnd Ha) as
    (s' & E & Ag & B1 & B2 & B3 & Hrep); [destruct d; cbn; auto|].
  exists s'. pose proof Ha as (Hta & _).
  splits; [|done|done|done|].
  - mrun (tchunk_ok s a _ Hta). destruct d; cbn [child child0 Z.b2z Z.eqb] in *.
    + rewrite (proj2 (Z.eqb_neq _ x)); [done|]. destruct sib; cbn [root] in *; [lia|]. set_solver.
    + by rewrite Z.eqb_refl.
  - split; [|split].
    + by destruct d.
    + eapply tree_rep_frame; [done| |done]. intros q Hq <-. apply (Hdis a); set_solver.
    + eapply ctx_rep_frame; [done| |done]. intros q Hq <-. apply (Hdis a); set_solver.
Qed.

Lemma relink_ok s i C x v n :
  0 <= i < NTreeBins -> parent n = parent_of RootParent C -> index n = i ->
  treebins s !! Z.to_nat i = Some (ctx_root C x) -> treemap s in_u 32 ->
  NoDup (ctx_addrs C) -> x ∉ ctx_addrs C -> x <> 0 -> ctx_rep s i RootParent C x ->
  exists s', relink x n v s = Ok (tt, s') /\ agrees (fun q => q ∈ ctx_addrs C) s s' /\
    ctx_rep s' i RootParent C v /\
    treebins s' = <[Z.to_nat i := ctx_root C v]> (treebins s) /\ smallmap s' = smallmap s /\
    treemap s' in_u 32 /\
    (forall j, 0 <= j -> Z.testbit (treemap s') j =
      if (j =? i) && is_leaf (plug C (if v =? 0 then Leaf else Node v 0 [] Leaf Leaf))
      then false else Z.testbit (treemap s) j).
Proof.
  intros Hi Hp Hix Hroot Hm Hnd Hx Hx0 Hrep. unfold NTreeBins in Hi. unfold relink. rewrite Hix.
  mrun (treebin_get_ok i s _ Hroot). rewrite plug_leaf. destruct C as [|f C].
  - cbn [ctx_root]. rewrite Z.eqb_refl. unfold treebin_set. mpure.
    destruct (clear_bits (treemap s) i ltac:(lia) Hm) as [Mu Mb].
    destruct (Z.eqb_spec v 0) as [->|Hv]; cbn [is_leaf].
    + eexists. split; [reflexivity|]. cbn [treemap with_maps smallmap treebins with_treebins].
      splits; [|done|done|done|apply Mu..|].
      * split; [|done|done]. exists (rings s), (tchunks s), (<[Z.to_nat i := 0]> (treebins s)), (smallmap s),
          (Z.land (treemap s) (u32 (Z.lnot (idx2bit i)))). reflexivity.
      * intros j Hj. rewrite Mb by done. by destruct (j =? i).
    + eexists. split; [reflexivity|]. splits; [|done|done|done|apply Hm..|].
      * split; [|done|done].
        by exists (rings s), (tchunks s), (<[Z.to_nat i := v]> (treebins s)), (smallmap s), (treemap s).
      * intros j Hj. by rewrite andb_false_r.
  - destruct f as [d a sz mates sib]. cbn [parent_of] in Hp.
    assert (x =? ctx_root (Frame d a sz mates sib :: C) x = false) as ->.
    { apply Z.eqb_neq. intros E. apply Hx. rewrite E. apply ctx_root_in. }
    rewrite checked_ok; cycle 1.
    { rewrite Hp. eapply ok_address_heap, ctx_rep_heap; [done|]. rewrite ctx_addrs_cons. set_solver. }
    rewrite Hp.
    destruct (set_hole s i RootParent d a sz mates sib C x v) as (s' & E & Ag & (S1 & S2 & S3) & _ & Hrep');
      [done..|].
    exists s'. rewrite S1, S2, S3. splits; [done| |done| |done|apply Hm..|].
    + eapply agrees_weaken; [done|]. intros q <-. rewrite ctx_addrs_cons. set_solver.
    + by rewrite list_insert_id.
    + intros j Hj. by rewrite andb_false_r.
Qed.

(** *** A node takes the place of another *)

Lemma adopt_ok s i x y c0 c1 yp d t :
  tchunks s !! y = Some (mkTChunk c0 c1 yp i) -> tree_rep s i x t -> y ∉ addrs t ->
  NoDup (addrs t) -> (d = 0 /\ c0 = 0) \/ (d = 1 /\ c1 = 0) ->
  exists s', adopt y d (root t) s = Ok (tt, s') /\
    agrees (fun q => q = y \/ q ∈ addrs t) s s' /\ same_roots s s' /\ rings s' = rings s /\
    tchunks s' !! y = Some (mkTChunk (if d =? 0 then root t else c0) (if d =? 0 then c1 else root t) yp i) /\
    tree_rep s' i y t.
Proof.
  intros Hy Ht Hnin Hnd Hd. unfold adopt. destruct t as [|a sz mates l r].
  - exists s. splits; try done.
    + split; [apply only_bins_refl|done|done].
    + destruct Hd as [[-> ->]|[-> ->]]; done.
  - rewrite (root_truth _ _ _ _ Ht). cbn [root negb].
    destruct Ht as ((Ha & Hr & Hm & Hc) & Hl & Hrt). cbn [addrs] in Hnin, Hnd.
    rewrite checked_ok by (apply ok_address_heap, (Forall_inv Hc)).
    assert (a <> y) as Hay by set_solver.
    mrun (tupd_ok s y (set_child d a) _ Hy).
    erewrite tupd_ok by (cbn [tchunks with_tchunks]; rewrite lookup_insert_ne by congruence; exact Ha).
    eexists. split; [reflexivity|]. cbn [tchunks with_tchunks].
    set (s' := with_tchunks _ _).
    assert (agrees (fun q => q = y \/ q = a) s s') as Ag.
    { split; [|done|].
      - exists (rings s), (tchunks s'), (treebins s), (smallmap s), (treemap s). reflexivity.
      - intros q Hq. cbn. rewrite !lookup_insert_ne by naive_solver. done. }
    splits; [|done|done| |].
    + eapply agrees_weaken; [exact Ag|]. set_solver.
    + cbn. rewrite lookup_insert_ne, lookup_insert_eq by done.
      destruct Hd as [[-> ->]|[-> ->]]; done.
    + apply NoDup_app in Hnd as (Hnd & Hdis & _). split; [|split].
      * unfold node_rep. splits; [| |  |done].
        -- cbn. by rewrite lookup_insert_eq.
        -- done.
        -- rewrite Forall_forall in Hm |- *. intros m Hin. cbn.
           rewrite !lookup_insert_ne; [by apply Hm| |]; [set_solver|].
           apply NoDup_cons in Hnd as [? _]. congruence.
      * eapply tree_rep_frame; [exact Ag| |done]. intros q Hq [->| ->]; [set_solver|].
        apply (Hdis a); set_solver.
      * eapply tree_rep_frame; [exact Ag| |done]. intros q Hq [->| ->]; [set_solver|].
        apply (Hdis a); set_solver.
Qed.

Lemma take_place_ok s i x xp y sy my l r :
  tchunks s !! x = Some (mkTChunk (root l) (root r) xp i) ->
  tree_rep s i x l -> tree_rep s i x r -> (exists yp, node_rep s i yp y sy my 0 0) ->
  NoDup (x :: (y :: my) ++ addrs l ++ addrs r) ->
  exists s', take_place x xp y s = Ok (tt, s') /\
    agrees (fun q => q = y \/ q ∈ addrs l ++ addrs r) s s' /\ same_roots s s' /\
    tree_rep s' i xp (Node y sy my l r).
Proof.
  intros Hx Hl Hr (yp' & Ha & Hring & Hm & Hc) Hnd.
  apply NoDup_cons in Hnd as [Hnx Hnd]. apply NoDup_app in Hnd as (Hndy & Hdy & Hnd).
  apply NoDup_app in Hnd as (Hndl & Hdlr & Hndr).
  unfold take_place. rewrite in_heap_truth by (apply (Forall_inv Hc)).
  rewrite checked_ok by (apply ok_address_heap, (Forall_inv Hc)).
  mrun (tupd_ok s y (set_parent xp) _ Ha).
  pose proof (agrees_tupd s y (set_parent xp (mkTChunk 0 0 yp' i))) as A1. set (s1 := with_tchunks _ s) in *.
  assert (tchunks s1 !! x = Some (mkTChunk (root l) (root r) xp i)) as Hx1.
  { rewrite (ag_nodes _ _ _ A1); [done|]. intros ->. set_solver. }
  mrun (tchunk_ok s1 x _ Hx1). change (child (mkTChunk (root l) (root r) xp i) 0) with (root l).
  destruct (adopt_ok s1 i x y 0 0 xp 0 l) as (s2 & E2 & A2 & B2 & R2 & Y2 & L2);
    [apply lookup_insert_eq|by eapply tree_rep_frame; [exact A1|set_solver|]|set_solver|done|by left|].
  mrun E2.
  assert (tchunks s2 !! x = Some (mkTChunk (root l) (root r) xp i)) as Hx2.
  { rewrite (ag_nodes _ _ _ A2); [done|]. set_solver. }
  mrun (tchunk_ok s2 x _ Hx2). change (child (mkTChunk (root l) (root r) xp i) 1) with (root r).
  assert (tree_rep s2 i x r) as Hr2.
  { eapply tree_rep_frame; [exact A2|set_solver|]. eapply tree_rep_frame; [exact A1|set_solver|done]. }
  destruct (adopt_ok s2 i x y (root l) 0 xp 1 r) as (s3 & E3 & A3 & B3 & R3 & Y3 & L3);
    [done|done|set_solver|done|by right|].
  exists s3. splits; [done| | |].
  - eapply agrees_trans; [|eapply agrees_trans]; (eapply agrees_weaken; [eassumption|]); set_solver.
  - destruct B2 as (? & ? & ?), B3 as (? & ? & ?). unfold same_roots.
    splits; etransitivity; try eassumption; try done.
  - split; [|split].
    + unfold node_rep. splits; [done| | |].
      * by rewrite R3, R2.
      * rewrite Forall_forall in Hm |- *. intros m Hin.
        apply NoDup_cons in Hndy as [? _].
        rewrite (ag_nodes _ _ _ A3), (ag_nodes _ _ _ A2), (ag_nodes _ _ _ A1); [by apply Hm|..]; set_solver.
      * eapply Forall_impl; [exact Hc|]. intros b Hb.
        assert (only_bins s s3) as Ho.
        { eapply only_bins_trans; [apply A1|]. eapply only_bins_trans; [apply A2|apply A3]. }
        by apply (chunk_of_only s s3).
    + eapply tree_rep_frame; [exact A3| |done]. set_solver.
    + done.
Qed.

(** *** The end of an unlinking: the replacement takes the place of the node *)

Lemma clear_ok s x : exists s', tchunk_metadata_clear x s = Ok (tt, s') /\ agrees (eq x) s s' /\
  same_roots s s'.
Proof.
  eexists. split; [reflexivity|]. splits; [|done]. split.
  - exists (delete x (rings s)), (delete x (tchunks s)), (treebins s), (smallmap s), (treemap s).
    reflexivity.
  - intros q Hq. cbn. by rewrite !lookup_delete_ne.
  - intros q Hq. cbn. by rewrite lookup_delete_ne.
Qed.

(** What the unlinked node [x] was replaced by: nothing, or the node [y] below which its
    subtrees go. *)
Definition put (y : Z) (sy : Z) (my : list Z) (l r : tree) : tree :=
  if y =? 0 then Leaf else Node y sy my l r.

Lemma parent_not_ring s i C c : ctx_rep s i RootParent C c -> parent_of RootParent C <> RingParent.
Proof.
  intros Hc. destruct C as [|[d a sz mates sib] C]; [done|]. cbn [parent_of].
  assert (in_heap a) as Ha by (eapply ctx_rep_heap; [done|rewrite ctx_addrs_cons; set_solver]).
  pose proof base_below. pose proof ms_below. destruct Ha. unfold RingParent. lia.
Qed.

Lemma finish_unlink s i C x l r y sy my ys :
  0 <= i < NTreeBins ->
  tchunks s !! x = Some (mkTChunk (root l) (root r) (parent_of RootParent C) i) ->
  treebins s !! Z.to_nat i = Some (ctx_root C x) -> treemap s in_u 32 -> in_heap x ->
  ctx_rep s i RootParent C x -> tree_rep s i x l -> tree_rep s i x r ->
  (y = 0 /\ ys = [] /\ l = Leaf /\ r = Leaf) \/
    (in_heap y /\ ys = y :: my /\ (exists yp, node_rep s i yp y sy my 0 0)) ->
  NoDup (ctx_addrs C ++ x :: ys ++ addrs l ++ addrs r) ->
  exists s', (n ← tchunk x;
      _ ← (if is_tree_ring n then mret tt else _ ← relink x n y; take_place x (parent n) y);
      tchunk_metadata_clear x) s = Ok (tt, s') /\
    agrees (fun q => q ∈ ctx_addrs C ++ x :: ys ++ addrs l ++ addrs r) s s' /\
    smallmap s' = smallmap s /\ tree_rep s' i RootParent (plug C (put y sy my l r)) /\
    treebins s' = <[Z.to_nat i := root (plug C (put y sy my l r))]> (treebins s) /\
    treemap s' in_u 32 /\
    (forall j, 0 <= j -> Z.testbit (treemap s') j =
      if (j =? i) && is_leaf (plug C (put y sy my l r)) then false else Z.testbit (treemap s) j).
Proof.
  intros Hi Hx Hroot Hm Hxh Hc Hl Hr Hy Hnd.
  assert (x <> 0) as Hx0.
  { pose proof base_below. pose proof ms_below. destruct Hxh. lia. }
  apply NoDup_app in Hnd as (Hndc & Hdc & Hnd).
  pose proof Hnd as [Hnx Hndy]%NoDup_cons.
  mrun (tchunk_ok s x _ Hx). unfold is_tree_ring. cbn [parent].
  rewrite (proj2 (Z.eqb_neq _ _)) by (by eapply parent_not_ring).
  destruct (relink_ok s i C x y (mkTChunk (root l) (root r) (parent_of RootParent C) i))
    as (s1 & E1 & A1 & C1 & B1 & M1 & U1 & T1); [done..|set_solver|done|done|].
  rewrite M_assoc. mrun E1.
  assert (root (put y sy my l r) = y) as Ery.
  { unfold put. destruct (Z.eqb_spec y 0) as [->|]; done. }
  assert (is_leaf (plug C (if y =? 0 then Leaf else Node y 0 [] Leaf Leaf))
    = is_leaf (plug C (put y sy my l r))) as El.
  { rewrite !plug_leaf. unfold put. by destruct (y =? 0). }
  rewrite El in T1.
  assert (exists s2, take_place x (parent_of RootParent C) y s1 = Ok (tt, s2) /\
    agrees (fun q => q ∈ ys ++ addrs l ++ addrs r) s1 s2 /\ same_roots s1 s2 /\
    tree_rep s2 i (parent_of RootParent C) (put y sy my l r)) as (s2 & E2 & A2 & R2 & P2).
  { destruct Hy as [(-> & -> & -> & ->)|(Hyh & -> & yp & Hy)].
    - exists s1. splits; [done| |done|done]. split; [apply only_bins_refl|done|done].
    - assert (put y sy my l r = Node y sy my l r) as ->.
      { unfold put. rewrite (proj2 (Z.eqb_neq y 0)); [done|].
        pose proof base_below. pose proof ms_below. destruct Hyh. lia. }
      destruct (take_place_ok s1 i x (parent_of RootParent C) y sy my l r) as (s2 & E2 & A2 & R2);
        [| | | |done|]; cycle 4.
      { exists s2. splits; [done| |apply R2..]. eapply agrees_weaken; [exact A2|]. set_solver. }
      + rewrite (ag_nodes _ _ _ A1); [done|]. set_solver.
      + eapply tree_rep_frame; [exact A1| |done]. set_solver.
      + eapply tree_rep_frame; [exact A1| |done]. set_solver.
      + exists yp. eapply node_rep_frame; [exact A1| |done]. set_solver. }
  mrun E2. destruct (clear_ok s2 x) as (s3 & E3 & A3 & (R3a & R3b & R3c)).
  destruct R2 as (R2a & R2b & R2c).
  assert (forall q, q ∈ addrs (put y sy my l r) -> q ∈ ys ++ addrs l ++ addrs r) as Hput.
  { unfold put. destruct (Z.eqb_spec y 0) as [->|Hy0]; cbn [addrs]; [set_solver|].
    by destruct Hy as [[? _]|(_ & -> & _)]. }
  exists s3. rewrite R3a, R3b, R3c, R2a, R2b, R2c, B1, M1, root_plug, Ery. splits; try done; [| |apply U1..].
  - eapply agrees_trans; [|eapply agrees_trans]; (eapply agrees_weaken; [eassumption|]); set_solver.
  - apply tree_rep_plug. rewrite Ery. split.
    + eapply ctx_rep_frame; [exact A3|set_solver|]. eapply ctx_rep_frame; [exact A2| |done].
      intros q Hq Hq'; apply (Hdc _ Hq); set_solver.
    + eapply tree_rep_frame; [exact A3| |done]. intros q Hq%Hput <-. done.
Qed.

(** *** The replacement *)

Lemma replacement_ring s x f b q r' :
  is_singleton (rings s) x = Some false -> cell_next (rings s) x = Some f ->
  cell_prev (rings s) x = Some b -> cell_prev (rings s) f = Some x ->
  cell_next (rings s) b = Some x -> in_heap f -> unsafe_remove (rings s) x = Some (q, r') ->
  replacement x s = Ok (b, with_rings r' s).
Proof.
  intros Hs Hf Hb Hfx Hbx Hh Hu. unfold replacement.
  mrun (ring_of_ok (fun r => is_singleton r x) s false Hs). cbn [negb].
  mrun (ring_of_ok (fun r => cell_next r x) s f Hf). mrun (ring_of_ok (fun r => cell_prev r x) s b Hb).
  rewrite (M_bind_ok _ _ s true s); cycle 1.
  { apply rtcheck_ok. unfold and_then. rewrite ok_address_heap by done.
    assert (bk_equals (rings s) f x = Some true) as E1.
    { unfold bk_equals. rewrite Hfx. cbn. by rewrite bool_decide_eq_true_2. }
    mrun (ring_of_ok (fun g => bk_equals g f x) s true E1). apply ring_of_ok.
    unfold fd_equals. rewrite Hbx. cbn. by rewrite bool_decide_eq_true_2. }
  assert (unsafe_remove_ring x s = Ok (tt, with_rings r' s)) as E.
  { apply on_rings_ok. by rewrite Hu. }
  mrun E. done.
Qed.

(** The rightmost leaf below a node, and the slot that holds it. *)
Lemma rightmost_ok s i p c rp fuel :
  c <> Leaf -> tree_rep s i p c -> (height c <= fuel)%nat ->
  exists D y sy my, c = plug D (Node y sy my Leaf Leaf) /\
    rightmost_loop fuel (root c) rp s =
      Ok ((y, match D with [] => rp | Frame d a _ _ _ :: _ => (a, Z.b2z d) end), s).
Proof.
  revert p rp fuel. induction c as [|a sz mates l IHl r IHr]; intros p rp fuel Hne Hrep Hf; [done|].
  destruct fuel as [|fuel]; cbn [height] in Hf; [lia|]. cbn [rightmost_loop root].
  destruct Hrep as ((Ha & _) & Hl & Hr). mrun (tchunk_ok s a _ Ha). cbn [child Z.eqb child1 child0].
  rewrite (root_truth _ _ _ _ Hr), (root_truth _ _ _ _ Hl).
  destruct r as [|ar sr mr rl rr].
  - destruct l as [|al sl ml ll lr]; cbn [negb].
    + by exists [], a, sz, mates.
    + destruct (IHl a (a, 0) fuel) as (D & y & sy & my & E & Hrun); [done|done|lia|].
      exists (D ++ [Frame false a sz mates Leaf]), y, sy, my.
      split; [by rewrite plug_app, <- E|]. cbn [root] in *. rewrite Hrun.
      by destruct D as [|[]].
  - cbn [negb]. destruct (IHr a (a, 1) fuel) as (D & y & sy & my & E & Hrun); [done|done|lia|].
    exists (D ++ [Frame true a sz mates l]), y, sy, my.
    split; [by rewrite plug_app, <- E|]. cbn [root] in *. rewrite Hrun.
    by destruct D as [|[]].
Qed.

(** Detaching the leaf of the subtree [c] of [x]. *)
Lemma replacement_leaf s i C x sz l r :
  ctx_rep s i RootParent C x ->
  node_rep s i (parent_of RootParent C) x sz [] (root l) (root r) ->
  tree_rep s i x l -> tree_rep s i x r -> (l <> Leaf \/ r <> Leaf) ->
  NoDup (addrs (plug C (Node x sz [] l r))) -> (height l <= tree_fuel)%nat -> (height r <= tree_fuel)%nat ->
  exists D y sy my l' r' s', replacement x s = Ok (y, s') /\
    agrees (fun q => q ∈ x :: addrs l ++ addrs r) s s' /\ same_roots s s' /\
    ctx_rep s' i RootParent C x /\
    node_rep s' i (parent_of RootParent C) x sz [] (root l') (root r') /\
    tree_rep s' i x l' /\ tree_rep s' i x r' /\ (exists yp, node_rep s' i yp y sy my 0 0) /\
    ((r <> Leaf /\ r = plug D (Node y sy my Leaf Leaf) /\ r' = plug D Leaf /\ l' = l) \/
     (r = Leaf /\ l = plug D (Node y sy my Leaf Leaf) /\ l' = plug D Leaf /\ r' = Leaf)).
Proof.
  intros HC Hx Hl Hr Hne Hnd Hhl Hhr.
  set (d := negb (is_leaf r)). set (c := if d then r else l). set (sib := if d then l else r).
  assert (c <> Leaf) as Hc by (unfold c, d; destruct r; cbn; naive_solver).
  assert (tree_rep s i x c) as Hcr by (unfold c; by destruct d).
  assert (tree_rep s i x sib) as Hsr by (unfold sib; by destruct d).
  pose proof Hx as (Htx & Hring & _ & Hcx).
  destruct (rightmost_ok s i x c (x, Z.b2z d) tree_fuel) as (D & y & sy & my & Ec & Hrun);
    [done|done|unfold c; by destruct d|].
  set (E := D ++ Frame d x sz [] sib :: C).
  assert (plug C (Node x sz [] l r) = plug E (Node y sy my Leaf Leaf)) as Eplug.
  { unfold E. rewrite plug_app, <- Ec.
    change (plug (Frame d x sz [] sib :: C) c) with (plug C (plug1 c (Frame d x sz [] sib))).
    f_equal. unfold c, sib. by destruct d. }
  assert (tree_rep s i RootParent (plug E (Node y sy my Leaf Leaf))) as Hrep.
  { rewrite <- Eplug. apply tree_rep_plug. done. }
  assert (NoDup (ctx_addrs E ++ y :: my)) as HndE.
  { rewrite Eplug, addrs_plug in Hnd. cbn [addrs] in Hnd. by rewrite !app_nil_r in Hnd. }
  apply tree_rep_plug in Hrep as [HE Hy]. cbn [root] in HE.
  assert (exists d0 a0 sz0 m0 sib0 E', E = Frame d0 a0 sz0 m0 sib0 :: E' /\
    match D with [] => (x, Z.b2z d) | Frame d a _ _ _ :: _ => (a, Z.b2z d) end = (a0, Z.b2z d0))
    as (d0 & a0 & sz0 & m0 & sib0 & E' & EE & Erp).
  { unfold E. destruct D as [|[d1 a1 sz1 m1 sib1] D]; cbn; by eexists _, _, _, _, _, _. }
  rewrite Erp in Hrun.
  pose proof HndE as Hnd'. apply NoDup_app in HndE as (HndE & HdE & Hndy).
  assert (in_heap y) as Hyh by (eapply tree_rep_addr; [exact Hy|cbn; left]).
  rewrite EE in HE, HndE, HdE.
  destruct (set_hole s i RootParent d0 a0 sz0 m0 sib0 E' y 0) as (s' & _ & Ag & Hsame & Hset & HE');
    [done| | |done|].
  { intros Hin. apply (HdE y Hin). left. }
  { pose proof base_below. pose proof ms_below. destruct Hyh. lia. }
  assert (in_heap a0) as Ha0.
  { eapply ctx_rep_heap; [exact HE|]. rewrite ctx_addrs_cons. cbn [app]. left. }
  set (l' := if d then l else plug D Leaf). set (r' := if d then plug D Leaf else r).
  assert (plug E Leaf = plug C (Node x sz [] l' r')) as Eplug'.
  { unfold E. rewrite plug_app.
    change (plug (Frame d x sz [] sib :: C) (plug D Leaf))
      with (plug C (plug1 (plug D Leaf) (Frame d x sz [] sib))).
    f_equal. unfold l', r', sib. by destruct d. }
  assert (tree_rep s' i RootParent (plug E Leaf)) as Hrep'.
  { apply tree_rep_plug. rewrite EE. done. }
  rewrite Eplug' in Hrep'. apply tree_rep_plug in Hrep' as [HC' (Hx' & Hl' & Hr')].
  assert (a0 ∈ x :: addrs l ++ addrs r) as Hin0.
  { assert (a0 = x \/ a0 ∈ addrs c) as H1.
    { destruct D as [|[d1 a1 sz1 m1 sib1] D]; injection Erp as <- _; [by left|].
      right. rewrite Ec, addrs_plug, ctx_addrs_cons, !elem_of_app. do 2 left. left. }
    rewrite elem_of_cons, elem_of_app. unfold c in H1. destruct d; tauto. }
  exists D, y, sy, my, l', r', s'. splits; try done.
  - unfold replacement. clear Hhl Hhr. revert Hrun. generalize tree_fuel. intros fuel Hrun.
    assert (is_singleton (rings s) x = Some true) as Hs1 by (by rewrite (is_singleton_ring _ _ _ Hring)).
    mrun (ring_of_ok (fun g => is_singleton g x) s true Hs1). cbn [negb].
    mrun (tchunk_ok s x _ Htx). cbn [child Z.eqb child0 child1].
    rewrite (root_truth _ _ _ _ Hr), (root_truth _ _ _ _ Hl).
    assert ((rp ← rightmost_loop fuel (root c) (x, Z.b2z d);
             checked (ok_address (slot_address rp.2.1 rp.2.2))
               (_ ← tupd rp.2.1 (set_child rp.2.2 0); mret rp.1)) s = Ok (y, s')) as Hd.
    { mrun Hrun. cbn [fst snd]. rewrite checked_ok by (apply ok_address_slot; [done|destruct d0; auto]).
      by mrun Hset. }
    unfold c, d in Hd |- *. unfold mbind, M_bind in Hd |- *.
    destruct r; cbn [negb is_leaf root] in *; [destruct l; cbn [negb is_leaf root] in *|].
    + by destruct Hne.
    + destruct (rightmost_loop _ _ _ _) as [[[? [? ?]] ?]|]; [|done]. exact Hd.
    + destruct (rightmost_loop _ _ _ _) as [[[? [? ?]] ?]|]; [|done]. exact Hd.
  - eapply agrees_weaken; [exact Ag|]. by intros q <-.
  - exists (parent_of RootParent E). destruct Hy as (Hy & _). cbn [root] in Hy.
    eapply node_rep_frame; [exact Ag| |exact Hy]. intros q Hq <-.
    apply (HdE a0); [|done]. rewrite ctx_addrs_cons. cbn [app]. left.
  - unfold l', r', c, d in *. destruct r; cbn [negb is_leaf] in *; [right|left]; done.
Qed.

(** *** Unlinking a chunk *)

(** What an unlinking has to establish. *)
Lemma unlinked s s' i t t' x sz :
  0 <= i -> tree_ok s i t -> is_leaf t = false ->
  agrees (fun q => q ∈ addrs t) s s' -> smallmap s' = smallmap s -> tree_rep s' i RootParent t' ->
  treebins s' = <[Z.to_nat i := root t']> (treebins s) -> treemap s' in_u 32 ->
  (forall j, 0 <= j -> Z.testbit (treemap s') j =
    if (j =? i) && is_leaf t' then false else Z.testbit (treemap s) j) ->
  trie (bin_bits i) t' -> (forall z, z ∈ sizes t' -> z ∈ sizes t) ->
  chunks_of t ≡ₚ (x, sz) :: chunks_of t' ->
  tree_step s s' i (fun q => q ∈ addrs t) /\ tree_ok s' i t'.
Proof.
  intros Hi (T1 & T2 & T3 & T4 & T5 & T6 & T7) Hl Ag Sm Rep B U Bits Tr Sz Ch. split.
  - split; [done|]. rewrite B. splits; [done| | |apply U..].
    + intros j Hj Hne. rewrite list_lookup_insert_ne; [done|lia].
    + intros j Hj Hne. rewrite Bits by done. by rewrite (proj2 (Z.eqb_neq j i)).
  - split; [|split; [|split; [|split; [|split; [|split]]]]]; try done.
    + rewrite B. apply list_lookup_insert_eq. by eapply lookup_lt_Some.
    + rewrite addrs_chunks, Ch in T4. cbn [fmap list_fmap] in T4. apply NoDup_cons in T4 as [_ T4].
      by rewrite addrs_chunks.
    + apply Forall_forall. intros z Hz. rewrite Forall_forall in T5. auto.
    + rewrite Bits, Z.eqb_refl, T6, Hl by done. by destruct (is_leaf t').
Qed.

Lemma ring_fuel_height i t : 0 <= i < NTreeBins -> trie (bin_bits i) t -> (height t <= tree_fuel)%nat.
Proof.
  intros Hi Ht. apply trie_height in Ht. pose proof (bin_bits_le i Hi). unfold tree_fuel. lia.
Qed.

(** A chunk on the ring of a node. *)
Lemma unlink_mate s i C a sz m1 x m2 l r :
  0 <= i < NTreeBins -> tree_ok s i (plug C (Node a sz (m1 ++ x :: m2) l r)) ->
  exists s', unlink_large_chunk x s = Ok (tt, s') /\
    tree_step s s' i (fun q => q ∈ addrs (plug C (Node a sz (m1 ++ x :: m2) l r))) /\
    tree_ok s' i (plug C (Node a sz (m1 ++ m2) l r)).
Proof.
  intros Hi Hok. pose proof Hok as (T1 & T2 & T3 & T4 & T5 & T6 & T7).
  assert (root (plug C (Node a sz (m1 ++ m2) l r)) = root (plug C (Node a sz (m1 ++ x :: m2) l r)))
    as Eroot by (by rewrite !root_plug).
  apply tree_rep_plug in T2 as [HC (Ha & Hl & Hr)]. pose proof Ha as (Hta & Hring & Hm & Hc).
  destruct (ring_unlink _ _ _ _ _ Hring) as (q & r' & Eu & Hr' & Hk).
  destruct (ring_neighbours _ _ _ _ _ Hring) as (f & b & Ef & Eb & Hf & Hb & Hfp & Hbp & Hs & _).
  assert (forall q, q ∈ a :: m1 ++ x :: m2 -> in_heap q) as Hheap.
  { intros z Hz. rewrite Forall_forall in Hc. apply (Hc z Hz). }
  assert (in_heap f) as Hfh.
  { apply Hheap. destruct m2; cbn in Hf; injection Hf as <-; set_solver. }
  unfold unlink_large_chunk. mrun (replacement_ring s x f b q r' Hs Ef Eb Hfp Hbp Hfh Eu).
  assert (tchunks s !! x = Some (mkTChunk 0 0 RingParent i)) as Hx.
  { apply Forall_app in Hm as [_ Hm]. by apply Forall_cons in Hm as [Hm _]. }
  mrun (tchunk_ok (with_rings r' s) x _ Hx). cbn [is_tree_ring parent Z.eqb]. mpure.
  eexists. split; [reflexivity|]. set (s' := with_tchunks _ _).
  rewrite addrs_plug in T4. cbn [addrs] in T4.
  apply NoDup_app in T4 as (_ & Hdc & T4). apply NoDup_app in T4 as (Hnd & Hdis & _).
  assert (agrees (fun q => q ∈ a :: m1 ++ x :: m2) s s') as Ag.
  { split.
    - exists (rings s'), (tchunks s'), (treebins s), (smallmap s), (treemap s). reflexivity.
    - intros z Hz. by apply Hk.
    - intros z Hz. cbn. rewrite lookup_delete_ne; [done|]. set_solver. }
  apply (unlinked _ _ _ _ _ x sz); try done; [lia|by rewrite plug_leaf; destruct C|..].
  - eapply agrees_weaken; [exact Ag|]. intros z Hz. rewrite addrs_plug. cbn [addrs]. set_solver.
  - apply tree_rep_plug. split; [|split; [|split]].
    + eapply ctx_rep_frame; [exact Ag| |done]. intros z Hz Hz'. apply (Hdc z Hz). set_solver.
    + unfold node_rep. apply NoDup_cons in Hnd as [Hna Hnd].
      apply NoDup_app in Hnd as (_ & Hd1 & Hd2). apply NoDup_cons in Hd2 as [Hd2 _].
      apply Forall_cons in Hc as [Hca Hc]. apply Forall_app in Hc as [Hc1 Hc2].
      apply Forall_cons in Hc2 as [_ Hc2]. apply Forall_app in Hm as [Hm1 Hm2].
      apply Forall_cons in Hm2 as [_ Hm2]. splits; [|done| |].
      * cbn. rewrite lookup_delete_ne; [done|]. set_solver.
      * assert (x ∉ m1 ++ m2) as Hnx by (specialize (Hd1 x); set_solver).
        assert (Forall (fun m => tchunks s !! m = Some (mkTChunk 0 0 RingParent i)) (m1 ++ m2)) as Hm'
          by (by apply Forall_app).
        rewrite Forall_forall in Hm' |- *. intros m Hin. cbn.
        rewrite lookup_delete_ne; [by apply Hm'|]. by intros <-.
      * apply Forall_cons. split; [done|]. by apply Forall_app.
    + eapply tree_rep_frame; [exact Ag| |done]. intros z Hz Hz'. apply (Hdis z Hz'). set_solver.
    + eapply tree_rep_frame; [exact Ag| |done]. intros z Hz Hz'. apply (Hdis z Hz'). set_solver.
  - rewrite Eroot. by rewrite list_insert_id.
  - intros j Hj. rewrite plug_leaf. destruct C; cbn; by rewrite andb_false_r.
  - eapply trie_plug; [| |exact T3]; [done|]. by intros m.
  - intros z. rewrite !(sizes_plug C (Node _ _ _ _ _)). done.
  - rewrite !chunks_plug. cbn [chunks_of]. rewrite !app_comm_cons, !fmap_app. cbn. solve_Permutation.
Qed.

(** A node with a ring: the last chunk of the ring takes its place. *)
Lemma unlink_ringed s i C x sz m y l r :
  0 <= i < NTreeBins -> tree_ok s i (plug C (Node x sz (m ++ [y]) l r)) ->
  exists s', unlink_large_chunk x s = Ok (tt, s') /\
    tree_step s s' i (fun q => q ∈ addrs (plug C (Node x sz (m ++ [y]) l r))) /\
    tree_ok s' i (plug C (Node y sz m l r)).
Proof.
  intros Hi Hok. pose proof Hok as (T1 & T2 & T3 & T4 & T5 & T6 & T7).
  apply tree_rep_plug in T2 as [HC (Ha & Hl & Hr)]. pose proof Ha as (Hta & Hring & Hm & Hc).
  assert (forall q, q ∈ x :: m ++ [y] -> in_heap q) as Hheap.
  { intros z Hz. rewrite Forall_forall in Hc. apply (Hc z Hz). }
  assert (ring (rings s) (y :: [] ++ x :: m)) as Hring' by (by apply (ring_rotate _ (x :: m) [y])).
  destruct (ring_remove _ _ _ _ _ Hring') as (q & r' & Eu & Hr' & Hk). cbn [app] in Hr', Hk.
  destruct (ring_neighbours _ _ _ _ _ Hring') as (f & b & Ef & Eb & Hf & Hb & Hfp & Hbp & Hs & _).
  injection Hb as <-.
  assert (in_heap f) as Hfh by (apply Hheap; destruct m; cbn in Hf; injection Hf as <-; set_solver).
  unfold unlink_large_chunk. mrun (replacement_ring s x f y q r' Hs Ef Eb Hfp Hbp Hfh Eu).
  rewrite addrs_plug in T4. cbn [addrs] in T4.
  pose proof T4 as (_ & Hdc & Hndx)%NoDup_app.
  pose proof Hndx as (Hnd & Hdis & _)%NoDup_app. pose proof Hnd as [Hnx Hndm]%NoDup_cons.
  pose proof Hndm as (_ & Hmy & _)%NoDup_app.
  set (s1 := with_rings r' s).
  assert (agrees (fun q => q ∈ x :: m ++ [y]) s s1) as Ag.
  { split; [|intros z Hz; apply Hk; set_solver|done].
    exists r', (tchunks s), (treebins s), (smallmap s), (treemap s). by destruct s. }
  assert (node_rep s1 i RingParent y sz m 0 0) as Hy.
  { apply Forall_app in Hm as [Hm Hmy'%Forall_inv]. unfold node_rep.
    splits; [exact Hmy'|exact Hr'|exact Hm|]. apply Forall_cons in Hc as [_ Hc].
    apply Forall_app in Hc as [Hc Hc'%Forall_inv]. by apply Forall_cons. }
  rewrite root_plug in T1. cbn [root] in T1.
  destruct (finish_unlink s1 i C x l r y sz m (y :: m)) as (s' & E & Ag' & Sm & Rep & B & U & Bits);
    [done|done|done|done|apply Hheap; left|..].
  { eapply ctx_rep_frame; [exact Ag| |done]. intros z Hz Hz'. apply (Hdc z Hz). set_solver. }
  { eapply tree_rep_frame; [exact Ag| |done]. intros z Hz Hz'. apply (Hdis z Hz'). set_solver. }
  { eapply tree_rep_frame; [exact Ag| |done]. intros z Hz Hz'. apply (Hdis z Hz'). set_solver. }
  { right. splits; [apply Hheap; set_solver|done|]. by exists RingParent. }
  { assert (ctx_addrs C ++ x :: (y :: m) ++ addrs l ++ addrs r ≡ₚ
      ctx_addrs C ++ (x :: m ++ [y]) ++ addrs l ++ addrs r) as -> by solve_Permutation. done. }
  assert (in_heap y) as Hyh by (apply Hheap; set_solver).
  assert (put y sz m l r = Node y sz m l r) as Eput.
  { unfold put. rewrite (proj2 (Z.eqb_neq y 0)); [done|].
    pose proof base_below. pose proof ms_below. destruct Hyh. lia. }
  rewrite Eput in *. exists s'. split; [done|].
  apply (unlinked _ _ _ _ _ x sz); try done; [lia|by rewrite plug_leaf; destruct C|..].
  - eapply agrees_trans; (eapply agrees_weaken; [eassumption|]); intros z;
      rewrite addrs_plug; cbn [addrs]; set_solver.
  - eapply trie_plug; [| |exact T3]; [done|]. by intros k.
  - intros z. rewrite !(sizes_plug C (Node _ _ _ _ _)). done.
  - rewrite !chunks_plug. cbn [chunks_of]. rewrite app_comm_cons, !fmap_app. cbn. solve_Permutation.
Qed.

(** A leaf without a ring disappears. *)
Lemma unlink_leaf s i C x sz :
  0 <= i < NTreeBins -> tree_ok s i (plug C (Node x sz [] Leaf Leaf)) ->
  exists s', unlink_large_chunk x s = Ok (tt, s') /\
    tree_step s s' i (fun q => q ∈ addrs (plug C (Node x sz [] Leaf Leaf))) /\
    tree_ok s' i (plug C Leaf).
Proof.
  intros Hi Hok. pose proof Hok as (T1 & T2 & T3 & T4 & T5 & T6 & T7).
  apply tree_rep_plug in T2 as [HC (Ha & _)]. pose proof Ha as (Hta & Hring & _ & Hc).
  assert (in_heap x) as Hx by (apply (Forall_inv Hc)).
  assert (replacement x s = Ok (0, s)) as Er.
  { unfold replacement.
    assert (is_singleton (rings s) x = Some true) as Hs1 by (by rewrite (is_singleton_ring _ _ _ Hring)).
    mrun (ring_of_ok (fun g => is_singleton g x) s true Hs1). cbn [negb].
    mrun (tchunk_ok s x _ Hta). done. }
  unfold unlink_large_chunk. mrun Er.
  rewrite root_plug in T1. rewrite addrs_plug in T4. cbn [addrs app] in T4.
  destruct (finish_unlink s i C x Leaf Leaf 0 0 [] []) as (s' & E & Ag' & Sm & Rep & B & U & Bits);
    try done; [by left|].
  change (put 0 0 [] Leaf Leaf) with Leaf in *. exists s'. split; [done|].
  apply (unlinked _ _ _ _ _ x sz); try done; [lia|by rewrite plug_leaf; destruct C|..].
  - eapply agrees_weaken; [exact Ag'|]. intros z. by rewrite addrs_plug.
  - eapply trie_plug; [| |exact T3]; [set_solver|]. by intros k.
  - intros z. rewrite !(sizes_plug C (Node _ _ _ _ _)). set_solver.
  - rewrite !chunks_plug. cbn. solve_Permutation.
Qed.

(** An inner node: the rightmost leaf below it takes its place. *)
Lemma unlink_inner s i C x sz l r :
  0 <= i < NTreeBins -> tree_ok s i (plug C (Node x sz [] l r)) -> (l <> Leaf \/ r <> Leaf) ->
  exists s' y sy my l' r', unlink_large_chunk x s = Ok (tt, s') /\
    lifts y sy my l r l' r' /\
    tree_step s s' i (fun q => q ∈ addrs (plug C (Node x sz [] l r))) /\
    tree_ok s' i (plug C (Node y sy my l' r')).
Proof.
  intros Hi Hok Hne. pose proof Hok as (T1 & T2 & T3 & T4 & T5 & T6 & T7).
  apply tree_rep_plug in T2 as [HC (Ha & Hl & Hr)].
  assert (exists n, trie n (Node x sz [] l r)) as (n & Hn) by (by eapply trie_sub).
  assert ((height (Node x sz [] l r) <= tree_fuel)%nat) as Hh.
  { eapply Nat.le_trans; [apply height_sub|]. by eapply ring_fuel_height. }
  cbn [height] in Hh.
  destruct (replacement_leaf s i C x sz l r) as
    (D & y & sy & my & l' & r' & s1 & E1 & A1 & (Sa & Sb & Sc) & HC1 & Ha1 & Hl1 & Hr1 & Hy1 & Hlift);
    [done|done|done|done|done|done|lia|lia|].
  assert (lifts y sy my l r l' r') as HL by (exists D; exact Hlift).
  pose proof (lift_chunks x sz _ _ _ _ _ _ _ HL) as Hch.
  unfold unlink_large_chunk. mrun E1. pose proof Ha1 as (Hta1 & _ & _ & Hc1).
  assert (only_bins s s1) as Ho1 by apply A1.
  assert (in_heap y) as Hyh.
  { destruct Hy1 as (yp & _ & _ & _ & Hc). apply (Forall_inv Hc). }
  assert (addrs (plug C (Node x sz [] l r)) ≡ₚ ctx_addrs C ++ x :: (y :: my) ++ addrs l' ++ addrs r')
    as Hperm.
  { rewrite addrs_plug, !(addrs_chunks (Node _ _ _ _ _)), Hch. cbn [fmap list_fmap fst].
    rewrite <- addrs_chunks. done. }
  rewrite root_plug in T1. cbn [root] in T1.
  destruct (finish_unlink s1 i C x l' r' y sy my (y :: my)) as (s' & E & Ag' & Sm & Rep & B & U & Bits);
    [done|done|by rewrite Sa|by rewrite Sb|apply (Forall_inv Hc1)|done|done|done|by right| |].
  { by rewrite <- Hperm. }
  assert (put y sy my l' r' = Node y sy my l' r') as Eput.
  { unfold put. rewrite (proj2 (Z.eqb_neq y 0)); [done|].
    pose proof base_below. pose proof ms_below. destruct Hyh. lia. }
  rewrite Eput in *. exists s', y, sy, my, l', r'. split; [done|]. split; [done|].
  rewrite Sa in B. rewrite Sb in Bits. rewrite Sc in Sm.
  apply (unlinked _ _ _ _ _ x sz); try done; [lia|by rewrite plug_leaf; destruct C|..].
  - eapply agrees_trans; (eapply agrees_weaken; [eassumption|]); intros z; [|by rewrite Hperm].
    rewrite addrs_plug. cbn [addrs app]. set_solver.
  - eapply trie_plug; [| |exact T3].
    + intros z. by apply (lift_sizes x sz y sy my l r l' r').
    + intros k. by apply lift_trie.
  - intros z. rewrite !(sizes_plug C (Node _ _ _ _ _)). intros [Hz|Hz]; [by left|right].
    by apply (lift_sizes x sz y sy my l r l' r').
  - rewrite !chunks_plug, Hch. solve_Permutation.
Qed.

(** [unlink_large_chunk] removes exactly the given chunk from the trie of its bin. *)
Lemma unlink_large_ok s i t x sz :
  0 <= i < NTreeBins -> tree_ok s i t -> (x, sz) ∈ chunks_of t ->
  exists s' t', unlink_large_chunk x s = Ok (tt, s') /\
    tree_step s s' i (fun q => q ∈ addrs t) /\ tree_ok s' i t' /\
    chunks_of t ≡ₚ (x, sz) :: chunks_of t'.
Proof.
  intros Hi Hok Hx. apply in_tree in Hx as (C & a & mates & l & r & -> & Hx).
  apply elem_of_cons in Hx as [<-|Hx].
  - destruct (exists_last_or_nil mates) as [->|(m & y & ->)].
    + destruct (decide (is_leaf l = true /\ is_leaf r = true)) as [[El Er]|Hne].
      * destruct l, r; try done. destruct (unlink_leaf s i C x sz Hi Hok) as (s' & E & St & Ok').
        exists s', (plug C Leaf). splits; try done. rewrite !chunks_plug. cbn. solve_Permutation.
      * destruct (unlink_inner s i C x sz l r Hi Hok) as (s' & y & sy & my & l' & r' & E & HL & St & Ok').
        { destruct l; [|by left]. destruct r; [|by right]. exfalso. naive_solver. }
        exists s', (plug C (Node y sy my l' r')). splits; try done.
        rewrite !chunks_plug, (lift_chunks x sz _ _ _ _ _ _ _ HL). solve_Permutation.
    + destruct (unlink_ringed s i C x sz m y l r Hi Hok) as (s' & E & St & Ok').
      exists s', (plug C (Node y sz m l r)). splits; try done.
      rewrite !chunks_plug. cbn [chunks_of]. rewrite app_comm_cons, !fmap_app. cbn. solve_Permutation.
  - apply list_elem_of_split in Hx as (m1 & m2 & ->).
    destruct (unlink_mate s i C a sz m1 x m2 l r Hi Hok) as (s' & E & St & Ok').
    exists s', (plug C (Node a sz (m1 ++ m2) l r)). splits; try done.
    rewrite !chunks_plug. cbn [chunks_of]. rewrite !app_comm_cons, !fmap_app. cbn. solve_Permutation.
Qed.
End Unlink.
