(* ===== verification/FreeLists.v ===== *)
(** * The free lists as a finite map

    The small bins and the tree bins together hold a set of free chunks: [binned s F]
    says that the chunks in the bins of the state [s] are those of the map [F] from
    bodies to sizes.  [insert_chunk] and [unlink_chunk] are insertion and deletion in
    [F], whatever the size; [bins_frame] says what they leave alone.  This is the
    interface through which the rest of the allocator uses the bins. *)

From S2P Require Import Prelude LinkedList AllocSizes ChunkHeader MState Bins SmallBins TreeBins TreeUnlink.

Record bins : Type := mkBins { small : Z -> list Z; tre : Z -> tree }.

Definition fupd {A} (i : Z) (v : A) (f : Z -> A) (j : Z) : A := if j =? i then v else f j.

Lemma fupd_same {A} i (v : A) f : fupd i v f i = v.
Proof. unfold fupd. by rewrite Z.eqb_refl. Qed.

Lemma fupd_other {A} i j (v : A) f : j <> i -> fupd i v f j = f j.
Proof. intros. unfold fupd. by rewrite (proj2 (Z.eqb_neq j i)). Qed.

Section FreeLists.
Context `{EnvOk}.
Implicit Types (s : MState) (F : gmap Z Z).

(** The bit maps have no bits beyond the bins. *)
Definition maps_ok s : Prop :=
  (forall j, NSmallBins <= j -> Z.testbit (smallmap s) j = false) /\
  (forall j, NTreeBins <= j -> Z.testbit (treemap s) j = false).

Record bins_ok s (g : bins) : Prop := {
  bo_small : forall i, 0 <= i < NSmallBins -> small_ok s i (small g i);
  bo_tree : forall i, 0 <= i < NTreeBins -> tree_ok s i (tre g i);
  bo_maps : maps_ok s;
}.

(** The free chunk [b] of size [sz] is in one of the bins. *)
Definition held (g : bins) (b sz : Z) : Prop :=
  (exists i, 0 <= i < NSmallBins /\ b ∈ small g i /\ sz = small_index2size i) \/
  (exists i, 0 <= i < NTreeBins /\ (b, sz) ∈ chunks_of (tre g i)).

Definition binned s F : Prop :=
  exists g, bins_ok s g /\ forall b sz, F !! b = Some sz <-> held g b sz.

(** The sizes of chunks that can be free. *)
Definition size_ok (sz : Z) : Prop := MinChunkSize <= sz <= MaxChunkSize /\ sz mod 8 = 0.

(** Only the bins changed, and in them only the cells of [A] and the sentinels. *)
Definition bins_frame s s' (A : Z -> Prop) : Prop :=
  only_bins s s' /\
  keeps (rings s) (rings s') (fun q => ~ A q /\ forall i, 0 <= i < NSmallBins -> q <> smallbin_at i).

Lemma bins_frame_trans s1 s2 s3 A :
  bins_frame s1 s2 A -> bins_frame s2 s3 A -> bins_frame s1 s3 A.
Proof.
  intros [O1 K1] [O2 K2]. split; [by eapply only_bins_trans|].
  intros q Hq. destruct (K1 q Hq), (K2 q Hq). split; congruence.
Qed.

Lemma bins_frame_weaken s s' (A B : Z -> Prop) :
  bins_frame s s' A -> (forall q, A q -> B q) -> bins_frame s s' B.
Proof. intros [O K] HAB. split; [done|]. intros q [Hq Hs]. apply K. naive_solver. Qed.

Lemma bins_frame_refl s A : bins_frame s s A.
Proof. split; [apply only_bins_refl|]. by intros q _. Qed.

(** ** Chunks are in one place *)

Lemma small_chunk s i l b : small_ok s i l -> b ∈ l -> chunk_of s b (small_index2size i).
Proof. intros (_ & Hc & _) Hb. rewrite Forall_forall in Hc. by apply Hc. Qed.

Lemma tree_chunk s i t b sz : tree_ok s i t -> (b, sz) ∈ chunks_of t -> chunk_of s b sz /\ in_bin i sz.
Proof.
  intros (_ & Hr & _ & _ & Hs & _) Hb. split; [by eapply tree_rep_chunk|].
  apply in_tree in Hb as (C & a & mates & l & r & -> & _).
  rewrite Forall_forall in Hs. apply Hs. apply sizes_plug. right. left.
Qed.

Lemma chunk_of_fun s b x y : chunk_of s b x -> chunk_of s b y -> x = y.
Proof. intros (_ & h & E & <-) (_ & h' & E' & <-). congruence. Qed.

Lemma held_chunk s g b sz : bins_ok s g -> held g b sz -> chunk_of s b sz.
Proof.
  intros [Hs Ht HM] [(i & Hi & Hb & ->)|(i & Hi & Hb)].
  - eapply small_chunk; [by apply Hs|done].
  - eapply tree_chunk; [by apply Ht|done].
Qed.

Lemma binned_chunk s F b sz : binned s F -> F !! b = Some sz -> chunk_of s b sz.
Proof. intros (g & Hg & HF) Hb%HF. by eapply held_chunk. Qed.

Lemma small_size_inj i j : 0 <= i < NSmallBins -> 0 <= j < NSmallBins ->
  small_index2size i = small_index2size j -> i = j.
Proof. unfold NSmallBins. intros Hi Hj. rewrite !small_size_of by done. lia. Qed.

Lemma small_size_max i : 0 <= i < NSmallBins -> small_index2size i <= MaxSmallSize.
Proof. unfold NSmallBins. intros Hi. rewrite small_size_of by done. change MaxSmallSize with 64. lia. Qed.

(** A chunk of the small bin [i] is in no other small bin and in no tree. *)
Lemma small_apart s g i b : bins_ok s g -> 0 <= i < NSmallBins -> chunk_of s b (small_index2size i) ->
  (forall j, 0 <= j < NSmallBins -> j <> i -> b ∉ small g j) /\
  (forall j, 0 <= j < NTreeBins -> b ∉ addrs (tre g j)).
Proof.
  intros [Hs Ht HM] Hi Hc. split.
  - intros j Hj Hne Hb. apply Hne. eapply small_size_inj; [done|done|].
    eapply chunk_of_fun; [|done]. eapply small_chunk; [by apply Hs|done].
  - intros j Hj Hb. rewrite addrs_chunks in Hb. apply list_elem_of_fmap in Hb as ([b' sz] & -> & Hb).
    apply (tree_chunk s j) in Hb as [Hc' [_ Hb]]; [|by apply Ht].
    pose proof (chunk_of_fun _ _ _ _ Hc Hc'). pose proof (small_size_max i Hi). cbn in *. lia.
Qed.

(** A chunk of the tree [i] is in no small bin and in no other tree. *)
Lemma tree_apart s g i b sz : bins_ok s g -> 0 <= i < NTreeBins -> chunk_of s b sz -> in_bin i sz ->
  (forall j, 0 <= j < NSmallBins -> b ∉ small g j) /\
  (forall j, 0 <= j < NTreeBins -> j <> i -> b ∉ addrs (tre g j)).
Proof.
  intros [Hs Ht HM] Hi Hc [Hbi Hsz]. split.
  - intros j Hj Hb. pose proof (small_chunk _ _ _ _ (Hs j Hj) Hb) as Hc'.
    pose proof (chunk_of_fun _ _ _ _ Hc Hc'). pose proof (small_size_max j Hj). lia.
  - intros j Hj Hne Hb. rewrite addrs_chunks in Hb. apply list_elem_of_fmap in Hb as ([b' sz'] & -> & Hb).
    apply (tree_chunk s j) in Hb as [Hc' [Hbj _]]; [|by apply Ht].
    cbn in *. rewrite (chunk_of_fun _ _ _ _ Hc Hc') in Hbi. congruence.
Qed.

(** A sentinel is not a body. *)
Lemma sentinel_not_body i b : 0 <= i < NSmallBins -> in_heap b -> b <> smallbin_at i.
Proof.
  unfold NSmallBins, smallbin_at. intros Hi [Hb _]. pose proof ms_below. lia.
Qed.

Lemma smallbin_at_inj i j : smallbin_at i = smallbin_at j -> i = j.
Proof. unfold smallbin_at. lia. Qed.

(** ** One bin changes, the others stay *)

Lemma bin_step_agrees s s' i A :
  bin_step s s' i (fun q => q ∉ smallbin_at i :: A) ->
  agrees (fun q => q ∈ smallbin_at i :: A) s s' /\ treebins s' = treebins s /\ treemap s' = treemap s.
Proof.
  intros (r & m & -> & Hk & _). splits; [|done..]. split; [|done|done].
  by exists r, (tchunks s), (treebins s), m, (treemap s).
Qed.

Lemma bins_small s s' g i l' A :
  bins_ok s g -> 0 <= i < NSmallBins -> small_ok s' i l' ->
  bin_step s s' i (fun q => q ∉ smallbin_at i :: A) ->
  Forall (fun b => chunk_of s b (small_index2size i)) A ->
  bins_ok s' (mkBins (fupd i l' (small g)) (tre g)) /\ bins_frame s s' (fun q => q ∈ A).
Proof.
  intros Hg Hi Hl Hst HA. pose proof Hg as [Hs Ht HM]. rewrite Forall_forall in HA.
  destruct (bin_step_agrees _ _ _ _ Hst) as (Ag & B & M). split; [split|].
  - intros j Hj. cbn [small]. destruct (decide (j = i)) as [->|Hne]; [by rewrite fupd_same|].
    rewrite fupd_other by done. eapply small_ok_step; [exact Hst|lia|done| |by apply Hs].
    intros q Hq Hq'. apply elem_of_cons in Hq as [->|Hq]; apply elem_of_cons in Hq' as [Hq'|Hq'].
    + by apply Hne, smallbin_at_inj.
    + destruct (HA _ Hq') as [Hh _]. by apply (sentinel_not_body j _ Hj Hh).
    + pose proof (small_chunk _ _ _ _ (Hs j Hj) Hq) as [Hh _].
      by apply (sentinel_not_body i _ Hi Hh).
    + by apply (proj1 (small_apart s g i q Hg Hi (HA q Hq')) j Hj Hne).
  - intros j Hj. cbn [tre]. destruct (Ht j Hj) as (T1 & T2 & T3 & T4 & T5 & T6 & T7).
    unfold tree_ok. rewrite B, M. splits; try done; [|apply T7..].
    eapply tree_rep_frame; [exact Ag| |done]. intros q Hq [->|Hq']%elem_of_cons.
    + by apply (sentinel_not_body i _ Hi (tree_rep_addr _ _ _ _ _ T2 Hq)).
    + by apply (proj2 (small_apart s g i q Hg Hi (HA q Hq')) j Hj).
  - destruct HM as [Ms Mt]. destruct Hst as (r & m & -> & _ & _ & Hm).
    split; [|exact Mt]. unfold NSmallBins in *. intros j Hj. cbn [smallmap with_rings with_maps].
    rewrite Hm by lia. by apply Ms.
  - split; [apply Ag|]. intros q [Hq Hsen]. apply (ag_rings _ _ _ Ag).
    intros [->|?]%elem_of_cons; [by apply (Hsen i Hi)|done].
Qed.

Lemma bins_tree s s' g i t' (A : Z -> Prop) :
  bins_ok s g -> 0 <= i < NTreeBins -> tree_ok s' i t' -> tree_step s s' i A ->
  (forall q, A q -> exists sz, chunk_of s q sz /\ in_bin i sz) ->
  bins_ok s' (mkBins (small g) (fupd i t' (tre g))) /\ bins_frame s s' A.
Proof.
  intros Hg Hi Hl Hst HA. pose proof Hg as [Hs Ht HM]. pose proof Hst as (Ag & Sm & _). split; [split|].
  - intros j Hj. cbn [small]. destruct (Hs j Hj) as (S1 & S2 & S3 & S4).
    unfold small_ok. rewrite Sm. splits; [| |done|apply S4..].
    + eapply ring_frame; [exact S1|]. intros q Hq. apply (ag_rings _ _ _ Ag). intros HAq.
      destruct (HA q HAq) as (sz & Hc & Hin). apply elem_of_cons in Hq as [->|Hq].
      * by apply (sentinel_not_body j _ Hj (proj1 Hc)).
      * by apply (proj1 (tree_apart s g i q sz Hg Hi Hc Hin) j Hj).
    + eapply Forall_impl; [exact S2|]. intros b Hb.
      apply (chunk_of_only s s'); [apply Ag|done].
  - intros j Hj. cbn [tre]. destruct (decide (j = i)) as [->|Hne]; [by rewrite fupd_same|].
    rewrite fupd_other by done. eapply tree_ok_step; [exact Hst|lia|done| |by apply Ht].
    intros q Hq HAq. destruct (HA q HAq) as (sz & Hc & Hin).
    by apply (proj2 (tree_apart s g i q sz Hg Hi Hc Hin) j Hj Hne).
  - destruct HM as [Ms Mt]. destruct Hst as (_ & _ & _ & Hm & _).
    split; [by rewrite Sm|]. unfold NTreeBins in *. intros j Hj. rewrite Hm by lia. by apply Mt.
  - split; [apply Ag|]. intros q [Hq _]. by apply (ag_rings _ _ _ Ag).
Qed.

(** ** Insertion and removal *)

Lemma size_class sz : size_ok sz ->
  (sz <= MaxSmallSize /\ is_small sz = true /\
   exists i, 1 <= i < NSmallBins /\ small_index2size i = sz) \/
  (is_small sz = false /\ exists i, 0 <= i < NTreeBins /\ in_bin i sz).
Proof.
  intros [Hsz H8]. change MinChunkSize with 16 in Hsz. change MaxChunkSize with 524280 in Hsz.
  destruct (small_bins sz ltac:(lia)) as [Hsmall Hidx]. change MaxSmallSize with 64 in *.
  destruct (Z.leb_spec sz 64) as [Hle|Hgt].
  - left. splits; [done|by apply Hsmall|]. exists (small_index sz). split; [|by apply Hidx].
    rewrite small_index_ceil by lia. unfold NSmallBins.
    pose proof (Z.div_le_lower_bound (sz - 1) 8 1). pose proof (Z.div_lt_upper_bound (sz - 1) 8 8). lia.
  - right. split; [destruct (is_small sz); [|done]; exfalso; specialize (proj1 Hsmall eq_refl); lia|].
    destruct (tree_index_spec debug sz ltac:(lia)) as (i & E & Hi & _).
    exists i. split; [done|]. split; [done|]. change MaxSmallSize with 64. lia.
Qed.

(** Where a free chunk is, by its size. *)
Lemma held_small g s b i : bins_ok s g -> 0 <= i < NSmallBins -> held g b (small_index2size i) ->
  b ∈ small g i.
Proof.
  intros [Hs Ht HM] Hi [(j & Hj & Hb & E)|(j & Hj & Hb)].
  - by rewrite (small_size_inj i j Hi Hj E).
  - apply (tree_chunk s j) in Hb as [_ [_ Hb]]; [|by apply Ht].
    pose proof (small_size_max i Hi). lia.
Qed.

Lemma held_tree g s b i sz : bins_ok s g -> 0 <= i < NTreeBins -> in_bin i sz -> held g b sz ->
  (b, sz) ∈ chunks_of (tre g i).
Proof.
  intros [Hs Ht HM] Hi [Hin Hsz] [(j & Hj & Hb & ->)|(j & Hj & Hb)].
  - pose proof (small_size_max j Hj). lia.
  - pose proof Hb as Hb'. apply (tree_chunk s j) in Hb as [_ [Hj' _]]; [|by apply Ht].
    replace i with j; [done|congruence].
Qed.

(** The abstract effect on [held] of a change of one bin. *)
Lemma held_fupd_small g i l' b sz :
  held (mkBins (fupd i l' (small g)) (tre g)) b sz <->
  (0 <= i < NSmallBins /\ b ∈ l' /\ sz = small_index2size i) \/
  (exists j, 0 <= j < NSmallBins /\ j <> i /\ b ∈ small g j /\ sz = small_index2size j) \/
  (exists j, 0 <= j < NTreeBins /\ (b, sz) ∈ chunks_of (tre g j)).
Proof.
  unfold held. cbn [small tre]. split.
  - intros [(j & Hj & Hb & ->)|?]; [|by right; right].
    destruct (decide (j = i)) as [->|Hne]; [rewrite fupd_same in Hb; by left|].
    rewrite fupd_other in Hb by done. right. left. by exists j.
  - intros [(Hi & Hb & ->)|[(j & Hj & Hne & Hb & ->)|?]]; [left|left|by right].
    + exists i. by rewrite fupd_same.
    + exists j. by rewrite fupd_other.
Qed.

Lemma held_fupd_tree g i t' b sz :
  held (mkBins (small g) (fupd i t' (tre g))) b sz <->
  (0 <= i < NTreeBins /\ (b, sz) ∈ chunks_of t') \/
  (exists j, 0 <= j < NSmallBins /\ b ∈ small g j /\ sz = small_index2size j) \/
  (exists j, 0 <= j < NTreeBins /\ j <> i /\ (b, sz) ∈ chunks_of (tre g j)).
Proof.
  unfold held. cbn [small tre]. split.
  - intros [?|(j & Hj & Hb)]; [by right; left|].
    destruct (decide (j = i)) as [->|Hne]; [rewrite fupd_same in Hb; by left|].
    rewrite fupd_other in Hb by done. right. right. by exists j.
  - intros [(Hi & Hb)|[?|(j & Hj & Hne & Hb)]]; [right|by left|right].
    + exists i. by rewrite fupd_same.
    + exists j. by rewrite fupd_other.
Qed.

Lemma binned_insert s' F g g' b sz :
  F !! b = None -> bins_ok s' g' -> (forall b z, F !! b = Some z <-> held g b z) ->
  (forall b' z, held g' b' z <-> (b' = b /\ z = sz) \/ held g b' z) -> binned s' (<[b := sz]> F).
Proof.
  intros HFb Hg HF Hh. exists g'. split; [done|]. intros b' z. rewrite Hh, <- HF.
  destruct (decide (b' = b)) as [->|Hne].
  - rewrite lookup_insert_eq, HFb. naive_solver.
  - rewrite lookup_insert_ne by done. naive_solver.
Qed.

Lemma binned_delete s' F g g' b :
  bins_ok s' g' -> (forall b z, F !! b = Some z <-> held g b z) ->
  (forall b' z, held g' b' z <-> b' <> b /\ held g b' z) -> binned s' (delete b F).
Proof.
  intros Hg HF Hh. exists g'. split; [done|]. intros b' z. rewrite Hh, <- HF.
  destruct (decide (b' = b)) as [->|Hne].
  - rewrite lookup_delete_eq. naive_solver.
  - rewrite lookup_delete_ne by done. naive_solver.
Qed.

Lemma insert_chunk_ok s F p sz :
  binned s F -> F !! body p = None -> chunk_of s (body p) sz -> size_ok sz ->
  exists s', insert_chunk p sz s = Ok (tt, s') /\ binned s' (<[body p := sz]> F) /\
    bins_frame s s' (fun q => is_Some (F !! q) \/ q = body p).
Proof.
  intros (g & Hg & HF) Hn Hc Hsz. unfold insert_chunk. pose proof Hg as [Hs Ht HM].
  destruct (size_class sz Hsz) as [(_ & -> & i & Hi & <-)|(-> & i & Hi & Hin)].
  - assert (0 <= i < NSmallBins) as Hi' by lia.
    destruct (insert_small_ok s i (small g i) p) as (s' & E & Hl & Hst);
      [done|by apply Hs|apply Hc| |done|].
    { intros Hb. assert (F !! body p = Some (small_index2size i)); [|congruence].
      apply HF. left. by exists i. }
    destruct (bins_small s s' g i _ (small g i ++ [body p]) Hg Hi' Hl Hst) as [Hg' Hf].
    { apply Forall_app. split; [apply Hs, Hi'|]. by apply Forall_singleton. }
    exists s'. splits; [done| |].
    + eapply binned_insert; [done|exact Hg'|exact HF|]. intros b' z.
      rewrite held_fupd_small. unfold held. rewrite elem_of_app, list_elem_of_singleton.
      split; [naive_solver|]. intros [[-> ->]|[(j & Hj & Hb & ->)|?]]; [naive_solver| |naive_solver].
      destruct (decide (j = i)) as [->|]; naive_solver.
    + eapply bins_frame_weaken; [exact Hf|]. intros q [Hq|Hq%list_elem_of_singleton]%elem_of_app.
      * left. exists (small_index2size i). apply HF. left. by exists i.
      * by right.
  - destruct (insert_large_ok s i (tre g i) p sz) as (s' & E & Hst & Hok); [done|by apply Ht|done| |done|].
    { intros Hb. rewrite addrs_chunks in Hb. apply list_elem_of_fmap in Hb as ([b z] & E & Hb).
      assert (F !! body p = Some z); [|congruence]. apply HF. right. exists i. by rewrite E. }
    destruct (Ht i Hi) as (_ & _ & T3 & _ & T5 & _).
    assert (Forall (agree (bin_bits i) sz) (sizes (tre g i))) as Hag.
    { eapply Forall_impl; [exact T5|]. intros z Hz. by apply bin_agree. }
    pose proof (chunks_insert (bin_bits i) sz (body p) (tre g i) Hag T3) as Hch.
    destruct (bins_tree s s' g i _ _ Hg Hi Hok Hst) as [Hg' Hf].
    { intros q [->|Hq]; [by exists sz|]. rewrite addrs_chunks in Hq.
      apply list_elem_of_fmap in Hq as ([b z] & -> & Hq). exists z. eapply tree_chunk; [by apply Ht|done]. }
    exists s'. splits; [done| |].
    + eapply binned_insert; [done|exact Hg'|exact HF|]. intros b' z.
      rewrite held_fupd_tree, Hch, elem_of_cons. unfold held.
      split; [naive_solver|]. intros [[-> ->]|[?|(j & Hj & Hb)]]; [naive_solver..|].
      destruct (decide (j = i)) as [->|]; naive_solver.
    + eapply bins_frame_weaken; [exact Hf|]. intros q [->|Hq]; [by right|left].
      rewrite addrs_chunks in Hq. apply list_elem_of_fmap in Hq as ([b z] & -> & Hq).
      exists z. apply HF. right. by exists i.
Qed.

(** A small bin lost the chunk [b]. *)
Lemma small_removed s s' g F i l1 b l2 :
  bins_ok s g -> (forall b z, F !! b = Some z <-> held g b z) -> 0 <= i < NSmallBins ->
  small g i = l1 ++ b :: l2 -> small_ok s' i (l1 ++ l2) ->
  bin_step s s' i (fun q => q ∉ smallbin_at i :: l1 ++ b :: l2) ->
  binned s' (delete b F) /\ bins_frame s s' (fun q => is_Some (F !! q)).
Proof.
  intros Hg HF Hi El Hl' Hst. pose proof (bo_small _ _ Hg i Hi) as Hl. rewrite El in Hl.
  pose proof Hl as (Hr & HA & _). apply ring_NoDup, NoDup_cons in Hr as [_ Hnd].
  assert (chunk_of s b (small_index2size i)) as Hc by (eapply small_chunk; [done|set_solver]).
  destruct (bins_small s s' g i _ _ Hg Hi Hl' Hst HA) as [Hg' Hf]. split.
  - eapply binned_delete; [exact Hg'|exact HF|]. intros b' z. rewrite held_fupd_small.
    destruct (small_apart s g i b Hg Hi Hc) as [Ap1 Ap2].
    assert (forall x, x ∈ l1 ++ l2 <-> x <> b /\ x ∈ small g i) as Hrem.
    { intros x. rewrite El. apply NoDup_app in Hnd as (_ & H1 & H2).
      apply NoDup_cons in H2 as [H2 _]. specialize (H1 b). set_solver. }
    unfold held. rewrite Hrem. split.
    + intros [(_ & [Hne Hx] & ->)|[(j & Hj & Hne & Hx & ->)|(j & Hj & Hx)]].
      * split; [done|]. left. by exists i.
      * split; [|left; by exists j]. intros ->. by apply (Ap1 j Hj Hne).
      * split; [|right; by exists j]. intros ->. apply (Ap2 j Hj). rewrite addrs_chunks.
        apply list_elem_of_fmap. by exists (b, z).
    + intros [Hne [(j & Hj & Hx & ->)|(j & Hj & Hx)]]; [|by right; right; exists j].
      destruct (decide (j = i)) as [->|Hji]; [by left|]. right. left. by exists j.
  - eapply bins_frame_weaken; [exact Hf|]. intros q Hq. exists (small_index2size i).
    apply HF. left. exists i. by rewrite El.
Qed.

(** The first chunk of a small bin is taken. *)
Lemma unlink_first_ok s g F i b l :
  bins_ok s g -> (forall b z, F !! b = Some z <-> held g b z) -> 0 <= i < NSmallBins ->
  small g i = b :: l ->
  exists s', unlink_first_small_chunk i s = Ok (from_body b, s') /\
    F !! b = Some (small_index2size i) /\ binned s' (delete b F) /\
    bins_frame s s' (fun q => is_Some (F !! q)).
Proof.
  intros Hg HF Hi El. pose proof (bo_small _ _ Hg i Hi) as Hl. rewrite El in Hl.
  destruct (unlink_first_small_ok s i b l Hi Hl) as (s' & E & Hl' & Hst).
  exists s'. split; [done|]. split; [|by apply (small_removed s s' g F i [] b l)].
  apply HF. left. exists i. rewrite El. split; [done|]. split; [left|done].
Qed.

Lemma unlink_chunk_ok s F b sz :
  binned s F -> F !! b = Some sz -> size_ok sz ->
  exists s', unlink_chunk b sz s = Ok (tt, s') /\ binned s' (delete b F) /\
    bins_frame s s' (fun q => is_Some (F !! q)).
Proof.
  intros (g & Hg & HF) Hb Hsz. unfold unlink_chunk. pose proof Hg as [Hs Ht HM]. apply HF in Hb.
  pose proof (held_chunk _ _ _ _ Hg Hb) as Hc.
  destruct (size_class sz Hsz) as [(_ & -> & i & Hi & <-)|(-> & i & Hi & Hin)].
  - assert (0 <= i < NSmallBins) as Hi' by lia.
    pose proof (held_small _ _ _ _ Hg Hi' Hb) as Hin.
    apply list_elem_of_split in Hin as (l1 & l2 & El). pose proof (Hs i Hi') as Hl. rewrite El in Hl.
    destruct (unlink_small_ok s i l1 b l2) as (s' & E & Hl' & Hst); [done|done|].
    exists s'. split; [done|]. by eapply small_removed.
  - pose proof (held_tree _ _ _ _ _ Hg Hi Hin Hb) as Hbt.
    destruct (unlink_large_ok s i (tre g i) b sz Hi (Ht i Hi) Hbt) as (s' & t' & E & Hst & Hok & Hch).
    destruct (bins_tree s s' g i _ _ Hg Hi Hok Hst) as [Hg' Hf].
    { intros q Hq. rewrite addrs_chunks in Hq.
      apply list_elem_of_fmap in Hq as ([b' z] & -> & Hq). exists z. eapply tree_chunk; [by apply Ht|done]. }
    assert (b ∉ (chunks_of t').*1) as Hnb.
    { destruct (Ht i Hi) as (_ & _ & _ & T4 & _). rewrite addrs_chunks, Hch in T4.
      by apply NoDup_cons in T4 as [T4 _]. }
    exists s'. splits; [done| |].
    + eapply binned_delete; [exact Hg'|exact HF|]. intros b' z. rewrite held_fupd_tree.
      destruct (tree_apart s g i b sz Hg Hi Hc Hin) as [Ap1 Ap2]. unfold held. split.
      * intros [(_ & Hx)|[(j & Hj & Hx & ->)|(j & Hj & Hne & Hx)]].
        -- split; [|right; exists i; split; [done|]; rewrite Hch; by right].
           intros ->. apply Hnb, list_elem_of_fmap. by exists (b, z).
        -- split; [|left; by exists j]. intros ->. by apply (Ap1 j Hj).
        -- split; [|right; by exists j]. intros ->. apply (Ap2 j Hj Hne). rewrite addrs_chunks.
           apply list_elem_of_fmap. by exists (b, z).
      * intros [Hne [?|(j & Hj & Hx)]]; [by right; left|].
        destruct (decide (j = i)) as [->|Hji]; [|by right; right; exists j].
        left. split; [done|]. rewrite Hch in Hx. by apply elem_of_cons in Hx as [[= ? ?]|Hx].
    + eapply bins_frame_weaken; [exact Hf|]. intros q Hq. rewrite addrs_chunks in Hq.
      apply list_elem_of_fmap in Hq as ([b' z] & -> & Hq). exists z. apply HF. right. by exists i.
Qed.

(** ** What the free lists depend on *)

(** The cells of the bins: the free chunks and the sentinels. *)
Definition bin_cell F (q : Z) : Prop :=
  is_Some (F !! q) \/ exists i, 0 <= i < NSmallBins /\ q = smallbin_at i.

Lemma tree_rep_same s s' i p t :
  keeps (rings s) (rings s') (fun q => q ∈ addrs t) ->
  (forall q, q ∈ addrs t -> tchunks s' !! q = tchunks s !! q) ->
  (forall b sz, (b, sz) ∈ chunks_of t -> chunk_of s' b sz) ->
  tree_rep s i p t -> tree_rep s' i p t.
Proof.
  revert p. induction t as [|a sz mates l IHl r IHr]; intros p Hk Ht Hc; [done|].
  cbn [addrs chunks_of] in *. intros ((Ha & Hr & Hm & Hch) & Rl & Rr). split; [|split].
  - unfold node_rep. splits.
    + rewrite Ht; [done|]. apply elem_of_app. left. left.
    + eapply ring_frame; [done|]. intros q Hq. apply Hk. apply elem_of_app. by left.
    + rewrite Forall_forall in Hm |- *. intros m Hin. rewrite Ht; [by apply Hm|].
      apply elem_of_app. left. by right.
    + apply Forall_forall. intros b Hb. apply Hc. apply elem_of_app. left.
      apply list_elem_of_fmap. by exists b.
  - apply IHl; [| |intros; apply Hc; set_solver|done]; intros q Hq; [apply Hk|apply Ht]; set_solver.
  - apply IHr; [| |intros; apply Hc; set_solver|done]; intros q Hq; [apply Hk|apply Ht]; set_solver.
Qed.

(** The bins hold the same chunks in a state with the same cells at the free chunks and
    the same maps, in which these chunks still have their sizes. *)
Lemma binned_frame s s' F :
  keeps (rings s) (rings s') (bin_cell F) ->
  (forall q, is_Some (F !! q) -> tchunks s' !! q = tchunks s !! q) ->
  treebins s' = treebins s -> smallmap s' = smallmap s -> treemap s' = treemap s ->
  (forall b sz, F !! b = Some sz -> chunk_of s' b sz) -> binned s F -> binned s' F.
Proof.
  intros Hk Hn Hb Hsm Htm Hc (g & [Hs Ht HM] & HF). exists g. split; [|done]. split.
  - intros i Hi. destruct (Hs i Hi) as (S1 & S2 & S3 & S4). unfold small_ok. rewrite Hsm.
    splits; [| |done|apply S4..].
    + eapply ring_frame; [exact S1|]. intros q [->|Hq]%elem_of_cons; apply Hk.
      * right. by exists i.
      * left. exists (small_index2size i). apply HF. left. by exists i.
    + apply Forall_forall. intros b Hin. apply Hc, HF. left. by exists i.
  - intros i Hi. destruct (Ht i Hi) as (T1 & T2 & T3 & T4 & T5 & T6 & T7).
    assert (forall q, q ∈ addrs (tre g i) -> is_Some (F !! q)) as Hq.
    { intros q Hq. rewrite addrs_chunks in Hq. apply list_elem_of_fmap in Hq as ([b z] & -> & Hq).
      exists z. apply HF. right. by exists i. }
    unfold tree_ok. rewrite Hb, Htm. splits; try done; [|apply T7..].
    eapply tree_rep_same; [| | |exact T2].
    + intros q Hin. apply Hk. left. by apply Hq.
    + intros q Hin. by apply Hn, Hq.
    + intros b sz Hin. apply Hc, HF. right. by exists i.
  - unfold maps_ok. by rewrite Hsm, Htm.
Qed.

Lemma tree_well_formed s i p t b : tree_rep s i p t -> b ∈ addrs t ->
  is_well_formed (rings s) b = Some true.
Proof.
  revert p. induction t as [|a sz mates l IHl r IHr]; intros p; cbn [addrs]; [set_solver|].
  intros ((_ & Hr & _) & Rl & Rr). rewrite !elem_of_app. intros [Hb|[Hb|Hb]].
  - by eapply is_well_formed_ring.
  - by eapply IHl.
  - by eapply IHr.
Qed.

(** A chunk in the bins has a well formed ring link. *)
Lemma binned_well_formed s F b : binned s F -> is_Some (F !! b) ->
  is_well_formed (rings s) b = Some true.
Proof.
  intros (g & [Hs Ht HM] & HF) [sz [(i & Hi & Hb & _)|(i & Hi & Hb)]%HF].
  - destruct (Hs i Hi) as [S1 _]. eapply is_well_formed_ring; [exact S1|by right].
  - destruct (Ht i Hi) as (_ & T2 & _). eapply tree_well_formed; [exact T2|].
    rewrite addrs_chunks. apply list_elem_of_fmap. by exists (b, sz).
Qed.
End FreeLists.
