(* ===== verification/TreeSelect.v ===== *)
(** * Selection of a chunk of a tree

    The searches of [tmalloc_smallest] and [tmalloc_large] on the tries of [TreeBins]: the
    first finds a chunk of the least size that fits in the subtree, the second a
    node that fits, a subtree in which everything fits, or that nothing does. *)

From S2P Require Import Prelude LinkedList AllocSizes ChunkHeader MState Bins SmallBins TreeBins TreeUnlink FreeLists.

(** ** Sizes along the leftmost path *)

(** The sizes that [smallest_loop] looks at. *)
Fixpoint leftpath (t : tree) : list Z :=
  match t with
  | Leaf => []
  | Node _ sz _ l r => sz :: (if is_leaf l then leftpath r else leftpath l)
  end.

(** The bits from [n] on are bit [n] and those above. *)
Lemma div_bit v n : v / 2 ^ Z.of_nat n = 2 * (v / 2 ^ Z.of_nat (S n)) + Z.b2z (Z.testbit v (Z.of_nat n)).
Proof.
  assert (0 < 2 ^ Z.of_nat n) by (apply pow2_pos; lia).
  rewrite Z.testbit_spec' by lia. rewrite Nat2Z.inj_succ, Z.pow_succ_r by lia.
  rewrite (Z.mul_comm 2 (2 ^ _)), <- Z.div_div by lia. apply Z.div_mod. lia.
Qed.

Lemma agree_lt n x y : agree (S n) x y ->
  Z.testbit x (Z.of_nat n) = true -> Z.testbit y (Z.of_nat n) = false -> y < x.
Proof.
  unfold agree. intros Hd Hx Hy. pose proof (pow2_pos (Z.of_nat n) ltac:(lia)) as Hp.
  pose proof (div_bit x n) as Ex. pose proof (div_bit y n) as Ey. rewrite Hx in Ex. rewrite Hy in Ey.
  destruct (Z.ltb_spec y x) as [|Hle]; [done|].
  apply (Z.div_le_mono _ _ (2 ^ Z.of_nat n)) in Hle; [|done]. cbn [Z.b2z] in *. lia.
Qed.

(** The least size of a trie is on its leftmost path. *)
Lemma leftpath_least n t z :
  trie n t -> (forall x y, x ∈ sizes t -> y ∈ sizes t -> agree n x y) -> z ∈ sizes t ->
  exists y, y ∈ leftpath t /\ y <= z.
Proof.
  revert n. induction t as [|a sz mates l IHl r IHr]; intros n; cbn [trie sizes leftpath]; [set_solver|].
  destruct n as [|n].
  { intros [-> ->] _ Hz. exists sz. split; [left|]. cbn in Hz. apply list_elem_of_singleton in Hz. lia. }
  intros (Hl & Hr & _ & _ & Tl & Tr) Ha Hz. rewrite Forall_forall in Hl, Hr.
  assert (forall x y, x ∈ sizes l -> y ∈ sizes l -> agree n x y) as Al.
  { intros x y Hx Hy. apply agree_S; [apply Ha; set_solver|]. by rewrite (Hl x), (Hl y). }
  assert (forall x y, x ∈ sizes r -> y ∈ sizes r -> agree n x y) as Ar.
  { intros x y Hx Hy. apply agree_S; [apply Ha; set_solver|]. by rewrite (Hr x), (Hr y). }
  apply elem_of_cons in Hz as [->|[Hz|Hz]%elem_of_app]; [exists sz; split; [left|lia]| |].
  - destruct l as [|b sb mb ll lr]; [set_solver|]. cbn [is_leaf].
    destruct (IHl n Tl Al Hz) as (y & Hy & Hle). exists y. split; [by right|done].
  - destruct l as [|b sb mb ll lr]; cbn [is_leaf].
    + destruct (IHr n Tr Ar Hz) as (y & Hy & Hle). exists y. split; [by right|done].
    + exists sb. split; [right; left|]. enough (sb < z) by lia.
      apply (agree_lt n); [apply Ha|by apply Hr|apply Hl; left]; cbn [sizes]; set_solver.
Qed.

Lemma leftpath_sizes t z : z ∈ leftpath t -> z ∈ sizes t.
Proof.
  induction t as [|a sz mates l IHl r IHr]; cbn [leftpath sizes]; [done|].
  intros [->|Hz]%elem_of_cons; [left|right]. apply elem_of_app.
  destruct (is_leaf l); [right; by apply IHr|left; by apply IHl].
Qed.

(** A subtree is a trie of the bits below those its sizes agree on. *)
Lemma trie_sub_agree n C t : trie n (plug C t) ->
  (forall x y, x ∈ sizes (plug C t) -> y ∈ sizes (plug C t) -> agree n x y) ->
  exists m, trie m t /\ forall x y, x ∈ sizes t -> y ∈ sizes t -> agree m x y.
Proof.
  revert t. induction C as [|f C IH]; intros t Ht Ha; [by exists n|].
  destruct (IH (plug1 t f) Ht Ha) as (m & Hm & Am). clear Ht Ha.
  destruct m as [|m].
  { exists 0%nat. destruct f as [[] a sz mates sib]; cbn [plug1 trie] in Hm; destruct Hm as [E1 E2];
      subst; (split; [done|cbn; set_solver]). }
  exists m. destruct f as [[] a sz mates sib]; cbn [plug1 trie sizes] in Hm, Am;
    destruct Hm as (Hl & Hr & _ & _ & Tl & Tr); rewrite Forall_forall in Hl, Hr;
    (split; [done|]); intros x y Hx Hy; (apply agree_S; [apply Am; set_solver|]).
  - by rewrite (Hr x), (Hr y).
  - by rewrite (Hl x), (Hl y).
Qed.

Section Select.
Context `{EnvOk}.
Implicit Types (s : MState).

(** ** The smallest chunk that fits *)

(** The search started with [v] has found [v'], in [t] if it is another. *)
Definition found (t : tree) nb v rsize v' rsize' : Prop :=
  (v' = v /\ rsize' = rsize) \/
  (exists C sz mates l r, t = plug C (Node v' sz mates l r) /\ rsize' = u32 (sz - nb)).

Lemma found_below u f nb v rsize v' rsize' :
  found u nb v rsize v' rsize' -> found (plug1 u f) nb v rsize v' rsize'.
Proof.
  intros [?|(C & s1 & m1 & l1 & r1 & -> & ->)]; [by left|right].
  exists (C ++ [f]), s1, m1, l1, r1. by rewrite plug_app.
Qed.

Lemma found_root b sb mb ul ur f nb v rsize v' rsize' :
  found (Node b sb mb ul ur) nb b (u32 (sb - nb)) v' rsize' ->
  found (plug1 (Node b sb mb ul ur) f) nb v rsize v' rsize'.
Proof.
  intros [[-> ->]|Hf]; [|by apply found_below; right].
  right. by exists [f], sb, mb, ul, ur.
Qed.

Definition smallest_spec s (t : tree) nb fuel : Prop :=
  forall rsize v, exists rsize' v', smallest_loop fuel (root t) nb rsize v s = Ok ((rsize', v'), s) /\
    found t nb v rsize v' rsize' /\ rsize' <= rsize /\
    forall z, z ∈ tail (leftpath t) -> rsize' <= u32 (z - nb).

(** One step of the descent, to the child [u]. *)
Lemma smallest_step s i a u f nb fuel rsize v :
  tree_rep s i a u -> u <> Leaf -> smallest_spec s u nb fuel ->
  exists rsize' v', (if truth (root u) then
      tsize ← chunk_size (from_body (root u));
      if u32 (tsize - nb) <? rsize then smallest_loop fuel (root u) nb (u32 (tsize - nb)) (root u)
      else smallest_loop fuel (root u) nb rsize v
    else mret (rsize, v)) s = Ok ((rsize', v'), s) /\
    found (plug1 u f) nb v rsize v' rsize' /\ rsize' <= rsize /\
    forall z, z ∈ leftpath u -> rsize' <= u32 (z - nb).
Proof.
  intros Ru Hu IH. rewrite (root_truth _ _ _ _ Ru). destruct u as [|b sb mb ul ur]; [done|].
  cbn [negb root leftpath]. destruct Ru as ((_ & _ & _ & [Hc _]%Forall_cons) & _).
  mrun (chunk_size_ok _ _ _ Hc). destruct (Z.ltb_spec (u32 (sb - nb)) rsize) as [Hlt|Hge].
  - destruct (IH (u32 (sb - nb)) b) as (r1 & v1 & E & Hv & Hle & Hz).
    exists r1, v1. splits; [done|by apply found_root|lia|].
    intros z [->|Hin]%elem_of_cons; [done|by apply Hz].
  - destruct (IH rsize v) as (r1 & v1 & E & Hv & Hle & Hz).
    exists r1, v1. splits; [done|by apply found_below|lia|].
    intros z [->|Hin]%elem_of_cons; [lia|by apply Hz].
Qed.

Lemma smallest_loop_ok (t : tree) s i p nb fuel :
  tree_rep s i p t -> t <> Leaf -> (height t <= fuel)%nat -> smallest_spec s t nb fuel.
Proof.
  revert i p fuel. induction t as [|a sz mates l IHl r IHr]; intros i p fuel; [done|].
  intros (Hn & Rl & Rr) _ Hf rsize v. destruct fuel as [|fuel]; cbn [height] in Hf; [lia|].
  cbn [smallest_loop root]. destruct Hn as (Ha & _). mrun (tchunk_ok _ _ _ Ha).
  unfold leftmost_child. cbn [child0 child1]. rewrite (root_truth _ _ _ _ Rl). cbn [leftpath tail].
  destruct l as [|b sb mb ll lr]; cbn [is_leaf negb].
  - destruct r as [|b sb mb rl rr].
    + exists rsize, v. splits; [done|by left|lia|cbn; set_solver].
    + apply (smallest_step s i a (Node b sb mb rl rr) (Frame true a sz mates Leaf)); [done|done|].
      apply (IHr i a); [done|done|lia].
  - apply (smallest_step s i a (Node b sb mb ll lr) (Frame false a sz mates r)); [done|done|].
    apply (IHl i a); [done|done|lia].
Qed.

(** What [tmalloc_smallest] chooses below a node that fits: a chunk that fits, the
    smallest if everything below the node fits. *)
Lemma smallest_pick s g i C a sz mates l r nb :
  bins_ok s g -> 0 <= i < NTreeBins -> tre g i = plug C (Node a sz mates l r) -> 0 < nb <= sz ->
  exists rsize v b, smallest_loop tree_fuel a nb (u32 (sz - nb)) a s = Ok ((rsize, v), s) /\
    cell_next (rings s) v = Some b /\ (b, nb + rsize) ∈ chunks_of (Node a sz mates l r) /\
    0 <= rsize <= sz - nb /\
    (Forall (fun z => nb <= z) (sizes (Node a sz mates l r)) ->
      forall z, z ∈ sizes (Node a sz mates l r) -> nb + rsize <= z).
Proof.
  intros [_ Ht _] Hi Et Hnb. set (T := Node a sz mates l r) in *.
  destruct (Ht i Hi) as (T1 & T2 & T3 & T4 & T5 & _). rewrite Et in *.
  pose proof (ring_fuel_height i _ Hi T3) as Hh. pose proof (height_sub C T) as Hh'.
  apply tree_rep_plug in T2 as [_ T2].
  assert (forall z, z ∈ sizes T -> in_bin i z) as Hin.
  { rewrite Forall_forall in T5. intros z Hz. apply T5. rewrite sizes_plug. by right. }
  assert (forall z, z ∈ sizes T -> nb <= z -> u32 (z - nb) = z - nb) as Hu.
  { intros z Hz Hle. destruct (Hin z Hz) as [_ Hz']. apply wrap_small. lia. }
  assert (sz ∈ sizes T) as Hsz by left.
  destruct (smallest_loop_ok T s i _ nb tree_fuel T2 ltac:(done) ltac:(lia) (u32 (sz - nb)) a)
    as (r1 & v1 & E & Hf & Hle & Hz). rewrite (Hu sz) in * by (done || lia).
  assert (exists D (z1 : Z) m1 l1 rr1, T = plug D (Node v1 z1 m1 l1 rr1) /\ r1 = u32 (z1 - nb))
    as (D & z1 & m1 & l1 & rr1 & ET & Er).
  { destruct Hf as [[-> ->]|?]; [|done]. exists [], sz, mates, l, r. split; [done|].
    symmetry. by apply Hu; [|lia]. }
  assert (z1 ∈ sizes T) as Hs1 by (rewrite ET, sizes_plug; right; left).
  assert (nb <= z1) as Hs1'.
  { destruct (Z.leb_spec nb z1) as [|Hlt]; [done|]. exfalso. destruct (Hin z1 Hs1) as [_ Hb].
    destruct (Hin sz Hsz) as [_ Hb']. change MaxSmallSize with 64 in *.
    assert (u32 (z1 - nb) = z1 - nb + 2 ^ 32); [|lia]. unfold u32, wrap.
    symmetry. apply (Z.mod_unique _ _ (-1)); lia. }
  rewrite Er, (Hu z1) in * by done.
  pose proof T2 as T2'. rewrite ET in T2'. apply tree_rep_plug in T2' as [_ ((_ & Hr & _) & _)].
  destruct (ring_next _ _ _ Hr) as (b & Hb & Hn & _).
  exists (z1 - nb), v1, b. splits; [done|done| |lia|lia|].
  - rewrite ET, chunks_plug. apply elem_of_app. right. cbn [chunks_of]. apply elem_of_app. left.
    apply list_elem_of_fmap. exists b. split; [f_equal; lia|].
    clear -Hb. destruct m1 as [|m m1]; cbn in Hb; injection Hb as ->; [left|right; left].
  - intros Hall z Hin'. rewrite Forall_forall in Hall. 
    destruct (trie_sub_agree (bin_bits i) C T T3) as (n & Tn & An).
    { intros x y Hx Hy. rewrite Forall_forall in T5. apply (bin_agree i); [done|by apply T5|by apply T5]. }
    destruct (leftpath_least n T z Tn An Hin') as (y & Hy & Hle').
    cbn [leftpath T] in Hy. apply elem_of_cons in Hy as [->|Hy]; [lia|].
    specialize (Hz y Hy). assert (y ∈ sizes T) as Hys by (apply leftpath_sizes; by right).
    rewrite (Hu y Hys) in Hz by (by apply Hall). lia.
Qed.

(** ** The bin of the request *)

(** What [large_loop] may return for the tree [t]: with [v] = 0 in and out, it has
    a subtree in which everything fits, or nothing in [t] does and [rst] is unchanged. *)
Definition searched (t : tree) (nb v rst t' v' : Z) : Prop :=
  (v' <> 0 /\ (v' = v \/ exists C sz mates l r, t = plug C (Node v' sz mates l r) /\ nb <= sz)) \/
  (v' = 0 /\ v = 0 /\
    ((t' = rst /\ Forall (fun z => z < nb) (sizes t)) \/
     (exists C u, t = plug C u /\ u <> Leaf /\ t' = root u /\ Forall (fun z => nb <= z) (sizes u)))).

(** The state of the search: [v] = 0, or a chunk that fits was found. *)
Definition search_state (nb v rsize : Z) : Prop := (v = 0 /\ rsize = 2 ^ 32 - nb) \/ (v <> 0 /\ rsize < 2 ^ 32 - nb).

Lemma searched_below u f nb v rst t' v' :
  (v = 0 -> match f with Frame _ _ sz _ sib => sz < nb /\ Forall (fun z => z < nb) (sizes sib) end) ->
  searched u nb v rst t' v' -> searched (plug1 u f) nb v rst t' v'.
Proof.
  intros Hf [[Hv [->|(C & sz & m & l & r & -> & Hle)]]|(-> & -> & [[-> Hu]|(C & w & -> & Hw)])].
  - left. split; [done|by left].
  - left. split; [done|right]. exists (C ++ [f]), sz, m, l, r. by rewrite plug_app.
  - right. splits; [done|done|left]. split; [done|]. specialize (Hf eq_refl).
    destruct f as [[] a sz m sib]; cbn [plug1 sizes]; apply Forall_cons; (split; [apply Hf|]);
      apply Forall_app; tauto.
  - right. splits; [done|done|right]. exists (C ++ [f]), w. by rewrite plug_app.
Qed.

(** The left child was searched while everything in the right one fits. *)
Lemma searched_left a sz mates l r nb v rst t' v' :
  r <> Leaf -> Forall (fun z => nb <= z) (sizes r) -> (v = 0 -> sz < nb) ->
  searched l nb v (root r) t' v' -> searched (Node a sz mates l r) nb v rst t' v'.
Proof.
  intros Hne Hr Hsz [[Hv [->|(C & z & m & l1 & r1 & -> & Hle)]]|(-> & -> & [[-> Hu]|(C & w & -> & Hw)])].
  - left. split; [done|by left].
  - left. split; [done|right]. exists (C ++ [Frame false a sz mates r]), z, m, l1, r1. by rewrite plug_app.
  - right. splits; [done|done|right]. by exists [Frame true a sz mates l], r.
  - right. splits; [done|done|right]. exists (C ++ [Frame false a sz mates r]), w. by rewrite plug_app.
Qed.

(** A node that fits was found on the way. *)
Lemma searched_found a sz mates l r nb v rst t' v' :
  nb <= sz -> a <> 0 -> searched (Node a sz mates l r) nb a rst t' v' ->
  searched (Node a sz mates l r) nb v rst t' v'.
Proof.
  intros Hle Ha [[Hv [->|Hx]]|(-> & -> & _)]; [| |done]; left; (split; [done|right]); [|done].
  by exists [], sz, mates, l, r.
Qed.

Definition large_spec s n (t : tree) nb fuel : Prop :=
  forall v rsize rst, search_state nb v rsize ->
  exists t' v', large_loop fuel (root t) nb rsize (u32 (Z.shiftl nb (32 - Z.of_nat n))) v rst s =
      Ok ((t', v'), s) /\ searched t nb v rst t' v'.

(** The search ends here. *)
Lemma searched_none (t : tree) nb v rsize rst :
  search_state nb v rsize -> (v = 0 -> Forall (fun z => z < nb) (sizes t)) -> searched t nb v rst rst v.
Proof.
  intros [[-> _]|[Hv _]] Hs; [right; splits; try done; left; split; [done|by apply Hs]|left].
  split; [done|by left].
Qed.

Lemma root_zero s i p t : tree_rep s i p t -> (root t =? 0) = is_leaf t.
Proof.
  intros Hr. pose proof (root_truth _ _ _ _ Hr) as Hu. unfold truth in Hu.
  apply (f_equal negb) in Hu. rewrite !negb_involutive in Hu. rewrite Hu. by destruct t.
Qed.

(** The right child is set and is not the left one. *)
Lemma right_sibling s i p l r : tree_rep s i p r -> NoDup (addrs l ++ addrs r) ->
  truth (root r) && negb (root r =? root l) = negb (is_leaf r).
Proof.
  intros Rr Hnd. rewrite (root_truth _ _ _ _ Rr). destruct r as [|b sb mb rl rr]; [done|].
  cbn [negb is_leaf]. rewrite andb_true_l. apply negb_true_iff, Z.eqb_neq. intros E. cbn [root] in E.
  destruct l as [|c sc mc ll lr]; cbn [root] in E.
  - pose proof (root_truth _ _ _ _ Rr) as Ht. cbn [root] in Ht. by rewrite E in Ht.
  - subst c. apply NoDup_app in Hnd as (_ & Hd & _). apply (Hd b); left.
Qed.

(** The step down from the node [a], by the next bit of [nb]. *)
Lemma large_descend s i p n a sz mates l r nb fuel v rsize rst :
  tree_rep s i p (Node a sz mates l r) -> NoDup (addrs (Node a sz mates l r)) -> (n < 32)%nat ->
  Forall (agree (S n) nb) (sizes (Node a sz mates l r)) ->
  trie (S n) (Node a sz mates l r) -> (v = 0 -> sz < nb) -> search_state nb v rsize ->
  (l <> Leaf -> Z.testbit nb (Z.of_nat n) = false -> large_spec s n l nb fuel) ->
  (r <> Leaf -> Z.testbit nb (Z.of_nat n) = true -> large_spec s n r nb fuel) ->
  let sizebits := u32 (Z.shiftl nb (32 - Z.of_nat (S n))) in
  exists t' v', (m ← tchunk a;
      let rt := child m 1 in
      let t := child m (leftshifted_val_msb sizebits) in
      let rst := if truth rt && negb (rt =? t) then rt else rst in
      if t =? 0 then mret (rst, v)
      else large_loop fuel t nb rsize (u32 (Z.shiftl sizebits 1)) v rst) s = Ok ((t', v'), s) /\
    searched (Node a sz mates l r) nb v rst t' v'.
Proof.
  intros (Hn & Rl & Rr) Hnd H32 Hag (Hl & Hr & _ & _ & Tl & Tr) Hv Hst Sl Sr sizebits.
  cbn [sizes] in Hag. apply Forall_cons in Hag as [_ [Al Ar]%Forall_app].
  destruct Hn as (Ha & _). mrun (tchunk_ok _ _ _ Ha). unfold sizebits. rewrite msb_of, shift_key by done.
  cbn [addrs] in Hnd. apply NoDup_app in Hnd as (_ & _ & Hnd). rewrite Forall_forall in Hl, Hr, Al, Ar.
  destruct (Z.testbit nb (Z.of_nat n)) eqn:Eb; cbn [Z.b2z]; unfold child; cbn [Z.eqb child0 child1 Pos.eqb].
  - rewrite Z.eqb_refl, andb_false_r, (root_zero _ _ _ _ Rr).
    assert (Forall (fun z => z < nb) (sizes l)) as Hlt.
    { apply Forall_forall. intros z Hz. apply (agree_lt n); [by apply Al|done|by apply Hl]. }
    assert (exists t' v', (if is_leaf r then mret (rst, v)
        else large_loop fuel (root r) nb rsize (u32 (Z.shiftl nb (32 - Z.of_nat n))) v rst) s
        = Ok ((t', v'), s) /\ searched r nb v rst t' v') as (t' & v' & E & Hs).
    { destruct r as [|b sb mb rl rr]; [|by apply (Sr ltac:(done) eq_refl)].
      exists rst, v. split; [done|]. by eapply searched_none. }
    exists t', v'. split; [done|].
    apply (searched_below r (Frame true a sz mates l)); [by intros; split; [apply Hv|]|done].
  - rewrite (root_zero _ _ _ _ Rl), (right_sibling _ _ _ _ _ Rr Hnd).
    assert (Forall (fun z => nb <= z) (sizes r)) as Hge.
    { apply Forall_forall. intros z Hz. enough (nb < z) by lia.
      apply (agree_lt n); [symmetry; by apply Ar|by apply Hr|done]. }
    set (rst' := if negb (is_leaf r) then root r else rst).
    assert (exists t' v', (if is_leaf l then mret (rst', v)
        else large_loop fuel (root l) nb rsize (u32 (Z.shiftl nb (32 - Z.of_nat n))) v rst') s
        = Ok ((t', v'), s) /\ searched l nb v rst' t' v') as (t' & v' & E & Hs).
    { destruct l as [|b sb mb ll lr]; [|by apply (Sl ltac:(done) eq_refl)].
      exists rst', v. split; [done|]. by eapply searched_none. }
    exists t', v'. split; [done|]. unfold rst' in Hs. destruct r as [|b sb mb rl rr]; cbn [is_leaf negb] in Hs.
    + apply (searched_below l (Frame false a sz mates Leaf)); [by intros; split; [apply Hv|]|done].
    + by apply searched_left.
Qed.

(** The search through the tree of the bin of the request. *)
Lemma large_loop_ok n (t : tree) s i p nb fuel :
  tree_rep s i p t -> t <> Leaf -> NoDup (addrs t) -> (n <= 32)%nat -> (n < fuel)%nat ->
  Forall (fun z => z in_u 32) (sizes t) -> 0 < nb < 2 ^ 32 ->
  Forall (agree n nb) (sizes t) -> trie n t -> large_spec s n t nb fuel.
Proof.
  revert n i p fuel. induction t as [|a sz mates l IHl r IHr]; intros n i p fuel; [done|].
  intros Rep _ Hnd Hn Hf Hsz Hnb Hag Htr v rsize rst Hst.
  destruct fuel as [|fuel]; [lia|]. cbn [large_loop root].
  pose proof Rep as ((Hnode & _ & _ & [Hc _]%Forall_cons) & Rl & Rr). mrun (chunk_size_ok _ _ _ Hc).
  pose proof Hsz as [Hz [Zl Zr]%Forall_app]%Forall_cons. pose proof (Hc : chunk_of s a sz) as [Hh _].
  assert (a <> 0) as Ha0.
  { pose proof (in_heap_truth _ Hh) as Ht. unfold truth in Ht. by apply negb_true_iff, Z.eqb_neq in Ht. }
  assert (forall v rsize, (v = 0 -> sz < nb) -> search_state nb v rsize -> exists t' v',
    (m ← tchunk a;
     let rt := child m 1 in
     let t := child m (leftshifted_val_msb (u32 (Z.shiftl nb (32 - Z.of_nat n)))) in
     let rst := if truth rt && negb (rt =? t) then rt else rst in
     if t =? 0 then mret (rst, v)
     else large_loop fuel t nb rsize (u32 (Z.shiftl (u32 (Z.shiftl nb (32 - Z.of_nat n))) 1)) v rst) s
      = Ok ((t', v'), s) /\ searched (Node a sz mates l r) nb v rst t' v') as Hdown.
  { intros v1 rsize1 Hv Hs1. destruct n as [|n].
    - destruct Htr as [-> ->]. mrun (tchunk_ok _ _ _ Hnode). exists rst, v1.
      unfold child. cbn [Z.eqb Pos.eqb child0 child1 root]. split; [by destruct (leftshifted_val_msb _ =? 0)|].
      eapply searched_none; [done|]. intros Hv0. apply Forall_singleton. by apply Hv.
    - pose proof Htr as (Hl & Hr & _ & _ & Tl & Tr). cbn [addrs] in Hnd.
      pose proof Hnd as (_ & _ & (NDl & _ & NDr)%NoDup_app)%NoDup_app.
      pose proof Hag as [_ [Al Ar]%Forall_app]%Forall_cons.
      eapply large_descend; try done; intros Hne Eb.
      + apply (IHl n i a); try done; [lia|lia|by eapply agree_half].
      + apply (IHr n i a); try done; [lia|lia|by eapply agree_half]. }
  destruct (Z.leb_spec nb sz) as [Hle|Hlt].
  - assert (u32 (sz - nb) = sz - nb) as -> by (apply wrap_small; lia).
    destruct (Z.ltb_spec (sz - nb) rsize) as [Hlt|Hge].
    + destruct (Z.eqb_spec (sz - nb) 0) as [E0|Hn0].
      * exists a, a. split; [done|]. left. split; [done|right]. by exists [], sz, mates, l, r.
      * destruct (Hdown a (sz - nb)) as (t' & v' & E & Hs); [lia|right; split; [done|lia]|].
        exists t', v'. split; [done|]. by apply searched_found.
    + apply Hdown; [|done]. destruct Hst as [[-> ->]|[? _]]; [lia|done].
  - assert (u32 (sz - nb) = sz - nb + 2 ^ 32) as ->.
    { unfold u32, wrap. symmetry. apply (Z.mod_unique _ _ (-1)); lia. }
    destruct (Z.ltb_spec (sz - nb + 2 ^ 32) rsize) as [Hlt'|Hge]; [|by apply Hdown].
    exfalso. destruct Hst as [[_ ->]|[_ ?]]; lia.
Qed.
End Select.
