(* ===== verification/Allocator.v ===== *)
(** * The allocator: quarantine, allocation and deallocation

    The remaining operations of [class MState] of
    [src/cheriot-rtos/sdk/core/allocator/alloc.h]: returning chunks to the free lists
    with coalescing, the quarantine, the hazard list, [mspace_malloc_internal],
    [mspace_memalign], [mspace_dispatch], [mspace_free] and [allocation_start]. *)

From S2P Require Import Prelude LinkedList RingBuffer Bits AllocSizes ChunkHeader MState Bins.

(** [AllocationResult]. *)
Inductive AllocationResult : Type :=
| AllocationFailurePermanent
| AllocationFailureRevocationNeeded (waitingEpoch : Z)
| AllocationFailureQuotaExceeded
| AllocationFailureHeapFull
| AllocationSuccess (ret : cap).

Section Allocator.
Context `{Env}.

Definition is_precise_range (base size : Z) : bool :=
  (Z.land base (u32 (Z.lnot (representable_alignment_mask size))) =? 0) &&
  (representable_length size =? size).

(** *** Returning a chunk to the free lists *)

Definition consolidate_backward (p : Z) : M Z :=
  h ← chunk_header p;
  if is_prev_in_use h then mret p
  else
    prev ← chunk_prev p;
    psize ← chunk_size prev;
    _ ← unlink_chunk (body prev) psize;
    _ ← chunk_unsplit p prev;
    mret prev.

Definition consolidate_forward (p : Z) : M unit :=
  next ← chunk_next p;
  h ← chunk_header next;
  if is_in_use h then mret tt
  else
    _ ← unlink_chunk (body next) (size_get h);
    chunk_unsplit next p.

Definition mspace_free_internal (p : Z) : M unit :=
  _ ← ok_in_use_chunk p;
  p ← consolidate_backward p;
  _ ← consolidate_forward p;
  _ ← on_heap (fun a => mark_free a p);
  size ← chunk_size p;
  _ ← insert_chunk p size;
  ok_free_chunk p.

(** *** Quarantine *)

Definition pending_epoch (ix : Z) : M Z :=
  reads (fun s => deref (quarantinePendingEpoch s !! Z.to_nat ix)).

Definition quarantine_pending_to_finished : M unit :=
  ring ← gets quarantinePendingRing;
  _ ← (if RingBuffer.is_empty ring then
         each [0; 1] (fun ix =>
           emp ← ring_of (fun r => sentinel_is_empty r (quarantine_pending_get ix));
           massert emp)
       else mret tt);
  match head_get ring with
  | None => mret tt
  | Some oldestPendingIx =>
      epoch ← pending_epoch oldestPendingIx;
      finished ← has_revocation_finished_for_epoch epoch;
      if negb finished then mret tt
      else
        let qring := quarantine_pending_get oldestPendingIx in
        emp ← ring_of (fun r => sentinel_is_empty r qring);
        _ ← (if emp : bool then mret tt
             else on_rings (fun r =>
                    '(p, r) ← sentinel_take_all r qring;
                    sentinel_append r quarantine_finished_get p));
        ring ← lift (head_advance 8 QuarantineRings debug ring);
        modify (fun s => with_pending (quarantinePendingEpoch s) ring s)
  end.

(** Opening a ring for a new epoch; [youngest] is what [tail_get] returned. *)
Definition open_pending (epoch : Z) (youngest : option Z) : M Z :=
  _ ← quarantine_pending_to_finished;
  ring ← gets quarantinePendingRing;
  let next := tail_next 8 QuarantineRings ring in
  ring ← lift (tail_advance 8 QuarantineRings debug ring);
  _ ← modify (fun s => with_pending (quarantinePendingEpoch s) ring s);
  _ ← massert (bool_decide (is_Some next));
  ix ← lift (deref (match next with Some ix => Some ix | None => youngest end));
  _ ← modify (fun s => with_pending (<[Z.to_nat ix := epoch]> (quarantinePendingEpoch s))
                         (quarantinePendingRing s) s);
  mret ix.

(** The ring for [epoch]: the youngest one, or one that is opened. *)
Definition pending_ring_for (epoch : Z) : M Z :=
  ring ← gets quarantinePendingRing;
  let youngest := tail_get ring in
  same ← (match youngest with
          | None => mret false
          | Some ix => e ← pending_epoch ix; mret (e =? epoch)
          end);
  match youngest, same with
  | Some ix, true => mret ix
  | _, _ => open_pending epoch youngest
  end.

Definition quarantine_pending_push (epoch hdr : Z) : M unit :=
  ix ← pending_ring_for epoch;
  _ ← new_mchunk (body hdr);
  on_rings (fun r => sentinel_append_emplace r (quarantine_pending_get ix) (body hdr)).

Definition mspace_bg_revoker_kick (Force : bool) : M bool :=
  s ← gets id;
  if heapQuarantineSize s =? 0 then mret false
  else
    let shouldKick :=
      if IsAsynchronous
      then (heapFreeSize s / 4 <? heapQuarantineSize s) || (heapFreeSize s <? heapTotalSize s / 8)
      else u32 (heapFreeSize s / 4 * 3) <? heapQuarantineSize s in
    _ ← (if Force || shouldKick then system_bg_revoker_kick else mret tt);
    mret true.

(** What the loop of [mspace_qtbin_deqn] does with the first chunk of the finished ring. *)
Definition dequeue_first : M unit :=
  fore ← ring_of (fun r => sentinel_first r quarantine_finished_get);
  let foreHeader := from_body fore in
  _ ← unsafe_remove_ring fore;
  _ ← mchunk_metadata_clear fore;
  size ← chunk_size foreHeader;
  _ ← modify (fun s => with_sizes (heapTotalSize s) (u32 (heapFreeSize s + size))
                         (u32 (heapQuarantineSize s - size)) s);
  next ← chunk_next foreHeader;
  _ ← on_heap (fun a => Ok (mark_clear_range (body foreHeader) next a));
  mspace_free_internal foreHeader.

(** One iteration of the loop of [mspace_qtbin_deqn]; false is [break]. *)
Definition dequeue_one : M bool :=
  let quarantine := quarantine_finished_get in
  emp ← ring_of (fun r => sentinel_is_empty r quarantine);
  emp ← (if emp : bool then
           _ ← quarantine_pending_to_finished;
           ring_of (fun r => sentinel_is_empty r quarantine)
         else mret false);
  if emp : bool then mret false
  else _ ← dequeue_first; mret true.

Fixpoint mspace_qtbin_deqn (loops : nat) : M Z :=
  match loops with
  | O => mret 0
  | S loops =>
      more ← dequeue_one;
      if more : bool then n ← mspace_qtbin_deqn loops; mret (n + 1) else mret 0
  end.

Definition quarantine_dequeue : M bool := n ← mspace_qtbin_deqn 4; mret (0 <? n).

(** *** Allocation *)

(** Is the word at [w] of the heap zero? *)
Definition word_zero (s : MState) (w : Z) : bool :=
  bool_decide (rings s !! w = None) &&
  (match claimcells s !! w with
   | Some c => (allocatorIdentifier c =? 0) && (encodedNext c =? 0) && (referenceCount c =? 0)
   | None => true
   end) &&
  forallb (fun '(off, field) =>
             match tchunks s !! (w - off) with Some n => field n =? 0 | None => true end)
    [(8, child0); (16, child1); (24, parent); (32, index)].

Definition words (base size : Z) : list Z :=
  (fun i => base + 8 * Z.of_nat i) <$> seq 0 (Z.to_nat (size / 8)).

Definition mspace_malloc_success (p : Z) : M Z :=
  size ← chunk_size p;
  clean ← gets (fun s =>
    forallb (fun w => negb (negb (word_zero s w) && mark_get (heap s) w))
      (words (body p) (size - sizeof_header)));
  _ ← massert clean;
  _ ← modify (fun s => with_sizes (heapTotalSize s) (u32 (heapFreeSize s - size))
                         (heapQuarantineSize s) s);
  mret (body p).

Definition malloc_small (nb : Z) : M Z :=
  let idx := small_index nb in
  smallbits ← gets (fun s => Z.shiftr (smallmap s) idx);
  if truth (Z.land smallbits 1) then
    p ← unlink_first_small_chunk idx;
    _ ← on_heap (fun a => mark_in_use a p);
    _ ← ok_malloced_chunk p nb;
    mret p
  else if truth smallbits then
    let leftbits := Z.land (u32 (Z.shiftl smallbits idx)) (above_least 32 (idx2bit idx)) in
    let i := bit2idx (isolate_least 32 leftbits) in
    p ← unlink_first_small_chunk i;
    let rsize := u32 (small_index2size i - nb) in
    _ ← (if MinChunkSize <=? rsize then
           r ← chunk_split p nb;
           insert_small_chunk r rsize
         else mret tt);
    _ ← on_heap (fun a => mark_in_use a p);
    _ ← ok_malloced_chunk p nb;
    mret p
  else
    tm ← gets treemap;
    p ← (if truth tm then tmalloc_small nb else mret 0);
    _ ← (if truth p then ok_malloced_chunk p nb else mret tt);
    mret p.

Definition malloc_large (nb : Z) : M Z :=
  tm ← gets treemap;
  p ← (if truth tm then tmalloc_large nb else mret 0);
  _ ← (if truth p then ok_malloced_chunk p nb else mret tt);
  mret p.

Definition mspace_malloc_internal (bytes : Z) : M Z :=
  _ ← quarantine_dequeue;
  p ← (if bytes <=? MaxSmallRequest then
         malloc_small (if bytes <? MinRequest then MinChunkSize else pad_request bytes)
       else malloc_large (pad_request bytes));
  if truth p then mret p
  else _ ← mspace_bg_revoker_kick true; mret 0.

Definition mspace_malloc (bytes : Z) : M Z :=
  p ← mspace_malloc_internal bytes;
  if truth p then mspace_malloc_success p else mret 0.

(** The leading space of an unaligned chunk is given back. *)
Definition align_chunk (alignment p : Z) : M Z :=
  let memAddress := body p in
  if memAddress mod alignment =? 0 then mret p
  else
    let alignpad := u32 (alignment - Z.land memAddress (alignment - 1)) in
    let alignpad := if alignpad <? MinChunkSize then u32 (alignpad + alignment) else alignpad in
    r ← chunk_split p alignpad;
    _ ← mspace_free_internal p;
    mret r.

Definition trim_chunk (nb p : Z) : M unit :=
  size ← chunk_size p;
  if u32 (nb + MinChunkSize) <=? size then
    r ← chunk_split p nb;
    mspace_free_internal r
  else mret tt.

Definition mspace_memalign (bytes alignment : Z) : M Z :=
  let nb := pad_request bytes in
  _ ← massert (Z.land alignment (u32 (alignment - 1)) =? 0);
  if alignment <=? MallocAlignment then mspace_malloc bytes
  else
    p ← mspace_malloc_internal (u32 (nb + alignment + MinChunkSize));
    if negb (truth p) then mret 0
    else
      p ← align_chunk alignment p;
      _ ← trim_chunk nb p;
      _ ← ok_malloced_chunk p nb;
      mspace_malloc_success p.

(** *** Deallocation *)

(** [capaligned_zero]: every word of the range is cleared. *)
Definition capaligned_zero (start size : Z) : M unit :=
  _ ← massert (Z.land size 7 =? 0);
  modify (fun s =>
    let inside k := bool_decide (start <= k < start + size) in
    with_rings (filter (fun kv => inside kv.1 = false) (rings s))
      (with_tchunks (filter (fun kv => inside kv.1 = false) (tchunks s))
        (with_claimcells (filter (fun kv => inside kv.1 = false) (claimcells s)) s))).

(** [mspace_free] once the body is painted. *)
Definition free_painted (chunk bodySize : Z) : M unit :=
  epoch ← system_epoch_get;
  _ ← capaligned_zero (body chunk) bodySize;
  let epoch := u32 (epoch + Z.land epoch 1) in
  _ ← quarantine_pending_push epoch chunk;
  size ← chunk_size chunk;
  _ ← modify (fun s => with_sizes (heapTotalSize s) (heapFreeSize s)
                         (u32 (heapQuarantineSize s + size)) s);
  _ ← mspace_qtbin_deqn 3;
  _ ← mspace_bg_revoker_kick false;
  mret tt.

(** [mspace_free] with [skipHazardCheck]. *)
Definition mspace_free_unchecked (chunk bodySize : Z) : M unit :=
  _ ← on_heap (fun a => Ok (mark_set_range (body chunk) (body chunk + bodySize) a));
  free_painted chunk bodySize.

(** Each hazard pointer is read when it is looked at. *)
Fixpoint hazard_scan (indices : list nat) (allocation : cap) : M bool :=
  match indices with
  | [] => mret false
  | i :: rest =>
      hp ← gets (fun s => hazard_at (readings s) i);
      _ ← modify (fun s => with_counters (sanityCounter s) (S (readings s)) (kicks s) s);
      if ctag hp && negb (csealed_cap hp) && is_subset_of hp allocation then mret true
      else hazard_scan rest allocation
  end.

Definition hazard_pointer_check (allocation : cap) : M bool :=
  hazard_scan (seq 0 hazard_count) allocation.

(** The loop of [hazard_pointers_recheck]: the entries that stay, and whether [skip] was
    found. *)
Fixpoint recheck_loop (entries : list cap) (skip : cap) : M (list cap * bool) :=
  match entries with
  | [] => mret ([], false)
  | ptr :: rest =>
      live ← hazard_pointer_check ptr;
      if live : bool then
        '(kept, found) ← recheck_loop rest skip;
        mret (ptr :: kept, found)
      else if decide (ptr = skip) then
        '(kept, _) ← recheck_loop rest skip;
        mret (kept, true)
      else
        let chunk := from_body (cbase ptr) in
        h ← chunk_header chunk;
        _ ← (if 0 <? claims h then mret tt else mspace_free_unchecked chunk (clength ptr));
        recheck_loop rest skip
  end.

Definition hazard_pointers_recheck (skip : cap) : M bool :=
  entries ← gets hazardQuarantine;
  '(kept, found) ← recheck_loop entries skip;
  _ ← modify (fun s => with_hazards kept (lockWord s) s);
  mret found.

Definition mspace_free (chunk bodySize : Z) : M Z :=
  let mem := body chunk in
  let bounded := mkCap mem bodySize (is_precise_range mem bodySize) false in
  guard ← hazard_list_begin;
  isDoubleFree ← hazard_pointers_recheck bounded;
  let result := if isDoubleFree : bool then - EINVAL else 0 in
  live ← hazard_pointer_check bounded;
  if live : bool then
    _ ← hazard_quarantine_add bounded;
    _ ← hazard_guard_release guard;
    mret result
  else if negb (ctag bounded) then
    _ ← hazard_guard_release guard;
    mret (- EINVAL)
  else
    _ ← on_heap (fun a => Ok (mark_set_range mem (mem + bodySize) a));
    _ ← hazard_guard_release guard;
    _ ← free_painted chunk bodySize;
    mret result.

Definition chunk_body_size (chunk : Z) : M Z :=
  h ← chunk_header chunk;
  let bodySize := u32 (size_get h - sizeof_header) in
  let base := body chunk in
  if is_precise_range base bodySize then mret bodySize
  else
    let bodySize := u32 (bodySize - MallocAlignment) in
    _ ← massert (is_precise_range base bodySize);
    mret bodySize.

(** The descent of [allocation_start] to the header before [address]. *)
Fixpoint find_mark (fuel : nat) (a : arena) (address : Z) : outcome Z :=
  match fuel with
  | O => Err EFuel
  | S fuel =>
      if negb (mark_get a address) && (heap_address <? address)
      then find_mark fuel a (address - MallocAlignment)
      else Ok address
  end.

Definition allocation_start (address : Z) : M Z :=
  let address := Z.land address (u32 (Z.lnot MallocAlignMask)) in
  let base := heap_address in
  if (address <? base) || (heap_top <? address) then mret 0
  else
    marked ← gets (fun s => mark_get (heap s) address);
    if marked : bool then mret 0
    else
      address ← reads (fun s =>
        find_mark (S (S (Z.to_nat ((address - base) / MallocAlignment)))) (heap s) address);
      h ← chunk_header address;
      if is_in_use h then mret address else mret 0.

(** *** The allocator's entry points *)

(** The check of the whole state. *)
Definition ok_malloc_state : M unit :=
  _ ← (if IsAsynchronous then _ ← mspace_bg_revoker_kick false; mret tt else mret tt);
  when_debug (
    _ ← each (Z.of_nat <$> seq 0 (Z.to_nat NSmallBins)) ok_smallbin;
    each (Z.of_nat <$> seq 0 (Z.to_nat NTreeBins)) ok_treebin).

Definition mspace_firstchunk_add (base size : Z) : M unit :=
  s ← gets id;
  _ ← massert ((heapTotalSize s =? 0) && (heapFreeSize s =? 0));
  p ← (fun s : MState => '(p, a) ← make (heap s) base size; Ok (p, with_heap a s));
  psize ← chunk_size p;
  _ ← modify (fun s => with_sizes (u32 (heapTotalSize s + size)) (u32 (heapFreeSize s + psize))
                         (heapQuarantineSize s) s);
  insert_chunk p psize.

(** [mstate_init] of [main.cc]: the heap's region is [heap_base] to [heap_top]; false is
    a null result. *)
Definition sizeof_MState : Z := 240.

Definition mstate_init : M bool :=
  let tsize := heap_top - heap_base in
  if negb (is_aligned heap_base && is_aligned tsize) then mret false
  else
    let msize := pad_request sizeof_MState in
    let hazardQuarantineSize := 8 * Z.of_nat hazard_count in
    if (tsize <? msize + hazardQuarantineSize + MinChunkSize + sizeof_header) || (MaxChunkSize <? tsize)
    then mret false
    else
      _ ← init_bins;
      _ ← mspace_firstchunk_add heap_address (tsize - msize - hazardQuarantineSize);
      mret true.

(** The failure of [mspace_dispatch] when no chunk was found. *)
Definition no_chunk (s : MState) (alignSize : Z) : outcome AllocationResult :=
  let neededSize := u32 (alignSize + sizeof_header) in
  if (0 <? heapQuarantineSize s) && (neededSize <=? u32 (heapQuarantineSize s + heapFreeSize s)) then
    e ← deref (quarantinePendingEpoch s !! Z.to_nat (head_get_unsafe (quarantinePendingRing s)));
    Ok (AllocationFailureRevocationNeeded e)
  else if heapTotalSize s <? neededSize then Ok AllocationFailurePermanent
  else Ok AllocationFailureHeapFull.

Definition sanity_check : M unit := when_debug (
  s ← gets id;
  _ ← (if sanityCounter s mod 128 =? 0 then ok_malloc_state else mret tt);
  modify (fun s => with_counters (u32 (sanityCounter s + 1)) (readings s) (kicks s) s)).

(** A non-empty hazard quarantine is looked through first. *)
Definition flush_hazards : M unit :=
  s ← gets id;
  if hazard_quarantine_is_empty s then mret tt
  else
    guard ← hazard_list_begin;
    _ ← hazard_pointers_recheck null_cap;
    hazard_guard_release guard.

Definition align_size (bytes : Z) : Z :=
  Z.land (u32 (representable_length bytes + MallocAlignMask)) (u32 (Z.lnot MallocAlignMask)).

(** The chunk of [ret] gets its owner and its seal, and is paid for. *)
Definition hand_over (ret size alignSize quota identifier : Z) (isSealed : bool) : M (AllocationResult * Z) :=
  let hdr := from_body ret in
  _ ← sanity_check;
  let bodySize := u32 (size - sizeof_header) in
  _ ← on_heap (fun a => hupd a hdr (set_sealed isSealed));
  _ ← on_heap (fun a => set_owner debug identifier a hdr);
  let quota := u32 (quota - size) in
  if is_precise_range ret bodySize then
    mret (AllocationSuccess (mkCap ret bodySize true false), quota)
  else
    _ ← massert (bodySize =? alignSize + MallocAlignment);
    mret (AllocationSuccess
      (mkCap ret alignSize (is_precise_range ret alignSize) false), quota).

(** [mspace_dispatch] also updates the caller's [quota]. *)
Definition mspace_dispatch (bytes quota identifier : Z) (isSealed : bool)
  : M (AllocationResult * Z) :=
  _ ← flush_hazards;
  let alignSize := align_size bytes in
  total ← gets heapTotalSize;
  if alignSize =? 0 then mret (AllocationFailurePermanent, quota)
  else if total <? alignSize then mret (AllocationFailurePermanent, quota)
  else if quota <? alignSize then mret (AllocationFailureQuotaExceeded, quota)
  else
    ret ← mspace_memalign alignSize (u32 (- representable_alignment_mask bytes));
    if negb (truth ret) then
      r ← reads (fun s => no_chunk s alignSize);
      mret (r, quota)
    else
      size ← chunk_size (from_body ret);
      if quota <? size then
        _ ← modify (fun s => with_sizes (heapTotalSize s) (u32 (heapFreeSize s + size))
                               (heapQuarantineSize s) s);
        _ ← mspace_free_internal (from_body ret);
        mret (AllocationFailureQuotaExceeded, quota)
      else hand_over ret size alignSize quota identifier isSealed.
End Allocator.
