(* ===== verification/Heap.v ===== *)
(** * The heap is a tiling of coalesced chunks

    [heap_ok s l F] ties the parts of the allocator's state together: the headers of the
    state [s] tile the heap as the list [l] of chunks, whose in-use bits agree and in
    which no two free chunks are adjacent; the free chunks are exactly the chunks [F] in
    the bins.  [detached] is the same with one chunk taken out, the state in the middle
    of an allocation or a deallocation. *)

From S2P Require Import Prelude LinkedList AllocSizes ChunkHeader MState Bins SmallBins TreeBins TreeUnlink FreeLists Allocator.

(** ** Chunks with their addresses *)

(** The chunks of the tiling [l] from the address [a] on, with the addresses of their
    bodies. *)
Fixpoint placed (a : Z) (l : list chunk) : list (Z * chunk) :=
  match l with
  | [] => []
  | c :: r => (a + sizeof_header, c) :: placed (a + csize c) r
  end.

Lemma placed_app a l1 l2 : placed a (l1 ++ l2) = placed a l1 ++ placed (a + total l1) l2.
Proof.
  revert a. induction l1 as [|c l1 IH]; intros a; cbn [app placed].
  - cbn. by rewrite Z.add_0_r.
  - by rewrite IH, total_cons, Z.add_assoc.
Qed.

Lemma placed_range a l b c : Forall chunk_ok l -> (b, c) ∈ placed a l ->
  a + sizeof_header <= b /\ b + csize c <= a + sizeof_header + total l.
Proof.
  intros Hok. revert a. induction Hok as [|d l [Hd _] Hok IH]; intros a; cbn [placed]; [set_solver|].
  pose proof (total_nonneg l Hok). rewrite total_cons.
  intros [[= -> ->]|Hb]%elem_of_cons; [lia|]. apply IH in Hb. lia.
Qed.

Lemma placed_split a l b c : (b, c) ∈ placed a l ->
  exists l1 l2, l = l1 ++ c :: l2 /\ b = a + total l1 + sizeof_header.
Proof.
  revert a. induction l as [|d l IH]; intros a; cbn [placed]; [set_solver|].
  intros [[= -> ->]|Hb]%elem_of_cons.
  - exists [], l. split; [done|]. cbn. lia.
  - apply IH in Hb as (l1 & l2 & -> & ->). exists (d :: l1), l2. split; [done|].
    rewrite total_cons. lia.
Qed.

Lemma placed_in a l1 c l2 : (a + total l1 + sizeof_header, c) ∈ placed a (l1 ++ c :: l2).
Proof. rewrite placed_app. apply elem_of_app. right. left. Qed.

(** An address is the body of at most one chunk. *)
Lemma placed_fun a l b c d : Forall chunk_ok l -> (b, c) ∈ placed a l -> (b, d) ∈ placed a l -> c = d.
Proof.
  intros Hok. revert a. induction Hok as [|e l [He _] Hok IH]; intros a; cbn [placed]; [set_solver|].
  intros Hc Hd. apply elem_of_cons in Hc, Hd. destruct Hc as [Ec|Hc], Hd as [Ed|Hd].
  - congruence.
  - injection Ec as -> ->. apply placed_range in Hd; [|done]. lia.
  - injection Ed as -> ->. apply placed_range in Hc; [|done]. lia.
  - by eapply IH.
Qed.

(** No body is inside another chunk. *)
Lemma placed_between a l1 c l2 q d : Forall chunk_ok (l1 ++ c :: l2) ->
  (q, d) ∈ placed a (l1 ++ c :: l2) ->
  q <= a + total l1 + sizeof_header \/ a + total l1 + csize c + sizeof_header <= q.
Proof.
  intros [H1 [_ H2]%Forall_cons]%Forall_app. rewrite placed_app, elem_of_app. cbn [placed].
  intros [Hq|[[= -> ->]|Hq]%elem_of_cons]; [left|by left|right].
  - apply placed_split in Hq as (k1 & k2 & -> & ->). apply Forall_app in H1 as [_ [[Hd _] Hk]%Forall_cons].
    pose proof (total_nonneg _ Hk). rewrite total_app, total_cons. lia.
  - by apply placed_range in Hq as [Hq _].
Qed.

(** ** The in-use bits *)

(** Each chunk knows whether the one before it is in use; free chunks are not adjacent. *)
Fixpoint flags (pin : bool) (l : list chunk) : Prop :=
  match l with
  | [] => True
  | c :: r => cpin c = pin /\ (cuse c = false -> pin = true) /\ flags (cuse c) r
  end.

Definition last_use (pin : bool) (l : list chunk) : bool :=
  match last l with Some c => cuse c | None => pin end.

Lemma last_use_cons pin c l : last_use pin (c :: l) = last_use (cuse c) l.
Proof.
  unfold last_use. destruct l as [|d l] using rev_ind; [done|].
  by rewrite app_comm_cons, !last_snoc.
Qed.

Lemma flags_app pin l1 l2 : flags pin (l1 ++ l2) <-> flags pin l1 /\ flags (last_use pin l1) l2.
Proof.
  revert pin. induction l1 as [|c l1 IH]; intros pin; cbn [app flags].
  - unfold last_use. cbn. tauto.
  - rewrite IH, last_use_cons. tauto.
Qed.

(** A free chunk carries no seal and no claims. *)
Definition plain (c : chunk) : Prop := cuse c = false -> csealed c = false /\ cclaims c = 0.

(** The last header is the footer, 8 bytes in use; all other chunks have a size that a free
    chunk can have. *)
Fixpoint footed (l : list chunk) : Prop :=
  match l with
  | [] => False
  | c :: r => (r = [] /\ cuse c = true /\ csize c = sizeof_header) \/ (size_ok (csize c) /\ footed r)
  end.

Lemma footed_app l1 l2 : l2 <> [] ->
  footed (l1 ++ l2) <-> Forall (fun c => size_ok (csize c)) l1 /\ footed l2.
Proof.
  intros Hne. induction l1 as [|c l1 IH]; cbn [app footed].
  - split; [intros; by split|by intros []].
  - rewrite Forall_cons, IH. split; [|tauto]. intros [[E _]|?]; [|tauto].
    apply app_nil in E as [_ ->]. done.
Qed.

(** The free chunks among [P] are [F]. *)
Definition frees (P : list (Z * chunk)) (F : gmap Z Z) : Prop :=
  forall b sz, F !! b = Some sz <-> exists c, (b, c) ∈ P /\ cuse c = false /\ csize c = sz.

#[export] Instance frees_proper : Proper ((≡ₚ) ==> (=) ==> iff) frees.
Proof.
  intros P Q HPQ F _ <-. unfold frees. split; intros Hf b sz; rewrite Hf;
    (split; intros (c & Hc & ?); exists c); (split; [|done]).
  all: by (rewrite HPQ || rewrite <- HPQ).
Qed.

Lemma frees_used b c P F : cuse c = true -> frees ((b, c) :: P) F <-> frees P F.
Proof.
  intros Hu. unfold frees. split; intros Hf b' sz; rewrite Hf.
  - split; intros (d & Hd & ? & ?); exists d; [|by split; [right|]].
    apply elem_of_cons in Hd as [[= -> ->]|Hd]; [congruence|done].
  - split; intros (d & Hd & ? & ?); exists d; [by split; [right|]|].
    apply elem_of_cons in Hd as [[= -> ->]|Hd]; [congruence|done].
Qed.

Lemma frees_insert b c P F : b ∉ P.*1 -> cuse c = false -> frees P F ->
  frees ((b, c) :: P) (<[b := csize c]> F).
Proof.
  intros Hb Hu Hf b' sz. destruct (decide (b' = b)) as [->|Hne].
  - rewrite lookup_insert_eq. split.
    + intros [= <-]. exists c. split; [left|done].
    + intros (d & [[= <-]|Hd]%elem_of_cons & _ & <-); [done|].
      destruct Hb. apply list_elem_of_fmap. by exists (b, d).
  - rewrite lookup_insert_ne, (Hf b' sz) by done. split; intros (d & Hd & ?); exists d.
    + by split; [right|].
    + split; [|done]. apply elem_of_cons in Hd as [[= ? ?]|Hd]; [congruence|done].
Qed.

Lemma frees_delete b c P F : b ∉ P.*1 -> frees ((b, c) :: P) F -> frees P (delete b F).
Proof.
  intros Hb Hf b' sz. destruct (decide (b' = b)) as [->|Hne].
  - rewrite lookup_delete_eq. split; [done|]. intros (d & Hd & _).
    destruct Hb. apply list_elem_of_fmap. by exists (b, d).
  - rewrite lookup_delete_ne, (Hf b' sz) by done. split; intros (d & Hd & ?); exists d.
    + split; [|done]. apply elem_of_cons in Hd as [[= ? ?]|Hd]; [congruence|done].
    + by split; [right|].
Qed.

Lemma frees_none P F b : frees P F -> b ∉ P.*1 -> F !! b = None.
Proof.
  intros Hf Hb. destruct (F !! b) as [sz|] eqn:E; [|done]. apply Hf in E as (c & Hc & _).
  destruct Hb. apply list_elem_of_fmap. by exists (b, c).
Qed.

Lemma placed_NoDup a l : Forall chunk_ok l -> NoDup (placed a l).*1.
Proof.
  intros Hok. revert a. induction Hok as [|c l [Hc _] Hok IH]; intros a; [constructor|].
  cbn [placed fmap list_fmap fst]. constructor; [|apply IH].
  intros ([b d] & E & Hb)%list_elem_of_fmap. cbn in E. subst b. apply placed_range in Hb; [|done]. lia.
Qed.

(** The chunks of the tiling [l1 ++ c :: l2] other than [c], which has [sz] bytes. *)
Definition around (a : Z) (l1 : list chunk) (sz : Z) (l2 : list chunk) : list (Z * chunk) :=
  placed a l1 ++ placed (a + total l1 + sz) l2.

Lemma placed_around a l1 c l2 :
  placed a (l1 ++ c :: l2) ≡ₚ (a + total l1 + sizeof_header, c) :: around a l1 (csize c) l2.
Proof. rewrite placed_app. cbn [placed]. unfold around. solve_Permutation. Qed.

Lemma around_fresh a l1 c l2 : Forall chunk_ok (l1 ++ c :: l2) ->
  a + total l1 + sizeof_header ∉ (around a l1 (csize c) l2).*1.
Proof.
  intros Hok. pose proof (placed_NoDup a _ Hok) as Hnd. rewrite placed_around in Hnd.
  cbn [fmap list_fmap fst] in Hnd. by apply NoDup_cons in Hnd as [Hnd _].
Qed.

(** The addresses other than headers whose revocation bit may be set: the bodies in
    quarantine. *)
Class Painted : Type := painted : Z -> Prop.

Section Heap.
Context `{EnvOk} {P : Painted}.
Implicit Types (s : MState) (F : gmap Z Z).

Record arena_ok s (l : list chunk) : Prop := {
  ao_layout : layout (hdrs (heap s)) heap_address 0 l;
  ao_sizes : sizes_ok heap_address l;
  ao_marked : forall b, b ∈ (placed heap_address l).*1 -> b - sizeof_header ∈ shadow (heap s);
  ao_only : forall x, x ∈ shadow (heap s) ->
    x + sizeof_header ∈ (placed heap_address l).*1 \/ painted x;
}.

Record heap_ok s (l : list chunk) F : Prop := {
  ho_arena : arena_ok s l;
  ho_flags : flags true l;
  ho_plain : Forall plain l;
  ho_footed : footed l;
  ho_frees : frees (placed heap_address l) F;
  ho_binned : binned s F;
}.

(** A tiling with one chunk [c] that is in no list, while it is being freed or handed
    out. *)
Record detached s (l1 : list chunk) (c : chunk) (l2 : list chunk) F : Prop := {
  dt_arena : arena_ok s (l1 ++ c :: l2);
  dt_before : flags true l1;
  dt_pin : cpin c = last_use true l1;
  dt_after : exists b, flags b l2;
  dt_plain : Forall plain l1 /\ Forall plain l2;
  dt_claims : cclaims c = 0;
  dt_sizes : Forall (fun c => size_ok (csize c)) l1 /\ size_ok (csize c) /\ footed l2;
  dt_frees : frees (around heap_address l1 (csize c) l2) F;
  dt_binned : binned s F;
}.

(** ** Addresses and headers of a tiling *)

Lemma arena_range s l1 c l2 : arena_ok s (l1 ++ c :: l2) ->
  let p := heap_address + total l1 in
  heap_address <= p /\ p + 8 < 2 ^ 32 /\ p mod 8 = 0 /\ in_heap (p + 8) /\
  body p = p + 8 /\ from_body (p + 8) = p /\ truth p = true.
Proof.
  intros [_ Hs _ _] p. pose proof base_below. pose proof ms_below. pose proof address_aligned.
  apply sizes_ok_app in Hs as (Q1 & Q2 & T1 & T2 & Tm & A0 & Tw).
  apply Forall_cons in Q2 as [[Hc Hc8] Q2]. pose proof (total_nonneg _ Q2). rewrite !total_cons in *.
  assert (8 <= csize c) by (apply Z.mod_divide in Hc8 as [k Hk]; lia).
  assert (total l1 mod 8 = 0).
  { clear -Q1. induction Q1 as [|d l [_ Hd] _ IH]; [done|]. rewrite total_cons. by apply mod8_add. }
  assert (in_heap (p + 8)) by (unfold in_heap; lia).
  splits; [lia|lia|by apply mod8_add|done| | |].
  - apply wrap_small. change sizeof_header with 8. lia.
  - rewrite from_body_of by done. lia.
  - unfold truth. apply negb_true_iff, Z.eqb_neq. lia.
Qed.

Lemma arena_next s l1 c d l2 : arena_ok s (l1 ++ c :: d :: l2) ->
  chunk_next (heap_address + total l1) s = Ok (heap_address + total (l1 ++ [c]), s).
Proof.
  intros [Hl Hs _ _]. apply reads_ok. by apply (next_layout _ heap_address 0 l1 c (d :: l2)).
Qed.

Lemma arena_prev s l1 b c l2 : arena_ok s (l1 ++ b :: c :: l2) ->
  chunk_prev (heap_address + total (l1 ++ [b])) s = Ok (heap_address + total l1, s).
Proof.
  intros [Hl Hs _ _]. apply reads_ok. rewrite total_app, total_cons. change (total []) with 0.
  rewrite Z.add_0_r, Z.add_assoc. by eapply prev_layout.
Qed.

Lemma arena_header s l1 c l2 : arena_ok s (l1 ++ c :: l2) ->
  chunk_header (heap_address + total l1) s = Ok (header_of (last_size 0 l1) c, s).
Proof. intros [Hl Hs _ _]. apply reads_ok. by eapply header_layout. Qed.

Lemma arena_size_get s l1 c l2 n : arena_ok s (l1 ++ c :: l2) -> size_get (header_of n c) = csize c.
Proof. intros Ha. exact (size_of_layout heap_address l1 c l2 n (ao_sizes _ _ Ha)). Qed.

Lemma arena_size s l1 c l2 : arena_ok s (l1 ++ c :: l2) ->
  chunk_size (heap_address + total l1) s = Ok (csize c, s).
Proof.
  intros Ha. unfold chunk_size. mrun (arena_header s l1 c l2 Ha).
  unfold mret, M_ret. by erewrite arena_size_get.
Qed.

Lemma arena_chunk_of s l1 c l2 : arena_ok s (l1 ++ c :: l2) ->
  chunk_of s (heap_address + total l1 + 8) (csize c).
Proof.
  intros Ha. destruct (arena_range _ _ _ _ Ha) as (_ & _ & _ & Hh & _ & E & _). split; [done|].
  rewrite E. eexists. split; [apply (proj2 (layout_at _ _ _ _ _ _ (ao_layout _ _ Ha)))|].
  by eapply arena_size_get.
Qed.

Lemma arena_only s s' l : heap s' = heap s -> arena_ok s l -> arena_ok s' l.
Proof. intros E []. split; by rewrite ?E. Qed.

(** ** The debug checks hold *)

Lemma when_debug_ok (m : M unit) s : m s = Ok (tt, s) -> when_debug m s = Ok (tt, s).
Proof. unfold when_debug. by destruct debug. Qed.

Lemma mark_get_ok (ar : arena) p : p mod 8 = 0 -> mark_get ar p = bool_decide (p ∈ shadow ar).
Proof.
  intros Hp. unfold mark_get, granule. change MallocAlignShift with 3.
  rewrite Z.shiftr_div_pow2, Z.shiftl_mul_pow2 by lia. change (2 ^ 3) with 8.
  replace (p / 8 * 8) with p; [done|]. pose proof (Z.div_mod p 8). lia.
Qed.

Lemma aligned_ok p : 0 <= p -> p mod 8 = 0 -> is_aligned (p + 8) = true.
Proof.
  intros Hp H8. unfold is_aligned. rewrite land_mask by lia.
  rewrite Z.add_mod, H8 by lia. done.
Qed.

Lemma arena_marked s l1 c l2 : arena_ok s (l1 ++ c :: l2) ->
  mark_get (heap s) (heap_address + total l1) = true.
Proof.
  intros Ha. destruct (arena_range _ _ _ _ Ha) as (_ & _ & R8 & _). rewrite mark_get_ok by done.
  apply bool_decide_eq_true.
  replace (heap_address + total l1) with (heap_address + total l1 + sizeof_header - sizeof_header) by lia.
  apply (ao_marked _ _ Ha). apply list_elem_of_fmap. exists (heap_address + total l1 + sizeof_header, c).
  split; [done|apply placed_in].
Qed.

Lemma arena_shift s l1 c d l2 : arena_ok s (l1 ++ c :: d :: l2) <-> arena_ok s ((l1 ++ [c]) ++ d :: l2).
Proof. by rewrite <- app_assoc. Qed.

Lemma ok_any_chunk_ok s l1 c d l2 : arena_ok s (l1 ++ c :: d :: l2) ->
  ok_any_chunk (heap_address + total l1) s = Ok (tt, s).
Proof.
  intros Ha. apply when_debug_ok. mpure.
  mrun (massert_ok _ _ (arena_marked _ _ _ _ Ha)). mrun (arena_next _ _ _ _ _ Ha). mpure.
  mrun (massert_ok _ _ (arena_marked _ _ _ _ (proj1 (arena_shift _ _ _ _ _) Ha))).
  destruct (arena_range _ _ _ _ Ha) as (R1 & _ & R8 & Hh & Eb & _). rewrite Eb.
  pose proof base_below. pose proof ms_below.
  assert (0 <= heap_address + total l1) as R0 by lia.
  mrun (massert_ok _ s (aligned_ok _ R0 R8)). apply massert_ok. by apply ok_address_heap.
Qed.

(** A chunk in use whose neighbours know it. *)
Lemma ok_in_use_chunk_ok s l1 c d l2 :
  arena_ok s (l1 ++ c :: d :: l2) -> cuse c = true -> cpin d = true -> cpin c = last_use true l1 ->
  ok_in_use_chunk (heap_address + total l1) s = Ok (tt, s).
Proof.
  intros Ha Hc Hd Hp. apply when_debug_ok. mrun (ok_any_chunk_ok _ _ _ _ _ Ha).
  mrun (arena_header _ _ _ _ Ha). mrun (massert_ok _ s Hc). mrun (arena_next _ _ _ _ _ Ha).
  mrun (arena_header _ _ _ _ (proj1 (arena_shift _ _ _ _ _) Ha)). mrun (massert_ok _ s Hd).
  unfold is_prev_in_use. cbn [isPrevInUse header_of]. destruct (cpin c) eqn:E; [done|].
  destruct l1 as [|b l1 _] using rev_ind; [done|].
  rewrite <- app_assoc in Ha. cbn [app] in Ha.
  mrun (arena_prev _ _ _ _ _ Ha). mrun (arena_next _ _ _ _ _ Ha).
  apply massert_ok, Z.eqb_refl.
Qed.

(** A free chunk that is in the bins. *)
Lemma ok_free_chunk_ok s l F l1 c d l2 :
  heap_ok s l F -> l = l1 ++ c :: d :: l2 -> cuse c = false ->
  ok_free_chunk (heap_address + total l1) s = Ok (tt, s).
Proof.
  intros [Ha Hf Hp Ht Hr Hb] -> Hc. apply when_debug_ok. pose proof Ha as Ha'. apply arena_shift in Ha'.
  apply flags_app in Hf as [_ (Hf1 & Hf2 & Hf3 & Hf4 & _)]. rewrite Hc in *. specialize (Hf2 eq_refl).
  apply footed_app in Ht as [_ [[? _]|[[Hm H8] _]]]; [done| |done].
  apply Forall_app in Hp as [_ [Hp _]%Forall_cons]. destruct (Hp Hc) as [Hse _].
  destruct (arena_range _ _ _ _ Ha) as (R1 & _ & R8 & Hh & Eb & _).
  assert (is_well_formed (rings s) (heap_address + total l1 + 8) = Some true) as Hw.
  { eapply binned_well_formed; [exact Hb|]. exists (csize c). apply Hr. exists c.
    split; [apply placed_in|done]. }
  mrun (arena_size _ _ _ _ Ha). mrun (arena_next _ _ _ _ _ Ha).
  mrun (ok_any_chunk_ok _ _ _ _ _ Ha). mrun (arena_header _ _ _ _ Ha).
  unfold is_in_use, is_prev_in_use. cbn [isCurrInUse header_of isPrevInUse isSealedObject].
  rewrite Hc, Hse. mrun (massert_ok true s eq_refl). mrun (massert_ok true s eq_refl).
  mrun (arena_header _ _ _ _ Ha'). cbn [isCurrInUse header_of isPrevInUse].
  rewrite Hf3. mrun (massert_ok true s eq_refl). rewrite Eb.
  mrun (ring_of_ok _ _ _ Hw). mrun (massert_ok true s eq_refl).
  rewrite (proj2 (Z.leb_le _ _)) by apply Hm. pose proof base_below. pose proof ms_below.
  assert ((Z.land (csize c) MallocAlignMask =? 0) = true) as ->.
  { rewrite land_mask, H8; [done|]. change MinChunkSize with 16 in Hm. lia. }
  mrun (massert_ok true s eq_refl). assert (0 <= heap_address + total l1) as R0 by lia.
  mrun (massert_ok _ s (aligned_ok _ R0 R8)).
  assert (prevsize_get (header_of (last_size 0 (l1 ++ [c])) d) = csize c) as ->.
  { rewrite last_size_app. cbn [last_size last from_option]. apply head_size; [|done].
    change MinChunkSize with 16 in Hm. lia. }
  rewrite Z.eqb_refl. mrun (massert_ok true s eq_refl). rewrite Hf1, Hf2.
  mrun (massert_ok true s eq_refl).
  destruct (cuse d) eqn:Eu; [|by specialize (Hf4 eq_refl)].
  mrun (massert_ok true s eq_refl). mrun (ring_of_ok _ _ _ Hw). by apply massert_ok.
Qed.

(** ** Operations on headers *)

Lemma total_snoc l c : total (l ++ [c]) = total l + csize c.
Proof. rewrite total_app, total_cons. change (total []) with 0. lia. Qed.

(** The addresses of a tiling depend only on its sizes. *)
Lemma placed_same a l l' : csize <$> l' = csize <$> l -> (placed a l').*1 = (placed a l).*1.
Proof.
  revert a l'. induction l as [|c l IH]; intros a [|c' l'] E; try done.
  injection E as E1 E2. cbn [placed fmap list_fmap fst]. by rewrite E1, (IH _ _ E2).
Qed.

Lemma merged_sizes a l1 c d l2 : sizes_ok a (l1 ++ c :: d :: l2) ->
  sizes_ok a (l1 ++ with_csize (csize c + csize d) c :: l2).
Proof.
  intros (Hf & Ht & Ha & Hw). unfold sizes_ok. rewrite total_app, !total_cons in *.
  cbn [csize with_csize]. splits; [|lia..].
  apply Forall_app in Hf as [Hf1 Hf2]. apply Forall_cons in Hf2 as [[Hc Hc8] Hf2].
  apply Forall_cons in Hf2 as [[Hd Hd8] Hf2]. apply Forall_app. split; [done|].
  apply Forall_cons. split; [|done]. split; cbn; [lia|by apply mod8_add].
Qed.

(** The headers of a tiling in which [d] was merged into [c]. *)
Lemma merged_placed a l1 c d l2 : Forall chunk_ok (l1 ++ c :: d :: l2) ->
  forall b, b ∈ (placed a (l1 ++ with_csize (csize c + csize d) c :: l2)).*1 ->
  b ∈ (placed a (l1 ++ c :: d :: l2)).*1 /\ b <> a + total l1 + csize c + sizeof_header.
Proof.
  intros Hok b Hb. pose proof (placed_NoDup a _ Hok) as Hnd. revert Hnd Hb.
  rewrite !placed_app, !fmap_app. cbn [placed fmap list_fmap fst csize with_csize].
  rewrite !Z.add_assoc, !elem_of_app. intros Hnd Hb.
  assert (a + total l1 + csize c + sizeof_header ∉ (placed a l1).*1 ++
    (a + total l1 + sizeof_header) :: (placed (a + total l1 + csize c + csize d) l2).*1) as Hn.
  { assert (forall A x (y : Z) B, A ++ x :: y :: B ≡ₚ y :: A ++ x :: B) as HP by (intros; solve_Permutation).
    rewrite HP in Hnd. by apply NoDup_cons in Hnd as [Hn _]. }
  split; [destruct Hb as [?|[->|Hb]%elem_of_cons]; [by left|right; left|right; right; by right]|].
  intros ->. apply Hn, elem_of_app. done.
Qed.

Lemma unsplit_arena s l1 c d e l2 :
  arena_ok s (l1 ++ c :: d :: e :: l2) -> cclaims d = 0 ->
  exists h, chunk_unsplit (heap_address + total (l1 ++ [c])) (heap_address + total l1) s =
      Ok (tt, with_heap h s) /\
    arena_ok (with_heap h s) (l1 ++ with_csize (csize c + csize d) c :: e :: l2).
Proof.
  intros [Hl Hs Hm Hon] Hd.
  destruct (unsplit_layout debug (heap s) heap_address 0 l1 c d e l2 Hs Hl Hd)
    as (ar & E & Hl' & Hsh & _).
  exists ar. rewrite total_snoc, Z.add_assoc. split; [by apply on_heap_ok|]. split; cbn [heap with_heap].
  - done.
  - by apply merged_sizes.
  - intros b Hb. apply merged_placed in Hb as [Hb Hne]; [|apply Hs]. rewrite Hsh.
    apply elem_of_difference. split; [by apply Hm|]. apply not_elem_of_singleton. lia.
  - intros x Hx. rewrite Hsh in Hx. apply elem_of_difference in Hx as [Hx Hne].
    apply not_elem_of_singleton in Hne. destruct (Hon x Hx) as [Hin|?]; [left|by right].
    revert Hin. rewrite !placed_app, !fmap_app. cbn [placed fmap list_fmap fst csize with_csize].
    rewrite !Z.add_assoc, !elem_of_app, !elem_of_cons. intros [?|[?|[Hin|?]]]; [tauto|tauto|lia|tauto].
Qed.

Lemma split_arena s l1 c d l2 o :
  arena_ok s (l1 ++ c :: d :: l2) -> 0 < o < csize c -> o mod 8 = 0 ->
  exists h, chunk_split (heap_address + total l1) o s =
      Ok (heap_address + total (l1 ++ [with_csize o c]), with_heap h s) /\
    arena_ok (with_heap h s) (l1 ++ with_csize o c :: split_tail o c :: d :: l2).
Proof.
  intros [Hl Hs Hm Hon] Ho H8.
  destruct (split_layout (heap s) heap_address 0 l1 c d l2 o Hs Hl Ho H8) as (ar & E & Hl' & Hsh & _).
  exists ar. unfold chunk_split. rewrite E, total_snoc, Z.add_assoc. split; [done|]. split; cbn [heap with_heap].
  - done.
  - by apply split_sizes_ok.
  - intros b Hb. rewrite Hsh. apply elem_of_union.
    destruct (decide (b = heap_address + total l1 + o + sizeof_header)) as [->|Hne].
    { left. apply elem_of_singleton. lia. }
    right. apply Hm. revert Hb. rewrite !placed_app, !fmap_app.
    cbn [placed fmap list_fmap fst csize with_csize split_tail]. rewrite !elem_of_app, !elem_of_cons.
    replace (heap_address + total l1 + o + (csize c - o)) with (heap_address + total l1 + csize c) by lia.
    tauto.
  - intros x Hx. rewrite Hsh in Hx. revert Hx. rewrite !placed_app, !fmap_app, elem_of_union, elem_of_singleton.
    cbn [placed fmap list_fmap fst csize with_csize split_tail]. rewrite !elem_of_app, !elem_of_cons.
    replace (heap_address + total l1 + o + (csize c - o)) with (heap_address + total l1 + csize c) by lia.
    intros [->|Hx]; [left; right; right; left; lia|]. apply Hon in Hx. revert Hx.
    rewrite placed_app, fmap_app. cbn [placed fmap list_fmap fst]. rewrite elem_of_app, !elem_of_cons.
    tauto.
Qed.

Lemma mark_arena (f : arena -> Z -> outcome arena) s l1 c c' d d' l2 ar :
  f (heap s) (heap_address + total l1) = Ok ar ->
  layout (hdrs ar) heap_address 0 (l1 ++ c' :: d' :: l2) -> shadow ar = shadow (heap s) ->
  csize c' = csize c -> csize d' = csize d ->
  arena_ok s (l1 ++ c :: d :: l2) ->
  on_heap (fun a => f a (heap_address + total l1)) s = Ok (tt, with_heap ar s) /\
  arena_ok (with_heap ar s) (l1 ++ c' :: d' :: l2).
Proof.
  intros E Hl Hsh Ec Ed [_ Hs Hm]. split; [by apply on_heap_ok|].
  assert (csize <$> (l1 ++ c' :: d' :: l2) = csize <$> (l1 ++ c :: d :: l2)) as Es.
  { rewrite !fmap_app. cbn. by rewrite Ec, Ed. }
  split; cbn [heap with_heap]; [done|by eapply sizes_ok_same| |].
  - by rewrite (placed_same _ _ _ Es), Hsh.
  - by rewrite (placed_same _ _ _ Es), Hsh.
Qed.

Definition freed (c : chunk) : chunk := with_csealed false (with_cuse false c).

Lemma mark_free_arena s l1 c d l2 : arena_ok s (l1 ++ c :: d :: l2) ->
  exists h, on_heap (fun a => mark_free a (heap_address + total l1)) s = Ok (tt, with_heap h s) /\
    arena_ok (with_heap h s) (l1 ++ freed c :: with_cpin false d :: l2).
Proof.
  intros Ha. pose proof Ha as [Hl Hs _ _].
  destruct (mark_free_layout _ _ _ _ _ _ _ Hs Hl) as (ar & E & Hl' & Hsh & _).
  exists ar. by eapply (mark_arena mark_free _ _ c (freed c) d).
Qed.

Lemma mark_in_use_arena s l1 c d l2 : arena_ok s (l1 ++ c :: d :: l2) ->
  exists h, on_heap (fun a => mark_in_use a (heap_address + total l1)) s = Ok (tt, with_heap h s) /\
    arena_ok (with_heap h s) (l1 ++ with_cuse true c :: with_cpin true d :: l2).
Proof.
  intros Ha. pose proof Ha as [Hl Hs _ _].
  destruct (mark_in_use_layout _ _ _ _ _ _ _ Hs Hl) as (ar & E & Hl' & Hsh & _).
  exists ar. by eapply (mark_arena mark_in_use _ _ c (with_cuse true c) d).
Qed.

(** ** What a change of the heap leaves alone *)

(** Only headers and bins changed, and of the ring links only the sentinels of the bins
    and the cells [A]. *)
Definition touches s s' (A : Z -> Prop) : Prop :=
  (exists h r tc tb sm tm,
    s' = with_heap h (with_rings r (with_tchunks tc (with_treebins tb (with_maps sm tm s))))) /\
  keeps (rings s) (rings s') (fun q => ~ A q /\ forall i, 0 <= i < NSmallBins -> q <> smallbin_at i).

Lemma touches_trans s1 s2 s3 A : touches s1 s2 A -> touches s2 s3 A -> touches s1 s3 A.
Proof.
  intros [(h & r & tc & tb & sm & tm & ->) K1] [(h' & r' & tc' & tb' & sm' & tm' & ->) K2].
  split; [by exists h', r', tc', tb', sm', tm'|]. intros q Hq. destruct (K1 q Hq), (K2 q Hq).
  split; congruence.
Qed.

Lemma touches_weaken s s' (A B : Z -> Prop) : touches s s' A -> (forall q, A q -> B q) -> touches s s' B.
Proof. intros [O K] HAB. split; [done|]. intros q [Hq Hs]. apply K. naive_solver. Qed.

Lemma touches_heap s h A : touches s (with_heap h s) A.
Proof.
  split; [exists h, (rings s), (tchunks s), (treebins s), (smallmap s), (treemap s); by destruct s|].
  by intros q _.
Qed.

Lemma touches_refl s A : touches s s A.
Proof. pose proof (touches_heap s (heap s) A) as Ht. by destruct s. Qed.

Lemma touches_bins s s' A : bins_frame s s' A -> touches s s' A.
Proof.
  intros [(r & tc & tb & sm & tm & ->) K]. split; [|done].
  exists (heap s), r, tc, tb, sm, tm. by destruct s.
Qed.

Lemma binned_heap s h l X F :
  binned s F -> arena_ok (with_heap h s) l -> frees X F ->
  (forall b c, (b, c) ∈ X -> cuse c = false ->
    exists c', (b, c') ∈ placed heap_address l /\ csize c' = csize c) ->
  binned (with_heap h s) F.
Proof.
  intros Hb Ha Hf HP. eapply (binned_frame s); try done.
  intros b sz (c & Hc & Hu & <-)%Hf. apply HP in Hc as (c' & Hc & <-); [|done].
  apply placed_split in Hc as (l1 & l2 & -> & ->). by eapply arena_chunk_of.
Qed.

(** [q] is in the heap but not the body of a chunk in use. *)
Definition loose (l : list chunk) (q : Z) : Prop :=
  in_heap q /\ forall c, (q, c) ∈ placed heap_address l -> cuse c = false.

Lemma frees_loose s l F q : heap_ok s l F -> is_Some (F !! q) -> loose l q.
Proof.
  intros Hok [sz (c & Hc & Hu & _)%(ho_frees _ _ _ Hok)]. split.
  { pose proof Hc as (l1 & l2 & -> & ->)%placed_split.
    apply (arena_range _ _ _ _ (ho_arena _ _ _ Hok)). }
  intros d Hd. by rewrite (placed_fun _ _ _ _ _ (proj1 (ao_sizes _ _ (ho_arena _ _ _ Hok))) Hd Hc).
Qed.

(** What is around a free chunk. *)
Lemma around_free s l1 c l2 F : heap_ok s (l1 ++ c :: l2) F -> cuse c = false ->
  last_use true l1 = true /\ F !! (heap_address + total l1 + 8) = Some (csize c) /\ size_ok (csize c) /\
  exists e r, l2 = e :: r /\ cuse e = true /\ cpin e = false.
Proof.
  intros [Ha Hf Hp Ht Hr Hb] Hu. apply flags_app in Hf as [_ (Hf1 & Hf2 & Hf3)].
  rewrite Hu in Hf3. splits.
  - rewrite <- Hf1. by rewrite Hf1, Hf2.
  - apply Hr. exists c. split; [apply placed_in|done].
  - destruct l2 as [|e r].
    + apply (footed_app l1 [c]) in Ht as [_ [(_ & ? & _)|[? _]]]; [congruence|done|done].
    + apply footed_app in Ht as [_ [[? _]|[? _]]]; done.
  - destruct l2 as [|e r].
    + apply (footed_app l1 [c]) in Ht as [_ [(_ & ? & _)|[_ []]]]; [congruence|done].
    + destruct Hf3 as (Hf3 & Hf4 & _). exists e, r. splits; [done| |done].
      destruct (cuse e); [done|by specialize (Hf4 eq_refl)].
Qed.

(** A free chunk taken out of the bins. *)
Lemma take_out s s' l1 c l2 F :
  heap_ok s (l1 ++ c :: l2) F -> cuse c = false -> heap s' = heap s ->
  binned s' (delete (heap_address + total l1 + 8) F) ->
  detached s' l1 c l2 (delete (heap_address + total l1 + 8) F).
Proof.
  intros Hok Hu Eh Hb. destruct (around_free _ _ _ _ _ Hok Hu) as (_ & _ & Hs & e & r & -> & _).
  destruct Hok as [Ha Hf Hp Ht Hr _]. apply flags_app in Hf as [Hf1 (Hf2 & _ & Hf3)].
  apply Forall_app in Hp as [Hp1 [Hp Hp2]%Forall_cons]. destruct (Hp Hu).
  apply footed_app in Ht as [Ht1 [[? _]|[_ Ht2]]]; [done| |done].
  split; try done; [by eapply arena_only|by eexists|]. rewrite placed_around in Hr.
  eapply frees_delete; [|exact Hr]. apply around_fresh. apply (ao_sizes _ _ Ha).
Qed.

(** ** Handing out a chunk *)

Definition after_used (l2 : list chunk) : list chunk :=
  match l2 with
  | [] => []
  | e :: r => with_cpin true e :: r
  end.

(** The tiling from [c] on after [nb] bytes of it were handed out: a remainder that
    can be a chunk becomes one. *)
Definition carve (c : chunk) (nb : Z) (l2 : list chunk) : list chunk :=
  if MinChunkSize <=? csize c - nb
  then with_cuse true (with_csize nb c) :: with_cpin true (split_tail nb c) :: l2
  else with_cuse true c :: after_used l2.

Definition hand_out (ins : Z -> Z -> M unit) (p nb rsize : Z) : M unit :=
  _ ← (if MinChunkSize <=? rsize then r ← chunk_split p nb; ins r rsize else mret tt);
  on_heap (fun a => mark_in_use a p).
End Heap.
