(* ===== verification/Release.v ===== *)
(** * Returning a chunk to the free lists

    [mspace_free_internal] of [Allocator] turns the chunk it is given into a free chunk,
    merged with its free neighbours: on the tiling it is [release], and the bins hold
    the free chunks of the result. *)

From S2P Require Import Prelude LinkedList AllocSizes ChunkHeader MState Bins SmallBins TreeBins TreeUnlink FreeLists Allocator Heap.

Section Release.
Context `{EnvOk} {P : Painted}.
Implicit Types (s : MState) (F : gmap Z Z).

(** ** Merging a chunk with its free neighbours *)

(** [c] absorbs its successor [d]. *)
Definition absorb (c d : chunk) : chunk := with_csize (csize c + csize d) c.

Definition join_prev (l1 : list chunk) (c : chunk) : list chunk * chunk :=
  match last l1 with
  | Some d => if cuse d then (l1, c) else (removelast l1, absorb d c)
  | None => (l1, c)
  end.

Definition join_next (c : chunk) (l2 : list chunk) : chunk * list chunk :=
  match l2 with
  | d :: r => if cuse d then (c, l2) else (absorb c d, r)
  | [] => (c, l2)
  end.

Lemma join_prev_snoc l1 d c : cuse d = false -> join_prev (l1 ++ [d]) c = (l1, absorb d c).
Proof. intros Hd. unfold join_prev. by rewrite last_snoc, Hd, removelast_last. Qed.

Lemma join_prev_used l1 c : last_use true l1 = true -> join_prev l1 c = (l1, c).
Proof. unfold join_prev, last_use. destruct (last l1); [by intros ->|done]. Qed.

Lemma merged_size_ok a l1 c d l2 : sizes_ok a (l1 ++ c :: d :: l2) ->
  size_ok (csize c) -> size_ok (csize d) -> size_ok (csize c + csize d).
Proof.
  intros (Hf & Ht & _) [Hc Hc8] [Hd Hd8]. split; [|by apply mod8_add].
  apply Forall_app in Hf as [Hf1 Hf2]. apply Forall_cons in Hf2 as [_ Hf2].
  apply Forall_cons in Hf2 as [_ Hf2]. pose proof (total_nonneg _ Hf1). pose proof (total_nonneg _ Hf2).
  rewrite total_app, !total_cons in Ht. change MinChunkSize with 16 in *. lia.
Qed.

Lemma detached_fresh s l1 c l2 F : detached s l1 c l2 F ->
  F !! (heap_address + total l1 + sizeof_header) = None.
Proof.
  intros D. eapply frees_none; [apply (dt_frees _ _ _ _ _ D)|]. apply around_fresh.
  apply (ao_sizes _ _ (dt_arena _ _ _ _ _ D)).
Qed.

Lemma consolidate_backward_ok s l1 c l2 F :
  detached s l1 c l2 F ->
  exists s' l1' c' F', consolidate_backward (heap_address + total l1) s = Ok (heap_address + total l1', s') /\
    join_prev l1 c = (l1', c') /\ detached s' l1' c' l2 F' /\ last_use true l1' = true /\
    touches s s' (fun q => is_Some (F !! q)) /\ F' ⊆ F /\ (heap_address + total l1' = heap_address + total l1 \/
      is_Some (F !! (heap_address + total l1' + sizeof_header))).
Proof.
  intros D. pose proof D as [Ha Hb Hp Hn [Hp1 Hp2] Hc (Hs1 & Hs & Hs2) Hf Hbin].
  unfold consolidate_backward. mrun (arena_header _ _ _ _ Ha).
  unfold is_prev_in_use. cbn [isPrevInUse header_of]. rewrite Hp.
  destruct (last_use true l1) eqn:El.
  { exists s, l1, c, F. splits; try done; [by apply join_prev_used|apply touches_refl|by left]. }
  destruct l1 as [|d l1 _] using rev_ind; [done|]. unfold last_use in El. rewrite last_snoc in El.
  rewrite <- app_assoc in Ha. cbn [app] in Ha.
  mrun (arena_prev _ _ _ _ _ Ha). mrun (arena_size _ _ _ _ Ha).
  destruct (arena_range _ _ _ _ Ha) as (R1 & R2 & R8 & Hh & -> & Efb & _).
  apply Forall_app in Hs1 as [Hs1 [Hsd _]%Forall_cons].
  apply Forall_app in Hp1 as [Hp1 [Hpd _]%Forall_cons]. destruct (Hpd El) as [Hse Hcl].
  set (p := heap_address + total l1) in *.
  assert (Permutation (around heap_address (l1 ++ [d]) (csize c) l2)
    ((p + sizeof_header, d) :: around heap_address l1 (csize d + csize c) l2)) as HP.
  { unfold around. rewrite placed_app, total_snoc. cbn [placed]. fold p.
    replace (heap_address + (total l1 + csize d) + csize c) with (p + (csize d + csize c)) by (unfold p; lia).
    fold p. solve_Permutation. }
  assert (p + sizeof_header ∉ (around heap_address l1 (csize d + csize c) l2).*1) as Hfr.
  { apply (around_fresh heap_address l1 (absorb d c) l2). apply (merged_sizes _ _ _ _ _ (ao_sizes _ _ Ha)). }
  rewrite HP in Hf.
  assert (F !! (p + 8) = Some (csize d)) as HF by (apply Hf; exists d; split; [left|done]).
  destruct (unlink_chunk_ok s F (p + 8) (csize d) Hbin HF Hsd) as (s1 & E1 & Hbin1 & Fr1).
  mrun E1. pose proof (arena_only s s1 _ (only_bins_heap _ _ (proj1 Fr1)) Ha) as Ha1.
  destruct l2 as [|e l2]; [by destruct Hs2|].
  destruct (unsplit_arena s1 l1 d c e l2 Ha1 Hc) as (h & E2 & Ha2).
  mrun E2. pose proof (frees_delete _ _ _ _ Hfr Hf) as Hf'.
  exists (with_heap h s1), l1, (absorb d c), (delete (p + 8) F). splits.
  - done.
  - by apply join_prev_snoc.
  - apply flags_app in Hb as [Hb (Hb1 & Hb2 & _)]. split; try done.
    + splits; [done| |done]. eapply merged_size_ok; [apply (ao_sizes _ _ Ha)|done|done].
    + eapply (binned_heap s1); [done|exact Ha2|exact Hf'|]. intros b x Hx _. exists x. split; [|done].
      rewrite placed_around. by right.
  - apply flags_app in Hb as [_ (Hb1 & Hb2 & _)]. by apply Hb2.
  - eapply touches_trans; [apply touches_bins, Fr1|apply touches_heap].
  - apply delete_subseteq.
  - right. by exists (csize d).
Qed.

Lemma consolidate_forward_ok s l1 c l2 F :
  detached s l1 c l2 F ->
  exists s' c' l2' F', consolidate_forward (heap_address + total l1) s = Ok (tt, s') /\
    join_next c l2 = (c', l2') /\ detached s' l1 c' l2' F' /\ (forall e r, l2' = e :: r -> cuse e = true) /\
    touches s s' (fun q => is_Some (F !! q)) /\ F' ⊆ F.
Proof.
  intros D. pose proof D as [Ha Hb Hp Hn [Hp1 Hp2] Hc (Hs1 & Hs & Hs2) Hf Hbin].
  destruct l2 as [|d l2]; [by destruct Hs2|].
  unfold consolidate_forward. mrun (arena_next _ _ _ _ _ Ha).
  pose proof (proj1 (arena_shift _ _ _ _ _) Ha) as Ha'. mrun (arena_header _ _ _ _ Ha').
  unfold is_in_use. cbn [isCurrInUse header_of]. destruct (cuse d) eqn:Ed.
  { exists s, c, (d :: l2), F. cbn [join_next]. rewrite Ed.
    splits; try done; [by intros e r [= <- <-]|apply touches_refl]. }
  erewrite arena_size_get by exact Ha'.
  destruct (arena_range _ _ _ _ Ha') as (R1 & R2 & R8 & Hh & -> & Efb & _).
  destruct Hs2 as [(_ & ? & _)|[Hsd Hs2]]; [congruence|].
  apply Forall_cons in Hp2 as [Hpd Hp2]. destruct (Hpd Ed) as [Hse Hcl].
  destruct Hn as (b & Hn1 & _ & Hn). rewrite Ed in Hn.
  destruct l2 as [|e l2]; [by destruct Hs2|]. destruct Hn as (Hne & Hnu & Hn).
  assert (cuse e = true) as Hue by (destruct (cuse e); [done|by specialize (Hnu eq_refl)]).
  rewrite total_snoc, !Z.add_assoc in *. set (p := heap_address + total l1) in *.
  assert (Permutation (around heap_address l1 (csize c) (d :: e :: l2))
    ((p + csize c + sizeof_header, d) :: around heap_address l1 (csize c + csize d) (e :: l2))) as HP.
  { unfold around. cbn [placed]. fold p. rewrite !Z.add_assoc. solve_Permutation. }
  assert (p + csize c + sizeof_header ∉ (around heap_address l1 (csize c + csize d) (e :: l2)).*1) as Hfr.
  { intros Hin. pose proof (merged_placed heap_address l1 c d (e :: l2)
      (proj1 (ao_sizes _ _ Ha)) (p + csize c + sizeof_header)) as Hm.
    destruct Hm as [_ Hm]; [|by apply Hm]. fold (absorb c d).
    rewrite placed_around. cbn [fmap list_fmap]. by right. }
  rewrite HP in Hf.
  assert (F !! (p + csize c + 8) = Some (csize d)) as HF by (apply Hf; exists d; split; [left|done]).
  destruct (unlink_chunk_ok s F (p + csize c + 8) (csize d) Hbin HF Hsd) as (s1 & E1 & Hbin1 & Fr1).
  mrun E1. pose proof (arena_only s s1 _ (only_bins_heap _ _ (proj1 Fr1)) Ha) as Ha1.
  destruct (unsplit_arena s1 l1 c d e l2 Ha1 Hcl) as (h & E2 & Ha2).
  rewrite total_snoc, Z.add_assoc in E2. fold p in E2.
  pose proof (frees_delete _ _ _ _ Hfr Hf) as Hf'.
  exists (with_heap h s1), (absorb c d), (e :: l2), (delete (p + csize c + 8) F).
  cbn [join_next]. rewrite Ed. splits; try done.
  - split; try done.
    + exists false. by split; [|split].
    + splits; [done| |done]. eapply merged_size_ok; [apply (ao_sizes _ _ Ha)|done|done].
    + eapply (binned_heap s1); [done|exact Ha2|exact Hf'|]. intros b' x Hx _. exists x. split; [|done].
      rewrite placed_around. by right.
  - by intros ?? [= <- <-].
  - eapply touches_trans; [apply touches_bins, Fr1|apply touches_heap].
  - apply delete_subseteq.
Qed.

(** The chunk after a free one. *)
Definition after_free (l2 : list chunk) : list chunk :=
  match l2 with
  | [] => []
  | e :: r => with_cpin false e :: r
  end.

(** The tiling after [c], between [l1] and [l2], was freed. *)
Definition release (l1 : list chunk) (c : chunk) (l2 : list chunk) : list chunk :=
  let '(l1, c) := join_prev l1 c in
  let '(c, l2) := join_next c l2 in
  l1 ++ freed c :: after_free l2.

Definition finish_free (p : Z) : M unit :=
  _ ← on_heap (fun a => mark_free a p);
  size ← chunk_size p;
  _ ← insert_chunk p size;
  ok_free_chunk p.

Lemma finish_free_ok s l1 c e l2 F :
  detached s l1 c (e :: l2) F -> last_use true l1 = true -> cuse e = true ->
  exists s', finish_free (heap_address + total l1) s = Ok (tt, s') /\
    heap_ok s' (l1 ++ freed c :: after_free (e :: l2))
      (<[heap_address + total l1 + sizeof_header := csize c]> F) /\
    touches s s' (fun q => is_Some (F !! q) \/ q = heap_address + total l1 + sizeof_header).
Proof.
  intros D Hl1 He. pose proof (detached_fresh _ _ _ _ _ D) as Hfr.
  pose proof D as [Ha Hb Hp (b & Hn1 & _ & Hn) [Hp1 Hp2] Hc (Hs1 & Hs & Hs2) Hf Hbin].
  destruct (mark_free_arena s l1 c e l2 Ha) as (h & E1 & Ha1). unfold finish_free. mrun E1.
  mrun (arena_size _ _ _ _ Ha1). cbn [freed csize with_csealed with_cuse].
  destruct (arena_range _ _ _ _ Ha1) as (_ & _ & _ & _ & Eb & _).
  set (p := heap_address + total l1) in *.
  assert (forall b c0, (b, c0) ∈ around heap_address l1 (csize c) (e :: l2) -> cuse c0 = false ->
    exists c', (b, c') ∈ placed heap_address (l1 ++ freed c :: with_cpin false e :: l2) /\
      csize c' = csize c0) as HP.
  { intros b0 c0 Hin _. unfold around in Hin. rewrite elem_of_app in Hin. destruct Hin as [Hin|Hin].
    - exists c0. split; [|done]. rewrite placed_app. apply elem_of_app. by left.
    - cbn [placed] in Hin. apply elem_of_cons in Hin as [[= -> ->]|Hin].
      + exists (with_cpin false e). split; [|done]. rewrite placed_app. apply elem_of_app. right. right. left.
      + exists c0. split; [|done]. rewrite placed_app. apply elem_of_app. right. right. by right. }
  pose proof (binned_heap s h _ _ F Hbin Ha1 Hf HP) as Hbin1.
  pose proof (arena_chunk_of _ _ _ _ Ha1) as Hch. cbn [freed csize with_csealed with_cuse] in Hch.
  fold p in Hch. rewrite <- Eb in Hch. change sizeof_header with 8 in *. rewrite <- Eb in Hfr.
  destruct (insert_chunk_ok (with_heap h s) F p (csize c) Hbin1 Hfr Hch Hs) as (s2 & E2 & Hbin2 & Fr2).
  mrun E2. pose proof (arena_only _ s2 _ (only_bins_heap _ _ (proj1 Fr2)) Ha1) as Ha2.
  rewrite Eb in *.
  assert (heap_ok s2 (l1 ++ freed c :: with_cpin false e :: l2) (<[p + 8:=csize c]> F)) as Hok.
  { split; try done.
    - apply flags_app. split; [done|]. cbn. splits; try done. by rewrite He.
    - apply Forall_app. split; [done|]. apply Forall_cons in Hp2 as [_ Hp2].
      repeat apply Forall_cons_2; try done. intros Hu. cbn in Hu. congruence.
    - apply footed_app; [done|]. split; [done|]. right. split; [done|].
      destruct Hs2 as [[-> Hu]|[? ?]]; [by left|by right].
    - rewrite placed_around. cbn [freed csize with_csealed with_cuse].
      apply (frees_insert (p + 8) (freed c)); [|done|].
      + exact (around_fresh _ _ _ _ (proj1 (ao_sizes _ _ Ha1))).
      + unfold around in Hf |- *. cbn [placed] in Hf |- *. rewrite <- Permutation_middle in Hf |- *.
        apply frees_used in Hf; [|done]. by apply frees_used. }
  exists s2. splits.
  - by eapply (ok_free_chunk_ok s2 _ _ l1 (freed c)).
  - done.
  - eapply touches_trans; [apply touches_heap|]. by apply touches_bins.
Qed.

(** Freeing a chunk that is in use. *)
Lemma free_internal_detached s l1 c e l2 F :
  detached s l1 c (e :: l2) F -> cuse c = true -> cpin e = true ->
  exists s' F', mspace_free_internal (heap_address + total l1) s = Ok (tt, s') /\
    heap_ok s' (release l1 c (e :: l2)) F' /\
    touches s s' (fun q => is_Some (F !! q) \/ q = heap_address + total l1 + sizeof_header).
Proof.
  intros D Hu He. unfold mspace_free_internal.
  mrun (ok_in_use_chunk_ok _ _ _ _ _ (dt_arena _ _ _ _ _ D) Hu He (dt_pin _ _ _ _ _ D)).
  destruct (consolidate_backward_ok _ _ _ _ _ D)
    as (s1 & l1' & c1 & F1 & E1 & J1 & D1 & U1 & T1 & S1 & P1). mrun E1.
  destruct (consolidate_forward_ok _ _ _ _ _ D1)
    as (s2 & c2 & k2 & F2 & E2 & J2 & D2 & U2 & T2 & S2). mrun E2.
  destruct k2 as [|e2 k2]; [by destruct (dt_sizes _ _ _ _ _ D2) as (_ & _ & [])|].
  destruct (finish_free_ok _ _ _ _ _ _ D2 U1 (U2 _ _ eq_refl)) as (s3 & E3 & H3 & T3).
  exists s3, (<[heap_address + total l1' + sizeof_header := csize c2]> F2). splits.
  - exact E3.
  - unfold release. by rewrite J1, J2.
  - eapply touches_trans; [eapply touches_weaken; [exact T1|by left]|].
    eapply touches_trans; (eapply touches_weaken; [eassumption|]).
    + intros q [x Hq]. left. exists x. by eapply lookup_weaken.
    + intros q [[x Hq]| ->].
      * left. exists x. eapply lookup_weaken; [|exact S1]. by eapply lookup_weaken.
      * destruct P1 as [-> |P1]; [by right|by left].
Qed.

Lemma heap_detached s l1 c l2 F :
  heap_ok s (l1 ++ c :: l2) F -> l2 <> [] -> cuse c = true -> cclaims c = 0 -> detached s l1 c l2 F.
Proof.
  intros [Ha Hf Hp Ht Hr Hb] Hne Hu Hc.
  apply flags_app in Hf as [Hf1 (Hf2 & _ & Hf3)]. apply Forall_app in Hp as [Hp1 [_ Hp2]%Forall_cons].
  apply footed_app in Ht as [Ht1 [[? _]|[Ht2 Ht3]]]; [done| |done].
  split; try done; [by eexists|]. rewrite placed_around in Hr. by apply frees_used in Hr.
Qed.

Lemma free_internal_ok s l1 c l2 F :
  heap_ok s (l1 ++ c :: l2) F -> l2 <> [] -> cuse c = true -> cclaims c = 0 ->
  exists s' F', mspace_free_internal (heap_address + total l1) s = Ok (tt, s') /\
    heap_ok s' (release l1 c l2) F' /\
    touches s s' (fun q => is_Some (F !! q) \/ q = heap_address + total l1 + sizeof_header).
Proof.
  intros Hh Hne Hu Hc. pose proof (heap_detached _ _ _ _ _ Hh Hne Hu Hc) as D.
  destruct l2 as [|e l2]; [done|]. apply free_internal_detached; [done|done|].
  destruct Hh as [_ Hf _ _ _ _]. apply flags_app in Hf as (_ & _ & _ & Hf & _). congruence.
Qed.
End Release.
