(* ===== verification/Malloc.v ===== *)
(** * Taking a chunk for an allocation

    [malloc_small] and [malloc_large] of [Allocator] choose a free chunk that fits, if
    there is one, and hand out its front, putting what remains back into the bins.
    [granted] says so of the tiling of the heap. *)

From S2P Require Import Prelude LinkedList Bits AllocSizes ChunkHeader MState Bins SmallBins TreeBins TreeUnlink FreeLists TreeSelect Allocator Heap Release.

Section Malloc.
Context `{EnvOk} {P : Painted}.
Implicit Types (s : MState) (F : gmap Z Z).

(** ** Handing out *)

Lemma carve_whole s l1 c e l2 F :
  detached s l1 c (e :: l2) F -> last_use true l1 = true -> cuse e = true ->
  exists s', on_heap (fun a => mark_in_use a (heap_address + total l1)) s = Ok (tt, s') /\
    heap_ok s' (l1 ++ with_cuse true c :: with_cpin true e :: l2) F /\ touches s s' (fun _ => False).
Proof.
  intros D Hl1 He. pose proof D as [Ha Hb Hp (b & Hn1 & _ & Hn) [Hp1 Hp2] Hc (Hs1 & Hs & Hs2) Hf Hbin].
  destruct (mark_in_use_arena s l1 c e l2 Ha) as (h & E & Ha').
  exists (with_heap h s). splits; [done| |apply touches_heap].
  apply Forall_cons in Hp2 as [_ Hp2].
  assert (frees (placed heap_address (l1 ++ with_cuse true c :: with_cpin true e :: l2)) F) as Hf'.
  { rewrite placed_around. apply frees_used; [done|]. unfold around in *. cbn [placed] in *.
    rewrite <- Permutation_middle in Hf |- *. apply frees_used in Hf; [|done]. by apply frees_used. }
  split; try done.
  - apply flags_app. split; [done|]. cbn. splits; [done|done|done|by rewrite He|done].
  - apply Forall_app. split; [done|]. repeat apply Forall_cons_2; [done|intros Hx; cbn in Hx; congruence|done].
  - apply footed_app; [done|]. split; [done|]. right. split; [done|].
    destruct Hs2 as [[-> Hu]|[? ?]]; [by left|by right].
  - eapply (binned_heap s); [done|exact Ha'|exact Hf'|]. intros b0 c0 Hin _. by exists c0.
Qed.

Lemma split_sized c nb : size_ok (csize c) -> size_ok nb -> MinChunkSize <= csize c - nb ->
  size_ok (csize (split_tail nb c)).
Proof.
  intros [Hc Hc8] [Hn Hn8] Hr. split; cbn [csize split_tail].
  - change MinChunkSize with 16 in *. lia.
  - by apply mod8_sub.
Qed.

(** The chunks of a tiling in which [c] was split into [c1] and [c2]. *)
Lemma split_placed a l1 c c1 c2 l2 : csize c1 + csize c2 = csize c ->
  placed a (l1 ++ c1 :: c2 :: l2) ≡ₚ
  (a + total l1 + csize c1 + 8, c2) :: (a + total l1 + 8, c1) :: around a l1 (csize c) l2.
Proof.
  intros E. unfold around. rewrite placed_app. cbn [placed]. rewrite <- E, !Z.add_assoc.
  change sizeof_header with 8. solve_Permutation.
Qed.

Lemma carve_split s l1 c e l2 F nb :
  detached s l1 c (e :: l2) F -> last_use true l1 = true -> cuse c = false -> cuse e = true ->
  cpin e = false -> size_ok nb -> MinChunkSize <= csize c - nb ->
  exists s' F', (r ← chunk_split (heap_address + total l1) nb;
      _ ← insert_chunk r (csize c - nb);
      on_heap (fun a => mark_in_use a (heap_address + total l1))) s = Ok (tt, s') /\
    heap_ok s' (l1 ++ with_cuse true (with_csize nb c) :: with_cpin true (split_tail nb c) :: e :: l2) F' /\
    touches s s' (fun q => is_Some (F !! q) \/ q = heap_address + total l1 + nb + 8).
Proof.
  intros D Hl1 Hu He Hpe Hnb Hr. pose proof D as [Ha Hb Hp (b & Hn1 & _ & Hn) [Hp1 Hp2] Hc (Hs1 & Hs & Hs2) Hf Hbin].
  pose proof (split_sized _ _ Hs Hnb Hr) as Hst.
  assert (0 < nb < csize c) as Hlt by (destruct Hnb; change MinChunkSize with 16 in *; lia).
  destruct (split_arena s l1 c e l2 nb Ha Hlt (proj2 Hnb)) as (h & E & Ha1). mrun E.
  pose proof Ha1 as Ha1'. apply arena_shift in Ha1'.
  destruct (arena_range _ _ _ _ Ha1') as (_ & _ & _ & _ & Eb & _).
  pose proof (arena_chunk_of _ _ _ _ Ha1') as Hch. rewrite <- Eb in Hch.
  assert (forall c1 c2, csize c1 = nb -> csize c2 = csize c - nb ->
    placed heap_address (l1 ++ c1 :: c2 :: e :: l2) ≡ₚ
    (heap_address + total l1 + nb + 8, c2) :: (heap_address + total l1 + 8, c1) ::
      around heap_address l1 (csize c) (e :: l2)) as HP.
  { intros c1 c2 <- E2. apply split_placed. lia. }
  set (r := heap_address + total (l1 ++ [with_csize nb c])) in *.
  assert (r = heap_address + total l1 + nb) as Er by (unfold r; rewrite total_snoc; cbn; lia).
  rewrite <- Er in *.
  assert (r + 8 ∉ (around heap_address l1 (csize c) (e :: l2)).*1) as Hfr.
  { pose proof (placed_NoDup heap_address _ (proj1 (ao_sizes _ _ Ha1))) as Hnd. rewrite HP in Hnd by done.
    cbn [fmap list_fmap fst] in Hnd. apply NoDup_cons in Hnd as [Hfr _]. intros Hin. apply Hfr. by right. }
  assert (binned (with_heap h s) F) as Hbin1.
  { eapply binned_heap; [done|exact Ha1|exact Hf|]. intros b0 c0 Hin _. exists c0. split; [|done].
    rewrite HP by done. right. by right. }
  assert (F !! body r = None) as Hnone by (rewrite Eb; by eapply frees_none).
  destruct (insert_chunk_ok (with_heap h s) F r _ Hbin1 Hnone Hch Hst) as (s2 & E2 & Hbin2 & Fr2).
  cbn [csize split_tail] in E2. mrun E2.
  pose proof (arena_only _ s2 _ (only_bins_heap _ _ (proj1 Fr2)) Ha1) as Ha2.
  destruct (mark_in_use_arena s2 l1 (with_csize nb c) (split_tail nb c) (e :: l2) Ha2) as (h3 & E3 & Ha3).
  exists (with_heap h3 s2), (<[r + 8 := csize c - nb]> F). rewrite Eb in *.
  assert (frees (placed heap_address (l1 ++ with_cuse true (with_csize nb c) ::
    with_cpin true (split_tail nb c) :: e :: l2)) (<[r + 8 := csize c - nb]> F)) as Hf3.
  { rewrite HP, Permutation_swap by done. apply frees_used; [done|].
    by apply (frees_insert (r + 8) (with_cpin true (split_tail nb c))). }
  splits; [done| |].
  - split; try done.
    + apply flags_app. split; [done|]. cbn. rewrite Hu. by rewrite He in Hn |- *.
    + apply Forall_app. split; [done|]. repeat apply Forall_cons_2; [done|done| |];
        by apply Forall_cons in Hp2 as [? ?].
    + apply footed_app; [done|]. split; [done|]. right. split; [done|]. right. by split.
    + eapply (binned_heap s2); [done|exact Ha3|exact Hf3|]. intros b0 c0 Hin _. by exists c0.
  - eapply touches_trans; [apply touches_heap|]. eapply touches_trans; [|apply touches_heap].
    by apply touches_bins.
Qed.

Lemma hand_out_ok ins s l1 c e l2 F nb :
  detached s l1 c (e :: l2) F -> last_use true l1 = true -> cuse c = false -> cuse e = true ->
  cpin e = false -> size_ok nb -> nb <= csize c ->
  (forall r, MinChunkSize <= csize c - nb -> ins r (csize c - nb) = insert_chunk r (csize c - nb)) ->
  exists s' F', hand_out ins (heap_address + total l1) nb (csize c - nb) s = Ok (tt, s') /\
    heap_ok s' (l1 ++ carve c nb (e :: l2)) F' /\
    touches s s' (fun q => is_Some (F !! q) \/ heap_address + total l1 + 8 < q < heap_address + total l1 + csize c + 8).
Proof.
  intros D Hl1 Hu He Hpe Hnb Hle Hins. unfold hand_out, carve.
  destruct (Z.leb_spec MinChunkSize (csize c - nb)) as [Hr|Hr].
  - destruct (carve_split s l1 c e l2 F nb) as (s' & F' & E & Hok & T); [done..|].
    exists s', F'. splits; [|done|].
    + rewrite M_assoc. revert E. unfold mbind, M_bind.
      destruct (chunk_split _ _ s) as [[r s1]|]; cbn; [by rewrite Hins|done].
    + eapply touches_weaken; [exact T|]. intros q [?| ->]; [by left|right].
      destruct Hnb; change MinChunkSize with 16 in *; lia.
  - destruct (carve_whole s l1 c e l2 F) as (s' & E & Hok & T); [done..|].
    exists s', F. splits; [done|done|]. eapply touches_weaken; [exact T|done].
Qed.

(** ** What an allocation of [nb] bytes does to the heap: a free chunk of [sz] bytes is
    carved. *)

Definition granted s (l : list chunk) (nb sz p : Z) s' : Prop :=
  exists l1 c l2 F', p = heap_address + total l1 /\ l = l1 ++ c :: l2 /\ cuse c = false /\
    csize c = sz /\ nb <= sz /\ heap_ok s' (l1 ++ carve c nb l2) F' /\ touches s s' (loose l).

(** The bins changed by taking out the free chunk at [b], and it is handed out. *)
Lemma grant s s1 l F b sz nb ins :
  heap_ok s l F -> F !! b = Some sz -> size_ok nb -> nb <= sz ->
  binned s1 (delete b F) -> bins_frame s s1 (fun q => is_Some (F !! q)) ->
  (forall r, MinChunkSize <= sz - nb -> ins r (sz - nb) = insert_chunk r (sz - nb)) ->
  exists p s', from_body b = p /\ hand_out ins p nb (sz - nb) s1 = Ok (tt, s') /\ granted s l nb sz p s'.
Proof.
  intros Hok Hb Hnb Hle Hbin Hfr Hins. apply (ho_frees _ _ _ Hok) in Hb as (c & Hc & Hu & <-).
  apply placed_split in Hc as (l1 & l2 & -> & ->). change sizeof_header with 8 in *.
  destruct (around_free _ _ _ _ _ Hok Hu) as (Hl1 & HF & Hs & e & r & -> & He & Hpe).
  pose proof (take_out _ s1 _ _ _ _ Hok Hu (only_bins_heap _ _ (proj1 Hfr)) Hbin) as D.
  destruct (hand_out_ok ins s1 l1 c e r _ nb D) as (s' & F' & E & Hok' & T); [done..|].
  exists (heap_address + total l1), s'. splits; [|done|].
  - by destruct (arena_range _ _ _ _ (ho_arena _ _ _ Hok)) as (_ & _ & _ & _ & _ & ? & _).
  - exists l1, c, (e :: r), F'. splits; try done.
    eapply touches_trans.
    + eapply touches_weaken; [by apply touches_bins|]. intros q Hq. by eapply frees_loose.
    + eapply touches_weaken; [exact T|]. intros q [[x [_ Hq]%lookup_delete_Some]|Hq].
      * eapply frees_loose; [done|by exists x].
      * split; [|intros d Hd; apply placed_between in Hd; [|apply (ao_sizes _ _ (ho_arena _ _ _ Hok))];
          change sizeof_header with 8 in Hd; lia].
        pose proof (ho_arena _ _ _ Hok) as Ha. pose proof Ha as Ha'. apply arena_shift in Ha'.
        destruct (arena_range _ _ _ _ Ha) as (R1 & _). destruct (arena_range _ _ _ _ Ha') as (_ & R2 & _).
        rewrite total_snoc in R2. unfold in_heap. lia.
Qed.

(** ** Bins in order *)

Lemma bit2idx_pow2 i : 0 <= i < 32 -> bit2idx (2 ^ i) = i.
Proof.
  intros Hi. assert (forallb (fun k => bit2idx (2 ^ Z.of_nat k) =? Z.of_nat k) (seq 0 32) = true) as Hc
    by (vm_compute; reflexivity).
  rewrite forallb_forall in Hc. specialize (Hc (Z.to_nat i)). rewrite Z2Nat.id in Hc by lia.
  apply Z.eqb_eq, Hc, in_seq. lia.
Qed.

(** The index of the least bit of a map. *)
Lemma least_bit m : m in_u 32 -> truth m = true ->
  exists i, bit2idx (isolate_least 32 m) = i /\ 0 <= i < 32 /\ Z.testbit m i = true /\
    forall j, 0 <= j < i -> Z.testbit m j = false.
Proof.
  intros Hm Ht. unfold truth in Ht. apply negb_true_iff, Z.eqb_neq in Ht.
  destruct (least_exists m ltac:(lia)) as (i & Hl). pose proof Hl as (Hi & Hb & Hlow).
  pose proof (least_bound 32 m i Hm Hl). exists i.
  rewrite (isolate_least_pow2 32 ltac:(lia) m i Hm Hl), bit2idx_pow2 by lia. splits; try done; lia.
Qed.

Lemma no_bits m : truth m = false -> forall j, Z.testbit m j = false.
Proof. unfold truth. intros Hm j. zbool. subst m. apply Z.testbit_0_l. Qed.

Lemma minsize_mono i j : 0 <= i <= j -> j < NTreeBins -> minsize_for_tree_index i <= minsize_for_tree_index j.
Proof.
  intros Hij Hj. assert (forallb (fun k => forallb (fun m =>
    negb (m <=? k)%nat || (minsize_for_tree_index (Z.of_nat m) <=? minsize_for_tree_index (Z.of_nat k)))
    (seq 0 12)) (seq 0 12) = true) as Hc by (vm_compute; reflexivity).
  unfold NTreeBins in Hj. rewrite forallb_forall in Hc. specialize (Hc (Z.to_nat j) ltac:(apply in_seq; lia)).
  rewrite forallb_forall in Hc. specialize (Hc (Z.to_nat i) ltac:(apply in_seq; lia)).
  rewrite !Z2Nat.id in Hc by lia. apply orb_true_iff in Hc as [Hc|Hc]; [|by apply Z.leb_le].
  apply negb_true_iff, Nat.leb_gt in Hc. lia.
Qed.

(** Sizes of a lower bin are smaller. *)
Lemma bin_lt i j y z : 0 <= i < j -> j < NTreeBins -> in_bin i y -> in_bin j z -> y < z.
Proof.
  intros Hij Hj [Ei Hy] [Ej Hz]. change MaxSmallSize with 64 in *.
  destruct (tree_index_spec debug y ltac:(lia)) as (iy & Ey & _ & _ & Uy).
  destruct (tree_index_spec debug z ltac:(lia)) as (iz & Ez & _ & Lz & _).
  rewrite Ei in Ey. rewrite Ej in Ez. injection Ey as <-. injection Ez as <-.
  pose proof (minsize_mono (i + 1) j ltac:(lia) Hj). specialize (Uy ltac:(lia)). lia.
Qed.

(** ** The trees *)

Lemma large_not_small z : MaxSmallSize < z < 2 ^ 32 -> is_small z = false.
Proof.
  intros Hz. pose proof Hz as Hz'. change MaxSmallSize with 64 in Hz'.
  destruct (small_bins z ltac:(lia)) as [Hs _]. destruct (is_small z); [|done].
  pose proof (proj1 Hs eq_refl). lia.
Qed.

(** A size that is asked for; it may be more than a chunk can have. *)
Definition request_ok (nb : Z) : Prop := MinChunkSize <= nb < 2 ^ 32 /\ nb mod 8 = 0.

Lemma size_request nb : size_ok nb -> request_ok nb.
Proof. intros [[? Hm] ?]. split; [|done]. change MaxChunkSize with 524280 in Hm. lia. Qed.

Lemma request_small nb : request_ok nb -> nb <= MaxSmallSize -> size_ok nb.
Proof.
  intros [[? _] ?] ?. split; [|done]. change MaxChunkSize with 524280. change MaxSmallSize with 64 in *. lia.
Qed.

Lemma request_fits nb sz : request_ok nb -> size_ok sz -> nb <= sz -> size_ok nb.
Proof. intros [[? _] ?] [[_ ?] _] ?. split; [lia|done]. Qed.

(** The chunk that [tmalloc_smallest] takes below a node that fits. *)
Lemma tmalloc_smallest_ok s l F g i C a sz mates lt rt nb :
  heap_ok s l F -> bins_ok s g -> (forall b z, F !! b = Some z <-> held g b z) ->
  0 <= i < NTreeBins -> tre g i = plug C (Node a sz mates lt rt) -> request_ok nb -> nb <= sz ->
  exists p s' z, tmalloc_smallest a nb s = Ok (p, s') /\ granted s l nb z p s' /\ z <= sz /\
    (Forall (fun y => nb <= y) (sizes (Node a sz mates lt rt)) ->
      forall y, y ∈ sizes (Node a sz mates lt rt) -> z <= y).
Proof.
  intros Hok Hg HF Hi Et Hrq Hle. assert (0 < nb <= sz) as Hnb' by (destruct Hrq; change MinChunkSize with 16 in *; lia).
  destruct (smallest_pick s g i C a sz mates lt rt nb Hg Hi Et Hnb') as (rsize & v & b & E & Hn & Hb & Hr & Hbest).
  assert ((b, nb + rsize) ∈ chunks_of (tre g i)) as Hin by (rewrite Et, chunks_plug; apply elem_of_app; by right).
  assert ((a, sz) ∈ chunks_of (tre g i)) as Hin0
    by (rewrite Et, chunks_plug; apply elem_of_app; right; left).
  assert (F !! b = Some (nb + rsize)) as HFb by (apply HF; right; by exists i).
  destruct (tree_chunk s i (tre g i) a sz (bo_tree _ _ Hg i Hi) Hin0) as [Hca _].
  destruct (tree_chunk s i (tre g i) b _ (bo_tree _ _ Hg i Hi) Hin) as [Hcb [_ Hlarge]].
  assert (size_ok (nb + rsize)) as Hsz.
  { apply (ho_frees _ _ _ Hok) in HFb as (c & Hc & Hu & Esz). apply placed_split in Hc as (l1 & l2 & -> & ->).
    rewrite <- Esz. apply (around_free _ _ _ _ _ Hok Hu). }
  assert (size_ok nb) as Hnb by (apply (request_fits nb (nb + rsize)); (done || lia)).
  destruct (unlink_chunk_ok s F b (nb + rsize)) as (s1 & E1 & Hbin1 & Fr1); [by exists g|done|done|].
  pose proof (large_not_small _ Hlarge) as Hsm.
  unfold unlink_chunk in E1. rewrite Hsm in E1.
  destruct (grant s s1 l F b (nb + rsize) nb insert_chunk Hok HFb Hnb ltac:(lia) Hbin1 Fr1) as (p & s2 & Ep & E2 & G);
    [done|]. replace (nb + rsize - nb) with rsize in * by lia.
  unfold tmalloc_smallest. mrun (chunk_size_ok _ _ _ Hca). 
  mrun (massert_ok _ s (in_heap_truth a (proj1 Hca))). mrun E. mrun (ring_of_ok _ _ _ Hn).
  rewrite checked_ok by (by apply ok_address_heap, Hcb).
  destruct G as (l1 & c & l2 & F' & -> & El & Hu & Esz & Hle' & Hok' & T).
  pose proof (ho_arena _ _ _ Hok) as Ha. rewrite El in Ha. rewrite Ep.
  mrun (arena_header _ _ _ _ Ha). erewrite arena_size_get by exact Ha.
  pose proof Hok as Hok0. rewrite El in Hok0. destruct (around_free _ _ _ _ _ Hok0 Hu) as (Hl1 & _ & Hs & _).
  assert ((csize c =? u32 (rsize + nb)) = true) as Heq.
  { apply Z.eqb_eq. rewrite Esz. destruct Hs as [Hs _]. change MaxChunkSize with 524280 in Hs.
    unfold u32. rewrite wrap_small by lia. lia. }
  mrun (massert_ok _ s Heq).
  assert (is_prev_in_use (header_of (last_size 0 l1) c) = true) as Hpin.
  { unfold is_prev_in_use. cbn [isPrevInUse header_of]. pose proof (ho_flags _ _ _ Hok0) as Hf.
    apply flags_app in Hf as [_ [Hf _]]. by rewrite Hf, Hl1. }
  mrun (massert_ok _ s Hpin). mrun E1. rewrite <- M_assoc. unfold hand_out in E2. mrun E2.
  exists (heap_address + total l1), s2, (nb + rsize). splits; [done| |lia|].
  - by exists l1, c, l2, F'.
  - intros Hall y Hy. by apply Hbest.
Qed.

Lemma chunks_sizes b sz t : (b, sz) ∈ chunks_of t -> sz ∈ sizes t.
Proof. intros (C & a & m & l & r & -> & _)%in_tree. apply sizes_plug. right. left. Qed.

(** A free chunk that is not small is in a tree. *)
Lemma held_large g b sz : held g b sz -> MaxSmallSize < sz ->
  exists j, 0 <= j < NTreeBins /\ sz ∈ sizes (tre g j).
Proof.
  intros [(i & Hi & _ & ->)|(j & Hj & Hb)] Hlt.
  - pose proof (small_size_max i Hi). lia.
  - exists j. split; [done|]. by eapply chunks_sizes.
Qed.

(** The tree of a bin whose bit is set: its root, and its sizes. *)
Lemma bin_tree s g i : bins_ok s g -> 0 <= i < NTreeBins -> Z.testbit (treemap s) i = true ->
  exists a sz m l r, tre g i = Node a sz m l r /\ treebin_get i s = Ok (a, s) /\ truth a = true /\
    (forall z, z ∈ sizes (tre g i) -> in_bin i z).
Proof.
  intros [_ Ht _] Hi Hb. destruct (Ht i Hi) as (T1 & T2 & _ & _ & T5 & T6 & _). rewrite Forall_forall in T5.
  rewrite Hb in T6. destruct (tre g i) as [|a sz m l r]; [done|]. exists a, sz, m, l, r.
  splits; [done|by apply treebin_get_ok|exact (root_truth _ _ _ _ T2)|exact T5].
Qed.

Lemma bin_untaken s g i : bins_ok s g -> 0 <= i < NTreeBins -> Z.testbit (treemap s) i = false ->
  tre g i = Leaf.
Proof.
  intros [_ Ht _] Hi Hb. destruct (Ht i Hi) as (_ & _ & _ & _ & _ & T6 & _). rewrite Hb in T6.
  by destruct (tre g i).
Qed.

Lemma treemap_range s g : bins_ok s g -> treemap s in_u 32.
Proof. intros [_ Ht _]. by destruct (Ht 0 ltac:(unfold NTreeBins; lia)) as (_ & _ & _ & _ & _ & _ & T7). Qed.

Lemma treemap_bound s g i : bins_ok s g -> Z.testbit (treemap s) i = true -> i < NTreeBins.
Proof.
  intros [_ _ [_ HM]] Hb. destruct (Z.ltb_spec i NTreeBins) as [|Hge]; [done|].
  by rewrite HM in Hb.
Qed.

(** The smallest chunk of the first tree from which everything fits. *)
Lemma take_from_bin s l F g i nb :
  heap_ok s l F -> bins_ok s g -> (forall b z, F !! b = Some z <-> held g b z) ->
  0 <= i < NTreeBins -> Z.testbit (treemap s) i = true -> request_ok nb ->
  (forall z, z ∈ sizes (tre g i) -> nb <= z) ->
  (forall j z, 0 <= j < i -> z ∈ sizes (tre g j) -> z < nb) ->
  exists p s' z, (t ← treebin_get i; tmalloc_smallest t nb) s = Ok (p, s') /\ granted s l nb z p s' /\
    forall b sz, F !! b = Some sz -> MaxSmallSize < sz -> nb <= sz -> z <= sz.
Proof.
  intros Hok Hg HF Hi Hb Hnb Hfit Hlow.
  destruct (bin_tree s g i Hg Hi Hb) as (a & sz & m & lt & rt & Et & E & _ & Hin). mrun E.
  destruct (tmalloc_smallest_ok s l F g i [] a sz m lt rt nb) as (p & s' & z & E1 & G & Hz & Hbest);
    [done..|apply Hfit; rewrite Et; left|].
  exists p, s', z. splits; [done|done|]. intros b y Hy Hl Hle.
  apply HF in Hy. destruct (held_large _ _ _ Hy Hl) as (j & Hj & Hyj).
  assert (forall y, y ∈ sizes (tre g i) -> z <= y) as Hmin.
  { intros y0 Hy0. apply Hbest; rewrite <- Et; [by apply Forall_forall|done]. }
  destruct (Z.lt_trichotomy j i) as [Hlt|[->|Hgt]].
  - pose proof (Hlow j y ltac:(lia) Hyj). lia.
  - by apply Hmin.
  - assert (z <= sz) by (apply Hmin; rewrite Et; left).
    enough (sz < y) by lia. apply (bin_lt i j); [lia|lia|apply Hin; rewrite Et; left|].
    destruct (bo_tree _ _ Hg j Hj) as (_ & _ & _ & _ & T5 & _).
    rewrite Forall_forall in T5. by apply T5.
Qed.

Lemma tmalloc_small_ok s l F nb :
  heap_ok s l F -> request_ok nb -> nb <= MaxSmallSize + 1 -> truth (treemap s) = true ->
  exists p s' z, tmalloc_small nb s = Ok (p, s') /\ granted s l nb z p s' /\
    forall b sz, F !! b = Some sz -> MaxSmallSize < sz -> nb <= sz -> z <= sz.
Proof.
  intros Hok Hnb Hsm Ht. destruct (ho_binned _ _ _ Hok) as (g & Hg & HF).
  pose proof (treemap_range _ _ Hg) as Hm.
  destruct (least_bit (treemap s) Hm Ht) as (i & Ei & Hi & Hb & Hlow).
  assert (0 <= i < NTreeBins) as Hi' by (split; [lia|by eapply treemap_bound]).
  unfold tmalloc_small. mpure. rewrite Ei. eapply take_from_bin; try done.
  - intros z Hz. destruct (bin_tree s g i Hg Hi' Hb) as (_ & _ & _ & _ & _ & _ & _ & _ & Hin).
    destruct (Hin z Hz) as [_ ?]. lia.
  - intros j z Hj Hz. rewrite (bin_untaken s g j Hg) in Hz; [by apply elem_of_nil in Hz|lia|by apply Hlow].
Qed.

(** The answer to a request for [nb] bytes: a chunk that fits, or null when there is
    none. *)
Definition answered s (l : list chunk) F (nb p : Z) s' : Prop :=
  (truth p = true /\ exists z, granted s l nb z p s') \/
  (p = 0 /\ s' = s /\ forall b sz, F !! b = Some sz -> sz < nb).

Lemma granted_truth s l nb z p s' : arena_ok s l -> granted s l nb z p s' -> truth p = true.
Proof. intros Ha (l1 & c & l2 & F' & -> & -> & _). by apply (arena_range _ _ _ _ Ha). Qed.

(** The bins after that of the request. *)
Lemma take_above s l F g i nb :
  heap_ok s l F -> bins_ok s g -> (forall b z, F !! b = Some z <-> held g b z) ->
  0 <= i < NTreeBins -> in_bin i nb -> request_ok nb -> Forall (fun z => z < nb) (sizes (tre g i)) ->
  exists p s', (let leftbits := Z.land (above_least 32 (idx2bit i)) (treemap s) in
      if truth leftbits then
        t ← treebin_get (bit2idx (isolate_least 32 leftbits));
        tmalloc_smallest t nb
      else mret 0) s = Ok (p, s') /\ answered s l F nb p s'.
Proof.
  intros Hok Hg HF Hi Hin Hnb Hlt. pose proof (treemap_range _ _ Hg) as Hm. cbv zeta.
  set (leftbits := Z.land (above_least 32 (idx2bit i)) (treemap s)).
  assert (forall j, 0 <= j -> Z.testbit leftbits j = (i <? j) && Z.testbit (treemap s) j) as Hbits.
  { intros j Hj. unfold leftbits. rewrite Z.land_spec.
    assert (idx2bit i = 2 ^ i) as ->.
    { unfold idx2bit. rewrite Z.shiftl_1_l. apply wrap_small. unfold NTreeBins in Hi.
      split; [apply Z.pow_nonneg; lia|]. apply Z.pow_lt_mono_r; lia. }
    rewrite above_least_bits by (unfold NTreeBins in Hi; lia).
    destruct (Z.ltb_spec j 32); [by rewrite andb_true_r|].
    rewrite (testbit_high 32 (treemap s) j) by done. by rewrite !andb_false_r. }
  assert (forall j z, 0 <= j < i -> z ∈ sizes (tre g j) -> z < nb) as Hlow.
  { intros j z Hj Hz. apply (bin_lt j i); [lia|lia| |done].
    destruct (bo_tree _ _ Hg j ltac:(lia)) as (_ & _ & _ & _ & T5 & _).
    rewrite Forall_forall in T5. by apply T5. }
  rewrite Forall_forall in Hlt. destruct (truth leftbits) eqn:Et.
  - assert (leftbits in_u 32) as Hlb by (by apply land_bound).
    destruct (least_bit leftbits Hlb Et) as (j & -> & Hj & Hb & Hjl).
    rewrite Hbits in Hb by lia. apply andb_true_iff in Hb as [Hij Hb0]. apply Z.ltb_lt in Hij. pose proof (treemap_bound _ _ _ Hg Hb0) as Hjn.
    destruct (take_from_bin s l F g j nb) as (p & s' & z & E & G & _); try done; [lia| | |].
    + intros z Hz. destruct (bin_tree s g j Hg ltac:(lia) Hb0) as (_ & _ & _ & _ & _ & _ & _ & _ & Hz').
      enough (nb < z) by lia. apply (bin_lt i j); [lia|lia|done|by apply Hz'].
    + intros k z Hk Hz. destruct (Z.lt_trichotomy k i) as [?|[->|Hgt]];
        [apply (Hlow k); [lia|done]|by apply Hlt|].
      rewrite (bin_untaken s g k Hg) in Hz; [by apply elem_of_nil in Hz|lia|].
      specialize (Hjl k ltac:(lia)). rewrite Hbits in Hjl by lia.
      by rewrite (proj2 (Z.ltb_lt i k)) in Hjl.
    + exists p, s'. split; [done|left]. split; [eapply granted_truth; [apply Hok|done]|by exists z].
  - exists 0, s. split; [done|right]. splits; [done|done|]. intros b sz Hb.
    destruct (Z.ltb_spec sz nb) as [|Hge]; [done|exfalso]. apply HF in Hb.
    destruct (held_large _ _ _ Hb) as (j & Hj & Hz); [destruct Hin; lia|].
    destruct (Z.lt_trichotomy j i) as [?|[->|Hgt]].
    + specialize (Hlow j sz ltac:(lia) Hz). lia.
    + specialize (Hlt sz Hz). lia.
    + pose proof (no_bits _ Et j) as Hn. rewrite Hbits in Hn by lia.
      rewrite (proj2 (Z.ltb_lt i j)) in Hn by lia. cbn [andb] in Hn.
      rewrite (bin_untaken s g j Hg Hj Hn) in Hz. by apply elem_of_nil in Hz.
Qed.

Lemma tmalloc_large_ok s l F nb :
  heap_ok s l F -> request_ok nb -> MaxSmallSize < nb ->
  exists p s', tmalloc_large nb s = Ok (p, s') /\ answered s l F nb p s'.
Proof.
  intros Hok Hnb Hl. destruct (ho_binned _ _ _ Hok) as (g & Hg & HF).
  assert (64 <= nb < 2 ^ 32) as Hnb32.
  { destruct Hnb as [Hr _]. change MaxSmallSize with 64 in Hl. lia. }
  destruct (tree_index_spec debug nb Hnb32) as (i & Ei & Hi & _ & _).
  assert (in_bin i nb) as Hin by (split; [done|lia]).
  destruct (bo_tree _ _ Hg i Hi) as (T1 & T2 & T3 & T4 & T5 & T6 & _).
  assert (lift (compute_tree_index debug nb) s = Ok (i, s)) as El by (apply reads_ok; by rewrite Ei).
  unfold tmalloc_large. mrun El. mrun (treebin_get_ok i s _ T1).
  rewrite (root_truth _ _ _ _ T2).
  assert (u32 (- nb) = 2 ^ 32 - nb) as ->.
  { unfold u32, wrap. symmetry. apply (Z.mod_unique _ _ (-1)); lia. }
  assert (forall C a sz m lt rt, tre g i = plug C (Node a sz m lt rt) -> nb <= sz ->
    exists p s', tmalloc_smallest a nb s = Ok (p, s') /\ answered s l F nb p s') as Htake.
  { intros C a sz m lt rt Et Hle.
    destruct (tmalloc_smallest_ok s l F g i C a sz m lt rt nb) as (p & s' & z & E & G & _); [done..|].
    exists p, s'. split; [done|left]. split; [eapply granted_truth; [apply Hok|done]|by exists z]. }
  destruct (tre g i) as [|a sz m lt rt] eqn:Et; cbn [negb root].
  - mpure. cbn [truth Z.eqb negb andb]. mpure. eapply take_above; try done. by rewrite Et.
  - rewrite bin_shift by done.
    assert (forall z, z ∈ sizes (Node a sz m lt rt) -> agree (bin_bits i) nb z /\ z in_u 32) as Hz.
    { intros z Hz. rewrite Forall_forall in T5. pose proof (T5 z Hz) as Hb. split; [by apply (bin_agree i)|].
      destruct Hb as [_ Hb]. change MaxSmallSize with 64 in Hb. lia. }
    pose proof (bin_bits_le i Hi) as Hbb.
    destruct (large_loop_ok (bin_bits i) (Node a sz m lt rt) s i RootParent nb tree_fuel T2 ltac:(done)
      T4 Hbb ltac:(unfold tree_fuel; lia) ltac:(apply Forall_forall; intros z Hin'; by apply Hz)
      ltac:(lia) ltac:(apply Forall_forall; intros z Hin'; by apply Hz) T3 0 (2 ^ 32 - nb) 0 ltac:(by left))
      as (t' & v' & E & Hs). mrun E.
    destruct Hs as [[Hv [->|(C & z & m1 & l1 & r1 & Ep & Hle)]]|(-> & _ & [[-> Hlt]|(C & u & Ep & Hu & -> & Hge)])].
    + done.
    + assert (truth v' = true) as -> by (unfold truth; by apply negb_true_iff, Z.eqb_neq).
      rewrite andb_false_r. by eapply Htake.
    + cbn [truth Z.eqb negb andb]. mpure. eapply take_above; try done. by rewrite Et.
    + destruct u as [|b zb mb ub rb]; [done|]. rewrite Ep in T2. apply tree_rep_plug in T2 as [_ T2].
      pose proof (root_truth _ _ _ _ T2) as Ht. cbn [root negb] in Ht |- *. rewrite Ht. cbn [negb andb truth Z.eqb].
      eapply Htake; [done|]. by apply Forall_cons in Hge as [Hge _].
Qed.

(** ** The checks on what was allocated *)

Lemma ok_malloced_ok s l F l1 c d l2 nb :
  heap_ok s l F -> l = l1 ++ c :: d :: l2 -> cuse c = true ->
  0 <= nb <= csize c -> csize c < nb + MinChunkSize ->
  ok_malloced_chunk (heap_address + total l1) nb s = Ok (tt, s).
Proof.
  intros Hok -> Hu Hnb Hlt. pose proof Hok as [Ha Hf _ Ht _ _]. apply when_debug_ok.
  destruct (arena_range _ _ _ _ Ha) as (_ & _ & _ & _ & _ & _ & Htr).
  unfold truth in Htr. apply negb_true_iff in Htr. rewrite Htr. mrun (arena_size _ _ _ _ Ha).
  apply flags_app in Hf as [_ (Hf1 & _ & Hf2 & _)].
  assert (cpin d = true) as Hd by congruence. mrun (ok_in_use_chunk_ok _ _ _ _ _ Ha Hu Hd Hf1).
  apply footed_app in Ht as [_ [[? _]|[[Hs H8] _]]]; [done| |done].
  change MinChunkSize with 16 in *. change MaxChunkSize with 524280 in *.
  assert ((Z.land (csize c) MallocAlignMask =? 0) = true) as E1 by (rewrite land_mask, H8; [done|lia]).
  mrun (massert_ok _ s E1).
  assert ((16 <=? csize c) = true) as E2 by (apply Z.leb_le; lia). mrun (massert_ok _ s E2).
  assert ((nb <=? csize c) = true) as E3 by (apply Z.leb_le; lia). mrun (massert_ok _ s E3).
  apply massert_ok, Z.ltb_lt. unfold u32. rewrite wrap_small; lia.
Qed.

(** The front of what is carved. *)
Lemma carve_form c nb e r : nb <= csize c ->
  exists c' d r', carve c nb (e :: r) = c' :: d :: r' /\ cuse c' = true /\
    nb <= csize c' < nb + MinChunkSize /\ cclaims c' = cclaims c.
Proof.
  intros Hle. unfold carve, after_used. change MinChunkSize with 16.
  destruct (Z.leb_spec 16 (csize c - nb)); eexists _, _, _; (split; [reflexivity|]);
    cbn [cuse with_cuse csize with_csize cclaims]; splits; try done; lia.
Qed.

Lemma granted_ok s l F nb z p s' : heap_ok s l F -> 0 <= nb -> granted s l nb z p s' ->
  ok_malloced_chunk p nb s' = Ok (tt, s').
Proof.
  intros Hok Hnb (l1 & c & l2 & F' & -> & -> & Hu & Ez & Hle & Hok' & _).
  destruct (around_free _ _ _ _ _ Hok Hu) as (_ & _ & _ & e & r & -> & _).
  destruct (carve_form c nb e r ltac:(lia)) as (c' & d & r' & E & Hu' & Hc' & _). rewrite E in Hok'.
  eapply ok_malloced_ok; [exact Hok'|done|done|lia|lia].
Qed.

(** ** Small requests *)

(** The answer is the smallest chunk that fits. *)
Definition best_answer s (l : list chunk) F (nb p : Z) s' : Prop :=
  (truth p = true /\ exists z, granted s l nb z p s' /\
    forall b sz, F !! b = Some sz -> nb <= sz -> z <= sz) \/
  (p = 0 /\ s' = s /\ forall b sz, F !! b = Some sz -> sz < nb).

(** The first chunk of the small bin [i], with [nb] bytes of it handed out. *)
Lemma take_small s l F g i nb ins :
  heap_ok s l F -> bins_ok s g -> (forall b z, F !! b = Some z <-> held g b z) ->
  0 <= i < NSmallBins -> Z.testbit (smallmap s) i = true -> size_ok nb -> nb <= small_index2size i ->
  (forall r, MinChunkSize <= small_index2size i - nb ->
    ins r (small_index2size i - nb) = insert_chunk r (small_index2size i - nb)) ->
  exists p s1 s', unlink_first_small_chunk i s = Ok (p, s1) /\
    hand_out ins p nb (small_index2size i - nb) s1 = Ok (tt, s') /\
    granted s l nb (small_index2size i) p s'.
Proof.
  intros Hok Hg HF Hi Hb Hnb Hle Hins. pose proof (bo_small _ _ Hg i Hi) as (_ & _ & Hbit & _).
  rewrite Hb in Hbit. destruct (small g i) as [|b l'] eqn:El; [done|].
  destruct (unlink_first_ok s g F i b l' Hg HF Hi El) as (s1 & E & HFb & Hbin & Hfr).
  destruct (grant s s1 l F b _ nb ins Hok HFb Hnb Hle Hbin Hfr Hins) as (p & s' & <- & E' & G).
  by exists (from_body b), s1, s'.
Qed.

(** A free chunk that is small is in the bin of its size, whose bit is set. *)
Lemma held_is_small s g b sz : bins_ok s g -> held g b sz -> sz <= MaxSmallSize ->
  exists j, 0 <= j < NSmallBins /\ sz = small_index2size j /\ Z.testbit (smallmap s) j = true.
Proof.
  intros Hg [(i & Hi & Hb & ->)|(j & Hj & Hb)] Hle.
  - exists i. split; [done|split; [done|]]. destruct (bo_small _ _ Hg i Hi) as (_ & _ & -> & _).
    destruct (small g i); [by apply elem_of_nil in Hb|done].
  - destruct (tree_chunk s j _ b sz (bo_tree _ _ Hg j Hj) Hb) as [_ [_ ?]]. lia.
Qed.

Lemma insert_small_is nb r sz : size_ok nb -> MinChunkSize <= sz - nb -> sz <= MaxSmallSize ->
  insert_small_chunk r (sz - nb) = insert_chunk r (sz - nb).
Proof.
  intros [Hnb _] Hr Hle. unfold insert_chunk. change MinChunkSize with 16 in *.
  pose proof Hle as Hle'. change MaxSmallSize with 64 in Hle.
  destruct (small_bins (sz - nb) ltac:(lia)) as [[_ Hs] _]. rewrite Hs; [done|].
  change MaxSmallSize with 64. lia.
Qed.

(** The small bins above [idx] that are not empty. *)
Lemma bits_above m idx : 0 <= idx < 32 -> m in_u 32 ->
  let leftbits := Z.land (u32 (Z.shiftl (Z.shiftr m idx) idx)) (above_least 32 (idx2bit idx)) in
  leftbits in_u 32 /\ forall j, 0 <= j -> Z.testbit leftbits j = Z.testbit m j && (idx <? j).
Proof.
  intros Hi Hm leftbits. assert (idx2bit idx = 2 ^ idx) as E.
  { unfold idx2bit. rewrite Z.shiftl_1_l. apply wrap_small.
    split; [apply Z.pow_nonneg; lia|]. apply Z.pow_lt_mono_r; lia. }
  assert (forall j, 0 <= j -> Z.testbit leftbits j = Z.testbit m j && (idx <? j)) as Hb.
  { intros j Hj. unfold leftbits, u32. rewrite Z.land_spec, wrap_testbit, E, above_least_bits by lia.
    rewrite Z.shiftl_spec by done. destruct (Z.ltb_spec idx j); [|by rewrite !andb_false_r].
    rewrite Z.shiftr_spec by lia. replace (j - idx + idx) with j by lia.
    destruct (Z.ltb_spec j 32); [by rewrite !andb_true_r|].
    by rewrite (testbit_high 32 m j) by done. }
  split; [|done]. replace leftbits with (wrap 32 leftbits); [apply wrap_bound; lia|].
  apply bits_eq. intros j Hj. rewrite wrap_testbit, Hb by lia.
  destruct (Z.ltb_spec j 32); [by rewrite andb_true_r|].
  rewrite (testbit_high 32 m j) by done. done.
Qed.

(** The exact bin is empty: the next bin that is not. *)
Lemma take_next s l F g idx nb :
  heap_ok s l F -> bins_ok s g -> (forall b z, F !! b = Some z <-> held g b z) ->
  0 <= idx < NSmallBins -> size_ok nb -> nb = small_index2size idx ->
  truth (Z.shiftr (smallmap s) idx) = true -> Z.testbit (smallmap s) idx = false ->
  let i := bit2idx (isolate_least 32 (Z.land (u32 (Z.shiftl (Z.shiftr (smallmap s) idx) idx))
             (above_least 32 (idx2bit idx)))) in
  exists p s1 s', unlink_first_small_chunk i s = Ok (p, s1) /\
    hand_out insert_small_chunk p nb (u32 (small_index2size i - nb)) s1 = Ok (tt, s') /\
    granted s l nb (small_index2size i) p s' /\
    forall b sz, F !! b = Some sz -> nb <= sz -> small_index2size i <= sz.
Proof.
  intros Hok Hg HF Hidx Hnb Enb Et Eb. unfold NSmallBins in Hidx.
  assert (smallmap s in_u 32) as Hm.
  { by destruct (bo_small _ _ Hg 0 ltac:(unfold NSmallBins; lia)) as (_ & _ & _ & ?). }
  destruct (bits_above (smallmap s) idx ltac:(lia) Hm) as [Hlb Hbits]. set (leftbits := Z.land _ _) in *.
  assert (truth leftbits = true) as Htl.
  { destruct (truth leftbits) eqn:E; [done|]. exfalso.
    assert (Z.shiftr (smallmap s) idx = 0) as E0; [|by rewrite E0 in Et].
    apply bits_eq. intros j Hj. rewrite Z.shiftr_spec, Z.testbit_0_l by done.
    pose proof (no_bits _ E (j + idx)) as Hn. rewrite Hbits in Hn by lia.
    destruct (decide (j = 0)) as [->|]; [done|].
    by rewrite (proj2 (Z.ltb_lt _ _)), andb_true_r in Hn by lia. }
  destruct (least_bit leftbits Hlb Htl) as (i & Ei & Hi & Hbi & Hlow). cbv zeta. rewrite Ei.
  rewrite Hbits in Hbi by lia. apply andb_true_iff in Hbi as [Hbi Hlt]. apply Z.ltb_lt in Hlt.
  assert (0 <= i < NSmallBins) as Hi'.
  { split; [lia|]. destruct (Z.ltb_spec i NSmallBins) as [|Hge]; [done|].
    by rewrite (proj1 (bo_maps _ _ Hg) i Hge) in Hbi. }
  pose proof (small_size_of i Hi') as Esi. pose proof (small_size_of idx Hidx) as Esx.
  pose proof (small_size_max i Hi') as Hmax.
  assert (u32 (small_index2size i - nb) = small_index2size i - nb) as ->.
  { unfold NSmallBins in Hi'. apply wrap_small. lia. }
  destruct (take_small s l F g i nb insert_small_chunk Hok Hg HF Hi' Hbi Hnb) as (p & s1 & s' & E1 & E2 & G);
    [lia|intros r Hr; by apply insert_small_is|].
  exists p, s1, s'. splits; [done|done|done|]. intros b sz Hb Hle.
  destruct (Z.leb_spec sz MaxSmallSize) as [Hs|Hs]; [|lia]. apply HF in Hb.
  destruct (held_is_small s g b sz Hg Hb Hs) as (j & Hj & -> & Hbj).
  pose proof (small_size_of j Hj) as Esj. destruct (Z.ltb_spec j i) as [Hji|]; [|lia].
  specialize (Hlow j ltac:(lia)). rewrite Hbits, Hbj in Hlow by lia. cbn [andb] in Hlow. zbool.
  assert (j = idx) as -> by lia. congruence.
Qed.

(** A request for a small size: what [malloc_small] finds first. *)
Lemma malloc_small_ok s l F nb :
  heap_ok s l F -> size_ok nb -> nb <= MaxSmallSize ->
  exists p s', malloc_small nb s = Ok (p, s') /\ best_answer s l F nb p s'.
Proof.
  intros Hok Hnb Hsm. destruct (ho_binned _ _ _ Hok) as (g & Hg & HF).
  pose proof Hnb as [[Hn16 _] Hn8]. change MinChunkSize with 16 in Hn16.
  pose proof Hsm as Hsm'. change MaxSmallSize with 64 in Hsm'.
  set (idx := nb / 8 - 1). assert (nb = 8 * (idx + 1)) as Enb by (pose proof (Z.div_mod nb 8); unfold idx; lia).
  assert (0 <= idx < NSmallBins) as Hidx by (unfold NSmallBins; lia).
  clearbody idx. pose proof (small_size_of idx Hidx) as Esz.
  assert (nb <= small_index2size idx) as Hnbi by lia.
  assert (small_index nb = idx) as Eidx by (rewrite Enb, <- Esz; by apply small_index_of).
  assert (forall s' z p, granted s l nb z p s' -> truth p = true) as Htr
    by (intros ???; apply granted_truth, Hok).
  assert (smallmap s in_u 32) as Hm.
  { by destruct (bo_small _ _ Hg 0 ltac:(unfold NSmallBins; lia)) as (_ & _ & _ & ?). }
  unfold malloc_small. rewrite Eidx. mpure.
  assert (Z.land (Z.shiftr (smallmap s) idx) 1 = Z.land (Z.shiftr (smallmap s) idx) (idx2bit 0)) as -> by done.
  rewrite marked_bit, Z.shiftr_spec, Z.add_0_l by lia.
  destruct (Z.testbit (smallmap s) idx) eqn:Eb.
  { destruct (take_small s l F g idx nb insert_small_chunk Hok Hg HF Hidx Eb Hnb Hnbi)
      as (p & s1 & s' & E1 & E2 & G).
    { intros r Hr. change MinChunkSize with 16 in Hr. lia. }
    mrun E1. rewrite Esz, Enb, Z.sub_diag in E2. unfold hand_out in E2.
    assert ((MinChunkSize <=? 0) = false) as E0 by done. rewrite E0 in E2.
    rewrite M_mret in E2. mrun E2. mrun (granted_ok s l F nb _ p s' Hok ltac:(lia) G).
    exists p, s'. split; [done|left]. split; [by eapply Htr|]. eexists. split; [exact G|]. lia. }
  destruct (truth (Z.shiftr (smallmap s) idx)) eqn:Et.
  { destruct (take_next s l F g idx nb Hok Hg HF Hidx Hnb ltac:(lia) Et Eb) as (p & s1 & s' & E1 & E2 & G & Hbest).
    mrun E1. unfold hand_out in E2. rewrite <- M_assoc. mrun E2.
    mrun (granted_ok s l F nb _ p s' Hok ltac:(lia) G).
    exists p, s'. split; [done|left]. split; [by eapply Htr|]. by eexists. }
  assert (forall b sz, F !! b = Some sz -> nb <= sz -> MaxSmallSize < sz) as Hlarge.
  { intros b sz Hb%HF Hle. destruct (Z.leb_spec sz MaxSmallSize) as [Hs|Hs]; [exfalso|lia].
    destruct (held_is_small s g b sz Hg Hb Hs) as (j & Hj & -> & Hbj). rewrite (small_size_of j) in Hle by done.
    pose proof (no_bits _ Et (j - idx)) as Hn. rewrite Z.shiftr_spec in Hn by lia.
    replace (j - idx + idx) with j in Hn by lia. congruence. }
  mpure. destruct (truth (treemap s)) eqn:Em.
  - destruct (tmalloc_small_ok s l F nb Hok (size_request _ Hnb) ltac:(lia) Em) as (p & s' & z & E & G & Hbest). mrun E.
    rewrite (Htr _ _ _ G). mrun (granted_ok s l F nb _ p s' Hok ltac:(lia) G).
    exists p, s'. split; [done|left]. split; [by eapply Htr|]. exists z. split; [done|].
    intros b sz Hb Hle. apply (Hbest b sz Hb); [by eapply Hlarge|done].
  - mpure. exists 0, s. split; [done|right]. splits; [done|done|]. intros b sz Hb.
    destruct (Z.ltb_spec sz nb) as [|Hle]; [done|exfalso]. pose proof (Hlarge b sz Hb Hle) as Hl.
    apply HF in Hb. destruct (held_large _ _ _ Hb Hl) as (j & Hj & Hz).
    rewrite (bin_untaken s g j Hg Hj (no_bits _ Em j)) in Hz. by apply elem_of_nil in Hz.
Qed.

Lemma malloc_large_ok s l F nb :
  heap_ok s l F -> request_ok nb -> MaxSmallSize < nb ->
  exists p s', malloc_large nb s = Ok (p, s') /\ answered s l F nb p s'.
Proof.
  intros Hok Hnb Hl. unfold malloc_large. mpure. destruct Hnb as [Hr H8]. destruct (truth (treemap s)) eqn:Em.
  - destruct (tmalloc_large_ok s l F nb Hok (conj Hr H8) Hl) as (p & s' & E & Ha). mrun E.
    exists p, s'. split; [|done]. destruct Ha as [[-> (z & G)]|(-> & -> & _)]; [|done].
    assert (0 <= nb) as H0' by (change MinChunkSize with 16 in Hr; lia).
    by mrun (granted_ok s l F nb _ p s' Hok H0' G).
  - mpure. exists 0, s. split; [done|right]. splits; [done|done|]. intros b sz Hb.
    destruct (Z.ltb_spec sz nb) as [|Hle]; [done|exfalso].
    destruct (ho_binned _ _ _ Hok) as (g & Hg & HF). apply HF in Hb.
    destruct (held_large _ _ _ Hb ltac:(lia)) as (j & Hj & Hz).
    rewrite (bin_untaken s g j Hg Hj (no_bits _ Em j)) in Hz. by apply elem_of_nil in Hz.
Qed.
End Malloc.
