(* ===== verification/Accounts.v ===== *)
(** * What freeing and allocating leave as it was

    The effect of [release] and [carve] on the tiling: [used] lists the chunks in use, and
    freeing takes one off this list and allocating puts one on it; the bytes in free chunks
    grow or shrink by its size.  [qsum] counts the bytes of a set of chunks. *)

From S2P Require Import Prelude LinkedList AllocSizes ChunkHeader MState Bins SmallBins TreeBins TreeUnlink FreeLists Allocator Heap Release.

(** A chunk up to its copy of the state of its predecessor. *)
Definition strip (c : chunk) : chunk := with_cpin true c.

(** The chunks in use of a tiling. *)
Definition used (a : Z) (l : list chunk) : list (Z * chunk) :=
  omap (fun '(b, c) => if cuse c then Some (b, strip c) else None) (placed a l).

Lemma used_cons a c l : used a (c :: l) =
  (if cuse c then [(a + sizeof_header, strip c)] else []) ++ used (a + csize c) l.
Proof. unfold used. cbn. by destruct (cuse c). Qed.

Lemma used_app a l1 l2 : used a (l1 ++ l2) = used a l1 ++ used (a + total l1) l2.
Proof. unfold used. by rewrite placed_app, omap_app. Qed.

Lemma elem_of_used a l b d : (b, d) ∈ used a l <->
  exists c, (b, c) ∈ placed a l /\ cuse c = true /\ d = strip c.
Proof.
  unfold used. rewrite list_elem_of_omap. split.
  - intros ([b' c] & Hc & E). destruct (cuse c) eqn:Hu; [|done]. injection E as -> <-. by exists c.
  - intros (c & Hc & Hu & ->). exists (b, c). by rewrite Hu.
Qed.

Lemma used_NoDup a l : Forall chunk_ok l -> NoDup (used a l).*1.
Proof.
  intros Hl. revert a. induction Hl as [|c l [Hc _] Hl IH]; intros a; [constructor|].
  rewrite used_cons, fmap_app. destruct (cuse c); [|apply IH]. constructor; [|apply IH].
  intros ([b d] & E & (e & He & _)%elem_of_used)%list_elem_of_fmap. cbn in E. subst b.
  apply placed_range in He; [|done]. lia.
Qed.

(** The bytes in free chunks. *)
Definition total_free (l : list chunk) : Z :=
  foldr (fun c n => (if cuse c then 0 else csize c) + n) 0 l.

Lemma total_free_cons c l : total_free (c :: l) = (if cuse c then 0 else csize c) + total_free l.
Proof. done. Qed.

Lemma total_free_app l1 l2 : total_free (l1 ++ l2) = total_free l1 + total_free l2.
Proof.
  induction l1 as [|c l1 IH]; [done|]. cbn [app]. rewrite !total_free_cons, IH. lia.
Qed.

Lemma total_free_range l : Forall chunk_ok l -> 0 <= total_free l <= total l.
Proof.
  induction 1 as [|c l [Hc _] _ IH]; [done|]. rewrite total_free_cons, total_cons. case_match; lia.
Qed.

(** ** Freeing *)

Lemma join_prev_cases l1 c :
  join_prev l1 c = (l1, c) \/
  exists l d, l1 = l ++ [d] /\ cuse d = false /\ join_prev l1 c = (l, absorb d c).
Proof.
  destruct l1 as [|d l _] using rev_ind; [by left|]. destruct (cuse d) eqn:Ed.
  - left. apply join_prev_used. unfold last_use. by rewrite last_snoc.
  - right. exists l, d. splits; [done|done|]. by apply join_prev_snoc.
Qed.

Lemma join_next_cases c l2 :
  join_next c l2 = (c, l2) \/
  exists d l, l2 = d :: l /\ cuse d = false /\ join_next c l2 = (absorb c d, l).
Proof.
  destruct l2 as [|d l]; [by left|]. cbn. destruct (cuse d) eqn:Ed; [by left|right].
  by exists d, l.
Qed.

Lemma total_free_after_free l : total_free (after_free l) = total_free l.
Proof. by destruct l. Qed.

(** What was freed is free. *)
Lemma release_free l1 c l2 : cuse c = true ->
  total_free (release l1 c l2) = total_free (l1 ++ c :: l2) + csize c.
Proof.
  intros Hu. unfold release. 
  destruct (join_prev_cases l1 c) as [->|(l & d & -> & Hd & ->)];
    [destruct (join_next_cases c l2) as [->|(e & r & -> & He & ->)]
    |destruct (join_next_cases (absorb d c) l2) as [->|(e & r & -> & He & ->)]];
    rewrite !total_free_app, !total_free_cons, total_free_after_free;
    cbn [cuse csize freed absorb with_csize with_cuse with_csealed foldr total_free];
    rewrite ?Hu, ?Hd, ?He; cbn [total_free foldr]; lia.
Qed.

Lemma total_release l1 c l2 : total (release l1 c l2) = total (l1 ++ c :: l2).
Proof.
  assert (forall l, total (after_free l) = total l) as Haf by (by intros []).
  unfold release.
  destruct (join_prev_cases l1 c) as [->|(l & d & -> & Hd & ->)];
    [destruct (join_next_cases c l2) as [->|(e & r & -> & He & ->)]
    |destruct (join_next_cases (absorb d c) l2) as [->|(e & r & -> & He & ->)]];
    rewrite ?total_snoc, !total_app, !total_cons, Haf, ?total_cons; cbn [csize freed absorb with_csize with_cuse
      with_csealed]; change (total []) with 0; lia.
Qed.

Lemma used_after_free a l : used a (after_free l) = used a l.
Proof. destruct l as [|c l]; [done|]. cbn [after_free]. by rewrite !used_cons. Qed.

(** Freeing takes the chunk off the list of those in use. *)
Lemma used_release a l1 c l2 : cuse c = true ->
  used a (release l1 c l2) = used a l1 ++ used (a + total l1 + csize c) l2.
Proof.
  intros Hu. unfold release.
  assert (forall c l, cuse c = false -> used a (l ++ [c]) = used a l) as Hsnoc
    by (intros d l Hd; rewrite used_app, used_cons, Hd; apply app_nil_r).
  destruct (join_prev_cases l1 c) as [->|(l & d & -> & Hd & ->)];
    [destruct (join_next_cases c l2) as [->|(e & r & -> & He & ->)]
    |destruct (join_next_cases (absorb d c) l2) as [->|(e & r & -> & He & ->)]];
    rewrite ?Hsnoc, ?total_snoc by done;
    rewrite used_app, used_cons, used_after_free, ?used_cons, ?He; cbn [cuse csize freed absorb with_csize
      with_cuse with_csealed app]; by rewrite ?Z.add_assoc.
Qed.

Lemma used_split a l1 c l2 : cuse c = true ->
  used a (l1 ++ c :: l2) = used a l1 ++ (a + total l1 + sizeof_header, strip c) :: used (a + total l1 + csize c) l2.
Proof. intros Hu. by rewrite used_app, used_cons, Hu. Qed.

(** ** Allocating *)

(** The size of the chunk handed out. *)
Definition carved (sz nb : Z) : Z := if MinChunkSize <=? sz - nb then nb else sz.

Lemma carve_free l1 c nb l2 : cuse c = false ->
  total_free (l1 ++ carve c nb l2) = total_free (l1 ++ c :: l2) - carved (csize c) nb.
Proof.
  intros Hu. unfold carve, carved, after_used.
  destruct (MinChunkSize <=? csize c - nb); rewrite !total_free_app, !total_free_cons;
    cbn [cuse with_cuse with_csize with_cpin split_tail csize]; rewrite Hu.
  - lia.
  - destruct l2 as [|e r]; [lia|]. rewrite !total_free_cons. cbn [cuse with_cpin csize]. lia.
Qed.

Lemma total_carve l1 c nb l2 : total (l1 ++ carve c nb l2) = total (l1 ++ c :: l2).
Proof.
  unfold carve, after_used. destruct (MinChunkSize <=? csize c - nb); rewrite !total_app, !total_cons;
    cbn [cuse with_cuse with_csize with_cpin split_tail csize]; [lia|]. by destruct l2.
Qed.

(** The chunk handed out of the free chunk [c]. *)
Definition handed (c : chunk) (nb : Z) : chunk := with_cuse true (with_csize (carved (csize c) nb) c).

(** Allocating puts a chunk on the list of those in use. *)
Lemma used_carve a l1 c nb l2 : cuse c = false ->
  used a (l1 ++ carve c nb l2) =
  used a l1 ++ (a + total l1 + sizeof_header, strip (handed c nb)) :: used (a + total l1 + csize c) l2.
Proof.
  intros Hu. rewrite used_app. f_equal. unfold carve, handed, carved, after_used.
  destruct (MinChunkSize <=? csize c - nb).
  - rewrite !used_cons. cbn [cuse with_cuse with_csize with_cpin split_tail csize]. rewrite Hu. cbn [app].
    do 2 f_equal. lia.
  - rewrite used_cons. cbn [cuse with_cuse with_csize csize app]. destruct l2 as [|e l2]; [by destruct c|].
    rewrite !used_cons. by destruct c.
Qed.

Lemma used_free a l1 c l2 : cuse c = false ->
  used a (l1 ++ c :: l2) = used a l1 ++ used (a + total l1 + csize c) l2.
Proof. intros Hu. by rewrite used_app, used_cons, Hu. Qed.

(** ** Bytes of distinct chunks in use *)

Definition qsum (m : list (Z * Z)) : Z := foldr (fun e n => e.2 + n) 0 m.

Lemma qsum_cons e m : qsum (e :: m) = e.2 + qsum m.
Proof. done. Qed.

Lemma qsum_app m1 m2 : qsum (m1 ++ m2) = qsum m1 + qsum m2.
Proof. induction m1 as [|e m1 IH]; [done|]. cbn [app]. rewrite !qsum_cons. lia. Qed.

#[export] Instance qsum_proper : Proper ((≡ₚ) ==> (=)) qsum.
Proof. induction 1; rewrite ?qsum_cons; (lia || congruence). Qed.

(** The chunks in use with their sizes. *)
Definition used_sizes (a : Z) (l : list chunk) : list (Z * Z) := prod_map id csize <$> used a l.

Lemma used_bytes a l : qsum (used_sizes a l) = total l - total_free l.
Proof.
  unfold used_sizes. revert a. induction l as [|c l IH]; intros a; [done|].
  rewrite used_cons, fmap_app, qsum_app, IH, total_cons, total_free_cons.
  destruct (cuse c); cbn; lia.
Qed.

Lemma qsum_nonneg m : Forall (fun e => 0 <= e.2) m -> 0 <= qsum m.
Proof. induction 1; rewrite ?qsum_cons; [done|lia]. Qed.

Lemma qsum_le X m : Forall (fun e => 0 <= e.2) X -> NoDup m -> m ⊆ X -> qsum m <= qsum X.
Proof.
  intros HX. revert X HX. induction m as [|e m IH]; intros X HX Hnd Hm; [by apply qsum_nonneg|].
  apply NoDup_cons in Hnd as [He Hnd].
  assert (e ∈ X) as (Y & HY)%elem_of_Permutation by (apply Hm; left).
  rewrite HY in HX. apply Forall_cons in HX as [He0 HX]. rewrite HY, !qsum_cons.
  enough (qsum m <= qsum Y) by lia. apply IH; [done|done|].
  intros x Hx. assert (x ∈ X) as Hx' by (apply Hm; by right).
  rewrite HY in Hx'. by apply elem_of_cons in Hx' as [->|?].
Qed.

(** The bytes of distinct chunks in use, and the free bytes, are within the heap. *)
Lemma qsum_bound a l m : Forall chunk_ok l -> NoDup m.*1 -> m ⊆ used_sizes a l ->
  qsum m + total_free l <= total l.
Proof.
  intros Hok Hnd Hm. pose proof (used_bytes a l). enough (qsum m <= qsum (used_sizes a l)) by lia.
  apply qsum_le; [|by apply (NoDup_fmap_1 fst)|done].
  apply Forall_forall. intros x ([b d] & -> & (c & Hc & _ & ->)%elem_of_used)%list_elem_of_fmap. cbn.
  apply placed_split in Hc as (k1 & k2 & -> & _). apply Forall_app in Hok as [_ [[? _] _]%Forall_cons]. cbn; lia.
Qed.
