(* ===== verification/Quarantine.v ===== *)
(** * The allocator's invariant, with the quarantine

    [state_ok k s l F q] is the invariant of the allocator: the heap is the tiling [l]
    with the free chunks [F], the chunks in quarantine are those of [q] and their bodies are
    painted, and the byte counts are right ([k] bytes are being handed out).  The ghost part of [q] is, for
    each chunk in quarantine, the epoch at which it was freed; a chunk is in the finished
    ring only after a whole revocation pass has run since. *)

From S2P Require Import Prelude LinkedList RingBuffer Bits AllocSizes ChunkHeader MState Bins SmallBins TreeBins TreeUnlink FreeLists TreeSelect Allocator Heap Release Malloc Accounts.

(** A chunk in quarantine: body, size, and the even epoch it waits for. *)
Record waiting : Type := mkWaiting { wbody : Z; wsize : Z; wepoch : Z }.

(** The pending rings in use, oldest first, the epoch each waits for, what each ring
    holds, and what the finished ring holds. *)
Record qstate : Type := mkQ {
  qixs : list Z;
  qstamp : Z -> Z;
  qheld : Z -> list waiting;
  qfin : list waiting;
}.

Definition qmembers (q : qstate) : list waiting := qheld q 0 ++ qheld q 1 ++ qfin q.

Definition sizes_of (m : list waiting) : list (Z * Z) := (fun w => (wbody w, wsize w)) <$> m.

(** The painted addresses: bodies in quarantine. *)
Definition paint (m : list waiting) : Painted := fun x =>
  x mod 8 = 0 /\ exists w, w ∈ m /\ wbody w <= x < wbody w - sizeof_header + wsize w.

(** The revoker's epoch only grows, and does not reach half of its range. *)
Class Epochs `{Env} : Prop := {
  epoch_monotone m n : (m <= n)%nat -> epoch_at m <= epoch_at n;
  epoch_range n : 0 <= epoch_at n < 2 ^ 31 - 2;
}.

Section Quarantine.
Context `{EnvOk}.
Implicit Types (s : MState) (F : gmap Z Z) (q : qstate).

Record quar_ok s q : Prop := {
  qo_live : live 2 (quarantinePendingRing s) (qixs q);
  qo_pending : forall ix, 0 <= ix < 2 ->
    ring (rings s) (quarantine_pending_get ix :: (wbody <$> qheld q ix));
  qo_idle : forall ix, 0 <= ix < 2 -> ix ∉ qixs q -> qheld q ix = [];
  qo_fin : ring (rings s) (quarantine_finished_get :: (wbody <$> qfin q));
  qo_epochs : forall ix, ix ∈ qixs q ->
    quarantinePendingEpoch s !! Z.to_nat ix = Some (u32 (qstamp q ix)) /\ Z.even (qstamp q ix) = true /\
    (exists n, (n < readings s)%nat /\ qstamp q ix <= epoch_at n + 1) /\
    Forall (fun w => wepoch w = qstamp q ix) (qheld q ix);
  qo_done : Forall (fun w => exists n, (n < readings s)%nat /\ wepoch w + 2 <= epoch_at n) (qfin q);
  qo_sorted : StronglySorted Z.lt (qstamp q <$> qixs q);
  qo_positive : forall ix, ix ∈ qixs q -> 0 <= qstamp q ix;
  qo_full : forall ix, ix ∈ qixs q -> qheld q ix <> [];
  qo_length : length (quarantinePendingEpoch s) = 2%nat;
}.

(** [k] bytes of chunks in use are still counted as free. *)
Record state_inv {P : Painted} (k : Z) s (l : list chunk) F q : Prop := {
  so_heap : heap_ok s l F;
  so_quar : quar_ok s q;
  so_nodup : NoDup (wbody <$> qmembers q);
  so_chunks : forall w, w ∈ qmembers q -> exists d, (wbody w, d) ∈ used heap_address l /\
    csize d = wsize w /\ cclaims d = 0 /\ MinChunkSize <= wsize w;
  so_total : heapTotalSize s = total l;
  so_free : heapFreeSize s = total_free l + k;
  so_quarantine : heapQuarantineSize s = qsum (sizes_of (qmembers q));
}.

(** The bodies in quarantine, and no others, are painted. *)
Definition state_ok (k : Z) s l F q : Prop := state_inv (P := paint (qmembers q)) k s l F q.

(** ** Painting *)

Lemma granule_aligned x : x mod 8 = 0 -> Z.shiftl (granule x) MallocAlignShift = x.
Proof.
  intros Hx. unfold granule. change MallocAlignShift with 3.
  rewrite Z.shiftr_div_pow2, Z.shiftl_mul_pow2 by lia. change (2 ^ 3) with 8.
  pose proof (Z.div_mod x 8). lia.
Qed.

Lemma marks_spec base top x : base mod 8 = 0 -> top mod 8 = 0 ->
  x ∈ marks base top <-> base <= x < top /\ x mod 8 = 0.
Proof.
  intros Hb Ht. unfold marks, granules. rewrite elem_of_list_to_set, list_elem_of_fmap.
  unfold granule. change MallocAlignShift with 3. rewrite !Z.shiftr_div_pow2 by lia. change (2 ^ 3) with 8.
  pose proof (Z.div_mod base 8 ltac:(lia)). pose proof (Z.div_mod top 8 ltac:(lia)).
  assert (forall v, Z.shiftl v 3 = v * 8) as Hsh by (intros; by rewrite Z.shiftl_mul_pow2). split.
  - intros (i & -> & (n & -> & Hn)%list_elem_of_fmap). rewrite Hsh. apply elem_of_seq in Hn. split; [lia|].
    apply Z.mod_mul. lia.
  - intros [Hx Hx8]. pose proof (Z.div_mod x 8 ltac:(lia)).
    exists (x / 8 - base / 8). rewrite Hsh. split; [lia|]. apply list_elem_of_fmap.
    exists (Z.to_nat (x / 8 - base / 8)). split; [lia|]. apply elem_of_seq. lia.
Qed.

(** Painting more is allowed. *)
Lemma heap_ok_paint (P Q : Painted) s l F :
  (forall x, P x -> Q x) -> heap_ok (P := P) s l F -> heap_ok (P := Q) s l F.
Proof.
  intros HPQ [[Hl Hs Hm Ho] ? ? ? ? ?]. split; try done. split; try done.
  intros x Hx. destruct (Ho x Hx) as [?|Hp]; [by left|right; by apply HPQ].
Qed.

Lemma state_inv_paint (P Q : Painted) k s l F q :
  (forall x, P x -> Q x) -> state_inv (P := P) k s l F q -> state_inv (P := Q) k s l F q.
Proof. intros HPQ [Hok]. split; try done. exact (heap_ok_paint P Q _ _ _ HPQ Hok). Qed.

Lemma paint_subset m m' : m ⊆ m' -> forall x, paint m x -> paint m' x.
Proof. intros Hm x (Hx8 & w & Hw & Hx). split; [done|]. exists w. split; [by apply Hm|done]. Qed.

Lemma state_ok_members m k s l F q : m ⊆ qmembers q ->
  state_inv (P := paint m) k s l F q -> state_ok k s l F q.
Proof. intros Hm. apply state_inv_paint. by apply paint_subset. Qed.

(** ** Changes that leave the heap alone *)

Lemma heap_ok_frame {P : Painted} s s' l F :
  heap s' = heap s -> tchunks s' = tchunks s -> treebins s' = treebins s ->
  smallmap s' = smallmap s -> treemap s' = treemap s ->
  keeps (rings s) (rings s') (bin_cell F) -> heap_ok s l F -> heap_ok s' l F.
Proof.
  intros Eh Et Eb Es Em Hk [Ha Hf Hp Hft Hr Hb]. split; try done.
  - by eapply arena_only.
  - eapply binned_frame; try done; [by rewrite Et|]. intros b sz Hbs.
    pose proof (binned_chunk _ _ _ _ Hb Hbs) as Hc. unfold chunk_of in *. by rewrite Eh.
Qed.

(** The sentinels of the quarantine. *)
Definition quar_sentinel (x : Z) : Prop :=
  x = quarantine_pending_get 0 \/ x = quarantine_pending_get 1 \/ x = quarantine_finished_get.

Lemma quar_sentinel_apart x : quar_sentinel x ->
  ~ in_heap x /\ forall i, 0 <= i < NSmallBins -> x <> smallbin_at i.
Proof.
  unfold quar_sentinel, quarantine_pending_get, quarantine_finished_get, smallbin_at, NSmallBins, in_heap.
  pose proof ms_below. split; [lia|]. intros i Hi. lia.
Qed.

(** The rings of the quarantine are kept by what leaves its cells alone. *)
Lemma quar_frame s s' q :
  keeps (rings s) (rings s') (fun x => quar_sentinel x \/ x ∈ wbody <$> qmembers q) ->
  quarantinePendingRing s' = quarantinePendingRing s ->
  quarantinePendingEpoch s' = quarantinePendingEpoch s -> (readings s <= readings s')%nat ->
  quar_ok s q -> quar_ok s' q.
Proof.
  intros Hk Er Ee Hrd [Ql Qp Qi Qf Qe Qd Qs Qz Qu Qn]. split; rewrite ?Er, ?Ee; try done.
  - intros ix Hix. eapply ring_frame; [by apply Qp|]. intros x Hx. apply Hk.
    assert (ix = 0 \/ ix = 1) as [-> | ->] by lia; unfold quar_sentinel, qmembers;
      rewrite !fmap_app, !elem_of_app; apply elem_of_cons in Hx as [->|Hx]; tauto.
  - eapply ring_frame; [done|]. intros x Hx. apply Hk. unfold quar_sentinel, qmembers.
    rewrite !fmap_app, !elem_of_app. apply elem_of_cons in Hx as [->|Hx]; tauto.
  - intros ix Hix. destruct (Qe ix Hix) as (E1 & E2 & (n & Hn & Hle) & E3).
    splits; [done|done| |done]. exists n. split; [lia|done].
  - eapply Forall_impl; [exact Qd|]. intros w (n & Hn & Hle). exists n. split; [lia|done].
Qed.

Context {P : Painted}.

Lemma state_bodies k s l F q b : state_inv k s l F q -> b ∈ wbody <$> qmembers q ->
  in_heap b /\ exists c, (b, c) ∈ placed heap_address l /\ cuse c = true.
Proof.
  intros So (w & -> & Hw)%list_elem_of_fmap. destruct (so_chunks _ _ _ _ _ So w Hw) as (d & (c & Hc & Hu & _)%elem_of_used & _).
  split; [|by exists c]. pose proof Hc as (l1 & l2 & -> & E)%placed_split. rewrite E.
  apply (arena_range _ _ _ _ (ho_arena _ _ _ (so_heap _ _ _ _ _ So))).
Qed.

(** A step on the heap does not reach the quarantine. *)
Lemma quar_touches s s' k l F q A :
  state_inv k s l F q -> touches s s' A ->
  (forall x, A x -> in_heap x /\ x ∉ wbody <$> qmembers q) -> quar_ok s' q.
Proof.
  intros So [(h & r & tc & tb & sm & tm & ->) Hk] HA.
  apply (quar_frame s _ q); try done; [|apply So]. cbn [rings with_heap with_rings] in *.
  intros x Hx. apply Hk. split.
  - intros HAx. destruct (HA x HAx) as [Hh Hn]. destruct Hx as [Hx|Hx]; [|done].
    by apply quar_sentinel_apart in Hx as [? _].
  - destruct Hx as [Hx|Hx]; [by apply quar_sentinel_apart in Hx as [_ ?]|].
    destruct (state_bodies _ _ _ _ _ _ So Hx) as [Hh _]. intros i Hi.
    by apply sentinel_not_body.
Qed.

(** The cells of the bins and of the quarantine are different. *)
Lemma cells_apart k s l F q x : state_inv k s l F q -> bin_cell F x ->
  ~ quar_sentinel x /\ x ∉ wbody <$> qmembers q.
Proof.
  intros So [[sz Hx]|(i & Hi & ->)].
  - pose proof (so_heap _ _ _ _ _ So) as Hok. split.
    + intros Hs. destruct (frees_loose s l F x Hok (mk_is_Some _ _ Hx)) as [Hh _].
      by apply quar_sentinel_apart in Hs as [? _].
    + intros Hm. destruct (state_bodies _ _ _ _ _ _ So Hm) as (_ & c & Hc & Hu).
      destruct (frees_loose s l F x Hok (mk_is_Some _ _ Hx)) as [_ Hl]. specialize (Hl c Hc). congruence.
  - split.
    + intros Hs. apply quar_sentinel_apart in Hs as [_ Hs]. by apply (Hs i Hi).
    + intros Hm. destruct (state_bodies _ _ _ _ _ _ So Hm) as [Hh _]. by apply (sentinel_not_body i _ Hi Hh).
Qed.

(** Everything but the quarantine's rings and the counters is as it was. *)
Definition off_heap s s' : Prop :=
  heap s' = heap s /\ tchunks s' = tchunks s /\ treebins s' = treebins s /\ smallmap s' = smallmap s /\
  treemap s' = treemap s /\ heapTotalSize s' = heapTotalSize s /\ heapFreeSize s' = heapFreeSize s /\ heapQuarantineSize s' = heapQuarantineSize s.

(** What the heap and the quarantine do not concern. *)
Definition kept s s' : Prop :=
  hazardQuarantine s' = hazardQuarantine s /\ lockWord s' = lockWord s /\ (readings s <= readings s')%nat /\
  claimcells s' = claimcells s /\ heapQuarantineSize s' <= heapQuarantineSize s.

Lemma kept_trans s1 s2 s3 : kept s1 s2 -> kept s2 s3 -> kept s1 s3.
Proof. unfold kept. intros (-> & -> & ? & -> & ?) (-> & -> & ? & -> & ?). splits; [done|done|lia|done|lia]. Qed.

(** The bytes of these chunks. *)
Definition weight (g : list (Z * chunk)) : Z := qsum ((fun e => (e.1, csize e.2)) <$> g).

#[export] Instance weight_perm : Proper ((≡ₚ) ==> (=)) weight.
Proof. intros g1 g2 E. unfold weight. by rewrite E. Qed.

Lemma weight_app g1 g2 : weight (g1 ++ g2) = weight g1 + weight g2.
Proof. unfold weight. by rewrite fmap_app, qsum_app. Qed.

(** The claims outside the bodies of the chunks [gone] are as they were, there are no new
    ones, and no other chunk enters the quarantine. *)
Definition frees_only (gone : list (Z * chunk)) s s' : Prop := (forall x,
  claimcells s' !! x = claimcells s !! x \/
  (claimcells s' !! x = None /\ exists b d, (b, d) ∈ gone /\ b <= x < b - sizeof_header + csize d)) /\
  heapQuarantineSize s' <= heapQuarantineSize s + weight gone.

Lemma frees_only_refl s s' : claimcells s' = claimcells s -> heapQuarantineSize s' <= heapQuarantineSize s -> frees_only [] s s'.
Proof. intros E Hq. split; [intros x; left; by rewrite E|unfold weight; cbn; lia]. Qed.

Lemma frees_only_trans g1 g2 s1 s2 s3 : frees_only g1 s1 s2 -> frees_only g2 s2 s3 -> frees_only (g1 ++ g2) s1 s3.
Proof.
  intros [K1 Q1] [K2 Q2]. split; [|rewrite weight_app; lia]. intros x. destruct (K2 x) as [E2|(E2 & b & d & Hb & Hx)].
  - destruct (K1 x) as [E1|(E1 & b & d & Hb & Hx)]; [left; congruence|right].
    split; [congruence|]. exists b, d. split; [apply elem_of_app; by left|done].
  - right. split; [done|]. exists b, d. split; [apply elem_of_app; by right|done].
Qed.

Lemma state_ok_step k s s' l F q q' :
  state_inv k s l F q -> off_heap s s' ->
  keeps (rings s) (rings s') (fun x => ~ quar_sentinel x /\ x ∉ wbody <$> qmembers q) ->
  quar_ok s' q' -> qmembers q' ≡ₚ qmembers q -> state_inv k s' l F q'.
Proof.
  intros So (Eh & Et & Eb & Es & Em & El & Ef & Eq) Hk Hq Hm.
  pose proof So as [Hok _ Hnd Hc Hl Hf Hs]. split.
  - apply (heap_ok_frame s); try done. intros x Hx. apply Hk. by eapply cells_apart.
  - done.
  - by rewrite Hm.
  - intros w. rewrite Hm. apply Hc.
  - by rewrite El.
  - by rewrite Ef.
  - rewrite Eq, Hs. unfold sizes_of. by rewrite Hm.
Qed.

(** ** Waiting for the revoker *)

Context `{Hepoch : !Epochs}.

Definition read_env s : MState := with_counters (sanityCounter s) (S (readings s)) (kicks s) s.

Lemma s32_diff c e : s32 (u32 c - u32 e) = s32 (c - e).
Proof.
  unfold s32, signed. assert (wrap 32 (u32 c - u32 e) = wrap 32 (c - e)) as ->; [|done].
  unfold u32, wrap. by rewrite <- Zminus_mod.
Qed.

Lemma even_land e : Z.even e = true -> Z.land (u32 e) 1 = 0.
Proof.
  intros He. change 1 with (Z.ones 1). rewrite Z.land_ones by lia. change (2 ^ 1) with 2.
  apply Z.even_spec in He as [k ->]. unfold u32, wrap.
  rewrite <- Znumtheory.Zmod_div_mod; [|lia|lia|by exists (2 ^ 31)].
  rewrite Z.mul_comm. by apply Z.mod_mul.
Qed.

(** The answer is yes only when a whole pass has run since the epoch, and is yes then
    unless half the range of the counter has gone by. *)
Lemma revoked_ok s e : Z.even e = true -> e <= epoch_at (readings s) + 1 ->
  exists b, has_revocation_finished_for_epoch (u32 e) s = Ok (b, read_env s) /\
    (b = true -> e + 2 <= epoch_at (readings s)) /\
    (e + 2 <= epoch_at (readings s) < e + 2 ^ 31 -> b = true).
Proof.
  intros He Hle. unfold has_revocation_finished_for_epoch, system_epoch_get.
  rewrite (M_bind_ok _ _ s (u32 (epoch_at (readings s))) (read_env s) eq_refl). cbn beta zeta.
  pose proof (even_land e He) as E0. rewrite E0. mrun (massert_ok (0 =? 0) (read_env s) eq_refl).
  rewrite s32_diff. eexists. split; [reflexivity|]. split.
  - intros Hb. apply Z.ltb_lt in Hb. destruct (Z.ltb_spec (epoch_at (readings s)) (e + 2)) as [Hlt|]; [|lia].
    rewrite s32_small in Hb by lia. lia.
  - intros Hr. apply Z.ltb_lt. rewrite s32_small by lia. lia.
Qed.

Lemma live_range c ixs ix : live 2 c ixs -> ix ∈ ixs -> 0 <= ix < 2.
Proof.
  intros (_ & _ & El & _) Hix. rewrite El in Hix. apply list_elem_of_fmap in Hix as (k & -> & _).
  unfold slot. apply Z.mod_pos_bound. lia.
Qed.

Lemma pending_at ix : 0 <= ix < 2 -> quar_sentinel (quarantine_pending_get ix).
Proof. intros Hix. assert (ix = 0 \/ ix = 1) as [-> | ->] by lia; unfold quar_sentinel; tauto. Qed.

Lemma pending_not_finished ix : 0 <= ix < 2 -> quarantine_pending_get ix <> quarantine_finished_get.
Proof. unfold quarantine_pending_get, quarantine_finished_get. lia. Qed.

Lemma held_member q ix b : 0 <= ix < 2 -> b ∈ wbody <$> qheld q ix -> b ∈ wbody <$> qmembers q.
Proof.
  intros Hix Hb. unfold qmembers. rewrite !fmap_app, !elem_of_app.
  assert (ix = 0 \/ ix = 1) as [-> | ->] by lia; tauto.
Qed.

Lemma fin_member q b : b ∈ wbody <$> qfin q -> b ∈ wbody <$> qmembers q.
Proof. intros Hb. unfold qmembers. rewrite !fmap_app, !elem_of_app. tauto. Qed.

Lemma sentinel_not_member k s l F q x : state_inv k s l F q -> quar_sentinel x -> x ∉ wbody <$> qmembers q.
Proof.
  intros So Hx Hm. destruct (state_bodies _ _ _ _ _ _ So Hm) as [Hh _].
  by apply quar_sentinel_apart in Hx as [? _].
Qed.

(** A pending ring and the finished ring have no cell in common. *)
Lemma rings_apart k s l F q ix x : state_inv k s l F q -> 0 <= ix < 2 ->
  x ∈ quarantine_pending_get ix :: (wbody <$> qheld q ix) ->
  x ∉ quarantine_finished_get :: (wbody <$> qfin q).
Proof.
  intros So Hix Hx Hf. apply elem_of_cons in Hx as [->|Hx]; apply elem_of_cons in Hf as [Hf|Hf].
  - by apply (pending_not_finished ix).
  - apply fin_member in Hf. by apply (sentinel_not_member _ _ _ _ _ _ So (pending_at ix Hix)).
  - subst x. apply (held_member q ix) in Hx; [|done].
    eapply (sentinel_not_member _ _ _ _ _ quarantine_finished_get So); [by right; right|done].
  - pose proof (so_nodup _ _ _ _ _ So) as Hnd. unfold qmembers in Hnd. rewrite !fmap_app in Hnd.
    apply NoDup_app in Hnd as (_ & H1 & Hnd). apply NoDup_app in Hnd as (_ & H2 & _).
    assert (ix = 0 \/ ix = 1) as [-> | ->] by lia.
    + apply (H1 x Hx). apply elem_of_app. by right.
    + by apply (H2 x Hx).
Qed.

(** Two pending rings have no cell in common. *)
Lemma pending_apart k s l F q ix jx x : state_inv k s l F q -> 0 <= ix < 2 -> 0 <= jx < 2 -> ix <> jx ->
  x ∈ quarantine_pending_get ix :: (wbody <$> qheld q ix) ->
  x ∉ quarantine_pending_get jx :: (wbody <$> qheld q jx).
Proof.
  intros So Hix Hjx Hne Hx Hf. apply elem_of_cons in Hx as [->|Hx]; apply elem_of_cons in Hf as [Hf|Hf].
  - unfold quarantine_pending_get in Hf. lia.
  - apply (held_member q jx) in Hf; [|done]. by apply (sentinel_not_member _ _ _ _ _ _ So (pending_at ix Hix)).
  - subst x. apply (held_member q ix) in Hx; [|done].
    by apply (sentinel_not_member _ _ _ _ _ _ So (pending_at jx Hjx)).
  - pose proof (so_nodup _ _ _ _ _ So) as Hnd. unfold qmembers in Hnd. rewrite !fmap_app in Hnd.
    apply NoDup_app in Hnd as (_ & H1 & _).
    assert ((ix = 0 /\ jx = 1) \/ (ix = 1 /\ jx = 0)) as [[-> ->]|[-> ->]] by lia.
    + apply (H1 x Hx). apply elem_of_app. by left.
    + apply (H1 x Hf). apply elem_of_app. by left.
Qed.

(** The oldest pending ring has been emptied into the finished ring. *)
Definition retired q : qstate :=
  match qixs q with
  | [] => q
  | ix :: ixs => mkQ ixs (qstamp q) (fupd ix [] (qheld q)) (qfin q ++ qheld q ix)
  end.

Lemma retired_members q ix ixs : 0 <= ix < 2 -> qixs q = ix :: ixs -> qmembers (retired q) ≡ₚ qmembers q.
Proof.
  intros Hix E. unfold retired. rewrite E. unfold qmembers. cbn [qheld qfin]. unfold fupd.
  assert (ix = 0 \/ ix = 1) as [-> | ->] by lia; cbn [Z.eqb Pos.eqb app]; solve_Permutation.
Qed.

(** Emptying pending ring [ix] into the finished ring. *)
Lemma retire_rings k s l F q ix : state_inv k s l F q -> 0 <= ix < 2 ->
  exists r, (emp ← ring_of (fun r => sentinel_is_empty r (quarantine_pending_get ix));
      if emp : bool then mret tt
      else on_rings (fun r =>
        '(p, r) ← sentinel_take_all r (quarantine_pending_get ix);
        sentinel_append r quarantine_finished_get p)) s = Ok (tt, with_rings r s) /\
    ring r [quarantine_pending_get ix] /\
    ring r (quarantine_finished_get :: (wbody <$> qfin q ++ qheld q ix)) /\
    keeps (rings s) r (fun x => x ∉ quarantine_pending_get ix :: (wbody <$> qheld q ix) /\
      x ∉ quarantine_finished_get :: (wbody <$> qfin q)).
Proof.
  intros So Hix. pose proof (so_quar _ _ _ _ _ So) as [_ Qp _ Qf _ _ _ _ _ _]. specialize (Qp ix Hix).
  mrun (ring_of_ok _ _ _ (is_singleton_ring _ _ _ Qp)).
  destruct (decide (qheld q ix = [])) as [Eh|Hne].
  - rewrite Eh in *. rewrite bool_decide_eq_true_2 by done. exists (rings s). splits; [by destruct s|done| |done].
    by rewrite app_nil_r.
  - assert (wbody <$> qheld q ix <> []) as Hne' by (by destruct (qheld q ix)).
    rewrite bool_decide_eq_false_2 by done.
    destruct (take_all_append_ring (rings s) _ _ _ _ Qp Hne' Qf) as
      (p & r1 & r2 & E1 & E2 & R1 & R2 & Hk).
    { intros x Hx. by eapply rings_apart. }
    exists r2. splits.
    + apply on_rings_ok. by rewrite E1.
    + done.
    + by rewrite fmap_app.
    + intros x [H1 H2]. apply Hk. rewrite elem_of_app. tauto.
Qed.

Lemma read_env_ok k s l F q : state_inv k s l F q -> state_inv k (read_env s) l F q.
Proof.
  intros So. apply (state_ok_step k s _ l F q); try done.
  apply (quar_frame s _ q); try done; [|apply So]. cbn. lia.
Qed.

Lemma ring2_fits : fits 8 2.
Proof. unfold fits. splits; lia. Qed.

(** Popping the oldest pending ring once it was emptied. *)
Lemma retired_ok k s l F q ix ixs c' r :
  state_inv k s l F q -> qixs q = ix :: ixs -> live 2 c' ixs ->
  (exists n, (n < readings s)%nat /\ qstamp q ix + 2 <= epoch_at n) ->
  ring r [quarantine_pending_get ix] ->
  ring r (quarantine_finished_get :: (wbody <$> qfin q ++ qheld q ix)) ->
  keeps (rings s) r (fun x => x ∉ quarantine_pending_get ix :: (wbody <$> qheld q ix) /\
    x ∉ quarantine_finished_get :: (wbody <$> qfin q)) ->
  state_inv k (with_pending (quarantinePendingEpoch s) c' (with_rings r s)) l F (retired q).
Proof.
  intros So Eix Hl Hn Hr1 Hr2 Hk. pose proof (so_quar _ _ _ _ _ So) as [Ql Qp Qi Qf Qe Qd Qs Qz Qu Qn].
  assert (0 <= ix < 2) as Hix by (eapply live_range; [exact Ql|rewrite Eix; left]).
  assert (qmembers (retired q) ≡ₚ qmembers q) as Hm by (by eapply retired_members).
  apply (state_ok_step k s _ l F q); try done.
  { intros x [Hs Hmem]. apply Hk. rewrite !elem_of_cons. split.
    - intros [->|Hx]; [by apply Hs, pending_at|]. by apply Hmem, (held_member q ix).
    - intros [->|Hx]; [apply Hs; by right; right|]. by apply Hmem, fin_member. }
  unfold retired. rewrite Eix. split; cbn [qixs qstamp qheld qfin rings with_pending with_rings
    quarantinePendingEpoch quarantinePendingRing readings]; try done.
  - intros jx Hjx. unfold fupd. destruct (Z.eqb_spec jx ix) as [->|Hne]; [done|].
    eapply ring_frame; [by apply Qp|]. intros x Hx. apply Hk. split.
    + by apply (pending_apart _ _ _ _ _ jx ix x So).
    + by apply (rings_apart _ _ _ _ _ jx x So).
  - intros jx Hjx Hn'. unfold fupd. destruct (Z.eqb_spec jx ix) as [->|Hne]; [done|].
    apply Qi; [done|]. rewrite Eix. intros [->|?]%elem_of_cons; done.
  - intros jx Hjx. destruct (Qe jx) as (E1 & E2 & E3 & E4); [rewrite Eix; by right|].
    splits; try done. unfold fupd. by destruct (jx =? ix).
  - apply Forall_app. split; [done|]. destruct (Qe ix) as (_ & _ & _ & Hw); [rewrite Eix; left|].
    eapply Forall_impl; [exact Hw|]. by intros w ->.
  - rewrite Eix in Qs. by apply StronglySorted_inv in Qs as [? _].
  - intros jx Hjx. apply Qz. rewrite Eix. by right.
  - intros jx Hjx. rewrite Eix in Qs. apply StronglySorted_inv in Qs as [_ Hlt].
    unfold fupd.
    destruct (Z.eqb_spec jx ix) as [->|Hne]; [|apply Qu; rewrite Eix; by right].
    assert (qstamp q ix < qstamp q ix) by (eapply (proj1 (Forall_forall _ _) Hlt); apply list_elem_of_fmap; eauto). lia.
Qed.

Lemma assert_empty sen s : ring (rings s) [sen] ->
  (emp ← ring_of (fun r => sentinel_is_empty r sen); massert emp) s = Ok (tt, s).
Proof. intros Hr. mrun (ring_of_ok _ _ _ (is_singleton_ring _ _ _ Hr)). by apply massert_ok. Qed.

Lemma pending_to_finished_ok k s l F q :
  state_inv k s l F q ->
  exists s' q', quarantine_pending_to_finished s = Ok (tt, s') /\ state_inv k s' l F q' /\
    (q' = q \/ q' = retired q) /\ qmembers q' ≡ₚ qmembers q /\ kept s s' /\ off_heap s s' /\
    (forall ix ixs, qixs q = ix :: ixs ->
      qstamp q ix + 2 <= epoch_at (readings s) < qstamp q ix + 2 ^ 31 -> q' = retired q) /\
    quarantinePendingEpoch s' = quarantinePendingEpoch s.
Proof.
  intros So. pose proof (so_quar _ _ _ _ _ So) as [Ql Qp Qi Qf Qe Qd Qs Qz Qu Qn].
  unfold quarantine_pending_to_finished. mpure.
  destruct (live_head _ _ _ Ql) as [Hh Hemp]. rewrite Hh, Hemp.
  destruct (qixs q) as [|ix ixs] eqn:Eix; cbn [list.head].
  - rewrite bool_decide_eq_true_2 by done. cbn [each].
    pose proof (Qp 0 ltac:(lia)) as R0. pose proof (Qp 1 ltac:(lia)) as R1.
    rewrite (Qi 0) in R0 by (lia || apply not_elem_of_nil). rewrite (Qi 1) in R1 by (lia || apply not_elem_of_nil).
    rewrite M_assoc. mrun (assert_empty _ _ R0). rewrite M_assoc. mrun (assert_empty _ _ R1).
    exists s, q. splits; try done. by left.
  - rewrite bool_decide_eq_false_2 by done. mpure.
    assert (0 <= ix < 2) as Hix by (eapply live_range; [exact Ql|left]).
    destruct (Qe ix) as (Ee & Hev & (n & Hn & Hle) & Hw); [left|].
    pose proof (epoch_monotone n (readings s) ltac:(lia)) as Hm.
    assert (pending_epoch ix s = Ok (u32 (qstamp q ix), s)) as Ep by (apply reads_ok; by rewrite Ee).
    mrun Ep. destruct (revoked_ok s _ Hev ltac:(lia)) as (b & Er & Hb1 & Hb2). mrun Er.
    pose proof (read_env_ok _ _ _ _ _ So) as So1. destruct b; cbn [negb].
    + destruct (retire_rings _ _ _ _ _ ix So1 Hix) as (r & E1 & R1 & R2 & Hk).
      rewrite <- M_assoc. mrun E1.
      destruct (live_pop 8 2 debug ring2_fits _ _ _ Ql) as (c' & Ec & Hl).
      assert (lift (head_advance 8 QuarantineRings debug (quarantinePendingRing s)) (with_rings r (read_env s))
        = Ok (c', with_rings r (read_env s))) as El by (apply reads_ok; exact Ec). mrun El.
      exists (with_pending (quarantinePendingEpoch s) c' (with_rings r (read_env s))), (retired q).
      splits; try done; [|by right|by eapply retired_members|by unfold kept; cbn; splits; (done || lia)].
      apply (retired_ok k (read_env s) l F q ix ixs c' r); try done.
      exists (readings s). split; [cbn; lia|by apply Hb1].
    + exists (read_env s), q. splits; try done; [by left|by unfold kept; cbn; splits; (done || lia)|].
      intros ix' ixs' [= <- <-] Hr. by specialize (Hb2 Hr).
Qed.

End Quarantine.
