(* ===== verification/Dequeue.v ===== *)
(** * Leaving the quarantine

    [mspace_qtbin_deqn] returns chunks of the finished ring to the free lists.  It keeps
    the invariant of [Quarantine], and the chunks that are allocated ([allocated]) are not
    concerned. *)

From S2P Require Import Prelude LinkedList RingBuffer Bits AllocSizes ChunkHeader MState Bins SmallBins TreeBins TreeUnlink FreeLists TreeSelect Allocator Heap Release Malloc Accounts Quarantine.

(** ** The allocated chunks *)

Section Allocated.
Context `{Env}.
Implicit Types (q : qstate).

(** The chunks in use that are not in quarantine. *)
Definition allocated (l : list chunk) q : list (Z * chunk) :=
  filter (fun e => e.1 ∉ wbody <$> qmembers q) (used heap_address l).

Lemma allocated_same l q q' : qmembers q' ≡ₚ qmembers q -> allocated l q' = allocated l q.
Proof. intros Hm. apply list_filter_iff. intros [b d]. by rewrite Hm. Qed.

Lemma filter_fresh (m : list Z) b (X : list (Z * chunk)) : b ∉ X.*1 ->
  filter (fun e => e.1 ∉ b :: m) X = filter (fun e => e.1 ∉ m) X.
Proof.
  induction X as [|[x d] X IH]; [done|]. cbn [fmap list_fmap fst]. intros [Hx HX]%not_elem_of_cons.
  rewrite !filter_cons, IH by done. cbn [fst].
  destruct (decide (x ∉ m)) as [Hn|Hn].
  - by rewrite decide_True by (rewrite not_elem_of_cons; done).
  - rewrite decide_False; [done|]. rewrite not_elem_of_cons. tauto.
Qed.

(** A chunk goes from the quarantine to the free chunks. *)
Lemma allocated_dequeue l l' q q' b d :
  Forall chunk_ok l -> used heap_address l ≡ₚ (b, d) :: used heap_address l' ->
  wbody <$> qmembers q ≡ₚ b :: (wbody <$> qmembers q') -> allocated l' q' ≡ₚ allocated l q.
Proof.
  intros Hl Hu Hm. pose proof (used_NoDup heap_address l Hl) as Hnd. rewrite Hu in Hnd.
  apply NoDup_cons in Hnd as [Hb _]. unfold allocated. rewrite Hu, filter_cons. cbn [fst].
  rewrite decide_False by (rewrite Hm; set_solver). rewrite <- (filter_fresh _ _ _ Hb).
  erewrite list_filter_iff; [done|]. intros [x e]. by rewrite Hm.
Qed.

(** An allocated chunk goes to the quarantine. *)
Lemma allocated_push l q q' b d :
  Forall chunk_ok l -> (b, d) ∈ used heap_address l -> b ∉ wbody <$> qmembers q ->
  wbody <$> qmembers q' ≡ₚ b :: (wbody <$> qmembers q) -> allocated l q ≡ₚ (b, d) :: allocated l q'.
Proof.
  intros Hl [X HX]%elem_of_Permutation Hb Hm. pose proof (used_NoDup heap_address l Hl) as Hnd.
  rewrite HX in Hnd. apply NoDup_cons in Hnd as [Hx _].
  assert (allocated l q' ≡ₚ filter (fun e => e.1 ∉ b :: (wbody <$> qmembers q)) (used heap_address l)) as ->.
  { unfold allocated. erewrite list_filter_iff; [done|]. intros [x e]. by rewrite Hm. }
  unfold allocated. rewrite HX, !filter_cons. cbn [fst].
  rewrite decide_True, decide_False by set_solver. by rewrite (filter_fresh _ _ _ Hx).
Qed.

(** A free chunk is allocated. *)
Lemma allocated_grant l l' q b d :
  used heap_address l' ≡ₚ (b, d) :: used heap_address l -> b ∉ wbody <$> qmembers q ->
  allocated l' q ≡ₚ (b, d) :: allocated l q.
Proof. intros Hu Hb. unfold allocated. by rewrite Hu, filter_cons, decide_True. Qed.
End Allocated.

Section Dequeue.
Context `{EnvOk} `{Hepoch : !Epochs}.
Implicit Types (s : MState) (F : gmap Z Z) (q : qstate).

(** ** Returning chunks to the free lists *)

Lemma not_footer {P : Painted} s l1 c l2 F : heap_ok s (l1 ++ c :: l2) F -> MinChunkSize <= csize c -> l2 <> [].
Proof.
  intros Hok Hs ->. pose proof (ho_footed _ _ _ Hok) as Hf.
  apply (footed_app l1 [c]) in Hf as [_ [(_ & _ & E)|[_ []]]]; [|done].
  change MinChunkSize with 16 in Hs. change sizeof_header with 8 in E. lia.
Qed.

(** Freeing a chunk that is in use and not in quarantine. *)
Lemma free_state k s l F q b c :
  state_ok k s l F q -> (b, c) ∈ placed heap_address l -> cuse c = true -> cclaims c = 0 ->
  MinChunkSize <= csize c -> b ∉ wbody <$> qmembers q ->
  exists s' l' F', mspace_free_internal (from_body b) s = Ok (tt, s') /\
    state_ok (k - csize c) s' l' F' q /\ touches s s' in_heap /\
    used heap_address l ≡ₚ (b, strip c) :: used heap_address l'.
Proof.
  intros So Hb Hu Hc Hs Hn. pose proof So as [Hok Hq Hnd Hch Htl Hf Hqs].
  pose proof Hb as (l1 & l2 & -> & ->)%placed_split.
  destruct (arena_range _ _ _ _ (ho_arena _ _ _ Hok)) as (_ & _ & _ & Hh & _ & Efb & _).
  change 8 with sizeof_header in Efb, Hh. rewrite Efb.
  pose proof (not_footer _ _ _ _ _ Hok Hs) as Hne.
  destruct (free_internal_ok _ _ _ _ _ Hok Hne Hu Hc) as (s' & F' & E & Hok' & T).
  assert (used heap_address (l1 ++ c :: l2) ≡ₚ
    (heap_address + total l1 + sizeof_header, strip c) :: used heap_address (release l1 c l2)) as Hused.
  { rewrite used_split, used_release by done. solve_Permutation. }
  exists s', (release l1 c l2), F'. splits; [done| | |done].
  - pose proof T as [(h & r & tc & tb & sm & tm & Es) _]. split; try done.
    + eapply quar_touches; [exact So|exact T|]. intros x [Hx| ->]; [|done].
      destruct (frees_loose _ _ _ _ Hok Hx) as [Hxh Hxl]. split; [done|]. intros Hm.
      destruct (state_bodies _ _ _ _ _ _ So Hm) as (_ & d & Hd & Hud). specialize (Hxl d Hd). congruence.
    + intros w Hw. destruct (Hch w Hw) as (d & Hd & ?). exists d. split; [|done].
      rewrite Hused in Hd. apply elem_of_cons in Hd as [[= E0 _]|?]; [|done].
      destruct Hn. rewrite <- E0. apply list_elem_of_fmap. by exists w.
    + rewrite Es, total_release. done.
    + rewrite Es. cbn [heapFreeSize with_heap with_rings with_tchunks with_treebins with_maps].
      rewrite Hf, release_free by done. lia.
    + by rewrite Es.
  - eapply touches_weaken; [exact T|]. intros x [Hx| ->]; [|done].
    by destruct (frees_loose _ _ _ _ Hok Hx).
Qed.

(** Clearing the revocation bits of a body. *)
Lemma unpaint s l F w m c :
  heap_ok (P := paint (w :: m)) s l F -> (wbody w, c) ∈ placed heap_address l -> csize c = wsize w ->
  heap_ok (P := paint m) (with_heap (mark_clear_range (wbody w) (wbody w - sizeof_header + wsize w) (heap s)) s) l F.
Proof.
  intros Hok Hw Es. pose proof Hok as [Ha Hf Hp Hft Hr Hb]. pose proof Ha as [Hl Hs Hm Ho].
  pose proof Hw as (l1 & l2 & -> & Eb)%placed_split.
  destruct (arena_range _ _ _ _ Ha) as (_ & _ & R8 & _).
  assert (wbody w mod 8 = 0) as B8 by (rewrite Eb; by apply mod8_add).
  assert (csize c mod 8 = 0) as C8.
  { pose proof (proj1 Hs) as Hall. apply Forall_app in Hall as [_ [[_ ?] _]%Forall_cons]. done. }
  assert ((wbody w - sizeof_header + wsize w) mod 8 = 0) as T8.
  { rewrite <- Es. apply mod8_add; [by apply mod8_sub|done]. }
  split; try done.
  - split; cbn [heap with_heap mark_clear_range hdrs shadow]; [done|done| |].
    + intros b' Hb'. apply elem_of_difference. split; [by apply Hm|].
      rewrite (marks_spec _ _ _ B8 T8). apply list_elem_of_fmap in Hb' as ([b0 d] & -> & Hd). cbn [fst].
      apply placed_between in Hd; [|apply Hs]. rewrite <- Es. change sizeof_header with 8 in *. lia.
    + intros x [Hx Hn]%elem_of_difference. destruct (Ho x Hx) as [?|(X8 & w' & Hw' & Hr')]; [by left|right].
      split; [done|]. exists w'. split; [|done]. apply elem_of_cons in Hw' as [->|?]; [|done].
      exfalso. apply Hn. apply (marks_spec _ _ _ B8 T8). done.
  - apply (binned_frame s); try done. intros b0 sz Hb0. exact (binned_chunk _ _ _ _ Hb Hb0).
Qed.

(** The first chunk of the finished ring has been taken out. *)
Definition dequeued q : qstate := mkQ (qixs q) (qstamp q) (qheld q) (tl (qfin q)).

Lemma dequeued_members q w fin : qfin q = w :: fin -> qmembers q ≡ₚ w :: qmembers (dequeued q).
Proof. intros E. unfold qmembers, dequeued. cbn [qheld qfin]. rewrite E. cbn [tl]. solve_Permutation. Qed.

Lemma quar_dequeued k s s' l F q w fin :
  state_ok k s l F q -> qfin q = w :: fin -> ring (rings s') (quarantine_finished_get :: (wbody <$> fin)) ->
  keeps (rings s) (rings s') (fun x => x ∉ quarantine_finished_get :: (wbody <$> qfin q)) ->
  quarantinePendingRing s' = quarantinePendingRing s ->
  quarantinePendingEpoch s' = quarantinePendingEpoch s -> readings s' = readings s ->
  quar_ok s' (dequeued q).
Proof.
  intros So Ew Hr Hk Er Ee Hrd. pose proof (so_quar _ _ _ _ _ So) as [Ql Qp Qi Qf Qe Qd Qs Qz Qu Qn].
  split; cbn [dequeued qixs qstamp qheld qfin]; rewrite ?Er, ?Ee, ?Hrd; try done.
  - intros ix Hix. eapply ring_frame; [by apply Qp|]. intros x Hx. apply Hk.
    by apply (rings_apart _ _ _ _ _ ix x So).
  - by rewrite Ew.
  - rewrite Ew in Qd |- *. by apply Forall_cons in Qd as [_ ?].
Qed.

Lemma quarantine_nonneg {P : Painted} k s l F q : state_inv k s l F q -> 0 <= qsum (sizes_of (qmembers q)).
Proof.
  intros So. apply qsum_nonneg, Forall_forall. intros x (w & -> & Hw)%list_elem_of_fmap.
  destruct (so_chunks _ _ _ _ _ So w Hw) as (d & _ & _ & _ & Hs). change MinChunkSize with 16 in Hs. cbn. lia.
Qed.

(** The bytes in quarantine and the free bytes are within the heap. *)
Lemma bytes_bound s l F q : state_ok 0 s l F q ->
  0 <= heapFreeSize s /\ 0 <= heapQuarantineSize s /\
  heapFreeSize s + heapQuarantineSize s <= total l /\ total l < 2 ^ 32.
Proof.
  intros So. pose proof (quarantine_nonneg _ _ _ _ _ So). destruct So as [Hok Hq Hnd Hch Htl Hf Hqs]. pose proof (ao_sizes _ _ (ho_arena _ _ _ Hok)) as (Hl & Ht & _).
  pose proof (total_free_range l Hl). rewrite Hf, Hqs.
  assert (qsum (sizes_of (qmembers q)) + total_free l <= total l) as Hle.
  { apply (qsum_bound heap_address); [done| |].
    - unfold sizes_of. by rewrite <- list_fmap_compose.
    - intros x (w & -> & Hw)%list_elem_of_fmap. destruct (Hch w Hw) as (d & Hd & <- & _).
      apply list_elem_of_fmap. by exists (wbody w, d). }
  change MaxChunkSize with 524280 in *. lia.
Qed.

(** Taking out the first chunk [w] of the finished ring: what the state is when it is
    given to [mspace_free_internal]. *)
Lemma dequeue_state s l F q w fin r :
  state_ok 0 s l F q -> qfin q = w :: fin -> ring r (quarantine_finished_get :: (wbody <$> fin)) ->
  keeps (rings s) r (fun x => x ∉ quarantine_finished_get :: (wbody <$> qfin q)) ->
  state_ok (wsize w)
    (with_heap (mark_clear_range (wbody w) (wbody w - sizeof_header + wsize w) (heap s))
      (with_sizes (heapTotalSize s) (heapFreeSize s + wsize w) (heapQuarantineSize s - wsize w)
        (with_rings r s))) l F (dequeued q).
Proof.
  intros So Ew Hr Hk. pose proof So as [Hok Hq Hnd Hch Htl Hf Hqs].
  pose proof (dequeued_members q w fin Ew) as Hm.
  destruct (Hch w) as (d & (c & Hc & Hu & ->)%elem_of_used & Hs & _); [rewrite Hm; left|].
  split.
  - apply (unpaint (with_sizes (heapTotalSize s) (heapFreeSize s + wsize w) (heapQuarantineSize s - wsize w)
      (with_rings r s)) l F w (qmembers (dequeued q)) c); [|done|done].
    apply (heap_ok_paint (paint (qmembers q))); [apply paint_subset; by rewrite Hm|].
    apply (heap_ok_frame s); try done. intros x Hx. apply Hk.
    destruct (cells_apart _ _ _ _ _ _ So Hx) as [H1 H2]. rewrite elem_of_cons. intros [->|Hf'].
    + apply H1. by right; right.
    + by apply H2, fin_member.
  - by eapply quar_dequeued.
  - rewrite Hm in Hnd. by apply NoDup_cons in Hnd as [_ ?].
  - intros w' Hw'. apply Hch. rewrite Hm. by right.
  - done.
  - cbn [heapFreeSize with_heap with_sizes]. lia.
  - cbn [heapQuarantineSize with_heap with_sizes]. rewrite Hqs. unfold sizes_of. rewrite Hm.
    cbn [fmap list_fmap]. rewrite qsum_cons. cbn [snd]. fold (sizes_of (qmembers (dequeued q))).
    unfold sizes_of. lia.
Qed.

Lemma touches_kept s s' A : touches s s' A -> kept s s'.
Proof. intros [(h & r & tc & tb & sm & tm & ->) _]. done. Qed.

Lemma dequeue_first_ok s l F q w fin :
  state_ok 0 s l F q -> qfin q = w :: fin ->
  exists s' l' F', dequeue_first s = Ok (tt, s') /\ state_ok 0 s' l' F' (dequeued q) /\
    allocated l' (dequeued q) ≡ₚ allocated l q /\ kept s s'.
Proof.
  intros So Ew. pose proof (dequeued_members q w fin Ew) as Hm.
  pose proof (bytes_bound _ _ _ _ So) as Hbytes.
  pose proof So as [Hok Hq Hnd Hch Htl Hf Hqs].
  destruct (Hch w) as (d & (c & Hc & Hu & ->)%elem_of_used & Hs & Hcl & Hmin); [rewrite Hm; left|].
  cbn [csize cclaims strip with_cpin] in Hs, Hcl.
  pose proof (ho_arena _ _ _ Hok) as Ha. pose proof (ao_sizes _ _ Ha) as (Hall & _).
  pose proof Hc as (l1 & l2 & -> & Eb)%placed_split.
  destruct (arena_range _ _ _ _ Ha) as (_ & _ & _ & Hh & Eb' & Efb & _).
  change 8 with sizeof_header in Efb, Hh, Eb'. rewrite <- Eb in Efb, Eb'.
  assert (l2 <> []) as Hne by (eapply not_footer; [exact Hok|by rewrite Hs]).
  destruct l2 as [|e l2]; [done|].
  pose proof (qo_fin _ _ Hq) as Hr. rewrite Ew in Hr. cbn [fmap list_fmap] in Hr.
  destruct (ring_next _ _ _ Hr) as (h & Eh & Hn & _). cbn in Eh. injection Eh as <-.
  destruct (ring_unlink (rings s) _ [] _ _ Hr) as (p & r & Er & Hr' & Hk). cbn [app] in Hr', Hk.
  assert (state_ok (wsize w)
    (with_heap (mark_clear_range (wbody w) (wbody w - sizeof_header + wsize w) (heap s))
      (with_sizes (heapTotalSize s) (heapFreeSize s + wsize w) (heapQuarantineSize s - wsize w)
        (with_rings (delete (wbody w) r) s))) (l1 ++ c :: e :: l2) F (dequeued q)) as So1
    by (eapply dequeue_state; [done|exact Ew|done|by rewrite Ew]).
  assert (wsize w <= heapQuarantineSize s) as Hle
    by (pose proof (quarantine_nonneg _ _ _ _ _ So1); pose proof (so_quarantine _ _ _ _ _ So1) as E;
        cbn [heapQuarantineSize with_heap with_sizes] in E; lia).
  unfold dequeue_first. mrun (ring_of_ok (fun r => sentinel_first r quarantine_finished_get) s _ Hn).
  assert (unsafe_remove_ring (wbody w) s = Ok (tt, with_rings r s)) as E1
    by (apply on_rings_ok; by rewrite Er). mrun E1.
  unfold mchunk_metadata_clear. mpure. rewrite Efb.
  change (with_rings (delete (wbody w) (rings (with_rings r s))) (with_rings r s))
    with (with_rings (delete (wbody w) r) s).
  mrun (arena_size _ _ _ _ (arena_only s (with_rings (delete (wbody w) r) s) _ eq_refl Ha)). mpure.
  change MinChunkSize with 16 in Hmin. unfold u32. cbn [heapFreeSize heapQuarantineSize heapTotalSize with_rings].
  rewrite Hs, !wrap_small by lia.
  match goal with |- context [(chunk_next _ ≫= _) ?s2] =>
    pose proof (arena_next s2 _ _ _ _ (arena_only s s2 _ eq_refl Ha)) as En
  end.
  rewrite total_snoc in En.
  replace (heap_address + (total l1 + csize c)) with (wbody w - sizeof_header + wsize w) in En by lia.
  mrun En. rewrite Eb'. rewrite (M_bind_ok _ _ _ tt _ eq_refl).
  cbn [heap with_sizes with_rings]. rewrite <- Efb.
  destruct (free_state _ _ _ _ _ (wbody w) c So1 Hc Hu Hcl) as (s' & l' & F' & E2 & So' & T & Hused);
    [by rewrite Hs| |].
  { rewrite Hm in Hnd. by apply NoDup_cons in Hnd as [? _]. }
  exists s', l', F'. splits; [exact E2| | |].
  - by rewrite Hs, Z.sub_diag in So'.
  - eapply allocated_dequeue; [done|exact Hused|]. by rewrite Hm.
  - eapply kept_trans; [|by eapply touches_kept]. unfold kept. cbn. splits; (done || lia).
Qed.

(** A chunk in quarantine was freed at an epoch that has been read. *)
Lemma member_epoch s q w : quar_ok s q -> w ∈ qmembers q ->
  exists n, (n < readings s)%nat /\ wepoch w <= epoch_at n + 1.
Proof.
  intros Hq Hw. unfold qmembers in Hw. rewrite !elem_of_app in Hw.
  assert (forall ix, 0 <= ix < 2 -> w ∈ qheld q ix -> exists n, (n < readings s)%nat /\ wepoch w <= epoch_at n + 1) as Hheld.
  { intros ix Hix Hin. destruct (decide (ix ∈ qixs q)) as [Hi|Hi].
    - destruct (qo_epochs _ _ Hq ix Hi) as (_ & _ & (n & Hn & Hle) & Hst). exists n. split; [done|].
      by rewrite (proj1 (Forall_forall _ _) Hst w Hin).
    - rewrite (qo_idle _ _ Hq ix Hix Hi) in Hin. by apply elem_of_nil in Hin. }
  destruct Hw as [?|[?|Hf]]; [by apply (Hheld 0)|by apply (Hheld 1)|].
  destruct (proj1 (Forall_forall _ _) (qo_done _ _ Hq) w Hf) as (n & Hn & Hle). exists n. split; [done|lia].
Qed.

Lemma members_count {P : Painted} k s l F q : state_inv k s l F q ->
  16 * Z.of_nat (length (qmembers q)) <= heapQuarantineSize s.
Proof.
  intros So. rewrite (so_quarantine _ _ _ _ _ So). pose proof (so_chunks _ _ _ _ _ So) as Hch.
  assert (Forall (fun w => 16 <= wsize w) (qmembers q)) as Hall.
  { apply Forall_forall. intros w Hw. by destruct (Hch w Hw) as (_ & _ & _ & _ & ?). }
  clear -Hall. unfold sizes_of. induction Hall as [|w m Hw _ IH]; [cbn; lia|].
  change (16 * Z.of_nat (S (length m)) <= wsize w + qsum ((fun w => (wbody w, wsize w)) <$> m)). lia.
Qed.

(** A whole revocation pass has run since the chunk was freed. *)
Definition swept s (w : waiting) : Prop :=
  exists n, (n < readings s)%nat /\ wepoch w + 2 <= epoch_at n.

(** Every chunk in quarantine could leave it. *)
Definition all_ready s q : Prop :=
  Forall (fun w => wepoch w + 2 <= epoch_at (readings s)) (qmembers q).

(** The rest of an iteration, once the pending rings were looked at. *)
Lemma dequeue_rest_ok s l F q : state_ok 0 s l F q ->
  exists b s' l' F' q', (if bool_decide (wbody <$> qfin q = []) then mret false
      else _ ← dequeue_first; mret true) s = Ok (b, s') /\ state_ok 0 s' l' F' q' /\
    allocated l' q' ≡ₚ allocated l q /\ kept s s' /\
    if b : bool then exists w, qmembers q ≡ₚ w :: qmembers q' /\ swept s' w
    else qfin q = [] /\ q' = q.
Proof.
  intros So. destruct (qfin q) as [|w fin] eqn:Ew.
  - exists false, s, l, F, q. splits; done.
  - destruct (dequeue_first_ok _ _ _ _ _ _ So Ew) as (s' & l' & F' & E & So' & Hl & Hk).
    rewrite bool_decide_eq_false_2 by done. mrun E.
    exists true, s', l', F', (dequeued q). splits; try done. exists w.
    split; [by eapply dequeued_members|]. pose proof (qo_done _ _ (so_quar _ _ _ _ _ So)) as Hd.
    rewrite Ew in Hd. apply Forall_cons in Hd as [(n & Hn & Hle) _]. exists n. split; [|done].
    destruct Hk as (_ & _ & ?). lia.
Qed.

Lemma none_pending s q : quar_ok s q -> qixs q = [] -> qmembers q = qfin q.
Proof.
  intros Hq E. unfold qmembers. pose proof (qo_idle _ _ Hq) as Hi. rewrite E in Hi.
  by rewrite (Hi 0), (Hi 1) by (lia || apply not_elem_of_nil).
Qed.

(** One iteration of the loop. *)
Lemma dequeue_one_ok s l F q : state_ok 0 s l F q ->
  exists b s' l' F' q', dequeue_one s = Ok (b, s') /\ state_ok 0 s' l' F' q' /\
    allocated l' q' ≡ₚ allocated l q /\ kept s s' /\
    if b : bool then exists w, qmembers q ≡ₚ w :: qmembers q' /\ swept s' w
    else qmembers q' ≡ₚ qmembers q /\ (all_ready s q -> qmembers q = []).
Proof.
  intros So. pose proof (so_quar _ _ _ _ _ So) as Hq. pose proof (qo_fin _ _ Hq) as Hr.
  unfold dequeue_one. mrun (ring_of_ok _ _ _ (is_singleton_ring _ _ _ Hr)).
  destruct (decide (qfin q = [])) as [Ef|Hne].
  - rewrite bool_decide_eq_true_2 by (by rewrite Ef).
    destruct (pending_to_finished_ok _ _ _ _ _ So) as (s1 & q1 & E1 & So1 & Hq1 & Hmem & Hk1 & _ & Hret & _).
    apply (state_ok_members (qmembers q)) in So1; [|by rewrite Hmem].
    rewrite M_assoc. mrun E1.
    mrun (ring_of_ok _ _ _ (is_singleton_ring _ _ _ (qo_fin _ _ (so_quar _ _ _ _ _ So1)))).
    destruct (dequeue_rest_ok s1 l F q1 So1) as (b & s' & l' & F' & q' & E & So' & Hl & Hk & Hb).
    exists b, s', l', F', q'. splits; try done; [by rewrite Hl, (allocated_same _ _ _ Hmem)|by eapply kept_trans|].
    destruct b; [destruct Hb as (w & Hw & ?); exists w; by rewrite <- Hmem|].
    destruct Hb as [Ef1 ->]. split; [done|]. intros Hall.
    destruct (qixs q) as [|ix ixs] eqn:Eix; [by rewrite (none_pending _ _ Hq Eix)|exfalso].
    assert (ix ∈ qixs q) as Hix by (rewrite Eix; left).
    pose proof (qo_full _ _ Hq ix Hix) as Hheld. destruct (qo_epochs _ _ Hq ix Hix) as (_ & _ & _ & Hst).
    destruct (qheld q ix) as [|w ws] eqn:Eh; [done|]. apply Forall_cons in Hst as [Ew _].
    assert (w ∈ qmembers q) as Hw.
    { unfold qmembers. rewrite !elem_of_app.
      pose proof (live_range _ _ _ (qo_live _ _ Hq) Hix). assert (ix = 0 \/ ix = 1) as [-> | ->] by lia;
        rewrite Eh; [left; left|right; left; left]. }
    pose proof (proj1 (Forall_forall _ _) Hall w Hw) as Hready. cbn in Hready.
    pose proof (qo_positive _ _ Hq ix Hix). pose proof (epoch_range (readings s)).
    rewrite (Hret ix ixs) in Ef1; [|done|lia]. unfold retired in Ef1. rewrite Eix in Ef1. cbn [qfin] in Ef1.
    rewrite Ef, Eh in Ef1. done.
  - rewrite bool_decide_eq_false_2 by (by destruct (qfin q)). mpure.
    destruct (dequeue_rest_ok s l F q So) as (b & s' & l' & F' & q' & E & So' & Hl & Hk & Hb).
    rewrite bool_decide_eq_false_2 in E by (by destruct (qfin q)).
    exists b, s', l', F', q'. splits; try done. destruct b; [done|]. by destruct Hb.
Qed.

(** The loop ends with the chunks [gone] returned. *)
Lemma qtbin_deqn_ok loops s l F q : state_ok 0 s l F q ->
  exists gone s' l' F' q', mspace_qtbin_deqn loops s = Ok (Z.of_nat (length gone), s') /\
    state_ok 0 s' l' F' q' /\ allocated l' q' ≡ₚ allocated l q /\ kept s s' /\
    (length gone <= loops)%nat /\ qmembers q ≡ₚ gone ++ qmembers q' /\ Forall (swept s') gone /\
    (all_ready s q -> length gone = loops \/ qmembers q' = []).
Proof.
  revert s l F q. induction loops as [|loops IH]; intros s l F q So; cbn [mspace_qtbin_deqn].
  - exists [], s, l, F, q. splits; try done; by left.
  - destruct (dequeue_one_ok _ _ _ _ So) as (b & s1 & l1 & F1 & q1 & E1 & So1 & Hl1 & Hk1 & Hb). mrun E1.
    destruct b.
    + destruct Hb as (w & Hw & Hsw). destruct (IH _ _ _ _ So1) as
        (gone & s' & l' & F' & q' & E & So' & Hl & Hk & Hlen & Hm & Hg & Hall).
      mrun E. exists (w :: gone), s', l', F', q'. splits; try done.
      * unfold mret, M_ret. cbn [length]. do 2 f_equal. lia.
      * by rewrite Hl.
      * by eapply kept_trans.
      * cbn. lia.
      * by rewrite Hw, Hm.
      * constructor; [|done]. destruct Hsw as (n & Hn & ?), Hk as (_ & _ & ?). exists n. split; [lia|done].
      * intros Hr. destruct Hall as [<-|?]; [|by left|by right]. unfold all_ready in *. rewrite Hw in Hr.
        apply Forall_cons in Hr as [_ Hr]. eapply Forall_impl; [exact Hr|]. cbn. intros x Hx.
        destruct Hk1 as (_ & _ & Hrd & _). pose proof (epoch_monotone _ _ Hrd). lia.
    + destruct Hb as [Hm Hr]. exists [], s1, l1, F1, q1. splits; try done; [cbn; lia|].
      intros Hall. right. apply Permutation_nil. by rewrite <- (Hr Hall).
Qed.
End Dequeue.
