(* ===== verification/FreeOp.v ===== *)
(** * Entering the quarantine

    [quarantine_pending_push] puts a chunk in the pending ring of its epoch, and opens a
    ring for the epoch if there is none.  Opening never fails: when both rings wait, for
    two different earlier epochs, the older one has been swept and is emptied first. *)

From S2P Require Import Prelude LinkedList RingBuffer Bits AllocSizes ChunkHeader MState Bins SmallBins TreeBins TreeUnlink FreeLists TreeSelect Allocator Heap Release Malloc Accounts Quarantine Dequeue.

Section Enqueue.
Context `{EnvOk} `{Hepoch : !Epochs} {P : Painted}.
Implicit Types (s : MState) (F : gmap Z Z) (q : qstate).

(** [e] is the epoch read last, made even. *)
Definition current s (e : Z) : Prop :=
  Z.even e = true /\ 0 <= e /\ exists n, (n < readings s)%nat /\ e <= epoch_at n + 1.

Lemma current_epoch s e : current s e -> e <= epoch_at (readings s) + 1 /\ 0 <= e < 2 ^ 31.
Proof.
  intros (_ & He & n & Hn & Hle). pose proof (epoch_monotone n (readings s) ltac:(lia)).
  pose proof (epoch_range (readings s)). lia.
Qed.

Lemma even_gap a b : Z.even a = true -> Z.even b = true -> a < b -> a + 2 <= b.
Proof. rewrite !Z.even_spec. intros [i ->] [j ->]. lia. Qed.

(** There is room for another ring. *)
Lemma room k s l F q q1 e : state_inv k s l F q -> current s e ->
  (forall ix, ix ∈ qixs q -> qstamp q ix < e) -> (q1 = q \/ q1 = retired q) ->
  (forall ix ixs, qixs q = ix :: ixs ->
    qstamp q ix + 2 <= epoch_at (readings s) < qstamp q ix + 2 ^ 31 -> q1 = retired q) ->
  (length (qixs q1) < 2)%nat.
Proof.
  intros So He Hlt Hq1 Hret. pose proof (so_quar _ _ _ _ _ So) as [Ql Qp Qi Qf Qe Qd Qs Qz Qu Qn].
  pose proof (current_epoch _ _ He) as [Hle Hr]. pose proof (epoch_range (readings s)) as Her.
  destruct He as (Hev & _). destruct Ql as (_ & _ & _ & Hlen & _).
  unfold retired in *. destruct (qixs q) as [|i [|j [|? ?]]] eqn:Eix; cbn [length] in Hlen; [..|lia].
  - destruct Hq1 as [-> | ->]; rewrite Eix; cbn; lia.
  - destruct Hq1 as [-> | ->]; [rewrite Eix|]; cbn; lia.
  - rewrite (Hret i [j]); [cbn; lia|done|].
    pose proof (Hlt j ltac:(right; left)). pose proof (Qz i ltac:(left)).
    cbn [fmap list_fmap] in Qs. apply StronglySorted_inv in Qs as [_ Hij].
    apply Forall_cons in Hij as [Hij _].
    destruct (Qe i) as (_ & Ei & _); [left|]. destruct (Qe j) as (_ & Ej & _); [right; left|].
    pose proof (even_gap _ _ Ei Ej Hij). pose proof (even_gap _ _ Ej Hev ltac:(done)). lia.
Qed.

Lemma open_pending_ok k s l F q e y : state_inv k s l F q -> current s e ->
  (forall ix, ix ∈ qixs q -> qstamp q ix < e) ->
  exists ix s1 q1 c', open_pending (u32 e) y s =
      Ok (ix, with_pending (<[Z.to_nat ix := u32 e]> (quarantinePendingEpoch s1)) c' s1) /\
    state_inv k s1 l F q1 /\ (q1 = q \/ q1 = retired q) /\ qmembers q1 ≡ₚ qmembers q /\
    kept s s1 /\ off_heap s s1 /\ 0 <= ix < 2 /\ ix ∉ qixs q1 /\ live 2 c' (qixs q1 ++ [ix]).
Proof.
  intros So He Hlt.
  destruct (pending_to_finished_ok _ _ _ _ _ So) as (s1 & q1 & E1 & So1 & Hq1 & Hm & Hk & Ho & Hret & _).
  pose proof (room _ _ _ _ _ _ _ So He Hlt Hq1 Hret) as Hroom.
  pose proof (so_quar _ _ _ _ _ So1) as [Ql _ _ _ _ _ _ _ _ _].
  destruct (live_next 8 2 ring2_fits _ _ Ql) as [Hn _]. destruct (Hn ltac:(lia)) as [En Hnin].
  destruct (live_push 8 2 debug ring2_fits _ _ Ql ltac:(lia)) as (c' & Ec & Hl').
  unfold open_pending. mrun E1. mpure.
  rewrite (M_bind_ok _ _ s1 c' s1) by (apply reads_ok; exact Ec). mpure.
  change QuarantineRings with 2. rewrite En. rewrite bool_decide_eq_true_2 by (by eexists).
  mrun (massert_ok true (with_pending (quarantinePendingEpoch s1) c' s1) eq_refl).
  eexists _, s1, q1, c'. splits; try done; apply (slot_range 8 2 ring2_fits).
Qed.

(** The chunk [w] has been put in ring [ix], and [ixs] are the rings in use. *)
Definition pushed (ixs : list Z) (ix : Z) (w : waiting) q : qstate :=
  mkQ ixs (fupd ix (wepoch w) (qstamp q)) (fupd ix (qheld q ix ++ [w]) (qheld q)) (qfin q).

Lemma pushed_members ixs ix w q : 0 <= ix < 2 -> qmembers (pushed ixs ix w q) ≡ₚ w :: qmembers q.
Proof.
  intros Hix. unfold qmembers, pushed, fupd. cbn [qheld qfin].
  assert (ix = 0 \/ ix = 1) as [-> | ->] by lia; cbn [Z.eqb Pos.eqb]; solve_Permutation.
Qed.

Lemma quar_pushed k s s' l F q w ix ixs :
  state_inv k s l F q -> ~ quar_sentinel (wbody w) -> wbody w ∉ wbody <$> qmembers q ->
  current s (wepoch w) -> 0 <= ix < 2 -> live 2 (quarantinePendingRing s') ixs ->
  (forall jx, jx ∈ ixs <-> jx = ix \/ jx ∈ qixs q) ->
  StronglySorted Z.lt (fupd ix (wepoch w) (qstamp q) <$> ixs) ->
  Forall (fun w' => wepoch w' = wepoch w) (qheld q ix) ->
  quarantinePendingEpoch s' = <[Z.to_nat ix := u32 (wepoch w)]> (quarantinePendingEpoch s) ->
  ring (rings s') (quarantine_pending_get ix :: (wbody <$> qheld q ix) ++ [wbody w]) ->
  keeps (rings s) (rings s')
    (fun x => x ∉ quarantine_pending_get ix :: (wbody <$> qheld q ix) ++ [wbody w]) ->
  (readings s <= readings s')%nat ->
  quar_ok s' (pushed ixs ix w q).
Proof.
  intros So Hns Hnm (Hev & Hpos & n & Hn & Hle) Hix Hl Hixs Hsort Hheld Hep Hr Hk Hrd.
  pose proof (so_quar _ _ _ _ _ So) as [Ql Qp Qi Qf Qe Qd Qs Qz Qu Qn].
  split; unfold pushed; cbn [qixs qstamp qheld qfin]; try done.
  - intros jx Hjx. unfold fupd. destruct (Z.eqb_spec jx ix) as [->|Hne]; [by rewrite fmap_app|].
    eapply ring_frame; [by apply Qp|]. intros x Hx. apply Hk.
    rewrite app_comm_cons, elem_of_app, list_elem_of_singleton. intros [Hin| ->].
    + by apply (pending_apart _ _ _ _ _ jx ix x So).
    + apply elem_of_cons in Hx as [E|Hx]; [apply Hns; rewrite E; by apply pending_at|].
      by apply Hnm, (held_member q jx).
  - intros jx Hjx Hn'. rewrite Hixs in Hn'. unfold fupd. destruct (Z.eqb_spec jx ix) as [->|Hne]; [tauto|].
    apply Qi; [done|tauto].
  - eapply ring_frame; [done|]. intros x Hx. apply Hk.
    rewrite app_comm_cons, elem_of_app, list_elem_of_singleton. intros [Hin| ->].
    + by eapply (rings_apart _ _ _ _ _ ix x So).
    + apply elem_of_cons in Hx as [E|Hx]; [apply Hns; rewrite E; by right; right|].
      by apply Hnm, fin_member.
  - intros jx Hjx. rewrite Hep. unfold fupd. destruct (Z.eqb_spec jx ix) as [->|Hne].
    + splits; [|done| |].
      * apply list_lookup_insert_eq. rewrite Qn. lia.
      * exists n. split; [lia|done].
      * apply Forall_app. split; [done|]. by repeat constructor.
    + apply Hixs in Hjx as [?|Hjx]; [done|]. destruct (Qe jx Hjx) as (E1 & E2 & (m & Hm & Hle') & E4).
      pose proof (live_range _ _ _ Ql Hjx).
      splits; [|done| |done].
      * rewrite list_lookup_insert_ne by lia. done.
      * exists m. split; [lia|done].
  - eapply Forall_impl; [exact Qd|]. intros w' (m & Hm & Hle'). exists m. split; [lia|done].
  - intros jx Hjx. unfold fupd. destruct (Z.eqb_spec jx ix) as [->|Hne]; [done|].
    apply Hixs in Hjx as [?|Hjx]; [done|]. by apply Qz.
  - intros jx Hjx. unfold fupd. destruct (Z.eqb_spec jx ix) as [->|Hne]; [by destruct (qheld q ix)|].
    apply Hixs in Hjx as [?|Hjx]; [done|]. by apply Qu.
  - rewrite Hep. by rewrite length_insert.
Qed.

(** The body of a chunk in use is no cell of the bins. *)
Lemma used_apart k s l F q b d : state_inv k s l F q -> (b, d) ∈ used heap_address l ->
  in_heap b /\ ~ bin_cell F b /\ ~ quar_sentinel b.
Proof.
  intros So (c & Hc & Hu & _)%elem_of_used. pose proof (so_heap _ _ _ _ _ So) as Hok.
  assert (in_heap b) as Hh.
  { pose proof Hc as (l1 & l2 & -> & E)%placed_split. rewrite E. apply (arena_range _ _ _ _ (ho_arena _ _ _ Hok)). }
  splits; [done| |by intros [? _]%quar_sentinel_apart].
  intros [[sz Hx]|(i & Hi & E)]; [|by apply (sentinel_not_body i b)].
  destruct (frees_loose s l F b Hok (mk_is_Some _ _ Hx)) as [_ Hl]. specialize (Hl c Hc). congruence.
Qed.

(** Counting the chunk as quarantined. *)
Definition count_quarantined (n : Z) s : MState :=
  with_sizes (heapTotalSize s) (heapFreeSize s) (heapQuarantineSize s + n) s.

Definition append_to (ix b : Z) : M unit :=
  _ ← new_mchunk b; on_rings (fun r => sentinel_append_emplace r (quarantine_pending_get ix) b).

Lemma append_ok k s l F q w ix ixs c d :
  state_inv k s l F q -> (wbody w, d) ∈ used heap_address l -> csize d = wsize w -> cclaims d = 0 ->
  MinChunkSize <= wsize w -> wbody w ∉ wbody <$> qmembers q ->
  current s (wepoch w) -> 0 <= ix < 2 -> live 2 c ixs ->
  (forall jx, jx ∈ ixs <-> jx = ix \/ jx ∈ qixs q) ->
  StronglySorted Z.lt (fupd ix (wepoch w) (qstamp q) <$> ixs) ->
  Forall (fun w' => wepoch w' = wepoch w) (qheld q ix) ->
  let s2 := with_pending (<[Z.to_nat ix := u32 (wepoch w)]> (quarantinePendingEpoch s)) c s in
  exists r, append_to ix (wbody w) s2 = Ok (tt, with_rings r s2) /\
    state_inv k (count_quarantined (wsize w) (with_rings r s2)) l F (pushed ixs ix w q).
Proof.
  intros So Hb Hsz Hcl Hmin Hnm He Hix Hl Hixs Hsort Hheld s2.
  destruct (used_apart _ _ _ _ _ _ _ So Hb) as (Hh & Hnb & Hns).
  pose proof So as [Hok Hq Hnd Hch Htl Hf Hqs].
  pose proof (qo_pending _ _ Hq ix Hix) as Hr.
  assert (wbody w ∉ quarantine_pending_get ix :: (wbody <$> qheld q ix)) as Hfresh.
  { intros [E|Hin]%elem_of_cons; [apply Hns; rewrite E; by apply pending_at|].
    by apply Hnm, (held_member q ix). }
  destruct (ring_append_new (rings s) _ _ (wbody w) Hr Hfresh) as (r & Er & Hr' & Hk).
  exists r. split.
  { unfold append_to, new_mchunk. mpure.
    exact (on_rings_ok _ (with_rings (PtrAddr.construct (rings s) (wbody w)) s2) r Er). }
  pose proof (pushed_members ixs ix w q Hix) as Hm. split.
  - apply (heap_ok_frame s); try done. intros x Hx. apply Hk.
    rewrite app_comm_cons, elem_of_app, list_elem_of_singleton.
    destruct (cells_apart _ _ _ _ _ _ So Hx) as [H1 H2]. intros [[->|Hin]%elem_of_cons| ->]; [|by apply H2, (held_member q ix)|done].
    apply H1. by apply pending_at.
  - eapply (quar_pushed k s); try done.
  - rewrite Hm. cbn [fmap list_fmap]. by constructor.
  - intros w'. rewrite Hm. intros [->|Hw']%elem_of_cons; [|by apply Hch]. exists d. splits; done.
  - done.
  - done.
  - cbn [heapQuarantineSize count_quarantined with_sizes with_rings with_pending s2]. rewrite Hqs.
    unfold sizes_of. rewrite Hm. cbn [fmap list_fmap]. rewrite qsum_cons. cbn [snd]. lia.
Qed.

Lemma sorted_snoc (l : list Z) e : StronglySorted Z.lt l -> Forall (fun x => x < e) l ->
  StronglySorted Z.lt (l ++ [e]).
Proof.
  induction 1 as [|x l Hs IH Hx]; intros Hl; [by repeat constructor|].
  apply Forall_cons in Hl as [Hx' Hl]. constructor; [by apply IH|]. apply Forall_app. split; [done|].
  by repeat constructor.
Qed.

Lemma fupd_fmap ix e (f : Z -> Z) (ixs : list Z) : ix ∉ ixs -> fupd ix e f <$> ixs = f <$> ixs.
Proof.
  intros Hn. apply list_fmap_ext. intros i x Hx. apply list_elem_of_lookup_2 in Hx.
  apply fupd_other. by intros ->.
Qed.

Lemma sorted_le_last (l : list Z) e x : StronglySorted Z.lt (l ++ [e]) -> x ∈ l ++ [e] -> x <= e.
Proof.
  induction l as [|y l IH]; cbn [app].
  - intros _ ->%list_elem_of_singleton. done.
  - intros [Hs Hy]%StronglySorted_inv [->|Hx]%elem_of_cons; [|by apply IH].
    apply Forall_app in Hy as [_ Hy]. apply Forall_cons in Hy as [Hy _]. lia.
Qed.

(** The ring for the epoch [e]: what [append_ok] asks for. *)
Lemma pending_ring_for_ok k s l F q e :
  state_inv k s l F q -> current s e -> (forall ix, ix ∈ qixs q -> qstamp q ix <= e) ->
  exists ix s1 q1 ixs c, pending_ring_for (u32 e) s =
      Ok (ix, with_pending (<[Z.to_nat ix := u32 e]> (quarantinePendingEpoch s1)) c s1) /\
    state_inv k s1 l F q1 /\ qmembers q1 ≡ₚ qmembers q /\ kept s s1 /\ off_heap s s1 /\
    0 <= ix < 2 /\ live 2 c ixs /\ (forall jx, jx ∈ ixs <-> jx = ix \/ jx ∈ qixs q1) /\
    StronglySorted Z.lt (fupd ix e (qstamp q1) <$> ixs) /\ Forall (fun w => wepoch w = e) (qheld q1 ix).
Proof.
  intros So He Hst. pose proof (current_epoch _ _ He) as [_ Hr32].
  pose proof (so_quar _ _ _ _ _ So) as [Ql Qp Qi Qf Qe Qd Qs Qz Qu Qn].
  unfold pending_ring_for. mpure. rewrite (live_tail _ _ _ Ql).
  assert ((forall ix, ix ∈ qixs q -> qstamp q ix < e) ->
    exists ix s1 q1 ixs c, open_pending (u32 e) (last (qixs q)) s =
      Ok (ix, with_pending (<[Z.to_nat ix := u32 e]> (quarantinePendingEpoch s1)) c s1) /\
    state_inv k s1 l F q1 /\ qmembers q1 ≡ₚ qmembers q /\ kept s s1 /\ off_heap s s1 /\
    0 <= ix < 2 /\ live 2 c ixs /\ (forall jx, jx ∈ ixs <-> jx = ix \/ jx ∈ qixs q1) /\
    StronglySorted Z.lt (fupd ix e (qstamp q1) <$> ixs) /\ Forall (fun w => wepoch w = e) (qheld q1 ix)) as Hopen.
  { intros Hlt. destruct (open_pending_ok k s l F q e (last (qixs q)) So He Hlt) as
      (ix & s1 & q1 & c & E & So1 & Hq1 & Hm & Hk & Ho & Hix & Hn & Hl).
    exists ix, s1, q1, (qixs q1 ++ [ix]), c. splits; try done; [lia|lia|..].
    - intros jx. rewrite elem_of_app, list_elem_of_singleton. tauto.
    - rewrite fmap_app, fupd_fmap by done. cbn [fmap list_fmap]. rewrite fupd_same.
      apply sorted_snoc; [apply (so_quar _ _ _ _ _ So1)|].
      apply Forall_forall. intros x (jx & -> & Hjx)%list_elem_of_fmap.
      destruct Hq1 as [-> | ->]; [by apply Hlt|]. unfold retired in *.
      destruct (qixs q) as [|j js] eqn:Eq; [by rewrite Eq in Hjx; apply elem_of_nil in Hjx|].
      cbn [qixs qstamp] in *. apply Hlt. by right.
    - by rewrite (qo_idle _ _ (so_quar _ _ _ _ _ So1) ix Hix Hn). }
  destruct (last (qixs q)) as [ix|] eqn:El.
  2:{ mpure. apply Hopen. apply last_None in El. rewrite El. by intros ix ?%elem_of_nil. }
  apply last_Some in El as [ixs' Eixs].
  assert (ix ∈ qixs q) as Hix by (rewrite Eixs; apply elem_of_app; right; left).
  destruct (Qe ix Hix) as (E1 & _ & _ & Hheld). pose proof (live_range _ _ _ Ql Hix) as Hixr.
  assert (pending_epoch ix s = Ok (u32 (qstamp q ix), s)) as Ep by (apply reads_ok; by rewrite E1).
  rewrite M_assoc. mrun Ep. mpure.
  pose proof (Hst ix Hix) as Hle. pose proof (Qz ix Hix).
  unfold u32 at 1 2. rewrite !wrap_small by lia. destruct (Z.eqb_spec (qstamp q ix) e) as [Ee|Hne].
  - (* the youngest ring is for this epoch *)
    exists ix, s, q, (qixs q), (quarantinePendingRing s). splits; try done; [|lia|lia|..].
    + rewrite list_insert_id by (by rewrite E1, Ee). by destruct s.
    + intros jx. split; [by right|]. by intros [->|?].
    + replace (fupd ix e (qstamp q) <$> qixs q) with (qstamp q <$> qixs q); [done|].
      apply list_fmap_ext. intros i x _. unfold fupd. by destruct (Z.eqb_spec x ix) as [->|].
    + by rewrite <- Ee.
  - apply Hopen. intros jx Hjx. enough (qstamp q jx <= qstamp q ix) by lia.
    rewrite Eixs, fmap_app in Qs. eapply sorted_le_last; [exact Qs|].
    change [qstamp q ix] with (qstamp q <$> [ix]). rewrite <- fmap_app, <- Eixs. apply list_elem_of_fmap. by exists jx.
Qed.

(** The chunk at [b] enters the quarantine with the epoch [e]. *)
Lemma pending_push_ok k s l F q b d e :
  state_inv k s l F q -> (b, d) ∈ used heap_address l -> cclaims d = 0 -> MinChunkSize <= csize d ->
  b ∉ wbody <$> qmembers q -> body (from_body b) = b -> current s e ->
  (forall ix, ix ∈ qixs q -> qstamp q ix <= e) ->
  exists s' q', quarantine_pending_push (u32 e) (from_body b) s = Ok (tt, s') /\
    state_inv k (count_quarantined (csize d) s') l F q' /\ kept s s' /\ off_heap s s' /\
    qmembers q' ≡ₚ mkWaiting b (csize d) e :: qmembers q.
Proof.
  intros So Hb Hcl Hmin Hnm Ebody He Hst.
  destruct (pending_ring_for_ok k s l F q e So He Hst) as
    (ix & s1 & q1 & ixs & c & E & So1 & Hm & Hk & Ho & Hix & Hl & Hixs & Hsort & Hheld).
  destruct (append_ok k s1 l F q1 (mkWaiting b (csize d) e) ix ixs c d So1) as (r & Er & So'); try done.
  - by rewrite Hm.
  - destruct He as (H1 & H2 & n & Hn & Hle). split; [done|]. split; [done|]. exists n.
    destruct Hk as (_ & _ & ?). split; [lia|done].
  - unfold quarantine_pending_push. mrun E. rewrite Ebody. 
    eexists _, _. splits; [exact Er|exact So'| |done|].
    + done.
    + by rewrite pushed_members, Hm.
Qed.
End Enqueue.

(** * Deallocation

    [mspace_free] when no hazard pointer covers the chunk: the body is painted and zeroed,
    the chunk enters the quarantine, chunks that have waited long enough leave it and the
    revoker may be started. *)

Section Zero.
Context `{EnvOk} `{Hepoch : !Epochs} {P : Painted}.
Implicit Types (s : MState) (F : gmap Z Z) (q : qstate).

(** The memory from [b] on, [n] bytes, reads as zero. *)
Definition zeroed (b n : Z) s : MState :=
  let inside x := bool_decide (b <= x < b + n) in
  with_rings (filter (fun kv => inside kv.1 = false) (rings s))
    (with_tchunks (filter (fun kv => inside kv.1 = false) (tchunks s))
      (with_claimcells (filter (fun kv => inside kv.1 = false) (claimcells s)) s)).

Lemma zero_keeps b n s : keeps (rings s) (rings (zeroed b n s)) (fun x => ~ (b <= x < b + n)).
Proof.
  intros x Hx. cbn [rings zeroed with_rings ].
  assert (filter (fun kv : Z * _ => bool_decide (b <= kv.1 < b + n) = false) (rings s) !! x = rings s !! x) as E.
  { rewrite map_lookup_filter. destruct (rings s !! x); [|done]. cbn. rewrite bool_decide_eq_false_2 by done. done. }
  cbn. by rewrite E.
Qed.

(** No cell of the bins or of the quarantine is in the body of an allocated chunk. *)
Lemma body_apart k s l F q b c x : state_inv k s l F q -> (b, c) ∈ placed heap_address l -> cuse c = true ->
  b ∉ wbody <$> qmembers q -> bin_cell F x \/ quar_sentinel x \/ x ∈ wbody <$> qmembers q ->
  ~ (b <= x < b - sizeof_header + csize c).
Proof.
  intros So Hb Hu Hnm Hx Hr. pose proof (so_heap _ _ _ _ _ So) as Hok.
  pose proof (ho_arena _ _ _ Hok) as Ha. pose proof (ao_sizes _ _ Ha) as (Hall & Ht & _ & Hw).
  assert (in_heap x) as Hxh.
  { pose proof Hb as (l1 & l2 & -> & E)%placed_split. unfold in_heap.
    destruct (arena_range _ _ _ _ Ha) as (_ & _ & _ & [Hh _] & _). change sizeof_header with 8 in *.
    pose proof (placed_range _ _ _ _ Hall Hb) as [_ Hle]. change sizeof_header with 8 in *. lia. }
  assert (forall d, (x, d) ∈ placed heap_address l -> x <> b -> False) as Hpl.
  { intros d Hd Hne. pose proof Hb as (l1 & l2 & -> & E)%placed_split.
    apply placed_between in Hd; [|done]. change sizeof_header with 8 in *. lia. }
  destruct Hx as [[[sz Hx]|(i & Hi & E)]|[Hx|Hx]].
  - apply (ho_frees _ _ _ Hok) in Hx as (d & Hd & Hf & _). apply (Hpl d Hd). intros ->.
    rewrite (placed_fun _ _ _ _ _ Hall Hd Hb) in Hf. congruence.
  - by apply (sentinel_not_body i x).
  - by apply quar_sentinel_apart in Hx as [? _].
  - destruct (state_bodies _ _ _ _ _ _ So Hx) as (_ & d & Hd & _). apply (Hpl d Hd). by intros ->.
Qed.

Lemma zero_ok k s l F q b c n : state_inv k s l F q -> (b, c) ∈ placed heap_address l -> cuse c = true ->
  b ∉ wbody <$> qmembers q -> 0 <= n <= csize c - sizeof_header -> n mod 8 = 0 ->
  capaligned_zero b n s = Ok (tt, zeroed b n s) /\ state_inv k (zeroed b n s) l F q.
Proof.
  intros So Hb Hu Hnm Hn Hn8.
  assert (forall x, bin_cell F x \/ quar_sentinel x \/ x ∈ wbody <$> qmembers q -> ~ (b <= x < b + n)) as Hout.
  { intros x Hx Hr. eapply body_apart; [exact So|exact Hb|done|done|exact Hx|lia]. }
  split.
  - unfold capaligned_zero. rewrite land_mask by lia.
    rewrite (M_bind_ok _ _ s tt s) by (apply massert_ok; by rewrite Hn8). done.
  - pose proof (zero_keeps b n s) as Hk. pose proof So as [[Ha Hf Hp Hft Hr Hbin] Hq Hnd Hch Htl Hfs Hqs].
    split; try done.
    + split; try done.
      * by apply (arena_only s).
      * apply (binned_frame s); try done.
        -- intros x Hx. apply Hk, Hout. by left.
        -- intros x Hx. cbn [tchunks zeroed with_rings with_tchunks]. rewrite map_lookup_filter.
           destruct (tchunks s !! x); [|done]. cbn.
           rewrite bool_decide_eq_false_2 by (apply Hout; left; by left). done.
        -- intros x sz Hx. exact (binned_chunk _ _ _ _ Hbin Hx).
    + apply (quar_frame s _ q); try done. intros x Hx. apply Hk, Hout. by right.
Qed.
End Zero.

Section Free.
Context `{EnvOk} `{Hepoch : !Epochs}.
Implicit Types (s : MState) (F : gmap Z Z) (q : qstate).

(** ** The revoker *)

Lemma counters_ok k s l F q rd kk : state_ok k s l F q -> (readings s <= rd)%nat ->
  state_ok k (with_counters (sanityCounter s) rd kk s) l F q.
Proof.
  intros So Hrd. apply (state_ok_step (P := paint (qmembers q)) k s _ l F q); try done.
  apply (quar_frame s _ q); try done. apply So.
Qed.

Lemma bg_kick_ok s : exists rd kk, (readings s <= rd)%nat /\
  system_bg_revoker_kick s = Ok (tt, with_counters (sanityCounter s) rd kk s).
Proof.
  unfold system_bg_revoker_kick, system_epoch_get.
  rewrite (M_bind_ok _ _ s (u32 (epoch_at (readings s))) (read_env s) eq_refl). cbn beta.
  destruct (truth _); (eexists (S (readings s)), _; split; [lia|reflexivity]).
Qed.

Lemma revoker_kick_ok force s : exists b rd kk, (readings s <= rd)%nat /\
  mspace_bg_revoker_kick force s = Ok (b, with_counters (sanityCounter s) rd kk s) /\
  b = negb (heapQuarantineSize s =? 0).
Proof.
  unfold mspace_bg_revoker_kick. mpure. cbn [id]. destruct (heapQuarantineSize s =? 0).
  - exists false, (readings s), (kicks s). splits; try done. by destruct s.
  - set (sk := if IsAsynchronous then _ else _). destruct (force || sk).
    + unfold system_bg_revoker_kick, system_epoch_get. rewrite M_assoc.
      rewrite (M_bind_ok _ _ s (u32 (epoch_at (readings s))) (read_env s) eq_refl). cbn beta.
      destruct (truth _); mpure; eexists true, (S (readings s)), _; (splits; [lia|reflexivity|done]).
    + mpure. exists true, (readings s), (kicks s). splits; try done. by destruct s.
Qed.

(** ** Painting the body *)

Lemma paint_ok s l F q b c e n : state_ok 0 s l F q -> (b, c) ∈ placed heap_address l ->
  0 <= n <= csize c - sizeof_header -> n mod 8 = 0 ->
  state_inv (P := paint (mkWaiting b (csize c) e :: qmembers q)) 0
    (with_heap (mark_set_range b (b + n) (heap s)) s) l F q.
Proof.
  intros [Hok Hq Hnd Hch Htl Hfs Hqs] Hb Hn Hn8. set (m := _ :: qmembers q).
  pose proof Hok as [Ha Hf Hp Hft Hr Hbin]. pose proof Ha as [Hl Hs Hm Ho].
  assert (b mod 8 = 0) as B8.
  { pose proof Hb as (l1 & l2 & -> & ->)%placed_split. destruct (arena_range _ _ _ _ Ha) as (_ & _ & R8 & _).
    by apply mod8_add. }
  assert ((b + n) mod 8 = 0) as T8 by (by apply mod8_add).
  split; try done; [|by apply (quar_frame s _ q)]. split; try done.
  - split; cbn [heap with_heap mark_set_range hdrs shadow]; [done|done| |].
    + intros b' Hb'. apply elem_of_union_l. by apply Hm.
    + intros x [Hx|Hx]%elem_of_union.
      * destruct (Ho x Hx) as [?|Hpx]; [by left|right]. apply (paint_subset (qmembers q)); [|done].
        intros y Hy. by right.
      * right. apply (marks_spec _ _ _ B8 T8) in Hx as [Hx Hx8]. split; [done|].
        exists (mkWaiting b (csize c) e). split; [left|]. cbn [wbody wsize]. lia.
  - apply (binned_frame s); try done. intros b0 sz Hb0. exact (binned_chunk _ _ _ _ Hbin Hb0).
Qed.

(** ** The epoch of the chunk *)

Definition round_up (e : Z) : Z := e + e mod 2.

Lemma round_up_ok s : current (read_env s) (round_up (epoch_at (readings s))) /\
  u32 (u32 (epoch_at (readings s)) + Z.land (u32 (epoch_at (readings s))) 1)
  = u32 (round_up (epoch_at (readings s))).
Proof.
  pose proof (epoch_range (readings s)) as He. set (e := epoch_at (readings s)) in *.
  pose proof (Z.mod_pos_bound e 2 ltac:(lia)). unfold current, round_up. splits.
  - apply Z.even_spec. pose proof (Z.div_mod e 2 ltac:(lia)).
    exists (e / 2 + e mod 2). lia.
  - lia.
  - exists (readings s). split; [cbn; lia|]. fold e. lia.
  - unfold u32. rewrite (wrap_small 32 e) by lia. f_equal. f_equal.
    change 1 with (Z.ones 1). rewrite Z.land_ones by lia. done.
Qed.

Lemma stamps_le s q ix : quar_ok s q -> ix ∈ qixs q -> qstamp q ix <= round_up (epoch_at (readings s)).
Proof.
  intros Hq Hix. destruct (qo_epochs _ _ Hq ix Hix) as (_ & Hev & (n & Hn & Hle) & _).
  pose proof (epoch_monotone n (readings s) ltac:(lia)) as Hm. unfold round_up.
  apply Z.even_spec in Hev as [j Ej]. pose proof (Z.mod_pos_bound (epoch_at (readings s)) 2 ltac:(lia)).
  pose proof (Z.div_mod (epoch_at (readings s)) 2 ltac:(lia)). lia.
Qed.

(** What a chunk that is freed at state [s] waits for. *)
Definition frozen s (b : Z) (c : chunk) : waiting :=
  mkWaiting b (csize c) (round_up (epoch_at (readings s))).

(** An allocated chunk that nobody claims. *)
Record freeable (l : list chunk) q (b : Z) (c : chunk) : Prop := {
  fr_placed : (b, c) ∈ placed heap_address l;
  fr_use : cuse c = true;
  fr_claims : cclaims c = 0;
  fr_size : MinChunkSize <= csize c;
  fr_out : b ∉ wbody <$> qmembers q;
}.

Lemma freeable_used l q b c : freeable l q b c -> (b, strip c) ∈ used heap_address l.
Proof. intros []. apply elem_of_used. by exists c. Qed.

Lemma freeable_address {P : Painted} s l F q b c : heap_ok s l F -> freeable l q b c ->
  exists l1 l2, l = l1 ++ c :: l2 /\ from_body b = heap_address + total l1 /\ body (from_body b) = b.
Proof.
  intros Hok [Hb _ _ _ _]. apply placed_split in Hb as (l1 & l2 & -> & E).
  destruct (arena_range _ _ _ _ (ho_arena _ _ _ Hok)) as (_ & _ & _ & _ & Eb & Ef & _).
  change 8 with sizeof_header in *. rewrite E. exists l1, l2. splits; [done|done|by rewrite Ef].
Qed.

(** The claims in the bytes that deallocation zeroes are gone. *)
Definition wiped (b n : Z) s : MState :=
  with_claimcells (filter (fun kv => bool_decide (b <= kv.1 < b + n) = false) (claimcells s)) s.

Lemma wiped_cells b n c s : n <= csize c - sizeof_header -> 0 <= csize c -> frees_only [(b, strip c)] s (wiped b n s).
Proof.
  intros Hn Hs. split; [|unfold weight; cbn; lia]. intros x. cbn [claimcells wiped with_claimcells]. rewrite map_lookup_filter.
  destruct (claimcells s !! x) as [v|]; [|by left]. cbn. destruct (decide (b <= x < b + n)) as [Hx|Hx].
  - right. rewrite bool_decide_eq_true_2 by done. split; [done|]. exists b, (strip c). split; [left|]. cbn. lia.
  - left. by rewrite bool_decide_eq_false_2.
Qed.

(** What deallocation leaves: the chunk is not allocated any more, and chunks that have
    waited for a whole revocation pass may have gone back to the free lists. *)
Definition freed_state s (l : list chunk) q (b : Z) (c : chunk) n (w : waiting) s' : Prop :=
  exists gone l' F' q', state_ok 0 s' l' F' q' /\
    allocated l q ≡ₚ (b, strip c) :: allocated l' q' /\ kept (count_quarantined (csize c) (wiped b n s)) s' /\
    w :: qmembers q ≡ₚ gone ++ qmembers q' /\ Forall (swept s') gone /\ (length gone <= 3)%nat.

Lemma free_painted_ok s l F q b c n :
  state_inv (P := paint (frozen s b c :: qmembers q)) 0 s l F q -> freeable l q b c ->
  0 <= n <= csize c - sizeof_header -> n mod 8 = 0 ->
  exists s', free_painted (from_body b) n s = Ok (tt, s') /\ freed_state s l q b c n (frozen s b c) s'.
Proof.
  intros So Hfr Hn Hn8. pose proof Hfr as [Hb Hu Hcl Hmin Hnm].
  destruct (freeable_address _ _ _ _ _ _ (so_heap _ _ _ _ _ So) Hfr) as (l1 & l2 & El & Ef & Ebf).
  destruct (round_up_ok s) as [He Eu].
  unfold free_painted. unfold system_epoch_get at 1.
  rewrite (M_bind_ok _ _ s (u32 (epoch_at (readings s))) (read_env s) eq_refl). cbn beta zeta.
  pose proof (read_env_ok _ _ _ _ _ So) as So1. rewrite Ebf, Eu.
  destruct (zero_ok _ _ _ _ _ _ _ n So1 Hb Hu Hnm Hn Hn8) as [Ez So2]. mrun Ez.
  destruct (pending_push_ok 0 _ l F q b (strip c) _ So2 (freeable_used _ _ _ _ Hfr) Hcl Hmin Hnm Ebf He) as
    (s3 & q3 & E3 & So3 & Hk3 & Ho3 & Hm3).
  { intros ix. by apply (stamps_le s), (so_quar _ _ _ _ _ So). }
  mrun E3. rewrite Ef.
  assert (chunk_size (heap_address + total l1) s3 = Ok (csize c, s3)) as Es3.
  { pose proof (ho_arena _ _ _ (so_heap _ _ _ _ _ So3)) as Ha3. rewrite El in Ha3. apply (arena_only _ s3) in Ha3; [|done]. apply (arena_size _ _ _ _ Ha3). }
  mrun Es3. mpure.
  apply (state_ok_members (frozen s b c :: qmembers q)) in So3; [|rewrite Hm3; done].
  pose proof (bytes_bound _ _ _ _ So3) as Hbytes.
  cbn [heapFreeSize heapQuarantineSize count_quarantined with_sizes csize strip with_cpin] in Hbytes.
  assert (0 <= heapQuarantineSize s3).
  { destruct Ho3 as (_ & _ & _ & _ & _ & _ & _ & ->). cbn. rewrite (so_quarantine _ _ _ _ _ So).
    by eapply quarantine_nonneg. }
  change MinChunkSize with 16 in Hmin.
  unfold u32 at 1. rewrite wrap_small by lia.
  destruct (qtbin_deqn_ok 3 _ _ _ _ So3) as (gone & s4 & l4 & F4 & q4 & E4 & So4 & Ha4 & Hk4 & Hlen & Hm4 & Hg & _).
  cbn [csize strip with_cpin] in E4. unfold count_quarantined in E4. mrun E4.
  destruct (revoker_kick_ok false s4) as (r & rd & kk & Hrd & E5 & _). mrun E5.
  eexists. split; [reflexivity|]. exists gone, l4, F4, q4. splits.
  - by apply counters_ok.
  - rewrite Ha4. eapply allocated_push; [|by eapply freeable_used|done|].
    + apply (ao_sizes _ _ (ho_arena _ _ _ (so_heap _ _ _ _ _ So))).
    + by rewrite Hm3.
  - destruct Hk3 as (K1 & K2 & K3 & K7 & K9), Hk4 as (K4 & K5 & K6 & K8 & K10). cbn in *. unfold kept. cbn. splits; [congruence|congruence|cbn; lia|congruence|lia].
  - by rewrite <- Hm4, Hm3.
  - eapply Forall_impl; [exact Hg|]. intros x (m & Hm & Hle). exists m. split; [cbn; lia|done].
  - done.
Qed.

(** [mspace_free] with [skipHazardCheck]. *)
Lemma free_unchecked_ok s l F q b c n :
  state_ok 0 s l F q -> freeable l q b c -> 0 <= n <= csize c - sizeof_header -> n mod 8 = 0 ->
  exists s', mspace_free_unchecked (from_body b) n s = Ok (tt, s') /\ freed_state s l q b c n (frozen s b c) s'.
Proof.
  intros So Hfr Hn Hn8.
  destruct (freeable_address _ _ _ _ _ _ (so_heap _ _ _ _ _ So) Hfr) as (_ & _ & _ & _ & Ebf).
  pose proof (paint_ok _ _ _ _ _ _ (round_up (epoch_at (readings s))) n So (fr_placed _ _ _ _ Hfr) Hn Hn8) as So1.
  unfold mspace_free_unchecked. rewrite (M_bind_ok _ _ s tt _ eq_refl). cbn beta. rewrite Ebf.
  destruct (free_painted_ok (with_heap (mark_set_range b (b + n) (heap s)) s) l F q b c n So1 Hfr Hn Hn8) as (s' & E & Hf). by exists s'.
Qed.
End Free.
