(* ===== verification/Hazard.v ===== *)
(** * Hazard pointers

    [mspace_free] with the hazard list: a chunk covered by a hazard pointer is put in the
    hazard quarantine instead of being freed, and is freed later by
    [hazard_pointers_recheck], once no hazard pointer covers it. *)

From S2P Require Import Prelude LinkedList RingBuffer Bits AllocSizes ChunkHeader MState Bins SmallBins TreeBins TreeUnlink FreeLists TreeSelect Allocator Heap Release Malloc Accounts Quarantine Dequeue FreeOp.

Section Hazard.
Context `{EnvOk} `{Hepoch : !Epochs}.
Implicit Types (s : MState) (F : gmap Z Z) (q : qstate).

(** The hazard pointer [hp] keeps [allocation] alive. *)
Definition covers (hp allocation : cap) : bool :=
  ctag hp && negb (csealed_cap hp) && is_subset_of hp allocation.

(** A hazard pointer that covers [allocation] is seen from the state [s] on. *)
Definition hazarded s (allocation : cap) : Prop :=
  exists i n, (i < hazard_count)%nat /\ (readings s <= n)%nat /\ covers (hazard_at n i) allocation = true.

(** Each hazard pointer is seen, from the state [s] on, not to cover [allocation]. *)
Definition unhazarded s (allocation : cap) : Prop :=
  forall i, (i < hazard_count)%nat ->
    exists n, (readings s <= n)%nat /\ covers (hazard_at n i) allocation = false.

Definition read_many (k : nat) s : MState := with_counters (sanityCounter s) (readings s + k) (kicks s) s.

Lemma hazard_scan_ok indices a s : exists k live, (k <= length indices)%nat /\
  hazard_scan indices a s = Ok (live, read_many k s) /\
  if live : bool then exists i n, i ∈ indices /\ (readings s <= n)%nat /\ covers (hazard_at n i) a = true
  else forall i, i ∈ indices -> exists n, (readings s <= n)%nat /\ covers (hazard_at n i) a = false.
Proof.
  revert s. induction indices as [|i indices IH]; intros s; cbn [hazard_scan].
  - exists 0%nat, false. splits; [cbn; lia| |by intros i ?%elem_of_nil]. unfold mret, M_ret, read_many. rewrite Nat.add_0_r. by destruct s.
  - mpure. change (_ && is_subset_of _ _) with (covers (hazard_at (readings s) i) a).
    destruct (covers _ _) eqn:Ec.
    + exists 1%nat, true. splits; [cbn; lia| |].
      * mpure. unfold read_many. by rewrite Nat.add_1_r.
      * exists i, (readings s). splits; [left|lia|done].
    + destruct (IH (with_counters (sanityCounter s) (S (readings s)) (kicks s) s)) as (k & live & Hk & E & Hl).
      exists (S k), live. splits; [cbn; lia| |].
      * rewrite E. unfold read_many. cbn. by rewrite Nat.add_succ_r.
      * destruct live.
        -- destruct Hl as (j & n & Hj & Hn & Hc). exists j, n. cbn in Hn. splits; [by right|lia|done].
        -- intros j [->|Hj]%elem_of_cons; [by exists (readings s)|].
           destruct (Hl j Hj) as (n & Hn & Hc). exists n. cbn in Hn. split; [lia|done].
Qed.

Lemma hazard_check_ok a s : exists k live,
  hazard_pointer_check a s = Ok (live, read_many k s) /\
  if live : bool then hazarded s a else unhazarded s a.
Proof.
  destruct (hazard_scan_ok (seq 0 hazard_count) a s) as (k & live & _ & E & Hl). exists k, live.
  split; [exact E|]. destruct live.
  - destruct Hl as (i & n & Hi & Hn & Hc). exists i, n. apply elem_of_seq in Hi. splits; [lia|done|done].
  - intros i Hi. apply Hl. apply elem_of_seq. lia.
Qed.

Lemma read_many_ok k n s l F q : state_ok k s l F q -> state_ok k (read_many n s) l F q.
Proof. intros So. apply counters_ok; [done|lia]. Qed.

(** ** The hazard quarantine *)

Lemma allocated_freeable l q b d : (b, d) ∈ allocated l q -> cclaims d = 0 -> MinChunkSize <= csize d ->
  exists c, strip c = d /\ freeable l q b c.
Proof.
  intros [Hn Hb]%list_elem_of_filter Hc Hs. apply elem_of_used in Hb as (c & Hb & Hu & ->).
  exists c. split; [done|]. by split.
Qed.

Lemma freeable_allocated l q b c : freeable l q b c -> (b, strip c) ∈ allocated l q.
Proof. intros Hf. apply list_elem_of_filter. split; [by apply Hf|by eapply freeable_used]. Qed.

Lemma allocated_NoDup l q : Forall chunk_ok l -> NoDup (allocated l q).*1.
Proof.
  intros Hl. eapply sublist_NoDup; [apply (used_NoDup heap_address l Hl)|].
  apply fmap_sublist, sublist_filter.
Qed.

(** An entry of the hazard quarantine: an allocated chunk that was freed by its owner. *)
Definition entry_ok (l : list chunk) q (h : cap) : Prop :=
  exists d, (cbase h, d) ∈ allocated l q /\ MinChunkSize <= csize d /\ 0 <= cclaims d /\
    0 <= clength h <= csize d - sizeof_header /\ clength h mod 8 = 0.

Record hazards_ok (l : list chunk) q (hq : list cap) : Prop := {
  hz_entries : Forall (entry_ok l q) hq;
  hz_nodup : NoDup (cbase <$> hq);
}.

(** The entries other than the chunks that were freed. *)
Lemma entry_keeps l q l' q' gone h : allocated l q ≡ₚ gone ++ allocated l' q' -> cbase h ∉ gone.*1 ->
  entry_ok l q h -> entry_ok l' q' h.
Proof.
  intros Hp Hne (e & He & ?). exists e. split; [|done]. rewrite Hp in He.
  apply elem_of_app in He as [He|?]; [|done]. destruct Hne. apply list_elem_of_fmap. by exists (cbase h, e).
Qed.

Lemma hazards_keep l q l' q' gone hq : allocated l q ≡ₚ gone ++ allocated l' q' ->
  (forall b, b ∈ gone.*1 -> b ∉ cbase <$> hq) -> hazards_ok l q hq -> hazards_ok l' q' hq.
Proof.
  intros Hp Hb [He Hn]. split; [|done]. apply Forall_forall. intros h Hh.
  eapply entry_keeps; [exact Hp| |by eapply Forall_forall]. intros Hg. apply (Hb _ Hg).
  apply list_elem_of_fmap. by exists h.
Qed.

(** As [kept], for an operation that frees the chunks [gone]. *)
Definition kept_but (gone : list (Z * chunk)) s s' : Prop :=
  hazardQuarantine s' = hazardQuarantine s /\ lockWord s' = lockWord s /\ (readings s <= readings s')%nat /\
  frees_only gone s s'.

Lemma kept_but_trans g1 g2 s1 s2 s3 : kept_but g1 s1 s2 -> kept_but g2 s2 s3 -> kept_but (g1 ++ g2) s1 s3.
Proof.
  intros (E1 & E2 & ? & ?) (E3 & E4 & ? & ?). unfold kept_but. splits; [congruence|congruence|lia|by eapply frees_only_trans].
Qed.

Lemma kept_kept_but s s' : kept s s' -> kept_but [] s s'.
Proof. intros (? & ? & ? & ? & ?). unfold kept_but. splits; try done. by apply frees_only_refl. Qed.

Lemma kept_then g s s1 s2 : kept s s1 -> kept_but g s1 s2 -> kept_but g s s2.
Proof. intros K1%kept_kept_but K2. exact (kept_but_trans [] g _ _ _ K1 K2). Qed.

Lemma freed_kept s l q b c n w s' : freed_state s l q b c n w s' -> 0 <= n <= csize c - sizeof_header ->
  kept_but [(b, strip c)] s s'.
Proof.
  intros (g & l' & F' & q' & _ & _ & (E1 & E2 & Hr & E3 & E4) & _) Hn. change sizeof_header with 8 in *.
  unfold kept_but. splits; [exact E1|exact E2|exact Hr|]. destruct (wiped_cells b n c s) as [K _]; [change sizeof_header with 8; lia|lia|].
  split; [|unfold weight; cbn in E4 |- *; lia]. intros x. rewrite E3. apply K.
Qed.

(** What becomes of an entry when the hazard quarantine is looked through. *)
Definition fate s (l : list chunk) q (stay : list cap) (gone : list (Z * chunk)) (h : cap) : Prop :=
  (h ∈ stay /\ hazarded s h) \/
  (h ∉ stay /\ exists d, (cbase h, d) ∈ allocated l q /\ cclaims d <> 0) \/
  (h ∉ stay /\ unhazarded s h /\ cbase h ∈ gone.*1).

(** Each of the chunks [bs] is that of an entry over which, when it was looked at, no hazard
    pointer lay. *)
Definition released s (entries : list cap) (bs : list Z) : Prop :=
  forall b, b ∈ bs -> exists h, h ∈ entries /\ cbase h = b /\ unhazarded s h.

Lemma hazarded_later s s1 h : (readings s <= readings s1)%nat -> hazarded s1 h -> hazarded s h.
Proof. intros Hr (i & n & Hi & Hn & Hc). exists i, n. splits; [done|lia|done]. Qed.

Lemma unhazarded_later s s1 h : (readings s <= readings s1)%nat -> unhazarded s1 h -> unhazarded s h.
Proof. intros Hr Hu i Hi. destruct (Hu i Hi) as (n & Hn & Hc). exists n. split; [lia|done]. Qed.

Lemma released_later s s1 entries bs : (readings s <= readings s1)%nat -> released s1 entries bs ->
  released s entries bs.
Proof. intros Hr Hrel b Hb. destruct (Hrel b Hb) as (h & ? & ? & ?). exists h. splits; [done|done|by eapply unhazarded_later]. Qed.

Lemma released_base s entries bs : released s entries bs -> bs ⊆ cbase <$> entries.
Proof. intros Hrel b Hb. destruct (Hrel b Hb) as (h & Hh & <- & _). by apply list_elem_of_fmap_2. Qed.

Lemma released_cons s h entries bs : released s entries bs -> released s (h :: entries) bs.
Proof. intros Hrel b Hb. destruct (Hrel b Hb) as (x & ? & ? & ?). exists x. splits; [by right|done|done]. Qed.

Lemma fate_weaken s s1 l q l1 q1 stay stay' gone gone' h : (readings s <= readings s1)%nat -> (h ∈ stay <-> h ∈ stay') ->
  gone.*1 ⊆ gone'.*1 -> allocated l1 q1 ⊆ allocated l q ->
  fate s1 l1 q1 stay gone h -> fate s l q stay' gone' h.
Proof.
  intros Hr Hst Hg Ha. unfold fate. rewrite <- Hst.
  intros [[Hin Hh]|[(Hin & d & Hd & Hc)|(Hin & Hh & Hg')]].
  - left. split; [done|]. by eapply hazarded_later.
  - right. left. split; [done|]. exists d. split; [by apply Ha|done].
  - right. right. split; [done|]. split; [by eapply unhazarded_later|by apply Hg].
Qed.

Lemma claims_ok k s l F q b d : state_ok k s l F q -> (b, d) ∈ allocated l q ->
  exists h, chunk_header (from_body b) s = Ok (h, s) /\ claims h = cclaims d.
Proof.
  intros So [_ (c & Hc & _ & ->)%elem_of_used]%list_elem_of_filter.
  pose proof (ho_arena _ _ _ (so_heap _ _ _ _ _ So)) as Ha.
  apply placed_split in Hc as (l1 & l2 & -> & ->).
  destruct (arena_range _ _ _ _ Ha) as (_ & _ & _ & _ & _ & Ef & _). change 8 with sizeof_header in Ef.
  rewrite Ef. eexists. split; [by eapply arena_header|done].
Qed.

Lemma recheck_loop_ok entries skip s l F q : state_ok 0 s l F q -> hazards_ok l q entries ->
  cbase skip ∉ cbase <$> entries ->
  exists stay s' l' F' q' gone, recheck_loop entries skip s = Ok ((stay, false), s') /\
    state_ok 0 s' l' F' q' /\ kept_but gone s s' /\ hazards_ok l' q' stay /\ stay `sublist_of` entries /\
    allocated l q ≡ₚ gone ++ allocated l' q' /\ released s entries gone.*1 /\
    Forall (fate s l q stay gone) entries.
Proof.
  revert s l F q. induction entries as [|h hs IH]; intros s l F q So Hz Hskip; cbn [recheck_loop].
  { exists [], s, l, F, q, []. splits; try done; [by apply kept_kept_but|by intros b ?%not_elem_of_nil]. }
  cbn [fmap list_fmap] in Hskip. apply not_elem_of_cons in Hskip as [Hsk Hskip].
  destruct Hz as [[Hh Hhs]%Forall_cons [Hn Hnd]%NoDup_cons]. fold (cbase <$> hs) in Hn, Hnd.
  assert (h ∉ hs) as Hdiff.
  { intros Hin. apply Hn. apply list_elem_of_fmap. by exists h. }
  assert (forall stay, stay `sublist_of` hs -> cbase h ∉ cbase <$> stay) as Hout.
  { intros stay Hsub Hin. apply Hn. eapply elem_of_submseteq; [exact Hin|]. apply sublist_submseteq, fmap_sublist, Hsub. }
  assert (forall stay, stay `sublist_of` hs -> h ∉ stay) as Hout'.
  { intros stay Hsub Hin. apply (Hout stay Hsub). apply list_elem_of_fmap. by exists h. }
  destruct (hazard_check_ok h s) as (k & live & E & Hl). mrun E.
  pose proof (read_many_ok _ k _ _ _ _ So) as So1. assert (hazards_ok l q hs) as Hz1 by done.
  assert (kept s (read_many k s)) as Hk1 by (unfold kept, read_many; cbn; splits; (done || lia)).
  destruct live.
  - destruct (IH _ _ _ _ So1 Hz1 Hskip) as (stay & s' & l' & F' & q' & gone & E1 & So' & Hk & Hz' & Hsub & Hp & Hg & Hf).
    mrun E1. exists (h :: stay), s', l', F', q', gone. splits; try done.
    + by eapply kept_then.
    + split; [constructor; [|apply Hz']|constructor; [by apply Hout|apply Hz']].
      eapply entry_keeps; [exact Hp| |done]. intros Hin. by apply Hn, (released_base _ _ _ Hg).
    + by constructor.
    + eapply released_cons, released_later; [apply Hk1|exact Hg].
    + constructor; [left; split; [left|done]|]. rewrite Forall_forall in Hf |- *. intros h' Hh'.
      eapply (fate_weaken s _ l q l q stay); [apply Hk1| |done|done|by apply Hf].
      split; [by right|]. intros [->|?]%elem_of_cons; [done|done].
  - rewrite decide_False by (by intros ->).
    pose proof Hh as (d & Hd & Hmin & Hcl & Hlen & Hlen8).
    destruct (claims_ok _ _ _ _ _ _ _ So1 Hd) as (hd & Ehd & Ecl). mrun Ehd. rewrite Ecl.
    destruct (Z.ltb_spec 0 (cclaims d)) as [Hc|Hc].
    + mpure.
      destruct (IH _ _ _ _ So1 Hz1 Hskip) as (stay & s' & l' & F' & q' & gone & E1 & So' & Hk & Hz' & Hsub & Hp & Hg & Hf).
      exists stay, s', l', F', q', gone. splits; try done.
      * by eapply kept_then.
      * by constructor.
      * eapply released_cons, released_later; [apply Hk1|exact Hg].
      * constructor; [right; left; split; [by apply Hout'|exists d; split; [done|lia]]|].
        eapply Forall_impl; [exact Hf|]. intros h'. apply fate_weaken; try done. apply Hk1.
    + destruct (allocated_freeable l q (cbase h) d Hd) as (c & <- & Hfr); [lia|done|].
      destruct (free_unchecked_ok _ _ _ _ _ _ (clength h) So1 Hfr) as (s2 & E2 & Hfs); [done|done|]. mrun E2.
      pose proof (freed_kept _ _ _ _ _ _ _ _ Hfs ltac:(apply Hlen)) as Hk2.
      pose proof (kept_then _ _ _ _ Hk1 Hk2) as Hk3.
      destruct Hfs as (g2 & l2 & F2 & q2 & So2 & Hp2 & _).
      destruct (IH _ _ _ _ So2) as (stay & s' & l' & F' & q' & gone & E1 & So' & Hk & Hz' & Hsub & Hp & Hg & Hf).
      { eapply (hazards_keep l q _ _ [_]); [exact Hp2| |done]. cbn. by intros b ->%list_elem_of_singleton. }
      { done. }
      exists stay, s', l', F', q', ((cbase h, strip c) :: gone). splits; try done.
      * exact (kept_but_trans [_] _ _ _ _ Hk3 Hk).
      * by constructor.
      * by rewrite Hp2, Hp.
      * cbn. intros b [->|Hb]%elem_of_cons; [by exists h; split; [left|]|].
        refine (released_cons s h hs gone.*1 _ b Hb). eapply released_later; [apply Hk3|exact Hg].
      * constructor; [right; right; split; [by apply Hout'|split; [done|left]]|].
        eapply Forall_impl; [exact Hf|]. intros h'. apply fate_weaken; try done.
        -- apply Hk3.
        -- intros b Hb. by right.
        -- intros e He. rewrite Hp2. by right.
Qed.

Lemma with_hazards_inv {P : Painted} k s l F q hq lw :
  state_inv k s l F q -> state_inv k (with_hazards hq lw s) l F q.
Proof.
  intros So. apply (state_ok_step k s _ l F q); try done. apply (quar_frame s _ q); try done. apply So.
Qed.

Lemma with_hazards_ok k s l F q hq lw : state_ok k s l F q -> state_ok k (with_hazards hq lw s) l F q.
Proof. apply with_hazards_inv. Qed.

(** Looking through the hazard quarantine. *)
Lemma recheck_ok skip s l F q : state_ok 0 s l F q -> hazards_ok l q (hazardQuarantine s) ->
  cbase skip ∉ cbase <$> hazardQuarantine s ->
  exists s' l' F' q' gone, hazard_pointers_recheck skip s = Ok (false, s') /\
    state_ok 0 s' l' F' q' /\ lockWord s' = lockWord s /\ (readings s <= readings s')%nat /\
    hazards_ok l' q' (hazardQuarantine s') /\ hazardQuarantine s' `sublist_of` hazardQuarantine s /\ frees_only gone s s' /\
    allocated l q ≡ₚ gone ++ allocated l' q' /\ released s (hazardQuarantine s) gone.*1 /\
    Forall (fate s l q (hazardQuarantine s') gone) (hazardQuarantine s).
Proof.
  intros So Hz Hskip. unfold hazard_pointers_recheck. mpure.
  destruct (recheck_loop_ok _ skip _ _ _ _ So Hz Hskip) as
    (stay & s' & l' & F' & q' & gone & E & So' & (K1 & K2 & K3 & K4) & Hz' & Hsub & Hp & Hg & Hf).
  mrun E. eexists _, l', F', q', gone. splits; [reflexivity| |done|done|done|done|done|done|done|done].
  by apply with_hazards_ok.
Qed.

(** ** The lock of the hazard list *)

(** No thread is in the hazard list: the epoch is even. *)
Definition unlocked s : Prop := 0 <= lockWord s < 2 ^ 32 /\ Z.land (Z.shiftr (lockWord s) 16) 1 = 0.

Lemma land_1 z : Z.land z 1 = z mod 2.
Proof. change 1 with (Z.ones 1). by rewrite Z.land_ones. Qed.

Lemma lock_ok s : unlocked s -> exists e lw, 0 <= e < 2 ^ 17 /\ e mod 2 = 0 /\
  hazard_list_begin s = Ok (e, with_hazards (hazardQuarantine s) lw s).
Proof.
  intros [Hr He]. unfold hazard_list_begin. rewrite He. cbn [truth negb Z.eqb].
  rewrite land_1 in He. rewrite Z.shiftr_div_pow2 in * by lia. change (2 ^ 16) with 65536 in *.
  assert (0 <= lockWord s / 65536 < 65536) by (split; [apply Z.div_pos; lia|apply Z.div_lt_upper_bound; lia]).
  unfold u32. rewrite !(wrap_small 32 (lockWord s / 65536 + 1)) by lia.
  rewrite (wrap_small 32 (_ + 1 + 1)) by lia. eexists _, _. splits; [| | |reflexivity]; [lia|lia|].
  rewrite <- Z.add_assoc. rewrite Z.add_mod, He by lia. done.
Qed.

Lemma release_ok e s : 0 <= e < 2 ^ 17 -> e mod 2 = 0 ->
  exists lw, hazard_guard_release e s = Ok (tt, with_hazards (hazardQuarantine s) lw s) /\
    unlocked (with_hazards (hazardQuarantine s) lw s).
Proof.
  intros He H2. eexists. split; [reflexivity|]. unfold unlocked. cbn [lockWord with_hazards]. unfold u32, wrap.
  split; [apply Z.mod_pos_bound; lia|].
  rewrite land_1, Z.shiftl_mul_pow2, Z.shiftr_div_pow2 by lia.
  replace (2 ^ 32) with (2 ^ 16 * 2 ^ 16) by done.
  rewrite Z.mul_comm, Z.mul_mod_distr_l by lia. rewrite Z.mul_comm, Z.div_mul by lia.
  rewrite <- Znumtheory.Zmod_div_mod; [done|lia|lia|by exists (2 ^ 15)].
Qed.

(** What the allocator's state is between two calls. *)
Record alloc_ok s (l : list chunk) F q : Prop := {
  al_state : state_ok 0 s l F q;
  al_hazards : hazards_ok l q (hazardQuarantine s);
  al_lock : unlocked s;
}.

(** The capability to the body of a chunk. *)
Definition body_cap (b n : Z) : cap := mkCap b n (is_precise_range b n) false.

(** What looking through the hazard quarantine [hq] makes of it: an entry stays if a hazard
    pointer covered its chunk when the list was read; otherwise its chunk is freed, unless it is
    claimed; and only such chunks are freed. *)
Definition settled s (al gone : list (Z * chunk)) (hq hq' : list cap) : Prop :=
  hq' `sublist_of` hq /\ released s hq gone.*1 /\ (forall b, b ∈ gone.*1 -> b ∉ cbase <$> hq') /\
  Forall (fun h => (h ∈ hq' /\ hazarded s h) \/ (h ∉ hq' /\ exists d, (cbase h, d) ∈ al /\ cclaims d <> 0) \/
    (h ∉ hq' /\ unhazarded s h /\ cbase h ∈ gone.*1)) hq.

Lemma settled_refl s al : settled s al [] [] [].
Proof. unfold settled. splits; try done; by intros b ?%not_elem_of_nil. Qed.

Lemma fate_settled s l q l' q' stay gone entries : stay `sublist_of` entries -> released s entries gone.*1 ->
  Forall chunk_ok l -> allocated l q ≡ₚ gone ++ allocated l' q' -> hazards_ok l' q' stay ->
  Forall (fate s l q stay gone) entries -> settled s (allocated l q) gone entries stay.
Proof.
  intros Hs Hg Hl Hp [Hz _] Hf. unfold settled. splits; [done|done| |].
  { pose proof (allocated_NoDup l q Hl) as Hnd. rewrite Hp, fmap_app in Hnd. apply NoDup_app in Hnd as (_ & Hd & _).
    intros b Hb (h & -> & Hh)%list_elem_of_fmap. rewrite Forall_forall in Hz. destruct (Hz h Hh) as (d & Hd' & _).
    apply (Hd (cbase h)); [done|]. apply list_elem_of_fmap. by exists (cbase h, d). } eapply Forall_impl; [exact Hf|].
  intros h [?|[?|?]]; tauto.
Qed.

(** The chunk was freed, or put in the hazard quarantine because of a hazard pointer. *)
Definition free_outcome s (l : list chunk) q (b n : Z) (d : chunk) (gone : list (Z * chunk)) s' : Prop :=
  exists others hq, settled s (allocated l q) others (hazardQuarantine s) hq /\
    ((gone = others ++ [(b, d)] /\ hazardQuarantine s' = hq /\ unhazarded s (body_cap b n)) \/
     (gone = others /\ hazardQuarantine s' = hq ++ [body_cap b n] /\ hazarded s (body_cap b n))).

Lemma free_outcome_gone s l q b n d gone s' x : free_outcome s l q b n d gone s' -> x ∈ gone.*1 ->
  x = b \/ x ∈ cbase <$> hazardQuarantine s.
Proof.
  intros (others & hq & (_ & Hg & _ & _) & [(-> & _)|(-> & _)]); [|right; by apply (released_base _ _ _ Hg)].
  rewrite fmap_app, elem_of_app. cbn [fmap list_fmap fst]. rewrite list_elem_of_singleton.
  intros [Hx| ->]; [right; by apply (released_base _ _ _ Hg)|by left].
Qed.

Lemma free_outcome_room s l q b n d gone s' : free_outcome s l q b n d gone s' ->
  (length (hazardQuarantine s') <= S (length (hazardQuarantine s)))%nat.
Proof.
  intros (others & hq & (Hs & _) & [(_ & -> & _)|(_ & -> & _)]); apply sublist_length in Hs; [lia|].
  rewrite length_app. cbn. lia.
Qed.

Lemma mspace_free_spec s l F q b c n :
  alloc_ok s l F q -> freeable l q b c -> 0 <= n <= csize c - sizeof_header -> n mod 8 = 0 ->
  is_precise_range b n = true -> b ∉ cbase <$> hazardQuarantine s ->
  (length (hazardQuarantine s) < hazard_count)%nat ->
  exists s' l' F' q' gone, mspace_free (from_body b) n s = Ok (0, s') /\ alloc_ok s' l' F' q' /\
    allocated l q ≡ₚ gone ++ allocated l' q' /\
    free_outcome s l q b n (strip c) gone s' /\ frees_only gone s s' /\ (readings s <= readings s')%nat.
Proof.
  intros [So Hz Hlk] Hfr Hn Hn8 Hpr Hb Hroom.
  destruct (freeable_address _ _ _ _ _ _ (so_heap _ _ _ _ _ So) Hfr) as (_ & _ & _ & _ & Ebf).
  unfold mspace_free. rewrite Ebf, Hpr. destruct (lock_ok s Hlk) as (e & lw & He & He2 & E0). mrun E0.
  pose proof (with_hazards_ok _ _ _ _ _ (hazardQuarantine s) lw So) as So0.
  pose proof (recheck_ok (mkCap b n true false) _ l F q So0 Hz Hb) as
    (s1 & l1 & F1 & q1 & gone & E1 & So1 & _ & Hrd1 & Hz1 & Hsub & Hcl1 & Hp & Hg & Hfate). mrun E1.
  cbn [hazardQuarantine readings with_hazards] in Hsub, Hg, Hrd1, Hfate.
  apply (fate_settled _ _ _ _ _ _ _ _ Hsub Hg (proj1 (ao_sizes _ _ (ho_arena _ _ _ (so_heap _ _ _ _ _ So)))) Hp Hz1) in Hfate.
  assert (b ∉ gone.*1) as Hbg by (intros Hin; by apply Hb, (released_base _ _ _ Hg)).
  assert (b ∉ cbase <$> hazardQuarantine s1) as Hb1.
  { intros Hin. apply Hb. eapply elem_of_submseteq; [exact Hin|]. by apply sublist_submseteq, fmap_sublist. }
  pose proof (freeable_allocated _ _ _ _ Hfr) as Hal. rewrite Hp in Hal.
  apply elem_of_app in Hal as [Hin|Hal]; [destruct Hbg; apply list_elem_of_fmap; by exists (b, strip c)|].
  destruct (hazard_check_ok (mkCap b n true false) s1) as (k & live & E2 & Hl). mrun E2.
  pose proof (read_many_ok _ k _ _ _ _ So1) as So2. destruct live.
  - assert (length (hazardQuarantine (read_many k s1)) < hazard_count)%nat as Hlen.
    { cbn. apply sublist_length in Hsub. lia. }
    unfold hazard_quarantine_add.
    rewrite (M_bind_ok _ _ (read_many k s1) tt (with_hazards (hazardQuarantine s1 ++ [mkCap b n true false])
      (lockWord s1) (read_many k s1))) by (by rewrite (proj2 (Nat.ltb_lt _ _) Hlen)).
    destruct (release_ok e (with_hazards (hazardQuarantine s1 ++ [mkCap b n true false])
      (lockWord s1) (read_many k s1)) He He2) as (lw' & E3 & Hu). mrun E3.
    eexists _, l1, F1, q1, gone. splits; [reflexivity| |done| |exact Hcl1|].
    + split; [by apply with_hazards_ok, with_hazards_ok| |done]. cbn [hazardQuarantine with_hazards].
      destruct Hz1 as [Hz1 Hz2]. split.
      * apply Forall_app. split; [done|]. repeat constructor. exists (strip c). cbn.
        pose proof (fr_size _ _ _ _ Hfr). pose proof (fr_claims _ _ _ _ Hfr). splits; try done; lia.
      * rewrite fmap_app. apply NoDup_app. splits; [done| |apply NoDup_singleton].
        intros x Hx ->%list_elem_of_singleton. done.
    + exists gone, (hazardQuarantine s1). split; [done|right]. unfold body_cap. rewrite Hpr. splits; [done|done|].
      eapply hazarded_later; [exact Hrd1|done].
    + cbn. lia.
  - cbn [ctag negb]. rewrite (M_bind_ok _ _ (read_many k s1) tt _ eq_refl).
    destruct (allocated_freeable l1 q1 b (strip c) Hal) as (c1 & Ec1 & Hfr1);
      [apply (fr_claims _ _ _ _ Hfr)|apply (fr_size _ _ _ _ Hfr)|].
    assert (csize c1 = csize c) as Es1 by (by injection Ec1).
    match goal with |- context [(hazard_guard_release e ≫= _) ?s2] =>
      destruct (release_ok e s2 He He2) as (lw' & E3 & Hu) end. mrun E3.
    pose proof (paint_ok _ _ _ _ b c1 (round_up (epoch_at (readings (read_many k s1)))) n So2
      (fr_placed _ _ _ _ Hfr1) ltac:(by rewrite Es1) Hn8) as So3.
    apply (with_hazards_inv 0 _ _ _ _ (hazardQuarantine s1) lw') in So3.
    match type of So3 with state_inv _ ?s3 _ _ _ =>
      destruct (free_painted_ok s3 l1 F1 q1 b c1 n So3 Hfr1) as
        (s' & E4 & Hfs); [by rewrite Es1|done|] end.
    pose proof (freed_kept _ _ _ _ _ _ _ _ Hfs ltac:(lia)) as (_ & _ & Hrd2 & Hcl2).
    destruct Hfs as (g2 & l' & F' & q' & So' & Hp' & (K1 & K2 & _) & _). cbn [readings with_hazards read_many with_counters with_heap] in Hrd2.
    unfold mark_set_range in E4. mrun E4.
    exists s', l', F', q', (gone ++ [(b, strip c1)]). splits; [reflexivity| | | |by eapply frees_only_trans|lia].
    + cbn in K1, K2. split; [done| |].
      * rewrite K1. eapply (hazards_keep _ _ _ _ [_]); [exact Hp'| |done]. by intros x ->%list_elem_of_singleton.
      * unfold unlocked in *. rewrite K2. apply Hu.
    + by rewrite Hp, Hp', <- app_assoc.
    + exists gone, (hazardQuarantine s1). split; [done|left]. splits; [by rewrite Ec1|done|].
      eapply unhazarded_later; [exact Hrd1|]. unfold body_cap. by rewrite Hpr.
Qed.
End Hazard.
