(* ===== verification/MallocOp.v ===== *)
(** * Allocation

    [mspace_malloc]: chunks leave the quarantine, a free chunk that fits is taken out of
    the bins and carved, and its memory is handed out; or no free chunk fits, and the
    revoker is started. *)

From S2P Require Import Prelude LinkedList RingBuffer Bits AllocSizes ChunkHeader MState Bins SmallBins TreeBins TreeUnlink FreeLists TreeSelect Allocator Heap Release Malloc Accounts Quarantine Dequeue FreeOp Hazard.

Section MallocOp.
Context `{EnvOk} `{Hepoch : !Epochs}.
Implicit Types (s : MState) (F : gmap Z Z) (q : qstate).

(** The state with a chunk handed out whose bytes still count as free. *)
Definition handed_out s (l : list chunk) q (nb p : Z) (d : chunk) s' (l' : list chunk) F' : Prop :=
  state_ok (csize d) s' l' F' q /\ (p + sizeof_header, d) ∈ used heap_address l' /\
  used heap_address l' ≡ₚ (p + sizeof_header, d) :: used heap_address l /\
  p + sizeof_header ∉ wbody <$> qmembers q /\ nb <= csize d /\ cclaims d = 0 /\ csealed d = false /\
  (exists l1 c l2, l' = l1 ++ c :: l2 /\ p = heap_address + total l1 /\ d = strip c) /\
  kept s s'.

Lemma granted_state s l F q nb sz p s' : state_ok 0 s l F q -> granted (P := paint (qmembers q)) s l nb sz p s' ->
  exists d l' F', handed_out s l q nb p d s' l' F' /\ csize d = carved sz nb.
Proof.
  intros So (l1 & c & l2 & F' & -> & -> & Hu & Hsz & Hle & Hok' & T).
  pose proof So as [Hok Hq Hnd Hch Htl Hf Hqs]. set (p := heap_address + total l1).
  pose proof (placed_in heap_address l1 c l2) as Hpc. fold p in Hpc.
  assert (p + sizeof_header ∉ wbody <$> qmembers q) as Hn.
  { intros Hm. destruct (state_bodies _ _ _ _ _ _ So Hm) as (_ & d & Hd & Hud).
    rewrite (placed_fun _ _ _ _ _ (proj1 (ao_sizes _ _ (ho_arena _ _ _ Hok))) Hd Hpc) in Hud. congruence. }
  assert (used heap_address (l1 ++ carve c nb l2) ≡ₚ
    (p + sizeof_header, strip (handed c nb)) :: used heap_address (l1 ++ c :: l2)) as Hused.
  { rewrite used_carve, used_free by done. solve_Permutation. }
  assert (plain c) as Hpl.
  { pose proof (ho_plain _ _ _ Hok) as Hp. by apply Forall_app in Hp as [_ [Hp _]%Forall_cons]. }
  destruct (Hpl Hu) as [Hse Hcl].
  exists (strip (handed c nb)), (l1 ++ carve c nb l2), F'. split.
  2:{ cbn. by rewrite Hsz. }
  unfold handed_out. splits; try done.
  - pose proof T as [(h & r & tc & tb & sm & tm & Es) _]. split; try done.
    + eapply quar_touches; [exact So|exact T|]. intros x [Hxh Hxl]. split; [done|]. intros Hm.
      destruct (state_bodies _ _ _ _ _ _ So Hm) as (_ & d & Hd & Hud). specialize (Hxl d Hd). congruence.
    + intros w Hw. destruct (Hch w Hw) as (d & Hd & ?). exists d. split; [|done]. rewrite Hused. by right.
    + rewrite Es, total_carve. done.
    + rewrite Es. cbn [heapFreeSize with_heap with_rings with_tchunks with_treebins with_maps].
      rewrite Hf, carve_free by done. cbn. lia.
    + by rewrite Es.
  - rewrite Hused. left.
  - cbn. unfold carved. case_match; lia.
  - unfold carve, handed, carved. rewrite Hsz in *. destruct (MinChunkSize <=? sz - nb).
    + eexists l1, _, _. splits; [reflexivity|done|done].
    + eexists l1, _, _. splits; [reflexivity|done|]. rewrite <- Hsz. by destruct c.
  - by eapply touches_kept.
Qed.

(** No address in the body of an allocated chunk is painted. *)
Lemma body_unpainted k s l F q l1 c l2 w : state_ok k s l F q -> l = l1 ++ c :: l2 -> cuse c = true ->
  let b := heap_address + total l1 + sizeof_header in
  b ∉ wbody <$> qmembers q -> b <= w < b - sizeof_header + csize c -> w mod 8 = 0 ->
  mark_get (heap s) w = false.
Proof.
  intros So -> Hu b Hn Hw Hw8. rewrite mark_get_ok by done. apply bool_decide_eq_false. intros Hin.
  pose proof (ho_arena _ _ _ (so_heap _ _ _ _ _ So)) as [_ (Hall & _) _ Ho].
  pose proof (placed_in heap_address l1 c l2) as Hb. fold b in Hb.
  apply Ho in Hin as [([x d] & Ex & Hx)%list_elem_of_fmap|(_ & w' & Hw' & Hr)].
  - cbn in Ex. subst x. pose proof (placed_between _ _ _ _ _ _ Hall Hx) as Hbet.
    unfold b in *. change sizeof_header with 8 in *. destruct Hbet as [?|Hbet]; [lia|].
    assert (csize c mod 8 = 0 /\ (heap_address + total l1 + 8) mod 8 = 0) as [C8 B8].
    { destruct (arena_range _ _ _ _ (ho_arena _ _ _ (so_heap _ _ _ _ _ So))) as (_ & _ & R8 & _).
      split; [|by apply mod8_add]. by apply Forall_app in Hall as [_ [[_ ?] _]%Forall_cons]. }
    pose proof (Z.div_mod (csize c) 8). pose proof (Z.div_mod (heap_address + total l1 + 8) 8).
    pose proof (Z.div_mod w 8). lia.
  - destruct (so_chunks _ _ _ _ _ So w' Hw') as (d & (e & He & Hue & ->)%elem_of_used & Es & _).
    cbn in Es. apply placed_between in He as Hbet; [|done].
    assert (wbody w' <> b) as Hne by (intros E; apply Hn; rewrite <- E; apply list_elem_of_fmap; by exists w').
    pose proof He as (k1 & k2 & Ek & Ewb)%placed_split.
    rewrite Ek in Hb. rewrite Ek in Hall. apply placed_between in Hb as Hbet2; [|done].
    unfold b in *. change sizeof_header with 8 in *. lia.
Qed.

Lemma words_range b n w : In w (words b n) -> b mod 8 = 0 -> b <= w < b + n /\ w mod 8 = 0.
Proof.
  unfold words. intros (i & <- & Hi)%in_map_iff Hb. apply in_seq in Hi. pose proof (Z.div_mod n 8 ltac:(lia)).
  pose proof (Z.mod_pos_bound n 8 ltac:(lia)). split; [lia|]. rewrite Z.add_mod, Hb by lia.
  rewrite Z.mul_comm, Z.mod_mul by lia. done.
Qed.

Lemma malloc_success_ok s l q nb p d s' l' F' : handed_out s l q nb p d s' l' F' ->
  mspace_malloc_success p s' = Ok (p + sizeof_header,
    with_sizes (heapTotalSize s') (heapFreeSize s' - csize d) (heapQuarantineSize s') s') /\
  state_ok 0 (with_sizes (heapTotalSize s') (heapFreeSize s' - csize d) (heapQuarantineSize s') s') l' F' q.
Proof.
  intros (So & Hd & _ & Hn & _ & _ & _ & (l1 & c & l2 & El & Ep & Ed) & _).
  pose proof So as [Hok Hq Hnd Hch Htl Hf Hqs].
  pose proof (ho_arena _ _ _ Hok) as Ha. rewrite El in Ha.
  destruct (arena_range _ _ _ _ Ha) as (R0 & R1 & R8 & Hh & Eb & _). change 8 with sizeof_header in Eb.
  assert (cuse c = true) as Hu.
  { apply elem_of_used in Hd as (e & He & Hu & _). rewrite Ep in He. rewrite El in He.
    by rewrite (placed_fun _ _ _ _ _ (proj1 (ao_sizes _ _ Ha)) He (placed_in _ _ _ _)) in Hu. }
  split.
  - unfold mspace_malloc_success. rewrite Ep. mrun (arena_size _ _ _ _ Ha). mpure.
    rewrite Eb. 
    rewrite (M_bind_ok _ _ s' tt s').
    + mpure. rewrite Ed. cbn [csize strip with_cpin].
      pose proof (proj1 (ao_sizes _ _ Ha)) as Hall. pose proof (total_free_range _ Hall) as Htf.
      assert (0 < csize c) by (by apply Forall_app in Hall as [_ [[? _] _]%Forall_cons]).
      pose proof (ao_sizes _ _ Ha) as (_ & Ht & _). change MaxChunkSize with 524280 in Ht.
      rewrite El, Ed in Hf. cbn [csize strip with_cpin] in Hf.
      assert (total_free (l1 ++ c :: l2) + csize c <= total (l1 ++ c :: l2)).
      { rewrite total_free_app, total_free_cons, total_app, total_cons, Hu.
        apply Forall_app in Hall as [A1 [_ A2]%Forall_cons].
        pose proof (total_free_range _ A1). pose proof (total_free_range _ A2). lia. }
      unfold u32. by rewrite wrap_small by lia.
    + apply massert_ok. apply forallb_forall. intros w Hw.
      enough (mark_get (heap s') w = false) as -> by (by rewrite andb_false_r).
      apply words_range in Hw as [Hw Hw8]; [|by apply mod8_add].
      eapply (body_unpainted _ _ _ _ _ l1 c l2); [exact So|exact El|exact Hu|by rewrite <- Ep| |done].
      change sizeof_header with 8 in *. lia.
  - split; try done.
    + by apply (heap_ok_frame s').
    + by apply (quar_frame s' _ q).
    + cbn [heapFreeSize with_sizes]. lia.
Qed.

(** The size of the chunk a request for [bytes] needs. *)
Definition padded (bytes : Z) : Z := if bytes <? MinRequest then MinChunkSize else pad_request bytes.

Lemma padded_ok bytes : 0 <= bytes < 2 ^ 32 - 32 ->
  request_ok (padded bytes) /\ bytes + sizeof_header <= padded bytes < bytes + sizeof_header + MinChunkSize /\
  (bytes <= MaxSmallRequest <-> padded bytes <= MaxSmallSize) /\
  (MaxSmallRequest < bytes -> padded bytes = pad_request bytes).
Proof.
  intros Hb. change sizeof_header with 8 in *.
  destruct (pad_request_spec bytes ltac:(lia)) as [Hp Hp8]. change sizeof_header with 8 in Hp.
  unfold padded, request_ok. change MallocAlignment with 8 in *. change MinChunkSize with 16.
  change MinRequest with 8. change MaxSmallRequest with 56. change MaxSmallSize with 64.
  pose proof (Z.div_mod (pad_request bytes) 8 ltac:(lia)).
  destruct (Z.ltb_spec bytes 8); splits; (lia || done).
Qed.

(** The answer of the search for a chunk: a header, or null. *)
Lemma internal_ok s l F q bytes : state_ok 0 s l F q -> 0 <= bytes < 2 ^ 32 - 32 ->
  exists p s' l' F' q', mspace_malloc_internal bytes s = Ok (p, s') /\
    ((p = 0 /\ state_ok 0 s' l' F' q' /\ kept s s' /\ allocated l' q' ≡ₚ allocated l q /\
      forall b sz, F' !! b = Some sz -> sz < padded bytes) \/
     (truth p = true /\ exists d l1, handed_out s l1 q' (padded bytes) p d s' l' F' /\
       allocated l1 q' ≡ₚ allocated l q /\ csize d < padded bytes + MinChunkSize)).
Proof.
  intros So Hb. destruct (padded_ok bytes Hb) as (Hok & Hle & Hsm & Hlg).
  destruct (qtbin_deqn_ok 4 _ _ _ _ So) as (gone & s1 & l1 & F1 & q1 & E1 & So1 & Ha1 & Hk1 & _).
  assert (exists p s', (if bytes <=? MaxSmallRequest
      then malloc_small (if bytes <? MinRequest then MinChunkSize else pad_request bytes)
      else malloc_large (pad_request bytes)) s1 = Ok (p, s') /\
    answered (P := paint (qmembers q1)) s1 l1 F1 (padded bytes) p s') as (p & s2 & E2 & Hans).
  { destruct (Z.leb_spec bytes MaxSmallRequest) as [Hs|Hl].
    - destruct (malloc_small_ok _ _ _ _ (so_heap _ _ _ _ _ So1)
        (request_small _ Hok (proj1 Hsm Hs))) as (p & s2 & E2 & Hans); [by apply Hsm|].
      exists p, s2. split; [exact E2|]. destruct Hans as [(Ht & z & G & _)|?]; [left; split; [done|by exists z]|by right].
    - rewrite <- Hlg by done. apply malloc_large_ok; [apply So1|done|].
      apply Z.nle_gt. intros Hn. apply Hsm in Hn. lia. }
  unfold mspace_malloc_internal, quarantine_dequeue. rewrite M_assoc. mrun E1. mpure. mrun E2.
  destruct Hans as [(Ht & z & G)|(-> & -> & Hno)].
  - rewrite Ht. destruct (granted_state _ _ _ _ _ _ _ _ So1 G) as (d & l' & F' & Hh & Esz).
    eexists p, s2, l', F', q1. split; [reflexivity|]. right. split; [done|]. exists d, l1. splits; [|done|].
    2:{ rewrite Esz. unfold carved. destruct (Z.leb_spec MinChunkSize (z - padded bytes)); [change MinChunkSize with 16|]; lia. }
    destruct Hh as (H1' & H2' & H3' & H4' & H5' & H6' & H7' & H8' & H9').
    unfold handed_out. splits; try done. by eapply kept_trans.
  - cbn [truth negb Z.eqb]. destruct (revoker_kick_ok true s1) as (r & rd & kk & Hrd & E3 & _). mrun E3.
    eexists 0, _, l1, F1, q1. split; [reflexivity|]. left. splits; try done.
    + by apply counters_ok.
    + destruct Hk1 as (K1 & K2 & K3 & K4 & K5). unfold kept. cbn. splits; [done|done|lia|done|done].
Qed.

(** What a caller of the allocator gets. *)
Definition malloc_outcome (l : list chunk) q (bytes p : Z) (l' : list chunk) F' q' : Prop :=
  (p = 0 /\ allocated l' q' ≡ₚ allocated l q /\ forall b sz, F' !! b = Some sz -> sz < padded bytes) \/
  (truth p = true /\ exists d, allocated l' q' ≡ₚ (p, d) :: allocated l q /\ bytes + sizeof_header <= csize d /\
    csize d < padded bytes + MinChunkSize /\ cclaims d = 0 /\ csealed d = false).

(** What keeps the hazard quarantine and its lock keeps the invariant. *)
Lemma alloc_kept s l F q s' l' F' q' la : alloc_ok s l F q -> state_ok 0 s' l' F' q' -> kept s s' ->
  allocated l' q' ≡ₚ la ++ allocated l q -> alloc_ok s' l' F' q'.
Proof.
  intros [So [Hz1 Hz2] Hlk] So' (K1 & K2 & _) Hp. split; [done| |unfold unlocked in *; by rewrite K2]. rewrite K1.
  split; [|done]. eapply Forall_impl; [exact Hz1|]. intros h (d & Hd & ?). exists d. split; [|done].
  rewrite Hp. apply elem_of_app. by right.
Qed.

(** The end of an allocation. *)
Lemma malloc_finish s l F q l0 q1 nb p d s1 l1 F1 : alloc_ok s l F q -> handed_out s l0 q1 nb p d s1 l1 F1 ->
  allocated l0 q1 ≡ₚ allocated l q ->
  exists s', mspace_malloc_success p s1 = Ok (p + sizeof_header, s') /\ alloc_ok s' l1 F1 q1 /\ kept s s' /\
    truth (p + sizeof_header) = true /\ allocated l1 q1 ≡ₚ (p + sizeof_header, d) :: allocated l q /\
    nb <= csize d /\ cclaims d = 0 /\ csealed d = false.
Proof.
  intros Ha Hh Hp. destruct (malloc_success_ok _ _ _ _ _ _ _ _ _ Hh) as [E2 So2].
  destruct Hh as (_ & _ & Hu & Hn & Hnb & Hc & Hs & (k1 & c & k2 & El & Ep & Ed) & Hk).
  pose proof (allocated_grant l0 l1 q1 _ _ Hu Hn) as Hg. rewrite Hp in Hg.
  eexists. splits; [exact E2|by eapply (alloc_kept _ _ _ _ _ _ _ _ [_] Ha So2)|exact Hk| |done|done|done|done].
  pose proof (ho_arena _ _ _ (so_heap _ _ _ _ _ So2)) as Har. rewrite El in Har.
  destruct (arena_range _ _ _ _ Har) as (_ & _ & _ & Hh & _). rewrite Ep. by apply in_heap_truth.
Qed.

Lemma mspace_malloc_ok s l F q bytes : alloc_ok s l F q -> 0 <= bytes < 2 ^ 32 - 32 ->
  exists p s' l' F' q', mspace_malloc bytes s = Ok (p, s') /\ alloc_ok s' l' F' q' /\ kept s s' /\
    malloc_outcome l q bytes p l' F' q'.
Proof.
  intros Ha Hb. destruct (padded_ok bytes Hb) as (_ & Hle & _).
  destruct (internal_ok _ _ _ _ bytes (al_state _ _ _ _ Ha) Hb) as (p & s1 & l1 & F1 & q1 & E & Hcase).
  unfold mspace_malloc. mrun E. destruct Hcase as [(-> & So1 & Hk & Hp & Hno)|(Ht & d & l0 & Hh & Hp & Hlt)].
  - cbn [truth negb Z.eqb]. exists 0, s1, l1, F1, q1. splits; [done|by eapply (alloc_kept _ _ _ _ _ _ _ _ [])|done|by left].
  - rewrite Ht. destruct (malloc_finish _ _ _ _ _ _ _ _ _ _ _ _ Ha Hh Hp) as (s' & E2 & Ha' & Hk' & Ht' & Hp' & Hnb & ? & ?).
    eexists _, s', l1, F1, q1. splits; [exact E2|done|done|]. right. split; [done|]. exists d. splits; [done|lia|done|done|done].
Qed.
End MallocOp.
