(* ===== verification/Memalign.v ===== *)
(** * Aligned allocation

    [mspace_memalign] takes a chunk with room for the alignment, and gives back the space
    before and after the part that it hands out. *)

From S2P Require Import Prelude LinkedList RingBuffer Bits AllocSizes ChunkHeader MState Bins SmallBins TreeBins TreeUnlink FreeLists TreeSelect Allocator Heap Release Malloc Accounts Quarantine Dequeue FreeOp Hazard MallocOp.

Section Memalign.
Context `{EnvOk} `{Hepoch : !Epochs}.
Implicit Types (s : MState) (F : gmap Z Z) (q : qstate).

(** ** Splitting a chunk in use *)

Lemma split_heap {P : Painted} s l1 c d l2 F o : heap_ok s (l1 ++ c :: d :: l2) F -> cuse c = true ->
  size_ok o -> size_ok (csize c - o) ->
  exists h, chunk_split (heap_address + total l1) o s = Ok (heap_address + total l1 + o, with_heap h s) /\
    heap_ok (with_heap h s) (l1 ++ with_csize o c :: split_tail o c :: d :: l2) F.
Proof.
  intros Hok Hu [Ho Ho8] Hr. pose proof Hok as [Ha Hf Hp Ht Hfr Hb].
  assert (0 < o < csize c) as Hlt by (destruct Hr; change MinChunkSize with 16 in *; lia).
  destruct (split_arena s l1 c d l2 o Ha Hlt Ho8) as (h & E & Ha').
  exists h. split.
  { rewrite E, total_snoc, Z.add_assoc. done. }
  apply flags_app in Hf as (Hf1 & Hf2 & Hf3 & Hf4 & Hf5 & Hf6). apply Forall_app in Hp as [Hp1 [_ Hp2]%Forall_cons].
  apply footed_app in Ht as [Ht1 [[? _]|[_ Ht2]]]; [done| |done].
  assert (frees (placed heap_address (l1 ++ with_csize o c :: split_tail o c :: d :: l2)) F) as Hfr'.
  { rewrite placed_app in Hfr |- *. cbn [placed csize with_csize split_tail] in *.
    rewrite (Permutation_app_comm (placed heap_address l1)) in Hfr.
    rewrite (Permutation_app_comm (placed heap_address l1)). cbn [app] in *.
    apply frees_used in Hfr; [|done]. apply frees_used; [done|]. apply frees_used; [done|].
    by replace (heap_address + total l1 + o + (csize c - o)) with (heap_address + total l1 + csize c) by lia. }
  split; try done.
  - apply flags_app. cbn [flags cpin cuse with_csize split_tail]. rewrite Hu in Hf4 |- *. splits; done.
  - apply Forall_app. split; [done|]. repeat (constructor; [unfold plain; cbn; congruence|]). done.
  - apply footed_app; [done|]. split; [done|]. right. split; [done|]. right. split; done.
  - eapply (binned_heap s h _ _ F Hb Ha' Hfr). intros b e He Hue.
    assert (F !! b = Some (csize e)) as HF by (apply Hfr; by exists e). apply Hfr' in HF as (e' & He' & _ & Es).
    by exists e'.
Qed.

(** A chunk handed out is cut in two chunks in use. *)
Lemma handed_split s l q nb p d s1 l1 F1 o : handed_out s l q nb p d s1 l1 F1 ->
  size_ok o -> size_ok (csize d - o) ->
  exists s2 l2 c, chunk_split p o s1 = Ok (p + o, s2) /\ state_ok (csize d) s2 l2 F1 q /\ kept s s2 /\
    (p + sizeof_header, with_csize o c) ∈ placed heap_address l2 /\
    (p + o + sizeof_header, split_tail o c) ∈ placed heap_address l2 /\ cuse c = true /\ d = strip c /\
    p + o + sizeof_header ∉ wbody <$> qmembers q /\
    used heap_address l2 ≡ₚ (p + sizeof_header, strip (with_csize o c)) ::
      (p + o + sizeof_header, strip (split_tail o c)) :: used heap_address l.
Proof.
  intros (So & Hd & Hused & Hn & Hnb & Hcl & Hse & _ & Hk) Ho Hr.
  apply elem_of_used in Hd as (c & Hc & Hu & ->). cbn [csize cclaims csealed strip with_cpin] in *.
  pose proof Hc as (k1 & k2 & -> & Ep)%placed_split. pose proof So as [Hok Hq Hnd Hch Htl Hf Hqs].
  assert (p = heap_address + total k1) as -> by lia.
  assert (k2 <> []) as Hne.
  { eapply not_footer; [exact Hok|]. destruct Ho as [[? _] _], Hr as [[? _] _]. change MinChunkSize with 16 in *. lia. }
  destruct k2 as [|e k2]; [done|].
  destruct (split_heap _ _ _ _ _ _ o Hok Hu Ho Hr) as (h & E & Hok').
  set (l2 := k1 ++ with_csize o c :: split_tail o c :: e :: k2) in *.
  assert (used heap_address l2 ≡ₚ (heap_address + total k1 + sizeof_header, strip (with_csize o c)) ::
      (heap_address + total k1 + o + sizeof_header, strip (split_tail o c)) :: used heap_address l) as Hused2.
  { rewrite used_split in Hused by done. unfold l2. rewrite used_app, !used_cons.
    cbn [cuse csize with_csize split_tail] in *. rewrite Hu in *. cbn [app].
    replace (heap_address + total k1 + o + (csize c - o)) with (heap_address + total k1 + csize c) by lia.
    rewrite used_cons in Hused.
    assert (used heap_address k1 ++ (if cuse e then [(heap_address + total k1 + csize c + sizeof_header, strip e)] else [])
      ++ used (heap_address + total k1 + csize c + csize e) k2 ≡ₚ used heap_address l) as <-.
    { eapply (Permutation_cons_inv (a := (heap_address + total k1 + sizeof_header, strip c))).
      rewrite <- Hused. solve_Permutation. }
    solve_Permutation. }
  assert (forall w, w ∈ qmembers q -> wbody w ∈ (used heap_address l).*1) as Hin.
  { intros w Hw. destruct (Hch w Hw) as (d & Hd & _). rewrite Hused in Hd.
    apply elem_of_cons in Hd as [[= Ew _]|Hd]; [|apply list_elem_of_fmap; by exists (wbody w, d)].
    destruct Hn. rewrite <- Ew. apply list_elem_of_fmap. by exists w. }
  exists (with_heap h s1), l2, c. splits; try done.
  - split; try done.
    + by apply (quar_frame s1 _ q).
    + intros w Hw. destruct (Hch w Hw) as (d & Hd & ?). exists d. split; [|done].
      rewrite Hused2. right. right. rewrite Hused in Hd. apply elem_of_cons in Hd as [[= Ew _]|?]; [|done].
      destruct Hn. rewrite <- Ew. apply list_elem_of_fmap. by exists w.
    + cbn [heapTotalSize with_heap]. rewrite Htl. unfold l2. rewrite !total_app, !total_cons.
      cbn [csize with_csize split_tail]. lia.
    + cbn [heapFreeSize with_heap]. rewrite Hf. unfold l2. rewrite !total_free_app, !total_free_cons.
      cbn [cuse with_csize split_tail]. rewrite Hu. lia.
  - unfold l2. apply placed_in.
  - unfold l2. rewrite placed_app. apply elem_of_app. right. right. left.
  - intros (w & Ew & Hw)%list_elem_of_fmap. apply Hin in Hw. rewrite <- Ew in Hw.
    pose proof (used_NoDup heap_address l2 (proj1 (ao_sizes _ _ (ho_arena _ _ _ Hok')))) as Hnd2.
    rewrite Hused2 in Hnd2. cbn [fmap list_fmap fst] in Hnd2. apply NoDup_cons in Hnd2 as [_ Hnd2].
    by apply NoDup_cons in Hnd2 as [Hnd2 _].
Qed.

(** ** Giving back a part *)

Lemma keep_part k s s1 q l l2 F2 p1 p2 c1 c2 nb :
  state_ok k s1 l2 F2 q -> kept s s1 -> k = csize c1 + csize c2 ->
  (p1 + sizeof_header, c1) ∈ placed heap_address l2 -> cuse c1 = true -> cclaims c1 = 0 -> MinChunkSize <= csize c1 ->
  used heap_address l2 ≡ₚ (p1 + sizeof_header, strip c1) :: (p2 + sizeof_header, strip c2) :: used heap_address l ->
  p1 + sizeof_header ∉ wbody <$> qmembers q -> p2 + sizeof_header ∉ wbody <$> qmembers q ->
  cclaims c2 = 0 -> csealed c2 = false -> nb <= csize c2 ->
  exists s3 l3 F3, mspace_free_internal p1 s1 = Ok (tt, s3) /\ handed_out s l q nb p2 (strip c2) s3 l3 F3.
Proof.
  intros So Hk -> H1 Hu Hcl Hmin Hused Hn1 Hn2 Hcl2 Hse2 Hnb.
  destruct (free_state _ _ _ _ _ _ _ So H1 Hu Hcl Hmin Hn1) as (s3 & l3 & F3 & E & So3 & T & Hused3).
  assert (from_body (p1 + sizeof_header) = p1) as Efb.
  { pose proof H1 as (k1 & k2 & -> & Ep)%placed_split.
    destruct (arena_range _ _ _ _ (ho_arena _ _ _ (so_heap _ _ _ _ _ So))) as (_ & _ & _ & _ & _ & Ef & _).
    change 8 with sizeof_header in Ef. rewrite Ep, Ef. lia. }
  rewrite Efb in E. exists s3, l3, F3. split; [done|].
  assert (used heap_address l3 ≡ₚ (p2 + sizeof_header, strip c2) :: used heap_address l) as Hu3.
  { eapply (Permutation_cons_inv (a := (p1 + sizeof_header, strip c1))). by rewrite <- Hused3. }
  assert ((p2 + sizeof_header, strip c2) ∈ used heap_address l3) as Hin by (rewrite Hu3; left).
  unfold handed_out. splits; try done.
  - cbn [csize strip with_cpin]. by replace (csize c1 + csize c2 - csize c1) with (csize c2) in So3 by lia.
  - apply elem_of_used in Hin as (e & He & _ & Ee). apply placed_split in He as (k1 & k2 & -> & Ep).
    exists k1, e, k2. splits; [done|lia|done].
  - eapply kept_trans; [exact Hk|]. by eapply touches_kept.
Qed.


(** ** The parts before and after *)

(** Giving back the first [o] bytes of the chunk. *)
Lemma drop_head s l q nb p d s1 l1 F1 o nb' : handed_out s l q nb p d s1 l1 F1 ->
  size_ok o -> size_ok (csize d - o) -> nb' <= csize d - o ->
  exists s3 d' l3 F3, (r ← chunk_split p o; _ ← mspace_free_internal p; mret r) s1 = Ok (p + o, s3) /\
    handed_out s l q nb' (p + o) d' s3 l3 F3 /\ csize d' = csize d - o.
Proof.
  intros Hh Ho Hr Hle. destruct (handed_split _ _ _ _ _ _ _ _ _ o Hh Ho Hr) as
    (s2 & l2 & c & E & So & Hk & H1' & H2' & Hu & -> & Hn2 & Hused).
  destruct Hh as (_ & _ & _ & Hn1 & _ & Hcl & Hse & _). cbn [csize cclaims csealed strip with_cpin] in *.
  destruct (keep_part _ s s2 q l l2 F1 p (p + o) (with_csize o c) (split_tail o c) nb' So Hk) as (s3 & l3 & F3 & E3 & Hh3);
    try done; [cbn; lia|apply Ho|].
  mrun E. mrun E3. eexists s3, _, l3, F3. splits; [reflexivity|exact Hh3|done].
Qed.

(** Giving back all but the first [o] bytes. *)
Lemma drop_tail s l q nb p d s1 l1 F1 o nb' : handed_out s l q nb p d s1 l1 F1 ->
  size_ok o -> size_ok (csize d - o) -> nb' <= o ->
  exists s3 d' l3 F3, (r ← chunk_split p o; mspace_free_internal r) s1 = Ok (tt, s3) /\
    handed_out s l q nb' p d' s3 l3 F3 /\ csize d' = o.
Proof.
  intros Hh Ho Hr Hle. destruct (handed_split _ _ _ _ _ _ _ _ _ o Hh Ho Hr) as
    (s2 & l2 & c & E & So & Hk & H1' & H2' & Hu & -> & Hn2 & Hused).
  destruct Hh as (_ & _ & _ & Hn1 & _ & Hcl & Hse & _). cbn [csize cclaims csealed strip with_cpin] in *.
  destruct (keep_part _ s s2 q l l2 F1 (p + o) p (split_tail o c) (with_csize o c) nb' So Hk) as (s3 & l3 & F3 & E3 & Hh3);
    try done; [cbn; lia|apply Hr|rewrite Hused; solve_Permutation|].
  mrun E. eexists s3, _, l3, F3. splits; [exact E3|exact Hh3|done].
Qed.

Lemma handed_size s l q nb p d s1 l1 F1 : handed_out s l q nb p d s1 l1 F1 ->
  chunk_size p s1 = Ok (csize d, s1) /\ body p = p + 8 /\ p mod 8 = 0 /\ 0 <= p < 2 ^ 32 - 8 /\
  csize d mod 8 = 0 /\ 0 < csize d <= MaxChunkSize.
Proof.
  intros (So & _ & _ & _ & _ & _ & _ & (k1 & c & k2 & -> & -> & ->) & _).
  pose proof (ho_arena _ _ _ (so_heap _ _ _ _ _ So)) as Ha. pose proof base_below. pose proof ms_below.
  destruct (arena_range _ _ _ _ Ha) as (R1 & R2 & R8 & _ & Eb & _).
  pose proof (ao_sizes _ _ Ha) as (Hall & Ht & _). rewrite total_app, total_cons in Ht.
  apply Forall_app in Hall as [A1 [[Hc Hc8] A2]%Forall_cons].
  pose proof (total_nonneg _ A1). pose proof (total_nonneg _ A2).
  splits; try done; [exact (arena_size _ _ _ _ Ha)|lia|lia|cbn; lia].
Qed.

(** ** Alignment *)

(** The alignments above that of every chunk. *)
Definition alignment_ok (a : Z) : Prop := exists j, 4 <= j <= 18 /\ a = 2 ^ j.

Lemma alignment_facts a : alignment_ok a -> 16 <= a <= 2 ^ 18 /\ a mod 8 = 0 /\ a <=? MallocAlignment = false /\
  (forall x, 0 <= x -> Z.land x (a - 1) = x mod a) /\ (Z.land a (u32 (a - 1)) =? 0) = true.
Proof.
  intros (j & Hj & ->). assert (16 <= 2 ^ j) by (change 16 with (2 ^ 4); apply Z.pow_le_mono_r; lia).
  assert (2 ^ j <= 2 ^ 18) by (apply Z.pow_le_mono_r; lia).
  assert (forall x, 0 <= x -> Z.land x (2 ^ j - 1) = x mod 2 ^ j) as Hland.
  { intros x Hx. rewrite <- Z.land_ones by lia. by rewrite Z.ones_equiv, Z.sub_1_r. }
  splits; [lia|lia| |apply Z.leb_gt; change MallocAlignment with 8; lia|done|].
  - replace j with (3 + (j - 3)) by lia. rewrite Z.pow_add_r by lia. rewrite Z.mul_comm. change (2 ^ 3) with 8.
    by apply Z.mod_mul.
  - unfold u32. rewrite wrap_small by lia. rewrite Hland by lia. rewrite Z.mod_same by lia. done.
Qed.

Definition pad_for (a p : Z) : Z :=
  let pad := a - (p + 8) mod a in if pad <? MinChunkSize then pad + a else pad.

Lemma pad_for_ok a p : alignment_ok a -> 0 <= p -> p mod 8 = 0 -> (p + 8) mod a <> 0 ->
  16 <= pad_for a p <= a + 8 /\ pad_for a p mod 8 = 0 /\ (p + pad_for a p + 8) mod a = 0.
Proof.
  intros Ha Hp Hp8 Hr. destruct (alignment_facts a Ha) as (Hr16 & Ha8 & _). unfold pad_for. change MinChunkSize with 16.
  pose proof (Z.mod_pos_bound (p + 8) a ltac:(lia)) as Hb. pose proof (Z.div_mod (p + 8) a ltac:(lia)) as Hd.
  assert ((p + 8) mod a mod 8 = 0) as Hm8.
  { apply Z.mod_divide in Ha8 as [k Hk]; [|lia]. replace ((p + 8) mod a) with (p + 8 - (k * ((p + 8) / a)) * 8) by lia.
    apply mod8_sub; [by apply mod8_add|]. by apply Z.mod_mul. }
  pose proof (Z.div_mod ((p + 8) mod a) 8 ltac:(lia)). pose proof (Z.div_mod a 8 ltac:(lia)).
  destruct (Z.ltb_spec (a - (p + 8) mod a) 16); splits; try lia.
  - apply mod8_add; [by apply mod8_sub|done].
  - replace (p + (a - (p + 8) mod a + a) + 8) with (((p + 8) / a + 2) * a) by lia. apply Z.mod_mul. lia.
  - by apply mod8_sub.
  - replace (p + (a - (p + 8) mod a) + 8) with (((p + 8) / a + 1) * a) by lia. apply Z.mod_mul. lia.
Qed.

Lemma align_ok s l q nb a p d s1 l1 F1 : handed_out s l q (nb + a + MinChunkSize) p d s1 l1 F1 -> alignment_ok a ->
  MinChunkSize <= nb ->
  exists p' s3 d' l3 F3, align_chunk a p s1 = Ok (p', s3) /\ handed_out s l q nb p' d' s3 l3 F3 /\
    (p' + 8) mod a = 0.
Proof.
  intros Hh Ha Hnb. destruct (handed_size _ _ _ _ _ _ _ _ _ Hh) as (_ & Eb & Hp8 & Hp & Hd8 & Hd).
  destruct (alignment_facts a Ha) as (Hr16 & Ha8 & _ & Hland & _).
  unfold align_chunk. rewrite Eb. destruct (Z.eqb_spec ((p + 8) mod a) 0) as [E0|Hne].
  - exists p, s1, d, l1, F1. splits; [done| |done]. destruct Hh as (K1 & K2 & K3 & K4 & K5 & K6).
    unfold handed_out. splits; try done; try apply K6. change MinChunkSize with 16 in *. lia.
  - destruct (pad_for_ok a p Ha ltac:(lia) Hp8 Hne) as (Hpad & Hpad8 & Hal).
    rewrite Hland by lia. pose proof (Z.mod_pos_bound (p + 8) a ltac:(lia)).
    assert ((if u32 (a - (p + 8) mod a) <? MinChunkSize then u32 (u32 (a - (p + 8) mod a) + a)
      else u32 (a - (p + 8) mod a)) = pad_for a p) as ->.
    { unfold pad_for, u32. rewrite !(wrap_small 32 (a - (p + 8) mod a)) by lia. by rewrite wrap_small by lia. }
    assert (nb + a + MinChunkSize <= csize d) as Hle by apply Hh.
    change MinChunkSize with 16 in *. change MaxChunkSize with 524280 in *.
    destruct (drop_head s l q _ p d s1 l1 F1 (pad_for a p) nb Hh) as (s3 & d' & l3 & F3 & E & Hh3 & _).
    + split; [change MinChunkSize with 16; change MaxChunkSize with 524280; lia|done].
    + split; [change MinChunkSize with 16; change MaxChunkSize with 524280; lia|by apply mod8_sub].
    + lia.
    + exists (p + pad_for a p), s3, d', l3, F3. splits; [exact E|done|done].
Qed.

Lemma trim_ok s l q nb p d s1 l1 F1 : handed_out s l q nb p d s1 l1 F1 -> size_ok nb ->
  exists s3 d' l3 F3, trim_chunk nb p s1 = Ok (tt, s3) /\ handed_out s l q nb p d' s3 l3 F3 /\
    csize d' < nb + MinChunkSize.
Proof.
  intros Hh [Hnb Hnb8]. destruct (handed_size _ _ _ _ _ _ _ _ _ Hh) as (Es & Eb & Hp8 & Hp & Hd8 & Hd).
  unfold trim_chunk. mrun Es. change MinChunkSize with 16 in *. change MaxChunkSize with 524280 in *.
  unfold u32. rewrite wrap_small by lia. destruct (Z.leb_spec (nb + 16) (csize d)) as [Hle|Hlt].
  - destruct (drop_tail s l q nb p d s1 l1 F1 nb nb Hh) as (s3 & d' & l3 & F3 & E & Hh3 & Ed).
    + by split.
    + split; [change MinChunkSize with 16; change MaxChunkSize with 524280; lia|by apply mod8_sub].
    + lia.
    + exists s3, d', l3, F3. splits; [exact E|done|lia].
  - by exists s1, d, l1, F1.
Qed.

(** The debug check of the chunk that is handed out. *)
Lemma handed_checked s l q nb p d s1 l1 F1 : handed_out s l q nb p d s1 l1 F1 -> 0 <= nb ->
  csize d < nb + MinChunkSize -> MinChunkSize <= csize d -> ok_malloced_chunk p nb s1 = Ok (tt, s1).
Proof.
  intros (So & Hd & _ & _ & Hle & _ & _ & (k1 & c & k2 & El & -> & ->) & _) Hnb Hlt Hmin.
  pose proof (so_heap _ _ _ _ _ So) as Hok. rewrite El in *. cbn [csize strip with_cpin] in *.
  assert (cuse c = true) as Hu.
  { apply elem_of_used in Hd as (e & He & Hu & _).
    by rewrite (placed_fun _ _ _ _ _ (proj1 (ao_sizes _ _ (ho_arena _ _ _ Hok))) He (placed_in _ _ _ _)) in Hu. }
  pose proof (not_footer _ _ _ _ _ Hok Hmin) as Hne. destruct k2 as [|e k2]; [done|].
  eapply ok_malloced_ok; [exact Hok|done|done|lia|lia].
Qed.

(** The alignment a caller asks for: a power of two; chunks are aligned to 8 bytes anyway. *)
Definition power_ok (a : Z) : Prop := exists j, 0 <= j <= 18 /\ a = 2 ^ j.

Lemma power_cases a : power_ok a -> alignment_ok a \/
  (0 < a /\ (a | 8) /\ a <=? MallocAlignment = true /\ (Z.land a (u32 (a - 1)) =? 0) = true).
Proof.
  intros (j & Hj & ->). destruct (Z.le_gt_cases 4 j) as [Hge|Hlt]; [left; exists j; split; [lia|done]|right].
  assert (j = 0 \/ j = 1 \/ j = 2 \/ j = 3) as [-> |[-> |[-> | ->]]] by lia; splits; try done;
    [by exists 8|by exists 4|by exists 2].
Qed.

(** The size of the search for a chunk. *)
Definition sought (bytes a : Z) : Z :=
  if a <=? MallocAlignment then padded bytes else padded (pad_request bytes + a + MinChunkSize).

(** What a caller that asks for an alignment gets. *)
Definition memalign_outcome (l : list chunk) q (bytes a p : Z) (l' : list chunk) F' q' : Prop :=
  (p = 0 /\ allocated l' q' ≡ₚ allocated l q /\ forall b sz, F' !! b = Some sz -> sz < sought bytes a) \/
  (truth p = true /\ p mod a = 0 /\ exists d, allocated l' q' ≡ₚ (p, d) :: allocated l q /\
    pad_request bytes <= csize d < pad_request bytes + MinChunkSize /\ cclaims d = 0 /\ csealed d = false).

Lemma memalign_wide s l F q bytes a : alloc_ok s l F q -> alignment_ok a -> 0 < bytes < 2 ^ 31 ->
  exists p s' l' F' q', mspace_memalign bytes a s = Ok (p, s') /\ alloc_ok s' l' F' q' /\ kept s s' /\
    memalign_outcome l q bytes a p l' F' q'.
Proof.
  intros Ha Hal Hb. destruct (alignment_facts a Hal) as (Hr16 & Ha8 & Hgt & _ & Hpow).
  unfold memalign_outcome, sought. rewrite Hgt. set (nb := pad_request bytes) in *.
  destruct (pad_request_spec bytes ltac:(lia)) as [Hnb Hnb8]. fold nb in Hnb, Hnb8.
  change MallocAlignment with 8 in Hnb. change sizeof_header with 8 in Hnb.
  assert (16 <= nb) by (pose proof (Z.div_mod nb 8 ltac:(lia)); lia).
  unfold mspace_memalign. fold nb. mrun (massert_ok _ s Hpow). rewrite Hgt.
  change MinChunkSize with 16. unfold u32. rewrite wrap_small by lia.
  assert (0 <= nb + a + 16 < 2 ^ 32 - 32) as Hbytes by lia.
  destruct (padded_ok _ Hbytes) as (_ & Hpad & _). change sizeof_header with 8 in Hpad. change MinChunkSize with 16 in Hpad.
  destruct (internal_ok _ _ _ _ _ (al_state _ _ _ _ Ha) Hbytes) as (p & s1 & l1 & F1 & q1 & E & Hcase). mrun E.
  destruct Hcase as [(-> & So1 & Hk & Hp & Hno)|(Ht & d & l0 & Hh & Hp & _)].
  - cbn [truth negb Z.eqb]. exists 0, s1, l1, F1, q1. splits; [done|by eapply (alloc_kept _ _ _ _ _ _ _ _ [])|done|].
    left. splits; done.
  - rewrite Ht. cbn [negb].
    assert (handed_out s l0 q1 (nb + a + MinChunkSize) p d s1 l1 F1) as Hh1.
    { destruct Hh as (K1 & K2 & K3 & K4 & K5 & K6). change MinChunkSize with 16. unfold handed_out.
      splits; try done; try apply K6. lia. }
    assert (nb + a + 16 <= MaxChunkSize) as Hmax.
    { destruct (handed_size _ _ _ _ _ _ _ _ _ Hh) as (_ & _ & _ & _ & _ & _ & Hd).
      assert (padded (nb + a + 16) <= csize d) by apply Hh. lia. }
    change MaxChunkSize with 524280 in Hmax.
    destruct (align_ok _ _ _ _ _ _ _ _ _ _ Hh1 Hal) as (p2 & s2 & d2 & l2 & F2 & E2 & Hh2 & Hmod);
      [by change MinChunkSize with 16|]. mrun E2.
    destruct (trim_ok _ _ _ _ _ _ _ _ _ Hh2) as (s3 & d3 & l3 & F3 & E3 & Hh3 & Hlt3).
    { split; [change MinChunkSize with 16; change MaxChunkSize with 524280; lia|done]. }
    mrun E3.
    assert (nb <= csize d3) as Hle3 by apply Hh3.
    mrun (handed_checked _ _ _ _ _ _ _ _ _ Hh3 ltac:(lia) Hlt3 ltac:(change MinChunkSize with 16; lia)).
    destruct (malloc_finish _ _ _ _ _ _ _ _ _ _ _ _ Ha Hh3 Hp) as (s' & E4 & Ha' & Hk' & Ht' & Hp' & _ & Hc & Hs).
    eexists _, s', l3, F3, q1. splits; [exact E4|done|done|]. right. splits; [done|done|].
    exists d3. fold nb. splits; try done.
Qed.

(** The addresses of the allocated chunks are multiples of 8. *)
Lemma allocated_aligned k s l F q b d : state_ok k s l F q -> (b, d) ∈ allocated l q -> b mod 8 = 0.
Proof.
  intros So [_ (c & Hc & _)%elem_of_used]%list_elem_of_filter. apply placed_split in Hc as (l1 & l2 & -> & ->).
  destruct (arena_range _ _ _ _ (ho_arena _ _ _ (so_heap _ _ _ _ _ So))) as (_ & _ & R8 & _).
  by apply mod8_add.
Qed.

Lemma mspace_memalign_ok s l F q bytes a : alloc_ok s l F q -> power_ok a -> 8 <= bytes < 2 ^ 31 ->
  exists p s' l' F' q', mspace_memalign bytes a s = Ok (p, s') /\ alloc_ok s' l' F' q' /\ kept s s' /\
    memalign_outcome l q bytes a p l' F' q'.
Proof.
  intros Ha Hal Hb. destruct (power_cases a Hal) as [?|(Ha0 & Hdiv & Hle & Hpow)]; [apply (memalign_wide s l F q); [done|done|lia]|].
  unfold mspace_memalign, memalign_outcome, sought. mrun (massert_ok _ s Hpow). rewrite Hle.
  destruct (mspace_malloc_ok s l F q bytes Ha ltac:(lia)) as (p & s' & l' & F' & q' & E & Ha' & Hk' & Ho).
  exists p, s', l', F', q'. splits; [exact E|done|done|]. destruct Ho as [?|(Ht & d & Hp & Hd & Hlt & Hc & Hs)]; [by left|right].
  assert ((p, d) ∈ allocated l' q') as Hin by (rewrite Hp; left).
  pose proof (allocated_aligned _ _ _ _ _ _ _ (al_state _ _ _ _ Ha') Hin) as H8.
  assert (padded bytes = pad_request bytes) as Epad.
  { unfold padded. change MinRequest with 8. by rewrite (proj2 (Z.ltb_ge _ _)) by lia. }
  rewrite Epad in Hlt. splits; [done| |].
  - apply Z.mod_divide; [lia|]. apply Z.mod_divide in H8; [|lia]. by etrans.
  - exists d. splits; try done. assert (csize d mod 8 = 0 /\ sizeof_header = 8) as [Hd8 E8].
    { split; [|done]. apply list_elem_of_filter in Hin as [_ (c & Hc' & _ & ->)%elem_of_used]. cbn.
      apply placed_split in Hc' as (l1 & l2 & El & _).
      pose proof (proj1 (ao_sizes _ _ (ho_arena _ _ _ (so_heap _ _ _ _ _ (al_state _ _ _ _ Ha'))))) as Hall.
      rewrite El in Hall. by apply Forall_app in Hall as [_ [[_ ?] _]%Forall_cons]. }
    destruct (pad_request_spec bytes ltac:(lia)) as [Hnb Hnb8]. rewrite E8 in *. change MallocAlignment with 8 in *.
    pose proof (Z.div_mod (csize d) 8). pose proof (Z.div_mod (pad_request bytes) 8). lia.
Qed.
End Memalign.
