(* ===== verification/Sanity.v ===== *)
(** * The check of the whole state passes

    [ok_malloc_state] of [alloc.h] looks at every bin, every chunk in a bin and every edge
    of the trees.  On a heap that satisfies the invariant it terminates, finds nothing
    wrong and changes nothing. *)

From S2P Require Import Prelude LinkedList AllocSizes ChunkHeader MState Bins SmallBins TreeBins TreeUnlink FreeLists TreeSelect Allocator Heap.

(** ** The fuel *)

(** Distinct keys of a map are no more than its size. *)
Lemma keys_bound {A} (m : gmap Z A) (l : list Z) : NoDup l -> (forall x, x ∈ l -> is_Some (m !! x)) ->
  (length l <= size m)%nat.
Proof.
  intros Hnd Hl. rewrite <- (size_list_to_set (C := gset Z) l) by done. rewrite <- size_dom.
  apply subseteq_size. intros x Hx%elem_of_list_to_set. apply elem_of_dom. by apply Hl.
Qed.

(** The steps of the walk through a tree. *)
Fixpoint cost (t : tree) : nat :=
  match t with
  | Leaf => 0
  | Node _ _ _ l r => 2 + (if is_leaf l then 0 else S (cost l)) + (if is_leaf r then 0 else S (cost r))
  end.

Fixpoint nodes (t : tree) : nat := match t with Leaf => 0 | Node _ _ _ l r => S (nodes l + nodes r) end.

Lemma cost_nodes t : (cost t + (if is_leaf t then 0 else 2) <= 4 * nodes t)%nat.
Proof.
  induction t as [|a sz mates l IHl r IHr]; [done|]. cbn [cost nodes is_leaf].
  destruct (is_leaf l), (is_leaf r); lia.
Qed.

Lemma nodes_addrs t : (nodes t <= length (addrs t))%nat.
Proof.
  induction t as [|a sz mates l IHl r IHr]; [done|]. cbn [nodes addrs]. rewrite !length_app. cbn. lia.
Qed.

(** ** Places in a trie *)

(** All sizes below a place agree on the bits above those it tells apart. *)
Lemma trie_place n C t : trie n (plug C t) -> (forall x y, x ∈ sizes (plug C t) -> y ∈ sizes (plug C t) -> agree n x y) ->
  exists m, trie m t /\ forall x y, x ∈ sizes t -> y ∈ sizes t -> agree m x y.
Proof.
  revert t. induction C as [|f C IH]; intros t Ht Ha; [by exists n|].
  destruct (IH (plug1 t f) Ht Ha) as (m & Hm & Ham). destruct f as [[] a sz mates sib], m as [|m]; cbn [plug1 trie] in Hm.
  - destruct Hm as [_ ->]. exists 0%nat. split; [done|]. by intros x y ?%elem_of_nil.
  - destruct Hm as (_ & H2 & _ & _ & _ & Hr). exists m. split; [done|]. rewrite Forall_forall in H2. intros x y Hx Hy.
    apply agree_S; [apply Ham; cbn [plug1 sizes]; set_solver|]. by rewrite (H2 x), (H2 y).
  - destruct Hm as [-> _]. exists 0%nat. split; [done|]. by intros x y ?%elem_of_nil.
  - destruct Hm as (H1 & _ & _ & _ & Hl & _). exists m. split; [done|]. rewrite Forall_forall in H1. intros x y Hx Hy.
    apply agree_S; [apply Ham; cbn [plug1 sizes]; set_solver|]. by rewrite (H1 x), (H1 y).
Qed.

(** The children of a node have other sizes, and the left one is smaller. *)
Lemma children_sizes m a sz mates l r : trie m (Node a sz mates l r) ->
  (forall x y, x ∈ sizes (Node a sz mates l r) -> y ∈ sizes (Node a sz mates l r) -> agree m x y) ->
  sz ∉ sizes l /\ sz ∉ sizes r /\ (forall x y, x ∈ sizes l -> y ∈ sizes r -> x < y).
Proof.
  destruct m as [|m]; cbn [trie]; [intros [-> ->] _; splits; set_solver|].
  intros (H1 & H2 & H3 & H4 & _) Ha. splits; [done|done|]. rewrite Forall_forall in H1, H2. intros x y Hx Hy.
  apply (agree_lt m); [apply Ha; cbn [sizes]; set_solver|by apply H2|by apply H1].
Qed.

Section Sanity.
Context `{EnvOk} {P : Painted}.
Implicit Types (s : MState) (F : gmap Z Z).

(** ** Free chunks and rings *)

Lemma free_checks s l F b sz : heap_ok s l F -> F !! b = Some sz ->
  ok_any_chunk (from_body b) s = Ok (tt, s) /\ ok_free_chunk (from_body b) s = Ok (tt, s) /\
  chunk_size (from_body b) s = Ok (sz, s).
Proof.
  intros Hok Hb. splits; [| |apply chunk_size_ok, (binned_chunk _ _ _ _ (ho_binned _ _ _ Hok) Hb)].
  all: apply (ho_frees _ _ _ Hok) in Hb as (c & Hc & Hu & _); apply placed_split in Hc as (l1 & l2 & -> & ->);
    destruct (around_free _ _ _ _ _ Hok Hu) as (_ & _ & _ & e & r & -> & _);
    pose proof (ho_arena _ _ _ Hok) as Ha; destruct (arena_range _ _ _ _ Ha) as (_ & _ & _ & _ & _ & Ef & _);
    change 8 with sizeof_header in Ef; rewrite Ef.
  - by eapply ok_any_chunk_ok.
  - by eapply ok_free_chunk_ok.
Qed.

Lemma ring_each_ok s f x z l fuel : chain (rings s) (x :: l ++ [z]) -> z ∉ x :: l ->
  (forall b, b ∈ x :: l -> f b s = Ok (tt, s)) -> (length (x :: l) < fuel)%nat ->
  ring_each fuel x z f s = Ok (tt, s).
Proof.
  revert x fuel. induction l as [|y l IH]; intros x fuel Hc Hz Hf Hl; (destruct fuel as [|fuel]; [cbn in Hl; lia|]);
    cbn [ring_each]; rewrite (proj2 (Z.eqb_neq _ _)) by set_solver; mrun (Hf x ltac:(left)); destruct Hc as [[Hn _] Hc];
    mrun (ring_of_ok (fun r => cell_next r x) s _ Hn).
  - destruct fuel as [|fuel]; [cbn in Hl; lia|]. cbn [ring_each]. by rewrite Z.eqb_refl.
  - apply IH; [exact Hc|set_solver| |cbn in *; lia]. intros b Hb. apply Hf. by right.
Qed.

Lemma ring_search_each_ok s f sen l : ring (rings s) (sen :: l) -> (forall b, b ∈ l -> f b s = Ok (tt, s)) ->
  ring_search_each sen f s = Ok (tt, s).
Proof.
  intros Hr Hf. unfold ring_search_each. destruct (ring_next _ _ _ Hr) as (h & Hh & Hn & _).
  mrun (ring_of_ok (fun r => cell_next r sen) s _ Hn). mpure.
  assert (length (sen :: l) <= size (rings s))%nat as Hlen.
  { apply keys_bound; [apply Hr|]. intros x Hx. exact (ring_valid _ _ _ Hr Hx). }
  unfold ring_fuel. destruct l as [|y l]; cbn [app head] in Hh; injection Hh as <-.
  - cbn [ring_each]. by rewrite Z.eqb_refl.
  - destruct Hr as [Hnd [_ Hc]]. apply ring_each_ok with (l := l); [exact Hc| |done|cbn in *; lia].
    by apply NoDup_cons in Hnd as [? _].
Qed.

(** ** Small bins *)

Lemma ok_smallbin_ok s l F i : heap_ok s l F -> 0 <= i < NSmallBins -> ok_smallbin i s = Ok (tt, s).
Proof.
  intros Hok Hi. destruct (ho_binned _ _ _ Hok) as (g & Hg & HF). destruct (bo_small _ _ Hg i Hi) as (Hr & _ & Hb & _).
  apply when_debug_ok. mpure. mrun (ring_of_ok (fun r => sentinel_is_empty r (smallbin_at i)) s _ (is_singleton_ring _ _ _ Hr)).
  assert ((Z.land (smallmap s) (u32 (Z.shiftl 1 i)) =? 0) = bool_decide (small g i = [])) as ->.
  { pose proof (marked_bit (smallmap s) i ltac:(unfold NSmallBins in Hi; lia)) as Hm. rewrite Hb in Hm.
    unfold truth, idx2bit in Hm. by apply (f_equal negb) in Hm; rewrite !negb_involutive in Hm. }
  mrun (massert_ok _ s (eqb_reflx _)). eapply ring_search_each_ok; [exact Hr|]. intros b Hbi.
  assert (F !! b = Some (small_index2size i)) as HFb by (apply HF; left; by exists i).
  destruct (free_checks _ _ _ _ _ Hok HFb) as (_ & E1 & E2). mrun E1. mrun E2.
  apply massert_ok, Z.eqb_eq, small_index_of. unfold NSmallBins in Hi. lia.
Qed.

(** ** Trees *)

Section Tree.
Context (s : MState) (l : list chunk) (F : gmap Z Z) (g : bins) (i : Z).
Hypotheses (Hok : heap_ok s l F) (Hg : bins_ok s g) (HF : forall b sz, F !! b = Some sz <-> held g b sz)
  (Hi : 0 <= i < NTreeBins).

(** A node of the tree of bin [i], at the place [C]. *)
Record at_place (C : ctx) (a sz : Z) (mates : list Z) (lt rt : tree) : Prop := {
  ap_node : node_rep s i (parent_of RootParent C) a sz mates (root lt) (root rt);
  ap_above : ctx_rep s i RootParent C a;
  ap_left : tree_rep s i a lt;
  ap_right : tree_rep s i a rt;
  ap_bin : in_bin i sz;
  ap_fresh : a ∉ ctx_addrs C ++ addrs lt ++ addrs rt;
  ap_apart : forall x, x ∈ addrs lt -> x ∉ addrs rt;
  ap_sizes : sz ∉ sizes lt /\ sz ∉ sizes rt /\ forall x y, x ∈ sizes lt -> y ∈ sizes rt -> x < y;
  ap_free : forall b, b ∈ a :: mates -> F !! b = Some sz;
}.

Lemma trie_at C a sz mates lt rt : tre g i = plug C (Node a sz mates lt rt) -> at_place C a sz mates lt rt.
Proof.
  intros Et. destruct (bo_tree _ _ Hg i Hi) as (_ & T2 & T3 & T4 & T5 & _). rewrite Et in T2, T3, T4, T5.
  apply tree_rep_plug in T2 as (Ha & Hn & Hl & Hr). rewrite addrs_plug in T4. rewrite Forall_forall in T5.
  destruct (trie_place _ _ _ T3) as (m & Hm & Ham).
  { intros x y Hx Hy. by apply (bin_agree i); [done|apply T5|apply T5]. }
  destruct (children_sizes m a sz mates lt rt Hm Ham) as (S1 & S2 & S3).
  apply NoDup_app in T4 as (_ & D1 & D2). cbn [addrs app] in D1, D2. apply NoDup_cons in D2 as [D2 D3].
  rewrite app_assoc in D3. pose proof D3 as D4. rewrite <- app_assoc in D3.
  apply NoDup_app in D3 as (_ & D5 & D3). apply NoDup_app in D3 as (_ & D6 & _).
  split; try done.
  - apply T5, sizes_plug. right. left.
  - intros [Hc|Hc]%elem_of_app; [by apply (D1 a Hc); left|]. apply D2. set_solver.
  - intros b Hb. apply HF. right. exists i. split; [done|]. rewrite Et, chunks_plug. apply elem_of_app. right.
    cbn [chunks_of]. apply elem_of_app. left. apply list_elem_of_fmap. by exists b.
Qed.

(** The parent of a place. *)
Lemma place_parent C a sz mates lt rt : at_place C a sz mates lt rt ->
  (C = [] \/ exists d a' sz' m' sib C', C = Frame d a' sz' m' sib :: C' /\ in_heap a' /\ a' <> a /\
    tchunks s !! a' = Some (mkTChunk (if d then root sib else a) (if d then a else root sib) (parent_of RootParent C') i)).
Proof.
  intros Hp. destruct C as [|[d a' sz' m' sib] C]; [by left|right]. exists d, a', sz', m', sib, C.
  destruct (ap_above _ _ _ _ _ _ Hp) as ((Ht & _ & _ & [[Hh _] _]%Forall_cons) & _). splits; try done.
  intros ->. apply (ap_fresh _ _ _ _ _ _ Hp). rewrite ctx_addrs_cons. left.
Qed.

(** The checks of a child. *)
Lemma child_checked a sz t : a ∉ addrs t -> sz ∉ sizes t -> tree_rep s i a t ->
  (if truth (root t) then
    nc ← tchunk (root t); _ ← massert (parent nc =? a); _ ← massert (negb (root t =? a));
    cs ← chunk_size (from_body (root t)); massert (negb (cs =? sz))
   else mret tt) s = Ok (tt, s).
Proof.
  intros Ha Hs Hr. rewrite (root_truth _ _ _ _ Hr). destruct t as [|b z m l' r']; [done|]. cbn [negb root].
  destruct Hr as ((Hb & _ & _ & [Hc _]%Forall_cons) & _). mrun (tchunk_ok _ _ _ Hb). cbn [parent].
  mrun (massert_ok _ s (Z.eqb_refl a)). cbn [addrs sizes app] in Ha, Hs. apply not_elem_of_cons in Ha as [Ha _].
  apply not_elem_of_cons in Hs as [Hs _].
  mrun (massert_ok (negb (b =? a)) s ltac:(apply negb_true_iff, Z.eqb_neq; congruence)).
  mrun (chunk_size_ok _ _ _ Hc). apply massert_ok, negb_true_iff, Z.eqb_neq. congruence.
Qed.

Lemma ok_tree_node_ok C a sz mates lt rt : at_place C a sz mates lt rt -> ok_tree_node a s = Ok (tt, s).
Proof.
  intros Hp. pose proof (place_parent _ _ _ _ _ _ Hp) as Hpar.
  destruct Hp as [(Ha & Hring & Hmates & Hcs) _ Hl Hr [Hbin Hlarge] Hfresh _ (S1 & S2 & S3) Hfree].
  destruct (free_checks _ _ _ _ _ Hok (Hfree a ltac:(left))) as (Eany & Efree & Esize).
  destruct (tree_index_spec debug sz) as (j & Ej & Hj & Hmin & Hmax); [change MaxSmallSize with 64 in Hlarge; lia|].
  assert (j = i) as -> by congruence.
  unfold ok_tree_node. mrun (tchunk_ok _ _ _ Ha). mrun Esize.
  mrun (reads_ok (fun _ : MState => compute_tree_index debug sz) s i Ej). cbn [index child parent].
  mrun (massert_ok _ s (Z.eqb_refl i)). mrun (massert_ok _ s (proj2 (Z.ltb_lt _ _) (proj1 Hlarge))).
  mrun (massert_ok _ s (proj2 (Z.leb_le _ _) Hmin)).
  assert ((i =? NTreeBins - 1) || (sz <? minsize_for_tree_index (i + 1)) = true) as E1.
  { destruct (Z.eqb_spec i (NTreeBins - 1)); [done|]. apply Z.ltb_lt, Hmax. lia. }
  mrun (massert_ok _ s E1). mrun Eany. mrun Efree. mrun (tchunk_ok _ _ _ Ha). cbn [index child parent].
  mrun (massert_ok _ s (Z.eqb_refl i)). mrun Esize. mrun (massert_ok _ s (Z.eqb_refl sz)).
  apply Forall_cons in Hcs as [[Hha _] _].
  assert (is_tree_ring (mkTChunk (root lt) (root rt) (parent_of RootParent C) i) = false /\
    (parent_of RootParent C =? a) = false /\
    (if is_root (mkTChunk (root lt) (root rt) (parent_of RootParent C) i) then mret true
     else pn ← tchunk (parent_of RootParent C); mret ((child pn 0 =? a) || (child pn 1 =? a))) s = Ok (true, s))
    as (E2 & E3 & E4).
  { unfold is_tree_ring, is_root. cbn [parent]. pose proof base_below. pose proof ms_below. unfold in_heap in *.
    destruct Hpar as [->|(d & a' & sz' & m' & sib & C' & -> & Hh & Hne & Ht)]; cbn [parent_of].
    - change RootParent with 1. change RingParent with 0. splits; [done| |done]. apply Z.eqb_neq. lia.
    - change RootParent with 1. change RingParent with 0. splits; [apply Z.eqb_neq; lia|by apply Z.eqb_neq|].
      rewrite (proj2 (Z.eqb_neq a' 1)) by lia. mrun (tchunk_ok _ _ _ Ht). cbn [child child0 child1 Z.eqb].
      unfold mret, M_ret. destruct d; rewrite Z.eqb_refl; [by rewrite orb_true_r|done]. }
  rewrite E2, E3. cbn [negb]. mrun (massert_ok true s eq_refl). mrun (massert_ok true s eq_refl). mrun E4.
  mrun (massert_ok true s eq_refl).
  rewrite (M_bind_ok _ _ s tt s); cbn beta.
  2:{ eapply ring_search_each_ok; [exact Hring|]. intros u Hu. rewrite Forall_forall in Hmates.
      destruct (free_checks _ _ _ _ _ Hok (Hfree u ltac:(by right))) as (G1 & G2 & G3).
      mrun G1. mrun G2. mrun G3. mrun (massert_ok _ s (Z.eqb_refl sz)). mrun (tchunk_ok _ _ _ (Hmates u Hu)).
      mrun (massert_ok true s eq_refl). mrun (massert_ok true s eq_refl). by apply massert_ok. }
  rewrite !not_elem_of_app in Hfresh. destruct Hfresh as (_ & F1 & F2).
  mrun (child_checked a sz lt F1 S1 Hl). mrun (child_checked a sz rt F2 S2 Hr).
  change (child _ 0) with (root lt). change (child _ 1) with (root rt).
  rewrite (root_truth _ _ _ _ Hl), (root_truth _ _ _ _ Hr).
  destruct lt as [|b z m ll lr]; [done|]. destruct rt as [|b' z' m' rl rr]; [done|]. cbn [negb andb root].
  destruct Hl as ((_ & _ & _ & [Hc _]%Forall_cons) & _), Hr as ((_ & _ & _ & [Hc' _]%Forall_cons) & _).
  mrun (chunk_size_ok _ _ _ Hc). mrun (chunk_size_ok _ _ _ Hc'). apply massert_ok, Z.ltb_lt, S3; left.
Qed.

(** *** The walk *)

(** What is left to do after the subtree at the place [C]. *)
Definition up (C : ctx) (c : Z) (k : nat) : outcome (unit * MState) :=
  match C with [] => Ok (tt, s) | Frame _ a _ _ _ :: _ => ok_tree_walk k false c a s end.

Lemma ascend_ok C a sz mates lt rt c0 c1 k : at_place C a sz mates lt rt ->
  (if is_root (mkTChunk c0 c1 (parent_of RootParent C) i) then mret tt
   else ok_tree_walk k false a (parent_of RootParent C)) s = up C a k.
Proof.
  intros Hp. pose proof base_below. pose proof ms_below. unfold is_root. cbn [parent].
  destruct (place_parent _ _ _ _ _ _ Hp) as [->|(d & a' & sz' & m' & sib & C' & -> & Hh & _)]; [done|]. cbn [parent_of].
  unfold in_heap in Hh. change RootParent with 1. by rewrite (proj2 (Z.eqb_neq _ _)) by lia.
Qed.

(** A child is not the parent. *)
Lemma child_not_parent C a sz mates lt rt c : at_place C a sz mates lt rt -> c ∈ addrs lt ++ addrs rt ->
  tre g i = plug C (Node a sz mates lt rt) -> c =? parent_of RootParent C = false.
Proof.
  intros Hp Hc Et. apply Z.eqb_neq. pose proof base_below. pose proof ms_below.
  assert (in_heap c) as Hh.
  { apply elem_of_app in Hc as [Hc|Hc]; [exact (tree_rep_addr _ _ _ _ _ (ap_left _ _ _ _ _ _ Hp) Hc)
      |exact (tree_rep_addr _ _ _ _ _ (ap_right _ _ _ _ _ _ Hp) Hc)]. }
  destruct C as [|[d a' sz' m' sib] C]; cbn [parent_of]; [unfold in_heap, RootParent in *; lia|]. intros ->.
  destruct (bo_tree _ _ Hg i Hi) as (_ & _ & _ & T4 & _). rewrite Et, addrs_plug in T4.
  apply NoDup_app in T4 as (_ & D & _). apply (D a'); [rewrite ctx_addrs_cons; left|].
  cbn [addrs app]. right. apply elem_of_app. by right.
Qed.

(** Back at a node from its last child. *)
Lemma return_ok C a sz mates lt rt c k : at_place C a sz mates lt rt ->
  tre g i = plug C (Node a sz mates lt rt) -> c ∈ addrs lt ++ addrs rt ->
  (c =? root lt) && truth (root rt) = false ->
  ok_tree_walk (S k) false c a s = up C a k.
Proof.
  intros Hp Et Hc Hlast. pose proof (child_not_parent _ _ _ _ _ _ _ Hp Hc Et) as Hn.
  pose proof (ap_node _ _ _ _ _ _ Hp) as (Ha & _). cbn [ok_tree_walk]. mrun (tchunk_ok _ _ _ Ha).
  cbn [parent]. rewrite Hn. change (child _ 0) with (root lt). change (child _ 1) with (root rt).
  rewrite Hlast. exact (ascend_ok _ _ _ _ _ _ _ _ k Hp).
Qed.

Lemma root_addr t : is_leaf t = false -> root t ∈ addrs t.
Proof. destruct t; [done|]. intros _. left. Qed.

Lemma walk_ok t C k : is_leaf t = false -> tre g i = plug C t ->
  ok_tree_walk (cost t + k) true (parent_of RootParent C) (root t) s = up C (root t) k.
Proof.
  revert C k. induction t as [|a sz mates lt IHl rt IHr]; intros C k Hlf Et; [done|]. cbn [root].
  pose proof (trie_at _ _ _ _ _ _ Et) as Hp. pose proof (ap_node _ _ _ _ _ _ Hp) as (Ha & _).
  cbn [cost Nat.add ok_tree_walk]. mrun (ok_tree_node_ok _ _ _ _ _ _ Hp). mrun (tchunk_ok _ _ _ Ha). cbn [parent].
  rewrite Z.eqb_refl. change (child _ 0) with (root lt). change (child _ 1) with (root rt).
  pose proof (root_truth _ _ _ _ (ap_left _ _ _ _ _ _ Hp)) as Tl. pose proof (root_truth _ _ _ _ (ap_right _ _ _ _ _ _ Hp)) as Tr.
  change (negb match lt with Leaf => true | _ => false end) with (negb (is_leaf lt)) in Tl.
  change (negb match rt with Leaf => true | _ => false end) with (negb (is_leaf rt)) in Tr.
  assert (forall k, is_leaf rt = false -> ok_tree_walk (S (cost rt) + k) true a (root rt) s = up C a k) as Hright.
  { intros k' Hrl. replace (S (cost rt) + k')%nat with (cost rt + S k')%nat by lia.
    rewrite (IHr (Frame true a sz mates lt :: C)) by done. cbn [up].
    apply (return_ok C a sz mates lt rt); [done|done|apply elem_of_app; right; by apply root_addr|].
    destruct (Z.eqb_spec (root rt) (root lt)) as [Er|]; [|done]. exfalso.
    destruct (is_leaf lt) eqn:Ell.
    - assert (root lt = 0) as E0 by (by destruct lt). rewrite <- Er in E0. rewrite E0, Hrl in Tr. done.
    - apply (ap_apart _ _ _ _ _ _ Hp (root lt)); [by apply root_addr|]. rewrite <- Er. by apply root_addr. }
  rewrite Tl, Tr. destruct (is_leaf lt) eqn:Ell; cbn [negb].
  - destruct (is_leaf rt) eqn:Erl; cbn [negb]; [exact (ascend_ok _ _ _ _ _ _ _ _ _ Hp)|]. by apply Hright.
  - match goal with |- ok_tree_walk ?n _ _ _ _ = _ =>
      replace n with (cost lt + S ((if is_leaf rt then 0 else S (cost rt)) + k))%nat by lia end.
    rewrite (IHl (Frame false a sz mates rt :: C)) by done. cbn [up].
    destruct (is_leaf rt) eqn:Erl.
    + apply (return_ok C a sz mates lt rt); [done|done|apply elem_of_app; left; by apply root_addr|].
      by rewrite Tr, andb_false_r.
    + cbn [ok_tree_walk]. mrun (tchunk_ok _ _ _ Ha). cbn [parent].
      rewrite (child_not_parent _ _ _ _ _ _ (root lt) Hp) by (done || (apply elem_of_app; left; by apply root_addr)).
      change (child _ 0) with (root lt). change (child _ 1) with (root rt). rewrite Z.eqb_refl, Tr. cbn [negb andb].
      by apply Hright.
Qed.

Lemma ok_treebin_at : ok_treebin i s = Ok (tt, s).
Proof.
  destruct (bo_tree _ _ Hg i Hi) as (T1 & T2 & _ & T4 & _ & T6 & _). apply when_debug_ok.
  mrun (treebin_get_ok _ _ _ T1). mpure.
  assert ((Z.land (treemap s) (u32 (Z.shiftl 1 i)) =? 0) = is_leaf (tre g i)) as ->.
  { pose proof (marked_bit (treemap s) i ltac:(unfold NTreeBins in Hi; lia)) as Hm. rewrite T6 in Hm.
    unfold truth, idx2bit in Hm. by apply (f_equal negb) in Hm; rewrite !negb_involutive in Hm. }
  pose proof (root_truth _ _ _ _ T2) as Hr. unfold truth in Hr. apply (f_equal negb) in Hr. rewrite !negb_involutive in Hr.
  change (match tre g i with Leaf => true | _ => false end) with (is_leaf (tre g i)) in Hr. rewrite Hr.
  destruct (is_leaf (tre g i)) eqn:El; [mrun (massert_ok true s eq_refl); done|]. mpure.
  destruct (tre g i) as [|a sz mates lt rt] eqn:Et; [done|]. pose proof (trie_at [] _ _ _ _ _ Et) as Hp.
  pose proof (ap_node _ _ _ _ _ _ Hp) as (Ha & _). cbn [root]. mrun (tchunk_ok _ _ _ Ha).
  mrun (massert_ok true s eq_refl). apply when_debug_ok. mpure. cbn [parent parent_of].
  assert (cost (tre g i) <= 4 * S (size (tchunks s)))%nat as Hc.
  { pose proof (cost_nodes (tre g i)). pose proof (nodes_addrs (tre g i)). rewrite Et in *.
    assert (length (addrs (Node a sz mates lt rt)) <= size (tchunks s))%nat; [|lia].
    apply keys_bound; [done|]. intros x Hx. rewrite addrs_chunks in Hx. apply list_elem_of_fmap in Hx as ([x' z] & -> & Hx).
    apply in_tree in Hx as (C & b & m & lx & rx & Ex & Hx). rewrite Ex in T2. apply tree_rep_plug in T2 as [_ ((N1 & _ & N2 & _) & _)].
    cbn [fst]. apply elem_of_cons in Hx as [->|Hx]; [by eexists|]. rewrite Forall_forall in N2. by eexists; apply N2. }
  pose proof (walk_ok (tre g i) [] (4 * S (size (tchunks s)) - cost (tre g i))) as Hw. rewrite Et in Hw, Hc.
  specialize (Hw eq_refl eq_refl). cbn [parent_of root up] in Hw. rewrite <- Hw. f_equal. lia.
Qed.
End Tree.

(** *** The whole state *)

Lemma each_ok {A} (xs : list A) (f : A -> M unit) s : (forall x, x ∈ xs -> f x s = Ok (tt, s)) -> each xs f s = Ok (tt, s).
Proof.
  induction xs as [|x xs IH]; intros Hf; [done|]. cbn [each]. mrun (Hf x ltac:(left)).
  apply IH. intros y Hy. apply Hf. by right.
Qed.

Lemma bins_checked s l F : heap_ok s l F ->
  (_ ← each (Z.of_nat <$> seq 0 (Z.to_nat NSmallBins)) ok_smallbin;
   each (Z.of_nat <$> seq 0 (Z.to_nat NTreeBins)) ok_treebin) s = Ok (tt, s).
Proof.
  intros Hok. rewrite (M_bind_ok _ _ s tt s); cbn beta.
  - apply each_ok. intros i (n & -> & Hn%elem_of_seq)%list_elem_of_fmap.
    destruct (ho_binned _ _ _ Hok) as (g & Hg & HF). eapply ok_treebin_at; try done. unfold NTreeBins in *. lia.
  - apply each_ok. intros i (n & -> & Hn%elem_of_seq)%list_elem_of_fmap. eapply ok_smallbin_ok; [done|].
    unfold NSmallBins in *. lia.
Qed.
End Sanity.
