(* ===== verification/Label.v ===== *)
(** * The labels of an allocated chunk

    The owner, the seal and the list of claims in the header of an allocated chunk do not
    matter to the heap: changing them keeps the invariant, and changes the entry of this
    chunk in [allocated] and no other. *)

From S2P Require Import Prelude LinkedList RingBuffer Bits AllocSizes ChunkHeader MState Bins SmallBins TreeBins TreeUnlink FreeLists TreeSelect Allocator Heap Release Malloc Accounts Quarantine Dequeue FreeOp Hazard MallocOp.

(** [f] changes a header as [g] changes the chunk, and neither size nor in-use bits. *)
Record label (f : MChunkHeader -> MChunkHeader) (g : chunk -> chunk) : Prop := {
  lb_header n c : f (header_of n c) = header_of n (g c);
  lb_size c : csize (g c) = csize c;
  lb_use c : cuse (g c) = cuse c;
  lb_pin c : cpin (g c) = cpin c;
  lb_strip c : strip (g c) = g (strip c);
}.

Lemma label_sealed b : label (set_sealed b) (with_csealed b).
Proof. by split. Qed.

Lemma label_claims v : label (set_claims v) (with_cclaims v).
Proof. by split. Qed.

Lemma label_owner o : label (set_ownerID o) (with_cowner o).
Proof. by split. Qed.

Section Label.
Context `{EnvOk} `{Hepoch : !Epochs}.
Implicit Types (s : MState) (F : gmap Z Z) (q : qstate).

Lemma flags_label g pin l1 c l2 : cuse (g c) = cuse c -> cpin (g c) = cpin c ->
  flags pin (l1 ++ c :: l2) -> flags pin (l1 ++ g c :: l2).
Proof. intros Hu Hp. rewrite !flags_app. cbn [flags]. by rewrite Hu, Hp. Qed.

Lemma footed_label g l1 c l2 : csize (g c) = csize c -> cuse (g c) = cuse c ->
  footed (l1 ++ c :: l2) -> footed (l1 ++ g c :: l2).
Proof. intros Hs Hu. rewrite !footed_app by done. cbn [footed]. by rewrite Hs, Hu. Qed.

Lemma heap_label {P : Painted} s l1 c l2 F f g : heap_ok s (l1 ++ c :: l2) F -> cuse c = true -> label f g ->
  exists h, on_heap (fun a => hupd a (heap_address + total l1) f) s = Ok (tt, with_heap h s) /\
    heap_ok (with_heap h s) (l1 ++ g c :: l2) F.
Proof.
  intros [[Hl Hs Hm Ho] Hf Hp Ht Hr Hb] Hu [Lh Lz Lu Lp _].
  destruct (hupd_layout (heap s) heap_address 0 l1 c l2 f g) as (h & E & Hl' & Esh & _);
    [apply Hs|done|done|by rewrite Lz|].
  assert (csize <$> l1 ++ g c :: l2 = csize <$> l1 ++ c :: l2) as Es by (rewrite !fmap_app; cbn; by rewrite Lz).
  assert (arena_ok (with_heap h s) (l1 ++ g c :: l2)) as Ha.
  { split; cbn [heap with_heap]; [done|by eapply sizes_ok_same| |]; rewrite Esh, (placed_same _ _ _ Es); done. }
  assert (frees (placed heap_address (l1 ++ g c :: l2)) F) as Hr'.
  { rewrite placed_around in Hr |- *. apply frees_used in Hr; [|done]. rewrite Lz.
    apply frees_used; [by rewrite Lu|done]. }
  exists h. split; [by apply on_heap_ok|]. split; try done.
  - by apply flags_label.
  - apply Forall_app in Hp as [Hp1 [_ Hp2]%Forall_cons]. apply Forall_app. split; [done|].
    apply Forall_cons. split; [|done]. intros Hf'. rewrite Lu in Hf'. congruence.
  - by apply footed_label.
  - eapply (binned_heap s); [done|exact Ha|exact Hr|]. intros b e He Hue.
    assert (F !! b = Some (csize e)) as HF by (apply Hr; by exists e). apply Hr' in HF as (e' & ? & _ & ?). by exists e'.
Qed.

Lemma used_label a g l1 c l2 : csize (g c) = csize c -> cuse (g c) = cuse c -> cuse c = true ->
  strip (g c) = g (strip c) ->
  used a (l1 ++ c :: l2) ≡ₚ (a + total l1 + sizeof_header, strip c) :: used a l1 ++ used (a + total l1 + csize c) l2 /\
  used a (l1 ++ g c :: l2) ≡ₚ (a + total l1 + sizeof_header, g (strip c)) :: used a l1 ++ used (a + total l1 + csize c) l2.
Proof.
  intros Hs Hu Hc Hst. rewrite !used_split by (done || by rewrite Hu). rewrite Hs, Hst. split; solve_Permutation.
Qed.

(** The chunk at [b] is relabelled. *)
Definition relabelled (l : list chunk) q (b : Z) (d : chunk) g (l' : list chunk) : Prop :=
  exists rest, allocated l q ≡ₚ (b, d) :: rest /\ allocated l' q ≡ₚ (b, g d) :: rest.

Lemma state_label k s l F q b d f g : state_ok k s l F q -> (b, d) ∈ allocated l q -> label f g ->
  exists h l', on_heap (fun a => hupd a (from_body b) f) s = Ok (tt, with_heap h s) /\
    state_ok k (with_heap h s) l' F q /\ relabelled l q b d g l'.
Proof.
  intros So Hb Lb. apply list_elem_of_filter in Hb as [Hn (c & Hc & Hu & ->)%elem_of_used]. cbn [fst] in Hn.
  pose proof So as [Hok Hq Hnd Hch Htl Hf Hqs]. apply placed_split in Hc as (l1 & l2 & -> & ->).
  destruct (heap_label s l1 c l2 F f g Hok Hu Lb) as (h & E & Hok').
  destruct (arena_range _ _ _ _ (ho_arena _ _ _ Hok)) as (_ & _ & _ & _ & _ & Efb & _).
  change 8 with sizeof_header in Efb. rewrite Efb.
  pose proof Lb as [_ Lz Lu _ Ls]. destruct (used_label heap_address g l1 c l2 (Lz c) (Lu c) Hu (Ls c)) as [U1 U2].
  exists h, (l1 ++ g c :: l2). splits; [exact E| |].
  - split; try done.
    + by apply (quar_frame s _ q).
    + intros w Hw. destruct (Hch w Hw) as (d & Hd & ?). exists d. split; [|done]. rewrite U1 in Hd.
      rewrite U2. apply elem_of_cons in Hd as [[= E0 _]|?]; [|by right]. destruct Hn. rewrite <- E0.
      apply list_elem_of_fmap. by exists w.
    + cbn. rewrite Htl, !total_app, !total_cons. by rewrite Lz.
    + cbn. rewrite Hf, !total_free_app, !total_free_cons. by rewrite Lz, Lu.
  - exists (filter (fun e => e.1 ∉ wbody <$> qmembers q) (used heap_address l1 ++ used (heap_address + total l1 + csize c) l2)).
    unfold allocated. rewrite U1, U2, !filter_cons, !decide_True by done. done.
Qed.

Lemma alloc_label s l F q b d f g : alloc_ok s l F q -> (b, d) ∈ allocated l q -> label f g -> 0 <= cclaims (g d) ->
  exists h l', on_heap (fun a => hupd a (from_body b) f) s = Ok (tt, with_heap h s) /\
    alloc_ok (with_heap h s) l' F q /\ relabelled l q b d g l'.
Proof.
  intros [So [Hz1 Hz2] Hlk] Hb Lb Hcl. destruct (state_label _ _ _ _ _ _ _ _ _ So Hb Lb) as (h & l' & E & So' & rest & R1 & R2).
  exists h, l'. splits; [exact E| |by exists rest]. split; [done| |done]. split; [|done].
  eapply Forall_impl; [exact Hz1|]. intros x (e & He & Hx). rewrite R1 in He.
  apply elem_of_cons in He as [He|He].
  - injection He as Eb ->. exists (g d). rewrite R2, Eb, (lb_size _ _ Lb).
    split; [left|]. split; [apply Hx|]. split; [done|apply Hx].
  - exists e. rewrite R2. split; [by right|done].
Qed.
End Label.
