(* ===== verification/Dispatch.v ===== *)
(** * Allocation against a quota

    [mspace_dispatch]: a request is rounded to a length that a capability can bound
    exactly, allocated at an alignment at which it can, and paid for.  [Cheri] is what the
    code relies on of the instructions CRRL and CRAM: a length is rounded up to a multiple
    of a power of two, its granule, and rounding it does not make the granule larger. *)

From S2P Require Import Prelude LinkedList RingBuffer Bits AllocSizes ChunkHeader MState Bins SmallBins TreeBins TreeUnlink FreeLists TreeSelect Allocator Heap Release Malloc Accounts Quarantine Dequeue FreeOp Hazard MallocOp Memalign Sanity Label.

(** [n] rounded up to a multiple of [k]. *)
Definition rounded (n k : Z) : Z := (n + k - 1) / k * k.

Lemma rounded_ok n k : 0 < k -> n <= rounded n k < n + k /\ (k | rounded n k).
Proof.
  intros Hk. unfold rounded. pose proof (Z.div_mod (n + k - 1) k ltac:(lia)).
  pose proof (Z.mod_pos_bound (n + k - 1) k ltac:(lia)). split; [lia|]. by exists ((n + k - 1) / k).
Qed.

Class Cheri `{Env} : Type := {
  (** The granule of the length [n] is [2 ^ exponent n]. *)
  exponent : Z -> Z;
  exponent_range n : 0 <= n <= MaxChunkSize -> 0 <= exponent n <= 18;
  mask_law n : 0 <= n <= MaxChunkSize -> representable_alignment_mask n = 2 ^ 32 - 2 ^ exponent n;
  length_law n : 0 <= n <= MaxChunkSize -> representable_length n = rounded n (2 ^ exponent n);
  exponent_small n : 0 <= n < 512 -> exponent n = 0;
  length_large n : MaxChunkSize < n < 2 ^ 32 ->
    representable_length n = 0 \/ MaxChunkSize < representable_length n < 2 ^ 32;
  exponent_stable n : 0 <= n <= MaxChunkSize -> rounded (rounded n (2 ^ exponent n)) 8 <= MaxChunkSize ->
    exponent (rounded (rounded n (2 ^ exponent n)) 8) <= Z.max 3 (exponent n);
}.

Section Sizes.
Context `{Cheri}.

Lemma precise_iff base n : 0 <= n <= MaxChunkSize ->
  is_precise_range base n = (base mod 2 ^ exponent n =? 0) && (n mod 2 ^ exponent n =? 0).
Proof.
  intros Hn. unfold is_precise_range. pose proof (exponent_range n Hn) as He. rewrite mask_law, length_law by done.
  assert (0 < 2 ^ exponent n < 2 ^ 32) as Hp by (split; [apply pow2_pos; lia|apply Z.pow_lt_mono_r; lia]).
  assert (u32 (Z.lnot (2 ^ 32 - 2 ^ exponent n)) = Z.ones (exponent n)) as ->.
  { unfold u32, wrap. rewrite Z.ones_equiv. symmetry. apply (Z.mod_unique _ _ (-1)); unfold Z.lnot; lia. }
  rewrite Z.land_ones by lia. f_equal. set (k := 2 ^ exponent n) in *.
  destruct (rounded_ok n k (proj1 Hp)) as [_ Hd]. apply Z.mod_divide in Hd; [|lia].
  destruct (Z.eqb_spec (n mod k) 0) as [E|E]; [apply Z.eqb_eq|apply Z.eqb_neq; congruence].
  unfold rounded. pose proof (Z.div_mod n k ltac:(lia)).
  rewrite <- (Z.div_unique (n + k - 1) k (n / k) (k - 1)) by lia. lia.
Qed.

(** What the alignment of a request for [n] bytes gives. *)
Definition alignment (n : Z) : Z := 2 ^ exponent n.

Lemma alignment_power n : 0 <= n <= MaxChunkSize -> u32 (- representable_alignment_mask n) = alignment n /\ power_ok (alignment n).
Proof.
  intros Hn. pose proof (exponent_range n Hn) as He. split; [|by exists (exponent n)].
  rewrite mask_law by done. unfold u32, wrap, alignment.
  assert (0 < 2 ^ exponent n < 2 ^ 32) as Hp by (split; [apply pow2_pos; lia|apply Z.pow_lt_mono_r; lia]).
  symmetry. apply (Z.mod_unique _ _ (-1)); lia.
Qed.

(** The rounded size of a request: zero, too much for any heap, or exact. *)
Lemma align_size_cases n : 0 <= n < 2 ^ 32 -> align_size n = 0 \/ MaxChunkSize < align_size n \/
  (0 <= n <= MaxChunkSize /\ align_size n = rounded (rounded n (alignment n)) 8).
Proof.
  intros Hn. unfold align_size. destruct (Z.le_gt_cases n MaxChunkSize) as [Hle|Hgt].
  - right. right. pose proof (exponent_range n ltac:(lia)) as He. rewrite length_law by lia.
    change MaxChunkSize with 524280 in Hle.
    assert (0 < alignment n <= 2 ^ 18) as Ha by (unfold alignment; split; [apply pow2_pos; lia|apply Z.pow_le_mono_r; lia]).
    fold (alignment n). destruct (rounded_ok n (alignment n)) as [Hr _]; [lia|].
    unfold u32 at 1. rewrite wrap_small by (change MallocAlignMask with 7; lia).
    rewrite mask_down by (change MallocAlignMask with 7; lia). split; [change MaxChunkSize with 524280; lia|].
    change MallocAlignMask with 7. set (m := rounded n (alignment n)). unfold rounded.
    replace (m + 8 - 1) with (m + 7) by lia. pose proof (Z.div_mod (m + 7) 8). lia.
  - destruct (length_large n ltac:(lia)) as [->|Hr]; [by left|]. change MaxChunkSize with 524280 in *.
    set (v := u32 (representable_length n + MallocAlignMask)).
    assert (v in_u 32) as Hv by (by apply wrap_bound). rewrite (mask_down v Hv).
    pose proof (Z.mod_pos_bound v 8 ltac:(lia)). pose proof (Z.div_mod v 8 ltac:(lia)).
    destruct (Z.lt_ge_cases (representable_length n + 7) (2 ^ 32)) as [Hlt|Hge].
    + right. left. assert (v = representable_length n + 7) as E by (apply wrap_small; change MallocAlignMask with 7; lia). lia.
    + left. assert (v = representable_length n + 7 - 2 ^ 32) as E.
      { symmetry. apply (Z.mod_unique _ _ 1); change MallocAlignMask with 7; lia. }
      rewrite Z.mod_small; lia.
Qed.

Lemma divide_pow a b x : 0 <= a <= b -> (2 ^ b | x) -> (2 ^ a | x).
Proof.
  intros Hab Hd. etrans; [|exact Hd]. exists (2 ^ (b - a)). rewrite <- Z.pow_add_r by lia. f_equal. lia.
Qed.

(** What is handed out for a request can be bounded exactly. *)
Lemma exact_at n base : 0 <= n <= MaxChunkSize -> align_size n = rounded (rounded n (alignment n)) 8 ->
  align_size n <= MaxChunkSize -> base mod alignment n = 0 -> base mod 8 = 0 ->
  is_precise_range base (align_size n) = true.
Proof.
  intros Hn E Hm Hb Hb8. pose proof (exponent_range n Hn) as He. unfold alignment in *.
  assert (0 < 2 ^ exponent n) as Hp by (apply pow2_pos; lia).
  destruct (rounded_ok n (2 ^ exponent n) Hp) as [R1 R2].
  destruct (rounded_ok (rounded n (2 ^ exponent n)) 8 ltac:(lia)) as [R3 R4]. rewrite <- E in R3, R4.
  rewrite precise_iff by lia. pose proof (exponent_stable n Hn) as Hst. rewrite <- E in Hst. specialize (Hst Hm).
  assert (0 <= align_size n <= MaxChunkSize) as Hr by lia. pose proof (exponent_range _ Hr) as He2.
  assert (0 < 2 ^ exponent (align_size n)) as Hp2 by (apply pow2_pos; lia).
  apply Z.mod_divide in Hb; [|lia]. apply Z.mod_divide in Hb8; [|lia]. change 8 with (2 ^ 3) in Hb8, R4.
  apply andb_true_iff. rewrite !Z.eqb_eq, !Z.mod_divide by lia.
  destruct (Z.le_gt_cases (exponent n) 3) as [Hle|Hgt].
  - split; apply (divide_pow _ 3); (lia || done).
  - enough (align_size n = rounded n (2 ^ exponent n)) as En.
    { rewrite <- En in R2. split; apply (divide_pow _ (exponent n)); (lia || done). }
    apply (divide_pow 3) in R2; [|lia]. rewrite E. change (2 ^ 3) with 8 in R2. destruct R2 as [k ->]. unfold rounded.
    rewrite <- (Z.div_unique (k * 8 + 8 - 1) 8 k 7) by lia. lia.
Qed.
End Sizes.

Section Dispatch.
Context `{EnvOk} `{Hepoch : !Epochs} `{Hcheri : !Cheri}.
Implicit Types (s : MState) (F : gmap Z Z) (q : qstate).

(** ** The checks before an allocation *)

(** What looking through the hazard quarantine leaves: the chunks [gone] are freed. *)
Definition flushed s (l : list chunk) q (gone : list (Z * chunk)) s' (l' : list chunk) q' : Prop :=
  allocated l q ≡ₚ gone ++ allocated l' q' /\
  settled s (allocated l q) gone (hazardQuarantine s) (hazardQuarantine s') /\ frees_only gone s s' /\ (readings s <= readings s')%nat.

Lemma allocated_base k s l F q b d : state_ok k s l F q -> (b, d) ∈ allocated l q -> in_heap b.
Proof.
  intros So [_ (c & Hc & _)%elem_of_used]%list_elem_of_filter. apply placed_split in Hc as (l1 & l2 & -> & ->).
  apply (arena_range _ _ _ _ (ho_arena _ _ _ (so_heap _ _ _ _ _ So))).
Qed.

Lemma alloc_sizes s l F q : alloc_ok s l F q -> Forall chunk_ok l.
Proof. intros Ha. apply (ao_sizes _ _ (ho_arena _ _ _ (so_heap _ _ _ _ _ (al_state _ _ _ _ Ha)))). Qed.

Lemma flush_ok s l F q : alloc_ok s l F q ->
  exists s' l' F' q' gone, flush_hazards s = Ok (tt, s') /\ alloc_ok s' l' F' q' /\ flushed s l q gone s' l' q'.
Proof.
  intros Ha. pose proof Ha as [So Hz Hlk]. unfold flush_hazards. mpure. cbn [id]. unfold hazard_quarantine_is_empty.
  destruct (bool_decide_reflect (hazardQuarantine s = [])) as [Eh|Hne].
  { exists s, l, F, q, []. splits; [done|done|]. unfold flushed. rewrite Eh. splits; [done|apply settled_refl|by apply frees_only_refl|done]. }
  destruct (lock_ok s Hlk) as (e & lw & He & He2 & E0). mrun E0.
  pose proof (with_hazards_ok _ _ _ _ _ (hazardQuarantine s) lw So) as So0.
  assert (cbase null_cap ∉ cbase <$> hazardQuarantine s) as Hnull.
  { intros (h & Eb & Hh)%list_elem_of_fmap. destruct Hz as [Hz _]. rewrite Forall_forall in Hz.
    destruct (Hz h Hh) as (d & Hd & _). rewrite <- Eb in Hd. apply (allocated_base _ _ _ _ _ _ _ So) in Hd as [Hd _].
    cbn in Hd. pose proof base_below. pose proof ms_below. lia. }
  pose proof (recheck_ok null_cap _ l F q So0 Hz Hnull) as
    (s1 & l1 & F1 & q1 & gone & E1 & So1 & _ & Hrd1 & Hz1 & Hsub & Hcl1 & Hp & Hg & Hfate). mrun E1.
  destruct (release_ok e s1 He He2) as (lw' & E3 & Hu). rewrite E3.
  eexists _, l1, F1, q1, gone. splits; [reflexivity| |].
  - split; [by apply with_hazards_ok|done|done].
  - unfold flushed. splits; [done|eapply fate_settled; try done; by eapply alloc_sizes|done|done].
Qed.

(** ** When no chunk was found *)

(** The answers to a request of [need] bytes that no free chunk serves. *)
Definition none_found s (need : Z) (r : AllocationResult) : Prop :=
  match r with
  | AllocationFailureRevocationNeeded e =>
      0 < heapQuarantineSize s /\ need + sizeof_header <= heapQuarantineSize s + heapFreeSize s /\
      quarantinePendingEpoch s !! Z.to_nat (head_get_unsafe (quarantinePendingRing s)) = Some e
  | AllocationFailurePermanent => heapTotalSize s < need + sizeof_header
  | AllocationFailureHeapFull => need + sizeof_header <= heapTotalSize s /\
      (heapQuarantineSize s = 0 \/ heapQuarantineSize s + heapFreeSize s < need + sizeof_header)
  | _ => False
  end.

Lemma no_chunk_ok s l F q need : state_ok 0 s l F q -> 0 <= need <= MaxChunkSize ->
  exists r, no_chunk s need = Ok r /\ none_found s need r.
Proof.
  intros So Hn. pose proof (bytes_bound _ _ _ _ So) as Hb. change MaxChunkSize with 524280 in Hn. unfold no_chunk. change sizeof_header with 8.
  unfold u32. rewrite !wrap_small by lia. unfold none_found. change sizeof_header with 8.
  destruct (Z.ltb_spec 0 (heapQuarantineSize s)); cbn [andb].
  - destruct (Z.leb_spec (need + 8) (heapQuarantineSize s + heapFreeSize s)).
    + destruct (qo_live _ _ (so_quar _ _ _ _ _ So)) as (Hh & _). unfold head_get_unsafe.
      destruct (lookup_lt_is_Some_2 (quarantinePendingEpoch s) (Z.to_nat (head (quarantinePendingRing s)))) as [e He].
      { rewrite (qo_length _ _ (so_quar _ _ _ _ _ So)). lia. }
      exists (AllocationFailureRevocationNeeded e). rewrite He. by splits.
    + destruct (Z.ltb_spec (heapTotalSize s) (need + 8)); [by exists AllocationFailurePermanent|].
      exists AllocationFailureHeapFull. splits; [done|lia|by right].
  - destruct (Z.ltb_spec (heapTotalSize s) (need + 8)); [by exists AllocationFailurePermanent|].
    exists AllocationFailureHeapFull. splits; [done|lia|left; lia].
Qed.

(** ** Giving back a chunk that costs too much *)

Lemma allocated_size k s l F q b d : state_ok k s l F q -> (b, d) ∈ allocated l q ->
  csize d mod 8 = 0 /\ 0 < csize d <= MaxChunkSize /\ total_free l + csize d <= total l.
Proof.
  intros So Hd. pose proof Hd as [_ Hu]%list_elem_of_filter. pose proof (ho_arena _ _ _ (so_heap _ _ _ _ _ So)) as Ha.
  pose proof (ao_sizes _ _ Ha) as (Hall & Ht & _).
  pose proof (qsum_bound heap_address l [(b, csize d)] Hall) as Hq. cbn in Hq.
  assert (csize d + 0 + total_free l <= total l) as Hle.
  { apply Hq; [apply NoDup_singleton|]. intros x ->%list_elem_of_singleton. unfold used_sizes.
    apply list_elem_of_fmap. by exists (b, d). }
  pose proof (total_free_range _ Hall). apply elem_of_used in Hu as (c & Hc & _ & ->).
  apply placed_split in Hc as (l1 & l2 & -> & _). apply Forall_app in Hall as [_ [[? ?] _]%Forall_cons]. cbn in *. splits; (done || lia).
Qed.

Lemma give_back_ok s l F q b d : alloc_ok s l F q -> (b, d) ∈ allocated l q -> cclaims d = 0 -> MinChunkSize <= csize d ->
  b ∉ cbase <$> hazardQuarantine s ->
  exists s' l' F', (_ ← modify (fun s => with_sizes (heapTotalSize s) (u32 (heapFreeSize s + csize d))
                               (heapQuarantineSize s) s); mspace_free_internal (from_body b)) s = Ok (tt, s') /\
    alloc_ok s' l' F' q /\ allocated l q ≡ₚ (b, d) :: allocated l' q /\ kept s s'.
Proof.
  intros [So Hz Hlk] Hd Hc Hs Hb. destruct (allocated_freeable _ _ _ _ Hd Hc Hs) as (c & <- & Hfr).
  destruct (allocated_size _ _ _ _ _ _ _ So Hd) as (_ & Hr & Hle). pose proof (bytes_bound _ _ _ _ So) as (Hf & _ & _ & Ht).
  pose proof (so_free _ _ _ _ _ So) as Ef. mpure. cbn [csize strip with_cpin] in *. unfold u32. rewrite wrap_small by lia.
  set (s0 := with_sizes _ _ _ s). assert (state_ok (csize c) s0 l F q) as So0.
  { pose proof So as [Hok Hq Hnd Hch Htl Hfs Hqs]. split; try done.
    - by apply (heap_ok_frame s).
    - by apply (quar_frame s _ q).
    - cbn. lia. }
  destruct (free_state _ _ _ _ _ _ _ So0 (fr_placed _ _ _ _ Hfr) (fr_use _ _ _ _ Hfr) (fr_claims _ _ _ _ Hfr) Hs (fr_out _ _ _ _ Hfr))
    as (s' & l' & F' & E & So' & T & Hu).
  rewrite Z.sub_diag in So'. exists s', l', F'. pose proof (touches_kept _ _ _ T) as (K1 & K2 & K3 & K4).
  assert (allocated l q ≡ₚ (b, strip c) :: allocated l' q) as Hp.
  { unfold allocated. rewrite Hu, filter_cons. cbn [fst]. by rewrite decide_True by apply Hfr. }
  splits; [exact E| |done|done]. split; [done| |unfold unlocked in *; by rewrite K2].
  rewrite K1. eapply (hazards_keep _ _ _ _ [_]); [exact Hp| |done]. by intros x ->%list_elem_of_singleton.
Qed.

(** ** Handing over a chunk *)

Lemma state_counters k s l F q sc rd kk : state_ok k s l F q -> (readings s <= rd)%nat ->
  state_ok k (with_counters sc rd kk s) l F q.
Proof.
  intros So Hrd. apply (state_ok_step (P := paint (qmembers q)) k s _ l F q); try done.
  apply (quar_frame s _ q); try done. apply So.
Qed.

Lemma alloc_counters s l F q sc rd kk : alloc_ok s l F q -> (readings s <= rd)%nat ->
  alloc_ok (with_counters sc rd kk s) l F q.
Proof. intros [So Hz Hlk] Hrd. split; [by apply state_counters|done|done]. Qed.

(** The code's own check of the whole state finds nothing. *)
Lemma malloc_state_ok s l F q : state_ok 0 s l F q ->
  exists rd kk, (readings s <= rd)%nat /\ ok_malloc_state s = Ok (tt, with_counters (sanityCounter s) rd kk s).
Proof.
  intros So. assert (exists rd kk, (readings s <= rd)%nat /\
    (if IsAsynchronous then _ ← mspace_bg_revoker_kick false; mret tt else mret tt) s =
      Ok (tt, with_counters (sanityCounter s) rd kk s)) as (rd & kk & Hrd & E).
  { destruct IsAsynchronous; [|exists (readings s), (kicks s); by destruct s].
    destruct (revoker_kick_ok false s) as (r & rd & kk & Hrd & E & _). exists rd, kk. mrun E. done. }
  exists rd, kk. split; [done|]. unfold ok_malloc_state. mrun E. apply when_debug_ok, (bins_checked (P := paint (qmembers q)) _ l F).
  by apply (state_counters _ _ _ _ _ (sanityCounter s) rd kk So Hrd).
Qed.

Lemma sanity_ok s l F q : state_ok 0 s l F q ->
  exists sc rd kk, (readings s <= rd)%nat /\ sanity_check s = Ok (tt, with_counters sc rd kk s).
Proof.
  intros So. unfold sanity_check, when_debug. destruct debug.
  2:{ exists (sanityCounter s), (readings s), (kicks s). by destruct s. }
  mpure. cbn [id]. destruct (sanityCounter s mod 128 =? 0).
  - destruct (malloc_state_ok s l F q So) as (rd & kk & Hrd & E). mrun E. mpure.
    eexists _, rd, kk. split; [done|reflexivity].
  - mpure. eexists _, (readings s), (kicks s). split; [lia|reflexivity].
Qed.

Lemma allocated_header k s l F q b d : state_ok k s l F q -> (b, d) ∈ allocated l q ->
  exists c n, strip c = d /\ cuse c = true /\ header (heap s) (from_body b) = Ok (header_of n c) /\
    chunk_size (from_body b) s = Ok (csize d, s) /\ body (from_body b) = b.
Proof.
  intros So [_ (c & Hc & Hu & ->)%elem_of_used]%list_elem_of_filter.
  pose proof (ho_arena _ _ _ (so_heap _ _ _ _ _ So)) as Ha. apply placed_split in Hc as (l1 & l2 & -> & ->).
  destruct (arena_range _ _ _ _ Ha) as (_ & _ & _ & _ & Eb & Ef & _). change 8 with sizeof_header in Ef, Eb.
  rewrite Ef. eexists c, _. splits; [done|done| |exact (arena_size _ _ _ _ Ha)|done].
  by apply (header_layout _ _ _ _ _ _ (ao_layout _ _ Ha)).
Qed.

Lemma set_owner_label s l F q b d o : alloc_ok s l F q -> (b, d) ∈ allocated l q -> 0 <= cclaims d ->
  exists h l', on_heap (fun a => set_owner debug o a (from_body b)) s = Ok (tt, with_heap h s) /\
    alloc_ok (with_heap h s) l' F q /\ relabelled l q b d (with_cowner (wrap 13 o)) l'.
Proof.
  intros Ha Hd Hc. destruct (alloc_label s l F q b d _ _ Ha Hd (label_owner (wrap 13 o)) Hc) as (h & l' & E & Ha' & R).
  exists h, l'. splits; [|done|done]. rewrite <- E. unfold on_heap.
  destruct (allocated_header _ _ _ _ _ _ _ (al_state _ _ _ _ Ha) Hd) as (c & n & _ & Hu & Eh & _).
  unfold set_owner. rewrite Eh, ok_bind. rewrite dassert_true by done. by rewrite ok_bind.
Qed.

Lemma relabelled_elem l q b d g l' : relabelled l q b d g l' -> (b, g d) ∈ allocated l' q.
Proof. intros (rest & _ & ->). left. Qed.

Lemma relabelled_trans l1 l2 l3 q b d g1 g2 : Forall chunk_ok l2 -> relabelled l1 q b d g1 l2 ->
  relabelled l2 q b (g1 d) g2 l3 -> relabelled l1 q b d (g2 ∘ g1) l3.
Proof.
  intros Hl (r1 & P1 & P2) (r2 & P3 & P4). exists r1. split; [done|]. rewrite P4. f_equiv.
  rewrite P2 in P3. by apply Permutation_cons_inv in P3.
Qed.

(** The length of the capability to the whole body of a chunk. *)
Definition body_length (b : Z) (d : chunk) : Z :=
  if is_precise_range b (csize d - sizeof_header) then csize d - sizeof_header else csize d - 2 * sizeof_header.

(** The labels of a chunk that was handed over. *)
Definition labelled (o : Z) (sealed : bool) (d : chunk) : chunk := with_cowner o (with_csealed sealed d).

(** The changes of the state that concern neither claims nor hazards. *)
Definition quiet s s' : Prop := hazardQuarantine s' = hazardQuarantine s /\ claimcells s' = claimcells s /\
  heapQuarantineSize s' <= heapQuarantineSize s /\ (readings s <= readings s')%nat.

Lemma hand_over_ok s l F q b d need quota o sealed : alloc_ok s l F q -> (b, d) ∈ allocated l q -> cclaims d = 0 ->
  need + 8 <= csize d < need + 24 -> need mod 8 = 0 -> 0 <= need -> is_precise_range b need = true ->
  csize d <= quota < 2 ^ 32 -> 0 <= o < 2 ^ 13 ->
  exists s' l', hand_over b (csize d) need quota o sealed s =
      Ok ((AllocationSuccess (mkCap b (body_length b d) true false), quota - csize d), s') /\
    alloc_ok s' l' F q /\ relabelled l q b d (labelled o sealed) l' /\ quiet s s' /\
    need <= body_length b d /\ is_precise_range b (body_length b d) = true.
Proof.
  intros Ha Hd Hc Hsz H8 H0' Hpr Hq Ho. destruct (allocated_size _ _ _ _ _ _ _ (al_state _ _ _ _ Ha) Hd) as (Hd8 & Hr & _).
  change MaxChunkSize with 524280 in Hr.
  assert (csize d = need + 8 \/ csize d = need + 16) as Hcase.
  { pose proof (Z.div_mod (csize d) 8). pose proof (Z.div_mod need 8). lia. }
  unfold hand_over. destruct (sanity_ok s l F q (al_state _ _ _ _ Ha)) as (sc & rd & kk & Hrd & E0). mrun E0.
  pose proof (alloc_counters _ _ _ _ sc rd kk Ha Hrd) as Ha0.
  destruct (alloc_label _ l F q b d _ _ Ha0 Hd (label_sealed sealed)) as (h1 & l1 & E1 & Ha1 & R1); [cbn; lia|]. mrun E1.
  destruct (set_owner_label _ l1 F q b _ o Ha1 (relabelled_elem _ _ _ _ _ _ R1)) as (h2 & l2 & E2 & Ha2 & R2); [cbn; lia|].
  mrun E2. change sizeof_header with 8. unfold u32. rewrite !wrap_small by lia.
  assert (relabelled l q b d (labelled o sealed) l2) as R.
  { unfold labelled. rewrite wrap_small in R2 by done. eapply (relabelled_trans _ l1); [|exact R1|exact R2].
    apply (ao_sizes _ _ (ho_arena _ _ _ (so_heap _ _ _ _ _ (al_state _ _ _ _ Ha1)))). }
  unfold body_length. change sizeof_header with 8.
  destruct (is_precise_range b (csize d - 8)) eqn:Ep.
  - eexists _, l2. splits; [reflexivity|exact Ha2|exact R|done|lia|done].
  - assert (csize d - 8 <> need) as Hne by congruence.
    mrun (massert_ok (csize d - 8 =? need + MallocAlignment) (with_heap h2 (with_heap h1 (with_counters sc rd kk s)))
      ltac:(apply Z.eqb_eq; change MallocAlignment with 8; lia)).
    rewrite Hpr. replace need with (csize d - 2 * 8) in Hpr |- * by lia.
    eexists _, l2. splits; [reflexivity|exact Ha2|exact R|done|lia|done].
Qed.

(** ** The whole operation *)

(** Why a request for [bytes] bytes against [quota] is refused, in the state that the refusal
    leaves: no heap could ever serve it; the quota is below what the chunk costs, a header and at
    most one unit of padding more than the rounded size; or no free chunk fits, and the bytes in
    quarantine would make it fit or not. *)
Definition refused_for (bytes quota : Z) r s : Prop :=
  match r with
  | AllocationSuccess _ => False
  | AllocationFailurePermanent => align_size bytes = 0 \/ heapTotalSize s < align_size bytes + sizeof_header
  | AllocationFailureQuotaExceeded => quota < align_size bytes + 2 * MallocAlignment
  | _ => none_found s (align_size bytes) r /\ exists l F q, alloc_ok s l F q /\
      forall b sz, F !! b = Some sz -> sz < sought (align_size bytes) (alignment bytes)
  end.

(** What becomes of a request, where [la] are the chunks that were allocated. *)
Definition dispatch_outcome (bytes quota o : Z) (sealed : bool) (la : list (Z * chunk)) r quota' s' (l' : list chunk) F' q' : Prop :=
  match r with
  | AllocationSuccess c => exists b d, c = mkCap b (body_length b d) true false /\
      allocated l' q' ≡ₚ (b, d) :: la /\ bytes <= body_length b d /\ is_precise_range b (body_length b d) = true /\
      cowner d = o /\ csealed d = sealed /\ cclaims d = 0 /\ MinChunkSize <= csize d /\ quota' = quota - csize d /\ 0 <= quota'
  | AllocationFailurePermanent => allocated l' q' ≡ₚ la /\ quota' = quota /\
      (align_size bytes = 0 \/ heapTotalSize s' < align_size bytes + sizeof_header)
  | AllocationFailureQuotaExceeded => allocated l' q' ≡ₚ la /\ quota' = quota /\ quota < align_size bytes + 2 * MallocAlignment
  | _ => allocated l' q' ≡ₚ la /\ quota' = quota /\ none_found s' (align_size bytes) r /\
      forall b sz, F' !! b = Some sz -> sz < sought (align_size bytes) (alignment bytes)
  end.

(** The hazard quarantine and the claims after a call that frees only chunks [gone] of the
    hazard quarantine. *)
Definition quiet_but (al gone : list (Z * chunk)) s s' : Prop :=
  settled s al gone (hazardQuarantine s) (hazardQuarantine s') /\ frees_only gone s s' /\ (readings s <= readings s')%nat.

Lemma quiet_after al gone s s1 s2 : quiet_but al gone s s1 -> quiet s1 s2 -> quiet_but al gone s s2.
Proof.
  intros (H1' & H2' & H3') (E1 & E2 & E3 & E4). unfold quiet_but. rewrite E1. splits; [done| |lia].
  rewrite <- (app_nil_r gone). eapply frees_only_trans; [done|by apply frees_only_refl].
Qed.

Lemma kept_quiet s s' : kept s s' -> quiet s s'.
Proof. intros (? & ? & ? & ? & ?). by unfold quiet. Qed.

Lemma fresh_not_hazard s l F q b d s' l' q' : alloc_ok s l F q -> kept s s' -> allocated l' q' ≡ₚ (b, d) :: allocated l q ->
  Forall chunk_ok l' -> b ∉ cbase <$> hazardQuarantine s'.
Proof.
  intros [_ [Hz _] _] (-> & _) Hp Hl Hb. pose proof (allocated_NoDup l' q' Hl) as Hnd. rewrite Hp in Hnd.
  cbn [fmap list_fmap fst] in Hnd. apply NoDup_cons in Hnd as [Hn _]. apply Hn.
  apply list_elem_of_fmap in Hb as (h & -> & Hh). rewrite Forall_forall in Hz. destruct (Hz h Hh) as (e & He & _).
  apply list_elem_of_fmap. by exists (cbase h, e).
Qed.

(** From the search for a chunk on. *)
Lemma dispatch_search s l F q bytes quota o sealed :
  alloc_ok s l F q -> 0 <= bytes <= MaxChunkSize -> align_size bytes = rounded (rounded bytes (alignment bytes)) 8 ->
  align_size bytes <> 0 -> align_size bytes <= heapTotalSize s -> 0 <= quota < 2 ^ 32 -> 0 <= o < 2 ^ 13 ->
  exists r quota' s' l' F' q',
    (ret ← mspace_memalign (align_size bytes) (u32 (- representable_alignment_mask bytes));
     if negb (truth ret) then r ← reads (fun s => no_chunk s (align_size bytes)); mret (r, quota)
     else
       size ← chunk_size (from_body ret);
       if quota <? size then
         _ ← modify (fun s => with_sizes (heapTotalSize s) (u32 (heapFreeSize s + size)) (heapQuarantineSize s) s);
         _ ← mspace_free_internal (from_body ret);
         mret (AllocationFailureQuotaExceeded, quota)
       else hand_over ret size (align_size bytes) quota o sealed) s = Ok ((r, quota'), s') /\
    alloc_ok s' l' F' q' /\ quiet s s' /\ dispatch_outcome bytes quota o sealed (allocated l q) r quota' s' l' F' q'.
Proof.
  intros Ha Hb En Hn0 Hnt Hq Ho. pose proof (al_state _ _ _ _ Ha) as So.
  destruct (alignment_power bytes Hb) as [-> Hpow]. set (need := align_size bytes) in *. set (a := alignment bytes) in *.
  assert (need <= MaxChunkSize) as Hmax.
  { rewrite (so_total _ _ _ _ _ So) in Hnt. pose proof (ao_sizes _ _ (ho_arena _ _ _ (so_heap _ _ _ _ _ So))) as (_ & Ht & _). lia. }
  assert (0 < a) as Ha0 by (destruct Hpow as (j & Hj & ->); apply pow2_pos; lia).
  destruct (rounded_ok bytes a Ha0) as [Hr1 _]. destruct (rounded_ok (rounded bytes a) 8 ltac:(lia)) as [Hr2 Hdiv].
  rewrite <- En in Hr2, Hdiv. assert (need mod 8 = 0) as H8 by (apply Z.mod_divide; [lia|done]).
  assert (8 <= need) as Hn8 by (pose proof (Z.div_mod need 8); lia). change MaxChunkSize with 524280 in Hmax.
  destruct (pad_request_spec need ltac:(lia)) as [Hpad Hpad8]. change sizeof_header with 8 in Hpad. change MallocAlignment with 8 in Hpad.
  assert (pad_request need = need + 8) as Epad by (pose proof (Z.div_mod need 8); pose proof (Z.div_mod (pad_request need) 8); lia).
  destruct (mspace_memalign_ok s l F q need a Ha Hpow ltac:(lia)) as (p & s1 & l1 & F1 & q1 & E1 & Ha1 & Hk1 & Hout). mrun E1.
  destruct Hout as [(-> & Hp & Hno)|(Ht & Hal & d & Hp & Hsz & Hc & Hs)].
  - cbn [truth negb Z.eqb]. destruct (no_chunk_ok s1 l1 F1 q1 need (al_state _ _ _ _ Ha1)) as (r & Er & Hr); [change MaxChunkSize with 524280; lia|].
    mrun (reads_ok (fun s => no_chunk s need) s1 r Er). exists r, quota, s1, l1, F1, q1. splits; [done|done|by apply kept_quiet|].
    destruct r; cbn in Hr |- *; try done. splits; [done|done|by right].
  - rewrite Ht. cbn [negb]. assert ((p, d) ∈ allocated l1 q1) as Hin by (rewrite Hp; left).
    destruct (allocated_header _ _ _ _ _ _ _ (al_state _ _ _ _ Ha1) Hin) as (_ & _ & _ & _ & _ & Es & _). mrun Es.
    change MinChunkSize with 16 in Hsz. destruct (Z.ltb_spec quota (csize d)) as [Hlt|Hge].
    + destruct (give_back_ok s1 l1 F1 q1 p d Ha1 Hin Hc) as (s2 & l2 & F2 & E2 & Ha2 & Hp2 & Hk2);
        [change MinChunkSize with 16; lia|eapply (fresh_not_hazard s); [done|done|exact Hp|by eapply alloc_sizes]|].
      rewrite <- M_assoc. mrun E2. eexists _, _, s2, l2, F2, q1. splits; [reflexivity|done|apply kept_quiet; by eapply kept_trans|].
      cbn. change MallocAlignment with 8.
      destruct (allocated_size _ _ _ _ _ _ _ (al_state _ _ _ _ Ha1) Hin) as (Hd8 & _).
      assert (csize d <= need + 16) by (pose proof (Z.div_mod (csize d) 8); pose proof (Z.div_mod need 8); lia).
      splits; [|done|fold need; lia].
      rewrite Hp in Hp2. by apply Permutation_cons_inv in Hp2.
    + assert (is_precise_range p need = true) as Hprec.
      { apply exact_at; try done. exact (allocated_aligned _ _ _ _ _ _ _ (al_state _ _ _ _ Ha1) Hin). }
      destruct (hand_over_ok s1 l1 F1 q1 p d need quota o sealed Ha1 Hin Hc) as (s2 & l2 & E2 & Ha2 & R & Hq2 & Hlen & Hpr);
        [lia|done|lia|done|lia|done|].
      eexists _, _, s2, l2, F1, q1. splits; [exact E2|done| |].
      * destruct (kept_quiet _ _ Hk1) as (Q1 & Q2 & Q3 & Q7), Hq2 as (Q4 & Q5 & Q6 & Q8). unfold quiet. splits; [congruence|congruence|lia|lia].
      * exists p, (labelled o sealed d). destruct R as (rest & R1 & R2).
        assert (rest ≡ₚ allocated l q) as Hrest by (rewrite Hp in R1; by apply Permutation_cons_inv in R1).
        splits; try done; [by rewrite R2, Hrest|etrans; [|exact Hlen]; lia|change MinChunkSize with 16; cbn; lia|cbn; lia].
Qed.

Lemma outcome_refused bytes quota o sealed la r quota' s l F q : alloc_ok s l F q ->
  dispatch_outcome bytes quota o sealed la r quota' s l F q ->
  match r with
  | AllocationSuccess _ => True
  | _ => allocated l q ≡ₚ la /\ quota' = quota /\ refused_for bytes quota r s
  end.
Proof.
  intros Ha. unfold dispatch_outcome, refused_for. destruct r; try done.
  all: intros (P & -> & Hn & Hf); split; [done|split; [done|split; [done|by exists l, F, q]]].
Qed.

Lemma mspace_dispatch_ok s l F q bytes quota o sealed :
  alloc_ok s l F q -> 0 <= bytes < 2 ^ 32 -> 0 <= quota < 2 ^ 32 -> 0 <= o < 2 ^ 13 ->
  exists r quota' s' l' F' q' gone rest, mspace_dispatch bytes quota o sealed s = Ok ((r, quota'), s') /\
    alloc_ok s' l' F' q' /\ allocated l q ≡ₚ gone ++ rest /\ quiet_but (allocated l q) gone s s' /\ dispatch_outcome bytes quota o sealed rest r quota' s' l' F' q'.
Proof.
  intros Ha Hb Hq Ho. unfold mspace_dispatch.
  destruct (flush_ok s l F q Ha) as (s1 & l1 & F1 & q1 & gone & E1 & Ha1 & Hp & Hset & Hcl & Hrd). mrun E1. mpure.
  assert (quiet_but (allocated l q) gone s s1) as Hqb by done.
  pose proof (al_state _ _ _ _ Ha1) as So. pose proof (so_total _ _ _ _ _ So) as Etot.
  pose proof (ao_sizes _ _ (ho_arena _ _ _ (so_heap _ _ _ _ _ So))) as (_ & Ht & _).
  destruct (Z.eqb_spec (align_size bytes) 0) as [E0|Hn0].
  { exists AllocationFailurePermanent, quota, s1, l1, F1, q1, gone, (allocated l1 q1). splits; try done. cbn [dispatch_outcome]. splits; [done|done|by left]. }
  destruct (Z.ltb_spec (heapTotalSize s1) (align_size bytes)) as [Hlt|Hge].
  { exists AllocationFailurePermanent, quota, s1, l1, F1, q1, gone, (allocated l1 q1). splits; try done.
    cbn [dispatch_outcome]. splits; [done|done|right; change sizeof_header with 8; lia]. }
  destruct (Z.ltb_spec quota (align_size bytes)) as [Hlt2|Hge2].
  { exists AllocationFailureQuotaExceeded, quota, s1, l1, F1, q1, gone, (allocated l1 q1). splits; try done.
    cbn [dispatch_outcome]. splits; [done|done|change MallocAlignment with 8; lia]. }
  destruct (align_size_cases bytes Hb) as [|[|[Hle En]]]; [done|lia|].
  destruct (dispatch_search s1 l1 F1 q1 bytes quota o sealed Ha1 Hle En Hn0 Hge Hq Ho) as (r & quota' & s2 & l2 & F2 & q2 & E2 & Ha2 & Hq2 & Hout).
  exists r, quota', s2, l2, F2, q2, gone, (allocated l1 q1). splits; try done. by eapply quiet_after.
Qed.
End Dispatch.

(** * A concrete encoding of bounds

    An instance of the laws of [Cheri], for the examples: the granule of a length is the
    smallest power of two of which 511 multiples reach it, as with the nine bits of a bound
    of a CHERIoT capability. *)

Definition reaches (e n : Z) : bool := rounded n (2 ^ e) <=? 511 * 2 ^ e.

Fixpoint least_exponent (fuel : nat) (e n : Z) : Z :=
  match fuel with
  | O => e
  | S fuel => if reaches e n then e else least_exponent fuel (e + 1) n
  end.

Definition granule_exponent (n : Z) : Z := least_exponent 24 0 n.
Definition rounded_length (n : Z) : Z := u32 (rounded n (2 ^ granule_exponent n)).
Definition granule_mask (n : Z) : Z := 2 ^ 32 - 2 ^ granule_exponent n.

Lemma least_exponent_ok fuel e n : 0 <= e -> e <= least_exponent fuel e n <= e + Z.of_nat fuel.
Proof.
  revert e. induction fuel as [|fuel IH]; intros e He; cbn [least_exponent]; [lia|].
  destruct (reaches e n); [lia|]. specialize (IH (e + 1) ltac:(lia)). lia.
Qed.

(** The search stops no later than at an exponent that reaches the length. *)
Lemma least_exponent_le fuel e k n : 0 <= e <= k -> k <= e + Z.of_nat fuel -> reaches k n = true ->
  least_exponent fuel e n <= k.
Proof.
  revert e. induction fuel as [|fuel IH]; intros e He Hk Hr; cbn [least_exponent]; [lia|].
  destruct (reaches e n) eqn:E; [lia|]. apply IH; [|lia|done].
  assert (e <> k) by congruence. lia.
Qed.

Lemma least_exponent_reaches fuel e k n : 0 <= e <= k -> k < e + Z.of_nat fuel -> reaches k n = true ->
  reaches (least_exponent fuel e n) n = true.
Proof.
  revert e. induction fuel as [|fuel IH]; intros e He Hk Hr; cbn [least_exponent]; [lia|].
  destruct (reaches e n) eqn:E; [done|]. assert (e <> k) by congruence. apply IH; (lia || done).
Qed.

Lemma reaches_le e n : 0 <= e -> n <= 510 * 2 ^ e -> reaches e n = true.
Proof.
  intros He Hn. unfold reaches. assert (0 < 2 ^ e) as Hp by (apply pow2_pos; lia).
  destruct (rounded_ok n (2 ^ e) Hp) as [Hr _]. apply Z.leb_le. lia.
Qed.

Lemma granule_exponent_range n : 0 <= granule_exponent n <= 24.
Proof. unfold granule_exponent. pose proof (least_exponent_ok 24 0 n ltac:(lia)). lia. Qed.

Lemma granule_exponent_max n : n <= MaxChunkSize -> granule_exponent n <= 11 /\ reaches (granule_exponent n) n = true.
Proof.
  intros Hn. assert (reaches 11 n = true) as Hr.
  { apply reaches_le; [lia|]. change MaxChunkSize with 524280 in Hn. lia. }
  split; [by apply least_exponent_le|by apply (least_exponent_reaches _ _ 11)].
Qed.

Lemma rounded_range n k j : 0 <= n < 2 ^ 32 -> 0 <= j <= 24 -> k = 2 ^ j -> n <= rounded n k <= 2 ^ 32.
Proof.
  intros Hn Hj ->. assert (0 < 2 ^ j) as Hp by (apply pow2_pos; lia).
  destruct (rounded_ok n (2 ^ j) Hp) as [[Hr1 Hr2] [m Em]]. split; [done|].
  assert (2 ^ 32 = 2 ^ (32 - j) * 2 ^ j) as E by (rewrite <- Z.pow_add_r by lia; f_equal; lia).
  rewrite Em in Hr2 |- *. rewrite E. apply Z.mul_le_mono_nonneg_r; [lia|].
  destruct (Z.le_gt_cases m (2 ^ (32 - j))); [done|]. exfalso.
  assert ((2 ^ (32 - j) + 1) * 2 ^ j <= m * 2 ^ j) by (apply Z.mul_le_mono_nonneg_r; lia). lia.
Qed.

Lemma rounded_id n k : 0 < k -> (k | n) -> rounded n k = n.
Proof.
  intros Hk [m ->]. unfold rounded. rewrite <- (Z.div_unique (m * k + k - 1) k m (k - 1)) by lia. lia.
Qed.

(** The rounded length is no larger than 511 granules of its own exponent, so rounding
    does not make the granule larger. *)
Lemma granule_stable n : 0 <= n <= MaxChunkSize ->
  granule_exponent (rounded (rounded n (2 ^ granule_exponent n)) 8) <= Z.max 3 (granule_exponent n).
Proof.
  intros Hn. destruct (granule_exponent_max n (proj2 Hn)) as [He Hr]. pose proof (granule_exponent_range n) as Hg.
  unfold reaches in Hr. apply Z.leb_le in Hr. set (e := granule_exponent n) in *.
  assert (0 < 2 ^ e) as Hp by (apply pow2_pos; lia). destruct (rounded_ok n (2 ^ e) Hp) as [_ Hd].
  set (m := rounded n (2 ^ e)) in *. destruct (Z.le_gt_cases e 3) as [Hle|Hgt].
  - rewrite Z.max_l by lia. apply least_exponent_le; [lia|lia|]. destruct (rounded_ok m 8) as [Hm8 H8]; [lia|].
    unfold reaches. change (2 ^ 3) with 8. rewrite rounded_id by (lia || done). apply Z.leb_le.
    destruct (Z.eq_dec e 3) as [E3|]; [|assert (2 ^ e <= 2 ^ 2) by (apply Z.pow_le_mono_r; lia); lia].
    rewrite E3 in Hr, Hd. rewrite rounded_id by (lia || done). lia.
  - rewrite Z.max_r by lia. assert ((8 | m)) as H8 by (change 8 with (2 ^ 3); apply (divide_pow 3 e); (lia || done)).
    rewrite (rounded_id m 8) by (lia || done). apply least_exponent_le; [lia|lia|].
    unfold reaches. rewrite rounded_id by (lia || done). by apply Z.leb_le.
Qed.

Section Cheriot.
Context {E : Env} (Hlength : forall n, representable_length n = rounded_length n)
  (Hmask : forall n, representable_alignment_mask n = granule_mask n).

Lemma cheriot_cheri : Cheri.
Proof.
  apply (Build_Cheri _ granule_exponent).
  - intros n [_ Hn]. pose proof (granule_exponent_range n). destruct (granule_exponent_max n Hn). lia.
  - intros n _. apply Hmask.
  - intros n Hn. rewrite Hlength. unfold rounded_length, u32. pose proof (granule_exponent_max n (proj2 Hn)) as [He Hr].
    pose proof (granule_exponent_range n) as Hg. unfold reaches in Hr. apply Z.leb_le in Hr.
    assert (2 ^ granule_exponent n <= 2 ^ 11) by (apply Z.pow_le_mono_r; lia).
    assert (0 < 2 ^ granule_exponent n) as Hp by (apply pow2_pos; lia). destruct (rounded_ok n _ Hp) as [? _].
    apply wrap_small. lia.
  - intros n Hn. unfold granule_exponent. cbn [least_exponent]. unfold reaches. change (2 ^ 0) with 1.
    rewrite rounded_id by (lia || by exists n; lia). by rewrite (proj2 (Z.leb_le _ _)) by lia.
  - intros n Hn. rewrite Hlength. unfold rounded_length, u32, wrap. change MaxChunkSize with 524280 in *.
    pose proof (rounded_range n (2 ^ granule_exponent n) (granule_exponent n) ltac:(lia) (granule_exponent_range n) eq_refl) as Hr.
    destruct (Z.eq_dec (rounded n (2 ^ granule_exponent n)) (2 ^ 32)) as [->|Hne]; [left; by apply Z.mod_same|right].
    rewrite Z.mod_small by lia. lia.
  - intros n Hn _. by apply granule_stable.
Defined.
End Cheriot.
