(* ===== verification/Reach.v ===== *)
(** * The initial state

    [mstate_init] of [main.cc] turns the heap's memory into one free chunk and the footer,
    and establishes the allocator's invariant. *)

From S2P Require Import Prelude LinkedList RingBuffer Bits AllocSizes ChunkHeader MState Bins SmallBins TreeBins TreeUnlink FreeLists TreeSelect Allocator Heap Release Malloc Accounts Quarantine Dequeue FreeOp Hazard MallocOp.

Section Init.
Context `{EnvOk} `{Hepoch : !Epochs}.
Implicit Types (s : MState) (F : gmap Z Z) (q : qstate).

Lemma ring_reset_ok p s : exists r, ring_reset p s = Ok (tt, with_rings r s) /\ ring r [p] /\
  (forall x, ring (rings s) [x] -> ring r [x]).
Proof.
  eexists. split; [reflexivity|]. split; [apply PtrAddrLaws.construct_ring|]. intros x Hx.
  destruct (decide (x = p)) as [->|Hne]; [apply PtrAddrLaws.construct_ring|].
  eapply ring_frame; [exact Hx|]. intros y ->%list_elem_of_singleton. by apply PtrAddrLaws.construct_keeps.
Qed.

Lemma each_reset_ok {A} (l : list A) (f : A -> Z) s : exists r,
  each l (fun i => ring_reset (f i)) s = Ok (tt, with_rings r s) /\ (forall i, i ∈ l -> ring r [f i]) /\
  (forall x, ring (rings s) [x] -> ring r [x]).
Proof.
  revert s. induction l as [|i l IH]; intros s; cbn [each].
  - exists (rings s). splits; [by destruct s|by intros i ?%elem_of_nil|done].
  - destruct (ring_reset_ok (f i) s) as (r & E & Hr & Hk). mrun E.
    destruct (IH (with_rings r s)) as (r' & E' & Hr' & Hk'). exists r'. splits; [exact E'| |].
    + intros j [->|Hj]%elem_of_cons; [by apply Hk'|by apply Hr'].
    + intros x Hx. by apply Hk', Hk.
Qed.

Lemma init_bins_ok s : exists r, init_bins s =
    Ok (tt, with_sizes (heapTotalSize s) (heapFreeSize s) 0 (with_pending (quarantinePendingEpoch s)
      (RingBuffer.reset 8 QuarantineRings) (with_rings r s))) /\
  (forall i, 0 <= i < NSmallBins -> ring r [smallbin_at i]) /\
  (forall ix, 0 <= ix < 2 -> ring r [quarantine_pending_get ix]) /\ ring r [quarantine_finished_get].
Proof.
  unfold init_bins.
  destruct (each_reset_ok (Z.of_nat <$> seq 0 (Z.to_nat NSmallBins)) smallbin_at s) as (r1 & E1 & R1 & _). mrun E1.
  destruct (each_reset_ok [0; 1] quarantine_pending_get (with_rings r1 s)) as (r2 & E2 & R2 & K2). mrun E2. mpure.
  match goal with |- context [(ring_reset _ ≫= _) ?s3] =>
    destruct (ring_reset_ok quarantine_finished_get s3) as (r3 & E3 & R3 & K3) end. mrun E3.
  exists r3. split; [reflexivity|]. split; [|split; [|done]].
  - intros i Hi. apply K3, K2, R1. apply list_elem_of_fmap. exists (Z.to_nat i). rewrite elem_of_seq. lia.
  - intros ix Hix. apply K3, R2. rewrite !elem_of_cons. lia.
Qed.

(** Nothing is in quarantine. *)
Definition no_quarantine : qstate := mkQ [] (fun _ => 0) (fun _ => []) [].

Lemma empty_binned s : (forall i, 0 <= i < NSmallBins -> ring (rings s) [smallbin_at i]) ->
  smallmap s = 0 -> treemap s = 0 -> treebins s = replicate (Z.to_nat NTreeBins) 0 -> binned s ∅.
Proof.
  intros Hr Hsm Htm Htb. exists (mkBins (fun _ => []) (fun _ => Leaf)). split.
  - split.
    + intros i Hi. cbn [small]. unfold small_ok. rewrite Hsm. splits; [by apply Hr|done|by rewrite Z.testbit_0_l|lia|lia].
    + intros i Hi. cbn [tre]. unfold tree_ok. rewrite Htm, Htb. splits; try done.
      * apply lookup_replicate_2. lia.
      * apply NoDup_nil_2.
      * by rewrite Z.testbit_0_l.
    + unfold maps_ok. rewrite Hsm, Htm. split; intros j _; apply Z.testbit_0_l.
  - intros b sz. rewrite lookup_empty. split; [done|].
    intros [(i & _ & Hb & _)|(i & _ & Hb)]; cbn in Hb; by apply elem_of_nil in Hb.
Qed.

(** The size of the heap once the [MState] and the hazard quarantine are taken off. *)
Definition heap_size : Z := heap_top - heap_base - pad_request sizeof_MState - 8 * Z.of_nat hazard_count.

(** The one free chunk, and its list. *)
Definition init_chunks : list chunk := [free_chunk (heap_size - sizeof_header); footer_chunk].
Definition init_frees : gmap Z Z := {[heap_address + sizeof_header := heap_size - sizeof_header]}.

Lemma init_arena {P : Painted} s : layout (hdrs (heap s)) heap_address 0 init_chunks ->
  sizes_ok heap_address init_chunks ->
  shadow (heap s) = {[heap_address + (heap_size - sizeof_header)]} ∪ ({[heap_address]} ∪ ∅) ->
  arena_ok s init_chunks.
Proof.
  intros Hl Hs Hsh. split; [exact Hl|exact Hs| |].
  - intros b. cbn [placed init_chunks fmap list_fmap fst csize free_chunk]. rewrite !elem_of_cons, elem_of_nil.
    rewrite Hsh. set_solver by lia.
  - intros x. rewrite Hsh.
    cbn [placed init_chunks fmap list_fmap fst csize free_chunk]. rewrite !elem_of_cons, elem_of_nil.
    intros [->%elem_of_singleton|[->%elem_of_singleton|[]%elem_of_empty]%elem_of_union]%elem_of_union; left; lia.
Qed.

Lemma init_quar s : quarantinePendingRing s = RingBuffer.reset 8 2 -> length (quarantinePendingEpoch s) = 2%nat ->
  (forall ix, 0 <= ix < 2 -> ring (rings s) [quarantine_pending_get ix]) ->
  ring (rings s) [quarantine_finished_get] -> quar_ok s no_quarantine.
Proof.
  intros Er Ee Rp Rf. split; cbn [qixs qheld qfin qstamp no_quarantine]; try done.
  { rewrite Er. by apply live_reset, ring2_fits. }
  all: try (by intros ix ?%elem_of_nil). all: try by constructor.
Qed.

(** The state once the chunk is in its bin. *)
Lemma init_alloc s s' : heap_size mod 8 = 0 -> MinChunkSize + sizeof_header <= heap_size <= MaxChunkSize ->
  arena_ok (P := paint []) s init_chunks -> binned s' init_frees ->
  bins_frame s s' (fun x => x = heap_address + 8) -> quar_ok s no_quarantine ->
  heapTotalSize s = heap_size -> heapFreeSize s = heap_size - sizeof_header -> heapQuarantineSize s = 0 ->
  hazardQuarantine s = [] -> lockWord s = 0 -> alloc_ok s' init_chunks init_frees no_quarantine.
Proof.
  intros H8 [Hmin Hmax] Ha Hb Hfr Hq Et Ef Eq Eh El. change sizeof_header with 8 in *.
  change MinChunkSize with 16 in *. change MaxChunkSize with 524280 in *.
  pose proof (touches_bins _ _ _ Hfr) as T. destruct Hfr as [Ho Hk]. pose proof (only_bins_heap _ _ Ho) as Ehp.
  pose proof Ho as (r & tc & tb & sm & tm & Es).
  assert (size_ok (heap_size - 8)) as Hsz.
  { split; [change MinChunkSize with 16; change MaxChunkSize with 524280; lia|by apply mod8_sub]. }
  split.
  - split.
    + split; [by apply (arena_only s)|done| | | |done].
      * repeat constructor; by intros.
      * cbn. right. split; [done|]. by left.
      * cbn [placed init_chunks csize free_chunk]. change sizeof_header with 8. unfold init_frees.
        rewrite <- insert_empty. change sizeof_header with 8.
        apply (frees_insert (heap_address + 8) (free_chunk (heap_size - 8))); [cbn; set_solver by lia|done|].
        apply frees_used; [done|]. intros b sz. rewrite lookup_empty. split; [done|]. by intros (c & ?%elem_of_nil & _).
    + apply (quar_frame s _ no_quarantine); [|by rewrite Es..|done]. intros x Hx.
      apply Hk. split.
      * intros ->. destruct Hx as [Hx|Hx]; [|by apply elem_of_nil in Hx].
        apply quar_sentinel_apart in Hx as [Hx _]. apply Hx. 
        destruct (arena_range (P := paint []) s [] _ _ Ha) as (_ & _ & _ & Hh & _).
        change (total []) with 0 in Hh. by rewrite Z.add_0_r in Hh.
      * destruct Hx as [Hx|Hx]; [|by apply elem_of_nil in Hx]. by apply quar_sentinel_apart in Hx as [_ ?].
    + constructor.
    + by intros w ?%elem_of_nil.
    + rewrite Es. cbn [heapTotalSize with_rings with_tchunks with_treebins with_maps]. rewrite Et.
      unfold init_chunks. rewrite !total_cons. cbn [csize free_chunk footer_chunk total foldr].
      change sizeof_header with 8. lia.
    + rewrite Es. cbn [heapFreeSize with_rings with_tchunks with_treebins with_maps]. rewrite Ef.
      unfold init_chunks. rewrite !total_free_cons. cbn [csize cuse free_chunk footer_chunk total_free foldr].
      change sizeof_header with 8. lia.
    + by rewrite Es.
  - rewrite Es. cbn. rewrite Eh. split; constructor.
  - rewrite Es. unfold unlocked. cbn. rewrite El. done.
Qed.

Lemma mstate_init_ok :
  is_aligned heap_base = true -> is_aligned (heap_top - heap_base) = true ->
  heap_address = heap_base + pad_request sizeof_MState + 8 * Z.of_nat hazard_count ->
  MinChunkSize + sizeof_header <= heap_size -> heap_top - heap_base <= MaxChunkSize ->
  exists s, mstate_init zero_state = Ok (true, s) /\
    alloc_ok s init_chunks init_frees no_quarantine /\
    allocated init_chunks no_quarantine = [(heap_address + heap_size, strip footer_chunk)].
Proof.
  intros Ab At Ea Hmin Hmax. pose proof base_below. pose proof ms_below. pose proof heap_below. pose proof address_aligned.
  assert (heap_size = heap_top - heap_address) as Esz by (unfold heap_size; lia).
  assert (heap_size mod 8 = 0) as H8.
  { unfold is_aligned in Ab, At. rewrite land_mask in Ab by lia. rewrite land_mask in At by lia.
    apply Z.eqb_eq in Ab, At. replace heap_size with (heap_top - heap_base + heap_base - heap_address) by lia.
    apply mod8_sub; [by apply mod8_add|done]. }
  change MinChunkSize with 16 in Hmin. change MaxChunkSize with 524280 in Hmax. change sizeof_header with 8 in Hmin.
  unfold mstate_init. rewrite Ab, At. cbn [andb negb].
  rewrite (proj2 (Z.ltb_ge _ _)) by (change MinChunkSize with 16; change sizeof_header with 8; unfold heap_size in *; lia).
  rewrite (proj2 (Z.ltb_ge _ _)) by (change MaxChunkSize with 524280; lia). cbn [orb].
  destruct (init_bins_ok zero_state) as (r & E1 & Rs & Rp & Rf). mrun E1.
  fold heap_size. unfold mspace_firstchunk_add. rewrite M_assoc. mpure. cbn [id].
  rewrite M_assoc. 
  match goal with |- context [(massert ?b ≫= _) ?s1] => mrun (massert_ok b s1 eq_refl); set (s1' := s1) end.
  destruct (make_layout (heap s1') heap_address heap_size) as (ar & Em & Hl & Hs & Hsh);
    [lia|lia|done|change MaxChunkSize with 524280; lia|].
  fold init_chunks in Hl, Hs. cbn [heap s1' with_sizes with_pending with_rings zero_state shadow] in Hsh.
  rewrite M_assoc. rewrite (M_bind_ok _ _ s1' heap_address (with_heap ar s1')) by (by rewrite Em).
  set (s2 := with_sizes heap_size (heap_size - 8) 0 (with_heap ar s1')).
  assert (forall P : Painted, arena_ok (P := P) s2 init_chunks) as Ha by (by intros P; apply init_arena).
  assert (chunk_size heap_address (with_heap ar s1') = Ok (heap_size - 8, with_heap ar s1')) as E2'.
  { pose proof (arena_only s2 (with_heap ar s1') init_chunks eq_refl (Ha (fun _ => False))) as Ha'.
    pose proof (arena_size _ [] _ _ Ha') as E2'. change (total []) with 0 in E2'. by rewrite Z.add_0_r in E2'. }
  rewrite M_assoc. mrun E2'. rewrite M_assoc. mpure.
  cbn [heapTotalSize heapFreeSize heapQuarantineSize with_heap s1' with_sizes with_pending with_rings zero_state].
  unfold u32. rewrite !wrap_small by lia. rewrite !Z.add_0_l. fold s1'. 
  change (with_sizes heap_size (heap_size - 8) 0 (with_heap ar s1')) with s2.
  destruct (arena_range (P := fun _ => False) s2 [] _ _ (Ha _)) as (_ & _ & _ & Hh & Eb & _).
  change (total []) with 0 in *. rewrite Z.add_0_r in *.
  assert (binned s2 ∅) as Hb0 by (by apply empty_binned).
  destruct (insert_chunk_ok s2 ∅ heap_address (heap_size - 8) Hb0) as (s3 & E3 & Hb3 & Hfr).
  { done. }
  { rewrite Eb. pose proof (arena_chunk_of (P := fun _ => False) s2 [] _ _ (Ha _)) as Hc.
    change (total []) with 0 in Hc. rewrite Z.add_0_r in Hc. exact Hc. }
  { unfold size_ok. change MinChunkSize with 16. change MaxChunkSize with 524280. split; [lia|]. by apply mod8_sub. }
  mrun E3.
  eexists. split; [reflexivity|]. split.
  - apply (init_alloc s2); try done.
    + change (16 + 8 <= heap_size <= 524280). lia.
    + rewrite Eb, insert_empty in Hb3. exact Hb3.
    + destruct Hfr as [Ho Hk]. split; [done|]. intros q [Hq1 Hq2]. apply Hk. split; [|done].
      intros [[? ?]| ->]; [done|]. by rewrite Eb in Hq1.
    + by apply init_quar.
  - unfold allocated, init_chunks. rewrite !used_cons. cbn [csize cuse free_chunk footer_chunk app].
    change sizeof_header with 8. replace (heap_address + (heap_size - 8) + 8) with (heap_address + heap_size) by lia.
    done.
Qed.
End Init.

(** * Every state of the allocator

    The states the allocator goes through: what [mstate_init] makes, and what calls of
    [mspace_malloc] and [mspace_free] make of these, whatever the requests, the revoker and
    the hazard pointers are.  All of them satisfy the invariant. *)

(** How [main.cc] lays out the heap's region. *)
Class Configured `{Env} : Prop := {
  cf_base : is_aligned heap_base = true;
  cf_size : is_aligned (heap_top - heap_base) = true;
  cf_address : heap_address = heap_base + pad_request sizeof_MState + 8 * Z.of_nat hazard_count;
  cf_min : MinChunkSize + sizeof_header <= heap_size;
  cf_max : heap_top - heap_base <= MaxChunkSize;
}.

Section Reach.
Context `{EnvOk} `{Hepoch : !Epochs} `{Hconf : !Configured}.
Implicit Types (s : MState) (F : gmap Z Z) (q : qstate).

(** The owner of an allocated chunk frees it, once: nobody claims the chunk, and it is not
    in the hazard quarantine; [n] bytes of it are zeroed. *)
Definition may_free s (b n : Z) : Prop :=
  exists l F q c, alloc_ok s l F q /\ freeable l q b c /\ 0 <= n <= csize c - sizeof_header /\ n mod 8 = 0 /\
    is_precise_range b n = true /\ b ∉ cbase <$> hazardQuarantine s /\
    (length (hazardQuarantine s) < hazard_count)%nat.

Definition may_request (bytes : Z) : Prop := 0 <= bytes < 2 ^ 32 - 32.

Inductive reached : MState -> Prop :=
| reached_init s : mstate_init zero_state = Ok (true, s) -> reached s
| reached_malloc s bytes p s' : reached s -> may_request bytes -> mspace_malloc bytes s = Ok (p, s') -> reached s'
| reached_free s b n r s' : reached s -> may_free s b n -> mspace_free (from_body b) n s = Ok (r, s') -> reached s'.

Lemma init_reached : exists s, mstate_init zero_state = Ok (true, s) /\
  alloc_ok s init_chunks init_frees no_quarantine.
Proof.
  destruct mstate_init_ok as (s & E & Ha & _); [apply cf_base|apply cf_size|apply cf_address|apply cf_min|apply cf_max|].
  by exists s.
Qed.

Lemma reached_alloc_ok s : reached s -> exists l F q, alloc_ok s l F q.
Proof.
  induction 1 as [s E|s bytes p s' _ (l & F & q & Ha) Hb E|s b n r s' _ _ (l & F & q & c & Ha & Hf & Hn & Hn8 & Hp & Hh & Hl) E].
  - destruct init_reached as (s' & E' & Ha). rewrite E in E'. injection E' as ->.
    by exists init_chunks, init_frees, no_quarantine.
  - destruct (mspace_malloc_ok _ _ _ _ _ Ha Hb) as (p' & s2 & l' & F' & q' & E' & Ha' & _).
    rewrite E in E'. injection E' as -> ->. by exists l', F', q'.
  - destruct (mspace_free_spec _ _ _ _ _ _ _ Ha Hf Hn Hn8 Hp Hh Hl) as (s2 & l' & F' & q' & gone & E' & Ha' & _).
    rewrite E in E'. injection E' as -> ->. by exists l', F', q'.
Qed.

(** Two allocated chunks do not overlap. *)
Lemma allocated_disjoint l q b c b' c' : Forall chunk_ok l ->
  (b, c) ∈ allocated l q -> (b', c') ∈ allocated l q -> b <> b' ->
  b + csize c <= b' \/ b' + csize c' <= b.
Proof.
  intros Hl [_ (d & Hd & _ & ->)%elem_of_used]%list_elem_of_filter [_ (d' & Hd' & _ & ->)%elem_of_used]%list_elem_of_filter Hne.
  pose proof Hd as (l1 & l2 & -> & Eb)%placed_split. pose proof (placed_between _ _ _ _ _ _ Hl Hd') as [Hle|Hge];
    [|left; cbn; lia].
  right. cbn. apply placed_split in Hd' as (k1 & k2 & El & Eb').
  rewrite El in Hd. assert (Forall chunk_ok (k1 ++ d' :: k2)) as Hl' by (by rewrite <- El).
  pose proof (placed_between _ _ _ _ _ _ Hl' Hd). lia.
Qed.
End Reach.
