(* ===== verification/Owns.v ===== *)
(** * The allocator as its clients see it

    [owns s al]: the invariant holds and [al] are the allocated chunks.  What the calls of
    the allocator do to [al], without the tiling, the free lists and the quarantine. *)

From S2P Require Import Prelude LinkedList RingBuffer Bits AllocSizes ChunkHeader MState Bins SmallBins TreeBins TreeUnlink FreeLists TreeSelect Allocator Heap Release Malloc Accounts Quarantine Dequeue FreeOp Hazard MallocOp Memalign Sanity Label Dispatch Reach.

Section Owns.
Context `{EnvOk} `{Hepoch : !Epochs} `{Hcheri : !Cheri}.
Implicit Types (s : MState) (al : list (Z * chunk)).

Definition owns s al : Prop := exists l F q, alloc_ok s l F q /\ al ≡ₚ allocated l q.

#[export] Instance owns_perm s : Proper ((≡ₚ) ==> iff) (owns s).
Proof. intros a1 a2 E. split; intros (l & F & q & Ha & P); exists l, F, q; (split; [done|]); [by rewrite <- E|by rewrite E]. Qed.

Lemma owns_nodup s al : owns s al -> NoDup al.*1.
Proof. intros (l & F & q & Ha & ->). apply allocated_NoDup. by eapply alloc_sizes. Qed.

(** Two chunks do not overlap, and the header of each is its own. *)
Lemma owns_apart s al b d b' d' : owns s al -> (b, d) ∈ al -> (b', d') ∈ al -> b <> b' ->
  b + csize d <= b' \/ b' + csize d' <= b.
Proof. intros (l & F & q & Ha & E). rewrite E. apply allocated_disjoint. by eapply alloc_sizes. Qed.

Record block_ok (b : Z) (d : chunk) : Prop := {
  bk_above : heap_address + 8 <= b;
  bk_below : b - 8 + csize d <= heap_address + MaxChunkSize;
  bk_body : b mod 8 = 0;
  bk_size : csize d mod 8 = 0 /\ 8 <= csize d <= MaxChunkSize;
  bk_from : from_body b = b - 8;
  bk_to : body (from_body b) = b;
  bk_true : truth (from_body b) = true;
}.

Lemma owns_block s al b d : owns s al -> (b, d) ∈ al -> block_ok b d.
Proof.
  intros (l & F & q & Ha & E) Hb. rewrite E in Hb. pose proof (al_state _ _ _ _ Ha) as So.
  destruct (allocated_size _ _ _ _ _ _ _ So Hb) as (H8 & Hr & _).
  apply list_elem_of_filter in Hb as [_ (c & Hc & _ & ->)%elem_of_used].
  pose proof (ho_arena _ _ _ (so_heap _ _ _ _ _ So)) as Har. apply placed_split in Hc as (l1 & l2 & -> & ->).
  destruct (arena_range _ _ _ _ Har) as (R1 & R2 & R3 & R4 & R5 & R6 & R7). change sizeof_header with 8.
  pose proof (ao_sizes _ _ Har) as (Hall & Ht & _). rewrite total_app, total_cons in Ht.
  apply Forall_app in Hall as [_ [_ Hl2]%Forall_cons]. pose proof (total_nonneg _ Hl2). cbn [csize strip with_cpin] in *.
  split; rewrite ?R6; cbn [csize strip with_cpin]; try done; try lia.
  - by apply mod8_add.
  - split; [done|]. pose proof (Z.div_mod (csize c) 8). lia.
Qed.

(** A chunk of eight bytes is the footer, and the others are below it. *)
Lemma owns_below s al t fd b d : owns s al -> (t, fd) ∈ al -> csize fd = sizeof_header -> (b, d) ∈ al -> b <> t ->
  b + csize d <= t.
Proof.
  intros (l & F & q & Ha & E) Ht Hs Hb Hne. rewrite E in Ht, Hb. pose proof (alloc_sizes _ _ _ _ Ha) as Hl.
  pose proof (al_state _ _ _ _ Ha) as So. pose proof (ho_footed _ _ _ (so_heap _ _ _ _ _ So)) as Hf.
  apply list_elem_of_filter in Ht as [_ (ft & Ht & _ & ->)%elem_of_used].
  apply list_elem_of_filter in Hb as [_ (c & Hc & _ & ->)%elem_of_used]. cbn [csize strip with_cpin] in *.
  pose proof Ht as (l1 & l2 & -> & Et)%placed_split. apply footed_app in Hf as [_ [(-> & _)|[[Hm _] _]]];
    [|rewrite Hs in Hm; change MinChunkSize with 16 in Hm; change sizeof_header with 8 in Hm; lia|done].
  revert Hc. rewrite placed_app. cbn [placed].
  rewrite elem_of_app, list_elem_of_singleton. intros [Hc|[= -> _]]; [|lia].
  apply placed_range in Hc; [|by apply Forall_app in Hl as [? _]]. lia.
Qed.

(** The header of an allocated chunk. *)
Record header_says (h : MChunkHeader) (d : chunk) : Prop := {
  hs_owner : ownerID h = cowner d;
  hs_claims : claims h = cclaims d;
  hs_sealed : isSealedObject h = csealed d;
  hs_use : is_in_use h = true;
  hs_size : size_get h = csize d;
}.

Lemma owns_header s al b d : owns s al -> (b, d) ∈ al ->
  exists h, header (heap s) (from_body b) = Ok h /\ header_says h d.
Proof.
  intros (l & F & q & Ha & E) Hb. rewrite E in Hb. pose proof (al_state _ _ _ _ Ha) as So.
  apply list_elem_of_filter in Hb as [_ (c & Hc & Hu & ->)%elem_of_used].
  pose proof (ho_arena _ _ _ (so_heap _ _ _ _ _ So)) as Har. apply placed_split in Hc as (l1 & l2 & -> & ->).
  destruct (arena_range _ _ _ _ Har) as (_ & _ & _ & _ & _ & Ef & _). change 8 with sizeof_header in Ef.
  rewrite Ef. eexists. split; [by apply (header_layout _ _ _ _ _ _ (ao_layout _ _ Har))|].
  split; try done. cbn [csize strip with_cpin]. by eapply arena_size_get.
Qed.

Lemma owns_chunk_header s al b d : owns s al -> (b, d) ∈ al ->
  exists h, chunk_header (from_body b) s = Ok (h, s) /\ header_says h d.
Proof.
  intros Ho Hb. destruct (owns_header s al b d Ho Hb) as (h & E & Hs). exists h. split; [by apply reads_ok|done].
Qed.

Lemma owns_size s al b d : owns s al -> (b, d) ∈ al -> chunk_size (from_body b) s = Ok (csize d, s).
Proof.
  intros Ho Hb. destruct (owns_chunk_header s al b d Ho Hb) as (h & E & Hs). unfold chunk_size. mrun E.
  by rewrite (hs_size _ _ Hs).
Qed.

Lemma owns_label s b d rest f g : owns s ((b, d) :: rest) -> label f g -> 0 <= cclaims (g d) ->
  exists h, on_heap (fun a => hupd a (from_body b) f) s = Ok (tt, with_heap h s) /\
    owns (with_heap h s) ((b, g d) :: rest).
Proof.
  intros (l & F & q & Ha & E) Lb Hc. assert ((b, d) ∈ allocated l q) as Hb by (rewrite <- E; left).
  destruct (alloc_label s l F q b d f g Ha Hb Lb Hc) as (h & l' & E' & Ha' & r & P1 & P2).
  exists h. split; [done|]. exists l', F, q. split; [done|]. rewrite P2. f_equiv.
  apply (Permutation_cons_inv (a := (b, d))). by rewrite E, P1.
Qed.

(** Which of its bytes [chunk_body_size] gives to the body. *)
Lemma owns_body_size s al b d : owns s al -> (b, d) ∈ al -> 2 * sizeof_header <= csize d \/ is_precise_range b 0 = true ->
  is_precise_range b (body_length b d) = true ->
  chunk_body_size (from_body b) s = Ok (body_length b d, s).
Proof.
  intros Ho Hb Hs Hp. destruct (owns_chunk_header s al b d Ho Hb) as (h & E & Hh). unfold chunk_body_size. mrun E.
  destruct (owns_block s al b d Ho Hb) as [_ _ _ [_ Hr] _ Eb _]. rewrite (hs_size _ _ Hh), Eb.
  change sizeof_header with 8 in *. change MaxChunkSize with 524280 in Hr. change MallocAlignment with 8.
  cbv zeta. assert (u32 (csize d - 8) = csize d - 8) as -> by (apply wrap_small; lia). unfold body_length in *. change sizeof_header with 8 in *.
  destruct (is_precise_range b (csize d - 8)) eqn:Epr; [done|].
  assert (16 <= csize d) as H16.
  { destruct (bk_size _ _ (owns_block s al b d Ho Hb)) as [H8 _]. pose proof (Z.div_mod (csize d) 8 ltac:(lia)).
    destruct (Z.eq_dec (csize d) 8) as [E8|]; [|lia]. rewrite E8 in Epr. change (8 - 8) with 0 in Epr.
    destruct Hs; [lia|congruence]. }
  assert (u32 (csize d - 8 - 8) = csize d - 2 * 8) as -> by (unfold u32; rewrite wrap_small; lia).
  by mrun (massert_ok _ s Hp).
Qed.

(** ** The calls *)

(** What a call that frees the chunks [gone] leaves. *)
Definition leaves s al gone s' al' : Prop :=
  owns s' al' /\ al ≡ₚ gone ++ al' /\ frees_only gone s s' /\ (readings s <= readings s')%nat.

Definition freed_or_held s al (b n : Z) (d : chunk) gone s' : Prop :=
  exists others hq, settled s al others (hazardQuarantine s) hq /\
    ((gone = others ++ [(b, d)] /\ hazardQuarantine s' = hq /\ unhazarded s (body_cap b n)) \/
     (gone = others /\ hazardQuarantine s' = hq ++ [body_cap b n] /\ hazarded s (body_cap b n))).

Lemma settled_perm s al al' gone hq hq' : al ≡ₚ al' -> settled s al gone hq hq' -> settled s al' gone hq hq'.
Proof.
  intros E (H1 & H2 & H3 & H4). unfold settled. splits; [done|done|done|]. eapply Forall_impl; [exact H4|].
  intros h [?|[(? & d & Hd & ?)|?]]; [by left|right; left; split; [done|]; exists d; by rewrite <- E|by right; right].
Qed.

Lemma owns_free s al b d n : owns s al -> (b, d) ∈ al -> cclaims d = 0 -> MinChunkSize <= csize d ->
  0 <= n <= csize d - sizeof_header -> n mod 8 = 0 -> is_precise_range b n = true ->
  b ∉ cbase <$> hazardQuarantine s -> (length (hazardQuarantine s) < hazard_count)%nat ->
  exists s' al' gone, mspace_free (from_body b) n s = Ok (0, s') /\ leaves s al gone s' al' /\
    freed_or_held s al b n d gone s'.
Proof.
  intros (l & F & q & Ha & E) Hb Hc Hs Hn H8 Hp Hh Hl. rewrite E in Hb.
  destruct (allocated_freeable l q b d Hb Hc Hs) as (c & <- & Hf).
  destruct (mspace_free_spec s l F q b c n Ha Hf Hn H8 Hp Hh Hl) as (s' & l' & F' & q' & gone & E' & Ha' & Hp' & Ho & Hk & Hr).
  exists s', (allocated l' q'), gone. splits; [done| |].
  - unfold leaves. splits; [by exists l', F', q'|by rewrite E|done|done].
  - destruct Ho as (others & hq & Hset & Ho). exists others, hq. split; [|done]. by eapply settled_perm.
Qed.

(** What becomes of a request. *)
Definition answer (bytes quota o : Z) (sealed : bool) (al : list (Z * chunk)) r quota' s' (al' : list (Z * chunk)) : Prop :=
  match r with
  | AllocationSuccess c => exists b d, c = mkCap b (body_length b d) true false /\ al' = (b, d) :: al /\
      bytes <= body_length b d /\ is_precise_range b (body_length b d) = true /\ cowner d = o /\ csealed d = sealed /\
      cclaims d = 0 /\ MinChunkSize <= csize d /\ quota' = quota - csize d /\ 0 <= quota'
  | _ => al' = al /\ quota' = quota /\ refused_for bytes quota r s'
  end.

Lemma owns_dispatch s al bytes quota o sealed :
  owns s al -> 0 <= bytes < 2 ^ 32 -> 0 <= quota < 2 ^ 32 -> 0 <= o < 2 ^ 13 ->
  exists r quota' s' al' gone rest, mspace_dispatch bytes quota o sealed s = Ok ((r, quota'), s') /\
    owns s' al' /\ al ≡ₚ gone ++ rest /\ quiet_but al gone s s' /\ answer bytes quota o sealed rest r quota' s' al'.
Proof.
  intros (l & F & q & Ha & E) Hb Hq Ho.
  destruct (mspace_dispatch_ok s l F q bytes quota o sealed Ha Hb Hq Ho) as
    (r & quota' & s' & l' & F' & q' & gone & rest & E' & Ha' & Hp & (Hset & Hcl & Hr) & Hout).
  assert (exists al', al' ≡ₚ allocated l' q' /\ answer bytes quota o sealed rest r quota' s' al') as (al' & Ep & Han).
  { pose proof (outcome_refused _ _ _ _ _ _ _ _ _ _ _ Ha' Hout) as Hwhy. unfold answer. destruct r.
    1-4: exists rest; destruct Hwhy as (P & -> & Hwhy); by rewrite P.
    - cbn in Hout. destruct Hout as (b & d & -> & P & Hout). exists ((b, d) :: rest). split; [by rewrite P|]. exists b, d. tauto. }
  exists r, quota', s', al', gone, rest. splits; [done|by exists l', F', q'|by rewrite E| |done].
  unfold quiet_but. splits; [by eapply settled_perm|done|done].
Qed.

(** A chunk that waited for a whole revocation pass may go back to the free lists. *)
Lemma owns_dequeue s al : owns s al -> exists b s', quarantine_dequeue s = Ok (b, s') /\ owns s' al /\
  hazardQuarantine s' = hazardQuarantine s /\ claimcells s' = claimcells s /\ (readings s <= readings s')%nat /\
  heapQuarantineSize s' + (if b then 1 else 0) <= heapQuarantineSize s.
Proof.
  intros (l & F & q & Ha & E). pose proof (al_state _ _ _ _ Ha) as So.
  destruct (qtbin_deqn_ok 4 s l F q So) as (gone & s' & l' & F' & q' & E' & So' & Hl & Hk & _ & Hm & _).
  pose proof Hk as (K1 & K2 & K3 & K4 & K5). unfold quarantine_dequeue. mrun E'.
  eexists _, s'. splits; [reflexivity| |done|done|done|].
  - exists l', F', q'. split; [|by rewrite Hl]. eapply (alloc_kept _ _ _ _ _ _ _ _ []); [exact Ha|done|done|by rewrite Hl].
  - destruct gone as [|w gone]; [rewrite (proj2 (Z.ltb_ge _ _)) by (cbn; lia); lia|]. rewrite (so_quarantine _ _ _ _ _ So), (so_quarantine _ _ _ _ _ So').
    destruct (so_chunks _ _ _ _ _ So w) as (_ & _ & _ & _ & Hw); [rewrite Hm; left|]. change MinChunkSize with 16 in Hw.
    unfold sizes_of. rewrite Hm, fmap_app, qsum_app. cbn [fmap list_fmap]. rewrite qsum_cons. cbn [snd].
    assert (0 <= qsum ((fun w => (wbody w, wsize w)) <$> gone)).
    { apply qsum_nonneg, Forall_forall. intros x (v & -> & Hv)%list_elem_of_fmap.
      destruct (so_chunks _ _ _ _ _ So v) as (_ & _ & _ & _ & Hs); [rewrite Hm, elem_of_app; left; by right|].
      change MinChunkSize with 16 in Hs. cbn. lia. }
    rewrite (proj2 (Z.ltb_lt _ _)) by (cbn; lia). lia.
Qed.

Lemma owns_counters s al sc rd kk : owns s al -> (readings s <= rd)%nat -> owns (with_counters sc rd kk s) al.
Proof. intros (l & F & q & Ha & E) Hrd. exists l, F, q. split; [by apply alloc_counters|done]. Qed.

(** The bytes in quarantine and those of some chunks that are allocated fit the heap. *)
Lemma owns_pending s al hs : owns s al -> hs ⊆+ al -> 0 <= heapQuarantineSize s + weight hs <= MaxChunkSize.
Proof.
  intros Ho Hs. pose proof (owns_nodup s al Ho) as Hnd. destruct Ho as (l & F & q & Ha & E). pose proof (al_state _ _ _ _ Ha) as So.
  assert (forall e, e ∈ hs -> e ∈ allocated l q) as Hin by (intros e He; rewrite <- E; by eapply elem_of_submseteq).
  pose proof (bytes_bound _ _ _ _ So) as (B1 & B2 & _). split.
  { assert (0 <= weight hs); [|lia]. apply qsum_nonneg, Forall_forall. intros x ([b d] & -> & He)%list_elem_of_fmap.
    destruct (allocated_size _ _ _ _ _ _ _ So (Hin _ He)) as (_ & ? & _). cbn. lia. }
  pose proof (ao_sizes _ _ (ho_arena _ _ _ (so_heap _ _ _ _ _ So))) as (Hall & Ht & _). rewrite (so_quarantine _ _ _ _ _ So).
  pose proof (total_free_range _ Hall). unfold weight. rewrite <- qsum_app.
  assert (forall X : list (Z * Z), NoDup X.*1 -> X ⊆ used_sizes heap_address l -> qsum X <= MaxChunkSize) as Hq.
  { intros X X1 X2. pose proof (qsum_bound heap_address l X Hall X1 X2). lia. }
  apply Hq.
  - rewrite fmap_app. apply NoDup_app. splits.
    + unfold sizes_of. rewrite <- list_fmap_compose. apply (so_nodup _ _ _ _ _ So).
    + intros b Hb. rewrite <- list_fmap_compose. intros ([b' d] & -> & He)%list_elem_of_fmap.
      apply Hin in He. apply list_elem_of_filter in He as [Hn _]. apply Hn. unfold sizes_of in Hb. by rewrite <- list_fmap_compose in Hb.
    + rewrite <- list_fmap_compose. destruct (submseteq_Permutation _ _ Hs) as [k Hk]. rewrite Hk, fmap_app in Hnd.
      by apply NoDup_app in Hnd as [? _].
  - intros x [(w & -> & Hw)%list_elem_of_fmap|([b d] & -> & He)%list_elem_of_fmap]%elem_of_app.
    + destruct (so_chunks _ _ _ _ _ So w Hw) as (d & Hd & <- & _). apply list_elem_of_fmap. by exists (wbody w, d).
    + apply Hin in He. apply list_elem_of_filter in He as [_ He]. apply list_elem_of_fmap. by exists (b, d).
Qed.

(** ** Finding a chunk *)

(** A pointer into an allocated body finds its chunk. *)
Lemma find_mark_ok (ar : arena) p x n fuel : p mod 8 = 0 -> heap_address <= p -> x = p + 8 * Z.of_nat n ->
  mark_get ar p = true -> (forall k, (0 < k <= n)%nat -> mark_get ar (p + 8 * Z.of_nat k) = false) ->
  (n < fuel)%nat -> find_mark fuel ar x = Ok p.
Proof.
  intros Hp Hh. revert x fuel. induction n as [|n IH]; intros x fuel -> Hm Hno Hf; (destruct fuel as [|fuel]; [lia|]); cbn [find_mark].
  - rewrite Z.mul_0_r, Z.add_0_r, Hm. done.
  - rewrite Hno by lia. cbn [negb andb]. rewrite (proj2 (Z.ltb_lt _ _)) by lia.
    apply IH; [change MallocAlignment with 8; lia|done|intros k Hk; apply Hno; lia|lia].
Qed.

Lemma owns_unmarked s al b d x : owns s al -> (b, d) ∈ al -> b <= x < b - 8 + csize d -> x mod 8 = 0 ->
  mark_get (heap s) (b - 8) = true /\ mark_get (heap s) x = false.
Proof.
  intros (l & F & q & Ha & E) Hb Hx Hx8. rewrite E in Hb. pose proof (al_state _ _ _ _ Ha) as So.
  pose proof (ho_arena _ _ _ (so_heap _ _ _ _ _ So)) as Har. pose proof (alloc_sizes _ _ _ _ Ha) as Hl.
  apply list_elem_of_filter in Hb as [Hn (c & Hc & Hu & ->)%elem_of_used]. cbn [fst csize strip with_cpin] in *.
  assert ((b - 8) mod 8 = 0) as Hb8.
  { pose proof Hc as (l1 & l2 & -> & ->)%placed_split. destruct (arena_range _ _ _ _ Har) as (_ & _ & R & _).
    change sizeof_header with 8. replace (heap_address + total l1 + 8 - 8) with (heap_address + total l1) by lia. done. }
  rewrite !mark_get_ok by done. split.
  - apply bool_decide_eq_true. change 8 with sizeof_header. apply (ao_marked _ _ Har). apply list_elem_of_fmap. by exists (b, c).
  - apply bool_decide_eq_false. intros [Hin|(_ & w & Hw & Hwx)]%(ao_only _ _ Har).
    + apply list_elem_of_fmap in Hin as ([b' c'] & Eb & Hc'). cbn [fst] in Eb. change sizeof_header with 8 in Eb.
      pose proof Hc as (l1 & l2 & El & Eb1)%placed_split. rewrite El in Hc', Hl.
      pose proof (placed_between _ _ _ _ _ _ Hl Hc'). change sizeof_header with 8 in *. lia.
    + destruct (so_chunks _ _ _ _ _ So w Hw) as (d & (c' & Hc' & _ & ->)%elem_of_used & Hsz & _). cbn [csize strip with_cpin] in Hsz.
      assert (wbody w <> b) as Hne by (intros <-; apply Hn; apply list_elem_of_fmap; by exists w).
      pose proof Hc as (l1 & l2 & El & Eb1)%placed_split. pose proof Hc' as (k1 & k2 & Ek & Eb2)%placed_split.
      pose proof Hl as Hl2. rewrite El in Hc', Hl. rewrite Ek in Hc, Hl2.
      pose proof (placed_between _ _ _ _ _ _ Hl Hc'). pose proof (placed_between _ _ _ _ _ _ Hl2 Hc).
      change sizeof_header with 8 in *. lia.
Qed.

Lemma owns_end s al b d : owns s al -> (b, d) ∈ al -> MinChunkSize <= csize d ->
  mark_get (heap s) (b - 8 + csize d) = true /\ heap_address <= b - 8 + csize d.
Proof.
  intros Ho Hb Hm. pose proof (owns_block s al b d Ho Hb) as [Hlo _ Hb8 [Hs8 _] _ _ _].
  destruct Ho as (l & F & q & Ha & E). rewrite E in Hb. pose proof (al_state _ _ _ _ Ha) as So.
  pose proof (ho_arena _ _ _ (so_heap _ _ _ _ _ So)) as Har.
  apply list_elem_of_filter in Hb as [_ (c & Hc & _ & ->)%elem_of_used]. cbn [csize strip with_cpin] in *.
  apply placed_split in Hc as (l1 & l2 & -> & Eb). change sizeof_header with 8 in Eb. change MinChunkSize with 16 in Hm.
  pose proof (not_footer _ _ _ _ _ (so_heap _ _ _ _ _ So) Hm) as Hne. destruct l2 as [|e l2]; [done|].
  split; [|lia]. rewrite mark_get_ok by (apply mod8_add; [by apply mod8_sub|done]). apply bool_decide_eq_true.
  replace (b - 8 + csize c) with (heap_address + total (l1 ++ [c]) + sizeof_header - sizeof_header)
    by (rewrite total_snoc; change sizeof_header with 8; lia).
  apply (ao_marked _ _ Har). apply list_elem_of_fmap. exists (heap_address + total (l1 ++ [c]) + sizeof_header, e).
  split; [done|]. replace (l1 ++ c :: e :: l2) with ((l1 ++ [c]) ++ e :: l2) by (by rewrite <- app_assoc).
  apply placed_in.
Qed.

(** The end of a chunk, and what is not in the heap, have no chunk. *)
Lemma start_none x s : 0 <= x < 2 ^ 32 -> x < heap_address \/ heap_top + 8 <= x \/ (x mod 8 = 0 /\ mark_get (heap s) x = true) ->
  allocation_start x s = Ok (0, s).
Proof.
  intros Hx Ho. pose proof heap_below. pose proof address_aligned as Ha8. pose proof ms_below. pose proof base_below.
  unfold allocation_start. assert (Z.land x (u32 (Z.lnot MallocAlignMask)) = x - x mod 8) as ->.
  { change (u32 (Z.lnot MallocAlignMask)) with (u32 (-8)). by apply mask_down. }
  pose proof (Z.mod_pos_bound x 8 ltac:(lia)). destruct Ho as [Ho|[Ho|[E8 Hm]]].
  - by rewrite (proj2 (Z.ltb_lt _ _)) by lia.
  - rewrite (proj2 (Z.ltb_lt heap_top _)) by lia. by rewrite orb_true_r.
  - rewrite E8, Z.sub_0_r. destruct ((x <? heap_address) || (heap_top <? x)); [done|]. mpure. by rewrite Hm.
Qed.

Lemma owns_start s al b d x : owns s al -> (b, d) ∈ al -> b <= x < b - 8 + csize d -> b - 8 + csize d <= heap_top ->
  allocation_start x s = Ok (from_body b, s).
Proof.
  intros Ho Hb Hx Htop. pose proof (owns_block s al b d Ho Hb) as [Hlo Hhi Hb8 Hsz Ef Et _].
  pose proof heap_below as Hht. pose proof ms_below. pose proof base_below. pose proof address_aligned as Ha8.
  unfold allocation_start.
  assert (Z.land x (u32 (Z.lnot MallocAlignMask)) = x - x mod 8) as ->.
  { change (u32 (Z.lnot MallocAlignMask)) with (u32 (-8)). apply mask_down. split; lia. }
  set (y := x - x mod 8). assert (y mod 8 = 0) as Hy8.
  { unfold y. rewrite Zminus_mod, Z.mod_mod, Z.sub_diag by lia. done. }
  assert (b <= y <= x) as Hy.
  { unfold y. pose proof (Z.mod_pos_bound x 8 ltac:(lia)). split; [|lia].
    destruct (Z.le_gt_cases b (x - x mod 8)); [done|exfalso].
    pose proof (Z.div_mod x 8 ltac:(lia)). pose proof (Z.div_mod b 8 ltac:(lia)). lia. }
  rewrite (proj2 (Z.ltb_ge _ _)) by lia. rewrite (proj2 (Z.ltb_ge _ _)) by lia. cbn [orb]. mpure.
  destruct (owns_unmarked s al b d y Ho Hb) as [Hm Hy']; [lia|done|]. rewrite Hy'.
  destruct (owns_chunk_header s al b d Ho Hb) as (h & Eh & Hh).
  assert (find_mark (S (S (Z.to_nat ((y - heap_address) / MallocAlignment)))) (heap s) y = Ok (from_body b)) as E.
  { rewrite Ef. apply (find_mark_ok _ _ _ (Z.to_nat ((y - (b - 8)) / 8))); [by apply mod8_sub|lia| |done| |].
    - assert ((y - (b - 8)) mod 8 = 0) by (apply mod8_sub; [done|by apply mod8_sub]).
      pose proof (Z.div_mod (y - (b - 8)) 8 ltac:(lia)). pose proof (Z.div_pos (y - (b - 8)) 8). lia.
    - intros k Hk. pose proof (Z.div_mod (y - (b - 8)) 8 ltac:(lia)). pose proof (Z.mod_pos_bound (y - (b - 8)) 8 ltac:(lia)).
      eapply (owns_unmarked s al b d); [done|done|lia|]. apply mod8_add; [by apply mod8_sub|]. rewrite Z.mul_comm. apply Z.mod_mul. lia.
    - change MallocAlignment with 8. assert ((y - (b - 8)) / 8 <= (y - heap_address) / 8) by (apply Z.div_le_mono; lia).
      pose proof (Z.div_pos (y - (b - 8)) 8). lia. }
  mrun (reads_ok (fun s => find_mark (S (S (Z.to_nat ((y - heap_address) / MallocAlignment)))) (heap s) y) s _ E).
  mrun Eh. by rewrite (hs_use _ _ Hh).
Qed.
End Owns.
