(* ===== verification/HeapApi.v ===== *)
(** * The allocator's entry points

    The functions of [src/cheriot-rtos/sdk/core/allocator/main.cc] that other compartments
    call, with the claims they keep.  The state of the compartment is [Compartment]: the
    heap, the capability states it hands out identifiers to, and the futex on which threads
    wait for memory.  The lock of the compartment is held throughout an operation; where the
    code drops it, in the loop of [malloc_internal], what the other threads do meanwhile is
    an argument. *)

From S2P Require Import Prelude LinkedList RingBuffer Bits AllocSizes ChunkHeader MState Bins Allocator.

Definition QuotaIdentifierAllocatorOwned : Z := 0.
Definition OwnerIDWidth : Z := 13.
Definition sizeof_Claim : Z := 8.

Definition AllocatorPermitNone : Z := 0.
Definition AllocatorPermitAllocate : Z := 1.
Definition AllocatorPermitFreeAll : Z := 2.

Definition AllocateWaitRevocationNeeded : Z := 1.
Definition AllocateWaitQuotaExceeded : Z := 2.
Definition AllocateWaitHeapFull : Z := 4.

Record PrivateAllocatorCapabilityState : Type := mkPriv { quota : Z; identifier : Z }.

(** A sealed capability as the allocator uses it: its permissions, and the address of the
    state that [token_unseal] finds with the allocator's key, if it finds one. *)
Record AllocatorCapability : Type := mkAC { allocator_permissions : Z; token_unseal : option Z }.

Record Compartment : Type := mkComp {
  gm : option MState;
  capabilities : gmap Z PrivateAllocatorCapabilityState;
  nextIdentifier : Z;
  freeFutex : Z;
  (** How often threads that wait for memory have been woken. *)
  notifications : nat;
}.

Definition with_gm v g := mkComp v (capabilities g) (nextIdentifier g) (freeFutex g) (notifications g).
Definition with_capabilities v n g := mkComp (gm g) v n (freeFutex g) (notifications g).
Definition with_futex v n g := mkComp (gm g) (capabilities g) (nextIdentifier g) v n.

(** ** Computations of the compartment *)

Definition C (A : Type) : Type := Compartment -> outcome (A * Compartment).

#[export] Instance C_ret : MRet C := fun A a g => Ok (a, g).
#[export] Instance C_bind : MBind C := fun A B k m g => '(a, g) ← m g; k a g.

(** An operation of the heap; without one, a null pointer is dereferenced. *)
Definition on_gm {A} (m : M A) : C A := fun g =>
  s ← deref (gm g); '(a, s) ← m s; Ok (a, with_gm (Some s) g).

Definition capability_get (a : Z) : C PrivateAllocatorCapabilityState := fun g =>
  c ← deref (capabilities g !! a); Ok (c, g).

Definition quota_set (a v : Z) : C unit := fun g =>
  c ← deref (capabilities g !! a);
  Ok (tt, with_capabilities (<[a := mkPriv (u32 v) (identifier c)]> (capabilities g)) (nextIdentifier g) g).

Definition cgets {A} (f : Compartment -> A) : C A := fun g => Ok (f g, g).
Definition cmodify (f : Compartment -> Compartment) : C unit := fun g => Ok (tt, f g).
Definition cfails {A} (e : error) : C A := fun _ => Err e.
Definition futex_set (v : Z) : C unit := fun g => Ok (tt, with_futex v (notifications g) g).
Definition futex_notify_all : C unit := fun g => Ok (tt, with_futex (freeFutex g) (S (notifications g)) g).

Section HeapApi.
Context `{Env}.

Definition check_gm : C unit := fun g =>
  match gm g with
  | Some _ => Ok (tt, g)
  | None =>
      '(made, s) ← mstate_init zero_state;
      _ ← dassert debug made;
      Ok (tt, if made : bool then with_gm (Some s) g else g)
  end.

(** [malloc_capability_unseal]; null is [None]. *)
Definition malloc_capability_unseal (cap : AllocatorCapability) (permissions : Z) : C (option Z) := fun g =>
  if negb (Z.land (allocator_permissions cap) permissions =? permissions) then Ok (None, g)
  else
    match token_unseal cap with
    | None => Ok (None, g)
    | Some a =>
        c ← deref (capabilities g !! a);
        if identifier c =? QuotaIdentifierAllocatorOwned then
          if Z.shiftl 1 OwnerIDWidth <=? nextIdentifier g then Ok (None, g)
          else Ok (Some a, with_capabilities (<[a := mkPriv (quota c) (nextIdentifier g)]> (capabilities g))
                             (u32 (nextIdentifier g + 1)) g)
        else Ok (Some a, g)
    end.

(** ** Claims *)

(** Where an encoded pointer to a claim is: in a chunk's header, or in a claim. *)
Inductive NextRef : Type :=
| InHeader (p : Z)
| InClaim (a : Z).

Definition claim_at (a : Z) : M Claim := reads (fun s => deref (claimcells s !! a)).

Definition claim_update (a : Z) (f : Claim -> Claim) : M unit := fun s =>
  c ← deref (claimcells s !! a); Ok (tt, with_claimcells (<[a := f c]> (claimcells s)) s).

Definition next_get (r : NextRef) : M Z :=
  match r with
  | InHeader p => h ← chunk_header p; mret (claims h)
  | InClaim a => c ← claim_at a; mret (encodedNext c)
  end.

Definition next_set (r : NextRef) (v : Z) : M unit :=
  match r with
  | InHeader p => on_heap (fun a => hupd a p (set_claims v))
  | InClaim a => claim_update a (fun c => mkClaim (allocatorIdentifier c) v (referenceCount c))
  end.

(** The address of the claim with a non-zero encoded offset. *)
Definition from_encoded_offset (offset : Z) : Z := u32 (heap_address + Z.shiftl offset MallocAlignShift).

Definition encode_address (address : Z) : M Z :=
  let address := u32 (address - heap_address) in
  _ ← massert (Z.land address MallocAlignMask =? 0);
  let address := Z.shiftr address MallocAlignShift in
  _ ← massert (address <=? 2 ^ 16 - 1);
  mret (u16 address).

Definition UINT32_MAX : Z := 2 ^ 32 - 1.

Definition reference_add (a : Z) : M unit := claim_update a (fun c =>
  if referenceCount c =? UINT32_MAX then c
  else mkClaim (allocatorIdentifier c) (encodedNext c) (referenceCount c + 1)).

(** Whether the count has dropped to zero. *)
Definition reference_remove (a : Z) : M bool :=
  _ ← claim_update a (fun c =>
    if referenceCount c =? UINT32_MAX then c
    else mkClaim (allocatorIdentifier c) (encodedNext c) (u32 (referenceCount c - 1)));
  c ← claim_at a;
  mret (referenceCount c =? 0).

(** The loop of [claim_find]: the pointer to the claim of [owner], and the claim. *)
Fixpoint claim_walk (fuel : nat) (r : NextRef) (owner : Z) : M (option (NextRef * Z)) :=
  match fuel with
  | O => fails EFuel
  | S fuel =>
      offset ← next_get r;
      if offset =? 0 then mret None
      else
        let a := from_encoded_offset offset in
        c ← claim_at a;
        if allocatorIdentifier c =? owner then mret (Some (r, a))
        else claim_walk fuel (InClaim a) owner
  end.

Definition claim_find (owner chunk : Z) : M (NextRef * option Z) :=
  fuel ← gets (fun s => S (S (size (claimcells s))));
  found ← claim_walk fuel (InHeader chunk) owner;
  mret (match found with Some (r, a) => (r, Some a) | None => (InHeader chunk, None) end).

(** [Claim::create] with [next]; null is [None]. *)
Definition claim_create (cap next : Z) : C (option Z) :=
  c ← capability_get cap;
  '(space, quota) ← on_gm (mspace_dispatch sizeof_Claim (quota c) QuotaIdentifierAllocatorOwned false);
  _ ← quota_set cap quota;
  match space with
  | AllocationSuccess ret =>
      _ ← on_gm (modify (fun s => with_claimcells (<[cbase ret := mkClaim (identifier c) next 1]> (claimcells s)) s));
      mret (Some (cbase ret))
  | _ => mret None
  end.

Definition claim_destroy (cap claim : Z) : C unit :=
  let chunk := from_body claim in
  size ← on_gm (chunk_size chunk);
  c ← capability_get cap;
  _ ← quota_set cap (quota c + size);
  _ ← on_gm (mspace_free chunk sizeof_Claim);
  mret tt.

Definition claim_add (cap chunk : Z) : C bool :=
  c ← capability_get cap;
  '(next, claim) ← on_gm (claim_find (identifier c) chunk);
  match claim with
  | Some a => _ ← on_gm (reference_add a); mret true
  | None =>
      h ← on_gm (chunk_header chunk);
      let isOwner := ownerID h =? identifier c in
      let size := size_get h in
      if negb isOwner && (quota c <? size) then mret false
      else
        _ ← (if isOwner then mret tt else quota_set cap (quota c - size));
        nextValue ← on_gm (next_get next);
        created ← claim_create cap nextValue;
        match created with
        | Some a =>
            _ ← (if isOwner then
                   _ ← on_gm (on_heap (fun ar => hupd ar chunk (set_ownerID 0)));
                   on_gm (reference_add a)
                 else mret tt);
            offset ← on_gm (encode_address a);
            _ ← on_gm (next_set next offset);
            mret true
        | None =>
            _ ← (if isOwner then mret tt
                 else c ← capability_get cap; quota_set cap (quota c + size));
            mret false
        end
  end.

Definition claim_drop (cap chunk : Z) (reallyDrop freeAll : bool) : C bool :=
  c ← capability_get cap;
  '(next, claim) ← on_gm (claim_find (identifier c) chunk);
  match claim with
  | None => mret false
  | Some a =>
      if negb reallyDrop then mret true
      else
        last ← (if freeAll then mret true else on_gm (reference_remove a));
        _ ← (if last : bool then
               following ← on_gm (claim_at a);
               _ ← on_gm (next_set next (encodedNext following));
               size ← on_gm (chunk_size chunk);
               c ← capability_get cap;
               _ ← quota_set cap (quota c + size);
               claim_destroy cap a
             else mret tt);
        mret true
  end.

(** ** Freeing *)

Definition heap_free_chunk (cap chunk bodySize : Z) (isPrecise reallyFree freeAll : bool) : C Z :=
  c ← capability_get cap;
  owned ← (if isPrecise then
             o ← on_gm (reads (fun s => owner debug (heap s) chunk));
             mret (o =? identifier c)
           else mret false);
  if owned : bool then
    if negb reallyFree then mret 0
    else
      chunkSize ← on_gm (chunk_size chunk);
      _ ← on_gm (on_heap (fun ar => hupd ar chunk (set_ownerID 0)));
      h ← on_gm (chunk_header chunk);
      if claims h =? 0 then
        ret ← on_gm (mspace_free chunk bodySize);
        c ← capability_get cap;
        _ ← (if ret =? 0 then quota_set cap (quota c + chunkSize) else mret tt);
        mret ret
      else
        c ← capability_get cap;
        _ ← quota_set cap (quota c + chunkSize);
        mret 0
  else
    dropped ← claim_drop cap chunk reallyFree freeAll;
    if dropped : bool then
      h ← on_gm (chunk_header chunk);
      if (claims h =? 0) && (ownerID h =? QuotaIdentifierAllocatorOwned)
      then on_gm (mspace_free chunk bodySize)
      else mret 0
    else mret (- EPERM).

Definition heap_free_internal (heapCapability : AllocatorCapability) (mem : cap) (reallyFree : bool) : C Z :=
  capability ← malloc_capability_unseal heapCapability AllocatorPermitNone;
  match capability with
  | None => mret (- EPERM)
  | Some capability =>
      if negb (ctag mem) || csealed_cap mem then mret (- EINVAL)
      else
        _ ← check_gm;
        chunk ← on_gm (allocation_start (cbase mem));
        if negb (truth chunk) then mret (- EINVAL)
        else
          let start := body chunk in
          bodySize ← on_gm (chunk_body_size chunk);
          let isPrecise := (start =? cbase mem) && (bodySize =? clength mem) in
          heap_free_chunk capability chunk bodySize isPrecise reallyFree false
  end.

Definition heap_can_free (heapCapability : AllocatorCapability) (rawPointer : cap) : C Z :=
  heap_free_internal heapCapability rawPointer false.

Definition heap_free (heapCapability : AllocatorCapability) (rawPointer : cap) : C Z :=
  ret ← heap_free_internal heapCapability rawPointer true;
  if negb (ret =? 0) then mret ret
  else
    futex ← cgets freeFutex;
    if negb (futex =? -1) then _ ← futex_set (-1); _ ← futex_notify_all; mret 0
    else mret 0.

Definition heap_quota_remaining (heapCapability : AllocatorCapability) : C Z :=
  cap ← malloc_capability_unseal heapCapability AllocatorPermitNone;
  match cap with
  | None => mret (- EPERM)
  | Some a => c ← capability_get a; mret (quota c)
  end.

Definition heap_claim (heapCapability : AllocatorCapability) (pointer : cap) : C Z :=
  cap ← malloc_capability_unseal heapCapability AllocatorPermitAllocate;
  match cap with
  | None => mret (- EPERM)
  | Some a =>
      if negb (ctag pointer) || csealed_cap pointer then mret (- EINVAL)
      else
        chunk ← on_gm (allocation_start (cbase pointer));
        if negb (truth chunk) then mret (- EINVAL)
        else
          added ← claim_add a chunk;
          if added : bool then on_gm (chunk_body_size chunk) else mret (- ENOMEM)
  end.

Definition heap_available : C Z := on_gm (gets heapFreeSize).

(** The loop of [heap_free_all] over the chunks. *)
Fixpoint free_all_loop (fuel : nat) (capability chunk freed : Z) : C Z :=
  match fuel with
  | O => cfails EFuel
  | S fuel =>
      h ← on_gm (chunk_header chunk);
      freed ← (if is_in_use h && negb (isSealedObject h) then
                 let size := size_get h in
                 bodySize ← on_gm (chunk_body_size chunk);
                 ret ← heap_free_chunk capability chunk bodySize true true true;
                 mret (if ret =? 0 then freed + size else freed)
               else mret freed);
      chunk ← on_gm (chunk_next chunk);
      if chunk <? heap_top then free_all_loop fuel capability chunk freed else mret freed
  end.

Definition heap_free_all (heapCapability : AllocatorCapability) : C Z :=
  capability ← malloc_capability_unseal heapCapability AllocatorPermitFreeAll;
  match capability with
  | None => mret (- EPERM)
  | Some capability =>
      fuel ← on_gm (gets (fun s => S (size (hdrs (heap s)))));
      freed ← free_all_loop fuel capability heap_address 0;
      futex ← cgets freeFutex;
      if (0 <? futex) && (0 <? freed) then _ ← futex_set 0; _ ← futex_notify_all; mret freed
      else mret freed
  end.

(** ** Allocation *)

(** One turn of the loop of [malloc_internal]: a result, or why the thread has to wait. *)
Inductive Attempt : Type :=
| Returns (ret : cap + Z)
| Again
| WaitForRevoker (epoch : Z)
| WaitForMemory (expected : Z).

Definition malloc_attempt (bytes capability : Z) (isSealedAllocation : bool) (flags : Z) (may_block : bool) : C Attempt :=
  c ← capability_get capability;
  '(ret, quota) ← on_gm (mspace_dispatch bytes (quota c) (identifier c) isSealedAllocation);
  _ ← quota_set capability quota;
  match ret with
  | AllocationSuccess ret => mret (Returns (inl ret))
  | AllocationFailurePermanent => mret (Returns (inr (- EINVAL)))
  | AllocationFailureRevocationNeeded waitingEpoch =>
      if negb (truth (Z.land flags AllocateWaitRevocationNeeded)) then mret (Returns (inr (- EAGAIN)))
      else if negb may_block then mret (Returns (inr (- ETIMEDOUT)))
      else
        dequeued ← on_gm quarantine_dequeue;
        if dequeued : bool then mret Again
        else _ ← on_gm system_bg_revoker_kick; mret (WaitForRevoker waitingEpoch)
  | AllocationFailureHeapFull =>
      if negb (truth (Z.land flags AllocateWaitHeapFull)) then mret (Returns (inr (- ENOMEM)))
      else
        expected ← on_gm (gets heapFreeSize);
        _ ← futex_set (s32 expected);
        mret (WaitForMemory expected)
  | AllocationFailureQuotaExceeded =>
      if negb (truth (Z.land flags AllocateWaitQuotaExceeded)) then mret (Returns (inr (- ENOMEM)))
      else
        expected ← on_gm (gets heapFreeSize);
        _ ← futex_set (s32 expected);
        mret (WaitForMemory expected)
  end.

(** What happens while the thread waits without the lock: what the other threads make of
    the compartment, whether the lock was had again in time, and whether the timeout still
    permits blocking afterwards. *)
Record Wait : Type := mkWait { others : Compartment -> Compartment; reacquired : bool; blocks_after : bool }.

(** The loop; [None] is a thread that still waits when the list of [waits] is over. *)
Fixpoint malloc_loop (fuel : nat) (waits : list Wait) (bytes capability : Z) (isSealed : bool) (flags : Z)
    (may_block : bool) : C (option (cap + Z)) :=
  match fuel with
  | O => cfails EFuel
  | S fuel =>
      turn ← malloc_attempt bytes capability isSealed flags may_block;
      match turn with
      | Returns r => mret (Some r)
      | Again =>
          if may_block then malloc_loop fuel waits bytes capability isSealed flags may_block
          else mret (Some (inr (- ETIMEDOUT)))
      | WaitForRevoker _ | WaitForMemory _ =>
          match waits with
          | [] => mret None
          | w :: waits =>
              _ ← cmodify (others w);
              if negb (reacquired w) then mret (Some (inr (- ETIMEDOUT)))
              else if blocks_after w
                then malloc_loop fuel waits bytes capability isSealed flags true
                else mret (Some (inr (- ETIMEDOUT)))
          end
      end
  end.

Definition malloc_internal (fuel : nat) (waits : list Wait) (bytes capability : Z) (isSealed : bool) (flags : Z)
    (may_block : bool) : C (option (cap + Z)) :=
  _ ← check_gm;
  c ← capability_get capability;
  _ ← on_gm (massert (negb (identifier c =? QuotaIdentifierAllocatorOwned)));
  malloc_loop fuel waits bytes capability isSealed flags may_block.

Definition heap_allocate (fuel : nat) (waits : list Wait) (timeout_is_valid may_block : bool)
    (heapCapability : AllocatorCapability) (bytes flags : Z) : C (option (cap + Z)) :=
  if negb timeout_is_valid then mret (Some (inr (- EINVAL)))
  else
    cap ← malloc_capability_unseal heapCapability AllocatorPermitAllocate;
    match cap with
    | None => mret (Some (inr (- EPERM)))
    | Some cap => malloc_internal fuel waits bytes cap false flags may_block
    end.

Definition heap_allocate_array (fuel : nat) (waits : list Wait) (timeout_is_valid may_block : bool)
    (heapCapability : AllocatorCapability) (nElements elemSize flags : Z) : C (option (cap + Z)) :=
  if negb timeout_is_valid then mret (Some (inr (- EINVAL)))
  else
    cap ← malloc_capability_unseal heapCapability AllocatorPermitAllocate;
    match cap with
    | None => mret (Some (inr (- EPERM)))
    | Some cap =>
        let req := nElements * elemSize in
        if 2 ^ 32 <=? req then mret (Some (inr (- EINVAL)))
        else malloc_internal fuel waits req cap false flags may_block
    end.
End HeapApi.
