(* ===== verification/Ledger.v ===== *)
(** * Who holds what

    The chunks that the compartment of [HeapApi] has allocated are the objects it gave out,
    the claims on these, the chunks that wait in the hazard quarantine, and the footer.
    [ledger] ties this division to the state: the claims on an object are the chain that
    starts in its header. *)

From S2P Require Import Prelude LinkedList RingBuffer Bits AllocSizes ChunkHeader MState Bins SmallBins Allocator Quarantine Hazard Dispatch Owns HeapApi.

(** A claim: its address, its contents, and the chunk it is in. *)
Record claimant : Type := mkClaimant { kaddr : Z; kcell : Claim; kchunk : chunk }.

Definition kid (k : claimant) : Z := allocatorIdentifier (kcell k).
Definition kcount (k : claimant) : Z := referenceCount (kcell k).

Record object : Type := mkObject { obody : Z; ochunk : chunk; oclaims : list claimant }.

Definition kblock (k : claimant) : Z * chunk := (kaddr k, kchunk k).
Definition oblocks (o : object) : list (Z * chunk) := (obody o, ochunk o) :: (kblock <$> oclaims o).
Definition blocks (objs : list object) : list (Z * chunk) := objs ≫= oblocks.

Lemma blocks_cons o objs : blocks (o :: objs) = oblocks o ++ blocks objs.
Proof. done. Qed.

#[export] Instance blocks_perm : Proper ((≡ₚ) ==> (≡ₚ)) blocks.
Proof. intros o1 o2 E. unfold blocks. by rewrite E. Qed.

(** Nobody owns or claims the chunk. *)
Definition idle (d : chunk) : Prop := cowner d = 0 /\ cclaims d = 0.

Definition id_ok (i : Z) : Prop := 0 < i < 2 ^ OwnerIDWidth.

Section Ledger.
Context `{EnvOk} `{Hepoch : !Epochs} `{Hcheri : !Cheri}.
Implicit Types (s : MState) (al : list (Z * chunk)) (o : object).

(** What was given out has a body with exact bounds. *)
Definition given (b : Z) (d : chunk) : Prop :=
  MinChunkSize <= csize d /\ is_precise_range b (body_length b d) = true.

(** A chunk that only waits for a hazard to go. *)
Definition idle_block (e : Z * chunk) : Prop := idle e.2 /\ given e.1 e.2.

(** How a pointer to a claim is written. *)
Definition encoded (a : Z) : Z := (a - heap_address) / 8.

(** From the pointer [e] the claims [ks] are linked, and the last points to [e']. *)
Fixpoint chain (e : Z) (ks : list claimant) (e' : Z) : Prop :=
  match ks with
  | [] => e = e'
  | k :: ks => e = encoded (kaddr k) /\ chain (encodedNext (kcell k)) ks e'
  end.

Record claimant_ok (cells : gmap Z Claim) (k : claimant) : Prop := {
  ko_cell : cells !! kaddr k = Some (kcell k);
  ko_idle : idle (kchunk k);
  ko_given : given (kaddr k) (kchunk k);
  ko_id : id_ok (kid k);
  ko_count : 0 <= kcount k <= UINT32_MAX;
}.

Record object_ok (cells : gmap Z Claim) (o : object) : Prop := {
  oo_given : given (obody o) (ochunk o);
  oo_owner : 0 <= cowner (ochunk o) < 2 ^ OwnerIDWidth;
  oo_chain : chain (cclaims (ochunk o)) (oclaims o) 0;
  oo_claims : Forall (claimant_ok cells) (oclaims o);
  (** Nobody holds the object in two ways. *)
  oo_once : NoDup (cowner (ochunk o) :: (kid <$> oclaims o));
}.

(** The allocated chunks are the objects with their claims, the chunks [hs] in the hazard
    quarantine, the footer [fd], and [extra], which an operation has in hand. *)
Record ledger (extra : list (Z * chunk)) s (objs : list object) (hs : list (Z * chunk)) (fd : chunk) : Prop := {
  lg_owns : owns s (extra ++ blocks objs ++ hs ++ [(heap_top, fd)]);
  lg_hazards : cbase <$> hazardQuarantine s ≡ₚ hs.*1;
  lg_waiting : Forall idle_block hs;
  lg_footer : csize fd = sizeof_header /\ idle fd /\ csealed fd = false;
  lg_objects : Forall (object_ok (claimcells s)) objs;
}.

Lemma ledger_perm extra s objs objs' hs fd : objs ≡ₚ objs' -> ledger extra s objs hs fd -> ledger extra s objs' hs fd.
Proof. intros E [Ho Hh Hw Hf Hs]. split; try done; by rewrite <- E. Qed.

(** ** Encoded pointers *)

Lemma encoded_ok s al a d : owns s al -> (a, d) ∈ al ->
  0 < encoded a <= 65535 /\ from_encoded_offset (encoded a) = a.
Proof.
  intros Ho Ha. destruct (owns_block s al a d Ho Ha) as [B1 B2 B3 [_ B4] _ _ _]. pose proof address_aligned as B5.
  pose proof heap_below. pose proof base_below. pose proof ms_below.
  change MaxChunkSize with 524280 in *. unfold encoded, from_encoded_offset. change MallocAlignShift with 3.
  assert ((a - heap_address) mod 8 = 0) as E8 by (by apply mod8_sub).
  pose proof (Z.div_mod (a - heap_address) 8 ltac:(lia)). split; [lia|].
  rewrite Z.shiftl_mul_pow2 by lia. change (2 ^ 3) with 8. unfold u32. rewrite wrap_small; [lia|].
  destruct (owns_block s al a d Ho Ha) as [_ _ _ _ Ef _ _]. split; [lia|].
  destruct Ho as (l & F & q & Hal & E). rewrite E in Ha. pose proof (allocated_base _ _ _ _ _ _ _ (al_state _ _ _ _ Hal) Ha) as [_ Hb]. lia.
Qed.

Lemma encode_ok s al a d : owns s al -> (a, d) ∈ al -> encode_address a s = Ok (encoded a, s).
Proof.
  intros Ho Ha. pose proof (encoded_ok s al a d Ho Ha) as [Hr _]. destruct (owns_block s al a d Ho Ha) as [B1 B2 B3 [_ B4] _ _ _].
  pose proof address_aligned as B5. change MaxChunkSize with 524280 in *. unfold encode_address.
  assert (u32 (a - heap_address) = a - heap_address) as -> by (apply wrap_small; lia).
  assert ((a - heap_address) mod 8 = 0) as E8 by (by apply mod8_sub).
  assert (Z.land (a - heap_address) MallocAlignMask = (a - heap_address) mod 8) as ->.
  { change MallocAlignMask with (Z.ones 3). rewrite Z.land_ones by lia. done. }
  rewrite E8. mrun (massert_ok (0 =? 0) s eq_refl). change MallocAlignShift with 3. rewrite Z.shiftr_div_pow2 by lia.
  change (2 ^ 3) with 8. fold (encoded a). mrun (massert_ok (encoded a <=? 2 ^ 16 - 1) s ltac:(apply Z.leb_le; lia)).
  unfold mret, M_ret, u16. by rewrite wrap_small by lia.
Qed.

(** ** Steps of the ledger *)

(** The bases of a ledger's chunks are different. *)
Lemma ledger_nodup extra s objs hs fd : ledger extra s objs hs fd ->
  NoDup (extra ++ blocks objs ++ hs ++ [(heap_top, fd)]).*1.
Proof. intros L. eapply owns_nodup, (lg_owns _ _ _ _ _ L). Qed.

Lemma ledger_in extra s objs hs fd o : ledger extra s objs hs fd -> o ∈ objs ->
  exists al, owns s al /\ (obody o, ochunk o) ∈ al /\ (forall k, k ∈ oclaims o -> (kaddr k, kchunk k) ∈ al) /\
    object_ok (claimcells s) o.
Proof.
  intros L Ho. exists (extra ++ blocks objs ++ hs ++ [(heap_top, fd)]). splits.
  - apply L.
  - rewrite !elem_of_app. right. left. apply list_elem_of_bind. exists o. split; [left|done].
  - intros k Hk. rewrite !elem_of_app. right. left. apply list_elem_of_bind. exists o. split; [|done].
    right. apply list_elem_of_fmap. by exists k.
  - eapply Forall_forall; [apply (lg_objects _ _ _ _ _ L)|done].
Qed.

(** Claims in chunks that stay are kept. *)
Lemma claims_stay s s' al gone objs : owns s al -> frees_only gone s s' -> (forall e, e ∈ gone -> e ∈ al) ->
  NoDup (gone.*1 ++ (blocks objs).*1) -> (forall e, e ∈ blocks objs -> e ∈ al) ->
  Forall (object_ok (claimcells s)) objs -> Forall (object_ok (claimcells s')) objs.
Proof.
  intros Ho Hk Hg Hnd Hb Hobjs. apply Forall_forall. intros o Hino. rewrite Forall_forall in Hobjs.
  destruct (Hobjs o Hino) as [O1 O2 O3 O4 O5]. split; try done. apply Forall_forall. intros k Hin.
  rewrite Forall_forall in O4. destruct (O4 k Hin) as [K1 K2 K3 K4 K5]. split; try done.
  destruct (proj1 Hk (kaddr k)) as [->|(_ & b & d & Hbd & Hx)]; [done|exfalso].
  assert (kblock k ∈ blocks objs) as Hkb.
  { apply list_elem_of_bind. exists o. split; [|done]. right. by apply list_elem_of_fmap_2. }
  apply NoDup_app in Hnd as (_ & Hd & _). destruct (decide (b = kaddr k)) as [->|Hne].
  { apply (Hd (kaddr k)); apply list_elem_of_fmap; [by exists (kaddr k, d)|by exists (kblock k)]. }
  destruct (owns_apart s al b d (kaddr k) (kchunk k) Ho (Hg _ Hbd) (Hb _ Hkb) Hne) as [Hle|Hle]; [|].
  - change sizeof_header with 8 in Hx. lia.
  - pose proof (bk_size _ _ (owns_block s al _ _ Ho (Hb _ Hkb))) as [_ ?]. lia.
Qed.

(** Chunks leave the hazard quarantine. *)
Lemma settle_hazards s (X hs gone rest : list (Z * chunk)) hq hq' :
  NoDup (X ++ hs).*1 -> NoDup (cbase <$> hq) -> cbase <$> hq ≡ₚ hs.*1 -> Forall idle_block hs ->
  X ++ hs ≡ₚ gone ++ rest -> settled s (X ++ hs) gone hq hq' ->
  exists hs', hs ≡ₚ gone ++ hs' /\ cbase <$> hq' ≡ₚ hs'.*1 /\ rest ≡ₚ X ++ hs'.
Proof.
  intros Hnd Hndq Hb Hidle Hp (Hsub & Hg & Hgone & Hf).
  assert (forall e, e ∈ gone -> e ∈ hs) as Hgh.
  { intros [b d] Hbd. assert (b ∈ hs.*1) as Hbh by (rewrite <- Hb; apply (released_base _ _ _ Hg), list_elem_of_fmap; by exists (b, d)).
    assert ((b, d) ∈ X ++ hs) as Hin by (rewrite Hp; apply elem_of_app; by left).
    apply elem_of_app in Hin as [Hin|?]; [exfalso|done]. rewrite fmap_app in Hnd. apply NoDup_app in Hnd as (_ & Hd & _).
    apply (Hd b); [|done]. apply list_elem_of_fmap. by exists (b, d). }
  assert (NoDup (gone ++ rest)) as Hnd2 by (rewrite <- Hp; by eapply NoDup_fmap_1).
  destruct (submseteq_Permutation gone hs) as [hs' Hhs].
  { apply NoDup_submseteq; [|done]. by apply NoDup_app in Hnd2 as [? _]. }
  assert (rest ≡ₚ X ++ hs') as Hrest.
  { rewrite Hhs in Hp. apply (Permutation_app_inv_l gone). rewrite <- Hp. solve_Permutation. }
  exists hs'. splits; [done| |done].
  assert (NoDup hs.*1) as Hndh by (rewrite <- Hb; done). rewrite Hhs, fmap_app in Hndh.
  apply NoDup_app in Hndh as (_ & Hdis & Hndh').
  apply NoDup_Permutation; [eapply sublist_NoDup; [exact Hndq|by apply fmap_sublist]|done|]. intros b. split.
  - intros Hbq. assert (b ∈ hs.*1) as Hbh.
    { rewrite <- Hb. eapply elem_of_submseteq; [exact Hbq|]. by apply sublist_submseteq, fmap_sublist. }
    rewrite Hhs, fmap_app in Hbh. apply elem_of_app in Hbh as [Hbg|?]; [exfalso|done].
    by apply (Hgone b).
  - intros Hbh. assert (b ∈ cbase <$> hq) as (h & -> & Hh)%list_elem_of_fmap by (rewrite Hb, Hhs, fmap_app; apply elem_of_app; by right).
    rewrite Forall_forall in Hf. destruct (Hf h Hh) as [[? _]|[(_ & d & Hd & Hc)|(_ & _ & ?)]]; [by apply list_elem_of_fmap_2| |].
    + exfalso. assert ((cbase h, d) ∈ hs) as Hin.
      { apply elem_of_app in Hd as [Hd|?]; [exfalso|done]. rewrite fmap_app in Hnd. apply NoDup_app in Hnd as (_ & Hd' & _).
        apply (Hd' (cbase h)); [apply list_elem_of_fmap; by exists (cbase h, d)|]. rewrite Hhs, fmap_app. apply elem_of_app. by right. }
      rewrite Forall_forall in Hidle. by destruct (Hidle _ Hin) as [[_ ?] _].
    + exfalso. by apply (Hdis (cbase h)).
Qed.

Lemma ledger_settle extra s objs hs fd gone rest hq' : ledger extra s objs hs fd ->
  extra ++ blocks objs ++ hs ++ [(heap_top, fd)] ≡ₚ gone ++ rest ->
  settled s (extra ++ blocks objs ++ hs ++ [(heap_top, fd)]) gone (hazardQuarantine s) hq' ->
  exists hs', hs ≡ₚ gone ++ hs' /\ cbase <$> hq' ≡ₚ hs'.*1 /\ rest ≡ₚ extra ++ blocks objs ++ hs' ++ [(heap_top, fd)].
Proof.
  intros L Hp Hset. pose proof (ledger_nodup _ _ _ _ _ L) as Hnd. destruct L as [_ Hh Hw _ _].
  set (X := extra ++ blocks objs ++ [(heap_top, fd)]).
  assert (extra ++ blocks objs ++ hs ++ [(heap_top, fd)] ≡ₚ X ++ hs) as E by (unfold X; solve_Permutation).
  rewrite E in Hnd, Hp. destruct (settle_hazards s X hs gone rest (hazardQuarantine s) hq') as (hs' & P1 & P2 & P3); try done.
  - rewrite Hh. rewrite fmap_app in Hnd. by apply NoDup_app in Hnd as (_ & _ & ?).
  - by eapply settled_perm.
  - exists hs'. splits; [done|done|]. rewrite P3. unfold X. solve_Permutation.
Qed.

(** The objects after a call that freed [gone], none of which is theirs. *)
Lemma ledger_stay extra s objs hs fd gone s' : ledger extra s objs hs fd -> frees_only gone s s' ->
  (forall e, e ∈ gone -> e ∈ extra ++ hs) -> NoDup gone.*1 -> Forall (object_ok (claimcells s')) objs.
Proof.
  intros L Hk Hg Hng. pose proof (ledger_nodup _ _ _ _ _ L) as Hnd.
  eapply claims_stay; [apply (lg_owns _ _ _ _ _ L)|exact Hk| | | |apply L].
  - intros e He. specialize (Hg e He). rewrite !elem_of_app in *. tauto.
  - apply NoDup_app. splits; [done| |].
    + intros b (e & -> & He)%list_elem_of_fmap Hb. specialize (Hg e He). rewrite !fmap_app in Hnd.
      apply elem_of_app in Hg as [Hg|Hg].
      * apply NoDup_app in Hnd as (_ & Hd & _). apply (Hd e.1); [by apply list_elem_of_fmap_2|]. apply elem_of_app. by left.
      * apply NoDup_app in Hnd as (_ & _ & Hnd). apply NoDup_app in Hnd as (_ & Hd & _). apply (Hd e.1); [done|].
        apply elem_of_app. left. by apply list_elem_of_fmap_2.
    + rewrite !fmap_app in Hnd. apply NoDup_app in Hnd as (_ & _ & Hnd). by apply NoDup_app in Hnd as [? _].
  - intros e He. rewrite !elem_of_app. tauto.
Qed.

Definition room (n : nat) s : Prop := (length (hazardQuarantine s) + n <= hazard_count)%nat.

(** A chunk in hand, which nobody holds, is freed. *)
Lemma ledger_free b d extra s objs hs fd n : ledger ((b, d) :: extra) s objs hs fd -> idle d ->
  given b d -> 0 <= n <= csize d - sizeof_header -> n mod 8 = 0 -> is_precise_range b n = true ->
  room 1 s -> exists s' hs', mspace_free (from_body b) n s = Ok (0, s') /\ ledger extra s' objs hs' fd /\
    (length (hazardQuarantine s') <= S (length (hazardQuarantine s)))%nat /\ (readings s <= readings s')%nat /\
    ((unhazarded s (body_cap b n) /\ b ∉ hs'.*1) \/ (hazarded s (body_cap b n) /\ (b, d) ∈ hs')).
Proof.
  intros L [Hi1 Hi2] Hgv Hn Hn8 Hp Hroom. pose proof (ledger_nodup _ _ _ _ _ L) as Hnd. pose proof (lg_owns _ _ _ _ _ L) as Ho.
  assert (b ∉ hs.*1) as Hbh.
  { cbn [app fmap list_fmap fst] in Hnd. apply NoDup_cons in Hnd as [Hb _]. intros Hin. apply Hb.
    change (b ∈ (extra ++ blocks objs ++ hs ++ [(heap_top, fd)]).*1). rewrite !fmap_app, !elem_of_app. tauto. }
  destruct (owns_free s _ b d n Ho) as (s' & al' & gone & E & (Ho' & Hal & Hk & Hr) & others & hq & Hset & Hcase); try done.
  { left. } { apply Hgv. } { by rewrite (lg_hazards _ _ _ _ _ L). } { unfold room in Hroom. lia. }
  assert (NoDup gone.*1) as Hng.
  { rewrite Hal, fmap_app in Hnd. by apply NoDup_app in Hnd as [? _]. }
  assert (exists kp, gone = others ++ kp /\ ((kp = [(b, d)] /\ hazardQuarantine s' = hq /\ unhazarded s (body_cap b n)) \/
    (kp = [] /\ hazardQuarantine s' = hq ++ [body_cap b n] /\ hazarded s (body_cap b n)))) as (kp & -> & Hkp).
  { destruct Hcase as [(-> & ?)|(-> & ?)]; [exists [(b, d)]|exists []; rewrite app_nil_r]; tauto. }
  rewrite <- app_assoc in Hal. destruct (ledger_settle _ _ _ _ _ others (kp ++ al') hq L Hal Hset) as (hs' & P1 & P2 & P3).
  assert (Forall idle_block hs') as Hw'.
  { pose proof (lg_waiting _ _ _ _ _ L) as Hw. rewrite P1 in Hw. by apply Forall_app in Hw as [_ ?]. }
  assert (Forall (object_ok (claimcells s')) objs) as Hobjs.
  { eapply ledger_stay; [exact L|exact Hk| |exact Hng]. intros e [He|He]%elem_of_app.
    - rewrite P1, !elem_of_app. tauto.
    - destruct Hkp as [(-> & _)|(-> & _)]; [apply list_elem_of_singleton in He as ->; left|by apply not_elem_of_nil in He]. }
  destruct Hkp as [(-> & Hq & Hu)|(-> & Hq & Hu)].
  - cbn [app] in P3. apply Permutation_cons_inv in P3. exists s', hs'. splits; [done| | |done|left; split; [done|]].
    + destruct L. split; try done; [by rewrite <- P3|by rewrite Hq].
    + rewrite Hq. destruct Hset as (Hsub & _). apply sublist_length in Hsub. lia.
    + intros Hin. apply Hbh. rewrite P1, fmap_app. apply elem_of_app. by right.
  - cbn [app] in P3. exists s', (hs' ++ [(b, d)]). splits; [done| | |done|right; split; [done|]].
    + destruct L. split; try done.
      * rewrite P3 in Ho'. eapply owns_perm; [|exact Ho']. solve_Permutation.
      * rewrite Hq, !fmap_app. cbn. by rewrite P2.
      * apply Forall_app. split; [done|]. by apply Forall_singleton.
    + rewrite Hq, length_app. cbn. destruct Hset as (Hsub & _). apply sublist_length in Hsub. lia.
    + apply elem_of_app. right. left.
Qed.

(** The bytes of the chunks that are in quarantine or wait for a hazard to go. *)
Definition pending s (hs : list (Z * chunk)) : Z := heapQuarantineSize s + weight hs.

(** A request: on success the chunk is in hand. *)
Definition obtained (bytes quota o : Z) (sealed : bool) r quota' s' (got : list (Z * chunk)) : Prop :=
  match r with
  | AllocationSuccess c => exists b d, c = mkCap b (body_length b d) true false /\ got = [(b, d)] /\
      bytes <= body_length b d /\ is_precise_range b (body_length b d) = true /\ cowner d = o /\ csealed d = sealed /\
      cclaims d = 0 /\ MinChunkSize <= csize d /\ quota' = quota - csize d /\ 0 <= quota'
  | _ => got = [] /\ quota' = quota /\ refused_for bytes quota r s'
  end.

Lemma ledger_dispatch extra s objs hs fd (bytes quota o : Z) (sealed : bool) : ledger extra s objs hs fd ->
  0 <= bytes < 2 ^ 32 -> 0 <= quota < 2 ^ 32 -> 0 <= o < 2 ^ 13 ->
  exists r quota' s' hs' got, mspace_dispatch bytes quota o sealed s = Ok ((r, quota'), s') /\
    ledger (got ++ extra) s' objs hs' fd /\ obtained bytes quota o sealed r quota' s' got /\
    (length (hazardQuarantine s') <= length (hazardQuarantine s))%nat /\ (readings s <= readings s')%nat /\
    pending s' hs' <= pending s hs.
Proof.
  intros L Hb Hq Ho. pose proof (ledger_nodup _ _ _ _ _ L) as Hnd.
  destruct (owns_dispatch s _ bytes quota o sealed (lg_owns _ _ _ _ _ L) Hb Hq Ho) as
    (r & quota' & s' & al' & gone & rest & E & Ho' & Hp & (Hset & Hk & Hr) & Han).
  destruct (ledger_settle _ _ _ _ _ gone rest _ L Hp Hset) as (hs' & P1 & P2 & P3).
  exists r, quota', s', hs'. assert (exists got, al' = got ++ rest /\ obtained bytes quota o sealed r quota' s' got) as (got & -> & Hgot).
  { unfold answer, obtained in *. destruct r; try (exists []; by destruct Han as (-> & -> & ?)).
    destruct Han as (b & d & -> & -> & Han). exists [(b, d)]. split; [done|]. by exists b, d. }
  exists got. splits; [done| |done| |done|unfold pending; rewrite P1, weight_app; pose proof (proj2 Hk); lia].
  - split; [|done| |apply L|].
    + eapply owns_perm; [|exact Ho']. rewrite P3. solve_Permutation.
    + pose proof (lg_waiting _ _ _ _ _ L) as Hw. rewrite P1 in Hw. by apply Forall_app in Hw as [_ ?].
    + eapply ledger_stay; [exact L|exact Hk| |].
      * intros e He. rewrite P1, !elem_of_app. tauto.
      * rewrite Hp, fmap_app in Hnd. by apply NoDup_app in Hnd as [? _].
  - destruct Hset as (Hsub & _). by apply sublist_length in Hsub.
Qed.

(** A step that leaves the allocated chunks, the hazards and the claims alone. *)
Lemma ledger_calm extra s s' objs hs fd : ledger extra s objs hs fd ->
  (forall al, owns s al -> owns s' al) -> hazardQuarantine s' = hazardQuarantine s -> claimcells s' = claimcells s ->
  ledger extra s' objs hs fd.
Proof. intros [L1 L2 L3 L4 L5] Ho Hh Hc. split; [by apply Ho|by rewrite Hh|done|done|by rewrite Hc]. Qed.

Lemma ledger_pending s objs hs fd extra : ledger extra s objs hs fd -> 0 <= pending s hs <= MaxChunkSize.
Proof.
  intros L. apply (owns_pending s _ hs (lg_owns _ _ _ _ _ L)). apply submseteq_inserts_l, submseteq_inserts_l, submseteq_inserts_r. done.
Qed.
End Ledger.
