(* ===== verification/Claims.v ===== *)
(** * The claims on an object

    What [claim_find] finds, and what the changes of a chain of claims do to the ledger. *)

From S2P Require Import Prelude LinkedList RingBuffer Bits AllocSizes ChunkHeader MState Bins SmallBins Allocator Quarantine Hazard Label Dispatch Owns HeapApi Ledger.

Section Claims.
Context `{EnvOk} `{Hepoch : !Epochs} `{Hcheri : !Cheri}.
Implicit Types (s : MState) (o : object) (k : claimant) (ks : list claimant).

(** ** The chain *)

Lemma claim_chain_app e ks1 ks2 e2 : chain e (ks1 ++ ks2) e2 <-> exists e1, chain e ks1 e1 /\ chain e1 ks2 e2.
Proof.
  revert e. induction ks1 as [|k ks1 IH]; intros e; cbn [app chain].
  - split; [by exists e|by intros (? & -> & ?)].
  - setoid_rewrite IH. naive_solver.
Qed.

Lemma chain_end e ks e' : chain e ks e' ->
  match last ks with Some k => encodedNext (kcell k) = e' | None => e = e' end.
Proof.
  revert e. induction ks as [|k ks IH]; intros e; cbn [chain]; [done|]. intros [_ Hc]. specialize (IH _ Hc).
  rewrite last_cons. by destruct (last ks).
Qed.

(** The pointer after the claims [ks] of the chunk at [p]. *)
Definition ref_of (p : Z) (ks : list claimant) : NextRef :=
  match last ks with Some k => InClaim (kaddr k) | None => InHeader p end.

Lemma claim_at_ok s k : claimcells s !! kaddr k = Some (kcell k) -> claim_at (kaddr k) s = Ok (kcell k, s).
Proof. intros E. apply reads_ok. by rewrite E. Qed.

(** The pointer after the first claims of an object. *)
Lemma next_get_ok extra s objs hs fd o ks1 ks2 : ledger extra s objs hs fd -> o ∈ objs -> oclaims o = ks1 ++ ks2 ->
  exists e, next_get (ref_of (from_body (obody o)) ks1) s = Ok (e, s) /\ chain e ks2 0.
Proof.
  intros L Hin Eo. destruct (ledger_in _ _ _ _ _ _ L Hin) as (al & Ho & Hb & _ & [_ _ Hch Hks _]).
  rewrite Eo in Hch, Hks. apply claim_chain_app in Hch as (e & Hc1 & Hc2). exists e. split; [|done].
  apply chain_end in Hc1. unfold ref_of. destruct (last ks1) as [k|] eqn:El.
  - cbn [next_get]. apply last_Some in El as [ks ->]. rewrite !Forall_app, Forall_singleton in Hks.
    destruct Hks as [[_ Hk] _]. mrun (claim_at_ok s k (ko_cell _ _ Hk)). by rewrite Hc1.
  - cbn [next_get]. destruct (owns_chunk_header s al _ _ Ho Hb) as (h & E & Hh). mrun E. by rewrite (hs_claims _ _ Hh), Hc1.
Qed.

(** What a search from after [ks1] finds among [ks]. *)
Fixpoint found (p : Z) ks1 ks (owner : Z) : option (NextRef * Z) :=
  match ks with
  | [] => None
  | k :: ks => if kid k =? owner then Some (ref_of p ks1, kaddr k) else found p (ks1 ++ [k]) ks owner
  end.

Lemma found_none p ks1 ks owner : owner ∉ kid <$> ks -> found p ks1 ks owner = None.
Proof.
  revert ks1. induction ks as [|k ks IH]; intros ks1; [done|]. cbn [fmap list_fmap found]. intros [Hk Hks]%not_elem_of_cons.
  rewrite (proj2 (Z.eqb_neq _ _)) by done. by apply IH.
Qed.

Lemma found_some p ks1 ks k ks2 : kid k ∉ kid <$> ks -> found p ks1 (ks ++ k :: ks2) (kid k) = Some (ref_of p (ks1 ++ ks), kaddr k).
Proof.
  revert ks1. induction ks as [|k' ks IH]; intros ks1; cbn [app found].
  - intros _. by rewrite Z.eqb_refl, app_nil_r.
  - cbn [fmap list_fmap]. intros [Hk Hks]%not_elem_of_cons. rewrite (proj2 (Z.eqb_neq _ _)) by done.
    rewrite IH by done. by rewrite <- app_assoc.
Qed.

Lemma claim_walk_ok extra s objs hs fd o owner ks1 ks2 fuel : ledger extra s objs hs fd -> o ∈ objs ->
  oclaims o = ks1 ++ ks2 -> (length ks2 < fuel)%nat ->
  claim_walk fuel (ref_of (from_body (obody o)) ks1) owner s = Ok (found (from_body (obody o)) ks1 ks2 owner, s).
Proof.
  intros L Hin. revert ks1 fuel. induction ks2 as [|k ks2 IH]; intros ks1 fuel Eo Hf; (destruct fuel as [|fuel]; [lia|]); cbn [claim_walk].
  - destruct (next_get_ok _ _ _ _ _ _ _ _ L Hin Eo) as (e & E & Hc). mrun E. cbn in Hc. by subst e.
  - destruct (next_get_ok _ _ _ _ _ _ _ _ L Hin Eo) as (e & E & Hc & Hc2). mrun E. subst e.
    destruct (ledger_in _ _ _ _ _ _ L Hin) as (al & Ho & _ & Hal & Hok).
    pose proof (oo_claims _ _ Hok) as Hks. rewrite Eo in Hks, Hal. apply Forall_app in Hks as [_ [Hk _]%Forall_cons].
    assert ((kaddr k, kchunk k) ∈ al) as Hka by (apply Hal, elem_of_app; right; left).
    destruct (encoded_ok s al _ _ Ho Hka) as [He Ea]. rewrite (proj2 (Z.eqb_neq _ _)) by lia. rewrite Ea.
    mrun (claim_at_ok s k (ko_cell _ _ Hk)). cbn [found]. fold (kid k). destruct (kid k =? owner); [done|].
    replace (InClaim (kaddr k)) with (ref_of (from_body (obody o)) (ks1 ++ [k])) by (unfold ref_of; by rewrite last_snoc).
    apply IH; [by rewrite <- app_assoc|cbn in Hf; lia].
Qed.

(** The claims on an object are different chunks. *)
Lemma claims_nodup extra s objs hs fd o : ledger extra s objs hs fd -> o ∈ objs -> NoDup (kaddr <$> oclaims o).
Proof.
  intros L Hin. pose proof (ledger_nodup _ _ _ _ _ L) as Hnd.
  apply elem_of_Permutation in Hin as [rest E]. rewrite E, blocks_cons in Hnd. rewrite !fmap_app in Hnd.
  apply NoDup_app in Hnd as (_ & _ & Hnd). apply NoDup_app in Hnd as (Hnd & _). apply NoDup_app in Hnd as (Hnd & _).
  unfold oblocks in Hnd. cbn [fmap list_fmap] in Hnd. apply NoDup_cons in Hnd as [_ Hnd].
  by rewrite <- list_fmap_compose in Hnd.
Qed.

(** There are no more claims than cells. *)
Lemma claims_length extra s objs hs fd o : ledger extra s objs hs fd -> o ∈ objs ->
  (length (oclaims o) <= size (claimcells s))%nat.
Proof.
  intros L Hin. pose proof (claims_nodup _ _ _ _ _ _ L Hin) as Hn.
  destruct (ledger_in _ _ _ _ _ _ L Hin) as (_ & _ & _ & _ & Hok). pose proof (oo_claims _ _ Hok) as Hks.
  rewrite <- (length_fmap kaddr), <- (size_dom (D := gset Z)), <- (size_list_to_set (C := gset Z)) by done.
  apply subseteq_size. intros x (k & -> & Hk)%elem_of_list_to_set%list_elem_of_fmap.
  rewrite Forall_forall in Hks. apply elem_of_dom. exists (kcell k). by apply (ko_cell _ _ (Hks k Hk)).
Qed.

(** [claim_find] finds the claim of [owner] if there is one, and the pointer to it. *)
Lemma claim_find_ok extra s objs hs fd o owner : ledger extra s objs hs fd -> o ∈ objs ->
  claim_find owner (from_body (obody o)) s =
    Ok (match found (from_body (obody o)) [] (oclaims o) owner with
        | Some (r, a) => (r, Some a) | None => (InHeader (from_body (obody o)), None) end, s).
Proof.
  intros L Hin. unfold claim_find. mpure. pose proof (claims_length _ _ _ _ _ _ L Hin).
  assert (claim_walk (S (S (size (claimcells s)))) (InHeader (from_body (obody o))) owner s =
    Ok (found (from_body (obody o)) [] (oclaims o) owner, s)) as E.
  { apply (claim_walk_ok extra s objs hs fd o owner [] (oclaims o)); [done|done|done|lia]. }
  mrun E. by destruct (found _ _ _ _) as [[r a]|].
Qed.

Lemma claim_find_none extra s objs hs fd o owner : ledger extra s objs hs fd -> o ∈ objs ->
  owner ∉ kid <$> oclaims o -> claim_find owner (from_body (obody o)) s = Ok ((InHeader (from_body (obody o)), None), s).
Proof. intros L Hin Hn. rewrite (claim_find_ok _ _ _ _ _ _ _ L Hin). by rewrite found_none. Qed.

Lemma claim_find_some extra s objs hs fd o ks1 k ks2 : ledger extra s objs hs fd -> o ∈ objs -> oclaims o = ks1 ++ k :: ks2 ->
  claim_find (kid k) (from_body (obody o)) s = Ok ((ref_of (from_body (obody o)) ks1, Some (kaddr k)), s).
Proof.
  intros L Hin Eo. rewrite (claim_find_ok _ _ _ _ _ _ _ L Hin), Eo, found_some; [done|].
  destruct (ledger_in _ _ _ _ _ _ L Hin) as (_ & _ & _ & _ & Hok). pose proof (oo_once _ _ Hok) as Hn.
  rewrite Eo, fmap_app in Hn. cbn [fmap list_fmap] in Hn. apply NoDup_cons in Hn as [_ Hn]. apply NoDup_app in Hn as (_ & Hd & _).
  intros Hin'. apply (Hd _ Hin'). left.
Qed.

(** The claim of [owner], if it has one. *)
Lemma claim_cases o owner : owner ∉ kid <$> oclaims o \/ exists ks1 k ks2, oclaims o = ks1 ++ k :: ks2 /\ kid k = owner.
Proof.
  destruct (decide (owner ∈ kid <$> oclaims o)) as [(k & -> & Hk)%list_elem_of_fmap|]; [right|by left].
  apply list_elem_of_split in Hk as (ks1 & ks2 & E). by exists ks1, k, ks2.
Qed.

(** ** Changing cells *)

Lemma owns_cells s al cells : owns s al -> owns (with_claimcells cells s) al.
Proof.
  intros (l & F & q & [So Hz Hlk] & E). exists l, F, q. split; [|done]. split; [|done|done].
  apply (state_ok_step (P := paint (qmembers q)) 0 s _ l F q); try done. apply (quar_frame s _ q); try done. apply So.
Qed.

Lemma cells_frame cells a c objs : Forall (object_ok cells) objs -> a ∉ (blocks objs).*1 ->
  Forall (object_ok (<[a := c]> cells)) objs.
Proof.
  intros Ho Ha. apply Forall_forall. intros o Hin. rewrite Forall_forall in Ho. destruct (Ho o Hin) as [O1 O2 O3 O4 O5].
  split; try done. apply Forall_forall. intros k Hk. rewrite Forall_forall in O4. destruct (O4 k Hk) as [K1 K2 K3 K4 K5].
  split; try done. rewrite lookup_insert_ne; [done|]. intros ->. apply Ha. apply list_elem_of_fmap. exists (kblock k).
  split; [done|]. apply list_elem_of_bind. exists o. split; [|done]. right. by apply list_elem_of_fmap_2.
Qed.

(** The cell of a chunk in hand is written. *)
Lemma ledger_write extra s objs hs fd a d c : ledger ((a, d) :: extra) s objs hs fd ->
  ledger ((a, d) :: extra) (with_claimcells (<[a := c]> (claimcells s)) s) objs hs fd.
Proof.
  intros L. pose proof (ledger_nodup _ _ _ _ _ L) as Hnd. destruct L as [Ho Hh Hw Hf Hobjs]. split; try done.
  - by apply owns_cells.
  - cbn [claimcells with_claimcells]. apply cells_frame; [done|]. cbn [app fmap list_fmap fst] in Hnd.
    apply NoDup_cons in Hnd as [Hn _]. intros Hin. apply Hn.
    change (a ∈ (extra ++ blocks objs ++ hs ++ [(heap_top, fd)]).*1). rewrite !fmap_app, !elem_of_app. tauto.
Qed.

(** The cell of a claim on [o] is written. *)
Lemma ledger_rewrite extra extra' s o o' objs hs fd k c : ledger extra s (o :: objs) hs fd -> k ∈ oclaims o ->
  extra' ++ oblocks o' ≡ₚ extra ++ oblocks o -> object_ok (<[kaddr k := c]> (claimcells s)) o' ->
  ledger extra' (with_claimcells (<[kaddr k := c]> (claimcells s)) s) (o' :: objs) hs fd.
Proof.
  intros L Hk E Ho'. pose proof (ledger_nodup _ _ _ _ _ L) as Hnd. destruct L as [Ho Hh Hw Hf Hobjs]. split; try done.
  - apply owns_cells. eapply owns_perm; [|exact Ho]. rewrite !blocks_cons, <- !app_assoc.
    rewrite (app_assoc extra' (oblocks o')), E. by rewrite <- app_assoc.
  - constructor; [done|]. apply cells_frame; [by apply Forall_cons in Hobjs as [_ ?]|].
    rewrite blocks_cons, <- app_assoc, !fmap_app in Hnd. apply NoDup_app in Hnd as (_ & _ & Hnd).
    apply NoDup_app in Hnd as (_ & Hd & _). intros Hin. apply (Hd (kaddr k)).
    + apply list_elem_of_fmap. exists (kblock k). split; [done|]. right. by apply list_elem_of_fmap_2.
    + apply elem_of_app. by left.
Qed.

Lemma claim_update_ok s k f : claimcells s !! kaddr k = Some (kcell k) ->
  claim_update (kaddr k) f s = Ok (tt, with_claimcells (<[kaddr k := f (kcell k)]> (claimcells s)) s).
Proof. intros E. unfold claim_update. by rewrite E. Qed.

(** The header of an object is relabelled. *)
Lemma ledger_label extra s o objs hs fd f g ks : ledger extra s (o :: objs) hs fd -> label f g ->
  0 <= cclaims (g (ochunk o)) ->
  exists h, on_heap (fun a => hupd a (from_body (obody o)) f) s = Ok (tt, with_heap h s) /\
    forall extra', extra' ++ (kblock <$> ks) ≡ₚ extra ++ (kblock <$> oclaims o) ->
      object_ok (claimcells s) (mkObject (obody o) (g (ochunk o)) ks) ->
      ledger extra' (with_heap h s) (mkObject (obody o) (g (ochunk o)) ks :: objs) hs fd.
Proof.
  intros L Lb Hc. destruct L as [Ho Hh Hw Hf Hobjs].
  assert (owns s ((obody o, ochunk o) :: extra ++ (kblock <$> oclaims o) ++ blocks objs ++ hs ++ [(heap_top, fd)])) as Ho'.
  { eapply owns_perm; [|exact Ho]. rewrite blocks_cons. unfold oblocks. solve_Permutation. }
  destruct (owns_label s _ _ _ f g Ho' Lb Hc) as (h & E & Ho2). exists h. split; [done|]. intros extra' Ex Hok.
  split; try done.
  - eapply owns_perm; [|exact Ho2]. rewrite blocks_cons. unfold oblocks. cbn [obody ochunk oclaims].
    rewrite (app_assoc extra (kblock <$> oclaims o)), <- Ex. solve_Permutation.
  - constructor; [done|]. by apply Forall_cons in Hobjs as [_ ?].
Qed.
End Claims.

(** * Linking and unlinking claims

    The steps of [claim_add], [claim_drop] and [heap_free_chunk] of [HeapApi] on the ledger:
    a claim is put at the front of the chain of an object or taken out of it, its count
    changes, and the owner gives up the object. *)

(** What the accounts see of a claim, and of an object without its claims. *)
Definition kview (k : claimant) : Z * Z * Z := (kid k, kcount k, csize (kchunk k)).
Definition oview (o : object) : Z * Z * Z * bool :=
  (obody o, csize (ochunk o), cowner (ochunk o), csealed (ochunk o)).

Section ClaimOps.
Context `{EnvOk} `{Hepoch : !Epochs} `{Hcheri : !Cheri}.
Implicit Types (s : MState) (o : object) (k : claimant) (ks : list claimant).

(** Neither hazards nor readings change. *)
Definition calm s s' : Prop := hazardQuarantine s' = hazardQuarantine s /\ readings s' = readings s.

Lemma claimants_insert cells a c ks : Forall (claimant_ok cells) ks -> a ∉ kaddr <$> ks ->
  Forall (claimant_ok (<[a := c]> cells)) ks.
Proof.
  intros Hks Ha. apply Forall_forall. intros k Hk. rewrite Forall_forall in Hks. destruct (Hks k Hk) as [K1 K2 K3 K4 K5].
  split; try done. rewrite lookup_insert_ne; [done|]. intros ->. apply Ha. by apply list_elem_of_fmap_2.
Qed.

(** The cell of one of the claims on an object changes. *)
Lemma claims_update cells ks1 k ks2 c : Forall (claimant_ok cells) (ks1 ++ k :: ks2) -> NoDup (kaddr <$> ks1 ++ k :: ks2) ->
  allocatorIdentifier c = kid k -> 0 <= referenceCount c <= UINT32_MAX ->
  Forall (claimant_ok (<[kaddr k := c]> cells)) (ks1 ++ mkClaimant (kaddr k) c (kchunk k) :: ks2).
Proof.
  intros [H1 [H2 H3]%Forall_cons]%Forall_app Hn Hid Hc. rewrite fmap_app in Hn. cbn [fmap list_fmap] in Hn.
  apply NoDup_app in Hn as (_ & Hd & [Hk _]%NoDup_cons). apply Forall_app. split; [|constructor].
  - apply claimants_insert; [done|]. intros Hin. apply (Hd _ Hin). left.
  - destruct H2 as [K1 K2 K3 K4 K5]. split; try done; [by rewrite lookup_insert_eq|].
    unfold kid in *. cbn. by rewrite Hid.
  - by apply claimants_insert.
Qed.

Lemma chain_pos s al ks e : owns s al -> (forall k, k ∈ ks -> (kaddr k, kchunk k) ∈ al) -> chain e ks 0 -> 0 <= e.
Proof.
  intros Ho Hal Hc. destruct ks as [|k ks]; [by cbn in Hc; subst|]. destruct Hc as [-> _].
  destruct (encoded_ok s al _ _ Ho (Hal k ltac:(left))) as [? _]. lia.
Qed.

Lemma claim_out extra s objs hs fd o ks1 k ks2 : ledger extra s (o :: objs) hs fd -> oclaims o = ks1 ++ k :: ks2 ->
  exists s' o', next_set (ref_of (from_body (obody o)) ks1) (encodedNext (kcell k)) s = Ok (tt, s') /\
    ledger (kblock k :: extra) s' (o' :: objs) hs fd /\ oview o' = oview o /\
    kview <$> oclaims o' = kview <$> (ks1 ++ ks2) /\ calm s s' /\ claimcells s' !! kaddr k = Some (kcell k).
Proof.
  intros L Eo. pose proof (claims_nodup _ _ _ _ _ o L ltac:(left)) as Hnd.
  destruct (ledger_in _ _ _ _ _ o L ltac:(left)) as (al & Ho & Hb & Hal & [O1 O2 O3 O4 O5]).
  rewrite Eo in O3, O4, O5, Hnd, Hal. apply claim_chain_app in O3 as (e & Hc1 & -> & Hc2).
  assert (claimcells s !! kaddr k = Some (kcell k)) as Ek.
  { apply Forall_app in O4 as [_ [Hk _]%Forall_cons]. apply Hk. }
  assert (NoDup (cowner (ochunk o) :: (kid <$> ks1 ++ ks2))) as O5'.
  { eapply sublist_NoDup; [exact O5|]. constructor. apply fmap_sublist. apply sublist_app; [done|by constructor]. }
  pose proof (chain_end _ _ _ Hc1) as Hend. unfold ref_of. destruct (last ks1) as [k0|] eqn:El.
  - apply last_Some in El as [ks ->]. rewrite <- app_assoc in O4, Hnd. cbn [app] in O4, Hnd.
    set (c := mkClaim (kid k0) (encodedNext (kcell k)) (kcount k0)). set (k0' := mkClaimant (kaddr k0) c (kchunk k0)).
    assert (claimant_ok (claimcells s) k0) as Hk0 by (by apply Forall_app in O4 as [_ [? _]%Forall_cons]).
    exists (with_claimcells (<[kaddr k0 := c]> (claimcells s)) s), (mkObject (obody o) (ochunk o) (ks ++ k0' :: ks2)).
    pose proof (claims_update _ ks k0 (k :: ks2) c O4 Hnd eq_refl (ko_count _ _ Hk0)) as O4'.
    splits; try done.
    + cbn [next_set]. apply claim_update_ok. apply Hk0.
    + eapply ledger_rewrite; [exact L|rewrite Eo, !elem_of_app; left; right; left| |].
      * unfold oblocks. cbn [obody ochunk oclaims]. rewrite Eo, !fmap_app. cbn [fmap list_fmap]. unfold kblock. cbn. solve_Permutation.
      * split; cbn [obody ochunk oclaims]; try done.
        -- apply claim_chain_app in Hc1 as (e1 & Hc1 & -> & _). apply claim_chain_app. exists (encoded (kaddr k0)). by split.
        -- apply Forall_app in O4' as [P1 [P2 [_ P3]%Forall_cons]%Forall_cons]. apply Forall_app. split; [done|by constructor].
        -- rewrite <- app_assoc in O5'. rewrite !fmap_app in O5' |- *. exact O5'.
    + cbn [oclaims]. rewrite !fmap_app. cbn. by rewrite <- app_assoc.
    + cbn [claimcells with_claimcells]. rewrite lookup_insert_ne; [done|]. rewrite fmap_app in Hnd. cbn [fmap list_fmap] in Hnd.
      apply NoDup_app in Hnd as (_ & _ & [Hn _]%NoDup_cons). intros E. apply Hn. rewrite E. left.
  - apply last_None in El as ->. cbn [app chain] in *.
    destruct (ledger_label extra s o objs hs fd _ _ ks2 L (label_claims (encodedNext (kcell k)))) as (h & E & Hl).
    { cbn. eapply (chain_pos s al ks2); [done|intros; apply Hal; by right|done]. }
    exists (with_heap h s), (mkObject (obody o) (with_cclaims (encodedNext (kcell k)) (ochunk o)) ks2).
    splits; [exact E| |done|done|done|exact Ek].
    apply Hl; [rewrite Eo; cbn; solve_Permutation|]. by split; cbn [obody ochunk oclaims]; [| | |apply Forall_cons in O4 as [_ ?]|].
Qed.

(** A claim in hand is put at the front. *)
Lemma claim_in extra s objs hs fd o a d c : ledger ((a, d) :: extra) s (o :: objs) hs fd ->
  claimcells s !! a = Some c -> encodedNext c = cclaims (ochunk o) -> idle d -> given a d ->
  id_ok (allocatorIdentifier c) -> 0 <= referenceCount c <= UINT32_MAX ->
  allocatorIdentifier c <> cowner (ochunk o) -> allocatorIdentifier c ∉ kid <$> oclaims o ->
  exists s' o', next_set (InHeader (from_body (obody o))) (encoded a) s = Ok (tt, s') /\
    ledger extra s' (o' :: objs) hs fd /\ oview o' = oview o /\ oclaims o' = mkClaimant a c d :: oclaims o /\ calm s s'.
Proof.
  intros L Ec En Hi Hm Hid Hc Hno Hnk. destruct (ledger_in _ _ _ _ _ o L ltac:(left)) as (al & Ho & Hb & Hal & [O1 O2 O3 O4 O5]).
  pose proof (lg_owns _ _ _ _ _ L) as Ho2. destruct (encoded_ok s _ a d Ho2 ltac:(left)) as [He _].
  destruct (ledger_label _ s o objs hs fd _ _ (mkClaimant a c d :: oclaims o) L (label_claims (encoded a))) as (h & E & Hl); [cbn; lia|].
  exists (with_heap h s), (mkObject (obody o) (with_cclaims (encoded a) (ochunk o)) (mkClaimant a c d :: oclaims o)).
  splits; [exact E| |done|done|done].
  apply Hl; [cbn; unfold kblock; cbn; solve_Permutation|]. split; cbn [obody ochunk oclaims]; try done.
  - cbn [chain kaddr kcell cclaims with_cclaims]. split; [done|]. by rewrite En.
  - constructor; [by split|done].
  - cbn [fmap list_fmap]. apply NoDup_cons in O5 as [N1 N2]. cbn [cowner with_cclaims]. constructor.
    + rewrite elem_of_cons. unfold kid. cbn. intros [?|?]; [congruence|done].
    + by constructor.
Qed.

(** The count of a claim changes. *)
Lemma claim_count extra s objs hs fd o ks1 k ks2 n : ledger extra s (o :: objs) hs fd -> oclaims o = ks1 ++ k :: ks2 ->
  0 <= n <= UINT32_MAX ->
  let c := mkClaim (kid k) (encodedNext (kcell k)) n in
  let s' := with_claimcells (<[kaddr k := c]> (claimcells s)) s in
  ledger extra s' (mkObject (obody o) (ochunk o) (ks1 ++ mkClaimant (kaddr k) c (kchunk k) :: ks2) :: objs) hs fd.
Proof.
  intros L Eo Hn c s'. pose proof (claims_nodup _ _ _ _ _ o L ltac:(left)) as Hnd.
  destruct (ledger_in _ _ _ _ _ o L ltac:(left)) as (al & Ho & Hb & Hal & [O1 O2 O3 O4 O5]). rewrite Eo in O3, O4, O5, Hnd.
  eapply ledger_rewrite; [exact L|rewrite Eo, !elem_of_app; right; left| |].
  - unfold oblocks. cbn [obody ochunk oclaims]. rewrite Eo, !fmap_app. done.
  - split; cbn [obody ochunk oclaims]; try done.
    + apply claim_chain_app in O3 as (e & Hc1 & -> & Hc2). apply claim_chain_app. exists (encoded (kaddr k)). by split.
    + by apply claims_update.
    + rewrite fmap_app in O5 |- *. exact O5.
Qed.

(** The owner gives up the object. *)
Lemma disowned extra s objs hs fd o : ledger extra s (o :: objs) hs fd ->
  exists h, on_heap (fun a => hupd a (from_body (obody o)) (set_ownerID 0)) s = Ok (tt, with_heap h s) /\
    ledger extra (with_heap h s) (mkObject (obody o) (with_cowner 0 (ochunk o)) (oclaims o) :: objs) hs fd.
Proof.
  intros L. destruct (ledger_in _ _ _ _ _ o L ltac:(left)) as (al & Ho & Hb & Hal & [O1 O2 O3 O4 O5]).
  destruct (ledger_label extra s o objs hs fd _ _ (oclaims o) L (label_owner 0)) as (h & E & Hl).
  { cbn. eapply (chain_pos s al (oclaims o)); [done|done|done]. }
  exists h. split; [exact E|]. apply Hl; [done|]. split; cbn [obody ochunk oclaims]; try done.
  cbn [cowner with_cowner]. apply NoDup_cons in O5 as [_ O5]. constructor; [|done].
  intros (k & E0 & Hk)%list_elem_of_fmap. rewrite Forall_forall in O4. destruct (O4 k Hk) as [_ _ _ [K _] _]. lia.
Qed.

(** An object without claims is a chunk in hand, and the other way round. *)
Lemma object_in_hand extra s objs hs fd o : oclaims o = [] ->
  ledger extra s (o :: objs) hs fd <-> ledger ((obody o, ochunk o) :: extra) s objs hs fd /\ object_ok (claimcells s) o.
Proof.
  intros E. assert (extra ++ blocks (o :: objs) ++ hs ++ [(heap_top, fd)] ≡ₚ
    ((obody o, ochunk o) :: extra) ++ blocks objs ++ hs ++ [(heap_top, fd)]) as P.
  { rewrite blocks_cons. unfold oblocks. rewrite E. cbn. solve_Permutation. }
  split.
  - intros [Ho Hh Hw Hf [Hok Hobjs]%Forall_cons]. split; [|done]. split; try done. by eapply owns_perm.
  - intros [[Ho Hh Hw Hf Hobjs] Hok]. split; try done; [by eapply owns_perm|by constructor].
Qed.
End ClaimOps.
