(* ===== verification/Books.v ===== *)
(** * Quotas

    What each allocation capability is charged for the objects it owns or claims, and what
    it holds.  [books]: the quota that is left and the charge are together what was granted. *)

From S2P Require Import Prelude LinkedList RingBuffer Bits AllocSizes ChunkHeader MState Bins SmallBins Allocator Quarantine Hazard Label Dispatch Owns HeapApi Ledger Claims.

Definition zsum (l : list Z) : Z := foldr Z.add 0 l.

Lemma zsum_app l1 l2 : zsum (l1 ++ l2) = zsum l1 + zsum l2.
Proof. induction l1 as [|x l1 IH]; cbn [app zsum foldr]; [done|]. unfold zsum in *. lia. Qed.

#[export] Instance zsum_perm : Proper ((≡ₚ) ==> eq) zsum.
Proof. intros l1 l2. unfold zsum. induction 1; cbn; lia. Qed.

Lemma zsum_zero {A} (f : A -> Z) (l : list A) : (forall x, x ∈ l -> f x = 0) -> zsum (f <$> l) = 0.
Proof.
  induction l as [|x l IH]; intros Hf; [done|]. cbn [fmap list_fmap zsum foldr]. rewrite Hf by left.
  change (foldr Z.add 0 (f <$> l)) with (zsum (f <$> l)). rewrite IH; [done|]. intros y Hy. apply Hf. by right.
Qed.

Lemma zsum_nonneg {A} (f : A -> Z) (l : list A) : (forall x, x ∈ l -> 0 <= f x) -> 0 <= zsum (f <$> l).
Proof.
  induction l as [|x l IH]; intros Hf; [done|]. cbn [fmap list_fmap zsum foldr].
  pose proof (Hf x ltac:(left)). change (foldr Z.add 0 (f <$> l)) with (zsum (f <$> l)).
  assert (0 <= zsum (f <$> l)) by (apply IH; intros y Hy; apply Hf; by right). lia.
Qed.

(** ** Charges *)

(** A claim is charged with the object and with the chunk the claim itself takes. *)
Definition claim_share (id sz : Z) (v : Z * Z * Z) : Z := if v.1.1 =? id then sz + v.2 else 0.

Definition claims_share (id sz : Z) (vs : list (Z * Z * Z)) : Z := zsum (claim_share id sz <$> vs).

Definition share (id : Z) (o : object) : Z :=
  (if cowner (ochunk o) =? id then csize (ochunk o) else 0) + claims_share id (csize (ochunk o)) (kview <$> oclaims o).

Definition charge (id : Z) (objs : list object) : Z := if id =? 0 then 0 else zsum (share id <$> objs).

(** ** References *)

Definition claim_refs (id : Z) (v : Z * Z * Z) : Z := if v.1.1 =? id then v.1.2 else 0.

(** How often the capability with this identifier holds the object. *)
Definition holds (id : Z) (o : object) : Z :=
  (if cowner (ochunk o) =? id then 1 else 0) + zsum (claim_refs id <$> (kview <$> oclaims o)).

Lemma claims_share_app id sz v1 v2 : claims_share id sz (v1 ++ v2) = claims_share id sz v1 + claims_share id sz v2.
Proof. unfold claims_share. by rewrite fmap_app, zsum_app. Qed.

Lemma claims_share_cons id sz v vs : claims_share id sz (v :: vs) = claim_share id sz v + claims_share id sz vs.
Proof. done. Qed.

Lemma claims_share_none id sz ks : id ∉ kid <$> ks -> claims_share id sz (kview <$> ks) = 0.
Proof.
  intros Hn. unfold claims_share. apply zsum_zero. intros v (k & -> & Hk)%list_elem_of_fmap.
  unfold claim_share. cbn. rewrite (proj2 (Z.eqb_neq _ _)); [done|]. intros E. apply Hn. rewrite <- E. by apply list_elem_of_fmap_2.
Qed.

Lemma refs_none id ks : id ∉ kid <$> ks -> zsum (claim_refs id <$> (kview <$> ks)) = 0.
Proof.
  intros Hn. apply zsum_zero. intros v (k & -> & Hk)%list_elem_of_fmap.
  unfold claim_refs. cbn. rewrite (proj2 (Z.eqb_neq _ _)); [done|]. intros E. apply Hn. rewrite <- E. by apply list_elem_of_fmap_2.
Qed.

Lemma charge_cons id o objs : id <> 0 -> charge id (o :: objs) = share id o + charge id objs.
Proof. intros Hid. unfold charge. by rewrite (proj2 (Z.eqb_neq _ _) Hid). Qed.

#[export] Instance charge_perm id : Proper ((≡ₚ) ==> eq) (charge id).
Proof. intros o1 o2 E. unfold charge. by rewrite E. Qed.

Section Books.
Context `{EnvOk} `{Hepoch : !Epochs} `{Hcheri : !Cheri}.
Implicit Types (caps : gmap Z PrivateAllocatorCapabilityState) (objs : list object) (o : object).

(** The identifiers in use were given out. *)
Definition ids_below (n : Z) (o : object) : Prop :=
  cowner (ochunk o) < n /\ Forall (fun k => kid k < n) (oclaims o).

Record books caps (next : Z) (grant : Z -> Z) objs : Prop := {
  ac_quota : forall a c, caps !! a = Some c -> 0 <= quota c /\ quota c + charge (identifier c) objs = grant a;
  ac_grant : forall a c, caps !! a = Some c -> grant a < 2 ^ 32;
  ac_ids : forall a c, caps !! a = Some c -> 0 <= identifier c < next;
  ac_distinct : forall a c a' c', caps !! a = Some c -> caps !! a' = Some c' -> identifier c = identifier c' ->
    identifier c <> 0 -> a = a';
  ac_next : 1 <= next <= 2 ^ OwnerIDWidth;
  ac_used : Forall (ids_below next) objs;
}.

Lemma books_perm caps next grant objs objs' : objs ≡ₚ objs' -> books caps next grant objs -> books caps next grant objs'.
Proof. intros E [B1 B2 B3 B4 B5 B6]. split; try done; [|by rewrite <- E]. intros a c Ha. rewrite <- E. by apply B1. Qed.

Lemma share_nonneg cells id o : object_ok cells o -> 0 <= share id o.
Proof.
  intros [[O1 _] _ _ O4 _]. change MinChunkSize with 16 in O1. unfold share, claims_share.
  assert (0 <= zsum (claim_share id (csize (ochunk o)) <$> (kview <$> oclaims o))) as Hz.
  { apply zsum_nonneg. intros v (k & -> & Hk)%list_elem_of_fmap. rewrite Forall_forall in O4.
    pose proof (proj1 (ko_given _ _ (O4 k Hk))) as Hs. change MinChunkSize with 16 in Hs.
    unfold claim_share. cbn. destruct (kid k =? id); lia. }
  destruct (cowner (ochunk o) =? id); lia.
Qed.

Lemma charge_nonneg cells id objs : Forall (object_ok cells) objs -> 0 <= charge id objs.
Proof.
  intros Ho. unfold charge. destruct (id =? 0); [done|]. apply zsum_nonneg. intros o Hin.
  rewrite Forall_forall in Ho. by eapply share_nonneg, Ho.
Qed.

(** A quota fits its word, also when an object's charge is returned. *)
Lemma books_room cells caps next grant o objs a c : books caps next grant (o :: objs) -> Forall (object_ok cells) (o :: objs) ->
  caps !! a = Some c -> identifier c <> 0 -> 0 <= quota c /\ quota c + share (identifier c) o < 2 ^ 32.
Proof.
  intros B Ho Ha Hid. destruct (ac_quota _ _ _ _ B a c Ha) as [Hq Hs]. rewrite charge_cons in Hs by done.
  pose proof (ac_grant _ _ _ _ B a c Ha). apply Forall_cons in Ho as [_ Ho].
  pose proof (charge_nonneg cells (identifier c) objs Ho). lia.
Qed.

Lemma books_word cells caps next grant objs a c : books caps next grant objs -> Forall (object_ok cells) objs ->
  caps !! a = Some c -> 0 <= quota c < 2 ^ 32.
Proof.
  intros B Ho Ha. destruct (ac_quota _ _ _ _ B a c Ha) as [Hq Hs]. pose proof (ac_grant _ _ _ _ B a c Ha).
  pose proof (charge_nonneg cells (identifier c) objs Ho). lia.
Qed.

(** One object and the quota of one capability change by the same amount. *)
Lemma books_move caps next grant objs objs' a c q : books caps next grant objs -> caps !! a = Some c -> identifier c <> 0 ->
  0 <= q -> q + charge (identifier c) objs' = quota c + charge (identifier c) objs ->
  (forall id, id <> identifier c -> charge id objs' = charge id objs) -> Forall (ids_below next) objs' ->
  books (<[a := mkPriv q (identifier c)]> caps) next grant objs'.
Proof.
  intros [B1 B2 B3 B4 B5 B6] Ha Hid Hq Hmove Hother Hids.
  assert (forall a' c', <[a := mkPriv q (identifier c)]> caps !! a' = Some c' ->
    exists c0, caps !! a' = Some c0 /\ identifier c' = identifier c0 /\
      ((a' = a /\ c0 = c /\ c' = mkPriv q (identifier c)) \/ (a' <> a /\ c' = c0))) as Hl.
  { intros a' c' [(<- & <-)|(Hne & E)]%lookup_insert_Some; [exists c|exists c']; (split; [done|split; [done|]]); [by left|by right]. }
  split; try done.
  - intros a' c' (c0 & E0 & Ei & [(-> & -> & ->)|(Hne & ->)])%Hl.
    + cbn. split; [done|]. rewrite Hmove. by apply B1.
    + rewrite Hother; [by apply B1|]. intros E1. apply Hne. apply (B4 a' c0 a c); [done|done|done|congruence].
  - intros a' c' (c0 & E0 & _)%Hl. by eapply B2.
  - intros a' c' (c0 & E0 & -> & _)%Hl. by eapply B3.
  - intros a1 c1 a2 c2 (d1 & E1 & -> & _)%Hl (d2 & E2 & -> & _)%Hl. by apply (B4 a1 d1 a2 d2).
Qed.

(** As [books_move], for the first object of the list. *)
Lemma books_object caps next grant o o' objs a c q : books caps next grant (o :: objs) -> caps !! a = Some c ->
  identifier c <> 0 -> 0 <= q -> q + share (identifier c) o' = quota c + share (identifier c) o ->
  (forall id, id <> identifier c -> id <> 0 -> share id o' = share id o) -> ids_below next o' ->
  books (<[a := mkPriv q (identifier c)]> caps) next grant (o' :: objs).
Proof.
  intros B Ha Hid Hq Hm Hs Hb. eapply books_move; try done.
  - rewrite !charge_cons by done. lia.
  - intros id Hne. destruct (decide (id = 0)) as [->|]; [done|]. rewrite !charge_cons by done. by rewrite Hs.
  - constructor; [done|]. pose proof (ac_used _ _ _ _ B) as Hu. by apply Forall_cons in Hu as [_ ?].
Qed.

Lemma books_same caps next grant o o' objs : books caps next grant (o :: objs) -> (forall id, id <> 0 -> share id o' = share id o) ->
  ids_below next o' -> books caps next grant (o' :: objs).
Proof.
  intros [B1 B2 B3 B4 B5 [B6 B7]%Forall_cons] Hs Hb. split; try done; [|by constructor].
  intros a c Ha. destruct (B1 a c Ha) as [Hq Hc]. split; [done|]. rewrite <- Hc.
  destruct (decide (identifier c = 0)) as [->|Hid]; [done|]. rewrite !charge_cons by done. by rewrite Hs.
Qed.

(** An object that nobody holds costs nothing. *)
Lemma books_drop caps next grant o objs : books caps next grant (o :: objs) -> cowner (ochunk o) = 0 -> oclaims o = [] ->
  books caps next grant objs.
Proof.
  intros [B1 B2 B3 B4 B5 [B6 B7]%Forall_cons] Ho Hc. split; try done.
  intros a c Ha. destruct (B1 a c Ha) as [Hq Hs]. split; [done|]. rewrite <- Hs.
  destruct (decide (identifier c = 0)) as [->|Hid]; [done|]. rewrite charge_cons by done.
  assert (share (identifier c) o = 0) as ->; [|lia]. unfold share. rewrite Ho, Hc, (proj2 (Z.eqb_neq _ _)) by done. done.
Qed.
End Books.
