(* ===== verification/ClaimApi.v ===== *)
(** * Claiming and dropping claims

    [claim_create], [claim_destroy], [claim_add] and [claim_drop] of [HeapApi]: who holds
    the object afterwards, and what it costs. *)

From S2P Require Import Prelude LinkedList RingBuffer Bits AllocSizes ChunkHeader MState Bins SmallBins Allocator Quarantine Hazard Label Dispatch Owns HeapApi Ledger Claims Books.

(** ** Running computations of [C] *)

Lemma C_bind_ok {A B} (m : C A) (k : A -> C B) g a g' : m g = Ok (a, g') -> (m ≫= k) g = k a g'.
Proof. unfold mbind, C_bind. by intros ->. Qed.

Lemma C_mret {A B} (a : A) (k : A -> C B) g : ((mret a : C A) ≫= k) g = k a g.
Proof. done. Qed.

Lemma C_assoc {A B D} (m : C A) (f : A -> C B) (k : B -> C D) g : ((m ≫= f) ≫= k) g = (m ≫= fun a => f a ≫= k) g.
Proof. unfold mbind, C_bind. destruct (m g) as [[a g']|]; [|done]. cbn. done. Qed.

Tactic Notation "crun" uconstr(E) := rewrite (C_bind_ok _ _ _ _ _ E); cbn beta.

Lemma on_gm_ok {A} (m : M A) s a s' caps nx ff nt : m s = Ok (a, s') ->
  on_gm m (mkComp (Some s) caps nx ff nt) = Ok (a, mkComp (Some s') caps nx ff nt).
Proof. intros E. unfold on_gm. cbn. by rewrite E. Qed.

Tactic Notation "grun" uconstr(E) := rewrite (C_bind_ok _ _ _ _ _ (on_gm_ok _ _ _ _ _ _ _ _ E)); cbn beta.

Lemma capability_get_ok s caps nx ff nt a c : caps !! a = Some c ->
  capability_get a (mkComp (Some s) caps nx ff nt) = Ok (c, mkComp (Some s) caps nx ff nt).
Proof. intros E. unfold capability_get. cbn. by rewrite E. Qed.

Lemma quota_set_ok s caps nx ff nt a c v : caps !! a = Some c -> 0 <= v < 2 ^ 32 ->
  quota_set a v (mkComp (Some s) caps nx ff nt) = Ok (tt, mkComp (Some s) (<[a := mkPriv v (identifier c)]> caps) nx ff nt).
Proof. intros E Hv. unfold quota_set. cbn. rewrite E. cbn. unfold u32. by rewrite wrap_small. Qed.

(** ** Counting references *)

Definition one_more (n : Z) : Z := if n =? UINT32_MAX then n else n + 1.
Definition one_less (n : Z) : Z := if n =? UINT32_MAX then n else n - 1.

(** Somebody holds the object, and every claim on it counts. *)
Definition live_object (o : object) : Prop :=
  (cowner (ochunk o) <> 0 \/ oclaims o <> []) /\ Forall (fun k => 1 <= kcount k) (oclaims o).

Section ClaimApi.
Context `{EnvOk} `{Hepoch : !Epochs} `{Hcheri : !Cheri} (nx ff : Z) (nt : nat).
Implicit Types (s : MState) (o : object) (caps : gmap Z PrivateAllocatorCapabilityState).

Local Notation comp s caps := (mkComp (Some s) caps nx ff nt).

Definition fewer s s' : Prop := (length (hazardQuarantine s') <= length (hazardQuarantine s))%nat.

#[local] Lemma fewer_refl s : fewer s s.
Proof. unfold fewer. lia. Qed.

Lemma object_header extra s o objs hs fd : ledger extra s (o :: objs) hs fd ->
  exists h, chunk_header (from_body (obody o)) s = Ok (h, s) /\ header_says h (ochunk o) /\
    chunk_size (from_body (obody o)) s = Ok (csize (ochunk o), s).
Proof.
  intros L. destruct (ledger_in _ _ _ _ _ o L ltac:(left)) as (al & Ho & Hb & _).
  destruct (owns_chunk_header s al _ _ Ho Hb) as (h & E & Hh). exists h. splits; [done|done|]. by eapply owns_size.
Qed.

Lemma capability_same caps a c : caps !! a = Some c -> <[a := mkPriv (quota c) (identifier c)]> caps = caps.
Proof. intros E. apply insert_id. rewrite E. by destruct c. Qed.

Lemma claim_create_ok extra s objs hs fd caps a c next : ledger extra s objs hs fd -> caps !! a = Some c ->
  0 <= quota c < 2 ^ 32 ->
  exists r s' hs' caps', claim_create a next (comp s caps) = Ok (r, comp s' caps') /\ fewer s s' /\
    match r with
    | None => ledger extra s' objs hs' fd /\ caps' = caps /\ exists why, refused_for sizeof_Claim (quota c) why s'
    | Some x => exists d, ledger ((x, d) :: extra) s' objs hs' fd /\ idle d /\ given x d /\
        claimcells s' !! x = Some (mkClaim (identifier c) next 1) /\ csize d <= quota c /\
        caps' = <[a := mkPriv (quota c - csize d) (identifier c)]> caps
    end.
Proof.
  intros L Ha Hq. unfold claim_create. crun (capability_get_ok s caps nx ff nt a c Ha).
  destruct (ledger_dispatch extra s objs hs fd sizeof_Claim (quota c) QuotaIdentifierAllocatorOwned false L) as
    (r & q & s' & hs' & got & E & L' & Hr & Hh & _); [done|done|done|]. grun E. cbn beta iota.
  unfold obtained in Hr. destruct r.
  1-4: destruct Hr as (-> & -> & Hwhy); crun (quota_set_ok s' caps nx ff nt a c (quota c) Ha Hq); rewrite capability_same by done;
    exists None, s', hs', caps; splits; [done|done|done|done|by eexists].
  destruct Hr as (b & d & -> & -> & _ & Hpr & Ho & _ & Hc & Hs & -> & Hq'). pose proof (conj Hs Hpr : given b d) as Hgv.
  assert (0 <= quota c - csize d < 2 ^ 32) as Hw by (change MinChunkSize with 16 in Hs; lia).
  crun (quota_set_ok s' caps nx ff nt a c _ Ha Hw). cbn [cbase].
  rewrite (C_bind_ok _ _ _ tt (comp (with_claimcells (<[b := mkClaim (identifier c) next 1]> (claimcells s')) s')
    (<[a := mkPriv (quota c - csize d) (identifier c)]> caps))) by done.
  eexists (Some b), _, hs', _. splits; [reflexivity|done|]. exists d. splits; try done.
  - by apply ledger_write.
  - cbn. by rewrite lookup_insert_eq.
  - lia.
Qed.

Lemma claim_precise b : is_precise_range b sizeof_Claim = true.
Proof.
  change sizeof_Claim with 8. rewrite precise_iff by (change MaxChunkSize with 524280; lia).
  rewrite exponent_small by lia. change (2 ^ 0) with 1. by rewrite !Z.mod_1_r.
Qed.

Lemma claim_destroy_ok extra s objs hs fd caps a c x d : ledger ((x, d) :: extra) s objs hs fd -> caps !! a = Some c ->
  idle d -> given x d -> room 1 s -> 0 <= quota c + csize d < 2 ^ 32 ->
  exists s' hs', claim_destroy a x (comp s caps) =
      Ok (tt, comp s' (<[a := mkPriv (quota c + csize d) (identifier c)]> caps)) /\ ledger extra s' objs hs' fd /\
    (length (hazardQuarantine s') <= S (length (hazardQuarantine s)))%nat.
Proof.
  intros L Ha Hi Hs Hr Hq. unfold claim_destroy.
  grun (owns_size s _ x d (lg_owns _ _ _ _ _ L) ltac:(left)). crun (capability_get_ok s caps nx ff nt a c Ha).
  crun (quota_set_ok s caps nx ff nt a c _ Ha Hq). pose proof (proj1 Hs) as Hm. change MinChunkSize with 16 in Hm.
  destruct (ledger_free x d extra s objs hs fd sizeof_Claim L Hi Hs) as (s' & hs' & E & L' & Hl & _);
    [change sizeof_Claim with 8; change sizeof_header with 8; lia|done|apply claim_precise|done|].
  grun E. by exists s', hs'.
Qed.

(** The shares of an object with these claims. *)
Lemma share_views id o o' : ochunk o' = ochunk o -> kview <$> oclaims o' = kview <$> oclaims o -> share id o' = share id o.
Proof. unfold share. by intros -> ->. Qed.

Lemma one_more_range n : 0 <= n <= UINT32_MAX -> 0 <= one_more n <= UINT32_MAX.
Proof. unfold one_more. intros Hn. destruct (Z.eqb_spec n UINT32_MAX); lia. Qed.

Lemma add_ok s k : claimcells s !! kaddr k = Some (kcell k) ->
  reference_add (kaddr k) s = Ok (tt, with_claimcells
    (<[kaddr k := mkClaim (kid k) (encodedNext (kcell k)) (one_more (kcount k))]> (claimcells s)) s).
Proof.
  intros E. unfold reference_add. rewrite (claim_update_ok s k _ E). unfold one_more, kcount, kid.
  destruct (kcell k) as [i e n]. cbn [allocatorIdentifier encodedNext referenceCount]. by destruct (n =? UINT32_MAX).
Qed.

(** The references and the shares of an object, one of whose claims is singled out. *)
Lemma split_refs id o ks1 k ks2 : oclaims o = ks1 ++ k :: ks2 -> holds id o =
  (if cowner (ochunk o) =? id then 1 else 0) + zsum (claim_refs id <$> (kview <$> ks1 ++ ks2)) + (if kid k =? id then kcount k else 0).
Proof.
  intros E. unfold holds. rewrite E, !fmap_app, !zsum_app. cbn [fmap list_fmap zsum foldr].
  change (foldr Z.add 0 (claim_refs id <$> (kview <$> ks2))) with (zsum (claim_refs id <$> (kview <$> ks2))).
  change (claim_refs id (kview k)) with (if kid k =? id then kcount k else 0). lia.
Qed.

Lemma split_share id o ks1 k ks2 : oclaims o = ks1 ++ k :: ks2 -> share id o =
  (if cowner (ochunk o) =? id then csize (ochunk o) else 0) + claims_share id (csize (ochunk o)) (kview <$> ks1 ++ ks2) +
  (if kid k =? id then csize (ochunk o) + csize (kchunk k) else 0).
Proof.
  intros E. unfold share. rewrite E, !fmap_app, !claims_share_app. cbn [fmap list_fmap].
  rewrite claims_share_cons. change (claim_share id (csize (ochunk o)) (kview k)) with
    (if kid k =? id then csize (ochunk o) + csize (kchunk k) else 0). lia.
Qed.

(** The only claim of its holder. *)
Lemma sole_claim cells o ks1 k ks2 : object_ok cells o -> oclaims o = ks1 ++ k :: ks2 ->
  cowner (ochunk o) <> kid k /\ kid k ∉ kid <$> ks1 ++ ks2.
Proof.
  intros [_ _ _ _ Hn] E. rewrite E, fmap_app in Hn. cbn [fmap list_fmap] in Hn. apply NoDup_cons in Hn as [N1 N2].
  rewrite elem_of_app, elem_of_cons in N1. apply NoDup_app in N2 as (N2 & N3 & [N4 N5]%NoDup_cons).
  split; [intros E0; rewrite E0 in N1; tauto|]. rewrite fmap_app, elem_of_app. intros [Hin|Hin]; [|done].
  apply (N3 _ Hin). left.
Qed.

Lemma holds_claim cells o ks1 k ks2 : object_ok cells o -> oclaims o = ks1 ++ k :: ks2 -> holds (kid k) o = kcount k.
Proof.
  intros Ho E. destruct (sole_claim cells o ks1 k ks2 Ho E) as [Hne Hn]. rewrite (split_refs _ _ _ _ _ E).
  rewrite (proj2 (Z.eqb_neq _ _)) by done. rewrite refs_none by done. rewrite Z.eqb_refl. lia.
Qed.

Lemma holds_unclaimed id o : id ∉ kid <$> oclaims o -> holds id o = if cowner (ochunk o) =? id then 1 else 0.
Proof. intros Hn. unfold holds. rewrite refs_none by done. lia. Qed.

(** What a change of an object's references leaves alone: the object itself, and the references
    of the others. *)
Definition same_but (id : Z) o o' : Prop :=
  obody o' = obody o /\ csize (ochunk o') = csize (ochunk o) /\ csealed (ochunk o') = csealed (ochunk o) /\
  forall id', id' <> id -> id' <> 0 -> holds id' o' = holds id' o.

Lemma same_but_refl id o : same_but id o o.
Proof. by unfold same_but. Qed.

(** *** An existing claim counts one more *)

Lemma claim_again s o objs hs fd grant caps ks1 k ks2 n : ledger [] s (o :: objs) hs fd -> books caps nx grant (o :: objs) ->
  oclaims o = ks1 ++ k :: ks2 -> 0 <= n <= UINT32_MAX ->
  let c := mkClaim (kid k) (encodedNext (kcell k)) n in
  let o' := mkObject (obody o) (ochunk o) (ks1 ++ mkClaimant (kaddr k) c (kchunk k) :: ks2) in
  ledger [] (with_claimcells (<[kaddr k := c]> (claimcells s)) s) (o' :: objs) hs fd /\
    books caps nx grant (o' :: objs) /\ same_but (kid k) o o' /\ holds (kid k) o' = n.
Proof.
  intros L B Eo Hn c o'. pose proof (claim_count [] s objs hs fd o ks1 k ks2 n L Eo Hn) as L'.
  destruct (ledger_in _ _ _ _ _ o L ltac:(left)) as (_ & _ & _ & _ & Hok).
  destruct (ledger_in _ _ _ _ _ o' L' ltac:(left)) as (_ & _ & _ & _ & Hok').
  splits; [exact L'| | |].
  - apply (books_same _ _ _ o); [done| |].
    + intros id _. rewrite (split_share id o _ _ _ Eo). by rewrite (split_share id o' ks1 _ ks2 eq_refl).
    + pose proof (ac_used _ _ _ _ B) as [[U1 U2] _]%Forall_cons. rewrite Eo in U2. split; [done|].
      apply Forall_app in U2 as [U2 [U3 U4]%Forall_cons]. apply Forall_app. split; [done|]. by constructor.
  - unfold same_but. splits; try done. intros id Hne _. rewrite (split_refs id o _ _ _ Eo), (split_refs id o' ks1 _ ks2 eq_refl).
    cbn [kid kcell allocatorIdentifier ochunk o' c]. rewrite !(proj2 (Z.eqb_neq (kid k) id)) by congruence. done.
  - by rewrite (holds_claim _ _ _ _ _ Hok' eq_refl : holds (kid k) o' = _).
Qed.

(** *** A new claim *)

(** The shares and references with a claim more in front. *)
Lemma front_views id o o' k : ochunk o' = ochunk o \/ oview o' = oview o -> oclaims o' = k :: oclaims o ->
  share id o' = share id o + (if kid k =? id then csize (ochunk o) + csize (kchunk k) else 0) /\
  holds id o' = holds id o + (if kid k =? id then kcount k else 0).
Proof.
  intros Hv E. assert (csize (ochunk o') = csize (ochunk o) /\ cowner (ochunk o') = cowner (ochunk o)) as [E1 E2].
  { destruct Hv as [->|Hv]; [done|]. by injection Hv. }
  unfold share, holds. rewrite E, E1, E2. cbn [fmap list_fmap zsum foldr]. rewrite claims_share_cons.
  change (claim_share id (csize (ochunk o)) (kview k)) with (if kid k =? id then csize (ochunk o) + csize (kchunk k) else 0).
  change (claim_refs id (kview k)) with (if kid k =? id then kcount k else 0).
  change (foldr Z.add 0 (claim_refs id <$> (kview <$> oclaims o))) with (zsum (claim_refs id <$> (kview <$> oclaims o))). lia.
Qed.

Lemma share_unclaimed id o : id ∉ kid <$> oclaims o -> share id o = if cowner (ochunk o) =? id then csize (ochunk o) else 0.
Proof. intros Hn. unfold share. rewrite claims_share_none by done. lia. Qed.

(** A claim in hand is linked. *)
Lemma claim_linked s o objs hs fd caps x d id n : ledger [(x, d)] s (o :: objs) hs fd ->
  claimcells s !! x = Some (mkClaim id (cclaims (ochunk o)) n) -> idle d -> given x d -> id_ok id ->
  0 <= n <= UINT32_MAX -> id <> cowner (ochunk o) -> id ∉ kid <$> oclaims o ->
  exists s' o', (offset ← on_gm (encode_address x); _ ← on_gm (next_set (InHeader (from_body (obody o))) offset); mret true)
      (comp s caps) = Ok (true, comp s' caps) /\ ledger [] s' (o' :: objs) hs fd /\ oview o' = oview o /\
    oclaims o' = mkClaimant x (mkClaim id (cclaims (ochunk o)) n) d :: oclaims o /\ hazardQuarantine s' = hazardQuarantine s.
Proof.
  intros L Ec Hi Hs Hid Hn Hno Hnk. grun (encode_ok s _ x d (lg_owns _ _ _ _ _ L) ltac:(left)).
  destruct (claim_in [] s objs hs fd o x d _ L Ec eq_refl Hi Hs Hid Hn Hno Hnk) as (s' & o' & E & L' & Hv & Hk & Hc & _).
  grun E. by exists s', o'.
Qed.

(** The object with a claim more, which the compartment [id] holds now. *)
Lemma claimed_object o o' k : oview o' = oview o -> oclaims o' = k :: oclaims o ->
  same_but (kid k) o o' /\ holds (kid k) o' = holds (kid k) o + kcount k.
Proof.
  intros Hv E. pose proof (fun id => proj2 (front_views id o o' k (or_intror Hv) E)) as Hh. split.
  - injection Hv as E1 E2 E3 E4. unfold same_but. splits; [done|done|done|]. intros id Hne _. rewrite Hh.
    rewrite (proj2 (Z.eqb_neq (kid k) id)) by congruence. lia.
  - by rewrite Hh, Z.eqb_refl.
Qed.

Definition claim_added (id : Z) o o' : Prop :=
  same_but id o o' /\ holds id o' = one_more (holds id o) /\ live_object o'.

(** Why the compartment [id], which has [quota] left, gets no claim on [o]: it has none yet, and
    cannot pay for the object, or for the memory of the claim besides, or there is none. *)
Definition cannot_claim (id quota : Z) o s' : Prop :=
  id ∉ kid <$> oclaims o /\
  ((cowner (ochunk o) <> id /\ quota < csize (ochunk o)) \/
   exists why, refused_for sizeof_Claim (quota - (if cowner (ochunk o) =? id then 0 else csize (ochunk o))) why s').

(** The owner turns its ownership into a claim, which counts twice. *)
Lemma claim_by_owner s o objs hs fd grant caps a c : ledger [] s (o :: objs) hs fd -> books caps nx grant (o :: objs) ->
  live_object o -> caps !! a = Some c -> identifier c <> 0 -> identifier c = cowner (ochunk o) ->
  exists b s' o' hs' caps', (created ← claim_create a (cclaims (ochunk o));
      match created with
      | Some x =>
          _ ← (_ ← on_gm (on_heap (fun ar => hupd ar (from_body (obody o)) (set_ownerID 0))); on_gm (reference_add x));
          offset ← on_gm (encode_address x);
          _ ← on_gm (next_set (InHeader (from_body (obody o))) offset);
          mret true
      | None => _ ← mret tt; mret false
      end) (comp s caps) = Ok (b, comp s' caps') /\ fewer s s' /\ ledger [] s' (o' :: objs) hs' fd /\
    books caps' nx grant (o' :: objs) /\
    if b then claim_added (identifier c) o o' else o' = o /\ caps' = caps /\ cannot_claim (identifier c) (quota c) o s'.
Proof.
  intros L B Hlive Ha Hid Hown. pose proof (books_word _ _ _ _ _ _ _ B (lg_objects _ _ _ _ _ L) Ha) as Hq.
  destruct (ac_ids _ _ _ _ B a c Ha) as [Hid0 Hidn]. destruct (ac_next _ _ _ _ B) as [_ Hnx].
  destruct (ledger_in _ _ _ _ _ o L ltac:(left)) as (_ & _ & _ & _ & Hok). pose proof (oo_once _ _ Hok) as [Hon _]%NoDup_cons.
  destruct (claim_create_ok [] s (o :: objs) hs fd caps a c (cclaims (ochunk o)) L Ha Hq) as (r & s1 & hs1 & caps1 & E & Hf & Hr).
  crun E. destruct r as [x|]; [|destruct Hr as (L1 & -> & why & Hwhy); rewrite C_mret; exists false, s1, o, hs1, caps].
  2:{ splits; try done. split; [by rewrite Hown|]. right. exists why. by rewrite Hown, Z.eqb_refl, Z.sub_0_r. }
  destruct Hr as (d & L1 & Hi & Hs & Ec & Hle & ->).
  destruct (disowned _ _ _ _ _ _ L1) as (h & Eh & L2). set (o1 := mkObject (obody o) (with_cowner 0 (ochunk o)) (oclaims o)) in L2.
  rewrite C_assoc. grun Eh.
  set (k := mkClaimant x (mkClaim (identifier c) (cclaims (ochunk o)) 1) d). pose proof (add_ok (with_heap h s1) k Ec) as Er.
  change (one_more (kcount k)) with 2 in Er. cbn [kaddr kid kcell k allocatorIdentifier encodedNext] in Er. grun Er.
  pose proof (ledger_write _ _ _ _ _ _ _ (mkClaim (identifier c) (cclaims (ochunk o)) 2) L2) as L3.
  destruct (claim_linked _ o1 objs hs1 fd (<[a:=mkPriv (quota c - csize d) (identifier c)]> caps) x d (identifier c) 2 L3)
    as (s' & o' & E4 & L4 & Hv & Hk & Hz); try done.
  { cbn. by rewrite lookup_insert_eq. } { split; lia. } { cbn. by rewrite Hown. }
  exists true, s', o', hs1. eexists. splits; [exact E4|unfold fewer in *; by rewrite Hz|exact L4| |].
  - assert (forall id, id <> 0 -> id <> identifier c -> share id o' = share id o) as Hsh.
    { intros id H1 H2. rewrite (proj1 (front_views id o1 o' _ (or_intror Hv) Hk)). cbn [kid kcell allocatorIdentifier].
      rewrite (proj2 (Z.eqb_neq (identifier c) id)) by congruence. unfold share. cbn [o1 ochunk oclaims cowner csize with_cowner].
      rewrite (proj2 (Z.eqb_neq 0 id)), (proj2 (Z.eqb_neq (cowner (ochunk o)) id)) by congruence. lia. }
    apply (books_object caps nx grant o o'); try done; [lia| |by intros id ? ?; apply Hsh|].
    + rewrite (proj1 (front_views _ o1 o' _ (or_intror Hv) Hk)). cbn [kid kcell allocatorIdentifier kchunk].
      rewrite Z.eqb_refl. rewrite share_unclaimed by (cbn; by rewrite Hown). rewrite (share_unclaimed _ o) by (by rewrite Hown).
      cbn [o1 ochunk oclaims cowner csize with_cowner]. rewrite (proj2 (Z.eqb_neq 0 _)) by done. rewrite Hown, Z.eqb_refl. lia.
    + pose proof (ac_used _ _ _ _ B) as [[U1 U2] _]%Forall_cons. injection Hv as _ _ Ev _. split; [rewrite Ev; cbn; lia|].
      rewrite Hk. by constructor.
  - destruct (claimed_object o1 o' _ Hv Hk) as [(S1 & S2 & S3 & S4) S5]. cbn [kid kcell allocatorIdentifier] in S4, S5. unfold claim_added.
    rewrite (holds_unclaimed (identifier c) o) by (by rewrite Hown). rewrite (holds_unclaimed (identifier c) o1) in S5 by (cbn; by rewrite Hown).
    cbn [o1 ochunk cowner with_cowner kcount kcell referenceCount] in S5. rewrite (proj2 (Z.eqb_neq 0 _)) in S5 by done.
    rewrite Hown, Z.eqb_refl. splits.
    + unfold same_but. splits; [done|done|done|]. intros id Hne Hne0. rewrite (S4 id) by congruence. unfold holds. cbn [o1 ochunk oclaims cowner with_cowner].
      rewrite (proj2 (Z.eqb_neq 0 id)), (proj2 (Z.eqb_neq (cowner (ochunk o)) id)) by congruence. done.
    + rewrite <- Hown, S5. done.
    + split; [right; rewrite Hk; done|]. rewrite Hk. constructor; [done|]. apply Hlive.
Qed.

(** Another compartment claims the object, and pays for it. *)
Lemma claim_by_other s o objs hs fd grant caps a c : ledger [] s (o :: objs) hs fd -> books caps nx grant (o :: objs) ->
  live_object o -> caps !! a = Some c -> identifier c <> 0 -> identifier c <> cowner (ochunk o) ->
  identifier c ∉ kid <$> oclaims o -> csize (ochunk o) <= quota c ->
  exists b s' o' hs' caps', (created ← claim_create a (cclaims (ochunk o));
      match created with
      | Some x =>
          _ ← mret tt;
          offset ← on_gm (encode_address x);
          _ ← on_gm (next_set (InHeader (from_body (obody o))) offset);
          mret true
      | None => _ ← (c ← capability_get a; quota_set a (quota c + csize (ochunk o))); mret false
      end) (comp s (<[a := mkPriv (quota c - csize (ochunk o)) (identifier c)]> caps)) = Ok (b, comp s' caps') /\
    fewer s s' /\ ledger [] s' (o' :: objs) hs' fd /\
    books caps' nx grant (o' :: objs) /\
    if b then claim_added (identifier c) o o' else o' = o /\ caps' = caps /\ cannot_claim (identifier c) (quota c) o s'.
Proof.
  intros L B Hlive Ha Hid Hno Hnk Hsz. pose proof (books_word _ _ _ _ _ _ _ B (lg_objects _ _ _ _ _ L) Ha) as Hq.
  destruct (ac_ids _ _ _ _ B a c Ha) as [Hid0 Hidn]. destruct (ac_next _ _ _ _ B) as [_ Hnx].
  destruct (ledger_in _ _ _ _ _ o L ltac:(left)) as (_ & _ & _ & _ & Hok). pose proof (oo_given _ _ Hok) as [Hmin _].
  change MinChunkSize with 16 in Hmin. set (c1 := mkPriv (quota c - csize (ochunk o)) (identifier c)).
  assert (<[a := c1]> caps !! a = Some c1) as Ha1 by (by rewrite lookup_insert_eq).
  destruct (claim_create_ok [] s (o :: objs) hs fd _ a c1 (cclaims (ochunk o)) L Ha1) as (r & s1 & hs1 & caps1 & E & Hf & Hr); [cbn; lia|].
  crun E. destruct r as [x|].
  - destruct Hr as (d & L1 & Hi & Hs & Ec & Hle & ->). rewrite C_mret, insert_insert_eq.
    destruct (claim_linked _ o objs hs1 fd (<[a := mkPriv (quota c1 - csize d) (identifier c1)]> caps) x d (identifier c) 1 L1 Ec)
      as (s' & o' & E4 & L4 & Hv & Hk & Hz); try done; [split; lia|].
    exists true, s', o', hs1. eexists. splits; [exact E4|unfold fewer in *; by rewrite Hz|exact L4| |].
    + pose proof (fun id => proj1 (front_views id o o' _ (or_intror Hv) Hk)) as Hsh. cbn [kid kcell allocatorIdentifier kchunk] in Hsh.
      cbn [c1 quota identifier] in Hle |- *.
      apply (books_object caps nx grant o o'); try done; [lia| | |].
      * rewrite Hsh, Z.eqb_refl. lia.
      * intros id Hne _. rewrite Hsh, (proj2 (Z.eqb_neq _ _)) by congruence. lia.
      * pose proof (ac_used _ _ _ _ B) as [[U1 U2] _]%Forall_cons. injection Hv as _ _ Ev _. split; [by rewrite Ev|].
        rewrite Hk. by constructor.
    + destruct (claimed_object o o' _ Hv Hk) as [S1 S2]. cbn [kid kcell allocatorIdentifier kcount referenceCount] in S1, S2.
      rewrite (holds_unclaimed _ o) in S2 by done. rewrite (proj2 (Z.eqb_neq (cowner _) _)) in S2 by congruence.
      unfold claim_added. rewrite (holds_unclaimed _ o) by done. rewrite (proj2 (Z.eqb_neq (cowner _) _)) by congruence.
      splits; [exact S1|by rewrite S2|]. split; [right; by rewrite Hk|]. rewrite Hk. constructor; [done|apply Hlive].
  - destruct Hr as (L1 & -> & why & Hwhy). rewrite C_assoc. crun (capability_get_ok s1 _ nx ff nt a c1 Ha1).
    crun (quota_set_ok s1 _ nx ff nt a c1 (quota c1 + csize (ochunk o)) Ha1 ltac:(cbn; lia)).
    rewrite insert_insert_eq. cbn [c1 quota identifier].
    replace (quota c - csize (ochunk o) + csize (ochunk o)) with (quota c) by lia. rewrite capability_same by done.
    exists false, s1, o, hs1, caps. splits; try done. split; [done|]. right. exists why.
    by rewrite (proj2 (Z.eqb_neq (cowner _) _)) by congruence.
Qed.

(** [claim_add]: one more reference, or nothing changes. *)
Lemma claim_add_ok s o objs hs fd grant caps a c : ledger [] s (o :: objs) hs fd -> books caps nx grant (o :: objs) ->
  live_object o -> caps !! a = Some c -> identifier c <> 0 ->
  exists b s' o' hs' caps', claim_add a (from_body (obody o)) (comp s caps) = Ok (b, comp s' caps') /\ fewer s s' /\
    ledger [] s' (o' :: objs) hs' fd /\ books caps' nx grant (o' :: objs) /\
    if b then claim_added (identifier c) o o' else o' = o /\ caps' = caps /\ cannot_claim (identifier c) (quota c) o s'.
Proof.
  intros L B Hlive Ha Hid. unfold claim_add. crun (capability_get_ok s caps nx ff nt a c Ha).
  destruct (claim_cases o (identifier c)) as [Hn|(ks1 & k & ks2 & Eo & Ek)].
  - grun (claim_find_none [] s (o :: objs) hs fd o (identifier c) L ltac:(left) Hn). cbn beta iota.
    destruct (object_header [] s o objs hs fd L) as (h & Eh & Hh & _). grun Eh. rewrite (hs_owner _ _ Hh), (hs_size _ _ Hh).
    assert (next_get (InHeader (from_body (obody o))) s = Ok (cclaims (ochunk o), s)) as Eg.
    { cbn [next_get]. mrun Eh. by rewrite (hs_claims _ _ Hh). }
    destruct (Z.eqb_spec (cowner (ochunk o)) (identifier c)) as [Hown|Hno]; cbn [negb andb].
    + rewrite C_mret. grun Eg. by eapply claim_by_owner.
    + destruct (Z.ltb_spec (quota c) (csize (ochunk o))) as [Hlt|Hge]; [exists false, s, o, hs, caps; splits; try done; [apply fewer_refl|split; [done|left; split; [congruence|done]]]|].
      pose proof (books_word _ _ _ _ _ _ _ B (lg_objects _ _ _ _ _ L) Ha) as Hq.
      destruct (ledger_in _ _ _ _ _ o L ltac:(left)) as (_ & _ & _ & _ & Hok). pose proof (oo_given _ _ Hok) as [Hmin _].
      change MinChunkSize with 16 in Hmin.
      crun (quota_set_ok s caps nx ff nt a c (quota c - csize (ochunk o)) Ha ltac:(lia)). grun Eg. by eapply claim_by_other.
  - subst. rewrite <- Ek. grun (claim_find_some [] s (o :: objs) hs fd o ks1 k ks2 L ltac:(left) Eo). cbn beta iota.
    destruct (ledger_in _ _ _ _ _ o L ltac:(left)) as (_ & _ & _ & _ & Hok). pose proof (oo_claims _ _ Hok) as Hks. rewrite Eo in Hks.
    apply Forall_app in Hks as [_ [Hk _]%Forall_cons]. grun (add_ok s k (ko_cell _ _ Hk)).
    pose proof (one_more_range _ (ko_count _ _ Hk)) as Hr.
    destruct (claim_again s o objs hs fd grant caps ks1 k ks2 _ L B Eo Hr) as (L' & B' & Hsame & Hh).
    eexists true, _, _, hs, caps. splits; [reflexivity|unfold fewer; cbn; lia|exact L'|exact B'|]. unfold claim_added.
    splits; [done|by rewrite Hh, (holds_claim _ _ _ _ _ Hok Eo)|]. split; [right; cbn; by destruct ks1|].
    destruct Hlive as [_ Hc]. rewrite Eo in Hc. cbn [oclaims]. apply Forall_app in Hc as [C1 [C2 C3]%Forall_cons].
    apply Forall_app. split; [done|]. constructor; [|done]. unfold kcount at 1. cbn. unfold one_more. destruct (kcount k =? UINT32_MAX); lia.
Qed.
End ClaimApi.
