(* ===== verification/FreeApi.v ===== *)
(** * Dropping claims and freeing objects

    [claim_drop] and [heap_free_chunk] of [HeapApi]: the object stays while somebody holds
    it, and is freed with the last reference. *)

From S2P Require Import Prelude LinkedList RingBuffer Bits AllocSizes ChunkHeader MState Bins SmallBins Allocator Quarantine Hazard Label Dispatch Owns HeapApi Ledger Claims Books ClaimApi.

Section FreeApi.
Context `{EnvOk} `{Hepoch : !Epochs} `{Hcheri : !Cheri} (nx ff : Z) (nt : nat).
Implicit Types (s : MState) (o : object) (caps : gmap Z PrivateAllocatorCapabilityState).

Local Notation comp s caps := (mkComp (Some s) caps nx ff nt).

(** At most [n] chunks more wait in the hazard quarantine. *)
Definition at_most (n : nat) s s' : Prop := (length (hazardQuarantine s') <= n + length (hazardQuarantine s))%nat.

Lemma at_most_same n s s' : hazardQuarantine s' = hazardQuarantine s -> at_most n s s'.
Proof. unfold at_most. intros ->. lia. Qed.

Lemma room_same n s s' : hazardQuarantine s' = hazardQuarantine s -> room n s -> room n s'.
Proof. unfold room. by intros ->. Qed.

Lemma cclaims_zero s o objs extra hs fd : ledger extra s (o :: objs) hs fd -> cclaims (ochunk o) = 0 <-> oclaims o = [].
Proof.
  intros L. destruct (ledger_in _ _ _ _ _ o L ltac:(left)) as (al & Ho & _ & Hal & Hok). pose proof (oo_chain _ _ Hok) as Hc.
  destruct (oclaims o) as [|k ks]; cbn in Hc; [done|]. split; [|done]. destruct Hc as [-> _].
  destruct (encoded_ok s al _ _ Ho (Hal k ltac:(left))) as [? _]. lia.
Qed.

Lemma remove_ok s k : claimcells s !! kaddr k = Some (kcell k) -> 1 <= kcount k <= UINT32_MAX ->
  reference_remove (kaddr k) s = Ok (one_less (kcount k) =? 0, with_claimcells
    (<[kaddr k := mkClaim (kid k) (encodedNext (kcell k)) (one_less (kcount k))]> (claimcells s)) s).
Proof.
  intros E Hr. unfold reference_remove. mrun (claim_update_ok s k _ E).
  match goal with |- context [with_claimcells (<[kaddr k := ?c]> _) s] => set (c1 := c) end.
  assert (claim_at (kaddr k) (with_claimcells (<[kaddr k := c1]> (claimcells s)) s) =
    Ok (c1, with_claimcells (<[kaddr k := c1]> (claimcells s)) s)) as E1 by (apply reads_ok; cbn; by rewrite lookup_insert_eq).
  mrun E1. unfold one_less, kcount, kid, UINT32_MAX in *. subst c1. destruct (kcell k) as [i e n]. cbn [allocatorIdentifier encodedNext referenceCount] in *.
  destruct (Z.eqb_spec n (2 ^ 32 - 1)); [done|]. cbn [referenceCount]. unfold u32. by rewrite wrap_small by lia.
Qed.

(** A property of the views of claims carries over to claims with the same views. *)
Lemma same_views (Q : Z * Z * Z -> Prop) ks ks' : kview <$> ks' = kview <$> ks ->
  Forall (fun k => Q (kview k)) ks -> Forall (fun k => Q (kview k)) ks'.
Proof. intros E Hks. apply (Forall_fmap kview Q). rewrite E. by apply (Forall_fmap kview Q). Qed.

(** *** The last reference of a claim *)

(** A claim is taken out, its chunk is freed and everything it was charged for is
    returned. *)
Lemma claim_ended s o objs hs fd grant caps a c ks1 k ks2 : ledger [] s (o :: objs) hs fd -> books caps nx grant (o :: objs) ->
  oclaims o = ks1 ++ k :: ks2 -> caps !! a = Some c -> identifier c = kid k -> room 1 s ->
  exists s' o' hs' caps', (following ← on_gm (claim_at (kaddr k));
      _ ← on_gm (next_set (ref_of (from_body (obody o)) ks1) (encodedNext following));
      size ← on_gm (chunk_size (from_body (obody o)));
      c ← capability_get a;
      _ ← quota_set a (quota c + size);
      claim_destroy a (kaddr k)) (comp s caps) = Ok (tt, comp s' caps') /\ at_most 1 s s' /\
    ledger [] s' (o' :: objs) hs' fd /\ books caps' nx grant (o' :: objs) /\ oview o' = oview o /\
    kview <$> oclaims o' = kview <$> (ks1 ++ ks2).
Proof.
  intros L B Eo Ha Hid Hroom.
  destruct (ledger_in _ _ _ _ _ o L ltac:(left)) as (_ & _ & _ & _ & Hok). pose proof (oo_claims _ _ Hok) as Hks. rewrite Eo in Hks.
  apply Forall_app in Hks as [_ [[K1 K2 K3 K4 K5] _]%Forall_cons]. destruct (sole_claim _ _ _ _ _ Hok Eo) as [Hno Hnk].
  assert (identifier c <> 0) as Hid0 by (rewrite Hid; destruct K4; lia).
  destruct (books_room _ _ _ _ _ _ _ _ B (lg_objects _ _ _ _ _ L) Ha Hid0) as [Hq1 Hq2].
  pose proof (fun id => split_share id o ks1 k ks2 Eo) as Hshare.
  assert (share (identifier c) o = csize (ochunk o) + csize (kchunk k)) as Es.
  { rewrite Hshare, Hid. rewrite (proj2 (Z.eqb_neq _ _)) by done. rewrite claims_share_none by done. rewrite Z.eqb_refl. lia. }
  pose proof (oo_given _ _ Hok) as [Hmin _]. pose proof (proj1 K3) as Hk3. change MinChunkSize with 16 in Hmin, Hk3.
  grun (claim_at_ok s k K1). destruct (claim_out [] s objs hs fd o ks1 k ks2 L Eo) as (s1 & o' & E1 & L1 & Hv & Hvs & [Hz _] & Ek). grun E1.
  assert (obody o' = obody o /\ csize (ochunk o') = csize (ochunk o) /\ cowner (ochunk o') = cowner (ochunk o)) as (Eb & Esz & Eow) by (by injection Hv).
  destruct (object_header _ s1 o' objs hs fd L1) as (_ & _ & _ & Esize). rewrite Eb, Esz in Esize. grun Esize.
  crun (capability_get_ok s1 caps nx ff nt a c Ha).
  crun (quota_set_ok s1 caps nx ff nt a c (quota c + csize (ochunk o)) Ha ltac:(lia)).
  set (c1 := mkPriv (quota c + csize (ochunk o)) (identifier c)).
  destruct (claim_destroy_ok nx ff nt [] s1 (o' :: objs) hs fd (<[a := c1]> caps) a c1 (kaddr k) (kchunk k) L1) as (s2 & hs2 & E2 & L2 & Hl);
    [by rewrite lookup_insert_eq|done|done|by eapply room_same|cbn; lia|].
  exists s2, o', hs2. eexists. splits; [exact E2| |exact L2| |done|done].
  - unfold at_most. rewrite <- Hz. lia.
  - rewrite insert_insert_eq. cbn [c1 quota identifier].
    assert (forall id, share id o' = (if cowner (ochunk o) =? id then csize (ochunk o) else 0) +
      claims_share id (csize (ochunk o)) (kview <$> ks1 ++ ks2)) as Hs' by (intros id; unfold share; by rewrite Eow, Esz, Hvs).
    apply (books_object caps nx grant o o'); try done; [lia| | |].
    + rewrite Es, Hs', Hid, (proj2 (Z.eqb_neq _ _)), claims_share_none by done. lia.
    + intros id Hne _. rewrite Hs', Hshare, (proj2 (Z.eqb_neq (kid k) id)) by congruence. lia.
    + pose proof (ac_used _ _ _ _ B) as [[U1 U2] _]%Forall_cons. split; [by rewrite Eow|].
      rewrite Eo in U2. apply (same_views (fun v => v.1.1 < nx) _ _ Hvs).
      apply Forall_app in U2 as [U2 [_ U3]%Forall_cons]. by apply Forall_app.
Qed.

(** The references that are left of those of [id]. *)
Definition left_of (freeAll : bool) (n : Z) : Z := if freeAll then 0 else one_less n.

(** The object after the holder [id] dropped a reference, or all. *)
Definition dropped (id : Z) (freeAll : bool) o o' : Prop :=
  same_but id o o' /\ holds id o' = left_of freeAll (holds id o) /\
  Forall (fun k => 1 <= kcount k) (oclaims o').

Lemma counts_view o' ks : kview <$> oclaims o' = kview <$> ks -> Forall (fun k => 1 <= kcount k) ks ->
  Forall (fun k => 1 <= kcount k) (oclaims o').
Proof. exact (same_views (fun v => 1 <= v.1.2) ks (oclaims o')). Qed.

(** What the references of an object without the claim [k] are. *)
Lemma dropped_view cells o o' ks1 k ks2 : object_ok cells o -> oclaims o = ks1 ++ k :: ks2 -> oview o' = oview o ->
  kview <$> oclaims o' = kview <$> (ks1 ++ ks2) -> same_but (kid k) o o' /\ holds (kid k) o' = 0.
Proof.
  intros Hok Eo Hv Hvs. destruct (sole_claim _ _ _ _ _ Hok Eo) as [Hno Hnk]. injection Hv as E1 E2 E3 E4.
  assert (forall id, holds id o' = (if cowner (ochunk o) =? id then 1 else 0) + zsum (claim_refs id <$> (kview <$> ks1 ++ ks2))) as Hh.
  { intros id. unfold holds. by rewrite E3, Hvs. }
  split.
  - unfold same_but. splits; [done|done|done|]. intros id Hne _. rewrite Hh, (split_refs id o ks1 k ks2 Eo).
    rewrite (proj2 (Z.eqb_neq (kid k) id)) by congruence. lia.
  - rewrite Hh, (proj2 (Z.eqb_neq _ _)), refs_none by done. done.
Qed.

Lemma left_of_count k : 1 <= kcount k <= UINT32_MAX -> 0 <= one_less (kcount k) <= UINT32_MAX.
Proof. unfold one_less. intros Hr. destruct (Z.eqb_spec (kcount k) UINT32_MAX); lia. Qed.

(** *** A reference is dropped *)

Lemma claim_drop_one s o objs hs fd grant caps a c ks1 k ks2 freeAll : ledger [] s (o :: objs) hs fd ->
  books caps nx grant (o :: objs) -> Forall (fun k => 1 <= kcount k) (oclaims o) -> caps !! a = Some c ->
  oclaims o = ks1 ++ k :: ks2 -> identifier c = kid k -> room 1 s ->
  exists s' o' hs' caps', claim_drop a (from_body (obody o)) true freeAll (comp s caps) = Ok (true, comp s' caps') /\
    at_most 1 s s' /\ ledger [] s' (o' :: objs) hs' fd /\ books caps' nx grant (o' :: objs) /\ dropped (kid k) freeAll o o' /\
    cowner (ochunk o') = cowner (ochunk o).
Proof.
  intros L B Hcount Ha Eo Hid Hroom. destruct (ledger_in _ _ _ _ _ o L ltac:(left)) as (_ & _ & _ & _ & Hok).
  pose proof (holds_claim _ _ _ _ _ Hok Eo) as Hh. rewrite Eo in Hcount. pose proof Hcount as [C1 [C2 C3]%Forall_cons]%Forall_app.
  pose proof (oo_claims _ _ Hok) as Hks. rewrite Eo in Hks. apply Forall_app in Hks as [_ [[K1 K2 K3 K4 K5] _]%Forall_cons].
  unfold claim_drop. crun (capability_get_ok s caps nx ff nt a c Ha). rewrite Hid.
  grun (claim_find_some [] s (o :: objs) hs fd o ks1 k ks2 L ltac:(left) Eo). cbn beta iota. cbn [negb].
  destruct freeAll.
  - rewrite C_mret. destruct (claim_ended s o objs hs fd grant caps a c ks1 k ks2 L B Eo Ha Hid Hroom) as
      (s' & o' & hs' & caps' & E & Hl & L' & B' & Hv & Hvs). crun E.
    destruct (dropped_view _ _ _ _ _ _ Hok Eo Hv Hvs) as [S1 S2].
    exists s', o', hs', caps'. splits; try done; [|by injection Hv]. unfold dropped. splits; [done|by rewrite S2|].
    eapply counts_view; [exact Hvs|by apply Forall_app].
  - grun (remove_ok s k K1 ltac:(lia)). pose proof (left_of_count k ltac:(lia)) as Hn.
    destruct (claim_again nx s o objs hs fd grant caps ks1 k ks2 _ L B Eo Hn) as (L1 & B1 & S1 & S2).
    set (k1 := mkClaimant (kaddr k) (mkClaim (kid k) (encodedNext (kcell k)) (one_less (kcount k))) (kchunk k)) in *.
    set (o1 := mkObject (obody o) (ochunk o) (ks1 ++ k1 :: ks2)) in *.
    destruct (Z.eqb_spec (one_less (kcount k)) 0) as [E0|Hne].
    + destruct (claim_ended _ o1 objs hs fd grant caps a c ks1 k1 ks2 L1 B1 eq_refl Ha Hid Hroom) as
        (s' & o' & hs' & caps' & E & Hl & L' & B' & Hv & Hvs). crun E.
      assert (oview o' = oview o) as Hvo by done. destruct (dropped_view _ _ _ _ _ _ Hok Eo Hvo Hvs) as [S3 S4].
      exists s', o', hs', caps'. splits; try done; [|by injection Hv]. unfold dropped. splits; [done|by rewrite S4, Hh|].
      eapply counts_view; [exact Hvs|by apply Forall_app].
    + rewrite C_mret. eexists _, o1, hs, caps. splits; [reflexivity|by apply at_most_same|exact L1|exact B1| |done].
      unfold dropped. splits; [exact S1|by rewrite S2, Hh|]. cbn [o1 oclaims]. apply Forall_app. split; [done|].
      constructor; [unfold kcount at 1; cbn; lia|done].
Qed.

(** Nobody claims the object for [c], or a claim is only looked at. *)
Lemma claim_drop_none s o objs hs fd caps a c really freeAll : ledger [] s (o :: objs) hs fd -> caps !! a = Some c ->
  identifier c ∉ kid <$> oclaims o ->
  claim_drop a (from_body (obody o)) really freeAll (comp s caps) = Ok (false, comp s caps).
Proof.
  intros L Ha Hn. unfold claim_drop. crun (capability_get_ok s caps nx ff nt a c Ha).
  by grun (claim_find_none [] s (o :: objs) hs fd o (identifier c) L ltac:(left) Hn).
Qed.

Lemma claim_drop_dry s o objs hs fd caps a c freeAll : ledger [] s (o :: objs) hs fd -> caps !! a = Some c ->
  identifier c ∈ kid <$> oclaims o ->
  claim_drop a (from_body (obody o)) false freeAll (comp s caps) = Ok (true, comp s caps).
Proof.
  intros L Ha Hn. unfold claim_drop. crun (capability_get_ok s caps nx ff nt a c Ha).
  destruct (claim_cases o (identifier c)) as [?|(ks1 & k & ks2 & Eo & Ek)]; [done|]. rewrite <- Ek.
  by grun (claim_find_some [] s (o :: objs) hs fd o ks1 k ks2 L ltac:(left) Eo).
Qed.

(** ** Freeing an object *)

Definition unheld o : Prop := cowner (ochunk o) = 0 /\ oclaims o = [].

Lemma body_length_ok cells o : object_ok cells o -> csize (ochunk o) mod 8 = 0 ->
  0 <= body_length (obody o) (ochunk o) <= csize (ochunk o) - sizeof_header /\
  body_length (obody o) (ochunk o) mod 8 = 0 /\ is_precise_range (obody o) (body_length (obody o) (ochunk o)) = true.
Proof.
  intros [[O1 O2] _ _ _ _] H8. change MinChunkSize with 16 in O1. split; [|split; [|done]].
  - clear O2. unfold body_length. change sizeof_header with 8. destruct (is_precise_range _ _); lia.
  - clear O2. unfold body_length. change sizeof_header with 8. destruct (is_precise_range _ _); by apply mod8_sub.
Qed.

Lemma free_unheld s o objs hs fd : ledger [] s (o :: objs) hs fd -> unheld o -> room 1 s ->
  exists s' hs', mspace_free (from_body (obody o)) (body_length (obody o) (ochunk o)) s = Ok (0, s') /\
    ledger [] s' objs hs' fd /\ at_most 1 s s'.
Proof.
  intros L [Ho Hk] Hroom. destruct (ledger_in _ _ _ _ _ o L ltac:(left)) as (al & Hal & Hb & _ & Hok).
  pose proof (proj1 (bk_size _ _ (owns_block s al _ _ Hal Hb))) as H8. destruct (body_length_ok _ _ Hok H8) as (B1 & B2 & B3).
  pose proof (proj2 (cclaims_zero _ _ _ _ _ _ L) Hk) as Hc.
  apply object_in_hand in L as [L _]; [|done].
  destruct (ledger_free _ _ _ _ _ _ _ _ L (conj Ho Hc) (oo_given _ _ Hok) B1 B2 B3 Hroom) as (s' & hs' & E & L' & Hl & _).
  exists s', hs'. splits; [done|done|]. unfold at_most. lia.
Qed.

(** The objects after [id] freed [o]: it is gone when nobody holds it any more. *)
Definition freed_by (id : Z) (freeAll : bool) o objs objs' : Prop :=
  exists o', same_but id o o' /\ holds id o' = left_of freeAll (holds id o) /\
    ((live_object o' /\ objs' = o' :: objs) \/ (unheld o' /\ objs' = objs)).

(** The owner gives the object up. *)
Lemma owner_frees s o objs hs fd grant caps a c freeAll : ledger [] s (o :: objs) hs fd -> books caps nx grant (o :: objs) ->
  live_object o -> caps !! a = Some c -> identifier c <> 0 -> cowner (ochunk o) = identifier c -> room 1 s ->
  exists s' objs' hs' caps', heap_free_chunk a (from_body (obody o)) (body_length (obody o) (ochunk o)) true true freeAll (comp s caps) =
      Ok (0, comp s' caps') /\ at_most 1 s s' /\ ledger [] s' objs' hs' fd /\ books caps' nx grant objs' /\
    freed_by (identifier c) freeAll o objs objs'.
Proof.
  intros L B [_ Hcount] Ha Hid Hown Hroom. destruct (ledger_in _ _ _ _ _ o L ltac:(left)) as (al & Hal & Hb & _ & Hok).
  pose proof (oo_once _ _ Hok) as [Hon _]%NoDup_cons. rewrite Hown in Hon.
  destruct (books_room _ _ _ _ _ _ _ _ B (lg_objects _ _ _ _ _ L) Ha Hid) as [Hq1 Hq2].
  rewrite (share_unclaimed _ o Hon), Hown, Z.eqb_refl in Hq2.
  pose proof (oo_given _ _ Hok) as [Hmin _]. change MinChunkSize with 16 in Hmin.
  unfold heap_free_chunk. crun (capability_get_ok s caps nx ff nt a c Ha).
  destruct (owns_header s al _ _ Hal Hb) as (h & Eh & Hh).
  assert (owner debug (heap s) (from_body (obody o)) = Ok (identifier c)) as Eow.
  { unfold owner. rewrite Eh, ok_bind. rewrite dassert_true by apply (hs_use _ _ Hh). rewrite ok_bind. by rewrite (hs_owner _ _ Hh), Hown. }
  rewrite C_assoc. grun (reads_ok (fun s => owner debug (heap s) (from_body (obody o))) s _ Eow). rewrite C_mret, Z.eqb_refl. cbn [negb].
  destruct (object_header _ s o objs hs fd L) as (h0 & Eh0 & _ & Esz). grun Esz.
  destruct (disowned _ _ _ _ _ _ L) as (ar & Ed & L1). grun Ed. set (o1 := mkObject (obody o) (with_cowner 0 (ochunk o)) (oclaims o)) in L1.
  destruct (object_header _ _ o1 objs hs fd L1) as (h1 & Eh1 & Hh1 & _). grun Eh1. rewrite (hs_claims _ _ Hh1).
  assert (share (identifier c) o = csize (ochunk o)) as Esh by (by rewrite (share_unclaimed _ o Hon), Hown, Z.eqb_refl).
  assert (same_but (identifier c) o o1 /\ holds (identifier c) o1 = left_of freeAll (holds (identifier c) o)) as [S1 S2].
  { split.
    - unfold same_but. splits; try done. intros id Hne Hne0. unfold holds. cbn [o1 ochunk oclaims cowner with_cowner].
      by rewrite (proj2 (Z.eqb_neq 0 id)), (proj2 (Z.eqb_neq (cowner (ochunk o)) id)) by congruence.
    - rewrite !holds_unclaimed by done. cbn [o1 ochunk cowner with_cowner]. rewrite (proj2 (Z.eqb_neq 0 _)) by done.
      rewrite Hown, Z.eqb_refl. by destruct freeAll. }
  assert (books (<[a := mkPriv (quota c + csize (ochunk o)) (identifier c)]> caps) nx grant (o1 :: objs)) as B1.
  { apply (books_object caps nx grant o o1); try done; [lia| | |].
    - rewrite Esh, (share_unclaimed _ o1) by done. cbn [o1 ochunk cowner with_cowner]. rewrite (proj2 (Z.eqb_neq 0 _)) by done. lia.
    - intros id Hne Hne0. unfold share. cbn [o1 ochunk oclaims cowner csize with_cowner].
      by rewrite (proj2 (Z.eqb_neq 0 id)), (proj2 (Z.eqb_neq (cowner (ochunk o)) id)) by congruence.
    - pose proof (ac_used _ _ _ _ B) as [[U1 U2] _]%Forall_cons. pose proof (ac_next _ _ _ _ B). split; [cbn; lia|done]. }
  destruct (Z.eqb_spec (cclaims (ochunk o1)) 0) as [E0|Hne].
  - apply (cclaims_zero _ _ _ _ _ _ L1) in E0. assert (unheld o1) as Hun by done.
    destruct (free_unheld _ o1 objs hs fd L1 Hun) as (s' & hs' & E & L' & Hl); [by eapply room_same|].
    change (body_length (obody o1) (ochunk o1)) with (body_length (obody o) (ochunk o)) in E. cbn [obody o1] in E. grun E.
    crun (capability_get_ok s' caps nx ff nt a c Ha).
    crun (quota_set_ok s' caps nx ff nt a c (quota c + csize (ochunk o)) Ha ltac:(lia)).
    eexists s', objs, hs', _. splits; [reflexivity|exact Hl|exact L'|by eapply books_drop|]. exists o1. splits; [done|done|by right].
  - crun (capability_get_ok _ caps nx ff nt a c Ha).
    crun (quota_set_ok _ caps nx ff nt a c (quota c + csize (ochunk o)) Ha ltac:(lia)).
    eexists _, (o1 :: objs), hs, _. splits; [reflexivity|by apply at_most_same|exact L1|exact B1|]. exists o1. splits; [done|done|left].
    split; [|done]. split; [right|done]. intros E0. apply Hne. by apply (cclaims_zero _ _ _ _ _ _ L1).
Qed.
End FreeApi.
