(* ===== verification/EntryPoints.v ===== *)
(** * The entry points of the allocator

    What [heap_free], [heap_claim], [heap_allocate] and the others of [HeapApi] do, on
    every branch, to the objects that are held and to the quotas. *)

From S2P Require Import Prelude LinkedList RingBuffer Bits AllocSizes ChunkHeader MState Bins SmallBins Allocator Quarantine Hazard Label Dispatch Owns HeapApi Ledger Claims Books ClaimApi FreeApi.

Section EntryPoints.
Context `{EnvOk} `{Hepoch : !Epochs} `{Hcheri : !Cheri}.
Implicit Types (s : MState) (o : object) (caps : gmap Z PrivateAllocatorCapabilityState) (g : Compartment).

(** ** The invariant of the compartment *)

(** [objs] are the objects that are held; [grant] is the quota each capability came with. *)
Record api_ok (grant : Z -> Z) g s objs hs fd : Prop := {
  ap_gm : gm g = Some s;
  ap_ledger : ledger [] s objs hs fd;
  ap_books : books (capabilities g) (nextIdentifier g) grant objs;
  ap_live : Forall live_object objs;
}.

Lemma api_perm grant g s objs objs' hs fd : objs ≡ₚ objs' -> api_ok grant g s objs hs fd -> api_ok grant g s objs' hs fd.
Proof.
  intros E [A1 A2 A3 A4]. split; [done|by eapply ledger_perm|by eapply books_perm|by rewrite <- E].
Qed.

(** A capability is sealed by the loader around a state of the compartment. *)
Definition genuine g (cap : AllocatorCapability) : Prop :=
  forall a, token_unseal cap = Some a -> is_Some (capabilities g !! a).

(** ** Unsealing *)

Lemma books_identify caps next grant objs a c : books caps next grant objs -> caps !! a = Some c -> identifier c = 0 ->
  next < 2 ^ OwnerIDWidth -> books (<[a := mkPriv (quota c) next]> caps) (next + 1) grant objs.
Proof.
  intros [B1 B2 B3 B4 B5 B6] Ha Hid Hn.
  assert (charge next objs = 0) as Hc.
  { unfold charge. destruct (next =? 0); [done|]. apply zsum_zero. intros o Ho. rewrite Forall_forall in B6.
    destruct (B6 o Ho) as [U1 U2]. rewrite share_unclaimed.
    - by rewrite (proj2 (Z.eqb_neq _ _)) by lia.
    - intros (k & E & Hk)%list_elem_of_fmap. rewrite Forall_forall in U2. specialize (U2 k Hk). lia. }
  assert (forall a' c', <[a := mkPriv (quota c) next]> caps !! a' = Some c' ->
    (a' = a /\ c' = mkPriv (quota c) next) \/ (a' <> a /\ caps !! a' = Some c')) as Hl.
  { intros a' c' [(<- & <-)|(Hne & E)]%lookup_insert_Some; [by left|by right]. }
  split.
  - intros a' c' [(-> & ->)|(_ & Ha')]%Hl; [|by apply B1]. cbn. rewrite Hc. destruct (B1 a c Ha) as [Q1 Q2]. rewrite Hid in Q2. done.
  - intros a' c' [(-> & _)|(_ & Ha')]%Hl; by eapply B2.
  - intros a' c' [(-> & ->)|(_ & Ha')]%Hl; [cbn; lia|]. specialize (B3 a' c' Ha'). lia.
  - intros a1 c1 a2 c2 [(-> & ->)|(N1 & E1)]%Hl [(-> & ->)|(N2 & E2)]%Hl; cbn; [done| | |by apply B4].
    + specialize (B3 a2 c2 E2). lia.
    + specialize (B3 a1 c1 E1). lia.
  - lia.
  - eapply Forall_impl; [exact B6|]. intros o [U1 U2]. split; [lia|]. eapply Forall_impl; [exact U2|]. cbn. lia.
Qed.

(** The identity of a capability that is unsealed: its state has an identifier. *)
Lemma unseal_ok grant g s objs hs fd cap permissions : api_ok grant g s objs hs fd -> genuine g cap ->
  exists r g', malloc_capability_unseal cap permissions g = Ok (r, g') /\ api_ok grant g' s objs hs fd /\
    freeFutex g' = freeFutex g /\ notifications g' = notifications g /\
    match r with
    | Some a => Z.land (allocator_permissions cap) permissions = permissions /\ token_unseal cap = Some a /\
        exists c0 c, capabilities g !! a = Some c0 /\ capabilities g' !! a = Some c /\ identifier c <> 0 /\ quota c = quota c0 /\
          (identifier c0 <> 0 -> c = c0 /\ g' = g)
    | None => g' = g /\ (Z.land (allocator_permissions cap) permissions <> permissions \/ token_unseal cap = None \/
        2 ^ OwnerIDWidth <= nextIdentifier g)
    end.
Proof.
  intros A Hg. unfold malloc_capability_unseal.
  destruct (Z.eqb_spec (Z.land (allocator_permissions cap) permissions) permissions) as [Ep|Hp]; cbn [negb].
  2:{ exists None, g. splits; try done. by left. }
  destruct (token_unseal cap) as [a|] eqn:Et; [|exists None, g; splits; try done; right; by left].
  destruct (Hg a Et) as [c Hc]. rewrite Hc. cbn [deref]. rewrite ok_bind. change QuotaIdentifierAllocatorOwned with 0.
  destruct (Z.eqb_spec (identifier c) 0) as [E0|Hid].
  - rewrite Z.shiftl_mul_pow2 by done. rewrite Z.mul_1_l. destruct (Z.leb_spec (2 ^ OwnerIDWidth) (nextIdentifier g)).
    + exists None, g. splits; try done. right. by right.
    + destruct A as [A1 A2 A3 A4]. pose proof (ac_next _ _ _ _ A3). change OwnerIDWidth with 13 in *.
      unfold u32. rewrite wrap_small by lia. eexists (Some a), _. splits; [reflexivity| |done|done|done|done|].
      * split; try done. by apply books_identify.
      * exists c. eexists. splits; [done|cbn; by rewrite lookup_insert_eq|cbn; lia|done|done].
  - exists (Some a), g. splits; try done. exists c, c. by splits.
Qed.

(** ** Freeing a chunk *)

(** Who may drop a reference: the owner with a pointer to the whole object, and claimants. *)
Definition may_drop (isPrecise : bool) (id : Z) o : Prop :=
  (isPrecise = true /\ cowner (ochunk o) = id) \/ id ∈ kid <$> oclaims o.

Definition chunk_freed (id : Z) (isPrecise really freeAll : bool) o objs (r : Z) (same : Prop) objs' : Prop :=
  (r = 0 /\ may_drop isPrecise id o /\ really = true /\ freed_by id freeAll o objs objs') \/
  (r = 0 /\ may_drop isPrecise id o /\ really = false /\ same /\ objs' = o :: objs) \/
  (r = - EPERM /\ ~ may_drop isPrecise id o /\ same /\ objs' = o :: objs).

Lemma freed_by_live id freeAll o objs objs' : Forall live_object objs -> freed_by id freeAll o objs objs' -> Forall live_object objs'.
Proof. intros Ho (o' & _ & _ & [(Hl & ->)|(_ & ->)]); [by constructor|done]. Qed.

Lemma owned_test s o objs hs fd isPrecise id caps nx ff nt : ledger [] s (o :: objs) hs fd ->
  (if isPrecise : bool then
     (w ← on_gm (reads (fun s => owner debug (heap s) (from_body (obody o)))); mret (w =? id)) : C bool
   else mret false) (mkComp (Some s) caps nx ff nt) =
  Ok (isPrecise && (cowner (ochunk o) =? id), mkComp (Some s) caps nx ff nt).
Proof.
  intros L. destruct isPrecise; [|done]. destruct (ledger_in _ _ _ _ _ o L ltac:(left)) as (al & Hal & Hb & _).
  destruct (owns_header s al _ _ Hal Hb) as (h & Eh & Hh).
  assert (owner debug (heap s) (from_body (obody o)) = Ok (cowner (ochunk o))) as Eow.
  { unfold owner. rewrite Eh, ok_bind. rewrite dassert_true by apply (hs_use _ _ Hh). rewrite ok_bind. by rewrite (hs_owner _ _ Hh). }
  by grun (reads_ok (fun s => owner debug (heap s) (from_body (obody o))) s _ Eow).
Qed.

Lemma heap_free_chunk_ok grant g s o objs hs fd a c isPrecise really freeAll : api_ok grant g s (o :: objs) hs fd ->
  capabilities g !! a = Some c -> identifier c <> 0 -> room 2 s ->
  exists r g' s' objs' hs', heap_free_chunk a (from_body (obody o)) (body_length (obody o) (ochunk o)) isPrecise really freeAll g =
      Ok (r, g') /\ api_ok grant g' s' objs' hs' fd /\ at_most 2 s s' /\ freeFutex g' = freeFutex g /\
    notifications g' = notifications g /\ chunk_freed (identifier c) isPrecise really freeAll o objs r (g' = g) objs'.
Proof.
  intros A Ha Hid Hroom. pose proof A as [A1 L B Hlive]. destruct g as [gg caps nx ff nt]. cbn in A1, Ha, B. subst gg.
  pose proof Hlive as [Hlo Hlr]%Forall_cons.
  assert (room 1 s) as Hroom1 by (unfold room in *; lia).
  destruct (isPrecise && (cowner (ochunk o) =? identifier c)) eqn:Eown.
  - apply andb_true_iff in Eown as [-> Eown%Z.eqb_eq]. destruct really.
    + destruct (owner_frees nx ff nt s o objs hs fd grant caps a c freeAll L B Hlo Ha Hid Eown Hroom1) as
        (s' & objs' & hs' & caps' & E & Hl & L' & B' & Hf).
      exists 0. eexists _, s', objs', hs'. splits; [exact E| |unfold at_most in *; lia|done|done|].
      * split; [done|done|done|by eapply freed_by_live].
      * left. splits; [done|by left|done|done].
    + unfold heap_free_chunk. crun (capability_get_ok s caps nx ff nt a c Ha).
      crun (owned_test s o objs hs fd true (identifier c) caps nx ff nt L). rewrite Eown, Z.eqb_refl. cbn [andb negb].
      eexists 0, _, s, _, hs. splits; [reflexivity|exact A|unfold at_most; lia|done|done|]. right. left. splits; [done|by left|done|done|done].
  - unfold heap_free_chunk. crun (capability_get_ok s caps nx ff nt a c Ha).
    crun (owned_test s o objs hs fd isPrecise (identifier c) caps nx ff nt L). rewrite Eown.
    destruct (claim_cases o (identifier c)) as [Hn|(ks1 & k & ks2 & Eo & Ek)].
    { crun (claim_drop_none nx ff nt s o objs hs fd caps a c really freeAll L Ha Hn).
      eexists (- EPERM), _, s, _, hs. splits; [reflexivity|exact A|unfold at_most; lia|done|done|]. right. right. splits; [done| |done|done].
      intros [(-> & Ho)|?]; [|done]. cbn in Eown. by rewrite (proj2 (Z.eqb_eq _ _) Ho) in Eown. }
    assert (identifier c ∈ kid <$> oclaims o) as Hin.
    { rewrite Eo, fmap_app, elem_of_app. right. cbn. rewrite Ek. left. }
    assert (may_drop isPrecise (identifier c) o) as Hmay by by right.
    destruct really.
    + destruct (claim_drop_one nx ff nt s o objs hs fd grant caps a c ks1 k ks2 freeAll L B (proj2 Hlo) Ha Eo (eq_sym Ek) Hroom1) as
        (s' & o' & hs' & caps' & E & Hl & L' & B' & (D1 & D2 & D3) & D4). crun E.
      rewrite Ek in D1, D2. pose proof D1 as (Db & Dsz & _).
      destruct (object_header _ s' o' objs hs' fd L') as (h & Eh & Hh & _). rewrite Db in Eh. grun Eh.
      rewrite (hs_claims _ _ Hh), (hs_owner _ _ Hh). change QuotaIdentifierAllocatorOwned with 0.
      assert (body_length (obody o') (ochunk o') = body_length (obody o) (ochunk o)) as Ebl by (unfold body_length; by rewrite Db, Dsz).
      destruct (Z.eqb_spec (cclaims (ochunk o')) 0) as [E0|Hne]; [destruct (Z.eqb_spec (cowner (ochunk o')) 0) as [Eo0|Hno]|]; cbn [andb].
      * apply (cclaims_zero _ _ _ _ _ _ L') in E0. assert (room 1 s') as Hroom' by (unfold room, at_most in *; lia).
        destruct (free_unheld s' o' objs hs' fd L' (conj Eo0 E0) Hroom') as (s2 & hs2 & E2 & L2 & Hl2). rewrite Ebl, Db in E2.
        rewrite (on_gm_ok _ _ _ _ caps' nx ff nt E2). eexists 0, _, s2, objs, hs2.
        splits; [reflexivity| |unfold at_most in *; lia|done|done|].
        -- split; [done|done|by eapply books_drop|done].
        -- left. splits; try done. exists o'. splits; try done. right. done.
      * eexists 0, _, s', (o' :: objs), hs'. assert (live_object o') as Hl' by (split; [by left|done]).
        splits; [reflexivity| |unfold at_most in *; lia|done|done|]; [split; try done; by constructor|].
        left. splits; try done. exists o'. splits; try done. by left.
      * eexists 0, _, s', (o' :: objs), hs'. assert (live_object o') as Hl'.
        { split; [right|done]. intros E0. apply Hne. by apply (cclaims_zero _ _ _ _ _ _ L'). }
        splits; [reflexivity| |unfold at_most in *; lia|done|done|]; [split; try done; by constructor|].
        left. splits; try done. exists o'. splits; try done. by left.
    + crun (claim_drop_dry nx ff nt s o objs hs fd caps a c freeAll L Ha Hin).
      destruct (object_header _ s o objs hs fd L) as (h & Eh & Hh & _). grun Eh. rewrite (hs_claims _ _ Hh).
      rewrite (proj2 (Z.eqb_neq (cclaims _) 0)) by (intros E0; apply (cclaims_zero _ _ _ _ _ _ L) in E0; rewrite E0 in Hin; by apply not_elem_of_nil in Hin).
      cbn [andb]. eexists 0, _, s, _, hs. splits; [reflexivity|exact A|unfold at_most; lia|done|done|]. right. left. by splits.
Qed.
End EntryPoints.

(** * Freeing, claiming and asking

    The entry points of [HeapApi] that take a pointer, and those that only look. *)

(** [mem] is usable and its base is in the body of the chunk at [b]. *)
Definition points_into (mem : cap) (b : Z) (d : chunk) : Prop :=
  ctag mem = true /\ csealed_cap mem = false /\ b <= cbase mem < b - sizeof_header + csize d.

Section HeapCalls.
Context `{EnvOk} `{Hepoch : !Epochs} `{Hcheri : !Cheri}.
Implicit Types (s : MState) (o : object) (caps : gmap Z PrivateAllocatorCapabilityState) (g : Compartment).

(** The pointer is to the whole object, with its exact bounds. *)
Definition whole (mem : cap) o : bool :=
  (obody o =? cbase mem) && (body_length (obody o) (ochunk o) =? clength mem).

(** What is held or waits is below the footer. *)
Lemma ledger_below extra s objs hs fd b d : ledger extra s objs hs fd -> (b, d) ∈ extra ++ blocks objs ++ hs ->
  (b, d) ∈ extra ++ blocks objs ++ hs ++ [(heap_top, fd)] /\ b + csize d <= heap_top.
Proof.
  intros L Hb. pose proof (lg_owns _ _ _ _ _ L) as Ho. pose proof (ledger_nodup _ _ _ _ _ L) as Hnd.
  assert ((b, d) ∈ extra ++ blocks objs ++ hs ++ [(heap_top, fd)]) as Hin by (rewrite !elem_of_app in Hb; rewrite !elem_of_app; tauto).
  assert (b <> heap_top) as Hne.
  { intros ->. assert (extra ++ blocks objs ++ hs ++ [(heap_top, fd)] ≡ₚ (heap_top, fd) :: (extra ++ blocks objs ++ hs)) as P by solve_Permutation.
    rewrite P in Hnd. cbn [fmap list_fmap fst] in Hnd. apply NoDup_cons in Hnd as [Hd _]. apply Hd.
    apply list_elem_of_fmap. by exists (heap_top, d). }
  destruct (lg_footer _ _ _ _ _ L) as (Hf & _). split; [done|].
  apply (owns_below s _ heap_top fd b d Ho ltac:(rewrite !elem_of_app, list_elem_of_singleton; tauto) Hf Hin Hne).
Qed.

Lemma ledger_start extra s objs hs fd b d x : ledger extra s objs hs fd ->
  (b, d) ∈ extra ++ blocks objs ++ hs -> b <= x < b - sizeof_header + csize d ->
  allocation_start x s = Ok (from_body b, s) /\ truth (from_body b) = true /\ body (from_body b) = b /\ csize d mod 8 = 0.
Proof.
  intros L Hb Hx. pose proof (lg_owns _ _ _ _ _ L) as Ho. destruct (ledger_below _ _ _ _ _ _ _ L Hb) as [Hin Hle].
  destruct (owns_block s _ b d Ho Hin) as [_ _ _ [? _] _ ? ?]. change sizeof_header with 8 in *. splits; try done.
  apply (owns_start s _ b d x Ho Hin); lia.
Qed.

(** Two chunks that are held or wait are apart. *)
Lemma ledger_apart s objs hs fd : ledger [] s objs hs fd ->
  ForallOrdPairs (fun x y : Z * chunk => x.1 + csize x.2 <= y.1 \/ y.1 + csize y.2 <= x.1) (blocks objs ++ hs).
Proof.
  intros L. pose proof (lg_owns _ _ _ _ _ L) as Ho. pose proof (ledger_nodup _ _ _ _ _ L) as Hnd.
  cbn [app] in Ho, Hnd. rewrite app_assoc in Ho, Hnd. rewrite fmap_app in Hnd. apply NoDup_app in Hnd as (Hnd & _).
  assert (forall e, e ∈ blocks objs ++ hs -> e ∈ (blocks objs ++ hs) ++ [(heap_top, fd)]) as Hin by (intros e He; apply elem_of_app; by left).
  revert Hnd Hin. generalize (blocks objs ++ hs) at 1 2 4 as X. induction X as [|[b d] X IH]; intros Hnd Hin; [constructor|].
  cbn [fmap list_fmap fst] in Hnd. apply NoDup_cons in Hnd as [Hb Hnd]. constructor; [|apply IH; [done|intros e He; apply Hin; by right]].
  apply Forall_forall. intros [b' d'] He. cbn [fst snd].
  apply (owns_apart s _ b d b' d' Ho); [apply Hin; left|apply Hin; by right|]. intros ->. apply Hb.
  apply list_elem_of_fmap. by exists (b', d').
Qed.

Lemma object_body_size s o objs hs fd extra : ledger extra s (o :: objs) hs fd ->
  chunk_body_size (from_body (obody o)) s = Ok (body_length (obody o) (ochunk o), s).
Proof.
  intros L. destruct (ledger_in _ _ _ _ _ o L ltac:(left)) as (al & Hal & Hb & _ & Hok). destruct (oo_given _ _ Hok) as [O1 O2].
  eapply owns_body_size; [done|done|left|done]. change MinChunkSize with 16 in O1. change sizeof_header with 8. lia.
Qed.

(** Who asks: the identifier of the capability, and the compartment once it is unsealed. *)
Definition unseals g (hc : AllocatorCapability) (permissions : Z) (id : Z) (g1 : Compartment) : Prop :=
  exists a c, malloc_capability_unseal hc permissions g = Ok (Some a, g1) /\ token_unseal hc = Some a /\
    capabilities g1 !! a = Some c /\ identifier c = id /\ id <> 0.

Definition refused g (hc : AllocatorCapability) (permissions : Z) : Prop :=
  Z.land (allocator_permissions hc) permissions <> permissions \/ token_unseal hc = None \/
  2 ^ OwnerIDWidth <= nextIdentifier g.

(** ** [heap_free] and [heap_can_free] *)

Definition free_answer g (hc : AllocatorCapability) (mem : cap) (really : bool) o objs r g' objs' : Prop :=
  (r = - EPERM /\ refused g hc AllocatorPermitNone /\ g' = g /\ objs' = o :: objs) \/
  exists id g1, unseals g hc AllocatorPermitNone id g1 /\ chunk_freed id (whole mem o) really false o objs r (g' = g1) objs'.

(** What [id] holds stays when another frees. *)
Lemma freed_holds id' isPrecise really freeAll o objs r same objs' id : chunk_freed id' isPrecise really freeAll o objs r same objs' ->
  id <> id' -> id <> 0 -> 0 < holds id o ->
  exists o', o' ∈ objs' /\ obody o' = obody o /\ csize (ochunk o') = csize (ochunk o) /\ holds id o' = holds id o.
Proof.
  intros [(_ & _ & _ & o' & (S1 & S2 & _ & S4) & _ & Ho)|[(_ & _ & _ & _ & ->)|(_ & _ & _ & ->)]] Hne Hid Hh;
    [|exists o; splits; [left|done|done|done]..].
  specialize (S4 id Hne Hid). destruct Ho as [(_ & ->)|((U1 & U2) & _)]; [exists o'; splits; [left|done|done|done]|].
  exfalso. unfold holds in S4 at 1. rewrite U1, U2, (proj2 (Z.eqb_neq _ _)) in S4 by done. cbn in S4. lia.
Qed.

Lemma heap_free_internal_ok grant g s o objs hs fd hc mem really : api_ok grant g s (o :: objs) hs fd -> genuine g hc ->
  points_into mem (obody o) (ochunk o) -> room 2 s ->
  exists r g' s' objs' hs', heap_free_internal hc mem really g = Ok (r, g') /\ api_ok grant g' s' objs' hs' fd /\
    freeFutex g' = freeFutex g /\ notifications g' = notifications g /\ at_most 2 s s' /\ free_answer g hc mem really o objs r g' objs'.
Proof.
  intros A Hg (Htag & Hsl & Hx) Hroom. unfold heap_free_internal.
  destruct (unseal_ok grant g s (o :: objs) hs fd hc AllocatorPermitNone A Hg) as (r & g1 & E & A1 & F1 & F2 & Hr). crun E.
  destruct r as [a|].
  - destruct Hr as (Hp & Ht & c0 & c & _ & Hc & Hid & _). rewrite Htag, Hsl. cbn [negb orb].
    destruct A1 as [G1 L B Hlive]. pose proof (Build_api_ok grant g1 s (o :: objs) hs fd G1 L B Hlive) as A1.
    assert (check_gm g1 = Ok (tt, g1)) as Ec by (unfold check_gm; by rewrite G1). crun Ec.
    destruct (ledger_start [] s (o :: objs) hs fd (obody o) (ochunk o) (cbase mem) L ltac:(left) Hx) as (Es & Etr & Eb & _).
    pose proof (object_body_size s o objs hs fd [] L) as Ebs.
    assert (forall A (m : M A) v, m s = Ok (v, s) -> on_gm m g1 = Ok (v, g1)) as Hq.
    { intros T m v Em. destruct g1 as [gg caps nx ff nt]. cbn in G1. subst gg. by apply on_gm_ok. }
    crun (Hq _ _ _ Es). rewrite Etr. cbn [negb]. rewrite Eb. crun (Hq _ _ _ Ebs).
    destruct (heap_free_chunk_ok grant g1 s o objs hs fd a c (whole mem o) really false A1 Hc Hid Hroom) as
      (r & g' & s' & objs' & hs' & E' & A' & Hl & F3 & F4 & Hf).
    exists r, g', s', objs', hs'. splits; [exact E'|exact A'|congruence|congruence|exact Hl|]. right. exists (identifier c), g1.
    split; [|exact Hf]. by exists a, c.
  - destruct Hr as [-> Hr]. exists (- EPERM), g, s, (o :: objs), hs. splits; [done|done|done|done|unfold at_most; lia|].
    left. by splits.
Qed.

(** What [heap_free] adds: threads that wait for memory are woken. *)
Lemma heap_free_ok grant g s o objs hs fd hc mem : api_ok grant g s (o :: objs) hs fd -> genuine g hc ->
  points_into mem (obody o) (ochunk o) -> room 2 s ->
  exists r g1 g' s' objs' hs', heap_free hc mem g = Ok (r, g') /\ api_ok grant g' s' objs' hs' fd /\ at_most 2 s s' /\
    free_answer g hc mem true o objs r g1 objs' /\
    g' = (if (r =? 0) && negb (freeFutex g =? -1) then with_futex (-1) (S (notifications g)) g1 else g1).
Proof.
  intros A Hg Hp Hroom. destruct (heap_free_internal_ok grant g s o objs hs fd hc mem true A Hg Hp Hroom) as
    (r & g1 & s' & objs' & hs' & E & A' & F1 & F2 & Hl & Hf). unfold heap_free. crun E.
  destruct (Z.eqb_spec r 0) as [->|Hr]; cbn [negb andb].
  - unfold cgets. rewrite (C_bind_ok _ _ g1 (freeFutex g1) g1 eq_refl). rewrite F1.
    destruct (freeFutex g =? -1); cbn [negb].
    + exists 0, g1, g1, s', objs', hs'. splits; [reflexivity|exact A'|exact Hl|exact Hf|reflexivity].
    + eexists 0, g1, _, s', objs', hs'. splits; [reflexivity| |done|done|by cbn; rewrite F2].
      destruct A' as [A1 A2 A3 A4]. by split.
  - exists r, g1, g1, s', objs', hs'. splits; [reflexivity|exact A'|exact Hl|exact Hf|by rewrite (proj2 (Z.eqb_neq _ _) Hr)].
Qed.

(** A pointer to a chunk that nobody holds, for instance one that was freed under a hazard
    pointer: nothing happens. *)
Lemma heap_free_idle grant g s objs hs fd hc mem b d really : api_ok grant g s objs hs fd -> genuine g hc ->
  (b, d) ∈ hs -> points_into mem b d ->
  exists g', heap_free_internal hc mem really g = Ok (- EPERM, g') /\ api_ok grant g' s objs hs fd.
Proof.
  intros A Hg Hb (Htag & Hsl & Hx). unfold heap_free_internal.
  destruct (unseal_ok grant g s objs hs fd hc AllocatorPermitNone A Hg) as (r & g1 & E & A1 & _ & _ & Hr). crun E.
  destruct r as [a|]; [|exists g1; by destruct Hr as [-> _]].
  destruct Hr as (_ & _ & _ & c & _ & Hc & Hid & _). rewrite Htag, Hsl. cbn [negb orb]. pose proof A1 as [G1 L B Hlive].
  assert (check_gm g1 = Ok (tt, g1)) as Ec by (unfold check_gm; by rewrite G1). crun Ec.
  destruct (ledger_start [] s objs hs fd b d (cbase mem) L ltac:(rewrite !elem_of_app; by right; right) Hx) as (Es & Etr & Eb & _).
  pose proof (lg_owns _ _ _ _ _ L) as Ho. pose proof (lg_waiting _ _ _ _ _ L) as Hw. rewrite Forall_forall in Hw. destruct (Hw _ Hb) as [[I1 I2] [Hmin Hpr]].
  cbn [fst snd] in I1, I2, Hmin, Hpr.
  assert ((b, d) ∈ [] ++ blocks objs ++ hs ++ [(heap_top, fd)]) as Hin by (rewrite !elem_of_app; tauto).
  assert (chunk_body_size (from_body b) s = Ok (body_length b d, s)) as Ebs.
  { eapply owns_body_size; [done|done|left|done]. change MinChunkSize with 16 in Hmin. change sizeof_header with 8. lia. }
  destruct (owns_header s _ b d Ho Hin) as (h & Eh & Hh). pose proof (reads_ok (fun s => header (heap s) (from_body b)) s h Eh) as Ech.
  destruct g1 as [gg caps nx ff nt]. cbn in G1, Hc. subst gg.
  grun Es. rewrite Etr. cbn [negb]. rewrite Eb. grun Ebs. unfold heap_free_chunk. crun (capability_get_ok s caps nx ff nt a c Hc).
  assert (forall p : bool, (if p then ((w ← on_gm (reads (fun s => owner debug (heap s) (from_body b))); mret (w =? identifier c)) : C bool)
    else mret false) (mkComp (Some s) caps nx ff nt) = Ok (false, mkComp (Some s) caps nx ff nt)) as Eo.
  { intros [|]; [|done]. assert (owner debug (heap s) (from_body b) = Ok 0) as Eow.
    { unfold owner. rewrite Eh, ok_bind. rewrite dassert_true by apply (hs_use _ _ Hh). rewrite ok_bind. by rewrite (hs_owner _ _ Hh), I1. }
    grun (reads_ok (fun s => owner debug (heap s) (from_body b)) s _ Eow). by rewrite (proj2 (Z.eqb_neq _ _)) by done. }
  crun (Eo _). unfold claim_drop. rewrite C_assoc. crun (capability_get_ok s caps nx ff nt a c Hc).
  assert (claim_find (identifier c) (from_body b) s = Ok ((InHeader (from_body b), None), s)) as Ef.
  { unfold claim_find. mpure. cbn [claim_walk next_get].
    assert ((h ← chunk_header (from_body b); mret (claims h)) s = Ok (0, s)) as E1 by (mrun Ech; by rewrite (hs_claims _ _ Hh), I2).
    rewrite M_assoc. by mrun E1. }
  rewrite C_assoc. grun Ef. rewrite C_mret. by eexists.
Qed.

(** ** [heap_claim] *)

(** The quota that the capability has left. *)
Definition remaining g (hc : AllocatorCapability) (q : Z) : Prop :=
  exists a c, token_unseal hc = Some a /\ capabilities g !! a = Some c /\ quota c = q.

Definition claim_answer g (hc : AllocatorCapability) o r g' o' : Prop :=
  (r = - EPERM /\ refused g hc AllocatorPermitAllocate /\ g' = g /\ o' = o) \/
  (exists id g1, unseals g hc AllocatorPermitAllocate id g1 /\
    ((r = body_length (obody o) (ochunk o) /\ claim_added id o o') \/
     (r = - ENOMEM /\ o' = o /\ capabilities g' = capabilities g1 /\
      exists q s', remaining g1 hc q /\ gm g' = Some s' /\ cannot_claim id q o s'))).

Lemma heap_claim_ok grant g s o objs hs fd hc mem : api_ok grant g s (o :: objs) hs fd -> genuine g hc ->
  points_into mem (obody o) (ochunk o) ->
  exists r g' s' o' hs', heap_claim hc mem g = Ok (r, g') /\ api_ok grant g' s' (o' :: objs) hs' fd /\ fewer s s' /\
    freeFutex g' = freeFutex g /\ notifications g' = notifications g /\ claim_answer g hc o r g' o'.
Proof.
  intros A Hg (Htag & Hsl & Hx). unfold heap_claim.
  destruct (unseal_ok grant g s (o :: objs) hs fd hc AllocatorPermitAllocate A Hg) as (r & g1 & E & A1 & F1 & F2 & Hr). crun E.
  destruct r as [a|].
  2:{ destruct Hr as [-> Hr]. exists (- EPERM), g, s, o, hs. splits; [done|done|unfold fewer; lia|done|done|]. left. by splits. }
  destruct Hr as (Hp & Ht & c0 & c & _ & Hc & Hid & _). rewrite Htag, Hsl. cbn [negb orb].
  destruct A1 as [G1 L B [Hlo Hlive]%Forall_cons].
  destruct (ledger_start [] s (o :: objs) hs fd (obody o) (ochunk o) (cbase mem) L ltac:(left) Hx) as (Es & Etr & Eb & _).
  assert (unseals g hc AllocatorPermitAllocate (identifier c) g1) as Hask by (by exists a, c).
  destruct g1 as [gg caps nx ff nt]. cbn in G1, Hc, B, F1, F2. subst gg. grun Es. rewrite Etr. cbn [negb].
  destruct (claim_add_ok nx ff nt s o objs hs fd grant caps a c L B Hlo Hc Hid) as (b & s' & o' & hs' & caps' & E' & Hl & L' & B' & Hb). crun E'.
  destruct b.
  - pose proof Hb as ((Sb & Ssz & _) & _ & Hlo'). pose proof (object_body_size s' o' objs hs' fd [] L') as Ebs. rewrite Sb in Ebs.
    assert (body_length (obody o) (ochunk o') = body_length (obody o) (ochunk o)) as Ebl by (unfold body_length; by rewrite Ssz).
    rewrite Ebl in Ebs. rewrite (on_gm_ok _ _ _ _ caps' nx ff nt Ebs). eexists _, _, s', o', hs'.
    splits; [reflexivity| |exact Hl|done|done|]; [split; try done; by constructor|]. right. eexists _, _. split; [exact Hask|]. left. by split.
  - destruct Hb as (-> & -> & Hwhy). eexists _, _, s', o, hs'. splits; [reflexivity| |exact Hl|done|done|]; [split; try done; by constructor|].
    right. eexists _, _. split; [exact Hask|]. right. splits; [done|done|done|].
    exists (quota c), s'. splits; [by exists a, c|done|done].
Qed.

(** Capabilities that are not usable are rejected. *)
Lemma heap_claim_invalid hc mem g a g1 : malloc_capability_unseal hc AllocatorPermitAllocate g = Ok (Some a, g1) ->
  ctag mem = false \/ csealed_cap mem = true -> heap_claim hc mem g = Ok (- EINVAL, g1).
Proof.
  intros E Hm. unfold heap_claim. crun E. destruct Hm as [-> | ->]; [done|]. by rewrite orb_true_r.
Qed.

(** ** [heap_quota_remaining] *)

Lemma heap_quota_remaining_ok grant g s objs hs fd hc : api_ok grant g s objs hs fd -> genuine g hc ->
  exists r g', heap_quota_remaining hc g = Ok (r, g') /\ api_ok grant g' s objs hs fd /\
    ((r = - EPERM /\ refused g hc AllocatorPermitNone) \/
     exists a id, token_unseal hc = Some a /\ unseals g hc AllocatorPermitNone id g' /\ r + charge id objs = grant a).
Proof.
  intros A Hg. unfold heap_quota_remaining.
  destruct (unseal_ok grant g s objs hs fd hc AllocatorPermitNone A Hg) as (r & g1 & E & A1 & _ & _ & Hr). crun E.
  destruct r as [a|]; [|destruct Hr as [-> Hr]; exists (- EPERM), g; splits; [done|done|by left]].
  destruct Hr as (Hp & Ht & c0 & c & _ & Hc & Hid & _). unfold capability_get. exists (quota c), g1.
  assert ((c ← deref (capabilities g1 !! a); Ok (c, g1)) = Ok (c, g1)) as E1 by (by rewrite Hc).
  splits; [|done|].
  - unfold mbind at 1, C_bind. by rewrite Hc.
  - right. exists a, (identifier c). splits; [done| |apply (ac_quota _ _ _ _ (ap_books _ _ _ _ _ _ A1) a c Hc)].
    by exists a, c.
Qed.
End HeapCalls.
