(* ===== verification/AllocCalls.v ===== *)
(** * Allocating for a compartment

    [heap_allocate] and [heap_allocate_array] of [HeapApi], with the loop that retries while
    the caller may wait: it ends, whatever the other threads do meanwhile, and what it hands
    out is a new object, paid for by the capability. *)

From S2P Require Import Prelude LinkedList RingBuffer Bits AllocSizes ChunkHeader MState Bins SmallBins Allocator Quarantine FreeOp Hazard Label Dispatch Owns HeapApi Ledger Claims Books ClaimApi FreeApi EntryPoints.

(** What a caller gets: a capability to the whole of a new object. *)
Definition new_object `{Env} (id bytes : Z) (sealed : bool) (p : cap) (o : object) : Prop :=
  p = mkCap (obody o) (body_length (obody o) (ochunk o)) true false /\ bytes <= clength p /\
  cowner (ochunk o) = id /\ csealed (ochunk o) = sealed /\ oclaims o = [].

Definition lacks (flags flag : Z) : Prop := Z.land flags flag = 0.

Section AllocCalls.
Context `{EnvOk} `{Hepoch : !Epochs} `{Hcheri : !Cheri} (grant : Z -> Z).
Implicit Types (s : MState) (o : object) (caps : gmap Z PrivateAllocatorCapabilityState) (g : Compartment).

(** The capability state at [a] has the identifier [id]. *)
Definition identified g (a id : Z) : Prop := exists c, capabilities g !! a = Some c /\ identifier c = id /\ id <> 0.

(** ** Why a request is refused

    Each error has its reason, in the state [s] that it leaves and for the quota [q] that the
    caller has: the request can never be served; it needs revocation, for which the caller does
    not want to or cannot wait; the heap is full or the quota too small, and the caller does not
    want to wait for that. *)
Definition refusal (bytes flags : Z) (may_block : bool) (q : Z) s (e : Z) : Prop :=
  (e = - EINVAL /\ refused_for bytes q AllocationFailurePermanent s) \/
  (e = - EAGAIN /\ lacks flags AllocateWaitRevocationNeeded /\
    exists epoch, refused_for bytes q (AllocationFailureRevocationNeeded epoch) s) \/
  (e = - ETIMEDOUT /\ ~ lacks flags AllocateWaitRevocationNeeded /\ may_block = false /\
    exists epoch, refused_for bytes q (AllocationFailureRevocationNeeded epoch) s) \/
  (e = - ENOMEM /\
    (lacks flags AllocateWaitHeapFull /\ refused_for bytes q AllocationFailureHeapFull s \/
     lacks flags AllocateWaitQuotaExceeded /\ refused_for bytes q AllocationFailureQuotaExceeded s)).

(** Why a thread waits: for the revoker, after the refusal in a state from which nothing could
    be taken out of the quarantine; or for memory or quota, with the free bytes it saw in the
    futex word. *)
Definition waits_because (bytes flags q : Z) g s (turn : Attempt) : Prop :=
  match turn with
  | WaitForRevoker epoch => ~ lacks flags AllocateWaitRevocationNeeded /\
      exists s1 s2 rd kk, refused_for bytes q (AllocationFailureRevocationNeeded epoch) s1 /\
        quarantine_dequeue s1 = Ok (false, s2) /\ s = with_counters (sanityCounter s2) rd kk s2
  | WaitForMemory expected => expected = heapFreeSize s /\ freeFutex g = s32 expected /\
      (~ lacks flags AllocateWaitHeapFull /\ refused_for bytes q AllocationFailureHeapFull s \/
       ~ lacks flags AllocateWaitQuotaExceeded /\ refused_for bytes q AllocationFailureQuotaExceeded s)
  | _ => False
  end.

(** The answer to one turn of the loop. *)
Definition attempt_outcome (id bytes : Z) (sealed : bool) (flags : Z) (may_block : bool) q g objs turn g' s' objs' : Prop :=
  match turn with
  | Returns (inl p) => exists o, objs' = o :: objs /\ new_object id bytes sealed p o
  | Returns (inr e) => objs' = objs /\ capabilities g' = capabilities g /\ refusal bytes flags may_block q s' e
  | Again => objs' = objs /\ capabilities g' = capabilities g /\ may_block = true
  | _ => objs' = objs /\ capabilities g' = capabilities g /\ waits_because bytes flags q g' s' turn
  end.

Lemma truth_lacks flags flag : truth (Z.land flags flag) = false -> lacks flags flag.
Proof. unfold truth, lacks. by intros E%negb_false_iff%Z.eqb_eq. Qed.

Lemma truth_flag flags flag : truth (Z.land flags flag) = true -> ~ lacks flags flag.
Proof. unfold truth, lacks. by intros E%negb_true_iff%Z.eqb_neq. Qed.

(** A chunk that was handed over is an object of its owner, and paid for. *)
Lemma object_obtained s objs hs fd nx caps a c b d : ledger [(b, d)] s objs hs fd -> books caps nx grant objs ->
  caps !! a = Some c -> identifier c <> 0 -> cowner d = identifier c -> cclaims d = 0 -> MinChunkSize <= csize d ->
  is_precise_range b (body_length b d) = true -> csize d <= quota c ->
  let o := mkObject b d [] in
  ledger [] s (o :: objs) hs fd /\ books (<[a := mkPriv (quota c - csize d) (identifier c)]> caps) nx grant (o :: objs) /\
  live_object o.
Proof.
  intros L B Ha Hid Ho Hc Hs Hp Hq o. destruct (ac_ids _ _ _ _ B a c Ha) as [I1 I2]. destruct (ac_next _ _ _ _ B) as [_ N2].
  splits.
  - apply (object_in_hand [] s objs hs fd o eq_refl). split; [done|]. split; cbn [obody ochunk oclaims o]; try done; [lia|].
    cbn. apply NoDup_singleton.
  - apply books_move with (objs := objs) (c := c); try done; [lia| | |].
    + rewrite charge_cons by done. unfold share. cbn [o ochunk oclaims]. rewrite Ho, Z.eqb_refl. cbn. lia.
    + intros id Hne. unfold charge. destruct (Z.eqb_spec id 0) as [|Hz]; [done|]. cbn [fmap list_fmap zsum foldr].
      unfold share. cbn [o ochunk oclaims]. rewrite Ho, (proj2 (Z.eqb_neq _ _)) by congruence. done.
    + constructor; [|apply B]. split; [cbn; lia|constructor].
  - split; [left; cbn; congruence|constructor].
Qed.

Lemma attempt_ok g s objs hs fd a c id bytes sealed flags may_block : api_ok grant g s objs hs fd ->
  capabilities g !! a = Some c -> identifier c = id -> id <> 0 -> 0 <= bytes < 2 ^ 32 ->
  exists turn g' s' objs' hs', malloc_attempt bytes a sealed flags may_block g = Ok (turn, g') /\
    api_ok grant g' s' objs' hs' fd /\ identified g' a id /\
    attempt_outcome id bytes sealed flags may_block (quota c) g objs turn g' s' objs' /\
    pending s' hs' + (match turn with Again => 1 | _ => 0 end) <= pending s hs.
Proof.
  intros [A1 L B Hlive] Ha Hc Hid Hb. destruct g as [gg caps nx ff nt]. cbn in A1, Ha, B. subst gg id.
  pose proof (books_word _ _ _ _ _ _ _ B (lg_objects _ _ _ _ _ L) Ha) as Hq.
  destruct (ac_ids _ _ _ _ B a c Ha) as [I1 I2]. destruct (ac_next _ _ _ _ B) as [_ N2].
  unfold malloc_attempt. crun (capability_get_ok s caps nx ff nt a c Ha).
  destruct (ledger_dispatch [] s objs hs fd bytes (quota c) (identifier c) sealed L) as
    (r & q & s' & hs' & got & E & L' & Hr & _ & _ & Hpend); [lia|lia|change (2 ^ OwnerIDWidth) with (2 ^ 13) in N2; lia|].
  grun E. cbn beta iota. unfold obtained in Hr.
  assert (forall ff', api_ok grant (mkComp (Some s') caps nx ff' nt) s' objs hs' fd \/ got <> []) as Hstay.
  { intros ff'. destruct got; [left; by split|by right]. }
  assert (forall ff' gg, identified (mkComp gg caps nx ff' nt) a (identifier c)) as Hi by (intros; by exists c).
  destruct r as [|e| | |p].
  1-4: destruct Hr as (-> & -> & Hwhy); crun (quota_set_ok s' caps nx ff nt a c (quota c) Ha Hq); rewrite capability_same by done.
  - eexists _, _, s', objs, hs'. splits; [reflexivity|by destruct (Hstay ff)|done| |cbv iota; lia].
    split; [done|split; [done|by left]].
  - destruct (truth (Z.land flags AllocateWaitRevocationNeeded)) eqn:Ef; cbn [negb]; [pose proof (truth_flag _ _ Ef) as Hf|].
    2:{ eexists _, _, s', objs, hs'. splits; [reflexivity|by destruct (Hstay ff)|done| |cbv iota; lia].
        split; [done|split; [done|right; left]]. splits; [done|by apply truth_lacks|by exists e]. }
    destruct may_block; cbn [negb].
    2:{ eexists _, _, s', objs, hs'. splits; [reflexivity|by destruct (Hstay ff)|done| |cbv iota; lia].
        split; [done|split; [done|right; right; left]]. splits; [done|done|done|by exists e]. }
    destruct (owns_dequeue s' _ (lg_owns _ _ _ _ _ L')) as (b & s2 & E2 & O2 & Hh2 & Hc2 & Hr2 & Hd2). grun E2.
    assert (ledger [] s2 objs hs' fd) as L2.
    { destruct L' as [L1 L2' L3 L4 L5]. split; [done|by rewrite Hh2|done|done|by rewrite Hc2]. }
    destruct b.
    + eexists _, _, s2, objs, hs'. splits; [reflexivity|by split|done|done|]. unfold pending in *. lia.
    + destruct (bg_kick_ok s2) as (rd & kk & Hrd & E3). grun E3.
      eexists _, _, (with_counters (sanityCounter s2) rd kk s2), objs, hs'.
      splits; [reflexivity| |done| |unfold pending in *; cbn [heapQuarantineSize with_counters]; lia].
      * split; try done. apply (ledger_calm [] s2); try done. intros al Hal. by apply owns_counters.
      * split; [done|split; [done|]]. split; [done|]. by exists s', s2, rd, kk.
  - destruct (truth (Z.land flags AllocateWaitQuotaExceeded)) eqn:Ef; cbn [negb]; [pose proof (truth_flag _ _ Ef) as Hf|].
    + rewrite (C_bind_ok _ _ _ _ _ (on_gm_ok _ s' (heapFreeSize s') s' caps nx ff nt eq_refl)).
      eexists _, _, s', objs, hs'. splits; [reflexivity|by destruct (Hstay (s32 (heapFreeSize s')))|apply Hi| |cbv iota; lia].
      split; [done|split; [done|]]. split; [done|split; [done|by right]].
    + eexists _, _, s', objs, hs'. splits; [reflexivity|by destruct (Hstay ff)|done| |cbv iota; lia].
      split; [done|split; [done|right; right; right]]. split; [done|]. right. by split; [apply truth_lacks|].
  - destruct (truth (Z.land flags AllocateWaitHeapFull)) eqn:Ef; cbn [negb]; [pose proof (truth_flag _ _ Ef) as Hf|].
    + rewrite (C_bind_ok _ _ _ _ _ (on_gm_ok _ s' (heapFreeSize s') s' caps nx ff nt eq_refl)).
      eexists _, _, s', objs, hs'. splits; [reflexivity|by destruct (Hstay (s32 (heapFreeSize s')))|apply Hi| |cbv iota; lia].
      split; [done|split; [done|]]. split; [done|split; [done|by left]].
    + eexists _, _, s', objs, hs'. splits; [reflexivity|by destruct (Hstay ff)|done| |cbv iota; lia].
      split; [done|split; [done|right; right; right]]. split; [done|]. left. by split; [apply truth_lacks|].
  - destruct Hr as (b & d & -> & -> & Hlen & Hpr & Ho & Hsl & Hcl & Hmin & -> & Hq').
    change MinChunkSize with 16 in Hmin.
    crun (quota_set_ok s' caps nx ff nt a c (quota c - csize d) Ha ltac:(lia)).
    destruct (object_obtained s' objs hs' fd nx caps a c b d L' B Ha Hid Ho Hcl) as (L2 & B2 & Hl2); [done|done|lia|].
    eexists _, _, s', (mkObject b d [] :: objs), hs'. splits; [reflexivity| | | |cbv iota; lia].
    + split; try done. by constructor.
    + exists (mkPriv (quota c - csize d) (identifier c)). cbn. by rewrite lookup_insert_eq.
    + cbn. eexists. split; [done|]. unfold new_object. by splits.
Qed.

(** ** The loop *)

(** What the other threads do while the lock is free keeps the compartment in order, and the
    caller's capability what it is. *)
Definition well_behaved fd a id (w : Wait) : Prop := forall g s objs hs,
  api_ok grant g s objs hs fd -> identified g a id ->
  exists s' objs' hs', api_ok grant (others w g) s' objs' hs' fd /\ identified (others w g) a id.

(** The answer of the whole call: a new object; an error, for a reason that holds when it is
    returned, or because the time ran out in one of the waits; or [None], a thread that still
    waits, for a reason for which its flags let it wait. *)
Definition allocate_outcome id bytes sealed flags may_block (waits : list Wait) g objs (r : option (cap + Z)) g' s' objs' a : Prop :=
  match r with
  | Some (inl p) => exists o rest, objs' = o :: rest /\ new_object id bytes sealed p o /\ (waits = [] -> rest = objs)
  | Some (inr e) =>
      ((exists c, capabilities g' !! a = Some c /\ identifier c = id /\ refusal bytes flags may_block (quota c) s' e) \/
       (e = - ETIMEDOUT /\ exists w, w ∈ waits /\ (reacquired w = false \/ blocks_after w = false))) /\
      (waits = [] -> objs' = objs /\ capabilities g' = capabilities g)
  | None =>
      (exists c turn, capabilities g' !! a = Some c /\ identifier c = id /\ waits_because bytes flags (quota c) g' s' turn) /\
      (waits = [] -> objs' = objs /\ capabilities g' = capabilities g)
  end.

Lemma refusal_blocks bytes flags may_block q s e : refusal bytes flags true q s e -> refusal bytes flags may_block q s e.
Proof. unfold refusal. intros [?|[?|[(_ & _ & [=] & _)|?]]]; tauto. Qed.

(** What holds after the thread has waited holds of the whole call. *)
Lemma outcome_after_wait id bytes sealed flags may_block w waits g objs r g1 objs1 g' s' objs' a :
  allocate_outcome id bytes sealed flags true waits g1 objs1 r g' s' objs' a ->
  allocate_outcome id bytes sealed flags may_block (w :: waits) g objs r g' s' objs' a.
Proof.
  unfold allocate_outcome. destruct r as [[p|e]|].
  - intros (o & rest & ? & ? & _). by exists o, rest.
  - intros [[(c & ? & ? & Hr)|(? & x & ? & ?)] _]; (split; [|done]).
    + left. exists c. splits; [done|done|by eapply refusal_blocks].
    + right. split; [done|]. exists x. by split; [right|].
  - intros [? _]. by split.
Qed.

(** Between two waits, every turn but the last takes a chunk out of the quarantine. *)
Definition turns : nat := S (Z.to_nat MaxChunkSize).

Lemma malloc_loop_ok fuel waits g s objs hs fd a id bytes sealed flags may_block : api_ok grant g s objs hs fd ->
  identified g a id -> 0 <= bytes < 2 ^ 32 -> Forall (well_behaved fd a id) waits ->
  (Z.to_nat (pending s hs) + length waits * turns < fuel)%nat ->
  exists r g' s' objs' hs', malloc_loop fuel waits bytes a sealed flags may_block g = Ok (r, g') /\
    api_ok grant g' s' objs' hs' fd /\ allocate_outcome id bytes sealed flags may_block waits g objs r g' s' objs' a.
Proof.
  revert waits g s objs hs may_block. induction fuel as [|fuel IH]; intros waits g s objs hs may_block A Hi Hb Hw Hf; [lia|].
  cbn [malloc_loop]. pose proof Hi as (c & Hc & Hid & Hne).
  destruct (attempt_ok g s objs hs fd a c id bytes sealed flags may_block A Hc Hid Hne Hb) as
    (turn & g1 & s1 & objs1 & hs1 & E & A1 & Hi1 & Hout & Hp). crun E.
  pose proof (ledger_pending _ _ _ _ _ (ap_ledger _ _ _ _ _ _ A1)) as Hp1.
  assert (forall e, turn = WaitForRevoker e \/ turn = WaitForMemory e ->
    objs1 = objs /\ capabilities g1 = capabilities g /\ waits_because bytes flags (quota c) g1 s1 turn) as Hwait
    by (by intros e [-> | ->]).
  assert (forall e, turn = WaitForRevoker e \/ turn = WaitForMemory e -> exists r g' s' objs' hs',
    match waits with
    | [] => mret None
    | w :: waits =>
        _ ← cmodify (others w);
        if negb (reacquired w) then mret (Some (inr (- ETIMEDOUT)))
        else if blocks_after w then malloc_loop fuel waits bytes a sealed flags true
        else mret (Some (inr (- ETIMEDOUT)))
    end g1 = Ok (r, g') /\ api_ok grant g' s' objs' hs' fd /\
    allocate_outcome id bytes sealed flags may_block waits g objs r g' s' objs' a) as Hrest.
  { intros e He. destruct (Hwait e He) as (-> & Ec & Hfl). destruct waits as [|w waits].
    { eexists None, g1, s1, objs, hs1. splits; [done|done|]. split; [|done]. exists c, turn. by rewrite Ec. }
    apply Forall_cons in Hw as [Hw1 Hw]. destruct (Hw1 g1 s1 objs hs1 A1 Hi1) as (s2 & objs2 & hs2 & A2 & Hi2).
    rewrite (C_bind_ok _ _ g1 tt (others w g1) eq_refl). cbn beta.
    assert (reacquired w = false \/ blocks_after w = false ->
      allocate_outcome id bytes sealed flags may_block (w :: waits) g objs (Some (inr (- ETIMEDOUT))) (others w g1) s2 objs2 a) as Htime.
    { intros Ht. split; [|done]. right. split; [done|]. exists w. by split; [left|]. }
    destruct (reacquired w); cbn [negb]; [|by eexists _, _, s2, objs2, hs2; split; [reflexivity|split; [exact A2|auto]]].
    destruct (blocks_after w); [|by eexists _, _, s2, objs2, hs2; split; [reflexivity|split; [exact A2|auto]]].
    pose proof (ledger_pending _ _ _ _ _ (ap_ledger _ _ _ _ _ _ A2)) as Hp2.
    destruct (IH waits _ s2 objs2 hs2 true A2 Hi2 Hb Hw) as (r & g' & s' & objs' & hs' & E' & A' & Ho').
    { cbn [length] in Hf. unfold turns in Hf |- *. lia. }
    exists r, g', s', objs', hs'. splits; [done|done|]. by eapply outcome_after_wait. }
  destruct turn as [[p|e]| |e|e]; try (by apply (Hrest e); auto).
  - destruct Hout as (o & -> & Ho). eexists _, g1, s1, _, hs1. splits; [reflexivity|exact A1|]. by exists o, objs.
  - destruct Hout as (-> & Ec & Hr). eexists _, g1, s1, objs, hs1. splits; [reflexivity|exact A1|]. split; [|by split].
    left. exists c. by rewrite Ec.
  - destruct Hout as (-> & Ec & ->). destruct (IH waits g1 s1 objs hs1 true A1 Hi1 Hb Hw) as
      (r & g' & s' & objs' & hs' & E' & A' & Ho'); [lia|].
    exists r, g', s', objs', hs'. splits; [done|done|]. unfold allocate_outcome in *. by rewrite Ec in Ho'.
Qed.

(** [malloc_internal]. *)
Lemma malloc_internal_ok fuel waits g s objs hs fd a id bytes sealed flags may_block : api_ok grant g s objs hs fd ->
  identified g a id -> 0 <= bytes < 2 ^ 32 -> Forall (well_behaved fd a id) waits ->
  (S (length waits) * turns <= fuel)%nat ->
  exists r g' s' objs' hs', malloc_internal fuel waits bytes a sealed flags may_block g = Ok (r, g') /\
    api_ok grant g' s' objs' hs' fd /\ allocate_outcome id bytes sealed flags may_block waits g objs r g' s' objs' a.
Proof.
  intros A Hi Hb Hw Hf. pose proof A as [G L B Hl]. pose proof Hi as (c & Hc & Hid & Hne). unfold malloc_internal.
  assert (check_gm g = Ok (tt, g)) as E1 by (unfold check_gm; by rewrite G). crun E1.
  assert (capability_get a g = Ok (c, g)) as E2 by (unfold capability_get; by rewrite Hc). crun E2.
  assert (on_gm (massert (negb (identifier c =? QuotaIdentifierAllocatorOwned))) g = Ok (tt, g)) as E3.
  { unfold on_gm. rewrite G. cbn [deref]. rewrite ok_bind. rewrite massert_ok; [|rewrite Hid; by apply negb_true_iff, Z.eqb_neq].
    rewrite ok_bind. destruct g. cbn in G. by subst. }
  crun E3. pose proof (ledger_pending _ _ _ _ _ L) as Hp. unfold turns in Hf.
  apply (malloc_loop_ok fuel waits g s objs hs fd a id); [done|done|done|done|unfold turns; lia].
Qed.

(** ** The entry points *)

Definition friendly fd (w : Wait) : Prop := forall a id, well_behaved fd a id w.

Definition allocate_answer (hc : AllocatorCapability) (bytes flags : Z) (may_block : bool) (waits : list Wait) g objs
    (r : option (cap + Z)) g' s' objs' : Prop :=
  (r = Some (inr (- EPERM)) /\ refused g hc AllocatorPermitAllocate /\ g' = g /\ objs' = objs) \/
  exists id g1 a, unseals g hc AllocatorPermitAllocate id g1 /\ token_unseal hc = Some a /\
    allocate_outcome id bytes false flags may_block waits g1 objs r g' s' objs' a.

Lemma heap_allocate_ok fuel waits may_block g s objs hs fd hc bytes flags : api_ok grant g s objs hs fd -> genuine g hc ->
  0 <= bytes < 2 ^ 32 -> Forall (friendly fd) waits -> (S (length waits) * turns <= fuel)%nat ->
  exists r g' s' objs' hs', heap_allocate fuel waits true may_block hc bytes flags g = Ok (r, g') /\
    api_ok grant g' s' objs' hs' fd /\ allocate_answer hc bytes flags may_block waits g objs r g' s' objs'.
Proof.
  intros A Hg Hb Hw Hf. unfold heap_allocate. cbn [negb].
  destruct (unseal_ok grant g s objs hs fd hc AllocatorPermitAllocate A Hg) as (r & g1 & E & A1 & _ & _ & Hr). crun E.
  destruct r as [a|].
  - destruct Hr as (Hp & Ht & c0 & c & _ & Hc & Hid & _).
    destruct (malloc_internal_ok fuel waits g1 s objs hs fd a (identifier c) bytes false flags may_block A1) as
      (r & g' & s' & objs' & hs' & E' & A' & Ho); [by exists c|done| |done|].
    { eapply Forall_impl; [exact Hw|]. intros w Hall. apply Hall. }
    exists r, g', s', objs', hs'. splits; [done|done|]. right. exists (identifier c), g1, a. splits; [by exists a, c|done|done].
  - destruct Hr as [-> Hr]. eexists _, g, s, objs, hs. splits; [reflexivity|exact A|]. by left.
Qed.

(** The size of an array that does not fit a word is refused. *)
Lemma heap_allocate_array_ok fuel waits may_block g s objs hs fd hc n size flags : api_ok grant g s objs hs fd -> genuine g hc ->
  0 <= n < 2 ^ 32 -> 0 <= size < 2 ^ 32 -> Forall (friendly fd) waits -> (S (length waits) * turns <= fuel)%nat ->
  exists r g' s' objs' hs', heap_allocate_array fuel waits true may_block hc n size flags g = Ok (r, g') /\
    api_ok grant g' s' objs' hs' fd /\
    if 2 ^ 32 <=? n * size then objs' = objs /\ (r = Some (inr (- EINVAL)) \/ r = Some (inr (- EPERM)))
    else allocate_answer hc (n * size) flags may_block waits g objs r g' s' objs'.
Proof.
  intros A Hg Hn Hs Hw Hf. unfold heap_allocate_array. cbn [negb].
  destruct (unseal_ok grant g s objs hs fd hc AllocatorPermitAllocate A Hg) as (r & g1 & E & A1 & _ & _ & Hr). crun E.
  destruct r as [a|].
  - destruct Hr as (Hp & Ht & c0 & c & _ & Hc & Hid & _). cbv zeta. destruct (Z.leb_spec (2 ^ 32) (n * size)) as [Hle|Hlt].
    { eexists _, g1, s, objs, hs. splits; [reflexivity|exact A1|done|by left]. }
    destruct (malloc_internal_ok fuel waits g1 s objs hs fd a (identifier c) (n * size) false flags may_block A1) as
      (r & g' & s' & objs' & hs' & E' & A' & Ho); [by exists c|nia| |done|].
    { eapply Forall_impl; [exact Hw|]. intros w Hall. apply Hall. }
    exists r, g', s', objs', hs'. splits; [done|done|]. right. exists (identifier c), g1, a. splits; [by exists a, c|done|done].
  - destruct Hr as [-> Hr]. eexists _, g, s, objs, hs. splits; [reflexivity|exact A|].
    destruct (2 ^ 32 <=? n * size); [by split; [|right]|by left].
Qed.
End AllocCalls.
