(* ===== verification/ApiReach.v ===== *)
(** * The first call

    [check_gm] makes the heap on the first call that needs it, and with it the invariant
    [api_ok] of the compartment. *)

From S2P Require Import Prelude LinkedList RingBuffer Bits AllocSizes ChunkHeader MState Bins SmallBins Allocator Heap Release Malloc Accounts Quarantine Dequeue FreeOp Hazard Dispatch Reach Owns HeapApi Ledger Claims Books ClaimApi FreeApi EntryPoints AllocCalls.

Section Start.
Context `{EnvOk} `{Hepoch : !Epochs} `{Hcheri : !Cheri} `{Hconf : !Configured}.
Implicit Types (s : MState) (caps : gmap Z PrivateAllocatorCapabilityState) (g : Compartment).

(** The compartment before its first call: no heap, and no capability has an identifier. *)
Record fresh (grant : Z -> Z) g : Prop := {
  fr_gm : gm g = None;
  fr_caps : forall a c, capabilities g !! a = Some c -> identifier c = 0 /\ quota c = grant a /\ 0 <= grant a < 2 ^ 32;
  fr_next : nextIdentifier g = 1;
}.

Lemma start_ok grant g : fresh grant g -> exists g' s fd, check_gm g = Ok (tt, g') /\ api_ok grant g' s [] [] fd /\
  capabilities g' = capabilities g.
Proof.
  intros [Hg Hc Hn]. destruct mstate_init_ok as (s & E & Ha & Hal); [apply cf_base|apply cf_size|apply cf_address|apply cf_min|apply cf_max|].
  unfold check_gm. rewrite Hg, E, ok_bind, dassert_true, ok_bind by done.
  eexists _, s, (strip footer_chunk). splits; [reflexivity| |done].
  assert (heap_address + heap_size = heap_top) as Et by (unfold heap_size; rewrite cf_address; lia). rewrite Et in Hal.
  assert (hazardQuarantine s = []) as Eh.
  { destruct (al_hazards _ _ _ _ Ha) as [Hh _]. destruct (hazardQuarantine s) as [|h hq]; [done|exfalso].
    apply Forall_cons in Hh as [(d & Hd & Hmin & _) _]. rewrite Hal in Hd. apply list_elem_of_singleton in Hd. injection Hd as _ ->.
    by change MinChunkSize with 16 in Hmin. }
  split; cbn [gm with_gm capabilities nextIdentifier]; try done.
  - assert (owns s ([] ++ blocks [] ++ [] ++ [(heap_top, strip footer_chunk)])) as Ho.
    { exists init_chunks, init_frees, no_quarantine. split; [done|]. by rewrite Hal. }
    split; [exact Ho|by rewrite Eh|constructor|done|constructor].
  - split; try done.
    + intros a c Ha'. destruct (Hc a c Ha') as (Hi & Hq & Hr). rewrite Hi, Hq. unfold charge. cbn. lia.
    + intros a c Ha'. by destruct (Hc a c Ha') as (_ & _ & _ & ?).
    + intros a c Ha'. destruct (Hc a c Ha') as (-> & _). rewrite Hn. lia.
    + intros a c a' c' Ha1 _ _ Hi. by destruct (Hc a c Ha1) as (? & _).
    + rewrite Hn. change OwnerIDWidth with 13. lia.
Qed.
End Start.

(** * Every state of the compartment

    The states that sequences of calls lead to, from the first one on.  A thread that waits
    for memory gives up the lock; when it has it again, it goes on with the loop
    ([Retry]), after whatever calls the other threads made. *)

Inductive call : Type :=
| Allocate (hc : AllocatorCapability) (bytes flags : Z) (may_block : bool)
| AllocateArray (hc : AllocatorCapability) (nElements elemSize flags : Z) (may_block : bool)
| Retry (a bytes flags : Z) (isSealed : bool)
| Free (hc : AllocatorCapability) (mem : cap)
| CanFree (hc : AllocatorCapability) (mem : cap)
| Claims (hc : AllocatorCapability) (mem : cap)
| QuotaRemaining (hc : AllocatorCapability)
| Available.

Section ApiReach.
Context `{EnvOk} `{Hepoch : !Epochs} `{Hcheri : !Cheri} `{Hconf : !Configured} (grant : Z -> Z).
Implicit Types (s : MState) (o : object) (g : Compartment).

Definition number (m : C Z) : C (option (cap + Z)) := r ← m; mret (Some (inr r)).

(** What the compartment does for a call. *)
Definition run_call (c : call) : C (option (cap + Z)) :=
  match c with
  | Allocate hc bytes flags may_block => heap_allocate turns [] true may_block hc bytes flags
  | AllocateArray hc n size flags may_block => heap_allocate_array turns [] true may_block hc n size flags
  | Retry a bytes flags isSealed => malloc_loop turns [] bytes a isSealed flags true
  | Free hc mem => number (heap_free hc mem)
  | CanFree hc mem => number (heap_can_free hc mem)
  | Claims hc mem => number (heap_claim hc mem)
  | QuotaRemaining hc => number (heap_quota_remaining hc)
  | Available => number heap_available
  end.

(** The pointer is usable, and derived from the one that was given out for the chunk. *)
Definition derived (mem : cap) (b : Z) (d : chunk) : Prop :=
  ctag mem = true /\ csealed_cap mem = false /\ b <= cbase mem <= b - sizeof_header + csize d.

(** The pointers that can be presented: unusable ones, those that do not point into the heap,
    and those into an object that is held or that only a hazard pointer keeps. *)
Inductive presented (objs : list object) (hs : list (Z * chunk)) (mem : cap) : Prop :=
| presents_unusable : ctag mem = false \/ csealed_cap mem = true -> presented objs hs mem
| presents_outside : cbase mem < heap_address \/ heap_top + 8 <= cbase mem -> 0 <= cbase mem < 2 ^ 32 -> presented objs hs mem
| presents_object o : o ∈ objs -> derived mem (obody o) (ochunk o) -> presented objs hs mem
| presents_idle b d : (b, d) ∈ hs -> derived mem b d -> presented objs hs mem.

(** The calls that can be made, with word-sized arguments; deallocation needs room for two
    chunks in the hazard quarantine. *)
Definition permitted g s objs hs (c : call) : Prop :=
  match c with
  | Allocate hc bytes _ _ => genuine g hc /\ 0 <= bytes < 2 ^ 32
  | AllocateArray hc n size _ _ => genuine g hc /\ 0 <= n < 2 ^ 32 /\ 0 <= size < 2 ^ 32
  | Retry a bytes _ _ => (exists id, identified g a id) /\ 0 <= bytes < 2 ^ 32
  | Free hc mem | CanFree hc mem => genuine g hc /\ presented objs hs mem /\ room 2 s
  | Claims hc mem => genuine g hc /\ presented objs [] mem
  | QuotaRemaining hc => genuine g hc
  | Available => True
  end.

Definition in_order g : Prop := exists s objs hs fd, api_ok grant g s objs hs fd.

Inductive reachable : Compartment -> Prop :=
| reach_start g0 g : fresh grant g0 -> check_gm g0 = Ok (tt, g) -> reachable g
| reach_call g s objs hs fd c r g' : reachable g -> api_ok grant g s objs hs fd -> permitted g s objs hs c ->
    run_call c g = Ok (r, g') -> reachable g'.

(** ** Pointers that are rejected *)

(** No chunk is found for the pointer. *)
Definition useless s (mem : cap) : Prop :=
  ctag mem = false \/ csealed_cap mem = true \/ allocation_start (cbase mem) s = Ok (0, s).

Lemma presented_cases g s objs hs idles fd mem : api_ok grant g s objs hs fd -> idles ⊆ hs -> presented objs idles mem ->
  useless s mem \/ (exists o, o ∈ objs /\ points_into mem (obody o) (ochunk o)) \/
  (exists b d, (b, d) ∈ idles /\ points_into mem b d).
Proof.
  intros A Hsub Hp. pose proof (ap_ledger _ _ _ _ _ _ A) as L.
  assert (forall b d, (b, d) ∈ blocks objs ++ hs -> MinChunkSize <= csize d -> derived mem b d -> points_into mem b d \/ useless s mem) as Hd.
  { intros b d Hb Hm (Ht & Hs & Hx). pose proof (lg_owns _ _ _ _ _ L) as Ho.
    destruct (ledger_below [] s objs hs fd b d L Hb) as [Hin Hle]. change sizeof_header with 8 in Hx.
    destruct (owns_end s _ b d Ho Hin Hm) as [Em Ha]. destruct (owns_block s _ b d Ho Hin) as [Hlo _ Hb8 [Hs8 _] _ _ _].
    pose proof heap_below. pose proof base_below. pose proof ms_below. pose proof address_aligned.
    destruct (Z.eq_dec (cbase mem) (b - 8 + csize d)) as [E|]; [right|left; split; [done|split; [done|change sizeof_header with 8; lia]]].
    right. right. apply start_none; [lia|]. right; right. rewrite E. split; [|done]. by apply mod8_add; [apply mod8_sub|]. }
  destruct Hp as [[Hu|Hu]|Hout Hx|o Hin Hdr|b d Hin Hdr].
  - left. by left.
  - left. right. by left.
  - left. right. right. apply start_none; [done|]. tauto.
  - destruct (ledger_in _ _ _ _ _ o L Hin) as (_ & _ & _ & _ & Hok). pose proof (proj1 (oo_given _ _ Hok)) as Hm.
    destruct (Hd (obody o) (ochunk o)) as [?|?]; [|done|done|right; left; by exists o|by left].
    apply elem_of_app. left. apply list_elem_of_bind. exists o. split; [left|done].
  - pose proof (lg_waiting _ _ _ _ _ L) as Hw. rewrite Forall_forall in Hw. destruct (Hw _ (Hsub _ Hin)) as [_ [Hm _]]. cbn [fst snd] in Hm.
    destruct (Hd b d) as [?|?]; [|done|done|right; right; by exists b, d|by left].
    apply elem_of_app. right. by apply Hsub.
Qed.

(** ** Every permitted call returns *)

Lemma free_useless g s objs hs fd hc mem really : api_ok grant g s objs hs fd -> genuine g hc -> useless s mem ->
  exists r g', heap_free_internal hc mem really g = Ok (r, g') /\ api_ok grant g' s objs hs fd /\ r <> 0.
Proof.
  intros A Hg Hu. unfold heap_free_internal.
  destruct (unseal_ok grant g s objs hs fd hc AllocatorPermitNone A Hg) as (r & g1 & E & A1 & _ & _ & Hr). crun E.
  destruct r as [a|]; [|exists (- EPERM), g1; by destruct Hr as [-> _]].
  destruct (negb (ctag mem) || csealed_cap mem) eqn:Et; [by exists (- EINVAL), g1|].
  pose proof (ap_gm _ _ _ _ _ _ A1) as G. assert (check_gm g1 = Ok (tt, g1)) as Ec by (unfold check_gm; by rewrite G). crun Ec.
  destruct Hu as [Hu|[Hu|Hu]]; [by rewrite Hu in Et|by rewrite Hu, orb_true_r in Et|].
  destruct g1 as [gg caps nx ff nt]. cbn in G. subst gg. grun Hu. by exists (- EINVAL), (mkComp (Some s) caps nx ff nt).
Qed.

Lemma claim_useless g s objs hs fd hc mem : api_ok grant g s objs hs fd -> genuine g hc -> useless s mem ->
  exists r g', heap_claim hc mem g = Ok (r, g') /\ api_ok grant g' s objs hs fd.
Proof.
  intros A Hg Hu. unfold heap_claim.
  destruct (unseal_ok grant g s objs hs fd hc AllocatorPermitAllocate A Hg) as (r & g1 & E & A1 & _ & _ & Hr). crun E.
  destruct r as [a|]; [|exists (- EPERM), g1; by destruct Hr as [-> _]].
  destruct (negb (ctag mem) || csealed_cap mem) eqn:Et; [by exists (- EINVAL), g1|].
  destruct Hu as [Hu|[Hu|Hu]]; [by rewrite Hu in Et|by rewrite Hu, orb_true_r in Et|].
  pose proof (ap_gm _ _ _ _ _ _ A1) as G. destruct g1 as [gg caps nx ff nt]. cbn in G. subst gg.
  grun Hu. by exists (- EINVAL), (mkComp (Some s) caps nx ff nt).
Qed.

(** [heap_free_internal] for every pointer that can be presented. *)
Lemma free_presented g s objs hs fd hc mem really : api_ok grant g s objs hs fd -> genuine g hc -> presented objs hs mem ->
  room 2 s -> exists r g' s' objs' hs', heap_free_internal hc mem really g = Ok (r, g') /\ api_ok grant g' s' objs' hs' fd.
Proof.
  intros A Hg Hp Hroom. destruct (presented_cases g s objs hs hs fd mem A ltac:(done) Hp) as [Hu|[(o & Ho & Hx)|(b & d & Hb & Hx)]].
  - destruct (free_useless g s objs hs fd hc mem really A Hg Hu) as (r & g' & E & A' & _). by exists r, g', s, objs, hs.
  - apply elem_of_Permutation in Ho as [rest Ho]. apply (api_perm _ _ _ _ _ _ _ Ho) in A.
    destruct (heap_free_internal_ok grant g s o rest hs fd hc mem really A Hg Hx Hroom) as (r & g' & s' & objs' & hs' & E & A' & _).
    by exists r, g', s', objs', hs'.
  - destruct (heap_free_idle grant g s objs hs fd hc mem b d really A Hg Hb Hx) as (g' & E & A'). by exists (- EPERM), g', s, objs, hs.
Qed.

Lemma number_ok (m : C Z) r g g' : m g = Ok (r, g') -> number m g = Ok (Some (inr r), g').
Proof. intros E. unfold number. by rewrite (C_bind_ok _ _ _ _ _ E). Qed.

Lemma call_ok c g s objs hs fd : api_ok grant g s objs hs fd -> permitted g s objs hs c ->
  exists r g' s' objs' hs', run_call c g = Ok (r, g') /\ api_ok grant g' s' objs' hs' fd.
Proof.
  intros A Hp. assert (S (length (@nil Wait)) * turns <= turns)%nat as Hf by (apply Nat.eq_le_incl, Nat.mul_1_l).
  destruct c as [hc bytes flags mb|hc n size flags mb|a bytes flags sealed|hc mem|hc mem|hc mem|hc|]; cbn [run_call permitted] in *.
  - destruct Hp as [Hg Hb]. destruct (heap_allocate_ok grant turns [] mb g s objs hs fd hc bytes flags A Hg Hb (Forall_nil_2 _) Hf)
      as (r & g' & s' & objs' & hs' & E & A' & _). by exists r, g', s', objs', hs'.
  - destruct Hp as (Hg & Hn & Hs). destruct (heap_allocate_array_ok grant turns [] mb g s objs hs fd hc n size flags A Hg Hn Hs (Forall_nil_2 _) Hf)
      as (r & g' & s' & objs' & hs' & E & A' & _). by exists r, g', s', objs', hs'.
  - destruct Hp as [[id Hi] Hb]. pose proof (ledger_pending _ _ _ _ _ (ap_ledger _ _ _ _ _ _ A)) as Hpd.
    destruct (malloc_loop_ok grant turns [] g s objs hs fd a id bytes sealed flags true A Hi Hb (Forall_nil_2 _))
      as (r & g' & s' & objs' & hs' & E & A' & _); [change (length (@nil Wait)) with 0%nat; unfold turns; lia|]. by exists r, g', s', objs', hs'.
  - destruct Hp as (Hg & Hp & Hroom). destruct (free_presented g s objs hs fd hc mem true A Hg Hp Hroom) as (r & g1 & s' & objs' & hs' & E & A').
    unfold number, heap_free. rewrite C_assoc. crun E. destruct (negb (r =? 0)); [by exists (Some (inr r)), g1, s', objs', hs'|].
    rewrite C_assoc. rewrite (C_bind_ok _ _ g1 (freeFutex g1) g1 eq_refl). destruct (negb (freeFutex g1 =? -1)).
    + eexists (Some (inr 0)), _, s', objs', hs'. split; [reflexivity|]. by destruct A' as [A1 A2 A3 A4].
    + by exists (Some (inr 0)), g1, s', objs', hs'.
  - destruct Hp as (Hg & Hp & Hroom). destruct (free_presented g s objs hs fd hc mem false A Hg Hp Hroom) as (r & g1 & s' & objs' & hs' & E & A').
    apply number_ok in E. by exists (Some (inr r)), g1, s', objs', hs'.
  - destruct Hp as [Hg Hp].
    destruct (presented_cases g s objs hs [] fd mem A (list_subseteq_nil hs) Hp) as [Hu|[(o & Ho & Hx)|(b & d & Hb%not_elem_of_nil & _)]]; [| |done].
    + destruct (claim_useless g s objs hs fd hc mem A Hg Hu) as (r & g1 & E & A'). apply number_ok in E. by exists (Some (inr r)), g1, s, objs, hs.
    + apply elem_of_Permutation in Ho as [rest Ho]. apply (api_perm _ _ _ _ _ _ _ Ho) in A.
      destruct (heap_claim_ok grant g s o rest hs fd hc mem A Hg Hx) as (r & g1 & s' & o' & hs' & E & A' & _).
      apply number_ok in E. by exists (Some (inr r)), g1, s', (o' :: rest), hs'.
  - destruct (heap_quota_remaining_ok grant g s objs hs fd hc A Hp) as (r & g1 & E & A' & _).
    apply number_ok in E. by exists (Some (inr r)), g1, s, objs, hs.
  - assert (heap_available g = Ok (heapFreeSize s, g)) as E%number_ok.
    { unfold heap_available, on_gm. rewrite (ap_gm _ _ _ _ _ _ A). destruct g as [gg caps nx ff nt] eqn:Eg.
      pose proof (ap_gm _ _ _ _ _ _ A) as G. cbn in G. by subst. }
    by exists (Some (inr (heapFreeSize s))), g, s, objs, hs.
Qed.

Lemma reachable_ok g : reachable g -> in_order g.
Proof.
  induction 1 as [g0 g Hf E|g s objs hs fd c r g' _ _ A Hp E].
  - destruct (start_ok grant g0 Hf) as (g' & s & fd & E' & A & _). rewrite E in E'. injection E' as <-. by exists s, [], [], fd.
  - destruct (call_ok c g s objs hs fd A Hp) as (r' & g2 & s' & objs' & hs' & E' & A'). rewrite E in E'. injection E' as -> ->.
    by exists s', objs', hs', fd.
Qed.
End ApiReach.
