(* ===== verification/Demo.v ===== *)
(** * A concrete allocator

    A heap of 16 KiB with two hazard pointers and a revoker whose epoch steps every eight
    readings, and some states it goes through, for the examples. *)

From S2P Require Import Prelude LinkedList RingBuffer Bits AllocSizes ChunkHeader MState Bins SmallBins TreeBins TreeUnlink FreeLists TreeSelect Allocator Heap Release Malloc Accounts Quarantine Dequeue FreeOp Hazard MallocOp Memalign Sanity Label Dispatch Reach Owns HeapApi Ledger Claims Books ClaimApi FreeApi EntryPoints AllocCalls ApiReach.

Definition demo_env (hazards : nat -> nat -> cap) : Env := {|
  debug := true; NDEBUG := false; IsAsynchronous := true;
  ms_address := 4096; heap_base := 4096; heap_address := 4360; heap_top := 4096 + 16384;
  epoch_at n := Z.min (Z.of_nat n / 8) 1000;
  hazard_count := 2; hazard_at := hazards; thread_id := 1;
  representable_length := rounded_length; representable_alignment_mask := granule_mask;
|}.

#[export] Instance demo : Env := demo_env (fun _ _ => null_cap).

#[export] Instance demo_ok : EnvOk.
Proof. split; cbn; (lia || done). Qed.

#[export] Instance demo_epochs : Epochs.
Proof.
  split.
  - intros m n Hmn. cbn. pose proof (Z.div_le_mono (Z.of_nat m) (Z.of_nat n) 8). lia.
  - intros n. cbn. pose proof (Z.div_pos (Z.of_nat n) 8). lia.
Qed.

#[export] Instance demo_cheri : Cheri.
Proof. by apply cheriot_cheri. Defined.

#[export] Instance demo_configured : Configured.
Proof. split; vm_compute; (done || congruence). Qed.

#[global] Opaque mspace_malloc mspace_free mstate_init mspace_qtbin_deqn mspace_free_internal.

Definition state_of {A} (o : outcome (A * MState)) : MState :=
  match o with Ok (_, s) => s | Err _ => zero_state end.

Definition demo_state : MState := state_of (mstate_init zero_state).

Lemma demo_init : mstate_init zero_state = Ok (true, demo_state) /\
  alloc_ok demo_state init_chunks init_frees no_quarantine.
Proof.
  destruct init_reached as (s & E & Ha). assert (demo_state = s) as -> by (unfold demo_state; by rewrite E).
  by split.
Qed.

Definition value_of (o : outcome (Z * MState)) : Z := match o with Ok (v, _) => v | Err _ => -1 end.

(** A chunk has been allocated. *)
Definition demo_malloced : MState := state_of (mspace_malloc 96 demo_state).

Lemma demo_malloced_ok : exists l F q c, mspace_malloc 96 demo_state = Ok (4368, demo_malloced) /\
  alloc_ok demo_malloced l F q /\ freeable l q 4368 c /\ 104 <= csize c.
Proof.
  destruct (mspace_malloc_ok _ _ _ _ 96 (proj2 demo_init)) as (p & s & l & F & q & E & Ha & _ & Ho).
  { lia. }
  assert (value_of (mspace_malloc 96 demo_state) = 4368) as Ev by (vm_compute; reflexivity).
  assert (demo_malloced = s) as -> by (unfold demo_malloced; by rewrite E).
  rewrite E in Ev. cbn [value_of] in Ev. subst p.
  destruct Ho as [(Ep & _)|(_ & d & Hp & Hd & _ & Hc & _)]; [done|]. change sizeof_header with 8 in Hd.
  assert ((4368, d) ∈ allocated l q) as Hin by (rewrite Hp; left).
  destruct (allocated_freeable _ _ _ _ Hin Hc) as (c & Ec & Hf); [change MinChunkSize with 16; lia|].
  exists l, F, q, c. splits; [done|done|done|]. replace (csize c) with (csize d) by (by rewrite <- Ec). lia.
Qed.

(** The chunk has been freed and is in quarantine. *)
Definition demo_freed : MState := state_of (mspace_free (from_body 4368) 96 demo_malloced).

Lemma demo_freed_ok : exists l F q, mspace_free (from_body 4368) 96 demo_malloced = Ok (0, demo_freed) /\
  alloc_ok demo_freed l F q /\ qmembers q <> [].
Proof.
  destruct demo_malloced_ok as (l & F & q & c & _ & Ha & Hf & Hc).
  assert (hazardQuarantine demo_malloced = []) as Eh by (vm_compute; reflexivity).
  destruct (mspace_free_spec _ _ _ _ 4368 c 96 Ha Hf) as (s & l' & F' & q' & gone & E & Ha' & _).
  - change sizeof_header with 8. lia.
  - done.
  - vm_compute. reflexivity.
  - rewrite Eh. apply not_elem_of_nil.
  - rewrite Eh. cbn. lia.
  - assert (demo_freed = s) as <- by (unfold demo_freed; by rewrite E).
    exists l', F', q'. splits; [done|done|]. intros Em.
    pose proof (so_quarantine _ _ _ _ _ (al_state _ _ _ _ Ha')) as Eq. rewrite Em in Eq.
    assert (heapQuarantineSize demo_freed = 104) as E104 by (vm_compute; reflexivity).
    rewrite E104 in Eq. clear -Eq. vm_compute in Eq. discriminate Eq.
Qed.

(** The revoker has gone on for a while. *)
Definition demo_swept : MState := with_counters (sanityCounter demo_freed) 200 (kicks demo_freed) demo_freed.

Lemma demo_swept_ok : exists l F q, state_ok 0 demo_swept l F q /\ qmembers q <> [] /\
  all_ready demo_swept q /\ (length (qmembers q) < 100)%nat.
Proof.
  destruct demo_freed_ok as (l & F & q & _ & Ha & Hne).
  assert (readings demo_freed < 16)%nat as Hr by (vm_compute; lia).
  assert (heapQuarantineSize demo_freed = 104) as E104 by (vm_compute; reflexivity).
  pose proof (members_count _ _ _ _ _ (al_state _ _ _ _ Ha)) as Hc. rewrite E104 in Hc.
  exists l, F, q. splits.
  - apply counters_ok; [apply Ha|clear -Hr; lia].
  - exact Hne.
  - apply Forall_forall. intros w Hw. destruct (member_epoch _ _ w (so_quar _ _ _ _ _ (al_state _ _ _ _ Ha)) Hw) as (n & Hn & Hle).
    assert (epoch_at (readings demo_swept) = 25) as -> by (vm_compute; reflexivity).
    assert (epoch_at n <= 2) as Hn2.
    { pose proof (epoch_monotone n 16 ltac:(clear -Hn Hr; lia)) as Hm. clear -Hm. vm_compute epoch_at in Hm at 2. lia. }
    clear -Hle Hn2. lia.
  - clear -Hc. lia.
Qed.

(** * A concrete compartment

    The heap of [Demo] with two allocation capabilities, and some states it goes through, for
    the examples of [ApiSpec]. *)

Definition comp_of {A} (o : outcome (A * Compartment)) : Compartment :=
  match o with Ok (_, g) => g | Err _ => mkComp None ∅ 1 0 0 end.
Definition result_of {A} (o : outcome (A * Compartment)) : option A :=
  match o with Ok (v, _) => Some v | Err _ => None end.

Lemma comp_result {A} (o : outcome (A * Compartment)) r g : o = Ok (r, g) -> comp_of o = g /\ result_of o = Some r.
Proof. by intros ->. Qed.

Lemma unseals_id g hc p id g1 n a : unseals g hc p id g1 -> token_unseal hc = Some a ->
  identifier <$> capabilities (comp_of (malloc_capability_unseal hc p g)) !! a = Some n -> id = n.
Proof.
  intros (a' & c & Eu & Et & Hc & Hid & _) Ha En. apply comp_result in Eu as [Eu _]. rewrite Eu in En.
  rewrite Et in Ha. injection Ha as ->. rewrite Hc in En. cbn in En. congruence.
Qed.

Section Steps.
Context `{EnvOk} `{Hepoch : !Epochs} `{Hcheri : !Cheri} (grant : Z -> Z).

(** The room in the hazard quarantine, from its length. *)
Lemma room_of g s objs hs fd k n : api_ok grant g s objs hs fd ->
  length <$> (hazardQuarantine <$> gm g) = Some n -> (n + k <= hazard_count)%nat -> room k s.
Proof. intros A. rewrite (ap_gm _ _ _ _ _ _ A). cbn. intros [= <-]. done. Qed.

(** The first allocation, from its answer. *)
Lemma sole_object g s fd hc bytes p : api_ok grant g s [] [] fd -> genuine g hc -> 0 <= bytes < 2 ^ 32 ->
  result_of (heap_allocate turns [] true true hc bytes 0 g) = Some (Some (inl p)) ->
  exists s' o hs' id g1, api_ok grant (comp_of (heap_allocate turns [] true true hc bytes 0 g)) s' [o] hs' fd /\
    points_into p (obody o) (ochunk o) /\ whole p o = true /\ oclaims o = [] /\
    unseals g hc AllocatorPermitAllocate id g1 /\ cowner (ochunk o) = id.
Proof.
  intros A Hg Hb E3. destruct (heap_allocate_ok grant turns [] true g s [] [] fd hc bytes 0 A Hg Hb) as
    (r & g' & s' & objs' & hs' & E & A' & Hans); [apply Forall_nil_2|apply Nat.eq_le_incl, Nat.mul_1_l|].
  apply comp_result in E as [E1 E2]. rewrite E3 in E2. injection E2 as <-.
  destruct Hans as [(Hbad & _)|(id & g1 & a & Hu & _ & o & rest & -> & (Hp & Hlen & Ho & _ & Hc) & Hr)]; [discriminate Hbad|].
  rewrite (Hr eq_refl) in A'. exists s', o, hs', id, g1. rewrite E1. splits; [exact A'| | |exact Hc|exact Hu|exact Ho].
  - destruct (ledger_in _ _ _ _ _ o (ap_ledger _ _ _ _ _ _ A') ltac:(left)) as (_ & _ & _ & _ & Hok).
    pose proof (proj1 (oo_given _ _ Hok)) as Hm. change MinChunkSize with 16 in Hm. rewrite Hp. unfold points_into.
    change sizeof_header with 8. cbn [ctag csealed_cap cbase]. splits; (lia || done).
  - unfold whole. rewrite Hp. cbn [cbase clength]. by rewrite !Z.eqb_refl.
Qed.
End Steps.

Definition demo_grant (a : Z) : Z := if a =? 1 then 1000 else 500.

(** Two capabilities, whose states are at the addresses 1 and 2. *)
Definition demo_compartment : Compartment :=
  mkComp None (<[1 := mkPriv 1000 0]> (<[2 := mkPriv 500 0]> ∅)) 1 0 0.

Definition alice : AllocatorCapability := mkAC 3 (Some 1).
Definition bob : AllocatorCapability := mkAC 3 (Some 2).

Lemma demo_fresh : fresh demo_grant demo_compartment.
Proof.
  split; [done| |done]. unfold demo_compartment. cbn [capabilities]. intros a c [(<- & <-)|(_ & [(<- & <-)|(_ & ?)]%lookup_insert_Some)]%lookup_insert_Some; [done|done|].
  by rewrite lookup_empty in *.
Qed.

(** The heap has been made. *)
Definition demo_started : Compartment := comp_of (check_gm demo_compartment).

Lemma demo_started_ok : exists s fd, api_ok demo_grant demo_started s [] [] fd.
Proof.
  destruct (start_ok demo_grant demo_compartment demo_fresh) as (g & s & fd & E & A & _).
  apply comp_result in E as [E _]. exists s, fd. unfold demo_started. by rewrite E.
Qed.

(** Alice has allocated 96 bytes. *)
Definition demo_call : C (option (cap + Z)) := heap_allocate turns [] true true alice 96 0.
Definition demo_allocated : Compartment := comp_of (demo_call demo_started).
Definition demo_pointer : cap := mkCap 4368 96 true false.

Lemma demo_genuine g a : is_Some (capabilities g !! a) -> genuine g (mkAC 3 (Some a)).
Proof. by intros Hg a' [= <-]. Qed.

Lemma demo_allocated_ok : exists s o hs fd, api_ok demo_grant demo_allocated s [o] hs fd /\
  points_into demo_pointer (obody o) (ochunk o) /\ room 2 s /\ whole demo_pointer o = true /\ oclaims o = [] /\ cowner (ochunk o) = 1.
Proof.
  destruct demo_started_ok as (s & fd & A).
  destruct (sole_object demo_grant demo_started s fd alice 96 demo_pointer A) as (s' & o & hs' & id & g1 & A' & Hx & Hw & Hc & Hu & Ho);
    [apply demo_genuine; by eexists|lia|vm_compute; reflexivity|].
  exists s', o, hs', fd. splits; [exact A'|exact Hx| |exact Hw|exact Hc|].
  - apply (room_of _ _ _ _ _ _ _ 0 A'); [vm_compute; reflexivity|cbn; lia].
  - rewrite Ho. by eapply (unseals_id demo_started alice _ id g1 1).
Qed.

Lemma demo_calls_reachable : reachable demo_grant demo_started /\ reachable demo_grant demo_allocated.
Proof.
  assert (reachable demo_grant demo_started) as Hs.
  { apply (reach_start _ demo_compartment); [apply demo_fresh|].
    destruct (start_ok demo_grant demo_compartment demo_fresh) as (g & s & fd & E & _). rewrite E.
    apply comp_result in E as [E _]. unfold demo_started. by rewrite E. }
  split; [done|]. destruct demo_started_ok as (s & fd & A).
  assert (permitted demo_started s [] [] (Allocate alice 96 0 true)) as Hp by (split; [apply demo_genuine; by eexists|lia]).
  destruct (call_ok demo_grant _ _ _ _ _ _ A Hp) as (r & g' & _ & _ & _ & E & _).
  pose proof (reach_call _ _ _ _ _ _ _ _ _ Hs A Hp E) as Hr. apply comp_result in E as [E _].
  unfold demo_allocated, demo_call. cbn [run_call] in E. by rewrite E.
Qed.

(** Bob has claimed the object, which Alice owns. *)
Definition demo_claimed : Compartment := comp_of (heap_claim bob demo_pointer demo_allocated).

Lemma demo_claimed_ok : exists s o objs hs fd, api_ok demo_grant demo_claimed s (o :: objs) hs fd /\
  points_into demo_pointer (obody o) (ochunk o) /\ room 2 s /\ holds 2 o = 1.
Proof.
  destruct demo_allocated_ok as (s & o & hs & fd & A & Hp & Hr & _ & Hc & Ho1).
  destruct (heap_claim_ok demo_grant demo_allocated s o [] hs fd bob demo_pointer A) as
    (r & g' & s' & o' & hs' & E & A' & Hl & _ & _ & Ho); [apply demo_genuine; by eexists|done|].
  assert (result_of (heap_claim bob demo_pointer demo_allocated) = Some 96) as E3 by (vm_compute; reflexivity).
  apply comp_result in E as [E1 E2]. rewrite E3 in E2. injection E2 as <-.
  exists s', o', [], hs', fd. unfold demo_claimed. rewrite E1. split; [exact A'|].
  destruct Ho as [(Hbad & _)|(id & g1 & (a & c & Hu) & [(_ & (Sb & Ss & _) & Hh & _)|(Hbad & _)])];
    [discriminate Hbad| |discriminate Hbad].
  assert (id = 2) as -> by (eapply (unseals_id demo_allocated bob _ id g1 2); [by exists a, c|done|vm_compute; reflexivity]).
  splits.
  - destruct Hp as (P1 & P2 & P3). rewrite <- Sb, <- Ss in P3. exact (conj P1 (conj P2 P3)).
  - unfold room, fewer in *. lia.
  - rewrite Hh. rewrite holds_unclaimed by (rewrite Hc; apply not_elem_of_nil).
    rewrite Ho1. reflexivity.
Qed.
