(* ===== verification/ApiSpec.v ===== *)
(** * What the allocator promises to the compartments

    The theorems on the entry points of [HeapApi]: every sequence of calls keeps the
    compartment in order, an allocation gives a new object and ends, objects live as long as
    somebody holds them, and quotas are conserved.  Each comes with an instance on the
    compartment of [Demo]. *)

From S2P Require Import Prelude LinkedList RingBuffer Bits AllocSizes ChunkHeader MState Bins SmallBins Allocator Quarantine Hazard Dispatch Reach Owns HeapApi Ledger Claims Books ClaimApi FreeApi EntryPoints AllocCalls ApiReach Demo.

Section ApiSpec.
Context `{EnvOk} `{Hepoch : !Epochs} `{Hcheri : !Cheri} (grant : Z -> Z).
Implicit Types (s : MState) (o : object) (g : Compartment).






(** C10.  What another compartment holds survives: whatever [heap_free] the capability [hc]
    makes, an object that [id] also holds is still there, with all references of [id]. *)
Theorem held_object_survives g s o objs hs fd hc mem id : api_ok grant g s (o :: objs) hs fd -> genuine g hc ->
  points_into mem (obody o) (ochunk o) -> room 2 s -> id <> 0 -> 0 < holds id o ->
  (forall id' g1, unseals g hc AllocatorPermitNone id' g1 -> id' <> id) ->
  exists r g' s' objs' hs' o', heap_free hc mem g = Ok (r, g') /\ api_ok grant g' s' objs' hs' fd /\
    o' ∈ objs' /\ obody o' = obody o /\ csize (ochunk o') = csize (ochunk o) /\ holds id o' = holds id o.
Proof.
  intros A Hg Hp Hroom Hid Hh Hother.
  destruct (heap_free_ok grant g s o objs hs fd hc mem A Hg Hp Hroom) as (r & g1 & g' & s' & objs' & hs' & E & A' & _ & Hf & _).
  assert (exists o', o' ∈ objs' /\ obody o' = obody o /\ csize (ochunk o') = csize (ochunk o) /\ holds id o' = holds id o) as (o' & Ho').
  { destruct Hf as [(_ & _ & _ & ->)|(id' & g2 & Hask & Hc)]; [exists o; splits; [left|done|done|done]|].
    specialize (Hother id' g2 Hask). eapply freed_holds; [exact Hc|congruence|done|done]. }
  exists r, g', s', objs', hs', o'. tauto.
Qed.

(** A chunk that was freed and that only a hazard pointer keeps cannot be freed again:
    [heap_free] and [heap_can_free] refuse, and change nothing but the caller's identifier. *)
Theorem freed_chunk_refused g s objs hs fd hc mem b d really : api_ok grant g s objs hs fd -> genuine g hc ->
  (b, d) ∈ hs -> points_into mem b d ->
  exists g', heap_free_internal hc mem really g = Ok (- EPERM, g') /\ api_ok grant g' s objs hs fd.
Proof. apply heap_free_idle. Qed.

(** The first call makes the heap: nothing is held, and the quotas are what was granted. *)
Theorem first_call_starts `{Hconf : !Configured} g : fresh grant g -> exists g' s fd, check_gm g = Ok (tt, g') /\
  api_ok grant g' s [] [] fd /\ capabilities g' = capabilities g.
Proof. apply start_ok. Qed.
End ApiSpec.

(** ** Instances *)





(** Alice frees the object that Bob has claimed. *)
Lemma held_object_survives_witness : exists s o objs hs fd r g' s' objs' hs' o',
  api_ok demo_grant demo_claimed s (o :: objs) hs fd /\ 0 < holds 2 o /\
  heap_free alice demo_pointer demo_claimed = Ok (r, g') /\ api_ok demo_grant g' s' objs' hs' fd /\
  o' ∈ objs' /\ obody o' = obody o /\ csize (ochunk o') = csize (ochunk o) /\ holds 2 o' = holds 2 o.
Proof.
  destruct demo_claimed_ok as (s & o & objs & hs & fd & A & Hp & Hr & Hh).
  assert (0 < holds 2 o) as Hh0 by (rewrite Hh; lia).
  destruct (held_object_survives demo_grant demo_claimed s o objs hs fd alice demo_pointer 2 A) as
    (r & g' & s' & objs' & hs' & o' & H); [apply demo_genuine; by eexists|exact Hp|exact Hr|lia|exact Hh0| |].
  { intros id' g1 Hu. assert (id' = 1) as ->; [|lia].
    eapply (unseals_id demo_claimed alice _ id' g1 1 1); [exact Hu|reflexivity|vm_compute; reflexivity]. }
  exists s, o, objs, hs, fd, r, g', s', objs', hs', o'. split; [exact A|]. split; [exact Hh0|exact H].
Defined.

Lemma first_call_starts_witness : fresh demo_grant demo_compartment /\
  exists g' s fd, check_gm demo_compartment = Ok (tt, g') /\ api_ok demo_grant g' s [] [] fd /\
  capabilities g' = capabilities demo_compartment.
Proof. split; [apply demo_fresh|]. apply (first_call_starts demo_grant demo_compartment), demo_fresh. Defined.

(** ** Where the code does not do what it says *)

(** From here on, a hazard pointer covers the chunk at 4368 at the first readings. *)
#[local] Instance retaining : Env :=
  demo_env (fun n i => if (i =? 0)%nat && (n <? 14)%nat then mkCap 4368 8 true false else null_cap).

Definition pointer_of (r : option (cap + Z)) : cap := match r with Some (inl c) => c | _ => null_cap end.

Definition allocate96 : C cap :=
  r ← heap_allocate 5 [] true true alice 96 0; mret (pointer_of r).

(** Alice allocates an object and frees it; Bob claims it and frees it. *)
Definition freed_claimed_freed : C (list Z) :=
  _ ← check_gm;
  p ← allocate96;
  r1 ← heap_free alice p;
  r2 ← heap_claim bob p;
  r3 ← heap_free bob p;
  mret [cbase p; r1; r2; r3].

(** Then the hazard pointer goes, and Alice allocates again. *)
Definition then_allocated : C (list Z) :=
  r ← freed_claimed_freed;
  _ ← on_gm (modify (fun s => with_counters (sanityCounter s) 16 (kicks s) s));
  p ← allocate96;
  mret (cbase p :: r).

Definition quarantine_of {A} (o : outcome (A * Compartment)) : option (A * list Z * Z) :=
  match o with
  | Ok (v, g) => s ← gm g; Some (v, cbase <$> hazardQuarantine s, heapQuarantineSize s)
  | Err _ => None
  end.

(** An object that its owner has freed while a hazard pointer covers it can be claimed and
    freed again: every call succeeds, the chunk waits twice in the hazard quarantine, and when
    the hazard pointer is gone the 104 bytes of the one chunk enter the quarantine twice. *)
Theorem claim_revives_freed :
  quarantine_of (freed_claimed_freed demo_compartment) = Some ([4368; 0; 96; 0], [4368; 4368], 16) /\
  quarantine_of (then_allocated demo_compartment) = Some ([4472; 4368; 0; 96; 0], [], 208).
Proof. split; vm_compute; reflexivity. Qed.

#[local] Instance retaining_ok : EnvOk.
Proof. split; cbn; (lia || done). Qed.

#[local] Instance retaining_epochs : Epochs.
Proof. split; [apply demo_epochs|apply demo_epochs]. Qed.

#[local] Instance retaining_cheri : Cheri.
Proof. by apply cheriot_cheri. Defined.

#[local] Instance retaining_configured : Configured.
Proof. split; vm_compute; (done || congruence). Qed.

(** Alice has freed her object, which waits in the hazard quarantine. *)
Definition retained_started : Compartment := comp_of (check_gm demo_compartment).
Definition retained_allocated : Compartment := comp_of (heap_allocate turns [] true true alice 96 0 retained_started).
Definition retained : Compartment := comp_of (heap_free alice demo_pointer retained_allocated).

Lemma retained_in_order : exists s objs hs fd, api_ok demo_grant retained s objs hs fd.
Proof.
  destruct (start_ok demo_grant demo_compartment demo_fresh) as (g0 & s0 & fd & E0 & A0 & _).
  apply comp_result in E0 as [E0 _]. rewrite <- E0 in A0.
  destruct (sole_object demo_grant retained_started s0 fd alice 96 demo_pointer A0) as (s1 & o & hs1 & id & g1 & A1 & Hx & _);
    [apply demo_genuine; by eexists|lia|vm_compute; reflexivity|].
  destruct (heap_free_ok demo_grant retained_allocated s1 o [] hs1 fd alice demo_pointer A1) as
    (r & g2 & g3 & s3 & objs3 & hs3 & E3 & A3 & _); [apply demo_genuine; by eexists|exact Hx| |].
  - apply (room_of _ _ _ _ _ _ 2 0 A1); [vm_compute; reflexivity|cbn; lia].
  - apply comp_result in E3 as [E3 _]. exists s3, objs3, hs3, fd. unfold retained. rewrite E3. exact A3.
Qed.

Lemma retained_ok : exists s objs hs fd d, api_ok demo_grant retained s objs hs fd /\ (4368, d) ∈ hs /\ points_into demo_pointer 4368 d.
Proof.
  destruct retained_in_order as (s & objs & hs & fd & A). pose proof (ap_ledger _ _ _ _ _ _ A) as L.
  assert ((fun s => cbase <$> hazardQuarantine s) <$> gm retained = Some [4368]) as Eh by (vm_compute; reflexivity).
  rewrite (ap_gm _ _ _ _ _ _ A) in Eh. injection Eh as Eh.
  assert (4368 ∈ hs.*1) as ([b d] & Eb & Hd)%list_elem_of_fmap by (rewrite <- (lg_hazards _ _ _ _ _ L), Eh; left).
  cbn [fst] in Eb. subst b. exists s, objs, hs, fd, d. split; [exact A|]. split; [exact Hd|].
  pose proof (lg_waiting _ _ _ _ _ L) as Hw. rewrite Forall_forall in Hw. destruct (Hw _ Hd) as [_ [Hm _]]. cbn [snd] in Hm.
  change MinChunkSize with 16 in Hm. unfold points_into. change sizeof_header with 8. cbn [demo_pointer ctag csealed_cap cbase].
  splits; (reflexivity || lia).
Qed.

Lemma freed_chunk_refused_witness : exists s objs hs fd d g', api_ok demo_grant retained s objs hs fd /\ (4368, d) ∈ hs /\
  heap_free_internal alice demo_pointer true retained = Ok (- EPERM, g') /\ api_ok demo_grant g' s objs hs fd.
Proof.
  destruct retained_ok as (s & objs & hs & fd & d & A & Hd & Hx).
  destruct (freed_chunk_refused demo_grant retained s objs hs fd alice demo_pointer 4368 d true A) as (g' & H);
    [apply demo_genuine; by eexists|exact Hd|exact Hx|].
  exists s, objs, hs, fd, d, g'. split; [exact A|]. split; [exact Hd|exact H].
Defined.
