(* ===== verification/AllocatorSpec.v ===== *)
(** * What the allocator promises

    The theorems about [Allocator] as a whole, each with an application to a concrete
    allocator: the one of [Demo]. *)

From S2P Require Import Prelude LinkedList RingBuffer Bits AllocSizes ChunkHeader MState Bins SmallBins TreeBins TreeUnlink FreeLists TreeSelect Allocator Heap Release Malloc Accounts Quarantine Dequeue FreeOp Hazard MallocOp Memalign Sanity Label Dispatch Reach Demo.

(** ** The whole allocator *)

(** C1.  In every state the allocator reaches, whatever was requested and freed before and
    whatever the revoker and the hazard pointers did, the invariant holds: the headers
    tile the heap, no two free chunks are adjacent, the bins hold exactly the free chunks,
    the quarantine holds chunks that are still marked in use, the byte counts are exact
    and the allocated chunks do not overlap.  No call aborts, faults or fails an
    assertion. *)
Theorem allocator_safe `{EnvOk} `{!Epochs} `{!Configured} s : reached s ->
  exists l F q, alloc_ok s l F q /\
    (forall b c b' c', (b, c) ∈ allocated l q -> (b', c') ∈ allocated l q -> b <> b' ->
      b + csize c <= b' \/ b' + csize c' <= b) /\
    (forall bytes, may_request bytes -> exists p s', mspace_malloc bytes s = Ok (p, s')) /\
    (forall b n, may_free s b n -> exists s', mspace_free (from_body b) n s = Ok (0, s')).
Proof.
  intros Hr. destruct (reached_alloc_ok s Hr) as (l & F & q & Ha). exists l, F, q. splits; [done| | |].
  - intros b c b' c'. apply allocated_disjoint. apply (ao_sizes _ _ (ho_arena _ _ _ (so_heap _ _ _ _ _ (al_state _ _ _ _ Ha)))).
  - intros bytes Hb. destruct (mspace_malloc_ok _ _ _ _ _ Ha Hb) as (p & s' & _ & _ & _ & E & _). by exists p, s'.
  - intros b n (l' & F' & q' & c & Ha' & Hf & Hn & Hn8 & Hp & Hh & Hl).
    destruct (mspace_free_spec _ _ _ _ _ _ _ Ha' Hf Hn Hn8 Hp Hh Hl) as (s' & _ & _ & _ & _ & E & _). by exists s'.
Qed.

Lemma allocator_safe_witness : reached demo_malloced /\ exists l F q, alloc_ok demo_malloced l F q.
Proof.
  assert (reached demo_malloced) as Hr.
  { destruct demo_malloced_ok as (_ & _ & _ & _ & E & _).
    eapply (reached_malloc demo_state 96); [apply reached_init, demo_init|split; vm_compute; congruence|exact E]. }
  split; [exact Hr|]. destruct (allocator_safe _ Hr) as (l & F & q & Ha & _). exists l, F, q. exact Ha.
Defined.

(** C3.  [mspace_malloc] hands out a chunk that was not allocated, large enough for the
    request, without claims and not sealed, and changes no other allocated chunk; it
    returns null only if no free chunk is large enough. *)
Theorem mspace_malloc_allocates `{EnvOk} `{!Epochs} s l F q bytes :
  alloc_ok s l F q -> 0 <= bytes < 2 ^ 32 - 32 ->
  exists p s' l' F' q', mspace_malloc bytes s = Ok (p, s') /\ alloc_ok s' l' F' q' /\ kept s s' /\
    malloc_outcome l q bytes p l' F' q'.
Proof. apply mspace_malloc_ok. Qed.

Lemma mspace_malloc_allocates_witness : alloc_ok demo_state init_chunks init_frees no_quarantine /\
  exists p s' l' F' q', mspace_malloc 96 demo_state = Ok (p, s') /\ alloc_ok s' l' F' q' /\ kept demo_state s' /\
    malloc_outcome init_chunks no_quarantine 96 p l' F' q'.
Proof.
  split; [apply demo_init|]. apply (mspace_malloc_allocates _ _ _ _ 96 (proj2 demo_init)).
  lia.
Defined.

(** C2.  [mspace_free] ends the life of an allocated chunk if every hazard pointer was seen, from
    the call on, not to cover it; otherwise one was seen to cover it, and the chunk is put in
    the hazard quarantine instead.  Of the entries that are there, those that were seen to be
    covered by no hazard pointer and are not claimed are freed, an entry stays only if it was seen
    to be covered, and no other chunk is freed. *)
Theorem mspace_free_frees `{EnvOk} `{!Epochs} s l F q b c n :
  alloc_ok s l F q -> freeable l q b c -> 0 <= n <= csize c - sizeof_header -> n mod 8 = 0 ->
  is_precise_range b n = true -> b ∉ cbase <$> hazardQuarantine s ->
  (length (hazardQuarantine s) < hazard_count)%nat ->
  exists s' l' F' q' gone, mspace_free (from_body b) n s = Ok (0, s') /\ alloc_ok s' l' F' q' /\
    allocated l q ≡ₚ gone ++ allocated l' q' /\
    free_outcome s l q b n (strip c) gone s' /\ frees_only gone s s' /\ (readings s <= readings s')%nat.
Proof. apply mspace_free_spec. Qed.

Lemma mspace_free_frees_witness : exists l F q c, alloc_ok demo_malloced l F q /\ freeable l q 4368 c /\
  exists s' l' F' q' gone, mspace_free (from_body 4368) 96 demo_malloced = Ok (0, s') /\
    alloc_ok s' l' F' q' /\ allocated l q ≡ₚ gone ++ allocated l' q'.
Proof.
  destruct demo_malloced_ok as (l & F & q & c & _ & Ha & Hf & Hc). exists l, F, q, c.
  split; [exact Ha|]. split; [exact Hf|].
  assert (hazardQuarantine demo_malloced = []) as Eh by (vm_compute; reflexivity).
  destruct (mspace_free_frees demo_malloced l F q 4368 c 96) as (s' & l' & F' & q' & gone & E & Ha' & Hp & _);
    [exact Ha|exact Hf|clear -Hc; change sizeof_header with 8; lia|reflexivity|vm_compute; reflexivity
    |rewrite Eh; apply not_elem_of_nil|rewrite Eh; cbn; clear; lia|].
  exists s', l', F', q', gone. split; [exact E|]. split; [exact Ha'|exact Hp].
Defined.

(** C5.  [mspace_dispatch] pays for what it hands out: a request either gets a chunk whose
    body is large enough and has exact bounds, with the owner and the seal it was asked
    for, and the size of the chunk is taken off the quota; or it leaves the quota and every
    allocated chunk alone and the answer tells which of the reasons holds.  Other chunks
    are freed only out of the hazard quarantine. *)
Theorem dispatch_charges_quota `{EnvOk} `{!Epochs} `{!Cheri} s l F q bytes quota o sealed :
  alloc_ok s l F q -> 0 <= bytes < 2 ^ 32 -> 0 <= quota < 2 ^ 32 -> 0 <= o < 2 ^ 13 ->
  exists r quota' s' l' F' q' gone rest, mspace_dispatch bytes quota o sealed s = Ok ((r, quota'), s') /\
    alloc_ok s' l' F' q' /\ allocated l q ≡ₚ gone ++ rest /\ quiet_but (allocated l q) gone s s' /\ dispatch_outcome bytes quota o sealed rest r quota' s' l' F' q'.
Proof. apply mspace_dispatch_ok. Qed.

Lemma dispatch_charges_quota_witness : alloc_ok demo_state init_chunks init_frees no_quarantine /\
  exists r quota' s', mspace_dispatch 1000 2000 7 false demo_state = Ok ((r, quota'), s') /\
    exists l' F' q', alloc_ok s' l' F' q'.
Proof.
  split; [apply demo_init|].
  destruct (dispatch_charges_quota demo_state init_chunks init_frees no_quarantine 1000 2000 7 false) as
    (r & quota' & s' & l' & F' & q' & gone & rest & E & Ha & _); [apply demo_init|lia|lia|lia|].
  exists r, quota', s'. split; [exact E|]. exists l', F', q'. exact Ha.
Defined.

(** The allocator's own check of every free list and every tree, which it runs in
    debug builds, finds nothing in any state that satisfies the invariant, and changes
    nothing. *)
Theorem debug_check_passes `{EnvOk} `{!Epochs} s l F q : alloc_ok s l F q ->
  exists rd kk, (readings s <= rd)%nat /\ ok_malloc_state s = Ok (tt, with_counters (sanityCounter s) rd kk s).
Proof. intros Ha. apply (malloc_state_ok s l F q), Ha. Qed.

Lemma debug_check_passes_witness : alloc_ok demo_state init_chunks init_frees no_quarantine /\
  exists rd kk, (readings demo_state <= rd)%nat /\
    ok_malloc_state demo_state = Ok (tt, with_counters (sanityCounter demo_state) rd kk demo_state).
Proof.
  split; [apply demo_init|]. exact (debug_check_passes demo_state init_chunks init_frees no_quarantine (proj2 demo_init)).
Defined.

(** ** The quarantine *)

(** C4.  The chunks that [mspace_qtbin_deqn] returns to the free lists have been in
    quarantine for a whole revocation pass; no more than the given number leave, no
    allocated chunk is touched, and the invariant is kept. *)
Theorem dequeued_only_after_sweep `{EnvOk} `{!Epochs} loops s l F q : state_ok 0 s l F q ->
  exists gone s' l' F' q', mspace_qtbin_deqn loops s = Ok (Z.of_nat (length gone), s') /\
    state_ok 0 s' l' F' q' /\ allocated l' q' ≡ₚ allocated l q /\ (length gone <= loops)%nat /\
    qmembers q ≡ₚ gone ++ qmembers q' /\ Forall (swept s') gone.
Proof.
  intros So. destruct (qtbin_deqn_ok loops _ _ _ _ So) as (gone & s' & l' & F' & q' & E & So' & Ha & _ & Hl & Hm & Hs & _).
  by exists gone, s', l', F', q'.
Qed.

Lemma dequeued_only_after_sweep_witness : exists l F q, state_ok 0 demo_swept l F q /\ qmembers q <> [] /\
  exists gone s' q', mspace_qtbin_deqn 4 demo_swept = Ok (Z.of_nat (length gone), s') /\
    qmembers q ≡ₚ gone ++ qmembers q' /\ Forall (swept s') gone.
Proof.
  destruct demo_swept_ok as (l & F & q & So & Hne & _). exists l, F, q. split; [exact So|]. split; [exact Hne|].
  destruct (dequeued_only_after_sweep 4 _ _ _ _ So) as (gone & s' & l' & F' & q' & E & _ & _ & _ & Hm & Hs).
  exists gone, s', q'. split; [exact E|]. split; [exact Hm|exact Hs].
Defined.

(** C18.  Once a revocation pass has run since every chunk in quarantine was freed, enough
    iterations empty the quarantine. *)
Theorem quarantine_drains `{EnvOk} `{!Epochs} loops s l F q : state_ok 0 s l F q -> all_ready s q ->
  (length (qmembers q) < loops)%nat ->
  exists s' l' F' q', mspace_qtbin_deqn loops s = Ok (Z.of_nat (length (qmembers q)), s') /\
    state_ok 0 s' l' F' q' /\ qmembers q' = [] /\ heapQuarantineSize s' = 0.
Proof.
  intros So Hr Hl. destruct (qtbin_deqn_ok loops _ _ _ _ So) as
    (gone & s' & l' & F' & q' & E & So' & _ & _ & _ & Hm & _ & Hall).
  assert (qmembers q' = []) as Hq'.
  { destruct (Hall Hr) as [Eg|?]; [|done]. apply Permutation_length in Hm. rewrite length_app in Hm. lia. }
  rewrite Hq', app_nil_r in Hm. exists s', l', F', q'. splits; [by rewrite Hm|done|done|].
  rewrite (so_quarantine _ _ _ _ _ So'), Hq'. done.
Qed.

Lemma quarantine_drains_witness : exists l F q, state_ok 0 demo_swept l F q /\ qmembers q <> [] /\
  exists s' q', mspace_qtbin_deqn 100 demo_swept = Ok (Z.of_nat (length (qmembers q)), s') /\
    qmembers q' = [] /\ heapQuarantineSize s' = 0.
Proof.
  destruct demo_swept_ok as (l & F & q & So & Hne & Hr & Hl). exists l, F, q. split; [exact So|]. split; [exact Hne|].
  destruct (quarantine_drains 100 _ _ _ _ So Hr Hl) as (s' & l' & F' & q' & E & _ & Hq & Hz).
  exists s', q'. split; [exact E|]. split; [exact Hq|exact Hz].
Defined.

(** [quarantine_pending_push] always finds a ring for the chunk: when both pending
    rings hold chunks of earlier epochs the older one has been swept, and is emptied into
    the finished ring first.  The chunk enters the quarantine with its epoch and nothing
    else changes. *)
Theorem pending_push_finds_ring `{EnvOk} `{!Epochs} {P : Painted} k s l F q b d e :
  state_inv k s l F q -> (b, d) ∈ used heap_address l -> cclaims d = 0 -> MinChunkSize <= csize d ->
  b ∉ wbody <$> qmembers q -> body (from_body b) = b -> current s e ->
  (forall ix, ix ∈ qixs q -> qstamp q ix <= e) ->
  exists s' q', quarantine_pending_push (u32 e) (from_body b) s = Ok (tt, s') /\
    state_inv k (count_quarantined (csize d) s') l F q' /\ kept s s' /\ off_heap s s' /\
    qmembers q' ≡ₚ mkWaiting b (csize d) e :: qmembers q.
Proof. apply pending_push_ok. Qed.

Lemma pending_push_finds_ring_witness : exists l F q d, state_ok 0 (read_env demo_malloced) l F q /\
  exists s' q', quarantine_pending_push (u32 0) (from_body 4368) (read_env demo_malloced) = Ok (tt, s') /\
    qmembers q' ≡ₚ mkWaiting 4368 (csize d) 0 :: qmembers q.
Proof.
  destruct demo_malloced_ok as (l & F & q & c & _ & Ha & Hf & Hc). pose proof (al_state _ _ _ _ Ha) as So.
  exists l, F, q, (strip c). split; [apply (read_env_ok _ _ _ _ _ So)|].
  destruct (freeable_address _ _ _ _ _ _ (so_heap _ _ _ _ _ So) Hf) as (_ & _ & _ & _ & Eb).
  assert (readings demo_malloced = 0%nat) as Er by (vm_compute; reflexivity).
  destruct (pending_push_finds_ring (P := paint (qmembers q)) 0 (read_env demo_malloced) l F q 4368 (strip c) 0) as
    (s' & q' & E & _ & _ & _ & Hm);
    [apply (read_env_ok _ _ _ _ _ So)|apply (freeable_used _ _ _ _ Hf)|apply (fr_claims _ _ _ _ Hf)
    |apply (fr_size _ _ _ _ Hf)|apply (fr_out _ _ _ _ Hf)|exact Eb| | |].
  - split; [reflexivity|]. split; [lia|]. exists 0%nat. split; [cbn; rewrite Er; lia|]. vm_compute. congruence.
  - intros ix Hix. destruct (qo_epochs _ _ (so_quar _ _ _ _ _ So) ix Hix) as (_ & _ & (n & Hn & _) & _).
    rewrite Er in Hn. clear -Hn. lia.
  - exists s', q'. split; [exact E|exact Hm].
Defined.

(** [mstate_init] turns the heap's memory into one free chunk and the footer and
    establishes the invariant; nothing but the footer is allocated. *)
Theorem mstate_init_establishes `{EnvOk} `{!Epochs} :
  is_aligned heap_base = true -> is_aligned (heap_top - heap_base) = true ->
  heap_address = heap_base + pad_request sizeof_MState + 8 * Z.of_nat hazard_count ->
  MinChunkSize + sizeof_header <= heap_size -> heap_top - heap_base <= MaxChunkSize ->
  exists s, mstate_init zero_state = Ok (true, s) /\
    alloc_ok s init_chunks init_frees no_quarantine /\
    allocated init_chunks no_quarantine = [(heap_address + heap_size, strip footer_chunk)].
Proof. apply mstate_init_ok. Qed.

Lemma mstate_init_establishes_witness : exists s, mstate_init zero_state = Ok (true, s) /\
  alloc_ok s init_chunks init_frees no_quarantine.
Proof.
  destruct mstate_init_establishes as (s & E & Ha & _); [reflexivity|reflexivity|reflexivity
    |vm_compute; congruence|vm_compute; congruence|]. exists s. split; [exact E|exact Ha].
Defined.

(** ** The free lists *)

(** C15.  [mspace_free_internal] makes a chunk in use free and merges it with the free
    chunks on both sides: the tiling becomes [release l1 c l2], in which no two free
    chunks are adjacent, and the bins hold its free chunks.  Only cells of free chunks
    are written. *)
Theorem free_internal_coalesces `{EnvOk} {P : Painted} s l1 c l2 F :
  heap_ok s (l1 ++ c :: l2) F -> l2 <> [] -> cuse c = true -> cclaims c = 0 ->
  exists s' F', mspace_free_internal (heap_address + total l1) s = Ok (tt, s') /\
    heap_ok s' (release l1 c l2) F' /\
    touches s s' (fun q => is_Some (F !! q) \/ q = heap_address + total l1 + sizeof_header).
Proof. apply free_internal_ok. Qed.

Lemma free_internal_coalesces_witness : exists l1 c l2 F q, state_ok 0 demo_malloced (l1 ++ c :: l2) F q /\
  exists s' F', mspace_free_internal (heap_address + total l1) demo_malloced = Ok (tt, s') /\
    heap_ok (P := paint (qmembers q)) s' (release l1 c l2) F'.
Proof.
  destruct demo_malloced_ok as (l & F & q & c & _ & Ha & Hf & Hc). pose proof (al_state _ _ _ _ Ha) as So.
  destruct (freeable_address _ _ _ _ _ _ (so_heap _ _ _ _ _ So) Hf) as (l1 & l2 & -> & _).
  exists l1, c, l2, F, q. split; [exact So|].
  destruct (free_internal_coalesces (P := paint (qmembers q)) demo_malloced l1 c l2 F) as (s' & F' & E & Hok & _);
    [apply So|apply (not_footer _ _ _ _ _ (so_heap _ _ _ _ _ So)), (fr_size _ _ _ _ Hf)
    |apply (fr_use _ _ _ _ Hf)|apply (fr_claims _ _ _ _ Hf)|].
  exists s', F'. split; [exact E|exact Hok].
Defined.

(** C16.  The search for a small chunk takes the smallest free chunk that fits, carves it
    and marks it in use; it returns null exactly when no free chunk fits, and then
    changes nothing. *)
Theorem malloc_small_best_fit `{EnvOk} {P : Painted} s l F nb :
  heap_ok s l F -> size_ok nb -> nb <= MaxSmallSize ->
  exists p s', malloc_small nb s = Ok (p, s') /\ best_answer s l F nb p s'.
Proof. apply malloc_small_ok. Qed.

Lemma malloc_small_best_fit_witness : state_ok 0 demo_state init_chunks init_frees no_quarantine /\
  exists p s', malloc_small 24 demo_state = Ok (p, s') /\
    best_answer (P := paint []) demo_state init_chunks init_frees 24 p s'.
Proof.
  split; [apply demo_init|]. apply (malloc_small_best_fit (P := paint []));
    [apply (al_state _ _ _ _ (proj2 demo_init))|split; [split; vm_compute; congruence|reflexivity]|vm_compute; congruence].
Defined.

(** C17.  The search for a large chunk takes a free chunk that fits, carves it and marks it
    in use; it returns null exactly when no free chunk fits, and then changes nothing. *)
Theorem malloc_large_finds `{EnvOk} {P : Painted} s l F nb :
  heap_ok s l F -> request_ok nb -> MaxSmallSize < nb ->
  exists p s', malloc_large nb s = Ok (p, s') /\ answered s l F nb p s'.
Proof. apply malloc_large_ok. Qed.

Lemma malloc_large_finds_witness : state_ok 0 demo_state init_chunks init_frees no_quarantine /\
  exists p s', malloc_large 104 demo_state = Ok (p, s') /\
    answered (P := paint []) demo_state init_chunks init_frees 104 p s'.
Proof.
  split; [apply demo_init|]. apply (malloc_large_finds (P := paint []));
    [apply (al_state _ _ _ _ (proj2 demo_init))|split; [split; vm_compute; congruence|reflexivity]|reflexivity].
Defined.

(** ** Where the code does not do what it says *)

(** Free chunks of 120, 96 and 112 bytes in one tree bin. *)
Definition demo_fragmented : MState := state_of ((
  a ← mspace_malloc 112; _ ← mspace_malloc 16; b ← mspace_malloc 88; _ ← mspace_malloc 16;
  c ← mspace_malloc 104; _ ← mspace_malloc 16;
  _ ← mspace_free_internal (from_body a); _ ← mspace_free_internal (from_body b);
  mspace_free_internal (from_body c)) demo_state).

Definition in_use_at (p : Z) (s : MState) : bool :=
  match chunk_header p s with Ok (h, _) => is_in_use h | Err _ => true end.

(** [tmalloc_large] is not a best fit: asked for 104 bytes it takes the free chunk of 120
    bytes at 4360 although the one at 4624, of 112 bytes, is free too. *)
Lemma tmalloc_large_not_best_fit :
  value_of (chunk_size 4360 demo_fragmented) = 120 /\ in_use_at 4360 demo_fragmented = false /\
  value_of (chunk_size 4624 demo_fragmented) = 112 /\ in_use_at 4624 demo_fragmented = false /\
  value_of (tmalloc_large 104 demo_fragmented) = 4360.
Proof. vm_compute. splits; reflexivity. Qed.

(** One past the end of the heap [allocation_start] finds the footer instead of nothing. *)
Lemma allocation_start_of_top :
  value_of (allocation_start heap_top demo_state) = heap_top - sizeof_header.
Proof. vm_compute. reflexivity. Qed.

(** A hazard pointer covers the chunk at 4368 at the first three readings. *)
Definition hazard_demo : Env :=
  demo_env (fun n i => if (i =? 0)%nat && (n <? 3)%nat then mkCap 4368 8 true false else null_cap).

(** [mspace_free] twice on a chunk that a hazard pointer covers, and the next deallocation
    when it covers it no more. *)
Definition freed_twice : MState * list Z :=
  let E := hazard_demo in
  match (a ← mspace_malloc 96; r1 ← mspace_free (from_body a) 96; r2 ← mspace_free (from_body a) 96;
         b ← mspace_malloc 96; r3 ← mspace_free (from_body b) 96; mret [a; r1; r2; b; r3]) demo_state with
  | Ok (v, s) => (s, v)
  | Err _ => (zero_state, [])
  end.

(** A chunk freed twice while a hazard pointer covers it: both calls succeed, the chunk enters the quarantine twice (312 bytes are counted for
    two chunks of 104), and an allocation after the next revocation pass fails. *)
Lemma double_free_under_hazard :
  freed_twice.2 = [4368; 0; 0; 4472; 0] /\ heapQuarantineSize freed_twice.1 = 312 /\
  (a ← @mspace_malloc hazard_demo 96; b ← @mspace_malloc hazard_demo 96; @mspace_malloc hazard_demo 96)
    (with_counters 0 64 0 freed_twice.1) = Err EAssert.
Proof. vm_compute. splits; reflexivity. Qed.
